(* ===== verification/_CoqProject ===== *)
-Q . S2P
Prelude.v
Headers.v
KUtil.v
PTE.v
PageAllocator.v
Heap.v
PageTables.v
Sv39.v
AddressSpace.v
AddressSpaceOps.v
Bytes.v
Checksum.v
Packets.v
PacketTheorems.v
Sockets.v
TcpConnection.v
TcpTheorems.v
NetRx.v
NetWait.v
Pipe.v
Futex.v
Timer.v
KernelTasks.v
Signal.v
Thread.v
SignalDelivery.v
ThreadWait.v
ProcessTable.v
ProcessOps.v
ProcessTheorems.v
Scheduler.v
SchedulerTheorems.v
ResultM.v
Parser.v
Paths.v
Vfs.v
VfsTheorems.v
OpenFile.v
FdTable.v
FdTheorems.v
FsOps.v
FsTheorems.v
Tty.v
Virtqueue.v
VirtqueueTheorems.v
Block.v
ForkMemory.v
ForkTheorems.v
ForkRefinement.v
Elf.v
Loader.v
LoaderTheorems.v
Exec.v
Cpio.v
Initramfs.v
DeviceTree.v
DeviceTreeTheorems.v
Pci.v
Plic.v
Leb128.v
EhFrame.v
EhFrameTheorems.v
Unwinder.v
UnwinderTheorems.v
Ext2.v
Ext2Theorems.v
