(* ===== verification/Prelude.v ===== *)
(** * A verification of the Solaya kernel

    Solaya (src/) is a RISC-V kernel in Rust with its drivers, a small user space and
    host-side tools. This library translates the parts of it that compute and keep
    state into Rocq definitions, and proves what makes them correct.

    ** Conventions

    Every function of the source that can panic returns an [outcome]: [Ret a], or
    [Panic] for a failed [assert!], [expect], [unwrap], an index out of range, and an
    arithmetic overflow (all build profiles set [overflow-checks = true]). Machine
    integers are [Z] with their width written out ([add 64], [wrapping_sub 32], [shl]).
    A system call or parser that reports an error returns a [result] (an [errno] or a
    value) or the source's own error type. Objects behind [Arc] and [Weak] live in
    explicit stores, under handles. Code that runs concurrently is split at its locks
    and atomic operations: an execution is a sequence of events, or a path of a step
    relation, and a theorem about it holds for every interleaving. Async code is a
    state machine whose states are the points where it awaits. Loops that are not
    structural take fuel that the theorems show to be enough, by deriving it from
    the data (the number of pages, blocks, bytes or entries).

    Constants that the build generates from the Linux headers are not part of the
    repository. They are class parameters ([Headers], [SigHeaders], [CloneHeaders],
    [FsHeaders], [TtyHeaders], [AuxHeaders]); theorems take the documented values they rely on as
    classes of laws, and instances with the Linux values show the laws can hold.

    ** Files

    - Prelude.v: outcomes, integers, the database [zbits] and tactics for bit-level
      goals, lemmas on lists and folds. Headers.v: the generated constants.
    - KUtil.v: alignment and bit fields (crates/klib/src/util.rs, mm/src/util.rs).

    Memory:
    - PageAllocator.v: crates/mm/src/page_allocator.rs, refined to a finite map of
      live runs ([Module spec]).
    - Heap.v: crates/mm/src/heap.rs, over any page allocator of the interface class.
    - PTE.v, PageTables.v: the Sv39 entries of crates/hal/src/memory and the address
      spaces of crates/kernel/src/memory/page_tables.rs. Sv39.v is the translation
      the hardware performs, written independently; AddressSpace.v and
      AddressSpaceOps.v prove what map, unmap, mprotect and the checks on user
      pointers do to that translation at every address.

    Network (crates/kernel/src/net):
    - Bytes.v, Checksum.v, Packets.v, PacketTheorems.v: byte order, RFC 1071
      checksums, Ethernet, IPv4, UDP, TCP and ARP formats.
    - Sockets.v (sockets.rs), TcpConnection.v and TcpTheorems.v (tcp_connection.rs),
      NetRx.v (the receive path of mod.rs, end to end), NetWait.v (the sleep of the
      receive task).

    Waiting:
    - Pipe.v (io/pipe.rs), Futex.v (processes/futex.rs), Timer.v (processes/timer.rs,
      klib/btreemap.rs), KernelTasks.v (processes/kernel_tasks.rs).

    Processes (crates/kernel/src/processes and syscalls):
    - Signal.v, Thread.v, SignalDelivery.v: signal state, threads, the frame a
      handler runs on; ThreadWait.v: how a blocking call sleeps and is woken.
    - ProcessTable.v, ProcessOps.v, ProcessTheorems.v: the process table, clone, wait4,
      kill, ids and credentials.
    - Scheduler.v, SchedulerTheorems.v: the scheduler on any number of processors.
    - ForkMemory.v, ForkTheorems.v, ForkRefinement.v: the memory of processes (the
      mappings of process.rs, mm_ops.rs, the store fault of trap.rs), refined to
      private memories.
    - Elf.v, Loader.v, LoaderTheorems.v: ELF files and the image of a new program
      (elf.rs, loader.rs). Exec.v: execve and scripts (syscalls/exec_ops.rs).

    Files (crates/kernel/src/fs, processes/fd_table.rs, syscalls/fs_ops.rs, io_ops.rs):
    - ResultM.v: the state and error monad of these files. Parser.v: klib/parser.rs.
    - Paths.v, Vfs.v, VfsTheorems.v: path resolution and mounts over a store of nodes
      (tmpfs, devfs, procfs, mounted ext2 trees).
    - OpenFile.v, FdTable.v, FdTheorems.v, FsOps.v, FsTheorems.v: open files, descriptor
      tables and the system calls on them.
    - Cpio.v, Initramfs.v: the archive format (klib/cpio.rs) and the initial file
      system made from it (fs/initramfs.rs).

    Devices:
    - Tty.v: the terminal (io/tty_device.rs, io/uart.rs).
    - Virtqueue.v, VirtqueueTheorems.v: crates/drivers/src/virtio/virtqueue.rs, refined
      to a set of requests. Block.v: virtio/block.rs over any device of the class
      [BlkDevice].
    - DeviceTree.v, DeviceTreeTheorems.v: the flattened device tree
      (drivers/src/device_tree), against trees laid out as its specification says.
    - Pci.v: the host bridge's windows, the bus walk and base address registers, over
      functions of the class [PciFunction] with the laws [PciBarLaws].
    - Plic.v: the interrupt controller and the table of handlers.

    ** What is shown

    Refinement: the page allocator and the address spaces implement abstract maps, fork
    with copy on write implements private memories, a virtqueue a set of requests.
    Safety: no two owners of a page, a heap block, or a thread; only user memory
    passes the pointer checks; bytes of a pipe or a TCP stream arrive in order.
    Liveness: a waiter whose event has happened is made runnable, for each way to
    wait. Round trips: headers, page-table entries, signal frames, context switches,
    archives. Bounds: every offset a parser of an archive follows lies in its input,
    blocks of a PCI window do not overlap. Formats: an ELF file, an archive or a device
    tree written as its specification says is read as what it describes.
    Where the code does not do what it means to, a theorem exhibits the run; these
    are listed as findings of the manifest.

    ** What is not modelled

    Assembly, memory-mapped I/O and the set-up of devices, which only talk to hardware;
    generated code; formatting and logging; start-up; and the tools that run on the
    host. The components of the manifest say so one by one.
*)
From stdpp Require Export base tactics numbers list list_numbers gmap strings fin_maps.
From Stdlib Require Export ZArith Lia.

#[global] Open Scope Z_scope.

(** ** Outcomes: a value, or a kernel panic

    Every [assert!], [expect], [panic!], out-of-range index and (the build
    sets [overflow-checks = true] in every profile) arithmetic overflow of the
    source ends in [Panic]. *)
Inductive outcome (A : Type) : Type :=
  | Ret (a : A)
  | Panic.
Arguments Ret {A} a.
Arguments Panic {A}.

#[global] Instance outcome_ret : MRet outcome := λ A a, Ret a.
#[global] Instance outcome_bind : MBind outcome := λ A B f m,
  match m with Ret a => f a | Panic => Panic end.
#[global] Instance outcome_fmap : FMap outcome := λ A B f m,
  match m with Ret a => Ret (f a) | Panic => Panic end.

#[global] Instance outcome_eq_dec {A} `{EqDecision A} : EqDecision (outcome A).
Proof. solve_decision. Defined.

(** [assert!(b)] *)
Definition rassert (b : bool) : outcome unit := if b then Ret tt else Panic.

(** [o.expect(..)] / [o.unwrap()] *)
Definition expect {A} (o : option A) : outcome A :=
  match o with Some a => Ret a | None => Panic end.

(** ** Machine integers: [Z] within a width *)
Definition in_width (w x : Z) : Prop := 0 ≤ x < 2 ^ w.

#[global] Instance in_width_dec w x : Decision (in_width w x).
Proof. unfold in_width. apply _. Defined.

Definition wrapping_add (w a b : Z) : Z := (a + b) mod 2 ^ w.
Definition wrapping_sub (w a b : Z) : Z := (a - b) mod 2 ^ w.

Definition checked_add (w a b : Z) : option Z :=
  if a + b <? 2 ^ w then Some (a + b) else None.
Definition checked_sub (a b : Z) : option Z :=
  if b <=? a then Some (a - b) else None.
Definition checked_mul (w a b : Z) : option Z :=
  if a * b <? 2 ^ w then Some (a * b) else None.

(** The plain operators [+], [-], [*]: they panic on overflow. *)
Definition add (w a b : Z) : outcome Z := expect (checked_add w a b).
Definition sub (a b : Z) : outcome Z := expect (checked_sub a b).
Definition mul (w a b : Z) : outcome Z := expect (checked_mul w a b).

(** [x as iN], for the pattern [x] of [w] bits *)
Definition signed (w x : Z) : Z := if x <? 2 ^ (w - 1) then x else x - 2 ^ w.

(** [!x] at width [w] *)
Definition bitnot (w x : Z) : Z := Z.ldiff (Z.ones w) x.

(** [a << n] and [a >> n] at width [w]: a shift by the width or more panics,
    bits shifted past the width are lost. *)
Definition shl (w a n : Z) : outcome Z :=
  if n <? w then Ret (Z.land (Z.shiftl a n) (Z.ones w)) else Panic.
Definition shr (w a n : Z) : outcome Z :=
  if n <? w then Ret (Z.shiftr a n) else Panic.

#[global] Arguments shl _ _ _ : simpl never.
#[global] Arguments shr _ _ _ : simpl never.
#[global] Arguments add _ _ _ : simpl never.
#[global] Arguments sub _ _ : simpl never.
#[global] Arguments mul _ _ _ : simpl never.

(** [a / b], [a % b]: division by zero panics. *)
Definition udiv (a b : Z) : outcome Z := if b =? 0 then Panic else Ret (a / b).
Definition umod (a b : Z) : outcome Z := if b =? 0 then Panic else Ret (a mod b).

(** [for x in l { s = f(s, x) }] *)
Fixpoint foldM {A S} (f : S → A → outcome S) (l : list A) (s : S) : outcome S :=
  match l with
  | [] => Ret s
  | x :: l => s' ← f s x; foldM f l s'
  end.

(** Run the computations whose head is a value. *)
Tactic Notation "bstep" := cbn [mbind outcome_bind mret outcome_ret rassert expect negb].
Tactic Notation "bstep" "in" hyp(H) := cbn [mbind outcome_bind mret outcome_ret rassert expect negb] in H.

(** ** Inversion of monadic computations *)
Lemma bind_Ret {A B} (m : outcome A) (f : A → outcome B) b :
  m ≫= f = Ret b ↔ ∃ a, m = Ret a ∧ f a = Ret b.
Proof. destruct m as [a|]; simpl; split; naive_solver. Qed.

Lemma bind_Panic {A B} (m : outcome A) (f : A → outcome B) :
  m ≫= f = Panic ↔ m = Panic ∨ ∃ a, m = Ret a ∧ f a = Panic.
Proof. destruct m as [a|]; simpl; split; naive_solver. Qed.

Lemma rassert_Ret b u : rassert b = Ret u ↔ b = true.
Proof. destruct b, u; simpl; naive_solver. Qed.

Lemma expect_Ret {A} (o : option A) a : expect o = Ret a ↔ o = Some a.
Proof. destruct o; simpl; naive_solver. Qed.

Lemma add_Ret w a b c : add w a b = Ret c ↔ c = a + b ∧ a + b < 2 ^ w.
Proof.
  unfold add, checked_add. rewrite expect_Ret.
  destruct (Z.ltb_spec (a + b) (2 ^ w)); naive_solver lia.
Qed.

Lemma sub_Ret a b c : sub a b = Ret c ↔ c = a - b ∧ b ≤ a.
Proof.
  unfold sub, checked_sub. rewrite expect_Ret.
  destruct (Z.leb_spec b a); naive_solver lia.
Qed.

Lemma mul_Ret w a b c : mul w a b = Ret c ↔ c = a * b ∧ a * b < 2 ^ w.
Proof.
  unfold mul, checked_mul. rewrite expect_Ret.
  destruct (Z.ltb_spec (a * b) (2 ^ w)); naive_solver lia.
Qed.

(** [inv_outcome]: turn every hypothesis [m ≫= f = Ret b] into its steps. *)
Ltac inv_outcome_step :=
  match goal with
  | H : Ret _ = Ret _ |- _ => injection H as H; try subst
  | H : Panic = Ret _ |- _ => discriminate H
  | H : Ret _ = Panic |- _ => discriminate H
  | H : mret _ = Ret _ |- _ => change (mret ?x) with (Ret x) in H
  | H : (_ ≫= _) = Ret _ |- _ =>
      let a := fresh "r" in let H1 := fresh H in
      apply bind_Ret in H as (a & H1 & H)
  | H : rassert _ = Ret _ |- _ => apply rassert_Ret in H
  | H : expect _ = Ret _ |- _ => apply expect_Ret in H
  | H : add _ _ _ = Ret _ |- _ => apply add_Ret in H as [? H]; try subst
  | H : sub _ _ = Ret _ |- _ => apply sub_Ret in H as [? H]; try subst
  | H : mul _ _ _ = Ret _ |- _ => apply mul_Ret in H as [? H]; try subst
  end.
Ltac inv_outcome := repeat inv_outcome_step.

(** A loop whose body never panics is the pure fold. *)
Lemma foldM_pure {A S} (f : S → A → outcome S) (g : S → A → S) l s :
  (∀ x s, x ∈ l → f s x = Ret (g s x)) →
  foldM f l s = Ret (foldl g s l).
Proof.
  revert s. induction l as [|x l IH]; intros s H; simpl; [done|].
  rewrite H by set_solver. simpl. apply IH. set_solver.
Qed.

(** A loop invariant, indexed by the elements already processed. *)
Lemma foldM_inv {A S} (f : S → A → outcome S) (I : list A → S → Prop) l s s' :
  I [] s →
  (∀ done x rest s1 s2, l = done ++ x :: rest → I done s1 → f s1 x = Ret s2 →
     I (done ++ [x]) s2) →
  foldM f l s = Ret s' → I l s'.
Proof.
  intros H0 Hstep. cut (∀ todo done s1, l = done ++ todo → I done s1 →
    foldM f todo s1 = Ret s' → I l s').
  { intros Hcut. apply (Hcut l []); done. }
  intros todo. induction todo as [|x todo IH]; intros done s1 -> HI Hf; simpl in *.
  { inv_outcome. by rewrite app_nil_r. }
  apply bind_Ret in Hf as (s2 & Hx & Hf).
  apply (IH (done ++ [x]) s2); [by rewrite <-app_assoc|eauto|done].
Qed.

Lemma foldM_app {A S} (f : S → A → outcome S) l1 l2 s :
  foldM f (l1 ++ l2) s = foldM f l1 s ≫= foldM f l2.
Proof.
  revert s. induction l1 as [|x l1 IH]; intros s; simpl; [done|].
  destruct (f s x); simpl; auto.
Qed.

Lemma seqZ_snoc n : 0 ≤ n → seqZ 0 (n + 1) = seqZ 0 n ++ [n].
Proof. intros. by rewrite seqZ_app by lia. Qed.

(** ** Alignment *)
Lemma mod_add_0 a b m : a mod m = 0 → b mod m = 0 → (a + b) mod m = 0.
Proof.
  intros Ha Hb. destruct (decide (m = 0)) as [->|Hm].
  - rewrite Z.mod_0_r in *. lia.
  - by rewrite Z.add_mod, Ha, Hb by done.
Qed.

(** ** Bits *)
Lemma testbit_bitnot w x i :
  0 ≤ w → Z.testbit (bitnot w x) i = bool_decide (0 ≤ i < w) && negb (Z.testbit x i).
Proof.
  intros Hw. unfold bitnot. rewrite Z.ldiff_spec, Z.testbit_ones by done.
  f_equal. case_bool_decide; lia.
Qed.

Lemma testbit_ones' w i :
  0 ≤ w → Z.testbit (Z.ones w) i = bool_decide (0 ≤ i < w).
Proof. intros. rewrite Z.testbit_ones by done. case_bool_decide; lia. Qed.

Lemma testbit_out w x i : in_width w x → w ≤ i → Z.testbit x i = false.
Proof.
  intros [Hx1 Hx2] Hi.
  assert (0 ≤ w ∨ w < 0) as [|Hw] by lia; [|rewrite Z.pow_neg_r in Hx2; lia].
  destruct (decide (x = 0)) as [->|]; [apply Z.testbit_0_l|].
  apply Z.bits_above_log2; [lia|]. apply Z.log2_lt_pow2 in Hx2; lia.
Qed.

Lemma testbit_1 i : Z.testbit 1 i = bool_decide (i = 0).
Proof. case_bool_decide; subst; [done|]. destruct i; [done|by destruct p|done]. Qed.

Lemma in_width_bits w x :
  0 ≤ w → 0 ≤ x → (∀ i, w ≤ i → Z.testbit x i = false) → in_width w x.
Proof.
  intros Hw Hx H. split; [done|].
  rewrite <-(Z.mod_small x (2 ^ w)); [apply Z.mod_pos_bound; lia|].
  split; [done|]. destruct (decide (x = 0)) as [->|]; [lia|].
  apply Z.log2_lt_pow2; [lia|].
  destruct (decide (Z.log2 x < w)) as [|Hn]; [done|].
  pose proof (Z.bit_log2 x ltac:(lia)) as Hb. rewrite H in Hb by lia. done.
Qed.

(** Fields that do not overlap add up. *)
Lemma lor_disjoint lo hi n : 0 ≤ n → 0 ≤ lo < 2 ^ n → Z.lor lo (Z.shiftl hi n) = lo + hi * 2 ^ n.
Proof.
  intros Hn Hlo. assert (Z.land lo (Z.shiftl hi n) = 0) as H.
  { apply Z.bits_inj'. intros i Hi. rewrite Z.land_spec, Z.shiftl_spec, Z.testbit_0_l by lia.
    destruct (decide (i < n)); [by rewrite (Z.testbit_neg_r hi), andb_false_r by lia|].
    by rewrite (testbit_out n lo) by (done || lia). }
  rewrite <-Z.lxor_lor, <-Z.add_nocarry_lxor by done. by rewrite Z.shiftl_mul_pow2.
Qed.

Lemma shl_no_loss w x n : 0 ≤ n < w → 0 ≤ x → x * 2 ^ n < 2 ^ w → shl w x n = Ret (Z.shiftl x n).
Proof.
  intros Hn Hx Hlt. unfold shl. rewrite (proj2 (Z.ltb_lt _ _)) by lia. rewrite Z.land_ones by lia. rewrite Z.mod_small; [done|].
  rewrite Z.shiftl_mul_pow2 by lia. split; [|done]. apply Z.mul_nonneg_nonneg; lia.
Qed.

Create Rewrite HintDb zbits.
#[export] Hint Rewrite Z.land_spec Z.lor_spec Z.lxor_spec Z.ldiff_spec
  Z.testbit_0_l testbit_1 : zbits.
#[export] Hint Rewrite Z.shiftl_spec Z.shiftr_spec testbit_ones' testbit_bitnot
  using lia : zbits.

(** Decide the side conditions on bit positions and the remaining booleans. *)
Ltac zbits_cases :=
  autorewrite with zbits;
  repeat (case_bool_decide; try (exfalso; lia)); autorewrite with zbits;
  repeat match goal with
  | H : ?x - ?y = 0 |- _ => assert (x = y) by lia; clear H
  end; subst;
  repeat match goal with
  | |- context [Z.testbit ?x ?i] => rewrite (Z.testbit_neg_r x i) by lia
  | Hw : in_width ?w ?x |- context [Z.testbit ?x ?i] =>
      rewrite (testbit_out w x i Hw) by lia
  end;
  repeat match goal with
  | |- context [Z.testbit ?x ?i] =>
      match goal with
      | |- context [Z.testbit x ?j] =>
          tryif unify i j then fail else replace j with i by lia
      end
  end;
  repeat match goal with
  | |- context [Z.testbit ?x ?i] => destruct (Z.testbit x i)
  end; try done; try (f_equal; lia).

(** Prove an equation of integers bit by bit. *)
Ltac zbits := apply Z.bits_inj'; intros ?i ?Hi; zbits_cases.

(** ** What Rust's slices and vectors provide *)
(** [iter().position(f)] *)
Fixpoint list_position {A} (f : A → bool) (l : list A) : option nat :=
  match l with
  | [] => None
  | x :: l => if f x then Some O else S <$> list_position f l
  end.

(** [iter().rposition(f)] *)
Definition list_rposition {A} (f : A → bool) (l : list A) : option nat := (λ i, (length l - 1 - i)%nat) <$> list_position f (rev l).

(** [Vec::swap_remove] *)
Definition swap_remove {T} (l : list T) (i : nat) : list T :=
  match List.last (Some <$> l) None with
  | Some x => take (length l - 1) (<[i := x]> l)
  | None => l
  end.

Lemma position_Some {A} (f : A → bool) l i : list_position f l = Some i → ∃ x, l !! i = Some x ∧ f x = true.
Proof.
  revert i. induction l as [|x l IH]; intros i; simpl; [done|]. destruct (f x) eqn:E; [intros [= <-]; by exists x|].
  destruct (list_position f l) as [j|]; [|done]. intros [= <-]. by apply IH.
Qed.

Lemma position_elem {A} (f : A → bool) l x : x ∈ l → f x = true → is_Some (list_position f l).
Proof.
  intros Hx Hf. induction l as [|y l IH]; simpl; [by apply not_elem_of_nil in Hx|]. destruct (f y) eqn:E; [done|].
  apply fmap_is_Some, IH. apply elem_of_cons in Hx as [->|?]; [congruence|done].
Qed.

Lemma position_app {A} (f : A → bool) l x rest : Forall (λ c, f c = false) l → f x = true → list_position f (l ++ x :: rest) = Some (length l).
Proof. induction 1 as [|c l Hc _ IH]; intros Hx; simpl; [by rewrite Hx|]. by rewrite Hc, IH. Qed.

Lemma rposition_last {A} (f : A → bool) l x rest : f x = true → Forall (λ c, f c = false) rest → list_rposition f (l ++ x :: rest) = Some (length l).
Proof.
  intros Hx Hr. unfold list_rposition. rewrite rev_app_distr. simpl. rewrite <-app_assoc. simpl.
  rewrite position_app; [|by apply Forall_rev|done]. simpl. rewrite length_app, length_rev. simpl. f_equal. lia.
Qed.

(** [swap_remove] removes exactly the element at the index. *)
Lemma swap_remove_perm {T} (l : list T) i x : l !! i = Some x →
  x :: swap_remove l i ≡ₚ l.
Proof.
  intros Hi. unfold swap_remove. destruct l as [|y l] using rev_ind; [done|]. clear IHl.
  rewrite fmap_app. simpl. rewrite last_last, length_app. simpl.
  replace (length l + 1 - 1)%nat with (length l) by lia.
  destruct (decide (i = length l)) as [->|Hne].
  - rewrite insert_app_r_alt, Nat.sub_diag by done. simpl. rewrite take_app_length.
    rewrite lookup_app_r, Nat.sub_diag in Hi by done. simplify_eq/=.
    by rewrite Permutation_app_comm.
  - assert (i < length l)%nat as Hlt.
    { apply lookup_lt_Some in Hi. rewrite length_app in Hi. simpl in Hi. lia. }
    rewrite lookup_app_l in Hi by done. rewrite insert_app_l by done.
    rewrite take_app_le, take_ge by (rewrite length_insert; lia).
    rewrite (Permutation_app_comm l [y]). simpl.
    rewrite insert_take_drop by done. rewrite <-(take_drop_middle l i x Hi) at 3.
    rewrite <-!Permutation_middle. apply perm_swap.
Qed.
