(* ===== verification/Headers.v ===== *)
(** Constants of the Linux and C headers that the [headers] crate generates at
    build time (bindgen output, not part of the repository). They are
    parameters of the development: a component that uses them takes the class,
    its theorems take the documented values as the class of laws, and
    [linux_headers] is the instance at the documented values. *)
From S2P Require Import Prelude.

Class Headers := {
  PROT_NONE : Z; PROT_READ : Z; PROT_WRITE : Z; PROT_EXEC : Z;
  TH_FIN : Z; TH_SYN : Z; TH_RST : Z; TH_ACK : Z;
  IPPROTO_TCP : Z; IPPROTO_UDP : Z;
}.

Class HeadersOk (H : Headers) : Prop := {
  prot_values : PROT_NONE = 0 ∧ PROT_READ = 1 ∧ PROT_WRITE = 2 ∧ PROT_EXEC = 4;
  th_values : TH_FIN = 1 ∧ TH_SYN = 2 ∧ TH_RST = 4 ∧ TH_ACK = 16;
  ipproto_values : IPPROTO_TCP = 6 ∧ IPPROTO_UDP = 17;
}.

Definition linux_headers : Headers := {|
  PROT_NONE := 0; PROT_READ := 1; PROT_WRITE := 2; PROT_EXEC := 4;
  TH_FIN := 1; TH_SYN := 2; TH_RST := 4; TH_ACK := 16;
  IPPROTO_TCP := 6; IPPROTO_UDP := 17;
|}.

Lemma linux_headers_ok : HeadersOk linux_headers.
Proof. by split. Qed.

(** Error numbers returned to user space, by name. *)
Inductive errno :=
  | EPERM | ENOENT | ESRCH | EINTR | EIO | ENXIO | E2BIG | ENOEXEC | EBADF | ECHILD
  | EAGAIN | ENOMEM | EACCES | EFAULT | EBUSY | EEXIST | EXDEV | ENODEV | ENOTDIR
  | EISDIR | EINVAL | ENFILE | EMFILE | ENOTTY | EFBIG | ENOSPC | ESPIPE | EROFS
  | EPIPE | ERANGE | ENAMETOOLONG | ENOSYS | ENOTEMPTY | ELOOP | EOVERFLOW
  | EADDRINUSE | ENOTCONN | ETIMEDOUT | ECONNREFUSED | ENOTSOCK | EOPNOTSUPP
  | EAFNOSUPPORT | EDESTADDRREQ | EISCONN | ECONNRESET.

#[global] Instance errno_eq_dec : EqDecision errno.
Proof. solve_decision. Defined.

(** [Result<A, Errno>] *)
Abbreviation result A := (errno + A)%type.
Abbreviation Err e := (@inl errno _ e) (only parsing).
Abbreviation Okay a := (@inr errno _ a) (only parsing).
