(* ===== verification/KUtil.v ===== *)
(** [klib::util] and [mm::util]: alignment and bit-field helpers that every
    other component uses (crates/klib/src/util.rs, crates/mm/src/util.rs,
    crates/klib/src/sizes.rs). *)
From S2P Require Import Prelude.

(** ** Constants *)
Definition PAGE_SIZE : Z := 4096.
Definition KiB (v : Z) : outcome Z := mul 64 v 1024.
Definition MiB (v : Z) : outcome Z := k ← KiB v; mul 64 k 1024.
Definition GiB (v : Z) : outcome Z := m ← MiB v; mul 64 m 1024.

(** ** Alignment *)
Definition align_up (value alignment : Z) : outcome Z :=
  remainder ← umod value alignment;
  if remainder =? 0 then Ret value
  else s ← add 64 value alignment; sub s remainder.

Definition align_up_page_size (value : Z) : outcome Z := align_up value PAGE_SIZE.

Definition minimum_amount_of_pages (value : Z) : outcome Z :=
  a ← align_up value PAGE_SIZE; udiv a PAGE_SIZE.

Definition is_power_of_two (x : Z) : bool :=
  (0 <? x) && (x =? 2 ^ Z.log2 x).

Definition align_down_ptr (ptr alignment : Z) : outcome Z :=
  rassert (is_power_of_two alignment);;
  m ← sub alignment 1;
  Ret (Z.land ptr (bitnot 64 m)).

Definition is_aligned (value alignment : Z) : outcome bool :=
  r ← umod value alignment; Ret (r =? 0).

(** ** Signed offsets *)
Definition wrapping_add_signed (base offset : Z) : Z :=
  if 0 <=? offset then wrapping_add 64 base (Z.abs offset)
  else wrapping_sub 64 base (Z.abs offset).

(** ** Slices *)
Definition copy_slice {A} (src dst : list A) : outcome (list A) :=
  rassert (bool_decide (length src ≤ length dst)%nat);;
  Ret (src ++ drop (length src) dst).

(** ** Bit fields of a [w]-bit integer *)
Definition is_power_of_2_or_zero (value : Z) : outcome bool :=
  p ← sub value 1; Ret (Z.land value p =? 0).

Definition set_bit (w data bit_position : Z) : outcome Z :=
  b ← shl w 1 bit_position; Ret (Z.lor data b).

Definition clear_bit (w data bit_position : Z) : outcome Z :=
  b ← shl w 1 bit_position; Ret (Z.land data (bitnot w b)).

Definition set_or_clear_bit (w data : Z) (should_set_bit : bool) (bit_position : Z)
    : outcome Z :=
  if should_set_bit then set_bit w data bit_position
  else clear_bit w data bit_position.

Definition get_bit (w data bit_position : Z) : outcome bool :=
  s ← shr w data bit_position; Ret (Z.land s 1 =? 1).

(** [set_multiple_bits]: the two loops over [0..number_of_bits], the field type
    [DataType] of width [w] and the value type of width [vw]. *)
Definition set_multiple_bits (w vw data value number_of_bits bit_position : Z)
    : outcome Z :=
  mask ← foldM (λ mask idx,
    p ← add 64 bit_position idx;
    b ← shl w 1 p;
    Ret (Z.land mask (bitnot w b))) (seqZ 0 number_of_bits) (bitnot w 0);
  let data := Z.land data mask in
  mask ← foldM (λ mask idx,
    v ← shl vw 1 idx;
    if 0 <? Z.land value v
    then p ← add 64 bit_position idx; b ← shl w 1 p; Ret (Z.lor mask b)
    else Ret mask) (seqZ 0 number_of_bits) 0;
  Ret (Z.lor data mask).

Definition get_multiple_bits (data number_of_bits bit_position : Z) : outcome Z :=
  s ← shr 64 data bit_position;
  m ← (if number_of_bits <? 64 then Ret (2 ^ number_of_bits) else Panic);
  p ← sub m 1;
  Ret (Z.land s p).

(** * Facts *)

(** Alignment: [align_up] returns the least multiple that is not below. *)
Lemma align_up_inv v a r : 0 ≤ v → align_up v a = Ret r → 0 < a →
  v ≤ r < v + a ∧ r mod a = 0.
Proof.
  unfold align_up, umod. intros Hv H Ha.
  destruct (Z.eqb_spec a 0); [lia|]. simpl in H.
  destruct (Z.eqb_spec (v mod a) 0) as [E|E]; inv_outcome; [lia|].
  pose proof (Z.mod_pos_bound v a Ha). split; [lia|].
  replace (v + a - v mod a) with ((v / a + 1) * a)
    by (pose proof (Z.div_mod v a); lia).
  apply Z.mod_mul; lia.
Qed.

Lemma align_up_Ret v a : 0 ≤ v → 0 < a → v + a ≤ 2 ^ 64 - 1 →
  align_up v a = Ret ((v + a - 1) / a * a).
Proof.
  intros Hv Ha Hb. unfold align_up, umod.
  destruct (Z.eqb_spec a 0); [lia|]. simpl.
  pose proof (Z.mod_pos_bound v a Ha). pose proof (Z.div_mod v a).
  destruct (Z.eqb_spec (v mod a) 0) as [E|E].
  - f_equal. rewrite (Z.div_mod v a) by lia. rewrite E, Z.add_0_r.
    replace (a * (v / a) + a - 1) with (v / a * a + (a - 1)) by lia.
    rewrite Z.div_add_l by lia. rewrite (Z.div_small (a - 1)); lia.
  - unfold add, checked_add. rewrite (proj2 (Z.ltb_lt _ _)) by lia. simpl.
    unfold sub, checked_sub. rewrite (proj2 (Z.leb_le _ _)) by lia. simpl. f_equal.
    replace (v + a - 1) with ((v / a + 1) * a + (v mod a - 1)) by lia.
    rewrite Z.div_add_l by lia. rewrite (Z.div_small (v mod a - 1)) by lia. lia.
Qed.

Lemma minimum_amount_of_pages_Ret v : 0 ≤ v → v + PAGE_SIZE ≤ 2 ^ 64 - 1 →
  minimum_amount_of_pages v = Ret ((v + 4095) / 4096).
Proof.
  intros Hv Hb. unfold minimum_amount_of_pages, PAGE_SIZE in *.
  rewrite align_up_Ret by lia. simpl. unfold udiv. simpl. f_equal.
  rewrite Z.div_mul by lia. f_equal. lia.
Qed.

Lemma minimum_amount_of_pages_inv v n : 0 ≤ v → minimum_amount_of_pages v = Ret n →
  v ≤ n * 4096 < v + 4096.
Proof.
  intros Hv H. unfold minimum_amount_of_pages, udiv in H. inv_outcome. simpl in H. inv_outcome.
  destruct (align_up_inv _ _ _ Hv H0) as [? Hm]; [done|]. unfold PAGE_SIZE in *.
  pose proof (Z.div_mod r 4096). lia.
Qed.

Lemma align_up_page_aligned v r : 0 ≤ v → align_up v PAGE_SIZE = Ret r → r mod 4096 = 0.
Proof. intros Hv H. eapply (align_up_inv v 4096 r) in H; [naive_solver|done|lia]. Qed.

Lemma land_bitnot_page p : in_width 64 p → Z.land p (bitnot 64 4095) = p / 4096 * 4096.
Proof.
  intros Hp. change 4096 with (2 ^ 12). change 4095 with (Z.ones 12).
  rewrite <-Z.shiftl_mul_pow2, <-Z.shiftr_div_pow2 by lia.
  apply Z.bits_inj'; intros i Hi. destruct (decide (i < 64)); zbits_cases.
Qed.

Lemma align_down_page p : in_width 64 p →
  align_down_ptr p PAGE_SIZE = Ret (p / 4096 * 4096).
Proof. intros Hp. unfold align_down_ptr. simpl. by rewrite <-land_bitnot_page. Qed.

(** Shifts by a position inside the width *)
Lemma shl_1 w n : 0 ≤ n < w → shl w 1 n = Ret (2 ^ n).
Proof.
  intros Hn. unfold shl. rewrite (proj2 (Z.ltb_lt _ _)) by lia. f_equal.
  rewrite Z.land_ones, Z.shiftl_1_l by lia.
  apply Z.mod_small. split; [lia|]. apply Z.pow_lt_mono_r; lia.
Qed.

Lemma testbit_pow2 n i : 0 ≤ n → Z.testbit (2 ^ n) i = bool_decide (i = n).
Proof.
  intros Hn. case_bool_decide; subst; [by apply Z.pow2_bits_true|].
  by apply Z.pow2_bits_false.
Qed.
#[export] Hint Rewrite testbit_pow2 using lia : zbits.

Lemma set_or_clear_bit_Ret w d b n : 0 ≤ n < w →
  set_or_clear_bit w d b n =
    Ret (if b then Z.lor d (2 ^ n) else Z.land d (bitnot w (2 ^ n))).
Proof.
  intros Hn. destruct b; simpl; unfold set_bit, clear_bit; by rewrite shl_1.
Qed.

Lemma get_bit_Ret w d n : 0 ≤ n < w → get_bit w d n = Ret (Z.testbit d n).
Proof.
  intros Hn. unfold get_bit, shr. rewrite (proj2 (Z.ltb_lt _ _)) by lia. simpl.
  f_equal. change 1 with (Z.ones 1) at 1. rewrite Z.land_ones by lia.
  rewrite <-Z.bit0_mod, Z.shiftr_spec, Z.add_0_l by lia. by destruct (Z.testbit d n).
Qed.

Lemma testbit_set_or_clear_bit w d b n r i :
  0 ≤ n < w → in_width w d → set_or_clear_bit w d b n = Ret r →
  Z.testbit r i = if bool_decide (i = n) then b else Z.testbit d i.
Proof.
  intros Hn Hd H. rewrite set_or_clear_bit_Ret in H by done. inv_outcome.
  destruct (decide (i < 0)); [|destruct (decide (i < w))]; destruct b; zbits_cases.
Qed.

Lemma set_or_clear_bit_in_width w d b n r :
  0 ≤ n < w → in_width w d → set_or_clear_bit w d b n = Ret r → in_width w r.
Proof.
  intros Hn Hd H. pose proof H as H'. rewrite set_or_clear_bit_Ret in H' by done.
  inv_outcome. apply in_width_bits; [lia| |].
  - destruct Hd. destruct b; [apply Z.lor_nonneg|apply Z.land_nonneg; lia].
    split; [lia|]. apply Z.pow_nonneg; lia.
  - intros i Hi. rewrite (testbit_set_or_clear_bit w d b n) by done.
    rewrite bool_decide_false by lia. eapply testbit_out; [done|lia].
Qed.

(** The field-mask loops of [set_multiple_bits] *)
Definition field_mask (n pos : Z) : Z := Z.shiftl (Z.ones n) pos.

Lemma clear_mask_loop w pos n : 0 ≤ pos → 0 ≤ n → pos + n ≤ w → w ≤ 2 ^ 63 →
  foldM (λ mask idx, p ← add 64 pos idx; b ← shl w 1 p;
           Ret (Z.land mask (bitnot w b))) (seqZ 0 n) (bitnot w 0) =
  Ret (bitnot w (field_mask n pos)).
Proof.
  intros Hp Hn Hw Hw'. revert Hw. pattern n. apply natlike_ind; [..|done].
  { intros _. rewrite seqZ_nil by lia. simpl. f_equal. unfold field_mask.
    change (Z.ones 0) with 0. by rewrite Z.shiftl_0_l. }
  clear n Hn. intros n Hn IH Hw. unfold Z.succ in *.
  rewrite seqZ_snoc, foldM_app, IH by lia. simpl.
  unfold add, checked_add. rewrite (proj2 (Z.ltb_lt _ _)) by lia. simpl.
  rewrite shl_1 by lia. simpl. f_equal. unfold field_mask. zbits.
Qed.

Lemma set_mask_loop w vw value pos n : 0 ≤ pos → 0 ≤ n → pos + n ≤ w → w ≤ 2 ^ 63 →
  n ≤ vw → 0 ≤ value →
  foldM (λ mask idx, v ← shl vw 1 idx;
    if 0 <? Z.land value v
    then p ← add 64 pos idx; b ← shl w 1 p; Ret (Z.lor mask b)
    else Ret mask) (seqZ 0 n) 0 =
  Ret (Z.shiftl (Z.land value (Z.ones n)) pos).
Proof.
  intros Hp Hn Hw Hw' Hv Hval. revert Hw Hv. pattern n. apply natlike_ind; [..|done].
  { intros _ _. rewrite seqZ_nil by lia. simpl. f_equal.
    change (Z.ones 0) with 0. by rewrite Z.land_0_r, Z.shiftl_0_l. }
  clear n Hn. intros n Hn IH Hw Hv. unfold Z.succ in *.
  rewrite seqZ_snoc, foldM_app, IH by lia. simpl.
  rewrite shl_1 by lia. simpl.
  assert (Z.land value (2 ^ n) = if Z.testbit value n then 2 ^ n else 0) as ->.
  { apply Z.bits_inj'; intros i Hi. autorewrite with zbits.
    case_bool_decide as Hin; subst; destruct (Z.testbit value n) eqn:E;
      rewrite ?andb_false_r, ?andb_true_r, ?E; by zbits_cases. }
  assert (Z.land value (Z.ones (n + 1)) = Z.lor (Z.land value (Z.ones n))
    (if Z.testbit value n then 2 ^ n else 0)) as ->.
  { apply Z.bits_inj'; intros i Hi.
    destruct (decide (i = n)) as [->|]; destruct (Z.testbit value n) eqn:E;
      autorewrite with zbits; rewrite ?E; by zbits_cases. }
  rewrite Z.shiftl_lor. destruct (Z.testbit value n); simpl.
  - rewrite (proj2 (Z.ltb_lt 0 (2 ^ n))) by (apply Z.pow_pos_nonneg; lia).
    unfold add, checked_add. rewrite (proj2 (Z.ltb_lt _ _)) by lia. simpl.
    rewrite shl_1 by lia. simpl. do 2 f_equal.
    rewrite Z.shiftl_mul_pow2, <-Z.pow_add_r by lia. f_equal. lia.
  - by rewrite Z.shiftl_0_l, Z.lor_0_r.
Qed.

(** The loops compute the usual read-modify-write of a bit field. *)
Lemma set_multiple_bits_Ret w vw d v n pos :
  0 ≤ pos → 0 ≤ n → pos + n ≤ w → w ≤ 2 ^ 63 → n ≤ vw → 0 ≤ v →
  set_multiple_bits w vw d v n pos =
    Ret (Z.lor (Z.land d (bitnot w (field_mask n pos)))
               (Z.shiftl (Z.land v (Z.ones n)) pos)).
Proof.
  intros. unfold set_multiple_bits.
  rewrite clear_mask_loop by lia. simpl. by rewrite set_mask_loop by lia.
Qed.

Lemma get_multiple_bits_Ret d n pos : 0 ≤ n < 64 → 0 ≤ pos < 64 →
  get_multiple_bits d n pos = Ret (Z.land (Z.shiftr d pos) (Z.ones n)).
Proof.
  intros Hn Hp. unfold get_multiple_bits, shr, sub, checked_sub.
  assert (1 ≤ 2 ^ n) by (pose proof (Z.pow_pos_nonneg 2 n); lia).
  rewrite (proj2 (Z.ltb_lt pos 64)), (proj2 (Z.ltb_lt n 64)) by lia. simpl.
  rewrite (proj2 (Z.leb_le _ _)) by lia. simpl. do 2 f_equal.
  rewrite Z.ones_equiv. lia.
Qed.

Lemma testbit_set_multiple_bits w vw d v n pos r i :
  0 ≤ pos → 0 ≤ n → pos + n ≤ w → w ≤ 2 ^ 63 → n ≤ vw → 0 ≤ v → in_width w d →
  set_multiple_bits w vw d v n pos = Ret r →
  Z.testbit r i =
    if bool_decide (pos ≤ i < pos + n) then Z.testbit v (i - pos) else Z.testbit d i.
Proof.
  intros. rewrite set_multiple_bits_Ret in * by done. inv_outcome.
  unfold field_mask. destruct (decide (i < 0)).
  { rewrite bool_decide_false by lia. by rewrite !Z.testbit_neg_r by lia. }
  destruct (decide (i < w)); zbits_cases.
Qed.

Lemma set_multiple_bits_in_width w vw d v n pos r :
  0 ≤ pos → 0 ≤ n → pos + n ≤ w → w ≤ 2 ^ 63 → n ≤ vw → 0 ≤ v → in_width w d →
  set_multiple_bits w vw d v n pos = Ret r → in_width w r.
Proof.
  intros Hp Hn Hw Hw' Hv Hv' Hd H. apply in_width_bits; [lia| |].
  - rewrite set_multiple_bits_Ret in H by done. inv_outcome.
    destruct Hd. apply Z.lor_nonneg. split; [apply Z.land_nonneg; lia|].
    apply Z.shiftl_nonneg, Z.land_nonneg. lia.
  - intros i Hi. rewrite (testbit_set_multiple_bits w vw d v n pos) by done.
    rewrite bool_decide_false by lia. eapply testbit_out; [done|lia].
Qed.

(** * Properties *)

(** [set_multiple_bits] followed by [get_multiple_bits] of the same field
    returns the value written (truncated to the field), and every bit outside
    the field is unchanged: the bit-by-bit loops of the source implement a
    read-modify-write of exactly one field. *)
Theorem set_get_multiple_bits d v n pos r :
  0 ≤ n < 64 → 0 ≤ pos < 64 → pos + n ≤ 64 → n ≤ 8 → in_width 64 d → in_width 8 v →
  set_multiple_bits 64 8 d v n pos = Ret r →
  get_multiple_bits r n pos = Ret (v mod 2 ^ n) ∧
  (∀ i, ¬ (pos ≤ i < pos + n) → Z.testbit r i = Z.testbit d i) ∧
  in_width 64 r.
Proof.
  intros Hn Hp Hnp Hv8 Hd [Hv Hvb] H.
  split_and!; [| |by eapply (set_multiple_bits_in_width 64 8 d v n pos); try lia].
  - rewrite get_multiple_bits_Ret by done. f_equal.
    rewrite <-Z.land_ones by lia. apply Z.bits_inj'; intros i Hi.
    autorewrite with zbits.
    rewrite (testbit_set_multiple_bits 64 8 d v n pos) by (done || lia).
    destruct (decide (i < n)).
    + rewrite (bool_decide_true (pos ≤ _ < _)) by lia. by rewrite Z.add_simpl_r.
    + by rewrite (bool_decide_false (0 ≤ i < n)), !andb_false_r by lia.
  - intros i Hi. rewrite (testbit_set_multiple_bits 64 8 d v n pos) by (done || lia).
    by rewrite bool_decide_false.
Qed.

Lemma set_get_multiple_bits_witness :
  ∃ r, set_multiple_bits 64 8 255 5 3 1 = Ret r ∧
       get_multiple_bits r 3 1 = Ret (5 mod 2 ^ 3).
Proof.
  eexists. split; [vm_compute; reflexivity|].
  apply (set_get_multiple_bits 255 5 3 1); try (vm_compute; intuition congruence).
Defined.

(** [align_up] returns the least multiple of the alignment that is at
    least the value, and it never panics while [value + alignment] fits in a
    [usize]. *)
Theorem align_up_least v a :
  0 ≤ v → 0 < a → v + a < 2 ^ 64 →
  ∃ r, align_up v a = Ret r ∧ r mod a = 0 ∧ v ≤ r ∧
       ∀ m, m mod a = 0 → v ≤ m → r ≤ m.
Proof.
  intros Hv Ha Hb. pose proof (align_up_Ret v a Hv Ha ltac:(lia)) as H.
  pose proof (align_up_inv _ _ _ Hv H Ha) as [[? ?] ?].
  eexists; split_and!; [done..|]. intros m Hm Hvm.
  apply Z.mod_divide in Hm as [k ->]; [|lia].
  apply Z.mul_le_mono_nonneg_r; [lia|].
  apply Z.lt_succ_r, Z.div_lt_upper_bound; lia.
Qed.

Lemma align_up_least_witness :
  ∃ r, align_up 4097 4096 = Ret r ∧ r mod 4096 = 0 ∧ 4097 ≤ r ∧
       ∀ m, m mod 4096 = 0 → 4097 ≤ m → r ≤ m.
Proof. apply (align_up_least 4097 4096); lia. Defined.
