(* ===== verification/PTE.v ===== *)
(** Sv39 page-table entries (crates/hal/src/memory/page_table.rs,
    crates/hal/src/memory/address.rs): the bit layout of [PageTableEntry], its
    setters and getters, and the access modes. *)
From S2P Require Import Prelude Headers KUtil.

(** ** Access modes *)
Inductive XWRMode :=
  | PointerToNextLevel | ReadOnly | ReadWrite | ExecuteOnly | ReadExecute
  | ReadWriteExecute.

#[global] Instance XWRMode_eq_dec : EqDecision XWRMode.
Proof. solve_decision. Defined.

(** [mode as u8] *)
Definition xwr_as_u8 (m : XWRMode) : Z :=
  match m with
  | PointerToNextLevel => 0 | ReadOnly => 1 | ReadWrite => 3 | ExecuteOnly => 4
  | ReadExecute => 5 | ReadWriteExecute => 7
  end.

Definition xwr_from_u8 (value : Z) : outcome XWRMode :=
  match value with
  | 0 => Ret PointerToNextLevel
  | 1 => Ret ReadOnly
  | 3 => Ret ReadWrite
  | 4 => Ret ExecuteOnly
  | 5 => Ret ReadExecute
  | 7 => Ret ReadWriteExecute
  | _ => Panic
  end.

Definition is_writable (m : XWRMode) : bool :=
  match m with ReadWrite | ReadWriteExecute => true | _ => false end.

Definition as_readonly (m : XWRMode) : XWRMode :=
  match m with
  | ReadWrite => ReadOnly
  | ReadWriteExecute => ReadExecute
  | other => other
  end.

Definition from_prot `{Headers} (prot : Z) : result XWRMode :=
  if (prot =? PROT_NONE) || (prot =? PROT_READ) then Okay ReadOnly
  else if prot =? PROT_EXEC then Okay ExecuteOnly
  else if prot =? Z.lor PROT_READ PROT_WRITE then Okay ReadWrite
  else if prot =? Z.lor PROT_READ PROT_EXEC then Okay ReadExecute
  else if prot =? Z.lor (Z.lor PROT_READ PROT_WRITE) PROT_EXEC then Okay ReadWriteExecute
  else Err EINVAL.

(** ** Addresses: [PhysAddr] and [VirtAddr] are transparent [usize]s *)
Definition is_page_aligned (a : Z) : bool := Z.land a 0xFFF =? 0.
Definition addr_add (a rhs : Z) : outcome Z := add 64 a rhs.
Definition addr_sub (a rhs : Z) : outcome Z := sub a rhs.

(** ** Entries: the address bits of the pointer [PageTableEntry.0] *)
Definition VALID_BIT_POS : Z := 0.
Definition READ_BIT_POS : Z := 1.
Definition USER_MODE_ACCESSIBLE_BIT_POS : Z := 4.
Definition ACCESSED_BIT_POS : Z := 6.
Definition DIRTY_BIT_POS : Z := 7.
Definition PHYSICAL_PAGE_BIT_POS : Z := 10.
Definition PHYSICAL_PAGE_BITS : Z := 0xfffffffffff.
Definition PBMT_BIT_POS : Z := 61.

Definition set_validity (e : Z) (is_valid : bool) : outcome Z :=
  set_or_clear_bit 64 e is_valid VALID_BIT_POS.

Definition get_validity (e : Z) : outcome bool := get_bit 64 e VALID_BIT_POS.

Definition set_user_mode_accessible (e : Z) (b : bool) : outcome Z :=
  set_or_clear_bit 64 e b USER_MODE_ACCESSIBLE_BIT_POS.

Definition get_user_mode_accessible (e : Z) : outcome bool :=
  get_bit 64 e USER_MODE_ACCESSIBLE_BIT_POS.

Definition set_accessed_and_dirty (e : Z) : outcome Z :=
  e ← set_or_clear_bit 64 e true ACCESSED_BIT_POS;
  set_or_clear_bit 64 e true DIRTY_BIT_POS.

Definition set_pbmt_io (e : Z) : outcome Z := set_multiple_bits 64 8 e 2 2 PBMT_BIT_POS.

Definition set_xwr_mode (e : Z) (m : XWRMode) : outcome Z :=
  set_multiple_bits 64 8 e (xwr_as_u8 m) 3 READ_BIT_POS.

Definition get_xwr_mode (e : Z) : outcome XWRMode :=
  bits ← get_multiple_bits e 3 READ_BIT_POS;
  bits ← (if bits <? 2 ^ 8 then Ret bits else Panic);
  xwr_from_u8 bits.

Definition is_leaf (e : Z) : outcome bool :=
  m ← get_xwr_mode e; Ret (negb (bool_decide (m = PointerToNextLevel))).

(** The common body of [set_physical_address] and [set_leaf_address]. *)
Definition set_page_number (e address : Z) : outcome Z :=
  b ← shl 64 PHYSICAL_PAGE_BITS PHYSICAL_PAGE_BIT_POS;
  a ← shr 64 address 12;
  n ← shl 64 (Z.land a PHYSICAL_PAGE_BITS) PHYSICAL_PAGE_BIT_POS;
  Ret (Z.lor (Z.land e (bitnot 64 b)) n).

Definition set_physical_address (e address : Z) : outcome Z := set_page_number e address.

Definition set_leaf_address (e address : Z) : outcome Z :=
  rassert (is_page_aligned address);; set_page_number e address.

Definition get_physical_address (e : Z) : outcome Z :=
  s ← shr 64 e PHYSICAL_PAGE_BIT_POS;
  shl 64 (Z.land s PHYSICAL_PAGE_BITS) 12.

(** [target_page_table], [target_page_table_mut] and
    [get_target_page_table_raw]: the address of the next-level table. *)
Definition target_page_table (e : Z) : outcome Z :=
  l ← is_leaf e;
  rassert (negb l);;
  addr ← get_physical_address e;
  rassert (negb (addr =? 0));;
  Ret addr.

(** The index computed by [get_entry_for_virtual_address]: bits
    [12 + 9*level .. 12 + 9*level + 9] of the virtual address. *)
Definition entry_index (virtual_address level : Z) : outcome Z :=
  rassert (level <=? 2);;
  s ← shr 64 virtual_address (12 + 9 * level);
  Ret (Z.land s 0x1ff).

(** * The layout, bit by bit *)
Definition vbit (e : Z) : bool := Z.testbit e 0.
Definition ubit (e : Z) : bool := Z.testbit e 4.
Definition xwr_bits (e : Z) : Z := Z.land (Z.shiftr e 1) (Z.ones 3).
Definition ppn (e : Z) : Z := Z.land (Z.shiftr e 10) (Z.ones 44).

Lemma get_validity_Ret e : get_validity e = Ret (vbit e).
Proof. by apply get_bit_Ret. Qed.

Lemma get_user_mode_accessible_Ret e : get_user_mode_accessible e = Ret (ubit e).
Proof. by apply get_bit_Ret. Qed.

Lemma xwr_bits_range e : 0 ≤ xwr_bits e < 8.
Proof. unfold xwr_bits. rewrite Z.land_ones by lia. apply Z.mod_pos_bound. lia. Qed.

Lemma ppn_range e : 0 ≤ ppn e < 2 ^ 44.
Proof. unfold ppn. rewrite Z.land_ones by lia. apply Z.mod_pos_bound. lia. Qed.

Lemma get_xwr_mode_eq e : get_xwr_mode e = xwr_from_u8 (xwr_bits e).
Proof.
  unfold get_xwr_mode, READ_BIT_POS. rewrite get_multiple_bits_Ret by done. simpl.
  fold (xwr_bits e). pose proof (xwr_bits_range e).
  by rewrite (proj2 (Z.ltb_lt _ _)) by lia.
Qed.

Lemma shl_small w a n : 0 ≤ n < w → 0 ≤ a < 2 ^ (w - n) → shl w a n = Ret (Z.shiftl a n).
Proof.
  intros Hn [Ha1 Ha2]. apply shl_no_loss; [done|done|]. replace w with ((w - n) + n) at 1 by lia. rewrite Z.pow_add_r by lia.
  apply Z.mul_lt_mono_pos_r; [apply Z.pow_pos_nonneg; lia|done].
Qed.

Lemma get_physical_address_Ret e : get_physical_address e = Ret (ppn e * 4096).
Proof.
  unfold get_physical_address, shr, PHYSICAL_PAGE_BIT_POS. simpl.
  change PHYSICAL_PAGE_BITS with (Z.ones 44). fold (ppn e).
  pose proof (ppn_range e).
  rewrite shl_small by lia. f_equal. by rewrite Z.shiftl_mul_pow2 by lia.
Qed.

Lemma set_page_number_Ret e a : in_width 64 a →
  set_page_number e a =
    Ret (Z.lor (Z.land e (bitnot 64 (Z.shiftl (Z.ones 44) 10)))
               (Z.shiftl (Z.land (Z.shiftr a 12) (Z.ones 44)) 10)).
Proof.
  intros Ha. unfold set_page_number, PHYSICAL_PAGE_BIT_POS, shr.
  change PHYSICAL_PAGE_BITS with (Z.ones 44).
  rewrite (shl_small 64 (Z.ones 44)) by (vm_compute; intuition congruence).
  change (12 <? 64) with true. bstep.
  pose proof (Z.mod_pos_bound (Z.shiftr a 12) (2 ^ 44)).
  rewrite shl_small by (rewrite ?Z.land_ones by lia; lia). done.
Qed.

(** ** What each setter does to every bit *)
Section setters.
Context (e : Z) (He : in_width 64 e).

Lemma testbit_set_validity b r i : set_validity e b = Ret r →
  Z.testbit r i = if bool_decide (i = 0) then b else Z.testbit e i.
Proof. by apply testbit_set_or_clear_bit. Qed.

Lemma testbit_set_user b r i : set_user_mode_accessible e b = Ret r →
  Z.testbit r i = if bool_decide (i = 4) then b else Z.testbit e i.
Proof. by apply testbit_set_or_clear_bit. Qed.

Lemma xwr_as_u8_range m : 0 ≤ xwr_as_u8 m < 8.
Proof. destruct m; simpl; lia. Qed.

Lemma testbit_set_xwr m r i : set_xwr_mode e m = Ret r →
  Z.testbit r i =
    if bool_decide (1 ≤ i < 4) then Z.testbit (xwr_as_u8 m) (i - 1) else Z.testbit e i.
Proof.
  pose proof (xwr_as_u8_range m).
  apply testbit_set_multiple_bits; (done || lia || by vm_compute).
Qed.

Lemma testbit_set_page_number a r i : in_width 64 a → set_page_number e a = Ret r →
  Z.testbit r i =
    if bool_decide (10 ≤ i < 54) then Z.testbit a (i + 2) else Z.testbit e i.
Proof.
  intros Ha H. rewrite set_page_number_Ret in H by done. inv_outcome.
  destruct (decide (i < 0)).
  { rewrite bool_decide_false by lia. by rewrite !Z.testbit_neg_r by lia. }
  destruct (decide (i < 64)); zbits_cases.
Qed.

Lemma set_page_number_in_width a r :
  in_width 64 a → set_page_number e a = Ret r → in_width 64 r.
Proof.
  intros Ha H. apply in_width_bits; [lia| |].
  - rewrite set_page_number_Ret in H by done. inv_outcome. destruct He.
    apply Z.lor_nonneg; split; [by apply Z.land_nonneg; left|].
    apply Z.shiftl_nonneg, Z.land_nonneg. by right.
  - intros i Hi. rewrite (testbit_set_page_number a r i) by done.
    rewrite bool_decide_false by lia. eapply testbit_out; [done|lia].
Qed.

Lemma set_validity_in_width b r : set_validity e b = Ret r → in_width 64 r.
Proof. by apply set_or_clear_bit_in_width. Qed.

Lemma set_user_in_width b r : set_user_mode_accessible e b = Ret r → in_width 64 r.
Proof. by apply set_or_clear_bit_in_width. Qed.

Lemma set_xwr_in_width m r : set_xwr_mode e m = Ret r → in_width 64 r.
Proof.
  pose proof (xwr_as_u8_range m).
  apply set_multiple_bits_in_width; (done || lia || by vm_compute).
Qed.
End setters.

(** The setters never panic on their own (their bit positions are constants). *)
Lemma set_validity_Ret e b : ∃ r, set_validity e b = Ret r.
Proof. eexists. by apply set_or_clear_bit_Ret. Qed.
Lemma set_user_Ret e b : ∃ r, set_user_mode_accessible e b = Ret r.
Proof. eexists. by apply set_or_clear_bit_Ret. Qed.
Lemma set_xwr_Ret e m : ∃ r, set_xwr_mode e m = Ret r.
Proof.
  pose proof (xwr_as_u8_range m). eexists.
  apply set_multiple_bits_Ret; (lia || by vm_compute).
Qed.

(** Fields are determined by their bits. *)
Lemma ppn_ext e e' : (∀ i, 10 ≤ i < 54 → Z.testbit e i = Z.testbit e' i) → ppn e = ppn e'.
Proof.
  intros H. apply Z.bits_inj'; intros i Hi. unfold ppn. autorewrite with zbits.
  case_bool_decide; [|by rewrite !andb_false_r]. by rewrite H by lia.
Qed.
Lemma xwr_bits_ext e e' :
  (∀ i, 1 ≤ i < 4 → Z.testbit e i = Z.testbit e' i) → xwr_bits e = xwr_bits e'.
Proof.
  intros H. apply Z.bits_inj'; intros i Hi. unfold xwr_bits. autorewrite with zbits.
  case_bool_decide; [|by rewrite !andb_false_r]. by rewrite H by lia.
Qed.

Lemma xwr_bits_set e m r : in_width 64 e → set_xwr_mode e m = Ret r →
  xwr_bits r = xwr_as_u8 m.
Proof.
  intros He H. apply Z.bits_inj'; intros i Hi. unfold xwr_bits. autorewrite with zbits.
  rewrite (testbit_set_xwr e He m r) by done. rewrite Z.add_simpl_r.
  destruct (decide (i < 3)).
  - by rewrite !bool_decide_true, andb_true_r by lia.
  - rewrite (bool_decide_false (0 ≤ i < 3)), andb_false_r by lia. symmetry.
    apply (testbit_out 3); [|lia]. apply xwr_as_u8_range.
Qed.

Lemma xwr_from_as m : xwr_from_u8 (xwr_as_u8 m) = Ret m.
Proof. by destruct m. Qed.

Lemma ppn_set_page_number e a r : in_width 64 e → in_width 64 a →
  set_page_number e a = Ret r → ppn r = (a / 4096) mod 2 ^ 44.
Proof.
  intros He Ha H. change 4096 with (2 ^ 12).
  rewrite <-Z.shiftr_div_pow2, <-Z.land_ones by lia.
  apply Z.bits_inj'; intros i Hi. unfold ppn. autorewrite with zbits.
  rewrite (testbit_set_page_number e He a r) by done.
  case_bool_decide; [|rewrite (bool_decide_false (0 ≤ i < 44)), !andb_false_r; [done|lia]].
  do 2 f_equal. lia.
Qed.

Lemma is_page_aligned_mod a : is_page_aligned a = true ↔ a mod 4096 = 0.
Proof.
  unfold is_page_aligned. change 0xFFF with (Z.ones 12).
  rewrite Z.land_ones, Z.eqb_eq by lia. done.
Qed.
