(* ===== verification/PageAllocator.v ===== *)
(** The page allocator of crates/mm/src/page_allocator.rs: one status byte per
    page, first-fit allocation of runs, [Last] marking the end of a run.

    [Module spec] is the contract (a finite map from the first page of each
    live run to its length); [refines] relates the metadata array to it. *)
From S2P Require Import Prelude KUtil.

(** ** Data *)
Inductive PageStatus := Free | Used | Last.

#[global] Instance PageStatus_eq_dec : EqDecision PageStatus.
Proof. solve_decision. Defined.

Definition is_free (s : PageStatus) : bool :=
  match s with Free => true | _ => false end.

(** The contents of a page: [None] for memory nobody has initialised yet. *)
Definition zero_page : list Z := replicate 4096 0.

(** [MetadataPageAllocator]: [pages] is the half-open pointer range; the page
    contents the allocator writes are in [contents], by page index. *)
Record allocator := Allocator {
  metadata : list PageStatus;
  pages_start : Z;
  pages_end : Z;
  contents : gmap nat (list Z);
}.

(** ** Operations *)
Definition new : allocator := Allocator [] 0 0 ∅.

Definition total_heap_pages (a : allocator) : nat := length (metadata a).

Definition used_heap_pages (a : allocator) : nat :=
  length (List.filter (λ m, negb (is_free m)) (metadata a)).

(** [NonNull::new(self.pages.start.add(page_index)).expect(..)] *)
Definition page_idx_to_pointer (a : allocator) (page_index : nat) : outcome Z :=
  let p := pages_start a + Z.of_nat page_index * PAGE_SIZE in
  rassert (negb (p =? 0));; Ret p.

Definition page_pointer_to_page_idx (a : allocator) (page : Z) : outcome nat :=
  rassert (pages_start a <=? page);;
  rassert (page <? pages_end a);;
  rassert (page mod PAGE_SIZE =? 0);;
  Ret (Z.to_nat ((page - pages_start a) / PAGE_SIZE)).

(** [(start_idx..start_idx + n).all(|idx| self.metadata[idx].is_free())] *)
Fixpoint is_range_free (md : list PageStatus) (start_idx number_of_pages : nat)
    : outcome bool :=
  match number_of_pages with
  | O => Ret true
  | S n =>
      s ← expect (md !! start_idx);
      if is_free s then is_range_free md (S start_idx) n else Ret false
  end.

(** [range.find(|&idx| self.is_range_free(idx, n))] *)
Fixpoint find_free (md : list PageStatus) (n : nat) (idxs : list nat)
    : outcome (option nat) :=
  match idxs with
  | [] => Ret None
  | idx :: idxs =>
      b ← is_range_free md idx n;
      if b : bool then Ret (Some idx) else find_free md n idxs
  end.

(** One round of the loop of [mark_range_as_used]. *)
Definition mark_one (start_idx number_of_pages : nat) (initialize_if_needed : bool)
    (a : allocator) (idx : nat) : outcome allocator :=
  c ← (if initialize_if_needed
       then page_idx_to_pointer a idx;; Ret (<[idx := zero_page]> (contents a))
       else Ret (contents a));
  let status := if (idx =? start_idx + number_of_pages - 1)%nat then Last else Used in
  rassert (bool_decide (idx < length (metadata a))%nat);;
  Ret (Allocator (<[idx := status]> (metadata a)) (pages_start a) (pages_end a) c).

Definition mark_range_as_used (a : allocator) (start_idx number_of_pages : nat)
    (initialize_if_needed : bool) : outcome allocator :=
  foldM (mark_one start_idx number_of_pages initialize_if_needed)
        (seq start_idx number_of_pages) a.

Definition alloc (a : allocator) (number_of_pages_requested : nat)
    : outcome (option (Z * Z) * allocator) :=
  rassert (bool_decide (0 < number_of_pages_requested)%nat);;
  if bool_decide (total_heap_pages a < number_of_pages_requested)%nat
  then Ret (None, a)
  else
    let last := (total_heap_pages a - number_of_pages_requested)%nat in
    found ← find_free (metadata a) number_of_pages_requested (seq 0 (S last));
    match found with
    | None => Ret (None, a)
    | Some start_idx =>
        a' ← mark_range_as_used a start_idx number_of_pages_requested true;
        p ← page_idx_to_pointer a' start_idx;
        q ← page_idx_to_pointer a' (start_idx + number_of_pages_requested);
        Ret (Some (p, q), a')
    end.

Definition range_to_start_aligned_and_number_of_pages (a : allocator) (range : Z * Z)
    : outcome (nat * nat) :=
  start_aligned ← align_down_ptr range.1 PAGE_SIZE;
  new_length ← sub range.2 start_aligned;
  number_of_pages ← minimum_amount_of_pages new_length;
  rassert (negb (start_aligned =? 0));;
  start_idx ← page_pointer_to_page_idx a start_aligned;
  Ret (start_idx, Z.to_nat number_of_pages).

Definition mark_pointer_range_as_used_without_initialize (a : allocator) (range : Z * Z)
    : outcome allocator :=
  '(start_idx, number_of_pages) ← range_to_start_aligned_and_number_of_pages a range;
  b ← is_range_free (metadata a) start_idx number_of_pages;
  rassert b;;
  mark_range_as_used a start_idx number_of_pages false.

(** [init]: [memory] is the byte region [[mem_start, mem_start + heap_size)].
    [align_to_mut::<MaybeUninit<Page>>] yields the maximal run of whole,
    aligned pages of the part after the metadata. *)
Definition init (mem_start heap_size : Z) (reserved_areas : list (Z * Z))
    : outcome allocator :=
  let number_of_heap_pages := heap_size / (PAGE_SIZE + 1) in
  let heap_begin := mem_start + number_of_heap_pages in
  let heap_end := mem_start + heap_size in
  let aligned := (heap_begin + PAGE_SIZE - 1) / PAGE_SIZE * PAGE_SIZE in
  let heap_len := Z.max 0 ((heap_end - aligned) / PAGE_SIZE) in
  rassert (number_of_heap_pages <=? heap_len);;
  rassert (0 <? heap_len);;  (* heap[0] *)
  rassert (aligned mod PAGE_SIZE =? 0);;
  rassert (number_of_heap_pages + heap_len * PAGE_SIZE <=? heap_size);;
  let a := Allocator (replicate (Z.to_nat number_of_heap_pages) Free)
             aligned (aligned + heap_len * PAGE_SIZE) ∅ in
  foldM mark_pointer_range_as_used_without_initialize reserved_areas a.

(** The [while] loop of [dealloc]; [fuel] bounds the number of rounds and is
    never the reason it stops (the index leaves the array first). *)
Fixpoint dealloc_loop (fuel : nat) (md : list PageStatus) (idx count : nat)
    : outcome (list PageStatus * nat) :=
  match fuel with
  | O => Panic
  | S fuel =>
      s ← expect (md !! idx);
      if bool_decide (s = Last) then Ret (<[idx := Free]> md, S count)
      else dealloc_loop fuel (<[idx := Free]> md) (S idx) (S count)
  end.

Definition dealloc (a : allocator) (page : Z) : outcome (nat * allocator) :=
  idx ← page_pointer_to_page_idx a page;
  s ← expect (metadata a !! idx);
  rassert (bool_decide (s = Used) || bool_decide (s = Last));;
  '(md, count) ← dealloc_loop (length (metadata a)) (metadata a) idx 0;
  Ret (count, Allocator md (pages_start a) (pages_end a) (contents a)).

(** ** Abstract specification *)
Module spec.
  (** A state of the contract: the live runs, first page to length. *)
  Abbreviation runs := (gmap nat nat).

  (** A run of [n] pages from [i] meets no live run. *)
Definition disjoint_from (m : gmap nat nat) (i n : nat) : Prop :=
    ∀ i' n', m !! i' = Some n' → (i + n ≤ i' ∨ i' + n' ≤ i)%nat.
End spec.

(** Page [i] starts a live run of [n] pages. *)
Definition live (md : list PageStatus) (i n : nat) : Prop :=
  (0 < n)%nat ∧
  (∀ k, (k < n - 1)%nat → md !! (i + k)%nat = Some Used) ∧
  md !! (i + n - 1)%nat = Some Last ∧
  (∀ j, i = S j → md !! j ≠ Some Used).

(** Every run is closed: a [Used] page is followed by a page of its run. *)
Definition closed_runs (md : list PageStatus) : Prop :=
  ∀ j, md !! j = Some Used → ∃ s, md !! S j = Some s ∧ s ≠ Free.

Record refines (a : allocator) (m : gmap nat nat) : Prop := {
  ref_closed : closed_runs (metadata a);
  ref_runs : ∀ i n, m !! i = Some n ↔ live (metadata a) i n;
  ref_aligned : pages_start a mod PAGE_SIZE = 0;
  ref_nonnull : 0 < pages_start a;
  ref_room : pages_start a + Z.of_nat (length (metadata a)) * PAGE_SIZE ≤ pages_end a;
  ref_phys : pages_end a ≤ 2 ^ 56;  (* the physical address space of Sv39 *)
}.

(** * Lemmas *)
Local Open Scope nat_scope.

Lemma is_free_spec s : is_free s = true ↔ s = Free.
Proof. by destruct s. Qed.

Lemma is_range_free_Ret md i n b : is_range_free md i n = Ret b →
  b = true ↔ ∀ k, k < n → md !! (i + k) = Some Free.
Proof.
  revert i. induction n as [|n IH]; intros i; simpl.
  { intros. inv_outcome. split; [lia|done]. }
  intros H. apply bind_Ret in H as (s & Hs & H). apply expect_Ret in Hs.
  destruct (is_free s) eqn:Es.
  - apply is_free_spec in Es as ->. rewrite (IH _ H). split.
    + intros Hk [|k] Hlt; [by rewrite Nat.add_0_r|].
      rewrite <-Nat.add_succ_comm. apply Hk. lia.
    + intros Hk k Hlt. rewrite Nat.add_succ_comm. apply Hk. lia.
  - inv_outcome. split; [done|]. intros Hk.
    specialize (Hk 0 ltac:(lia)). rewrite Nat.add_0_r in Hk. naive_solver.
Qed.

Lemma is_range_free_total md i n : i + n ≤ length md → ∃ b, is_range_free md i n = Ret b.
Proof.
  revert i. induction n as [|n IH]; intros i Hi; simpl; [eauto|].
  destruct (lookup_lt_is_Some_2 md i) as [s ->]; [lia|]. simpl.
  destruct (is_free s); [apply IH; lia|eauto].
Qed.

(** [find] returns the first index that works, and [None] only if none does. *)
Lemma find_free_spec md n idxs :
  (∀ i, i ∈ idxs → i + n ≤ length md) →
  ∃ r, find_free md n idxs = Ret r ∧
    match r with
    | Some i => ∃ before after, idxs = before ++ i :: after ∧
        (∀ k, k < n → md !! (i + k) = Some Free) ∧
        Forall (λ j, ¬ ∀ k, k < n → md !! (j + k) = Some Free) before
    | None => Forall (λ j, ¬ ∀ k, k < n → md !! (j + k) = Some Free) idxs
    end.
Proof.
  induction idxs as [|i idxs IH]; intros Hb; simpl; [by exists None|].
  destruct (is_range_free_total md i n) as [b Hf]; [apply Hb; set_solver|].
  rewrite Hf. simpl. apply is_range_free_Ret in Hf. destruct b.
  - eexists; split; [done|]. exists [], idxs. split_and!; [done|by apply (proj1 Hf)|constructor].
  - assert (¬ ∀ k, k < n → md !! (i + k) = Some Free) as Hi.
    { intros H. apply Hf in H. done. }
    destruct IH as (r & -> & Hr); [intros; apply Hb; set_solver|].
    eexists; split; [done|]. destruct r as [j|]; [|by constructor].
    destruct Hr as (bf & af & -> & ? & ?). exists (i :: bf), af. split_and!; [done..|].
    by constructor.
Qed.

(** What the marking loop writes. *)
Definition marked (i n : nat) (md : list PageStatus) (j : nat) : option PageStatus :=
  if bool_decide (i ≤ j < i + n) then Some (if j =? i + n - 1 then Last else Used)
  else md !! j.

Lemma mark_range_spec a i n init_pages :
  (0 < pages_start a)%Z → i + n ≤ length (metadata a) →
  ∃ a', mark_range_as_used a i n init_pages = Ret a' ∧
    length (metadata a') = length (metadata a) ∧
    (∀ j, metadata a' !! j = marked i n (metadata a) j) ∧
    pages_start a' = pages_start a ∧ pages_end a' = pages_end a ∧
    (∀ j, contents a' !! j =
       if init_pages && bool_decide (i ≤ j < i + n) then Some zero_page else contents a !! j).
Proof.
  intros Hs Hi. unfold mark_range_as_used.
  cut (∀ k, k ≤ n → ∃ a', foldM (mark_one i n init_pages) (seq i k) a = Ret a' ∧
    length (metadata a') = length (metadata a) ∧
    (∀ j, metadata a' !! j =
       if bool_decide (i ≤ j < i + k) then Some (if j =? i + n - 1 then Last else Used)
       else metadata a !! j) ∧
    pages_start a' = pages_start a ∧ pages_end a' = pages_end a ∧
    (∀ j, contents a' !! j =
       if init_pages && bool_decide (i ≤ j < i + k) then Some zero_page
       else contents a !! j)).
  { intros H. apply (H n). done. }
  induction k as [|k IH]; intros Hk.
  { exists a. split_and!; try done; intros j; rewrite bool_decide_false by lia; [done|].
    by rewrite andb_false_r. }
  destruct IH as (a' & Hf & Hlen & Hmd & Hps & Hpe & Hc); [lia|].
  rewrite seq_S, foldM_app, Hf. unfold mark_one. simpl.
  unfold page_idx_to_pointer, PAGE_SIZE. rewrite Hps.
  rewrite (proj2 (Z.eqb_neq _ _)) by lia.
  rewrite bool_decide_true by lia.
  exists (Allocator (<[i + k := if i + k =? i + n - 1 then Last else Used]> (metadata a'))
    (pages_start a) (pages_end a')
    (if init_pages then <[i + k := zero_page]> (contents a') else contents a')).
  split; [by destruct init_pages|]. simpl. split_and!; try done.
  - by rewrite length_insert.
  - intros j. destruct (decide (j = i + k)) as [->|Hne].
    + rewrite list_lookup_insert_eq by lia. by rewrite bool_decide_true by lia.
    + rewrite list_lookup_insert_ne, Hmd by done.
      case_bool_decide; case_bool_decide; (done || lia).
  - intros j. destruct init_pages; simpl; [|by rewrite Hc].
    destruct (decide (j = i + k)) as [->|Hne].
    + rewrite lookup_insert_eq. by rewrite bool_decide_true by lia.
    + rewrite lookup_insert_ne, Hc by done. simpl.
      case_bool_decide; case_bool_decide; (done || lia).
Qed.

(** ** Runs *)
Lemma live_lookup md i n k : live md i n → k < n →
  ∃ s, md !! (i + k) = Some s ∧ s ≠ Free.
Proof.
  intros (Hn & Hu & Hl & _) Hk. destruct (decide (k < n - 1)).
  - exists Used. auto.
  - exists Last. replace (i + k) with (i + n - 1) by lia. auto.
Qed.

Lemma live_disjoint md i n i' n' :
  live md i n → live md i' n' → i ≠ i' → i + n ≤ i' ∨ i' + n' ≤ i.
Proof.
  cut (∀ i n i' n', live md i n → live md i' n' → i < i' → i + n ≤ i').
  { intros H H1 H2 Hne. destruct (decide (i < i')); [left|right]; eapply H; eauto; lia. }
  clear. intros i n i' n' (Hn & Hu & _) (_ & _ & _ & Hs) Hlt.
  destruct (decide (i + n ≤ i')); [done|]. exfalso.
  apply (Hs (i' - 1)); [lia|]. replace (i' - 1) with (i + (i' - 1 - i)) by lia.
  apply Hu. lia.
Qed.

Lemma live_unique md i n n' : live md i n → live md i n' → n = n'.
Proof.
  cut (∀ n n', live md i n → live md i n' → ¬ n < n').
  { intros H H1 H2. pose proof (H _ _ H1 H2). pose proof (H _ _ H2 H1). lia. }
  clear. intros n n' (Hn & _ & Hl & _) (_ & Hu & _) Hlt.
  replace (i + n - 1) with (i + (n - 1)) in Hl by lia.
  rewrite Hu in Hl by lia. done.
Qed.

(** Overwriting a free range by a closed run adds exactly that run. *)
Lemma live_marked md md' i n :
  0 < n → closed_runs md →
  (∀ k, k < n → md !! (i + k) = Some Free) →
  (∀ j, md' !! j = marked i n md j) →
  closed_runs md' ∧
  ∀ i' n', live md' i' n' ↔ (i' = i ∧ n' = n) ∨ (i' ≠ i ∧ live md i' n').
Proof.
  intros Hn Hwf Hfree Hmd'.
  assert (∀ j, i ≤ j < i + n → md !! j = Some Free) as Hfree'.
  { intros j Hj. replace j with (i + (j - i)) by lia. apply Hfree. lia. }
  assert (∀ j, ¬ (i ≤ j < i + n) → md' !! j = md !! j) as Hout.
  { intros j Hj. rewrite Hmd'. unfold marked. by rewrite bool_decide_false. }
  assert (∀ j, i ≤ j < i + n - 1 → md' !! j = Some Used) as Hin.
  { intros j Hj. rewrite Hmd'. unfold marked. rewrite bool_decide_true by lia.
    by rewrite (proj2 (Nat.eqb_neq _ _)) by lia. }
  assert (md' !! (i + n - 1) = Some Last) as Hlast.
  { rewrite Hmd'. unfold marked. rewrite bool_decide_true by lia.
    by rewrite Nat.eqb_refl. }
  assert (∀ j, S j = i → md !! j ≠ Some Used) as Hpred.
  { intros j <- Hu. destruct (Hwf j Hu) as (s & Hs & Hs').
    rewrite (Hfree' (S j)) in Hs by lia. congruence. }
  assert (live md' i n) as Hlive.
  { split_and!; [done|intros k Hk; apply Hin; lia|done|].
    intros j ->. rewrite Hout by lia. by apply Hpred. }
  split.
  - intros j Hj. destruct (decide (i ≤ j < i + n)).
    + destruct (decide (j < i + n - 1)); [|replace j with (i + n - 1) in Hj by lia; congruence].
      destruct (live_lookup md' i n (S j - i)) as (s & Hs & ?); [done|lia|].
      exists s. by replace (S j) with (i + (S j - i)) by lia.
    + rewrite Hout in Hj by done. destruct (Hwf j Hj) as (s & Hs & ?).
      exists s. rewrite Hout; [done|]. intros ?.
      rewrite (Hfree' (S j)) in Hs by lia. congruence.
  - intros i' n'. split.
    + intros Hl. destruct (decide (i' = i)) as [->|Hne].
      { left. split; [done|]. by eapply live_unique. }
      right. split; [done|].
      destruct (live_disjoint md' i n i' n' Hlive Hl ltac:(done)) as [Hd|Hd].
      * destruct Hl as (? & Hu & Hla & Hs). split_and!; [done|..].
        -- intros k Hk. rewrite <-Hout by lia. auto.
        -- rewrite <-Hout by lia. done.
        -- intros j Hj. destruct (decide (i ≤ j < i + n)).
           ++ rewrite Hfree' by lia. done.
           ++ rewrite <-Hout by lia. auto.
      * destruct Hl as (? & Hu & Hla & Hs). split_and!; [done|..].
        -- intros k Hk. rewrite <-Hout by lia. auto.
        -- rewrite <-Hout by lia. done.
        -- intros j Hj. rewrite <-Hout by lia. auto.
    + intros [[-> ->]|[Hne Hl]]; [done|].
      assert (∀ k, k < n' → ¬ (i ≤ i' + k < i + n)) as Hk.
      { intros k Hk Hr. destruct (live_lookup md i' n' k Hl Hk) as (s & Hs & ?).
        rewrite Hfree' in Hs by done. congruence. }
      destruct Hl as (? & Hu & Hla & Hs). split_and!; [done|..].
      * intros k Hk'. rewrite Hout by (apply Hk; lia). auto.
      * replace (i' + n' - 1) with (i' + (n' - 1)) in * by lia.
        rewrite Hout by (apply Hk; lia). done.
      * intros j ->. destruct (decide (i ≤ j < i + n)).
        -- specialize (Hk 0 ltac:(lia)). assert (j = i + n - 1) as -> by lia.
           by rewrite Hlast.
        -- rewrite Hout by done. auto.
Qed.

(** Freeing a live run removes exactly that run. *)
Lemma live_freed md md' i n :
  closed_runs md → live md i n →
  (∀ j, md' !! j = if bool_decide (i ≤ j < i + n) then Some Free else md !! j) →
  closed_runs md' ∧ ∀ i' n', live md' i' n' ↔ i' ≠ i ∧ live md i' n'.
Proof.
  intros Hwf Hlive Hmd'.
  assert (∀ j, ¬ (i ≤ j < i + n) → md' !! j = md !! j) as Hout.
  { intros j Hj. rewrite Hmd'. by rewrite bool_decide_false. }
  assert (∀ j, i ≤ j < i + n → md' !! j = Some Free) as Hin.
  { intros j Hj. rewrite Hmd'. by rewrite bool_decide_true. }
  pose proof Hlive as (Hn & Hu & Hlast & Hstart).
  split.
  - intros j Hj. destruct (decide (i ≤ j < i + n)); [rewrite Hin in Hj by done; done|].
    rewrite Hout in Hj by done. destruct (Hwf j Hj) as (s & Hs & ?). exists s.
    rewrite Hout; [done|]. intros Hr. eapply (Hstart j); [lia|done].
  - intros i' n'. split.
    + intros Hl.
      assert (∀ k, k < n' → ¬ (i ≤ i' + k < i + n)) as Hk.
      { intros k Hk Hr. destruct (live_lookup md' i' n' k Hl Hk) as (s & Hs & ?).
        rewrite Hin in Hs by done. congruence. }
      destruct Hl as (? & Hu' & Hla & Hs). split.
      { intros ->. apply (Hk 0); lia. }
      split_and!; [done|..].
      * intros k Hk'. rewrite <-Hout by (apply Hk; lia). auto.
      * replace (i' + n' - 1) with (i' + (n' - 1)) in * by lia.
        rewrite <-Hout by (apply Hk; lia). done.
      * intros j ->. destruct (decide (i ≤ j < i + n)).
        -- specialize (Hk 0 ltac:(lia)). assert (j = i + n - 1) as -> by lia. congruence.
        -- rewrite <-Hout by done. auto.
    + intros [Hne Hl].
      destruct (live_disjoint md i n i' n' Hlive Hl ltac:(done)) as [Hd|Hd];
        destruct Hl as (? & Hu' & Hla & Hs); split_and!; try done.
      all: try (intros k Hk'; rewrite Hout by lia; by auto).
      all: try (rewrite Hout by lia; done).
      intros j ->. destruct (decide (i ≤ j < i + n)); [by rewrite Hin|].
      rewrite Hout by done. auto.
Qed.

Lemma dealloc_loop_spec fuel md i n count :
  (∀ k, k < n - 1 → md !! (i + k) = Some Used) → md !! (i + n - 1) = Some Last →
  0 < n ≤ fuel →
  ∃ md', dealloc_loop fuel md i count = Ret (md', count + n) ∧
    length md' = length md ∧
    ∀ j, md' !! j = if bool_decide (i ≤ j < i + n) then Some Free else md !! j.
Proof.
  revert md i n count. induction fuel as [|fuel IH]; intros md i n count Hu Hl Hn; [lia|].
  simpl. destruct (decide (n = 1)) as [->|Hn1].
  - replace (i + 1 - 1) with i in Hl by lia. rewrite Hl. simpl.
    rewrite Nat.add_1_r. eexists; split; [done|]. split; [by rewrite length_insert|].
    apply lookup_lt_Some in Hl. intros j. destruct (decide (j = i)) as [->|].
    + rewrite list_lookup_insert_eq by done. by rewrite bool_decide_true by lia.
    + rewrite list_lookup_insert_ne by done. by rewrite bool_decide_false by lia.
  - pose proof (Hu 0 ltac:(lia)) as H0. rewrite Nat.add_0_r in H0. rewrite H0. simpl.
    apply lookup_lt_Some in H0 as Hlt.
    destruct (IH (<[i:=Free]> md) (S i) (n - 1) (S count)) as (md' & -> & Hlen & Hmd').
    + intros k Hk. rewrite list_lookup_insert_ne by lia.
      rewrite Nat.add_succ_comm. apply Hu. lia.
    + rewrite list_lookup_insert_ne by lia. rewrite <-Hl. f_equal. lia.
    + lia.
    + exists md'. split; [do 2 f_equal; lia|]. rewrite length_insert in Hlen.
      split; [done|]. intros j. rewrite Hmd'. destruct (decide (j = i)) as [->|].
      * rewrite list_lookup_insert_eq by done. rewrite bool_decide_false by lia.
        by rewrite bool_decide_true by lia.
      * rewrite list_lookup_insert_ne by done.
        case_bool_decide; case_bool_decide; (done || lia).
Qed.

Lemma seq_split_before len before i after :
  seq 0 len = before ++ i :: after → ∀ j, j < i → j ∈ before.
Proof.
  intros Hseq j Hj.
  pose proof (f_equal (lookup (length before)) Hseq) as Hl.
  rewrite list_lookup_middle in Hl by done. apply lookup_seq in Hl as [Hl1 Hl2].
  pose proof (f_equal (take (length before)) Hseq) as Ht.
  rewrite take_app_length, take_seq in Ht. rewrite <-Ht. apply elem_of_seq. lia.
Qed.

(** Pointers and indices *)
Lemma page_idx_to_pointer_Ret a i : (0 < pages_start a)%Z →
  page_idx_to_pointer a i = Ret (pages_start a + Z.of_nat i * 4096)%Z.
Proof.
  intros Hs. unfold page_idx_to_pointer, PAGE_SIZE.
  by rewrite (proj2 (Z.eqb_neq _ _)) by lia.
Qed.

Lemma page_pointer_idx a m i : refines a m → i < length (metadata a) →
  page_pointer_to_page_idx a (pages_start a + Z.of_nat i * 4096)%Z = Ret i.
Proof.
  intros [_ _ Hal Hnn Hroom _] Hi. unfold page_pointer_to_page_idx, PAGE_SIZE in *.
  rewrite (proj2 (Z.leb_le _ _)), (proj2 (Z.ltb_lt _ _)) by lia.
  rewrite Z.mod_add, Hal by lia. simpl. f_equal.
  replace (pages_start a + Z.of_nat i * 4096 - pages_start a)%Z
    with (Z.of_nat i * 4096)%Z by lia.
  rewrite Z.div_mul by lia. apply Nat2Z.id.
Qed.

Lemma refines_run_bound a m i n : refines a m → m !! i = Some n →
  0 < n ∧ i + n ≤ length (metadata a).
Proof.
  intros Hr Hm. apply (ref_runs _ _ Hr) in Hm as (? & _ & Hl & _).
  apply lookup_lt_Some in Hl. lia.
Qed.

(** Any range of free pages is disjoint from the live runs, and conversely. *)
Lemma refines_free_iff a m i n : refines a m → 0 < n → i + n ≤ length (metadata a) →
  (∀ k, k < n → metadata a !! (i + k) = Some Free) ↔ spec.disjoint_from m i n.
Proof.
  intros Hr Hn0 Hi. split.
  - intros Hf i' n' Hm. apply (ref_runs _ _ Hr) in Hm as Hl.
    destruct (decide (i + n ≤ i' ∨ i' + n' ≤ i)) as [|Hno]; [done|exfalso].
    pose proof (proj1 Hl).
    destruct (live_lookup _ i' n' (max i i' - i') Hl) as (s & Hs & Hs'); [lia|].
    assert (metadata a !! (i' + (max i i' - i')) = Some Free) as Hfr.
    { replace (i' + (max i i' - i')) with (i + (max i i' - i)) by lia. apply Hf. lia. }
    congruence.
  - intros Hd k Hk. destruct (lookup_lt_is_Some_2 (metadata a) (i + k)) as [s Hs]; [lia|].
    destruct (decide (s = Free)) as [->|Hs']; [done|exfalso].
    (* walk back to the start of the run, and forward to its end *)
    assert (∃ b, b ≤ i + k ∧ (∀ j, b ≤ j < i + k → metadata a !! j = Some Used) ∧
      (∀ j, b = S j → metadata a !! j ≠ Some Used)) as (b & Hb1 & Hb2 & Hb3).
    { clear Hs Hs' Hk. generalize (i + k) as p. intros p. induction p as [|p IH].
      - exists 0. split_and!; [lia|intros; lia|intros; lia].
      - destruct (decide (metadata a !! p = Some Used)) as [Hu|Hu].
        + destruct IH as (b & ? & H1 & H2). exists b. split_and!; [lia| |done].
          intros j Hj. destruct (decide (j = p)) as [->|]; [done|]. apply H1. lia.
        + exists (S p). split_and!; [lia|intros; lia|intros j [= ->]; done]. }
    assert (∃ e, i + k ≤ e ∧ (∀ j, i + k ≤ j < e → metadata a !! j = Some Used) ∧
      metadata a !! e = Some Last) as (e & He1 & He2 & He3).
    { clear Hb1 Hb2 Hb3 Hk. revert s Hs Hs'. generalize (i + k) as p. intros p.
      remember (length (metadata a) - p) as d eqn:Hd'. revert p Hd'.
      induction d as [|d IH]; intros p Hd' s Hs Hs'; apply lookup_lt_Some in Hs as Hlt; [lia|].
      destruct s; [done| |by exists p; split_and!; [lia|intros; lia|]].
      destruct (ref_closed _ _ Hr p Hs) as (s' & Hn & Hn').
      destruct (IH (S p) ltac:(lia) s' Hn Hn') as (e & ? & H1 & H2).
      exists e. split_and!; [lia| |done]. intros j Hj.
      destruct (decide (j = p)) as [->|]; [done|]. apply H1. lia. }
    assert (live (metadata a) b (e + 1 - b)) as Hl.
    { split_and!; [lia| | |done].
      - intros q Hq. destruct (decide (b + q < i + k)); [apply Hb2|apply He2]; lia.
      - by replace (b + (e + 1 - b) - 1) with e by lia. }
    apply (ref_runs _ _ Hr) in Hl. apply Hd in Hl. lia.
Qed.

(** Marking a free range adds the run to the contract. *)
Lemma mark_range_refines a m i n init_pages :
  refines a m → 0 < n → i + n ≤ length (metadata a) →
  (∀ k, k < n → metadata a !! (i + k) = Some Free) →
  ∃ a', mark_range_as_used a i n init_pages = Ret a' ∧
    refines a' (<[i := n]> m) ∧ pages_start a' = pages_start a ∧
    (∀ j, contents a' !! j =
       if init_pages && bool_decide (i ≤ j < i + n) then Some zero_page else contents a !! j).
Proof.
  intros Hr Hn Hi Hfree. pose proof (ref_nonnull _ _ Hr) as Hnn.
  destruct (mark_range_spec a i n init_pages Hnn Hi)
    as (a' & -> & Hlen & Hmd & Hps & Hpe & Hc).
  exists a'. split_and!; [done| |done|done].
  destruct (live_marked (metadata a) (metadata a') i n Hn (ref_closed _ _ Hr) Hfree Hmd)
    as [Hcl Hlv].
  split; [done| |by rewrite Hps; apply Hr|by rewrite Hps|rewrite Hps, Hpe, Hlen; apply Hr
         |rewrite Hpe; apply Hr].
  intros i' n'. rewrite Hlv, <-(ref_runs _ _ Hr).
  destruct (decide (i' = i)) as [->|Hne].
  - rewrite lookup_insert_eq. naive_solver.
  - rewrite lookup_insert_ne by done. naive_solver.
Qed.

(** Reserving a pointer range: a run covering it becomes live. *)
Lemma mark_pointer_range_refines a m s e a' :
  refines a m → in_width 64 s → in_width 64 e →
  mark_pointer_range_as_used_without_initialize a (s, e) = Ret a' →
  pages_start a' = pages_start a ∧
  ∃ m', refines a' m' ∧ m ⊆ m' ∧
    ((s < e)%Z → ∃ i n, m' !! i = Some n ∧
      (pages_start a + Z.of_nat i * 4096 ≤ s)%Z ∧
      (e ≤ pages_start a + Z.of_nat (i + n) * 4096)%Z).
Proof.
  intros Hr Hs He H. unfold mark_pointer_range_as_used_without_initialize,
    range_to_start_aligned_and_number_of_pages in H.
  rewrite align_down_page in H by done. simpl in H.
  apply bind_Ret in H as ([i n] & Hin & H).
  apply bind_Ret in Hin as (len & Hlen & Hin). apply sub_Ret in Hlen as [-> Hle].
  apply bind_Ret in Hin as (np & Hnp & Hin).
  apply bind_Ret in Hin as ([] & _ & Hin).
  apply bind_Ret in Hin as (idx & Hidx & Hin). inv_outcome. subst r.
  apply minimum_amount_of_pages_inv in Hnp; [|lia].
  pose proof (Z.div_mod s 4096 ltac:(lia)). pose proof (Z.mod_pos_bound s 4096 ltac:(lia)).
  destruct Hs as [Hs _].
  pose proof (proj1 (is_range_free_Ret _ _ _ _ H0) eq_refl) as Hfree.
  unfold page_pointer_to_page_idx, PAGE_SIZE in Hidx. inv_outcome.
  apply Z.leb_le in Hidx0. pose proof (ref_aligned _ _ Hr) as Hal. unfold PAGE_SIZE in Hal.
  pose proof (Z.div_mod (pages_start a) 4096 ltac:(lia)) as Hps.
  set (d := (s / 4096 - pages_start a / 4096)%Z) in *.
  assert ((s / 4096 * 4096 - pages_start a) / 4096 = d)%Z as Hd.
  { replace (s / 4096 * 4096 - pages_start a)%Z with (d * 4096)%Z by lia.
    apply Z.div_mul. lia. }
  rewrite Hd in *.
  destruct (decide (Z.to_nat np = 0)) as [Hz|Hz].
  { rewrite Hz in H. unfold mark_range_as_used in H. simpl in H. inv_outcome.
    split; [done|]. exists m. split_and!; [done..|]. lia. }
  destruct (mark_range_refines a m (Z.to_nat d) (Z.to_nat np) false Hr)
    as (a'' & Heq & Href & Hps' & _); [lia| |done|].
  { assert (metadata a !! (Z.to_nat d + (Z.to_nat np - 1)) = Some Free) as Hl
      by (apply Hfree; lia). apply lookup_lt_Some in Hl. lia. }
  rewrite H in Heq. injection Heq as <-. split; [done|].
  eexists; split_and!; [done| |].
  - apply insert_subseteq. apply eq_None_not_Some. intros [n' Hm].
    apply (ref_runs _ _ Hr) in Hm as Hl. destruct (live_lookup _ _ _ 0 Hl (proj1 Hl))
      as (st & Hst & Hst'). rewrite Hfree in Hst by lia. congruence.
  - intros Hse. do 2 eexists. split; [apply lookup_insert_eq|]. lia.
Qed.

(** ** The operations against the contract *)
Lemma alloc_ok a m n :
  refines a m → 0 < n →
  ∃ r a', alloc a n = Ret (r, a') ∧ pages_start a' = pages_start a ∧
  match r with
  | None => a' = a ∧ ∀ i, i + n ≤ length (metadata a) → ¬ spec.disjoint_from m i n
  | Some (p, q) => ∃ i,
      p = (pages_start a + Z.of_nat i * PAGE_SIZE)%Z ∧
      q = (p + Z.of_nat n * PAGE_SIZE)%Z ∧
      i + n ≤ length (metadata a) ∧
      spec.disjoint_from m i n ∧
      (∀ i', i' < i → ¬ spec.disjoint_from m i' n) ∧
      (∀ k, k < n → contents a' !! (i + k) = Some zero_page) ∧
      refines a' (<[i := n]> m)
  end.
Proof.
  intros Hr Hn. unfold alloc, total_heap_pages. rewrite (bool_decide_true (0 < n)) by done.
  bstep. case_bool_decide as Htot.
  { do 2 eexists; split; [done|]. split_and!; [done..|]. intros; lia. }
  destruct (find_free_spec (metadata a) n (seq 0 (S (length (metadata a) - n))))
    as (r & Hf & Hspec).
  { intros i Hi. rewrite elem_of_seq in Hi. lia. }
  rewrite Hf. bstep.
  destruct r as [i|]; simpl.
  - destruct Hspec as (bf & af & Hseq & Hfree & Hbf).
    assert (i + n ≤ length (metadata a)) as Hi.
    { assert (i ∈ seq 0 (S (length (metadata a) - n))) as Hin
        by (rewrite Hseq; set_solver).
      rewrite elem_of_seq in Hin. lia. }
    destruct (mark_range_refines a m i n true Hr Hn Hi Hfree)
      as (a' & -> & Href & Hps & Hc). bstep.
    pose proof (ref_nonnull _ _ Hr) as Hnn.
    rewrite !page_idx_to_pointer_Ret by congruence. bstep.
    do 2 eexists; split; [done|]. split_and!; [done..|]. exists i. rewrite Hps.
    split_and!; [done|unfold PAGE_SIZE; lia|done|by eapply refines_free_iff| | |done].
    + intros i' Hi' Hd. rewrite <-refines_free_iff in Hd; [|done|done|lia].
      rewrite Forall_forall in Hbf. apply (Hbf i'); [|done].
      by apply (seq_split_before _ _ _ _ Hseq).
    + intros k Hk. rewrite Hc. by rewrite bool_decide_true by lia.
  - do 2 eexists; split; [done|]. split_and!; [done..|]. intros i Hi Hd.
    rewrite <-refines_free_iff in Hd by done.
    rewrite Forall_forall in Hspec. apply (Hspec i); [|done].
    apply elem_of_seq. lia.
Qed.

Lemma dealloc_ok a m i n :
  refines a m → m !! i = Some n →
  ∃ a', dealloc a (pages_start a + Z.of_nat i * PAGE_SIZE)%Z = Ret (n, a') ∧
    pages_start a' = pages_start a ∧
    refines a' (delete i m).
Proof.
  intros Hr Hm. pose proof (refines_run_bound _ _ _ _ Hr Hm) as [Hn Hb].
  apply (ref_runs _ _ Hr) in Hm as Hl. unfold dealloc.
  rewrite (page_pointer_idx _ m) by (done || lia). simpl.
  destruct (live_lookup _ _ _ 0 Hl Hn) as (s & Hs & Hs'). rewrite Nat.add_0_r in Hs.
  rewrite Hs. simpl.
  assert (bool_decide (s = Used) || bool_decide (s = Last) = true) as ->
    by (by destruct s). simpl.
  pose proof Hl as (_ & Hu & Hla & _).
  destruct (dealloc_loop_spec (length (metadata a)) (metadata a) i n 0 Hu Hla ltac:(lia))
    as (md' & -> & Hlen & Hmd'). simpl.
  eexists; split_and!; [done..|].
  destruct (live_freed _ md' _ _ (ref_closed _ _ Hr) Hl Hmd') as [Hcl Hlv].
  split; simpl; [done| |apply Hr|apply Hr|rewrite Hlen; apply Hr|apply Hr].
  intros i' n'. rewrite Hlv, <-(ref_runs _ _ Hr). rewrite lookup_delete_Some. naive_solver.
Qed.

(** * Properties *)

(** C3: [alloc] implements the contract. It never panics on a positive request;
    when it returns a range, the range starts at a page whose run is disjoint
    from every live run (no page is handed out twice), it is the first such
    run, its pages are zeroed and the contract gains exactly that run; when it
    returns [None], the state is unchanged and no disjoint run of that length
    fits anywhere in the heap. *)
Theorem alloc_refines a m n :
  refines a m → 0 < n →
  ∃ r a', alloc a n = Ret (r, a') ∧
  match r with
  | None => a' = a ∧ ∀ i, i + n ≤ length (metadata a) → ¬ spec.disjoint_from m i n
  | Some (p, q) => ∃ i,
      p = (pages_start a + Z.of_nat i * PAGE_SIZE)%Z ∧
      q = (p + Z.of_nat n * PAGE_SIZE)%Z ∧
      i + n ≤ length (metadata a) ∧
      spec.disjoint_from m i n ∧
      (∀ i', i' < i → ¬ spec.disjoint_from m i' n) ∧
      (∀ k, k < n → contents a' !! (i + k) = Some zero_page) ∧
      refines a' (<[i := n]> m)
  end.
Proof.
  intros Hr Hn. destruct (alloc_ok a m n Hr Hn) as (r & a' & ? & _ & ?). eauto.
Qed.

(** C4: [dealloc] implements the contract: given the first page of a live run
    it never panics, returns the number of pages of the run, and removes
    exactly that run. *)
Theorem dealloc_refines a m i n :
  refines a m → m !! i = Some n →
  ∃ a', dealloc a (pages_start a + Z.of_nat i * PAGE_SIZE)%Z = Ret (n, a') ∧
    refines a' (delete i m).
Proof.
  intros Hr Hm. destruct (dealloc_ok a m i n Hr Hm) as (a' & ? & _ & ?). eauto.
Qed.

(** freeing a page that is already free panics ("double-free detected"),
    whatever the state of the allocator. *)
Theorem dealloc_double_free a i :
  (0 < pages_start a)%Z → (pages_start a mod PAGE_SIZE = 0)%Z →
  metadata a !! i = Some Free →
  dealloc a (pages_start a + Z.of_nat i * PAGE_SIZE)%Z = Panic.
Proof.
  intros Hs Hal Hf. unfold dealloc, page_pointer_to_page_idx.
  destruct (pages_start a <=? _)%Z; [|done]. destruct (_ <? pages_end a)%Z; [|done].
  destruct (_ =? 0)%Z; [|done]. bstep.
  replace (pages_start a + Z.of_nat i * PAGE_SIZE - pages_start a)%Z
    with (Z.of_nat i * PAGE_SIZE)%Z by lia.
  rewrite Z.div_mul, Nat2Z.id, Hf by done. done.
Qed.

(** A heap whose pages are all free. *)
Lemma fresh_refines k s e : (s mod PAGE_SIZE = 0)%Z → (0 < s)%Z →
  (s + Z.of_nat k * PAGE_SIZE ≤ e ≤ 2 ^ 56)%Z → refines (Allocator (replicate k Free) s e ∅) ∅.
Proof.
  intros Hal Hs [He He']. split; simpl; [| |done..|by rewrite length_replicate|done].
  - intros j Hj. apply lookup_replicate in Hj as [? _]. done.
  - intros i n. rewrite lookup_empty. split; [done|]. intros (_ & _ & Hl & _).
    apply lookup_replicate in Hl as [? _]. done.
Qed.

(** after [init] the allocator satisfies its invariant, and every byte of
    every reserved area lies in a live run, so that no later [alloc] can hand
    it out (by [alloc_refines] runs handed out are disjoint from live runs). *)
Theorem init_refines mem_start heap_size reserved a :
  (0 < mem_start)%Z → (0 ≤ heap_size)%Z → (mem_start + heap_size ≤ 2 ^ 56)%Z →
  Forall (λ '(s, e), in_width 64 s ∧ in_width 64 e) reserved →
  init mem_start heap_size reserved = Ret a →
  ∃ m, refines a m ∧
    ∀ s e addr, (s, e) ∈ reserved → (s ≤ addr < e)%Z →
    ∃ i n, m !! i = Some n ∧
      (pages_start a + Z.of_nat i * PAGE_SIZE ≤ addr <
       pages_start a + Z.of_nat (i + n) * PAGE_SIZE)%Z.
Proof.
  intros Hms Hhs Hphys Hres H. unfold init in H. unfold PAGE_SIZE in *.
  apply bind_Ret in H as ([] & Hlen & H). apply rassert_Ret, Z.leb_le in Hlen.
  apply bind_Ret in H as ([] & Hne & H). apply rassert_Ret, Z.ltb_lt in Hne.
  apply bind_Ret in H as ([] & Hal & H). apply rassert_Ret, Z.eqb_eq in Hal.
  apply bind_Ret in H as ([] & _ & H).
  set (np := (heap_size / (4096 + 1))%Z) in *.
  set (al := ((mem_start + np + 4096 - 1) / 4096 * 4096)%Z) in *.
  set (hl := Z.max 0 _) in *.
  assert (0 ≤ np)%Z by (apply Z.div_pos; lia).
  assert (mem_start ≤ al)%Z.
  { pose proof (Z.div_mod (mem_start + np + 4096 - 1) 4096).
    pose proof (Z.mod_pos_bound (mem_start + np + 4096 - 1) 4096). lia. }
  set (a0 := Allocator (replicate (Z.to_nat np) Free) al (al + hl * 4096)%Z ∅) in *.
  assert (refines a0 ∅) as Hr0.
  { apply fresh_refines; unfold PAGE_SIZE; [done|lia|].
    pose proof (Z.div_mod (mem_start + heap_size - al) 4096).
    pose proof (Z.mod_pos_bound (mem_start + heap_size - al) 4096). lia. }
  apply (foldM_inv _ (λ seen a, pages_start a = al ∧ ∃ m, refines a m ∧
    ∀ s e addr, (s, e) ∈ seen → (s ≤ addr < e)%Z → ∃ i n, m !! i = Some n ∧
      (al + Z.of_nat i * 4096 ≤ addr < al + Z.of_nat (i + n) * 4096)%Z)) in H.
  - destruct H as (-> & m & ?). eauto.
  - split; [done|]. exists ∅. split; [done|]. intros s e addr Hin. set_solver.
  - intros seen [s e] rest a1 a2 -> (Hps & m1 & Hr1 & Hcov) Hstep.
    rewrite Forall_app, Forall_cons in Hres. destruct Hres as (_ & [Hs He] & _).
    destruct (mark_pointer_range_refines a1 m1 s e a2 Hr1 Hs He Hstep)
      as (Hps2 & m2 & Hr2 & Hsub & Hnew).
    split; [congruence|]. exists m2. split; [done|]. intros s' e' addr Hin Hb.
    apply elem_of_app in Hin as [Hin|Hin].
    + destruct (Hcov s' e' addr Hin Hb) as (i & n & Hm & ?). exists i, n.
      split; [by eapply lookup_weaken|done].
    + apply list_elem_of_singleton in Hin as [= -> ->]. destruct Hnew as (i & n & ? & ?); [lia|].
      exists i, n. split; [done|]. rewrite <-Hps. lia.
Qed.

(** ** Witnesses *)
Definition wit_alloc : allocator := Allocator [Free; Used; Last; Free; Free] 8192 28672 ∅.
Definition wit_runs : gmap nat nat := {[ 1 := 2 ]}.

Lemma wit_refines : refines wit_alloc wit_runs.
Proof.
  split; try (vm_compute; congruence); [..|].
  - intros [|[|[|[|[|j]]]]]; simpl; try done. intros _. eauto.
  - intros i n. unfold wit_runs. rewrite lookup_singleton_Some. split.
    + intros [<- <-]. split_and!; [lia|intros [|k] ?; [done|lia]|done|by intros j [= <-]].
    + intros Hl. assert (live (metadata wit_alloc) 1 2) as H1.
      { split_and!; [lia|intros [|k] ?; [done|lia]|done|by intros j [= <-]]. }
      destruct (decide (i = 1)) as [->|Hne].
      { split; [done|]. eapply live_unique; [apply H1|done]. }
      exfalso. destruct (live_lookup _ _ _ 0 Hl (proj1 Hl)) as (s & Hs & ?).
      rewrite Nat.add_0_r in Hs. destruct Hl as (_ & _ & _ & Hst).
      destruct i as [|[|[|[|[|i]]]]]; simpl in *; simplify_eq; try done.
      by apply (Hst 1).
Qed.

Lemma alloc_refines_witness :
  ∃ r a', alloc wit_alloc 2 = Ret (r, a') ∧ r = Some (20480, 28672)%Z.
Proof.
  destruct (alloc_refines wit_alloc wit_runs 2 wit_refines ltac:(lia)) as (r & a' & H & _).
  exists r, a'. split; [exact H|]. vm_compute in H. congruence.
Defined.

Lemma dealloc_refines_witness :
  ∃ a', dealloc wit_alloc (pages_start wit_alloc + Z.of_nat 1 * PAGE_SIZE)%Z = Ret (2, a') ∧
    refines a' (delete 1 wit_runs).
Proof. apply (dealloc_refines wit_alloc wit_runs 1 2 wit_refines). reflexivity. Defined.

Lemma dealloc_double_free_witness :
  dealloc wit_alloc (pages_start wit_alloc + Z.of_nat 3 * PAGE_SIZE)%Z = Panic.
Proof. apply (dealloc_double_free wit_alloc 3); vm_compute; reflexivity. Defined.

Lemma init_refines_witness :
  ∃ a, init 4096 16387 [(9000, 12288)]%Z = Ret a ∧ ∃ m, refines a m.
Proof.
  eexists. split; [vm_compute; reflexivity|].
  edestruct (init_refines 4096 16387 [(9000, 12288)]%Z) as (m & Hm & _);
    [lia|lia|lia|repeat constructor; lia|vm_compute; reflexivity|].
  exists m. exact Hm.
Defined.

(** ** The interface the heap is written against

    [trait PageAllocator], its contract in terms of addresses, and the instance
    that the metadata allocator provides. *)
Local Close Scope nat_scope.

Class PageAllocatorTrait (A : Type) := {
  pg_alloc : A → nat → outcome (option (Z * Z) * A);
  pg_dealloc : A → Z → outcome (nat * A);
}.

(** [pg_inv a m]: [m] maps the address of every run handed out to its length. *)
Class PageAllocatorLaws (A : Type) `{!PageAllocatorTrait A} := {
  pg_inv : A → gmap Z nat → Prop;
  pg_alloc_spec a m n : pg_inv a m → (0 < n)%nat →
    ∃ r a', pg_alloc a n = Ret (r, a') ∧
    match r with
    | None => pg_inv a' m
    | Some (p, q) =>
        q = p + Z.of_nat n * PAGE_SIZE ∧ 0 < p ∧ p mod PAGE_SIZE = 0 ∧
        (∀ p' n', m !! p' = Some n' →
           p + Z.of_nat n * PAGE_SIZE ≤ p' ∨ p' + Z.of_nat n' * PAGE_SIZE ≤ p) ∧
        pg_inv a' (<[p := n]> m)
    end;
  pg_dealloc_spec a m p n : pg_inv a m → m !! p = Some n →
    ∃ a', pg_dealloc a p = Ret (n, a') ∧ pg_inv a' (delete p m);
  pg_run_pos a m p n : pg_inv a m → m !! p = Some n → (0 < n)%nat;
  pg_run_addr a m p n : pg_inv a m → m !! p = Some n → 0 < p ∧ p mod PAGE_SIZE = 0;
  pg_run_phys a m p n : pg_inv a m → m !! p = Some n →
    p + Z.of_nat n * PAGE_SIZE ≤ 2 ^ 56;
  pg_free : A → nat;
  pg_alloc_free a m : pg_inv a m → (0 < pg_free a)%nat →
    ∃ p q a', pg_alloc a 1 = Ret (Some (p, q), a') ∧ pg_free a = S (pg_free a');
}.

#[global] Instance metadata_trait : PageAllocatorTrait allocator := {|
  pg_alloc := alloc; pg_dealloc := dealloc;
|}.

Definition free_pages (a : allocator) : nat :=
  length (List.filter is_free (metadata a)).

Lemma filter_insert_free (md : list PageStatus) i s : md !! i = Some Free → s ≠ Free →
  length (List.filter is_free md) = S (length (List.filter is_free (<[i := s]> md))).
Proof.
  revert i. induction md as [|x md IH]; intros [|i] Hi Hs; simpl in *; try done.
  - injection Hi as ->. by destruct s.
  - destruct (is_free x); simpl; rewrite (IH i Hi Hs); done.
Qed.

(** One page can be allocated as long as one is free. *)
Lemma alloc_one_free a m : refines a m → (0 < free_pages a)%nat →
  ∃ p q a', alloc a 1 = Ret (Some (p, q), a') ∧ free_pages a = S (free_pages a').
Proof.
  intros Hr Hf.
  assert (∃ i, metadata a !! i = Some Free) as [i Hi].
  { unfold free_pages in Hf. destruct (List.filter is_free (metadata a)) as [|x l] eqn:E;
      simpl in Hf; [lia|].
    assert (In x (List.filter is_free (metadata a))) as Hin by (rewrite E; by left).
    apply filter_In in Hin as [Hin Hx]. apply is_free_spec in Hx as ->.
    by apply list_elem_of_In, list_elem_of_lookup in Hin. }
  apply lookup_lt_Some in Hi as Hlt.
  unfold alloc, total_heap_pages. rewrite (bool_decide_true (0 < 1)%nat) by lia. bstep.
  rewrite bool_decide_false by lia.
  destruct (find_free_spec (metadata a) 1 (seq 0 (S (length (metadata a) - 1))))
    as (r & Hfind & Hspec).
  { intros j Hj. rewrite elem_of_seq in Hj. lia. }
  rewrite Hfind. bstep. destruct r as [j|].
  - destruct Hspec as (bf & af & _ & Hfree & _). specialize (Hfree 0%nat ltac:(lia)).
    rewrite Nat.add_0_r in Hfree. apply lookup_lt_Some in Hfree as Hj.
    pose proof (ref_nonnull _ _ Hr) as Hnn. unfold mark_range_as_used, mark_one.
    cbn [seq foldM]. unfold page_idx_to_pointer, PAGE_SIZE.
    rewrite (proj2 (Z.eqb_neq _ _)) by lia. bstep.
    rewrite bool_decide_true by done. bstep. cbn [pages_start].
    rewrite !(proj2 (Z.eqb_neq _ _)) by lia. bstep.
    do 3 eexists. split; [done|]. unfold free_pages. cbn [metadata].
    apply filter_insert_free; [done|]. by destruct (_ =? _)%nat.
  - exfalso. rewrite Forall_forall in Hspec. apply (Hspec i).
    + apply elem_of_seq. lia.
    + intros k Hk. by replace (i + k)%nat with i by lia.
Qed.

(** The page index behind an address. *)
Definition idx_addr (base : Z) (i : nat) : Z := base + Z.of_nat i * PAGE_SIZE.
#[global] Instance idx_addr_inj base : Inj (=) (=) (idx_addr base).
Proof. unfold idx_addr, PAGE_SIZE. intros i j H. lia. Qed.

#[global, refine] Instance metadata_laws : PageAllocatorLaws allocator := {|
  pg_inv a m := ∃ runs, refines a runs ∧ m = kmap (idx_addr (pages_start a)) runs;
  pg_free := free_pages;
|}.
Proof.
  - intros a m n (runs & Hr & ->) Hn. simpl.
    destruct (alloc_ok a runs n Hr Hn) as (r & a' & -> & Hps & Hres).
    exists r, a'. split; [done|]. destruct r as [[p q]|].
    + destruct Hres as (i & -> & -> & Hi & Hd & _ & _ & Hr').
      pose proof (ref_nonnull _ _ Hr). unfold PAGE_SIZE in *. split_and!; [done|lia| | |].
      * rewrite Z.mod_add by lia. apply Hr.
      * intros p' n' Hm. apply lookup_kmap_Some in Hm as (i' & -> & Hm); [|apply _].
        apply Hd in Hm. unfold idx_addr, PAGE_SIZE. lia.
      * eexists; split; [done|]. rewrite Hps, kmap_insert by apply _. done.
    + destruct Hres as [-> _]. eauto.
  - intros a m p n (runs & Hr & ->) Hm. simpl.
    apply lookup_kmap_Some in Hm as (i & -> & Hm); [|apply _].
    destruct (dealloc_ok a runs i n Hr Hm) as (a' & Heq & Hps & Hr').
    exists a'. split; [done|]. eexists; split; [done|]. rewrite Hps, kmap_delete by apply _. done.
  - intros a m p n (runs & Hr & ->) Hm.
    apply lookup_kmap_Some in Hm as (i & -> & Hm); [|apply _].
    by apply (refines_run_bound _ _ _ _ Hr) in Hm as [? _].
  - intros a m p n (runs & Hr & ->) Hm.
    apply lookup_kmap_Some in Hm as (i & -> & Hm); [|apply _].
    pose proof (ref_nonnull _ _ Hr). pose proof (ref_aligned _ _ Hr) as Hal.
    unfold idx_addr, PAGE_SIZE in *. split; [lia|]. by rewrite Z.mod_add by lia.
  - intros a m p n (runs & Hr & ->) Hm.
    apply lookup_kmap_Some in Hm as (i & -> & Hm); [|apply _].
    apply (refines_run_bound _ _ _ _ Hr) in Hm as [_ Hb].
    pose proof (ref_room _ _ Hr). pose proof (ref_phys _ _ Hr).
    unfold idx_addr, PAGE_SIZE in *. lia.
  - intros a m (runs & Hr & ->). by eapply alloc_one_free.
Defined.
