(* ===== verification/Heap.v ===== *)
(** The kernel heap of crates/mm/src/heap.rs: a first-fit free list whose
    blocks live in the free memory itself, on top of a page allocator.

    The memory the free list is threaded through is [mem]: the header that a
    [FreeBlock] write leaves at an address. Reading an address that carries no
    header is [Panic] (the source would read garbage); the theorems show that
    it does not happen. *)
From S2P Require Import Prelude KUtil PageAllocator.

(** ** Data *)
Record Layout := { layout_size : Z; layout_align : Z }.

(** [FreeBlock]: [AlignedSizeWithMetadata] is a transparent [usize]. *)
Record FreeBlock := { next : option Z; size : Z }.

Definition METADATA_SIZE : Z := 16.
Definition DATA_ALIGNMENT : Z := 8.
Definition MINIMUM_SIZE : Z := METADATA_SIZE + DATA_ALIGNMENT.

(** [AlignedSizeWithMetadata::from_layout] *)
Definition from_layout (l : Layout) : outcome Z :=
  rassert (layout_align l <=? DATA_ALIGNMENT);;
  align_up (Z.max (layout_size l) MINIMUM_SIZE) DATA_ALIGNMENT.

(** [AlignedSizeWithMetadata::from_pages] *)
Definition from_pages (pages : Z) : outcome Z :=
  b ← mul 64 pages PAGE_SIZE; align_up b DATA_ALIGNMENT.

Definition get_remaining_size (self needed_size : Z) : outcome Z :=
  m ← add 64 needed_size MINIMUM_SIZE;
  rassert (m <=? self);;
  sub self needed_size.

Definition new_with_size (s : Z) : FreeBlock := {| next := None; size := s |}.

Section heap.
Context {A : Type} `{!PageAllocatorTrait A}.

(** [Heap<Allocator>], with the memory it owns and the allocator's state. *)
Record heap := Heap {
  genesis_next : option Z;
  allocated_memory : Z;
  mem : gmap Z FreeBlock;
  pages : A;
}.

Definition with_mem (h : heap) (m : gmap Z FreeBlock) : heap :=
  Heap (genesis_next h) (allocated_memory h) m (pages h).
Definition with_pages (h : heap) (a : A) : heap :=
  Heap (genesis_next h) (allocated_memory h) (mem h) a.
Definition with_allocated (h : heap) (n : Z) : heap :=
  Heap (genesis_next h) n (mem h) (pages h).

(** ** Operations *)
Definition initialize (m : gmap Z FreeBlock) (block_ptr s : Z)
    : outcome (gmap Z FreeBlock) :=
  rassert (MINIMUM_SIZE <=? s);;
  rassert (DATA_ALIGNMENT <=? s);;
  rassert (s mod DATA_ALIGNMENT =? 0);;
  Ret (<[block_ptr := new_with_size s]> m).

Definition split (m : gmap Z FreeBlock) (block_ptr requested_size : Z)
    : outcome (Z * gmap Z FreeBlock) :=
  block ← expect (m !! block_ptr);
  t ← add 64 requested_size MINIMUM_SIZE;
  rassert (t <=? size block);;
  rassert (requested_size mod DATA_ALIGNMENT =? 0);;
  remaining_size ← get_remaining_size (size block) requested_size;
  let new_block := block_ptr + requested_size in
  rassert (remaining_size mod DATA_ALIGNMENT =? 0);;
  let m := <[block_ptr := {| next := next block; size := requested_size |}]> m in
  m ← initialize m new_block remaining_size;
  Ret (new_block, m).

Definition is_page_allocator_allocation (l : Layout) : bool :=
  (PAGE_SIZE <=? layout_size l) || (DATA_ALIGNMENT <? layout_align l).

Definition insert (h : heap) (block_ptr : Z) : outcome heap :=
  block ← expect (mem h !! block_ptr);
  rassert (bool_decide (next block = None));;
  Ret (Heap (Some block_ptr) (allocated_memory h)
    (<[block_ptr := {| next := genesis_next h; size := size block |}]> (mem h)) (pages h)).

Definition split_if_necessary (h : heap) (block_ptr requested_size : Z) : outcome heap :=
  block ← expect (mem h !! block_ptr);
  rassert (requested_size <=? size block);;
  rest ← sub (size block) requested_size;
  if rest <? MINIMUM_SIZE then Ret h
  else
    '(new_block, m) ← split (mem h) block_ptr requested_size;
    insert (with_mem h m) new_block.

(** The cursor [current] of [find_and_remove]: [None] is the genesis block. *)
Definition next_of (h : heap) (current : option Z) : outcome (option Z) :=
  match current with
  | None => Ret (genesis_next h)
  | Some p => b ← expect (mem h !! p); Ret (next b)
  end.

Definition set_next (h : heap) (current : option Z) (n : option Z) : outcome heap :=
  match current with
  | None => Ret (Heap n (allocated_memory h) (mem h) (pages h))
  | Some p =>
      b ← expect (mem h !! p);
      Ret (with_mem h (<[p := {| next := n; size := size b |}]> (mem h)))
  end.

(** The [while let] loop of [find_and_remove]; [fuel] bounds its rounds. *)
Fixpoint find_loop (fuel : nat) (h : heap) (current : option Z) (requested_size : Z)
    : outcome (option Z * heap) :=
  match fuel with
  | O => Panic
  | S fuel =>
      n ← next_of h current;
      match n with
      | None => Ret (None, h)
      | Some p =>
          potential_block ← expect (mem h !! p);
          if size potential_block <? requested_size
          then find_loop fuel h (Some p) requested_size
          else
            h ← set_next h current None;
            h ← set_next h (Some p) None;
            h ← set_next h current (next potential_block);
            Ret (Some p, h)
      end
  end.

Definition find_and_remove (h : heap) (requested_size : Z) : outcome (option Z * heap) :=
  find_loop (S (base.size (mem h))) h None requested_size.

(** [alloc]: the result [0] is the null pointer. *)
Definition alloc (h : heap) (l : Layout) : outcome (Z * heap) :=
  if is_page_allocator_allocation l then
    n ← minimum_amount_of_pages (layout_size l);
    '(allocation, a) ← pg_alloc (pages h) (Z.to_nat n);
    let h := with_pages h a in
    match allocation with
    | Some (start, _) =>
        b ← mul 64 n PAGE_SIZE;
        t ← add 64 (allocated_memory h) b;
        Ret (start, with_allocated h t)
    | None => Ret (0, h)
    end
  else
    requested_size ← from_layout l;
    '(found, h) ← find_and_remove h requested_size;
    '(block, h) ← match found with
      | Some block => Ret (Some block, h)
      | None =>
          n ← minimum_amount_of_pages requested_size;
          '(allocation, a) ← pg_alloc (pages h) (Z.to_nat n);
          let h := with_pages h a in
          match allocation with
          | None => Ret (None, h)
          | Some (start, _) =>
              s ← from_pages n;
              m ← initialize (mem h) start s;
              Ret (Some start, with_mem h m)
          end
      end;
    match block with
    | None => Ret (0, h)
    | Some block =>
        h ← split_if_necessary h block requested_size;
        t ← add 64 (allocated_memory h) requested_size;
        Ret (block, with_allocated h t)
    end.

Definition dealloc (h : heap) (ptr : Z) (l : Layout) : outcome heap :=
  rassert (negb (ptr =? 0));;
  if is_page_allocator_allocation l then
    '(n, a) ← pg_dealloc (pages h) ptr;
    b ← mul 64 (Z.of_nat n) PAGE_SIZE;
    t ← sub (allocated_memory h) b;
    Ret (with_allocated (with_pages h a) t)
  else
    s ← from_layout l;
    let h := with_mem h (<[ptr := new_with_size s]> (mem h)) in
    h ← insert h ptr;
    t ← sub (allocated_memory h) s;
    Ret (with_allocated h t).
End heap.
Arguments heap : clear implicits.

(** ** Abstract view: blocks are extents *)
Abbreviation extent := (Z * Z)%type.

Definition disj (e1 e2 : extent) : Prop := e1.1 + e1.2 ≤ e2.1 ∨ e2.1 + e2.2 ≤ e1.1.

Fixpoint disjoint_list (l : list extent) : Prop :=
  match l with
  | [] => True
  | e :: l => Forall (disj e) l ∧ disjoint_list l
  end.

(** The free list from pointer [p] is exactly the blocks [l]. *)
Fixpoint free_list (m : gmap Z FreeBlock) (p : option Z) (l : list extent) : Prop :=
  match l with
  | [] => p = None
  | (a, s) :: l => p = Some a ∧ ∃ b, m !! a = Some b ∧ size b = s ∧ free_list m (next b) l
  end.

Definition block_ok (e : extent) : Prop :=
  e.1 mod 8 = 0 ∧ 0 < e.1 ∧ MINIMUM_SIZE ≤ e.2 ∧ e.2 mod 8 = 0.

Definition total (l : list extent) : Z := foldr (λ e acc, e.2 + acc) 0 l.

Definition run_extent (r : Z * nat) : extent := (r.1, Z.of_nat r.2 * PAGE_SIZE).

Definition inside (runs : list (Z * nat)) (e : extent) : Prop :=
  ∃ r, r ∈ runs ∧ r.1 ≤ e.1 ∧ e.1 + e.2 ≤ r.1 + Z.of_nat r.2 * PAGE_SIZE.

(** The heap invariant: [free] are the free blocks, [small] the blocks handed
    out, [large] the page runs handed out directly, [runs] the page runs the
    free list is carved from. *)
Record heap_inv {A} `{PageAllocatorLaws A} (h : heap A)
    (free small : list extent) (large runs : list (Z * nat)) : Prop := {
  hi_free : free_list (mem h) (genesis_next h) free;
  hi_ok : Forall block_ok (free ++ small);
  hi_disjoint : disjoint_list (free ++ small);
  hi_inside : Forall (inside runs) (free ++ small);
  hi_pages : ∃ m, pg_inv (pages h) m ∧ map_to_list m ≡ₚ large ++ runs;
  hi_accounting : allocated_memory h = total small + total (run_extent <$> large);
  hi_run_disjoint : disjoint_list (run_extent <$> (large ++ runs));
  hi_runs : Forall (λ r, r.2 = 1%nat) runs;
}.

(** * Lemmas *)

(** ** Extents *)
Lemma disj_sym e1 e2 : disj e1 e2 → disj e2 e1.
Proof. unfold disj. lia. Qed.

#[global] Instance disjoint_list_perm : Proper ((≡ₚ) ==> iff) disjoint_list.
Proof.
  cut (∀ l1 l2, l1 ≡ₚ l2 → disjoint_list l1 → disjoint_list l2).
  { intros H l1 l2 Hp. split; apply H; [done|by symmetry]. }
  induction 1 as [|e l1 l2 Hp IH|e1 e2 l|l1 l2 l3 _ IH1 _ IH2]; simpl; [done| | |auto].
  - intros [Hf Hd]. split; [by rewrite <-Hp|auto].
  - rewrite !Forall_cons. intros ([H1 H2] & H3 & H4).
    split_and!; auto. by apply disj_sym.
Qed.

Lemma total_app l1 l2 : total (l1 ++ l2) = total l1 + total l2.
Proof. induction l1; simpl; lia. Qed.

#[global] Instance total_perm : Proper ((≡ₚ) ==> eq) total.
Proof. intros l1 l2 Hp. induction Hp; simpl; lia. Qed.

Lemma disjoint_list_app l1 l2 :
  disjoint_list (l1 ++ l2) ↔
  disjoint_list l1 ∧ disjoint_list l2 ∧ ∀ e1 e2, e1 ∈ l1 → e2 ∈ l2 → disj e1 e2.
Proof.
  induction l1 as [|e l1 IH]; simpl.
  { split; [intros; split_and!; [done..|set_solver]|naive_solver]. }
  rewrite IH, Forall_app, !Forall_forall. split.
  - intros ([? ?] & ? & ? & ?). split_and!; [done..|]. intros e1 e2 Hin ?.
    apply elem_of_cons in Hin as [->|]; auto.
  - intros ([? ?] & ? & Hx). split_and!; try done.
    + intros e2 He2. apply Hx; [set_solver|done].
    + intros e1 e2 He1 He2. apply Hx; [set_solver|done].
Qed.

(** Distinct positions of disjoint blocks have distinct addresses. *)
Lemma disj_neq e1 e2 : 0 < e1.2 → 0 < e2.2 → disj e1 e2 → e1.1 ≠ e2.1.
Proof. unfold disj. lia. Qed.

Lemma block_ok_pos e : block_ok e → 0 < e.2.
Proof. unfold block_ok, MINIMUM_SIZE, METADATA_SIZE, DATA_ALIGNMENT. lia. Qed.

Lemma disjoint_not_in e l : block_ok e → Forall block_ok l → Forall (disj e) l →
  e.1 ∉ l.*1.
Proof.
  intros He Hl Hd Hin. apply list_elem_of_fmap in Hin as (e' & Heq & Hin).
  rewrite Forall_forall in Hl, Hd. apply (disj_neq e e'); auto using block_ok_pos.
Qed.

(** Cutting a block in two keeps everything disjoint. *)
Definition leftover (p s req : Z) : list extent :=
  if s - req <? MINIMUM_SIZE then [] else [(p + req, s - req)].

Lemma disjoint_list_cut p s req l :
  MINIMUM_SIZE ≤ req ≤ s → disjoint_list ((p, s) :: l) →
  disjoint_list ((p, req) :: leftover p s req ++ l).
Proof.
  unfold leftover, MINIMUM_SIZE, METADATA_SIZE, DATA_ALIGNMENT. simpl. intros Hr [Hf Hd].
  destruct (Z.ltb_spec (s - req) (16 + 8)); simpl.
  - split; [|done]. eapply Forall_impl; [exact Hf|]. intros e. unfold disj. simpl. lia.
  - rewrite Forall_cons. split_and!; [unfold disj; simpl; lia| | |done];
      (eapply Forall_impl; [exact Hf|]); intros e; unfold disj; simpl; lia.
Qed.

Lemma Forall_cut (P : extent → Prop) p s req :
  (∀ a t, p ≤ a → a + t ≤ p + s → MINIMUM_SIZE ≤ t →
     (a - p) mod 8 = 0 → t mod 8 = 0 → P (a, t)) →
  MINIMUM_SIZE ≤ req ≤ s → req mod 8 = 0 → s mod 8 = 0 →
  Forall P ((p, req) :: leftover p s req).
Proof.
  intros HP Hr Hm Hs. constructor.
  - apply HP; try lia. by rewrite Z.sub_diag.
  - unfold leftover. unfold MINIMUM_SIZE, METADATA_SIZE, DATA_ALIGNMENT in *.
    destruct (Z.ltb_spec (s - req) (16 + 8)); constructor; [|done].
    apply HP; try lia; [by rewrite Z.add_simpl_l|].
    rewrite Zminus_mod, Hs, Hm. done.
Qed.

(** ** The linked list *)
Lemma free_list_insert m a b p l : a ∉ l.*1 →
  free_list (<[a := b]> m) p l ↔ free_list m p l.
Proof.
  revert p. induction l as [|[a' s] l IH]; intros p Ha; simpl in *; [done|].
  rewrite not_elem_of_cons in Ha. destruct Ha as [Hne Ha].
  rewrite lookup_insert_ne by done. setoid_rewrite IH; done.
Qed.

Lemma free_list_ext m m' p l : (∀ a, a ∈ l.*1 → m' !! a = m !! a) →
  free_list m p l → free_list m' p l.
Proof.
  revert p. induction l as [|[a s] l IH]; intros p Hm; simpl in *; [done|].
  intros (-> & b & Hb & Hs & Hl). split; [done|]. exists b.
  rewrite Hm by set_solver. split_and!; [done..|]. apply IH; set_solver.
Qed.

Lemma free_list_size m p l : NoDup l.*1 → free_list m p l → (length l ≤ base.size m)%nat.
Proof.
  intros Hnd Hl. rewrite <-(length_fmap fst l).
  rewrite <-(size_list_to_set (C:=gset Z)) by done. rewrite <-size_dom.
  apply subseteq_size. revert p Hl. induction l as [|[a s] l IH]; intros p; simpl; [set_solver|].
  intros (_ & b & Hb & _ & Hl). apply NoDup_cons in Hnd as [_ Hnd].
  pose proof (IH Hnd _ Hl). assert (a ∈ dom m) by (by eapply elem_of_dom_2). set_solver.
Qed.

Lemma disjoint_NoDup l : Forall block_ok l → disjoint_list l → NoDup l.*1.
Proof.
  induction l as [|e l IH]; simpl; intros Hok Hd; [constructor|].
  apply Forall_cons in Hok as [He Hok]. destruct Hd as [Hd1 Hd2].
  constructor; [by apply disjoint_not_in|auto].
Qed.

(** ** [find_and_remove] against the list *)
Section find.
Context {A : Type} `{!PageAllocatorTrait A}.
Implicit Types h : heap A.

(** The list hanging off the cursor. *)
Definition list_from h (cur : option Z) (l : list extent) : Prop :=
  ∃ n, next_of h cur = Ret n ∧ free_list (mem h) n l.

Definition cursor_fresh (cur : option Z) (l : list extent) : Prop :=
  match cur with None => True | Some c => c ∉ l.*1 end.

(** What removing a block may touch. *)
Record same_but h h' (cur : option Z) (l : list extent) : Prop := {
  sb_pages : pages h' = pages h;
  sb_alloc : allocated_memory h' = allocated_memory h;
  sb_genesis : cur ≠ None → genesis_next h' = genesis_next h;
  sb_frame : ∀ a, cur ≠ Some a → a ∉ l.*1 → mem h' !! a = mem h !! a;
  sb_cursor : ∀ c, cur = Some c → size <$> mem h' !! c = size <$> mem h !! c;
}.

(** Removing the first block after the cursor. *)
Lemma unlink_spec h cur a b l :
  next_of h cur = Ret (Some a) → mem h !! a = Some b → free_list (mem h) (next b) l →
  cursor_fresh cur ((a, size b) :: l) → a ∉ l.*1 →
  ∃ h', (h ← set_next h cur None; h ← set_next h (Some a) None;
         h ← set_next h cur (next b); Ret (Some a, h)) = Ret (Some a, h') ∧
    list_from h' cur l ∧ mem h' !! a = Some (new_with_size (size b)) ∧
    same_but h h' cur ((a, size b) :: l).
Proof.
  intros Hn Ha Hl Hc Hal. destruct cur as [c|]; simpl in *.
  - apply not_elem_of_cons in Hc as [Hca Hcl].
    destruct (mem h !! c) as [bc|] eqn:Hbc; [|done]. simpl.
    rewrite (lookup_insert_ne _ c a), Ha by done. simpl.
    rewrite (lookup_insert_ne _ a c), lookup_insert_eq by done. simpl.
    eexists; split_and!; [done|..].
    + exists (next b). unfold next_of. simpl. rewrite lookup_insert_eq. split; [done|].
      simpl. rewrite !free_list_insert by done. done.
    + simpl. rewrite lookup_insert_ne by done. by rewrite lookup_insert_eq.
    + split; simpl; try done.
      * intros x Hx1 Hx2. rewrite not_elem_of_cons in Hx2. destruct Hx2.
        rewrite !lookup_insert_ne by congruence. done.
      * intros x [= <-]. rewrite lookup_insert_eq, Hbc. done.
  - rewrite Ha. simpl. eexists; split_and!; [done|..].
    + exists (next b). split; [done|]. simpl. by apply free_list_insert.
    + simpl. by rewrite lookup_insert_eq.
    + split; simpl; try done. intros x _ Hx. rewrite not_elem_of_cons in Hx.
      rewrite lookup_insert_ne by naive_solver. done.
Qed.

Lemma find_loop_spec fuel h cur req l :
  (length l < fuel)%nat → list_from h cur l → NoDup l.*1 → cursor_fresh cur l →
  (find_loop fuel h cur req = Ret (None, h) ∧ Forall (λ e, e.2 < req) l) ∨
  ∃ l1 p s l2 h', find_loop fuel h cur req = Ret (Some p, h') ∧
    l = l1 ++ (p, s) :: l2 ∧ Forall (λ e, e.2 < req) l1 ∧ req ≤ s ∧
    list_from h' cur (l1 ++ l2) ∧ mem h' !! p = Some (new_with_size s) ∧
    same_but h h' cur l.
Proof.
  revert h cur l. induction fuel as [|fuel IH]; intros h cur l Hfuel Hl Hnd Hc; [lia|].
  simpl. destruct Hl as (n & Hn & Hl). rewrite Hn. simpl.
  destruct l as [|[a s] l]; simpl in Hl.
  { subst n. left. auto. }
  destruct Hl as (-> & b & Hb & <- & Hl). simpl. rewrite Hb. simpl.
  simpl in Hnd. apply NoDup_cons in Hnd as [Hal Hnd].
  destruct (Z.ltb_spec (size b) req) as [Hlt|Hge].
  - destruct (IH h (Some a) l) as [[Heq Hall]|(l1 & p & s & l2 & h' & Heq & -> & H1 & H2 & H3 & H4 & H5)].
    + simpl in Hfuel. lia.
    + exists (next b). simpl. by rewrite Hb.
    + done.
    + done.
    + left. rewrite Heq. split; [done|]. by constructor.
    + right. exists ((a, size b) :: l1), p, s, l2, h'. rewrite Heq.
      split_and!; [done|done|by constructor|done| |done|].
      * destruct H3 as (n' & Hn' & Hl').
        simpl in Hn'. destruct (mem h' !! a) as [b'|] eqn:Hb'; [|done].
        simpl in Hn'. injection Hn' as <-.
        pose proof (sb_cursor _ _ _ _ H5 a eq_refl) as Hsz. rewrite Hb', Hb in Hsz.
        injection Hsz as Hsz.
        exists (Some a). split; [|simpl; eauto 6].
        destruct cur as [c|]; simpl in *; [|rewrite (sb_genesis _ _ _ _ H5) by done; done].
        rewrite not_elem_of_cons in Hc.
        rewrite (sb_frame _ _ _ _ H5 c) by naive_solver. done.
      * split; [apply H5|apply H5|intros; by apply H5| |].
        -- intros x Hx1 Hx2. simpl in Hx2. rewrite not_elem_of_cons in Hx2.
           apply (sb_frame _ _ _ _ H5); naive_solver.
        -- intros c ->. simpl in Hc. rewrite not_elem_of_cons in Hc.
           by rewrite (sb_frame _ _ _ _ H5 c) by naive_solver.
  - right. destruct (unlink_spec h cur a b l Hn Hb Hl Hc Hal) as (h' & Heq & H1 & H2 & H3).
    exists [], a, (size b), l, h'. by split_and!.
Qed.

Lemma find_and_remove_spec h req free :
  free_list (mem h) (genesis_next h) free → NoDup free.*1 →
  (find_and_remove h req = Ret (None, h) ∧ Forall (λ e, e.2 < req) free) ∨
  ∃ l1 p s l2 h', find_and_remove h req = Ret (Some p, h') ∧
    free = l1 ++ (p, s) :: l2 ∧ Forall (λ e, e.2 < req) l1 ∧ req ≤ s ∧
    free_list (mem h') (genesis_next h') (l1 ++ l2) ∧
    mem h' !! p = Some (new_with_size s) ∧
    pages h' = pages h ∧ allocated_memory h' = allocated_memory h.
Proof.
  intros Hl Hnd. pose proof (free_list_size _ _ _ Hnd Hl).
  destruct (find_loop_spec (S (base.size (mem h))) h None req free)
    as [[Heq Hall]|(l1 & p & s & l2 & h' & Heq & -> & H1 & H2 & H3 & H4 & H5)].
  - lia.
  - by exists (genesis_next h).
  - done.
  - done.
  - left. auto.
  - right. exists l1, p, s, l2, h'. destruct H3 as (n & [= <-] & Hl').
    split_and!; try done; apply H5.
Qed.

(** ** Splitting and inserting *)
Lemma split_if_necessary_spec h p s req free :
  mem h !! p = Some (new_with_size s) →
  free_list (mem h) (genesis_next h) free →
  p ∉ free.*1 → (MINIMUM_SIZE ≤ s - req → p + req ∉ free.*1) →
  MINIMUM_SIZE ≤ req ≤ s → req mod 8 = 0 → s mod 8 = 0 → s < 2 ^ 64 →
  ∃ h', split_if_necessary h p req = Ret h' ∧
    free_list (mem h') (genesis_next h') (leftover p s req ++ free) ∧
    pages h' = pages h ∧ allocated_memory h' = allocated_memory h.
Proof.
  unfold leftover, MINIMUM_SIZE, METADATA_SIZE, DATA_ALIGNMENT.
  intros Hp Hl Hpf Hqf Hr Hm Hs Hb. unfold split_if_necessary. rewrite Hp. simpl.
  rewrite (proj2 (Z.leb_le req s)) by lia.
  unfold sub, checked_sub. rewrite (proj2 (Z.leb_le req s)) by lia. bstep.
  unfold MINIMUM_SIZE, METADATA_SIZE, DATA_ALIGNMENT.
  destruct (Z.ltb_spec (s - req) (16 + 8)); [by eexists|].
  unfold split. rewrite Hp. bstep.
  unfold add, checked_add, MINIMUM_SIZE, METADATA_SIZE, DATA_ALIGNMENT, get_remaining_size.
  cbn [size new_with_size].
  rewrite (proj2 (Z.ltb_lt (req + (16 + 8)) _)) by lia. bstep.
  rewrite (proj2 (Z.leb_le (req + (16 + 8)) s)) by lia. rewrite Hm. bstep.
  unfold add, checked_add, MINIMUM_SIZE, METADATA_SIZE, DATA_ALIGNMENT.
  rewrite (proj2 (Z.ltb_lt (req + (16 + 8)) _)) by lia. bstep.
  rewrite (proj2 (Z.leb_le (req + (16 + 8)) s)) by lia. bstep.
  unfold sub, checked_sub. rewrite (proj2 (Z.leb_le req s)) by lia. bstep.
  assert ((s - req) mod 8 = 0) as Hsr by (rewrite Zminus_mod, Hs, Hm; done).
  rewrite Hsr. bstep. unfold initialize, MINIMUM_SIZE, METADATA_SIZE, DATA_ALIGNMENT.
  rewrite (proj2 (Z.leb_le (16 + 8) (s - req))), (proj2 (Z.leb_le 8 (s - req))) by lia.
  rewrite Hsr. bstep. unfold insert. simpl. rewrite lookup_insert_eq. simpl.
  eexists; split; [done|]. simpl. split_and!; [done| |done..].
  rewrite lookup_insert_eq. eexists; split_and!; [done..|]. simpl.
  rewrite !free_list_insert by (done || apply Hqf; lia). done.
Qed.
End find.

(** ** Sizes *)
Lemma from_layout_spec l : 0 < layout_size l < PAGE_SIZE → layout_align l ≤ 8 →
  ∃ req, from_layout l = Ret req ∧ layout_size l ≤ req ≤ PAGE_SIZE ∧
    MINIMUM_SIZE ≤ req ∧ req mod 8 = 0.
Proof.
  unfold PAGE_SIZE, MINIMUM_SIZE, METADATA_SIZE, DATA_ALIGNMENT. intros Hs Ha.
  unfold from_layout, MINIMUM_SIZE, METADATA_SIZE, DATA_ALIGNMENT.
  rewrite (proj2 (Z.leb_le _ _)) by done. bstep.
  pose proof (align_up_Ret (Z.max (layout_size l) (16 + 8)) 8
    ltac:(lia) ltac:(lia) ltac:(lia)) as Heq.
  rewrite Heq. eexists; split; [done|].
  apply align_up_inv in Heq as [Hb Hm]; [|lia|lia].
  split_and!; try lia.
Qed.

Lemma from_pages_1 : from_pages 1 = Ret 4096.
Proof. reflexivity. Qed.

Lemma minimum_amount_of_pages_1 v : 0 < v ≤ PAGE_SIZE → minimum_amount_of_pages v = Ret 1.
Proof.
  unfold PAGE_SIZE. intros Hv. rewrite minimum_amount_of_pages_Ret by (unfold PAGE_SIZE; lia).
  f_equal. symmetry. apply (Z.div_unique_pos _ 4096 1 (v - 1)); lia.
Qed.

(** ** The invariant through the operations *)
Section inv.
Context {A : Type} `{!PageAllocatorTrait A, !PageAllocatorLaws A}.
Implicit Types h : heap A.

Lemma inside_mono runs r e : inside runs e → inside (r :: runs) e.
Proof. intros (r' & ? & ?). exists r'. split; [set_solver|done]. Qed.

(** Handing out the block [(p, s)] for a request of [req] bytes. *)
Lemma carve_inv h p s req free small large runs :
  mem h !! p = Some (new_with_size s) →
  free_list (mem h) (genesis_next h) free →
  Forall block_ok ((p, s) :: free ++ small) →
  disjoint_list ((p, s) :: free ++ small) →
  Forall (inside runs) ((p, s) :: free ++ small) →
  (∃ m, pg_inv (pages h) m ∧ map_to_list m ≡ₚ large ++ runs) →
  allocated_memory h = total small + total (run_extent <$> large) →
  disjoint_list (run_extent <$> (large ++ runs)) → Forall (λ r, r.2 = 1%nat) runs →
  MINIMUM_SIZE ≤ req ≤ s → req mod 8 = 0 →
  allocated_memory h + req < 2 ^ 64 →
  ∃ h', (h ← split_if_necessary h p req; t ← add 64 (allocated_memory h) req;
         Ret (p, with_allocated h t)) = Ret (p, h') ∧
    heap_inv h' (leftover p s req ++ free) ((p, req) :: small) large runs.
Proof.
  intros Hp Hl Hok Hd Hin Hpg Hacc Hwi Hruns Hr Hm Hov.
  apply Forall_cons in Hok as [Hok0 Hok]. apply Forall_cons in Hin as [Hin0 Hin].
  pose proof Hok0 as (Hp8 & Hp0 & Hmin & Hs8). simpl in Hp8, Hp0, Hmin, Hs8.
  pose proof Hok as Hok'. apply Forall_app in Hok' as [Hokf _].
  pose proof (proj1 Hd) as Hdp. apply Forall_app in Hdp as [Hdf _].
  assert (Forall block_ok ((p, req) :: leftover p s req)) as Hcut_ok.
  { apply Forall_cut; [|done..]. intros a t Ha Hat Ht Ham Htm.
    unfold block_ok; simpl. split_and!; [|lia|done..].
    replace a with (p + (a - p)) by lia. by rewrite Zplus_mod, Hp8, Ham. }
  assert (Forall (inside runs) ((p, req) :: leftover p s req)) as Hcut_in.
  { apply Forall_cut; [|done..]. intros a t Ha Hat Ht _ _.
    destruct Hin0 as (r & Hr1 & Hr2). exists r. simpl in *. split; [done|lia]. }
  assert (s < 2 ^ 64) as Hs.
  { destruct Hin0 as (r & Hr1 & Hr2 & Hr3). rewrite Forall_forall in Hruns.
    rewrite (Hruns r Hr1) in Hr3. unfold PAGE_SIZE in Hr3. simpl in *. lia. }
  destruct (split_if_necessary_spec h p s req free) as (h' & -> & Hl' & Hpg' & Hac');
    [done|done| | |done..|].
  - by apply (disjoint_not_in (p, s)).
  - intros Hcut Hq. apply list_elem_of_fmap in Hq as ([a t] & Heq & Hq).
    simpl in Heq. subst a. rewrite Forall_forall in Hdf, Hokf.
    pose proof (Hdf _ Hq) as Hd1. pose proof (block_ok_pos _ (Hokf _ Hq)) as Hpos.
    unfold disj, MINIMUM_SIZE, METADATA_SIZE, DATA_ALIGNMENT in *. simpl in *. lia.
  - bstep. rewrite Hac'. unfold add, checked_add.
    rewrite (proj2 (Z.ltb_lt _ _)) by lia. bstep. eexists; split; [done|].
    assert ((leftover p s req ++ free) ++ (p, req) :: small
      ≡ₚ ((p, req) :: leftover p s req) ++ (free ++ small)) as Hperm
      by solve_Permutation.
    split; simpl.
    + done.
    + rewrite Hperm, Forall_app. auto.
    + rewrite Hperm. by apply disjoint_list_cut.
    + rewrite Hperm, Forall_app. auto.
    + by rewrite Hpg'.
    + lia.
    + done.
    + done.
Qed.

Lemma page_block_ok p : 0 < p → p mod PAGE_SIZE = 0 → block_ok (p, 4096).
Proof.
  intros Hp Hm. unfold block_ok, PAGE_SIZE in *. simpl. split_and!; [|done|by vm_compute|done].
  apply Z.mod_divide in Hm as [k ->]; [|done].
  replace (k * 4096) with (k * 512 * 8) by lia. by apply Z.mod_mul.
Qed.

Lemma total_nonneg l : Forall block_ok l → 0 ≤ total l.
Proof.
  induction 1 as [|e l He _ IH]; simpl; [done|]. apply block_ok_pos in He. lia.
Qed.

Lemma total_run_cons p n rs :
  total (run_extent <$> (p, n) :: rs) = Z.of_nat n * PAGE_SIZE + total (run_extent <$> rs).
Proof. done. Qed.

Lemma total_runs_nonneg rs : 0 ≤ total (run_extent <$> rs).
Proof.
  induction rs as [|r rs IH]; [done|].
  destruct r as [p n]. rewrite total_run_cons.
  unfold PAGE_SIZE. lia.
Qed.

(** A page run the page allocator has just handed out is disjoint from every
    block of the heap. *)
Lemma fresh_run_disjoint p n m large runs blocks :
  map_to_list m ≡ₚ large ++ runs →
  (∀ p' n', m !! p' = Some n' →
     p + Z.of_nat n * PAGE_SIZE ≤ p' ∨ p' + Z.of_nat n' * PAGE_SIZE ≤ p) →
  Forall (inside runs) blocks →
  Forall (disj (p, Z.of_nat n * PAGE_SIZE)) blocks.
Proof.
  intros Hm Hd Hf. eapply Forall_impl; [exact Hf|]. intros [a s] ([p' n'] & Hr & Hr1 & Hr2). simpl in *.
  assert (m !! p' = Some n') as Hl.
  { apply elem_of_map_to_list. rewrite Hm. set_solver. }
  apply Hd in Hl. unfold disj. simpl. lia.
Qed.

Lemma map_to_list_fresh (m : gmap Z nat) p n l :
  map_to_list m ≡ₚ l → (0 < n)%nat →
  (∀ p' n', m !! p' = Some n' → (0 < n')%nat ∧
     (p + Z.of_nat n * PAGE_SIZE ≤ p' ∨ p' + Z.of_nat n' * PAGE_SIZE ≤ p)) →
  map_to_list (<[p := n]> m) ≡ₚ (p, n) :: l.
Proof.
  intros Hl Hn Hd. rewrite map_to_list_insert; [by rewrite Hl|].
  apply eq_None_not_Some. intros [n' Hn']. apply Hd in Hn'. unfold PAGE_SIZE in *. lia.
Qed.

(** Disjoint extents of a region add up to no more than the region. *)
Lemma total_bound k lo hi l :
  (length l ≤ k)%nat → lo ≤ hi → disjoint_list l →
  Forall (λ e, 0 < e.2 ∧ lo ≤ e.1 ∧ e.1 + e.2 ≤ hi) l → total l ≤ hi - lo.
Proof.
  revert lo hi l. induction k as [|k IH]; intros lo hi l Hk Hlh Hd Hf.
  { destruct l; simpl in *; lia. }
  destruct l as [|[a s] l]; simpl; [lia|]. destruct Hd as [Hd1 Hd2].
  apply Forall_cons in Hf as [Ha Hf]. simpl in Ha, Hk.
  set (L := filter (λ e : extent, e.1 < a) l). set (R := filter (λ e : extent, ¬ e.1 < a) l).
  assert (l ≡ₚ L ++ R) as Hlr by (symmetry; apply filter_app_complement).
  assert (Forall (λ e, e ∈ l) L ∧ Forall (λ e, e ∈ l) R) as [HL HR].
  { split; apply Forall_forall; intros e He; by apply list_elem_of_filter in He as [_ ?]. }
  rewrite Hlr in Hd2. apply disjoint_list_app in Hd2 as (HdL & HdR & _).
  assert (total l = total L + total R) as -> by (rewrite Hlr at 1; apply total_app).
  rewrite Forall_forall in Hd1, Hf.
  assert (total L ≤ a - lo).
  { apply IH; [pose proof (length_filter (λ e : extent, e.1 < a) l); unfold L; lia|lia|done|].
    apply Forall_forall. intros e He. apply list_elem_of_filter in He as [Hlt He].
    specialize (Hf e He). specialize (Hd1 e He). unfold disj in Hd1. simpl in Hd1. lia. }
  assert (total R ≤ hi - (a + s)).
  { apply IH; [pose proof (length_filter (λ e : extent, ¬ e.1 < a) l); unfold R; lia|lia|done|].
    apply Forall_forall. intros e He. apply list_elem_of_filter in He as [Hlt He].
    specialize (Hf e He). specialize (Hd1 e He). unfold disj in Hd1. simpl in Hd1. lia. }
  lia.
Qed.

(** The heap never accounts for more than physical memory. *)
Lemma allocated_bound h free small large runs :
  heap_inv h free small large runs → 0 ≤ allocated_memory h ≤ 2 ^ 56.
Proof.
  intros [Hl Hok Hd Hin (m & Hpg & Hm) Hacc Hrd Hru].
  apply Forall_app in Hok as [_ Hok]. apply disjoint_list_app in Hd as (_ & Hd & _).
  apply Forall_app in Hin as [_ Hin].
  pose proof (total_nonneg _ Hok). pose proof (total_runs_nonneg large).
  split; [lia|]. rewrite Hacc, <-total_app.
  rewrite fmap_app in Hrd. apply disjoint_list_app in Hrd as (Hrl & Hrr & Hx).
  assert (∀ r, r ∈ large ++ runs → m !! r.1 = Some r.2) as Hm'.
  { intros [q n] Hr. apply elem_of_map_to_list. by rewrite Hm. }
  replace (2 ^ 56) with (2 ^ 56 - 0) by lia.
  apply (total_bound (length (small ++ (run_extent <$> large)))); [done|lia| |].
  - apply disjoint_list_app. split_and!; [done..|]. intros e1 e2 He1 He2.
    rewrite Forall_forall in Hin. destruct (Hin _ He1) as (r & Hr & Hr1 & Hr2).
    pose proof (Hx e2 (run_extent r) He2 ltac:(by apply list_elem_of_fmap_2)) as Hdis.
    unfold disj, run_extent in *. simpl in *. lia.
  - apply Forall_app. split; apply Forall_forall.
    + intros e He. rewrite Forall_forall in Hin, Hok.
      pose proof (block_ok_pos _ (Hok _ He)). destruct (Hok _ He) as (_ & ? & _).
      destruct (Hin _ He) as (r & Hr & Hr1 & Hr2).
      pose proof (pg_run_phys (pages h) m r.1 r.2 Hpg ltac:(apply Hm'; set_solver)). lia.
    + intros e He. apply list_elem_of_fmap in He as (r & -> & Hr). unfold run_extent. simpl.
      assert (m !! r.1 = Some r.2) as Hr' by (apply Hm'; set_solver).
      pose proof (pg_run_phys _ _ _ _ Hpg Hr'). pose proof (pg_run_pos _ _ _ _ Hpg Hr').
      pose proof (pg_run_addr _ _ _ _ Hpg Hr'). unfold PAGE_SIZE in *. lia.
Qed.

(** A new run keeps the runs disjoint. *)
Lemma fresh_run_disjoint_list p n m l :
  map_to_list m ≡ₚ l →
  (∀ p' n', m !! p' = Some n' →
     p + Z.of_nat n * PAGE_SIZE ≤ p' ∨ p' + Z.of_nat n' * PAGE_SIZE ≤ p) →
  disjoint_list (run_extent <$> l) → disjoint_list (run_extent <$> (p, n) :: l).
Proof.
  intros Hm Hd Hl. split; [|done]. apply Forall_fmap, Forall_forall. intros [p' n'] Hin.
  rewrite <-Hm in Hin. apply elem_of_map_to_list, Hd in Hin. unfold disj, run_extent. simpl. lia.
Qed.

#[local] Instance run_disjoint_perm :
  Proper ((≡ₚ) ==> iff) (λ l : list (Z * nat), disjoint_list (run_extent <$> l)).
Proof. intros l1 l2 Hp. by rewrite Hp. Qed.

(** [alloc] of a small layout when the free list has no block: one page. *)
Lemma alloc_small h l free small large runs :
  heap_inv h free small large runs →
  0 < layout_size l → is_page_allocator_allocation l = false →
  ∃ p h', alloc h l = Ret (p, h') ∧
    ((p = 0 ∧ heap_inv h' free small large runs) ∨
     ∃ req free' runs', from_layout l = Ret req ∧ layout_size l ≤ req ∧
       heap_inv h' free' ((p, req) :: small) large runs').
Proof.
  intros Hi Hsz Hpa. pose proof (allocated_bound _ _ _ _ _ Hi) as Hov.
  unfold alloc. rewrite Hpa.
  unfold is_page_allocator_allocation in Hpa. apply orb_false_iff in Hpa as [Hp1 Hp2].
  apply Z.leb_gt in Hp1. apply Z.ltb_ge in Hp2.
  destruct (from_layout_spec l) as (req & Hreq & Hrb & Hmin & Hm8); [lia|done|].
  rewrite Hreq. bstep. destruct Hi as [Hl Hok Hd Hin (m & Hpg & Hm) Hacc Hrd Hru].
  pose proof (proj1 (proj1 (Forall_app _ _ _) Hok)) as Hokf.
  assert (NoDup free.*1) as Hnd.
  { apply disjoint_NoDup; [done|]. by apply disjoint_list_app in Hd as [? _]. }
  destruct (find_and_remove_spec h req free Hl Hnd)
    as [[-> Hno]|(l1 & p & s & l2 & h' & -> & -> & _ & Hs & Hl' & Hp & Hpg' & Hac')]; bstep.
  - rewrite minimum_amount_of_pages_1 by (unfold MINIMUM_SIZE, METADATA_SIZE in *; lia).
    bstep. destruct (pg_alloc_spec (pages h) m (Z.to_nat 1) Hpg ltac:(lia))
      as (r & a & -> & Hr). bstep.
    destruct r as [[p q]|]; bstep.
    + destruct Hr as (-> & Hp0 & Hpm & Hdis & Hinv). change (Z.to_nat 1) with 1%nat in *.
      rewrite from_pages_1. bstep. unfold initialize. simpl. unfold PAGE_SIZE in Hrb.
      destruct (carve_inv (with_mem (with_pages h a)
          (<[p := new_with_size 4096]> (mem h))) p 4096 req free small large ((p, 1%nat) :: runs))
        as (h' & Heq & Hi').
      * simpl. by rewrite lookup_insert_eq.
      * simpl. apply free_list_insert; [|done].
        apply (disjoint_not_in (p, 4096)); [| done|].
        -- by apply page_block_ok.
        -- eapply (fresh_run_disjoint p 1 m large runs); [done..|].
           by apply Forall_app in Hin as [? _].
      * constructor; [by apply page_block_ok|done].
      * split; [|done]. apply (fresh_run_disjoint p 1 m large runs); done.
      * constructor.
        -- exists (p, 1%nat). split; [set_solver|]. simpl. unfold PAGE_SIZE. lia.
        -- eapply Forall_impl; [done|]. intros. by apply inside_mono.
      * exists (<[p := 1%nat]> m). split; [done|].
        rewrite (map_to_list_fresh m p 1 (large ++ runs)); [solve_Permutation|done|lia|].
        intros p' n' Hl0. split; [by eapply (pg_run_pos (pages h) m p')|by apply Hdis].
      * done.
      * rewrite <-Permutation_middle. by eapply fresh_run_disjoint_list.
      * constructor; done.
      * lia.
      * done.
      * simpl. unfold PAGE_SIZE in *. lia.
      * exists p, h'. split; [exact Heq|]. right.
        exists req, (leftover p 4096 req ++ free), ((p, 1%nat) :: runs).
        split_and!; [done|lia|done].
    + exists 0. eexists. split; [done|]. left. split; [done|]. split; try done.
      by exists m.
  - assert ((l1 ++ (p, s) :: l2) ++ small ≡ₚ (p, s) :: (l1 ++ l2) ++ small) as Hperm
      by solve_Permutation.
    rewrite Hperm in Hok, Hd, Hin.
    destruct (carve_inv h' p s req (l1 ++ l2) small large runs) as (h'' & Heq & Hi');
      [done|done|done|done|done| |congruence|done|done|lia|done| |].
    + exists m. by rewrite Hpg'.
    + rewrite Hac'. unfold PAGE_SIZE in *. lia.
    + exists p, h''. split; [exact Heq|]. right. do 3 eexists.
      split_and!; [done|lia|done].
Qed.

(** [alloc] of a large or strongly aligned layout: whole pages. *)
Lemma alloc_large h l free small large runs :
  heap_inv h free small large runs →
  0 < layout_size l < 2 ^ 63 → is_page_allocator_allocation l = true →
  ∃ p h', alloc h l = Ret (p, h') ∧
    ((p = 0 ∧ heap_inv h' free small large runs) ∨
     ∃ n, layout_size l ≤ Z.of_nat n * PAGE_SIZE ∧ p mod PAGE_SIZE = 0 ∧ 0 < p ∧
       Forall (λ r, disj (p, Z.of_nat n * PAGE_SIZE) (run_extent r)) (large ++ runs) ∧
       heap_inv h' free small ((p, n) :: large) runs).
Proof.
  intros Hi Hsz Hpa. pose proof (allocated_bound _ _ _ _ _ Hi) as Hov.
  destruct Hi as [Hl Hok Hd Hin (m & Hpg & Hm) Hacc Hrd Hru]. unfold alloc. rewrite Hpa.
  rewrite minimum_amount_of_pages_Ret by (unfold PAGE_SIZE; lia).
  set (n := (layout_size l + 4095) / 4096).
  assert (layout_size l ≤ n * 4096 < layout_size l + 4096) as Hn.
  { apply minimum_amount_of_pages_inv; [lia|].
    rewrite minimum_amount_of_pages_Ret by (unfold PAGE_SIZE; lia). done. }
  bstep. destruct (pg_alloc_spec (pages h) m (Z.to_nat n) Hpg ltac:(lia))
    as (r & a & -> & Hr). bstep.
  destruct r as [[p q]|]; bstep.
  - destruct Hr as (-> & Hp0 & Hpm & Hdis & Hinv).
    unfold mul, checked_mul, PAGE_SIZE at 1 2. rewrite (proj2 (Z.ltb_lt (n * 4096) _)) by lia.
    bstep. unfold add, checked_add. simpl. rewrite (proj2 (Z.ltb_lt _ _)) by lia. bstep.
    do 2 eexists. split; [done|]. right. exists (Z.to_nat n).
    split_and!; [unfold PAGE_SIZE; lia|done|done| |].
    + rewrite <-Hm. apply Forall_forall. intros [p' n'] Hin'.
      apply elem_of_map_to_list in Hin'. apply Hdis in Hin'. unfold disj, run_extent. simpl. lia.
    + split; try done.
      * exists (<[p := Z.to_nat n]> m). split; [done|].
        rewrite (map_to_list_fresh m p (Z.to_nat n) (large ++ runs)); [done|done|lia|].
        intros p' n' Hl0. split; [by eapply (pg_run_pos (pages h) m p')|by apply Hdis].
      * rewrite total_run_cons. simpl. unfold PAGE_SIZE. lia.
      * by eapply fresh_run_disjoint_list.
  - exists 0. eexists. split; [done|]. left. split; [done|]. split; try done. by exists m.
Qed.

Lemma dealloc_small h p req l free small large runs :
  heap_inv h free ((p, req) :: small) large runs →
  is_page_allocator_allocation l = false → from_layout l = Ret req →
  ∃ h', dealloc h p l = Ret h' ∧ heap_inv h' ((p, req) :: free) small large runs.
Proof.
  intros [Hl Hok Hd Hin Hpg Hacc Hrd Hru] Hpa Hreq. unfold dealloc.
  assert (free ++ (p, req) :: small ≡ₚ (p, req) :: free ++ small) as Hperm
    by solve_Permutation.
  rewrite Hperm in Hok, Hd, Hin. pose proof Hok as Hok'.
  apply Forall_cons in Hok' as [Hok0 Hok']. pose proof Hok0 as (_ & Hp0 & _). simpl in Hp0.
  rewrite (proj2 (Z.eqb_neq p 0)) by lia. bstep. rewrite Hpa, Hreq. bstep.
  unfold insert. simpl. rewrite lookup_insert_eq. simpl.
  pose proof (total_nonneg small ltac:(by apply Forall_app in Hok' as [_ ?])).
  pose proof (total_runs_nonneg large). simpl in Hacc.
  unfold sub, checked_sub. rewrite (proj2 (Z.leb_le _ _)) by lia. bstep.
  eexists; split; [done|]. apply block_ok_pos in Hok0. simpl in Hok0.
  split; simpl; try done; try lia.
  - split; [done|]. rewrite lookup_insert_eq. eexists; split_and!; [done..|]. simpl.
    assert (p ∉ free.*1).
    { apply (disjoint_not_in (p, req)); [by apply Forall_cons in Hok as [? _]|..].
      - by apply Forall_app in Hok' as [? _].
      - destruct Hd as [Hd _]. by apply Forall_app in Hd as [? _]. }
    by rewrite !free_list_insert.
Qed.

Lemma dealloc_large h p n l free small large runs :
  heap_inv h free small ((p, n) :: large) runs → 0 < p →
  is_page_allocator_allocation l = true →
  ∃ h', dealloc h p l = Ret h' ∧ heap_inv h' free small large runs.
Proof.
  intros Hi Hp0 Hpa. pose proof (allocated_bound _ _ _ _ _ Hi) as Hov.
  destruct Hi as [Hl Hok Hd Hin (m & Hpg & Hm) Hacc Hrd Hru]. unfold dealloc.
  rewrite (proj2 (Z.eqb_neq p 0)) by lia. bstep. rewrite Hpa.
  assert (m !! p = Some n) as Hlk.
  { apply elem_of_map_to_list. rewrite Hm. set_solver. }
  destruct (pg_dealloc_spec (pages h) m p n Hpg Hlk) as (a & -> & Hinv). bstep.
  pose proof (total_nonneg small ltac:(by apply Forall_app in Hok as [_ ?])).
  pose proof (total_runs_nonneg large).
  rewrite total_run_cons in Hacc.
  unfold PAGE_SIZE in *.
  unfold mul, checked_mul, PAGE_SIZE. rewrite (proj2 (Z.ltb_lt _ _)) by lia. bstep.
  unfold sub, checked_sub. rewrite (proj2 (Z.leb_le _ _)) by lia. bstep.
  eexists; split; [done|]. split; simpl; try done; try lia; [|apply Hrd].
  exists (delete p m). split; [done|].
  apply (Permutation_cons_inv (a := (p, n))).
  by rewrite map_to_list_delete.
Qed.

(** The client may overwrite its own blocks: only the headers of free blocks
    matter to the heap. *)
Lemma client_write h m' free small large runs :
  heap_inv h free small large runs →
  (∀ a, a ∈ free.*1 → m' !! a = mem h !! a) →
  heap_inv (with_mem h m') free small large runs.
Proof.
  intros [Hl ? ? ? ? ? ? ?] Hm. split; simpl; try done. by eapply free_list_ext.
Qed.
End inv.

(** * Properties *)


(** C6: [Heap::dealloc] of a block that was handed out, with the layout it was
    allocated with, never panics, returns the block to the free list (or its
    pages to the page allocator), keeps the invariant and subtracts exactly the
    bytes [alloc] had added. *)
Theorem heap_dealloc_correct {A} `{PageAllocatorLaws A} (h : heap A) p l free small large runs :
  heap_inv h free small large runs →
  (∀ req, is_page_allocator_allocation l = false → from_layout l = Ret req →
    ∀ small', small = (p, req) :: small' →
    ∃ h', dealloc h p l = Ret h' ∧ heap_inv h' ((p, req) :: free) small' large runs ∧
      allocated_memory h' = allocated_memory h - req) ∧
  (∀ n, is_page_allocator_allocation l = true → 0 < p →
    ∀ large', large = (p, n) :: large' →
    ∃ h', dealloc h p l = Ret h' ∧ heap_inv h' free small large' runs ∧
      allocated_memory h' = allocated_memory h - Z.of_nat n * PAGE_SIZE).
Proof.
  intros Hi. split.
  - intros req Hpa Hreq small' ->.
    destruct (dealloc_small h p req l free small' large runs Hi Hpa Hreq) as (h' & ? & Hi').
    exists h'. split_and!; [done..|].
    rewrite (hi_accounting _ _ _ _ _ Hi), (hi_accounting _ _ _ _ _ Hi'). simpl. lia.
  - intros n Hpa Hp large' ->.
    destruct (dealloc_large h p n l free small large' runs Hi Hp Hpa) as (h' & ? & Hi').
    exists h'. split_and!; [done..|].
    rewrite (hi_accounting _ _ _ _ _ Hi), (hi_accounting _ _ _ _ _ Hi').
    rewrite total_run_cons. lia.
Qed.

(** ** Witnesses: an empty heap over a page allocator with three free pages *)
Definition wit_pages : allocator := Allocator (replicate 3 Free) 8192 20480 ∅.
Definition wit_heap : heap allocator := Heap None 0 ∅ wit_pages.

Lemma wit_heap_inv : heap_inv wit_heap [] [] [] [].
Proof.
  split; [done|constructor|done|constructor| |done|simpl; repeat constructor|constructor].
  exists ∅. split; [|by rewrite map_to_list_empty].
  exists ∅. split; [by apply fresh_refines|]. by rewrite kmap_empty.
Qed.

Definition wit_layout : Layout := {| layout_size := 100; layout_align := 8 |}.


(** The same heap after a request of one page. *)
Definition wit_heap_large : heap allocator :=
  Heap None 4096 ∅ (Allocator [Last; Free; Free] 8192 20480 {[0%nat := zero_page]}).

Lemma wit_heap_large_inv : heap_inv wit_heap_large [] [] [(8192, 1%nat)] [].
Proof.
  split; [done|constructor|done|constructor| |done|simpl; repeat constructor|constructor].
  exists {[ 8192 := 1%nat ]}. split; [|by rewrite map_to_list_singleton].
  exists {[ 0%nat := 1%nat ]}. split; [|by rewrite kmap_singleton].
  split; try (vm_compute; congruence); [..|].
  - by intros [|[|[|j]]].
  - intros i n. rewrite lookup_singleton_Some. split.
    + intros [<- <-]. split_and!; [lia|lia|done|lia].
    + intros (Hn & Hu & Hl & Hs).
      destruct i as [|[|[|i]]]; destruct n as [|[|n]]; simpl in *; try lia; try done;
        try (specialize (Hu 0%nat ltac:(lia)); done).
      rewrite Nat.add_1_r in Hl. done.
Qed.

Lemma heap_dealloc_correct_witness :
  ∃ h', dealloc wit_heap_large 8192 {| layout_size := 4096; layout_align := 8 |} = Ret h' ∧
    heap_inv h' [] [] [] [] ∧ allocated_memory h' = 4096 - Z.of_nat 1 * PAGE_SIZE.
Proof.
  apply (proj2 (heap_dealloc_correct wit_heap_large 8192
    {| layout_size := 4096; layout_align := 8 |} [] [] [(8192, 1%nat)] [] wit_heap_large_inv)
    1%nat); reflexivity.
Defined.
