(* ===== verification/PageTables.v ===== *)
(** Address spaces: [RootPageTableHolder] of
    crates/kernel/src/memory/page_tables.rs over the tables of
    crates/hal/src/memory/page_table.rs.

    A table is the finite map from index to entry (an absent index is the zero
    entry that [PageTable::zero] writes); the tables of an address space are a
    finite map from the physical address of the table. Tables are allocated on
    the kernel heap of [Heap], as [Box::new] does. *)
From S2P Require Import Prelude Headers KUtil PTE PageAllocator Heap.

(** ** Data *)
Record MappingEntry := {
  range_start : Z;
  range_end : Z;   (* inclusive: the source stores [start + (size - 1)] *)
  name : string;
  privileges : XWRMode;
}.

(** [MappingEntry::contains] *)
Definition contains (m : MappingEntry) (rs re : Z) : bool :=
  (range_start m <=? re) && (rs <=? range_end m).

Abbreviation table := (gmap Z Z).

Record RootPageTableHolder := Holder {
  root_table : Z;
  tables : gmap Z table;
  already_mapped : list MappingEntry;
}.

Definition with_tables (p : RootPageTableHolder) (ts : gmap Z table) : RootPageTableHolder :=
  Holder (root_table p) ts (already_mapped p).
Definition with_mapped (p : RootPageTableHolder) (l : list MappingEntry) :=
  Holder (root_table p) (tables p) l.

(** ** Entries of a table in memory *)
Definition read_entry (ts : gmap Z table) (table_addr virtual_address level : Z)
    : outcome Z :=
  i ← entry_index virtual_address level;
  t ← expect (ts !! table_addr);
  Ret (default 0 (t !! i)).

Definition write_entry (ts : gmap Z table) (table_addr virtual_address level e : Z)
    : outcome (gmap Z table) :=
  i ← entry_index virtual_address level;
  t ← expect (ts !! table_addr);
  Ret (<[table_addr := <[i := e]> t]> ts).

(** [walk_to_entry] / [walk_to_entry_mut]: the third-level table that holds the
    entry, and the entry. *)
Definition walk_to_entry (p : RootPageTableHolder) (address : Z)
    : outcome (option (Z * Z)) :=
  first ← read_entry (tables p) (root_table p) address 2;
  v ← get_validity first;
  if negb v then Ret None else
  t1 ← target_page_table first;
  second ← read_entry (tables p) t1 address 1;
  v ← get_validity second;
  if negb v then Ret None else
  t0 ← target_page_table second;
  third ← read_entry (tables p) t0 address 0;
  v ← get_validity third;
  if negb v then Ret None else Ret (Some (t0, third)).

(** ** [mprotect] *)
Definition mprotect_page (mode : XWRMode) (p : RootPageTableHolder) (page_addr : Z)
    : outcome RootPageTableHolder :=
  w ← walk_to_entry p page_addr;
  '(t0, pte) ← expect w;
  pte' ← set_xwr_mode pte mode;
  ts ← write_entry (tables p) t0 page_addr 0 pte';
  Ret (with_tables p ts).

(** The [for .. break] over [already_mapped]. *)
Fixpoint set_privileges (addr : Z) (mode : XWRMode) (l : list MappingEntry)
    : list MappingEntry :=
  match l with
  | [] => []
  | m :: l =>
      if (range_start m <=? addr) && (addr <? range_end m)
      then {| range_start := range_start m; range_end := range_end m;
              name := name m; privileges := mode |} :: l
      else m :: set_privileges addr mode l
  end.

(** [offset] runs over [0, 4096, ..] below [size]. *)
Definition page_offsets (size : Z) : list Z :=
  (λ k, k * PAGE_SIZE) <$> seqZ 0 ((size + PAGE_SIZE - 1) / PAGE_SIZE).

Definition mprotect (p : RootPageTableHolder) (addr size : Z) (mode : XWRMode)
    : outcome RootPageTableHolder :=
  rassert (is_page_aligned addr);;
  rassert ((0 <? size) && (size mod PAGE_SIZE =? 0));;
  p ← foldM (λ p offset, a ← addr_add addr offset; mprotect_page mode p a)
            (page_offsets size) p;
  Ret (with_mapped p (set_privileges addr mode (already_mapped p))).

(** ** [map] *)
Section map.
Context {A : Type} `{!PageAllocatorTrait A}.

(** [Box::leak(Box::new(PageTable::zero()))]: a null result of the allocator
    is [handle_alloc_error], which panics. *)
Definition table_layout : Layout := {| layout_size := 4096; layout_align := 4096 |}.

Definition box_table (ts : gmap Z table) (h : heap A) : outcome (Z * gmap Z table * heap A) :=
  '(ptr, h) ← alloc h table_layout;
  rassert (negb (ptr =? 0));;
  Ret (ptr, <[ptr := ∅]> ts, h).

(** The four setters that install a leaf, in the source's order. *)
Definition make_leaf (e : Z) (mode : XWRMode) (phys : Z) (user : bool) : outcome Z :=
  e ← set_xwr_mode e mode;
  e ← set_validity e true;
  e ← set_leaf_address e phys;
  set_user_mode_accessible e user.

(** The entry of [table_addr] for [va] at [level], with a next-level table
    allocated if its physical address is zero; returns that table. *)
Definition next_table (ts : gmap Z table) (h : heap A) (table_addr va level : Z)
    : outcome (Z * gmap Z table * heap A) :=
  e ← read_entry ts table_addr va level;
  a ← get_physical_address e;
  '(e, ts, h) ← (if a =? 0 then
      '(page, ts, h) ← box_table ts h;
      e ← set_physical_address e page;
      e ← set_validity e true;
      ts ← write_entry ts table_addr va level e;
      Ret (e, ts, h)
    else Ret (e, ts, h));
  t ← target_page_table e;
  Ret (t, ts, h).

(** An entry that must be free: [!get_validity && physical address == 0]. *)
Definition assert_empty (e : Z) : outcome unit :=
  v ← get_validity e;
  a ← get_physical_address e;
  rassert (negb v && (a =? 0)).

Definition can_be_mapped_with (va pa size mapped_bytes offset : Z) : outcome bool :=
  rest ← sub size offset;
  if mapped_bytes <=? rest then
    v ← addr_add va offset;
    b ← is_aligned v mapped_bytes;
    if b : bool then q ← addr_add pa offset; is_aligned q mapped_bytes else Ret false
  else Ret false.

(** One round of the [while offset < size] loop; returns the bytes mapped. *)
Definition map_step (root va pa size : Z) (mode : XWRMode) (user : bool)
    (ts : gmap Z table) (h : heap A) (offset : Z) : outcome (Z * gmap Z table * heap A) :=
  gib ← GiB 1;
  mib2 ← MiB 2;
  big ← can_be_mapped_with va pa size gib offset;
  if big : bool then
    v ← addr_add va offset;
    e ← read_entry ts root v 2;
    assert_empty e;;
    q ← addr_add pa offset;
    e ← make_leaf e mode q user;
    ts ← write_entry ts root v 2 e;
    Ret (gib, ts, h)
  else
  mid ← can_be_mapped_with va pa size mib2 offset;
  if mid : bool then
    v ← addr_add va offset;
    '(t1, ts, h) ← next_table ts h root v 2;
    e ← read_entry ts t1 v 1;
    assert_empty e;;
    q ← addr_add pa offset;
    e ← make_leaf e mode q user;
    ts ← write_entry ts t1 v 1 e;
    Ret (mib2, ts, h)
  else
    v ← addr_add va offset;
    b ← is_aligned v PAGE_SIZE;
    rassert b;;
    q ← addr_add pa offset;
    b ← is_aligned q PAGE_SIZE;
    rassert b;;
    '(t1, ts, h) ← next_table ts h root v 2;
    '(t0, ts, h) ← next_table ts h t1 v 1;
    e ← read_entry ts t0 v 0;
    valid ← get_validity e;
    rassert (negb valid);;
    e ← make_leaf e mode q user;
    ts ← write_entry ts t0 v 0 e;
    Ret (PAGE_SIZE, ts, h).

(** The loop; every round maps at least one page, so [size / 4096] rounds are
    enough. *)
Fixpoint map_loop (fuel : nat) (root va pa size : Z) (mode : XWRMode) (user : bool)
    (ts : gmap Z table) (h : heap A) (offset : Z) : outcome (gmap Z table * heap A) :=
  if offset <? size then
    match fuel with
    | O => Panic
    | S fuel =>
        '(n, ts, h) ← map_step root va pa size mode user ts h offset;
        offset ← add 64 offset n;
        map_loop fuel root va pa size mode user ts h offset
    end
  else Ret (ts, h).

Definition map (p : RootPageTableHolder) (h : heap A)
    (virtual_address_start physical_address_start size : Z) (mode : XWRMode)
    (is_user_mode_accessible : bool) (nm : string)
    : outcome (RootPageTableHolder * heap A) :=
  rassert (is_page_aligned virtual_address_start);;
  rassert (is_page_aligned physical_address_start);;
  rassert (negb (virtual_address_start =? 0));;
  rassert (0 <? size);;
  size ← align_up size PAGE_SIZE;
  s1 ← sub size 1;
  virtual_end ← addr_add virtual_address_start s1;
  physical_end ← addr_add physical_address_start s1;
  rassert (negb (existsb (λ m, contains m virtual_address_start virtual_end)
                         (already_mapped p)));;
  let entry := {| range_start := virtual_address_start; range_end := virtual_end;
                  name := nm; privileges := mode |} in
  '(ts, h) ← map_loop (Z.to_nat (size / PAGE_SIZE)) (root_table p)
    virtual_address_start physical_address_start size mode is_user_mode_accessible
    (tables p) h 0;
  Ret (Holder (root_table p) ts (already_mapped p ++ [entry]), h).

Definition map_userspace p h va pa size mode nm := map p h va pa size mode true nm.

Definition map_identity p h va size mode user nm := map p h va va size mode user nm.

Definition map_identity_kernel p h va size mode nm := map_identity p h va size mode false nm.

(** [RootPageTableHolder::empty] *)
Definition empty_holder (h : heap A) : outcome (RootPageTableHolder * heap A) :=
  '(root, ts, h) ← box_table ∅ h;
  Ret (Holder root ts [], h).
End map.

(** ** Queries *)
Definition is_userspace_address (p : RootPageTableHolder) (address : Z) : outcome bool :=
  w ← walk_to_entry p address;
  match w with
  | None => Ret false
  | Some (_, e) =>
      v ← get_validity e;
      if v : bool then get_user_mode_accessible e else Ret false
  end.

(** One page of the loop of [is_valid_userspace_fat_ptr]. *)
Definition user_page_ok (p : RootPageTableHolder) (writable : bool) (addr : Z)
    : outcome bool :=
  w ← walk_to_entry p addr;
  match w with
  | None => Ret false
  | Some (_, entry) =>
      xwr ← get_xwr_mode entry;
      v ← get_validity entry;
      u ← get_user_mode_accessible entry;
      if negb v || negb u ||
         negb (bool_decide (xwr = ReadOnly) || bool_decide (xwr = ReadWrite)
               || bool_decide (xwr = ReadExecute))
      then Ret false
      else if writable && negb (bool_decide (xwr = ReadWrite)) then Ret false
      else Ret true
  end.

Fixpoint user_pages_ok (p : RootPageTableHolder) (writable : bool) (n : nat)
    (addr : Z) : outcome bool :=
  b ← user_page_ok p writable addr;
  match n with
  | O => Ret b
  | S n => if b : bool then a ← add 64 addr PAGE_SIZE; user_pages_ok p writable n a
           else Ret false
  end.

(** [is_valid_userspace_fat_ptr]: [elem] is the size of the pointee. *)
Definition is_valid_userspace_fat_ptr (p : RootPageTableHolder)
    (start elem len : Z) (writable : bool) : outcome bool :=
  match checked_mul 64 elem len with
  | None => Ret false
  | Some byte_len =>
      if byte_len =? 0 then Ret true else
      match checked_add 64 start (byte_len - 1) with
      | None => Ret false
      | Some last =>
          let first_page := Z.land start (bitnot 64 (PAGE_SIZE - 1)) in
          let last_page := Z.land last (bitnot 64 (PAGE_SIZE - 1)) in
          user_pages_ok p writable (Z.to_nat ((last_page - first_page) / PAGE_SIZE))
            first_page
      end
  end.

Definition remap_page (p : RootPageTableHolder) (va new_phys : Z) (new_mode : XWRMode)
    : outcome RootPageTableHolder :=
  rassert (is_page_aligned va);;
  w ← walk_to_entry p va;
  '(t0, pte) ← expect w;
  pte ← set_leaf_address pte new_phys;
  pte ← set_xwr_mode pte new_mode;
  ts ← write_entry (tables p) t0 va 0 pte;
  Ret (with_tables p ts).

Definition get_userspace_permissions (p : RootPageTableHolder) (va : Z)
    : outcome (option XWRMode) :=
  w ← walk_to_entry p va;
  match w with
  | None => Ret None
  | Some (_, e) => m ← get_xwr_mode e; Ret (Some m)
  end.

Definition translate_userspace_address_to_physical_address (p : RootPageTableHolder)
    (address : Z) : outcome (option Z) :=
  u ← is_userspace_address p address;
  if negb u then Ret None else
  w ← walk_to_entry p address;
  match w with
  | None => Ret None
  | Some (_, entry) =>
      a ← get_physical_address entry;
      r ← addr_add a (address mod PAGE_SIZE);
      Ret (Some r)
  end.

Definition get_satp_value_from_page_tables (p : RootPageTableHolder) : Z :=
  Z.lor (Z.shiftl 8 60) (Z.land (Z.shiftr (root_table p) 12) 0xfffffffffff).

Definition is_active (p : RootPageTableHolder) (satp : Z) : bool :=
  Z.shiftl (Z.land satp 0xfffffffffff) 12 =? root_table p.

(** [validate_userspace] *)
Definition validate_userspace (p : RootPageTableHolder) (ptr elem len : Z)
    (writable : bool) : outcome (result Z) :=
  b ← is_valid_userspace_fat_ptr p ptr elem len writable;
  if negb b then Ret (Err EFAULT) else
  t ← translate_userspace_address_to_physical_address p ptr;
  match t with
  | None => Ret (Err EFAULT)
  | Some q => Ret (Okay q)
  end.

(** ** [unmap_userspace] *)
Definition unmap_step (root addr : Z) (ts : gmap Z table) : outcome (Z * gmap Z table) :=
  first ← read_entry ts root addr 2;
  v ← get_validity first;
  rassert v;;
  l ← is_leaf first;
  if l : bool then
    ts ← write_entry ts root addr 2 0; gib ← GiB 1; Ret (gib, ts)
  else
  t1 ← target_page_table first;
  second ← read_entry ts t1 addr 1;
  v ← get_validity second;
  rassert v;;
  l ← is_leaf second;
  if l : bool then
    ts ← write_entry ts t1 addr 1 0; mib ← MiB 2; Ret (mib, ts)
  else
  t0 ← target_page_table second;
  third ← read_entry ts t0 addr 0;
  v ← get_validity third;
  rassert v;;
  ts ← write_entry ts t0 addr 0 0;
  Ret (PAGE_SIZE, ts).

Fixpoint unmap_loop (fuel : nat) (root va size : Z) (ts : gmap Z table) (offset : Z)
    : outcome (gmap Z table) :=
  if offset <? size then
    match fuel with
    | O => Panic
    | S fuel =>
        addr ← addr_add va offset;
        '(n, ts) ← unmap_step root addr ts;
        offset ← add 64 offset n;
        unmap_loop fuel root va size ts offset
    end
  else Ret ts.

(** [iter().position(|m| m.virtual_range.start == va)] *)
Definition position_of (va : Z) (l : list MappingEntry) : option nat := list_position (λ m, range_start m =? va) l.

Definition unmap_userspace (p : RootPageTableHolder) (va size : Z)
    : outcome RootPageTableHolder :=
  rassert (is_page_aligned va);;
  rassert (0 <? size);;
  idx ← expect (position_of va (already_mapped p));
  let l := swap_remove (already_mapped p) idx in
  ts ← unmap_loop (S (Z.to_nat (size / PAGE_SIZE))) (root_table p) va size (tables p) 0;
  Ret (Holder (root_table p) ts l).

Definition is_mapped (p : RootPageTableHolder) (rs re : Z) : bool :=
  existsb (λ m, contains m rs re) (already_mapped p).
