(* ===== verification/Sv39.v ===== *)
(** The Sv39 translation the hardware performs, as an independent
    specification of address spaces, and the tree invariant under which a
    single table update has a known effect on it. Used by [AddressSpace] to
    prove the operations of [PageTables] correct. *)
From S2P Require Import Prelude Headers KUtil PTE PageAllocator Heap PageTables.

(** ** The hardware walk (RISC-V privileged specification, 4.3.2) *)

(** Nine bits of the virtual page number, per level. *)
Definition vpn (l : nat) (va : Z) : Z := (va / 2 ^ (12 + 9 * Z.of_nat l)) mod 512.

(** The indices a walk uses, root first. *)
Definition path (va : Z) : list Z := [vpn 2 va; vpn 1 va; vpn 0 va].

(** The entry at index [i] of the table at address [t]. *)
Definition entry_at (ts : gmap Z table) (t i : Z) : Z :=
  match ts !! t with Some tb => default 0 (tb !! i) | None => 0 end.

(** The leaf entry a walk from table [t] at level [l] ends in. *)
Fixpoint walk (E : Z → Z → Z) (l : nat) (t va : Z) : option (Z * nat) :=
  let e := E t (vpn l va) in
  if negb (vbit e) then None
  else if negb (xwr_bits e =? 0) then Some (e, l)
  else match l with O => None | S l' => walk E l' (ppn e * 4096) va end.

(** Physical address, permission bits and user bit of a leaf; a superpage
    whose page number is not aligned to its size faults. *)
Definition decode (va : Z) (w : Z * nat) : option (Z * Z * bool) :=
  let '(e, l) := w in
  if ppn e mod 2 ^ (9 * Z.of_nat l) =? 0
  then Some (ppn e * 4096 + va mod 2 ^ (12 + 9 * Z.of_nat l), xwr_bits e, ubit e)
  else None.

Definition translate (root : Z) (ts : gmap Z table) (va : Z) : option (Z * Z * bool) :=
  walk (entry_at ts) 2 root va ≫= decode va.

(** ** The tree of tables *)
Definition is_ptr (e t : Z) : Prop := vbit e = true ∧ xwr_bits e = 0 ∧ ppn e * 4096 = t.

Definition leaf (e : Z) : Prop :=
  vbit e = true ∧ ∃ m, xwr_from_u8 (xwr_bits e) = Ret m ∧ m ≠ PointerToNextLevel.

(** [linked E root s t]: following the indices [s] from the root through
    pointer entries ends at the table [t]. *)
Inductive linked (E : Z → Z → Z) (root : Z) : list Z → Z → Prop :=
  | linked_root : linked E root [] root
  | linked_child s t x t' :
      linked E root s t → is_ptr (E t x) t' → linked E root (s ++ [x]) t'.

(** What the entry [x] of a table with indices [s] may be. *)
Definition entry_ok (k : gmap Z (list Z)) (s : list Z) (x e : Z) : Prop :=
  in_width 64 e ∧
  (e = 0 ∨ leaf e ∨
   ∃ t, is_ptr e t ∧ (length s < 2)%nat ∧ k !! t = Some (s ++ [x])).

(** The tables form a tree: [k] gives every table the indices that reach it. *)
Record tree_ok (root : Z) (ts : gmap Z table) (k : gmap Z (list Z)) : Prop := {
  t_root : k !! root = Some [];
  t_dom a : is_Some (ts !! a) ↔ is_Some (k !! a);
  t_len a s : k !! a = Some s → (length s ≤ 2)%nat;
  t_addr a s : k !! a = Some s → 0 < a < 2 ^ 56 ∧ a mod 4096 = 0;
  t_linked a s : k !! a = Some s → linked (entry_at ts) root s a;
  t_entry a s x : k !! a = Some s → entry_ok k s x (entry_at ts a x);
}.

(** ** Lemmas *)
Lemma vbit_0 : vbit 0 = false.
Proof. done. Qed.
Lemma is_ptr_not_0 t : ¬ is_ptr 0 t.
Proof. by intros [? _]. Qed.
Lemma leaf_xwr e : leaf e → xwr_bits e ≠ 0.
Proof. intros (_ & m & Hm & Hne) H0. rewrite H0 in Hm. simpl in Hm. congruence. Qed.
Lemma leaf_not_ptr e t : leaf e → ¬ is_ptr e t.
Proof. intros Hl (_ & ? & _). by apply leaf_xwr in Hl. Qed.

Lemma linked_inv_nil E root a : linked E root [] a → a = root.
Proof. inversion 1 as [|s t x t' ? ? Hs]; [done|]. by destruct s. Qed.
Lemma linked_inv_snoc E root s x a :
  linked E root (s ++ [x]) a → ∃ t, linked E root s t ∧ is_ptr (E t x) a.
Proof.
  inversion 1 as [Hs|s' t x' t' ? ? Hs]; [by destruct s|].
  apply app_inj_tail in Hs as [-> ->]. eauto.
Qed.
Lemma linked_fun E root s a b : linked E root s a → linked E root s b → a = b.
Proof.
  intros Ha. revert b. induction Ha as [|s t x t' _ IH Hp]; intros b Hb.
  - by apply linked_inv_nil in Hb.
  - apply linked_inv_snoc in Hb as (t2 & Ht2 & Hp2). apply IH in Ht2 as <-.
    destruct Hp as (_ & _ & <-), Hp2 as (_ & _ & <-). done.
Qed.

(** Changing an entry that is no pointer cuts no link. *)
Lemma linked_upd E E' root t x s a :
  (∀ b y, (b, y) ≠ (t, x) → E' b y = E b y) → (∀ t', ¬ is_ptr (E t x) t') →
  linked E root s a → linked E' root s a.
Proof.
  intros Hext Hnp. induction 1 as [|s b y b' Hl IH Hp]; [constructor|].
  econstructor; [exact IH|]. rewrite Hext; [done|]. intros [= -> ->]. by eapply Hnp.
Qed.

Lemma entry_at_insert ts t tb x e b y : ts !! t = Some tb →
  entry_at (<[t := <[x := e]> tb]> ts) b y =
    if decide ((b, y) = (t, x)) then e else entry_at ts b y.
Proof.
  intros Ht. unfold entry_at. destruct (decide (b = t)) as [->|Hb].
  - rewrite lookup_insert_eq, Ht. destruct (decide (y = x)) as [->|Hy].
    + rewrite lookup_insert_eq, decide_True; done.
    + rewrite lookup_insert_ne, decide_False; [done|congruence|done].
  - rewrite lookup_insert_ne, decide_False; [done|congruence|done].
Qed.

Lemma entry_at_new ts t b y : ts !! t = None →
  entry_at (<[t := ∅]> ts) b y = entry_at ts b y.
Proof.
  intros Ht. unfold entry_at. destruct (decide (b = t)) as [->|Hb].
  - rewrite lookup_insert_eq, Ht. by rewrite lookup_empty.
  - by rewrite lookup_insert_ne.
Qed.

Lemma path_lookup va l : (l ≤ 2)%nat → path va !! (2 - l)%nat = Some (vpn l va).
Proof. intros. by destruct l as [|[|[|l]]]; [| | |lia]. Qed.

Lemma prefix_snoc_path s x va l :
  s `prefix_of` path va → (length s + l = 2)%nat →
  s ++ [x] `prefix_of` path va ↔ x = vpn l va.
Proof.
  intros [r Hr] Hl. pose proof (path_lookup va l ltac:(lia)) as Hp.
  replace (2 - l)%nat with (length s + 0)%nat in Hp by lia.
  rewrite Hr, lookup_app_r in Hp by lia.
  replace (length s + 0 - length s)%nat with 0%nat in Hp by lia.
  destruct r as [|y r]; simplify_eq/=. split.
  - intros Hpre. rewrite Hr in Hpre. apply prefix_app_inv in Hpre.
    by apply prefix_cons_inv_1 in Hpre.
  - intros ->. rewrite Hr. apply prefix_app, prefix_cons, prefix_nil.
Qed.

(** ** Walks in a tree *)
Section tree.
Context (root : Z) (ts : gmap Z table) (k : gmap Z (list Z)).
Context (Hok : tree_ok root ts k).

Lemma tree_kind_linked s a : linked (entry_at ts) root s a → k !! a = Some s.
Proof.
  induction 1 as [|s t x t' Hl IH Hp]; [apply (t_root _ _ _ Hok)|].
  destruct (t_entry _ _ _ Hok t s x IH) as [_ [H0|[Hleaf|(t2 & Hp2 & _ & Hk)]]].
  - rewrite H0 in Hp. by apply is_ptr_not_0 in Hp.
  - by apply leaf_not_ptr in Hp.
  - destruct Hp as (_ & _ & <-), Hp2 as (_ & _ & <-). done.
Qed.

Lemma tree_kind_inj s a b : k !! a = Some s → k !! b = Some s → a = b.
Proof. intros ??. by eapply linked_fun; eapply (t_linked _ _ _ Hok). Qed.

(** A walk passes the table its path reaches. *)
Lemma walk_linked E s t va :
  linked E root s t → s `prefix_of` path va → (length s ≤ 2)%nat →
  walk E 2 root va = walk E (2 - length s) t va.
Proof.
  induction 1 as [|s t x t' Hl IH (Hv & Hx & Ht)]; intros Hpre Hlen; [done|].
  rewrite length_app in *. simpl in *.
  assert (s `prefix_of` path va) as Hs by (etrans; [by apply prefix_app_r|done]).
  rewrite IH by (done || lia).
  apply (prefix_snoc_path s x va (2 - length s)) in Hpre as ->; [|done|lia].
  destruct (2 - length s)%nat as [|l] eqn:Hl2; [lia|].
  replace (2 - (length s + 1))%nat with l by lia.
  cbn [walk]. rewrite Hv, Hx. simpl. by rewrite Ht.
Qed.

(** A change of one entry is invisible to the walks that do not reach it. *)
Lemma walk_frame E' t0 x0 s0 va :
  k !! t0 = Some s0 → (∀ b y, (b, y) ≠ (t0, x0) → E' b y = entry_at ts b y) →
  ¬ (s0 ++ [x0] `prefix_of` path va) →
  walk E' 2 root va = walk (entry_at ts) 2 root va.
Proof.
  intros Hk0 Hext Hno.
  cut (∀ l t s, k !! t = Some s → s `prefix_of` path va → (length s + l = 2)%nat →
         walk E' l t va = walk (entry_at ts) l t va).
  { intros Hcut. apply (Hcut 2%nat root []); [apply (t_root _ _ _ Hok)| |done].
    apply prefix_nil. }
  induction l as [|l IH]; intros t s Hk Hpre Hlen.
  all: assert (E' t (vpn (2 - length s) va) = entry_at ts t (vpn (2 - length s) va)) as He
    by (apply Hext; intros [= -> Hx]; rewrite Hk in Hk0; simplify_eq;
        apply Hno, (prefix_snoc_path _ _ _ (2 - length s0)); [done|lia|done]).
  - replace (2 - length s)%nat with 0%nat in He by lia. cbn [walk]. by rewrite He.
  - replace (2 - length s)%nat with (S l) in He by lia. cbn [walk]. rewrite He.
    destruct (vbit (entry_at ts t (vpn (S l) va))) eqn:Hv; [|done].
    destruct (Z.eqb_spec (xwr_bits (entry_at ts t (vpn (S l) va))) 0) as [Hx|]; [|done].
    simpl. destruct (t_entry _ _ _ Hok t s (vpn (S l) va) Hk) as [_ [H0|[Hf|(t2 & Hp & _ & Hk2)]]].
    + by rewrite H0 in Hv.
    + by apply leaf_xwr in Hf.
    + destruct Hp as (_ & _ & ->). apply (IH _ (s ++ [vpn (S l) va])); [done| |].
      * by apply (prefix_snoc_path _ _ _ (S l)).
      * rewrite length_app. simpl. lia.
Qed.

(** Overwriting an entry that is no pointer: only walks through it change. *)
Lemma update_entry t tb x s e :
  k !! t = Some s → ts !! t = Some tb → (∀ t', ¬ is_ptr (entry_at ts t x) t') →
  in_width 64 e → (e = 0 ∨ leaf e) →
  let ts' := <[t := <[x := e]> tb]> ts in
  tree_ok root ts' k ∧
  ∀ va, walk (entry_at ts') 2 root va =
    if decide (s ++ [x] `prefix_of` path va)
    then (if vbit e then Some (e, (2 - length s)%nat) else None)
    else walk (entry_at ts) 2 root va.
Proof.
  intros Hk Ht Hnp Hw He ts'.
  assert (∀ b y, (b, y) ≠ (t, x) → entry_at ts' b y = entry_at ts b y) as Hext.
  { intros b y Hne. unfold ts'. by rewrite (entry_at_insert ts t tb x e b y Ht), decide_False. }
  assert (entry_at ts' t x = e) as Htx.
  { unfold ts'. by rewrite (entry_at_insert ts t tb x e t x Ht), decide_True. }
  assert (∀ a s', k !! a = Some s' → linked (entry_at ts') root s' a) as Hlink.
  { intros a s' Ha. eapply linked_upd; [exact Hext|exact Hnp|]. by apply (t_linked _ _ _ Hok). }
  split.
  - split; try apply Hok; [|done|].
    + intros a. rewrite <-(t_dom _ _ _ Hok a). unfold ts'.
      rewrite lookup_insert_is_Some. destruct (decide (t = a)) as [->|]; [|naive_solver].
      rewrite Ht. naive_solver.
    + intros a s' y Ha. destruct (decide ((a, y) = (t, x))) as [[= -> ->]|Hne].
      * rewrite Htx. split; [done|]. naive_solver.
      * rewrite Hext by done. by apply (t_entry _ _ _ Hok).
  - intros va. case_decide as Hp; [|by eapply walk_frame].
    pose proof (t_len _ _ _ Hok t s Hk) as Hlen.
    assert (s `prefix_of` path va) as Hs by (etrans; [by apply prefix_app_r|done]).
    rewrite (walk_linked _ s t va (Hlink _ _ Hk) Hs Hlen).
    apply (prefix_snoc_path s x va (2 - length s)) in Hp; [|done|lia]. subst x.
    destruct He as [->|Hf].
    + destruct (2 - length s)%nat; cbn [walk]; by rewrite Htx.
    + pose proof (leaf_xwr _ Hf). destruct (2 - length s)%nat; cbn [walk]; rewrite Htx;
        destruct Hf as [-> _]; simpl; by rewrite (proj2 (Z.eqb_neq _ _)).
Qed.

(** Linking a fresh empty table into an empty slot changes no translation. *)
Lemma link_table t tb x s p e :
  k !! t = Some s → ts !! t = Some tb → entry_at ts t x = 0 → (length s < 2)%nat →
  ts !! p = None → 0 < p < 2 ^ 56 → p mod 4096 = 0 →
  in_width 64 e → is_ptr e p →
  let ts' := <[t := <[x := e]> tb]> (<[p := ∅]> ts) in
  tree_ok root ts' (<[p := s ++ [x]]> k) ∧
  ∀ va, walk (entry_at ts') 2 root va = walk (entry_at ts) 2 root va.
Proof.
  intros Hk Ht Hx0 Hlen Hp Hpa Hpm Hw He ts'.
  assert (t ≠ p) as Htp by congruence.
  assert (∀ b y, entry_at ts' b y = if decide ((b, y) = (t, x)) then e else entry_at ts b y) as HE.
  { intros b y. unfold ts'. rewrite (entry_at_insert _ t tb) by by rewrite lookup_insert_ne.
    by rewrite entry_at_new. }
  assert (∀ b y, (b, y) ≠ (t, x) → entry_at ts' b y = entry_at ts b y) as Hext.
  { intros b y Hne. by rewrite HE, decide_False. }
  assert (entry_at ts' t x = e) as Htx by by rewrite HE, decide_True.
  assert (k !! p = None) as Hkp.
  { apply eq_None_not_Some. rewrite <-(t_dom _ _ _ Hok p), Hp. by intros [??]. }
  assert (∀ a s', k !! a = Some s' → linked (entry_at ts') root s' a) as Hlink.
  { intros a s' Ha. eapply linked_upd; [exact Hext| |by apply (t_linked _ _ _ Hok)].
    intros t'. rewrite Hx0. apply is_ptr_not_0. }
  split.
  - split.
    + rewrite lookup_insert_ne; [apply Hok|]. intros ->. by rewrite (t_root _ _ _ Hok) in Hkp.
    + intros a. unfold ts'. rewrite !lookup_insert_is_Some, (t_dom _ _ _ Hok a).
      destruct (decide (t = a)) as [<-|]; [|naive_solver]. naive_solver.
    + intros a s' [[_ <-]|[_ ?]]%lookup_insert_Some; [rewrite length_app; simpl; lia|].
      by eapply (t_len _ _ _ Hok).
    + intros a s' [[<- _]|[_ ?]]%lookup_insert_Some; [done|]. by eapply (t_addr _ _ _ Hok).
    + intros a s' [[<- <-]|[_ ?]]%lookup_insert_Some; [|by auto].
      econstructor; [by apply Hlink|]. by rewrite Htx.
    + intros a s' y [[<- <-]|[Hne Ha]]%lookup_insert_Some.
      * rewrite Hext by congruence. unfold entry_at. rewrite Hp. split; [done|]. by left.
      * destruct (decide ((a, y) = (t, x))) as [[= -> ->]|].
        -- rewrite Htx. split; [done|]. right. right. exists p. simplify_eq.
           by rewrite lookup_insert_eq.
        -- rewrite Hext by done. destruct (t_entry _ _ _ Hok a s' y Ha) as [? [?|[?|(t2 & ? & ? & ?)]]];
             (split; [done|]); [by left|by right; left|]. right. right. exists t2.
           rewrite lookup_insert_ne by congruence. done.
  - intros va. destruct (decide (s ++ [x] `prefix_of` path va)) as [Hpre|]; [|by eapply walk_frame].
    assert (s `prefix_of` path va) as Hs by (etrans; [by apply prefix_app_r|done]).
    rewrite (walk_linked _ s t va (Hlink _ _ Hk) Hs) by lia.
    rewrite (walk_linked (entry_at ts) s t va) by (done || lia || by apply (t_linked _ _ _ Hok)).
    apply (prefix_snoc_path s x va (2 - length s)) in Hpre; [|done|lia]. subst x.
    destruct (2 - length s)%nat as [|l] eqn:Hl; [lia|]. destruct He as (Hv & Hxw & Hpp).
    cbn [walk]. rewrite Htx, Hx0, Hv, Hxw, Hpp. simpl.
    assert (entry_at ts' p (vpn l va) = 0) as He0.
    { rewrite Hext by congruence. unfold entry_at. by rewrite Hp. }
    destruct l; cbn [walk]; by rewrite He0.
Qed.
End tree.
