(* ===== verification/AddressSpace.v ===== *)
(** Correctness of the address-space operations of [PageTables] against the
    hardware translation of [Sv39]: what [map], [unmap_userspace], [mprotect]
    and [remap_page] do to every virtual address, and what the checks on user
    pointers guarantee. *)
From S2P Require Import Prelude Headers KUtil PTE PageAllocator Heap PageTables Sv39.

#[local] Opaque walk.

(** ** Entries *)
Lemma entry_index_vpn va l : (l ≤ 2)%nat → 0 ≤ va →
  entry_index va (Z.of_nat l) = Ret (vpn l va).
Proof.
  intros Hl Hva. unfold entry_index, shr.
  rewrite (proj2 (Z.leb_le _ _)) by lia. bstep.
  rewrite (proj2 (Z.ltb_lt _ _)) by lia. bstep.
  change 0x1ff with (Z.ones 9). rewrite Z.land_ones, Z.shiftr_div_pow2 by lia. done.
Qed.

Lemma read_entry_at ts t va l : is_Some (ts !! t) → (l ≤ 2)%nat → 0 ≤ va →
  read_entry ts t va (Z.of_nat l) = Ret (entry_at ts t (vpn l va)).
Proof.
  intros [tb Ht] Hl Hva. unfold read_entry, entry_at. rewrite entry_index_vpn by done.
  bstep. by rewrite Ht.
Qed.

Lemma write_entry_at ts t tb va l e : ts !! t = Some tb → (l ≤ 2)%nat → 0 ≤ va →
  write_entry ts t va (Z.of_nat l) e = Ret (<[t := <[vpn l va := e]> tb]> ts).
Proof.
  intros Ht Hl Hva. unfold write_entry. rewrite entry_index_vpn by done. bstep. by rewrite Ht.
Qed.

Lemma xwr_from_u8_ptr b : xwr_from_u8 b = Ret PointerToNextLevel → b = 0.
Proof. unfold xwr_from_u8. repeat case_match; naive_solver. Qed.

Lemma xwr_as_u8_0 m : xwr_as_u8 m = 0 → m = PointerToNextLevel.
Proof. by destruct m. Qed.

Lemma target_page_table_inv e t : target_page_table e = Ret t →
  xwr_bits e = 0 ∧ ppn e * 4096 = t ∧ t ≠ 0.
Proof.
  unfold target_page_table, is_leaf. rewrite get_xwr_mode_eq, get_physical_address_Ret.
  destruct (xwr_from_u8 (xwr_bits e)) as [m|] eqn:Hm; [|done]. bstep.
  case_bool_decide as Hp; [subst m|done]. bstep. intros H. inv_outcome.
  apply xwr_from_u8_ptr in Hm. apply negb_true_iff, Z.eqb_neq in H0. done.
Qed.

Lemma target_page_table_ptr e t : is_ptr e t → t ≠ 0 → target_page_table e = Ret t.
Proof.
  intros (_ & Hx & Ht) H0. unfold target_page_table, is_leaf.
  rewrite get_xwr_mode_eq, get_physical_address_Ret, Hx, Ht. simpl.
  by rewrite (proj2 (Z.eqb_neq _ _)).
Qed.

(** The physical page number of a page-aligned physical address. *)
Lemma ppn_of_addr q : 0 ≤ q < 2 ^ 56 → q mod 4096 = 0 → (q / 4096) mod 2 ^ 44 * 4096 = q.
Proof.
  intros Hq Hm. rewrite Z.mod_small.
  - pose proof (Z.div_mod q 4096). lia.
  - split; [apply Z.div_pos; lia|]. apply Z.div_lt_upper_bound; lia.
Qed.

(** A leaf with the given fields, all other bits as they were. *)
Record leaf_of (e e' : Z) (mode : XWRMode) (q : Z) (user : bool) : Prop := {
  lo_width : in_width 64 e';
  lo_valid : vbit e' = true;
  lo_mode : xwr_bits e' = xwr_as_u8 mode;
  lo_ppn : ppn e' = (q / 4096) mod 2 ^ 44;
  lo_user : ubit e' = user;
  lo_rest i : 5 ≤ i < 10 ∨ 54 ≤ i → Z.testbit e' i = Z.testbit e i;
}.

Lemma leaf_of_leaf e e' mode q user : mode ≠ PointerToNextLevel →
  leaf_of e e' mode q user → leaf e'.
Proof. intros Hm [? ? Hx]. split; [done|]. exists mode. by rewrite Hx, xwr_from_as. Qed.

Lemma make_leaf_ok e mode q user : in_width 64 e → in_width 64 q → q mod 4096 = 0 →
  ∃ e', make_leaf e mode q user = Ret e' ∧ leaf_of e e' mode q user.
Proof.
  intros He Hq Hal. unfold make_leaf, set_leaf_address.
  destruct (set_xwr_Ret e mode) as [e1 H1]. rewrite H1. bstep.
  pose proof (set_xwr_in_width _ He _ _ H1) as Hw1.
  destruct (set_validity_Ret e1 true) as [e2 H2]. rewrite H2. bstep.
  pose proof (set_validity_in_width _ Hw1 _ _ H2) as Hw2.
  rewrite (proj2 (is_page_aligned_mod q)) by done. bstep.
  destruct (set_page_number e2 q) as [e3|] eqn:H3; [|by rewrite set_page_number_Ret in H3]. bstep.
  pose proof (set_page_number_in_width _ Hw2 _ _ Hq H3) as Hw3.
  destruct (set_user_Ret e3 user) as [e4 H4]. rewrite H4. eexists; split; [done|].
  pose proof (λ i, testbit_set_xwr e He mode e1 i H1) as B1.
  pose proof (λ i, testbit_set_validity e1 Hw1 true e2 i H2) as B2.
  pose proof (λ i, testbit_set_page_number e2 Hw2 q e3 i Hq H3) as B3.
  pose proof (λ i, testbit_set_user e3 Hw3 user e4 i H4) as B4.
  split.
  - by apply (set_user_in_width _ Hw3 _ _ H4).
  - unfold vbit. by rewrite B4, B3, B2.
  - rewrite <-(xwr_bits_set e mode e1 He H1). apply xwr_bits_ext. intros i Hi.
    rewrite B4, B3, B2, !bool_decide_false by lia. done.
  - rewrite <-(ppn_set_page_number e2 q e3 Hw2 Hq H3). apply ppn_ext. intros i Hi.
    by rewrite B4, bool_decide_false by lia.
  - unfold ubit. by rewrite B4.
  - intros i Hi. rewrite B4, B3, B2, B1, !bool_decide_false by lia. done.
Qed.

(** the four setters that install a leaf ([set_xwr_mode], [set_validity],
    [set_leaf_address], [set_user_mode_accessible]) do not interfere: reading
    the entry back with the getters returns exactly what was set, and the bits
    outside the four fields are untouched. *)
Theorem make_leaf_roundtrip e mode q user :
  in_width 64 e → 0 ≤ q < 2 ^ 56 → q mod 4096 = 0 →
  ∃ e', make_leaf e mode q user = Ret e' ∧
    get_validity e' = Ret true ∧ get_xwr_mode e' = Ret mode ∧
    get_physical_address e' = Ret q ∧ get_user_mode_accessible e' = Ret user ∧
    ∀ i, 5 ≤ i < 10 ∨ 54 ≤ i → Z.testbit e' i = Z.testbit e i.
Proof.
  intros He Hq Hal.
  destruct (make_leaf_ok e mode q user He) as (e' & Heq & [Hw Hv Hm Hp Hu Hr]);
    [split; lia|done|].
  exists e'. rewrite get_validity_Ret, get_xwr_mode_eq, get_physical_address_Ret,
    get_user_mode_accessible_Ret, Hv, Hm, Hp, Hu, xwr_from_as, ppn_of_addr by done. done.
Qed.

Lemma make_leaf_roundtrip_witness :
  ∃ e', make_leaf 0 ReadWrite 0x80200000 true = Ret e' ∧ get_xwr_mode e' = Ret ReadWrite.
Proof.
  destruct (make_leaf_roundtrip 0 ReadWrite 0x80200000 true) as (e' & ? & _ & ? & _);
    [split; [reflexivity|reflexivity]|lia|reflexivity|eauto].
Defined.

(** ** Paths and address ranges *)

(** Bytes covered by a leaf at level [l]. *)
Definition span (l : nat) : Z := 2 ^ (12 + 9 * Z.of_nat l).

Lemma span_values : span 0 = 4096 ∧ span 1 = 2097152 ∧ span 2 = 1073741824.
Proof. done. Qed.

(** The indices of the table at level [l] on the way to [va]. *)
Definition table_path (l : nat) (va : Z) : list Z := take (2 - l) (path va).

Lemma table_path_snoc l va : (l ≤ 2)%nat →
  table_path l va ++ [vpn l va] = take (3 - l) (path va).
Proof. intros. by destruct l as [|[|[|]]]; [| | |lia]. Qed.

Lemma table_path_S l va : (l < 2)%nat →
  table_path (S l) va ++ [vpn (S l) va] = table_path l va.
Proof. intros. by rewrite table_path_snoc by lia. Qed.

Lemma table_path_length l va : (l ≤ 2)%nat → length (table_path l va) = (2 - l)%nat.
Proof. intros. by destruct l as [|[|[|]]]; [| | |lia]. Qed.

Lemma prefix_cons_iff {B} (x y : B) l k :
  x :: l `prefix_of` y :: k ↔ x = y ∧ l `prefix_of` k.
Proof.
  split; [|intros [-> ?]; by apply prefix_cons].
  intros H. split; [by eapply prefix_cons_inv_1|by eapply prefix_cons_inv_2].
Qed.

Lemma div_split a b : 0 < b → a / b = (a / (b * 512)) * 512 + (a / b) mod 512.
Proof.
  intros Hb. rewrite <-Z.div_div by lia. rewrite Z.mul_comm. apply Z.div_mod. lia.
Qed.

(** Two addresses share the first indices when they lie in the same page of
    that level. *)
Lemma path_prefix l v va : (l ≤ 2)%nat → 0 ≤ v < 2 ^ 39 → 0 ≤ va < 2 ^ 39 →
  table_path l v ++ [vpn l v] `prefix_of` path va ↔ va / span l = v / span l.
Proof.
  intros Hl Hv Hva. rewrite table_path_snoc by done.
  assert (∀ a, 0 ≤ a < 2 ^ 39 → vpn 2 a = a / span 2 ∧
            a / span 1 = vpn 2 a * 512 + vpn 1 a ∧
            a / span 0 = (a / span 1) * 512 + vpn 0 a) as Hd.
  { intros a Ha. unfold vpn. fold (span 2) (span 1) (span 0).
    pose proof (div_split a (span 1) ltac:(done)) as H1.
    pose proof (div_split a (span 0) ltac:(done)) as H0.
    change (span 1 * 512) with (span 2) in H1. change (span 0 * 512) with (span 1) in H0.
    rewrite (Z.mod_small (a / span 2)); [done|].
    split; [apply Z.div_pos; [lia|done]|]. apply Z.div_lt_upper_bound; [done|].
    change (span 2 * 512) with (2 ^ 39). lia. }
  destruct (Hd v Hv) as (Hv2 & Hv1 & Hv0), (Hd va Hva) as (Ha2 & Ha1 & Ha0).
  assert (∀ a i, 0 ≤ vpn i a < 512) as Hr by (intros; apply Z.mod_pos_bound; lia).
  pose proof (Hr v 1%nat). pose proof (Hr va 1%nat).
  pose proof (Hr v 0%nat). pose proof (Hr va 0%nat).
  unfold path. destruct l as [|[|[|]]]; [| | |lia]; simpl;
    rewrite !prefix_cons_iff; pose proof (prefix_nil (A:=Z)); naive_solver lia.
Qed.

(** An aligned page of level [l] as an interval. *)
Lemma same_page_interval l v va : v mod span l = 0 →
  va / span l = v / span l ↔ v ≤ va < v + span l.
Proof.
  intros Hv. assert (0 < span l) by (apply Z.pow_pos_nonneg; lia).
  apply Z.mod_divide in Hv as [c ->]; [|lia]. rewrite Z.div_mul by lia.
  pose proof (Z.div_mod va (span l)). pose proof (Z.mod_pos_bound va (span l)). split.
  - intros Heq. rewrite Heq in *. lia.
  - intros Hin. symmetry. apply (Z.div_unique_pos _ _ _ (va - c * span l)); lia.
Qed.

(** ** Writing one leaf *)

(** [va] translates to [q + (va - v)] through some leaf. *)
Definition maps_to (root : Z) (ts : gmap Z table) (va q mode : Z) (user : bool) : Prop :=
  ∃ w, walk (entry_at ts) 2 root va = Some w ∧ decode va w = Some (q, mode, user).

Lemma maps_to_translate root ts va q mode user :
  maps_to root ts va q mode user → translate root ts va = Some (q, mode, user).
Proof. intros (w & Hw & Hd). unfold translate. by rewrite Hw. Qed.

Lemma decode_leaf e e' l mode q user v va :
  leaf_of e e' mode q user → (l ≤ 2)%nat → 0 ≤ q < 2 ^ 56 → q mod span l = 0 →
  v mod span l = 0 → v ≤ va < v + span l →
  decode va (e', l) = Some (q + (va - v), xwr_as_u8 mode, user).
Proof.
  intros [Hw Hv Hm Hp Hu _] Hl Hq Hqal Hval Hva. unfold decode. fold (span l).
  assert (span l = 4096 * 2 ^ (9 * Z.of_nat l)) as Hs.
  { unfold span. by rewrite Z.pow_add_r by lia. }
  assert (0 < 2 ^ (9 * Z.of_nat l)) by (apply Z.pow_pos_nonneg; lia).
  assert (q mod 4096 = 0) as Hq0.
  { apply Z.mod_divide in Hqal as [c ->]; [|lia]. rewrite Hs.
    apply Z.mod_divide; [lia|]. exists (c * 2 ^ (9 * Z.of_nat l)). lia. }
  assert (ppn e' * 4096 = q) as Hpq by (rewrite Hp; by apply ppn_of_addr).
  assert (ppn e' mod 2 ^ (9 * Z.of_nat l) = 0) as Hpm.
  { apply Z.mod_divide in Hqal as [c Hc]; [|lia]. apply Z.mod_divide; [lia|].
    exists c. rewrite Hs in Hc. lia. }
  rewrite Hpm, Z.eqb_refl, Hm, Hu, Hpq. do 3 f_equal. f_equal.
  symmetry. apply Z.mod_divide in Hval as [c Hc]; [|lia].
  apply (Z.mod_unique_pos _ _ c); lia.
Qed.

Section install.
Context (root : Z) (ts : gmap Z table) (k : gmap Z (list Z)).
Context (Hok : tree_ok root ts k).

(** Overwriting the level-[l] entry on the path of [v]. *)
Lemma write_entry_ok l t v e : (l ≤ 2)%nat → 0 ≤ v < 2 ^ 39 →
  k !! t = Some (table_path l v) →
  (∀ t', ¬ is_ptr (entry_at ts t (vpn l v)) t') → in_width 64 e → (e = 0 ∨ leaf e) →
  ∃ ts', write_entry ts t v (Z.of_nat l) e = Ret ts' ∧ tree_ok root ts' k ∧
    ∀ va, 0 ≤ va < 2 ^ 39 → walk (entry_at ts') 2 root va =
      if decide (va / span l = v / span l)
      then (if vbit e then Some (e, l) else None)
      else walk (entry_at ts) 2 root va.
Proof.
  intros Hl Hv Hk Hnp Hw He.
  destruct (proj2 (t_dom _ _ _ Hok t) ltac:(eauto)) as [tb Ht].
  rewrite (write_entry_at ts t tb v l e) by (done || lia). eexists; split; [done|].
  destruct (update_entry root ts k Hok t tb (vpn l v) _ e Hk Ht Hnp Hw He) as [Hok' Hwalk].
  split; [exact Hok'|]. intros va Hva. rewrite Hwalk, table_path_length by done.
  replace (2 - (2 - l))%nat with l by lia.
  destruct (decide (va / span l = v / span l)) as [Hs|Hs].
  - by rewrite decide_True by by apply path_prefix.
  - by rewrite decide_False by by rewrite path_prefix.
Qed.

(** Installing a leaf of level [l] for the aligned page at [v]. *)
Lemma install_leaf l t v q mode user :
  (l ≤ 2)%nat → 0 ≤ v → v + span l ≤ 2 ^ 39 → 0 ≤ q → q + span l ≤ 2 ^ 56 →
  v mod span l = 0 → q mod span l = 0 → mode ≠ PointerToNextLevel →
  k !! t = Some (table_path l v) →
  (∀ t', ¬ is_ptr (entry_at ts t (vpn l v)) t') →
  ∃ e' ts', make_leaf (entry_at ts t (vpn l v)) mode q user = Ret e' ∧
    write_entry ts t v (Z.of_nat l) e' = Ret ts' ∧ tree_ok root ts' k ∧
    ∀ va, 0 ≤ va < 2 ^ 39 →
      if decide (v ≤ va < v + span l)
      then maps_to root ts' va (q + (va - v)) (xwr_as_u8 mode) user
      else walk (entry_at ts') 2 root va = walk (entry_at ts) 2 root va.
Proof.
  intros Hl Hv0 Hv Hq0 Hq Hval Hqal Hm Hk Hnp.
  assert (0 < span l) by (apply Z.pow_pos_nonneg; lia).
  assert (q mod 4096 = 0) as Hq4.
  { apply Z.mod_divide in Hqal as [c ->]; [|lia]. unfold span.
    rewrite Z.pow_add_r by lia. apply Z.mod_divide; [lia|].
    exists (c * 2 ^ (9 * Z.of_nat l)). lia. }
  destruct (t_entry _ _ _ Hok t _ (vpn l v) Hk) as [Hw _].
  destruct (make_leaf_ok _ mode q user Hw) as (e' & Heq & Hlf); [split; lia|done|].
  destruct (write_entry_ok l t v e') as (ts' & Hwr & Hok' & Hwalk);
    [done|lia|done|done|apply Hlf|right; by eapply leaf_of_leaf|].
  exists e', ts'. split_and!; [done..|]. intros va Hva. specialize (Hwalk va Hva).
  destruct (decide (v ≤ va < v + span l)) as [Hin|Hin].
  - rewrite decide_True in Hwalk by by apply same_page_interval.
    rewrite (lo_valid _ _ _ _ _ Hlf) in Hwalk. eexists; split; [done|].
    eapply decode_leaf; (done || lia).
  - rewrite decide_False in Hwalk by by rewrite same_page_interval. done.
Qed.
End install.

(** ** Allocating tables *)
Section space.
Context {A : Type} `{!PageAllocatorTrait A} `{!PageAllocatorLaws A}.

(** Every table is a page run the heap has handed out. *)
Definition owned (k : gmap Z (list Z)) (large : list (Z * nat)) : Prop :=
  ∀ a, is_Some (k !! a) → ∃ n, (0 < n)%nat ∧ (a, n) ∈ large.

(** The invariant of an address space and the heap its tables live on. *)
Definition space_ok (root : Z) (ts : gmap Z table) (k : gmap Z (list Z)) (h : heap A) : Prop :=
  tree_ok root ts k ∧ ∃ free small large runs, heap_inv h free small large runs ∧ owned k large.

(** What [Box::new(PageTable::zero())] returns. *)
Record fresh_table (k : gmap Z (list Z)) (h h' : heap A) (p : Z) : Prop := {
  ft_fresh : k !! p = None;
  ft_addr : 0 < p < 2 ^ 56 ∧ p mod 4096 = 0;
  ft_heap s : ∃ free small large runs,
    heap_inv h' free small large runs ∧ owned (<[p := s]> k) large;
}.

Lemma box_table_ok ts k h p ts' h' :
  (∃ free small large runs, heap_inv h free small large runs ∧ owned k large) →
  box_table ts h = Ret (p, ts', h') → ts' = <[p := ∅]> ts ∧ fresh_table k h h' p.
Proof.
  intros (free & small & large & runs & Hi & Hown) Hb. unfold box_table in Hb.
  destruct (alloc_large h table_layout free small large runs Hi)
    as (p0 & h0 & Heq & Hres); [done|done|]. rewrite Heq in Hb. bstep in Hb.
  destruct (Z.eqb_spec p0 0) as [|Hp0]; [done|]. simpl in Hb. inv_outcome. simplify_eq.
  split; [done|]. destruct Hres as [[? _]|(n & Hn & Hpm & Hp & Hd & Hi')]; [done|].
  assert (0 < n)%nat as Hn0 by (simpl in Hn; unfold PAGE_SIZE in Hn; lia).
  split.
  - apply eq_None_not_Some. intros (n' & Hn' & Hin)%Hown. rewrite Forall_forall in Hd.
    specialize (Hd (p, n') ltac:(set_solver)). unfold disj, run_extent, PAGE_SIZE in Hd.
    simpl in Hd. lia.
  - split; [|exact Hpm]. destruct Hi' as [_ _ _ _ (m & Hpg & Hm) _ _ _].
    assert (m !! p = Some n) as Hmp.
    { apply elem_of_map_to_list. rewrite Hm. set_solver. }
    pose proof (pg_run_phys _ _ _ _ Hpg Hmp). unfold PAGE_SIZE in *. lia.
  - intros s. exists free, small, ((p, n) :: large), runs. split; [done|].
    intros a Ha. rewrite lookup_insert_is_Some in Ha. destruct Ha as [->|[_ Ha]].
    + exists n. set_solver.
    + destruct (Hown a Ha) as (n' & ? & ?). exists n'. set_solver.
Qed.

(** Pointing an entry elsewhere keeps its permission bits. *)
Lemma set_pointer_xwr e p e1 e2 : in_width 64 e → in_width 64 p →
  set_physical_address e p = Ret e1 → set_validity e1 true = Ret e2 →
  xwr_bits e2 = xwr_bits e.
Proof.
  intros He Hp H1 H2. unfold set_physical_address in H1.
  pose proof (set_page_number_in_width _ He _ _ Hp H1) as Hw1.
  apply xwr_bits_ext. intros i Hi.
  rewrite (testbit_set_validity e1 Hw1 true e2 i H2), bool_decide_false by lia.
  by rewrite (testbit_set_page_number e He p e1 i Hp H1), bool_decide_false by lia.
Qed.

(** The entry written for a fresh table is a pointer to it. *)
Lemma table_entry_ok p : 0 < p < 2 ^ 56 → p mod 4096 = 0 →
  ∃ e1 e, set_physical_address 0 p = Ret e1 ∧ set_validity e1 true = Ret e ∧
    in_width 64 e ∧ is_ptr e p.
Proof.
  intros Hp Hm. assert (in_width 64 0) as H0 by done.
  assert (in_width 64 p) as Hw by (split; lia).
  unfold set_physical_address.
  destruct (set_page_number 0 p) as [e1|] eqn:H1; [|by rewrite set_page_number_Ret in H1].
  pose proof (set_page_number_in_width _ H0 _ _ Hw H1) as Hw1.
  destruct (set_validity_Ret e1 true) as [e H2]. exists e1, e.
  pose proof (λ i, testbit_set_page_number 0 H0 p e1 i Hw H1) as B1.
  pose proof (λ i, testbit_set_validity e1 Hw1 true e i H2) as B2.
  split_and!; [done|done|by eapply set_validity_in_width|]. split_and!.
  - unfold vbit. by rewrite B2.
  - rewrite (xwr_bits_ext e 0); [done|]. intros i Hi.
    rewrite B2, B1, !bool_decide_false by lia. done.
  - rewrite (ppn_ext e e1), (ppn_set_page_number 0 p e1), ppn_of_addr; [done|lia|done..|].
    intros i Hi. by rewrite B2, bool_decide_false by lia.
Qed.

Lemma next_table_ok root ts k h l t v t' ts' h' :
  space_ok root ts k h → (l < 2)%nat → 0 ≤ v < 2 ^ 39 →
  k !! t = Some (table_path (S l) v) →
  next_table ts h t v (Z.of_nat (S l)) = Ret (t', ts', h') →
  ∃ k', space_ok root ts' k' h' ∧ k' !! t' = Some (table_path l v) ∧
    ∀ va, walk (entry_at ts') 2 root va = walk (entry_at ts) 2 root va.
Proof.
  intros [Hok Hheap] Hl Hv Hk Hn. unfold next_table in Hn.
  destruct (proj2 (t_dom _ _ _ Hok t) ltac:(eauto)) as [tb Ht].
  rewrite read_entry_at in Hn by (eauto || lia). bstep in Hn.
  rewrite get_physical_address_Ret in Hn. bstep in Hn.
  set (e := entry_at ts t (vpn (S l) v)) in *.
  pose proof (t_entry _ _ _ Hok t _ (vpn (S l) v) Hk) as He. fold e in He.
  destruct (Z.eqb_spec (ppn e * 4096) 0) as [H0|H0].
  - apply bind_Ret in Hn as ([[e' ts1] h1] & Hn1 & Hn2).
    apply bind_Ret in Hn1 as ([[p ts0] h0] & Hb & Hn1).
    destruct (box_table_ok ts k h p ts0 h0 Hheap Hb) as [-> [Hfr [Hpa Hpm] Hheap']].
    assert (e = 0 ∨ leaf e) as [He0|Hleaf].
    { destruct He as [_ [?|[?|(t2 & Hp & _ & Hk2)]]]; [by left|by right|].
      destruct Hp as (_ & _ & Hp). apply (t_addr _ _ _ Hok) in Hk2. lia. }
    2: { inv_outcome. simplify_eq. apply target_page_table_inv in Hn0 as (Hx & _).
         apply leaf_xwr in Hleaf. destruct Hleaf. rewrite <-Hx. symmetry.
         eapply (set_pointer_xwr e p); [apply He|split; lia|done|done]. }
    rewrite He0 in Hn1. destruct (table_entry_ok p Hpa Hpm) as (e1 & e2 & E1 & E2 & Hw & Hp).
    rewrite E1 in Hn1. bstep in Hn1. rewrite E2 in Hn1. bstep in Hn1.
    assert (ts !! p = None) as Htp.
    { apply eq_None_not_Some. rewrite (t_dom _ _ _ Hok p), Hfr. by intros [??]. }
    rewrite (write_entry_at _ t tb) in Hn1
      by (lia || rewrite lookup_insert_ne by congruence; done).
    bstep in Hn1. injection Hn1 as <- <- <-.
    rewrite (target_page_table_ptr e2 p) in Hn2 by (done || lia). bstep in Hn2. simplify_eq.
    destruct (link_table root ts k Hok t tb (vpn (S l) v) _ t' e2 Hk Ht He0)
      as [Hok' Hwalk]; try done.
    { rewrite table_path_length by lia. lia. }
    rewrite table_path_S in * by done.
    exists (<[t' := table_path l v]> k). split; [|split; [by rewrite lookup_insert_eq|done]].
    split; [done|]. apply Hheap'.
  - bstep in Hn. apply bind_Ret in Hn as (t2 & Htt & Hn). inv_outcome. simplify_eq.
    apply target_page_table_inv in Htt as (Hx & Hp & _).
    destruct He as [_ [He|[Hf|(t2 & (_ & _ & Hp2) & _ & Hk2)]]].
    + rewrite He in H0. done.
    + by apply leaf_xwr in Hf.
    + rewrite Hp in Hp2. subst t2. rewrite table_path_S in Hk2 by done. exists k. done.
Qed.

(** ** The loop of [map] *)

(** [ts'] maps [v, v + n) to [q, q + n) and agrees with [ts] elsewhere. *)
Definition range_mapped (root : Z) (ts ts' : gmap Z table) (v q n : Z) (mode : XWRMode)
    (user : bool) : Prop :=
  ∀ a, 0 ≤ a < 2 ^ 39 →
    if decide (v ≤ a < v + n)
    then maps_to root ts' a (q + (a - v)) (xwr_as_u8 mode) user
    else walk (entry_at ts') 2 root a = walk (entry_at ts) 2 root a.

Lemma can_be_mapped_with_true va pa size n offset :
  can_be_mapped_with va pa size n offset = Ret true →
  n ≤ size - offset ∧ (va + offset) mod n = 0 ∧ (pa + offset) mod n = 0.
Proof.
  unfold can_be_mapped_with, addr_add, is_aligned, umod. intros H. inv_outcome.
  destruct (Z.leb_spec n (size - offset)); [|done]. inv_outcome.
  destruct (n =? 0); [done|]. inv_outcome.
  destruct (Z.eqb_spec ((va + offset) mod n) 0); [|done]. inv_outcome.
  split_and!; [done..|]. by apply Z.eqb_eq.
Qed.

Lemma not_valid_not_ptr e : vbit e = false → ∀ t, ¬ is_ptr e t.
Proof. intros Hv t [? _]. congruence. Qed.

Context (root va pa size : Z) (mode : XWRMode) (user : bool).
Context (Hva : 0 ≤ va) (Hpa : 0 ≤ pa) (Hend : va + size ≤ 2 ^ 39) (Hpend : pa + size ≤ 2 ^ 56).
Context (Hvm : va mod 4096 = 0) (Hpm : pa mod 4096 = 0) (Hsm : size mod 4096 = 0).
Context (Hmode : mode ≠ PointerToNextLevel).

(** The end of each branch: the leaf of level [l] is written. *)
Lemma finish_step ts0 ts k h l t offset e q ts' :
  space_ok root ts k h → (l ≤ 2)%nat → 0 ≤ offset → offset + span l ≤ size →
  (va + offset) mod span l = 0 → (pa + offset) mod span l = 0 →
  k !! t = Some (table_path l (va + offset)) →
  vbit (entry_at ts t (vpn l (va + offset))) = false →
  (∀ a, walk (entry_at ts) 2 root a = walk (entry_at ts0) 2 root a) →
  q = pa + offset →
  make_leaf (entry_at ts t (vpn l (va + offset))) mode q user = Ret e →
  write_entry ts t (va + offset) (Z.of_nat l) e = Ret ts' →
  space_ok root ts' k h ∧ range_mapped root ts0 ts' (va + offset) (pa + offset) (span l) mode user.
Proof.
  intros [Hok Hh] Hl Ho Hn Hv0 Hp0 Hk Hinv Hsame -> Hmk Hwr.
  destruct (install_leaf root ts k Hok l t (va + offset) (pa + offset) mode user)
    as (e2 & ts2 & Hmk2 & Hwr2 & Hok2 & Heff); try (done || lia).
  { by apply not_valid_not_ptr. }
  rewrite Hmk in Hmk2. simplify_eq. rewrite Hwr in Hwr2. simplify_eq.
  split; [done|]. intros a Ha. specialize (Heff a Ha).
  by destruct (decide (va + offset ≤ a < va + offset + span l)); [|rewrite Heff].
Qed.

Lemma read_entry_tree ts k h t s v l e : space_ok root ts k h → k !! t = Some s →
  (l ≤ 2)%nat → 0 ≤ v → read_entry ts t v (Z.of_nat l) = Ret e →
  e = entry_at ts t (vpn l v).
Proof.
  intros [Hok _] Hk Hl Hv. rewrite read_entry_at; [by intros [= <-]| |done..].
  apply (t_dom _ _ _ Hok). eauto.
Qed.

Lemma assert_empty_inv e u : assert_empty e = Ret u → vbit e = false.
Proof.
  unfold assert_empty. rewrite get_validity_Ret, get_physical_address_Ret. bstep.
  intros H. inv_outcome. by apply andb_prop in H as [?%negb_true_iff _].
Qed.

Lemma map_step_ok ts k h offset n ts' h' :
  space_ok root ts k h → 0 ≤ offset < size → offset mod 4096 = 0 →
  map_step root va pa size mode user ts h offset = Ret (n, ts', h') →
  ∃ k' l, space_ok root ts' k' h' ∧ (l ≤ 2)%nat ∧ n = span l ∧ offset + n ≤ size ∧
    range_mapped root ts ts' (va + offset) (pa + offset) n mode user.
Proof.
  intros Hs Ho Hom Hst. unfold map_step, addr_add in Hst.
  change (GiB 1) with (Ret (span 2)) in Hst. change (MiB 2) with (Ret (span 1)) in Hst.
  bstep in Hst. pose proof (t_root _ _ _ (proj1 Hs)) as Hroot.
  assert (offset + 4096 ≤ size) as Hlast.
  { apply Z.mod_divide in Hsm as [c ->], Hom as [d ->]; lia. }
  apply bind_Ret in Hst as (big & Hbig & Hst). destruct big.
  { apply can_be_mapped_with_true in Hbig as (Hsz & Hv0 & Hp0).
    apply bind_Ret in Hst as (v & [-> _]%add_Ret & Hst).
    apply bind_Ret in Hst as (e & He & Hst).
    eapply (read_entry_tree ts k h root [] _ 2) in He; [|done|done|lia|lia]. subst e.
    apply bind_Ret in Hst as (? & Hemp%assert_empty_inv & Hst).
    apply bind_Ret in Hst as (q & [-> _]%add_Ret & Hst).
    apply bind_Ret in Hst as (e & Hmk & Hst).
    apply bind_Ret in Hst as (ts2 & Hwr & Hst). simplify_eq.
    eapply (finish_step ts ts k h' 2) in Hwr as [Hs' Heff]; try done; try lia.
    exists k, 2%nat. split_and!; (done || lia). }
  apply bind_Ret in Hst as (mid & Hmid & Hst). destruct mid.
  { apply can_be_mapped_with_true in Hmid as (Hsz & Hv0 & Hp0).
    apply bind_Ret in Hst as (v & [-> _]%add_Ret & Hst).
    apply bind_Ret in Hst as ([[t1 ts1] h1] & Hn & Hst).
    eapply (next_table_ok root ts k h 1) in Hn as (k1 & Hs1 & Hk1 & Hw1); try done; try lia.
    apply bind_Ret in Hst as (e & He & Hst).
    eapply (read_entry_tree ts1 k1 h1 t1 _ _ 1) in He; [|done|done|lia|lia]. subst e.
    apply bind_Ret in Hst as (? & Hemp%assert_empty_inv & Hst).
    apply bind_Ret in Hst as (q & [-> _]%add_Ret & Hst).
    apply bind_Ret in Hst as (e & Hmk & Hst).
    apply bind_Ret in Hst as (ts2 & Hwr & Hst). simplify_eq.
    eapply (finish_step ts ts1 k1 h' 1) in Hwr as [Hs' Heff]; try done; try lia.
    exists k1, 1%nat. split_and!; (done || lia). }
  apply bind_Ret in Hst as (v & [-> _]%add_Ret & Hst).
  apply bind_Ret in Hst as (b1 & _ & Hst). apply bind_Ret in Hst as (? & _ & Hst).
  apply bind_Ret in Hst as (q & [-> _]%add_Ret & Hst).
  apply bind_Ret in Hst as (b2 & _ & Hst). apply bind_Ret in Hst as (? & _ & Hst).
  apply bind_Ret in Hst as ([[t1 ts1] h1] & Hn1 & Hst).
  eapply (next_table_ok root ts k h 1) in Hn1 as (k1 & Hs1 & Hk1 & Hw1); try done; try lia.
  apply bind_Ret in Hst as ([[t0 ts2] h2] & Hn2 & Hst).
  eapply (next_table_ok root ts1 k1 h1 0) in Hn2 as (k2 & Hs2 & Hk2 & Hw2); try done; try lia.
  apply bind_Ret in Hst as (e & He & Hst).
  eapply (read_entry_tree ts2 k2 h2 t0 _ _ 0) in He; [|done|done|lia|lia]. subst e.
  rewrite get_validity_Ret in Hst. bstep in Hst.
  apply bind_Ret in Hst as (? & Hemp%rassert_Ret%negb_true_iff & Hst).
  apply bind_Ret in Hst as (e & Hmk & Hst).
  apply bind_Ret in Hst as (ts3 & Hwr & Hst). simplify_eq.
  assert ((va + offset) mod 4096 = 0 ∧ (pa + offset) mod 4096 = 0) as [Hv0 Hp0].
  { split; by apply mod_add_0. }
  assert (∀ a, walk (entry_at ts2) 2 root a = walk (entry_at ts) 2 root a) as Hw
    by (intros; by rewrite Hw2).
  eapply (finish_step ts ts2 k2 h' 0) in Hwr as [Hs' Heff]; try done; try lia.
  exists k2, 0%nat. split_and!; (done || lia).
Qed.

Lemma range_mapped_app ts1 ts2 ts3 offset n :
  0 ≤ offset → 0 ≤ n → range_mapped root ts1 ts2 va pa offset mode user →
  range_mapped root ts2 ts3 (va + offset) (pa + offset) n mode user →
  range_mapped root ts1 ts3 va pa (offset + n) mode user.
Proof.
  intros Ho Hn H1 H2 a Ha. specialize (H1 a Ha). specialize (H2 a Ha).
  destruct (decide (va + offset ≤ a < va + offset + n)).
  - rewrite decide_True by lia.
    by replace (pa + (a - va)) with (pa + offset + (a - (va + offset))) by lia.
  - destruct (decide (va ≤ a < va + offset)).
    + rewrite decide_True by lia. unfold maps_to in *. by rewrite H2.
    + rewrite decide_False by lia. by rewrite H2.
Qed.

Lemma span_mod l : (l ≤ 2)%nat → 0 < span l ∧ span l mod 4096 = 0.
Proof. intros. by destruct l as [|[|[|]]]; [| | |lia]. Qed.

Lemma map_loop_ok fuel ts0 ts k h offset ts' h' :
  space_ok root ts k h → 0 ≤ offset ≤ size → offset mod 4096 = 0 →
  range_mapped root ts0 ts va pa offset mode user →
  map_loop fuel root va pa size mode user ts h offset = Ret (ts', h') →
  ∃ k', space_ok root ts' k' h' ∧ range_mapped root ts0 ts' va pa size mode user.
Proof.
  revert ts k h offset. induction fuel as [|fuel IH]; intros ts k h offset Hs Ho Hom Hr Hlp;
    cbn [map_loop] in Hlp; destruct (Z.ltb_spec offset size) as [Hlt|Hge]; try done.
  - simplify_eq. exists k. replace size with offset by lia. done.
  - apply bind_Ret in Hlp as ([[n ts1] h1] & Hst & Hlp).
    apply (map_step_ok ts k) in Hst as (k1 & l & Hs1 & Hl & -> & Hle & Hr1); [|done|lia|done].
    apply bind_Ret in Hlp as (o & [-> _]%add_Ret & Hlp).
    destruct (span_mod l Hl) as [Hsp0 Hspm].
    apply (IH ts1 k1 h1 (offset + span l)); [done|lia|by apply mod_add_0| |done].
    eapply (range_mapped_app ts0 ts); (done || lia).
  - simplify_eq. exists k. replace size with offset by lia. done.
Qed.
End space.

(** ** [walk_to_entry] against the hardware walk *)
Section queries.
Context (p : RootPageTableHolder) (k : gmap Z (list Z)).
Context (Hok : tree_ok (root_table p) (tables p) k).

Abbreviation hw a := (walk (entry_at (tables p)) 2 (root_table p) a).

(** A walk that has reached the table of level [l] for [a]. *)
Lemma walk_at l t a : (l ≤ 2)%nat → k !! t = Some (table_path l a) →
  hw a = walk (entry_at (tables p)) l t a.
Proof.
  intros Hl Hk. rewrite (walk_linked _ _ (table_path l a) t).
  - rewrite table_path_length by done. by replace (2 - (2 - l))%nat with l by lia.
  - by apply (t_linked _ _ _ Hok).
  - apply prefix_take.
  - rewrite table_path_length by done. lia.
Qed.

(** The three cases of an entry on the way. *)
Lemma entry_cases l t a : (l ≤ 2)%nat → k !! t = Some (table_path l a) →
  let e := entry_at (tables p) t (vpn l a) in
  (vbit e = false ∧ hw a = None) ∨
  (leaf e ∧ hw a = Some (e, l)) ∨
  (∃ l' t', l = S l' ∧ is_ptr e t' ∧ k !! t' = Some (table_path l' a) ∧ 0 < t').
Proof.
  intros Hl Hk e. destruct (t_entry _ _ _ Hok t _ (vpn l a) Hk) as [_ He]. fold e in He.
  destruct He as [He|[Hf|(t' & Hp & Hlen & Hk')]].
  - left. split; [by rewrite He|]. rewrite (walk_at l t a) by done.
    destruct l; cbn [walk]; fold e; by rewrite He.
  - right; left. split; [done|]. rewrite (walk_at l t a) by done.
    pose proof (leaf_xwr _ Hf). destruct Hf as [Hv _].
    destruct l; cbn [walk]; fold e; rewrite Hv; simpl;
      by rewrite (proj2 (Z.eqb_neq _ _)).
  - right; right. rewrite table_path_length in Hlen by done.
    destruct l as [|l']; [lia|]. exists l', t'. rewrite table_path_S in Hk' by lia.
    pose proof (t_addr _ _ _ Hok _ _ Hk'). repeat (split; [done|]). lia.
Qed.

Lemma walk_to_entry_eq a : 0 ≤ a →
  match hw a with
  | None => walk_to_entry p a = Ret None
  | Some (e, O) => ∃ t, walk_to_entry p a = Ret (Some (t, e)) ∧
      k !! t = Some (table_path 0 a) ∧ e = entry_at (tables p) t (vpn 0 a)
  | Some (_, S _) => walk_to_entry p a = Panic
  end.
Proof.
  intros Ha. unfold walk_to_entry.
  assert (∀ t s, k !! t = Some s → is_Some (tables p !! t)) as Hd.
  { intros t s Ht. apply (t_dom _ _ _ Hok). eauto. }
  assert (∀ e, leaf e → target_page_table e = Panic) as Hpan.
  { intros e Hf. destruct (target_page_table e) as [t|] eqn:Ht; [|done].
    apply target_page_table_inv in Ht as [? _]. by apply leaf_xwr in Hf. }
  pose proof (t_root _ _ _ Hok) as H2.
  rewrite (read_entry_at _ _ a 2) by (eauto || lia). bstep. rewrite get_validity_Ret. bstep.
  destruct (entry_cases 2 _ a ltac:(lia) H2)
    as [[Hv ->]|[[Hf ->]|(l1 & t1 & [= <-] & Hp1 & Hk1 & Hp1')]]; [by rewrite Hv| |].
  { rewrite (proj1 Hf), Hpan by done. done. }
  rewrite (proj1 Hp1), (target_page_table_ptr _ _ Hp1) by lia. bstep.
  rewrite (read_entry_at _ _ a 1) by (eauto || lia). bstep. rewrite get_validity_Ret. bstep.
  destruct (entry_cases 1 _ a ltac:(lia) Hk1)
    as [[Hv ->]|[[Hf ->]|(l0 & t0 & [= <-] & Hp0 & Hk0 & Hp0')]]; [by rewrite Hv| |].
  { rewrite (proj1 Hf), Hpan by done. done. }
  rewrite (proj1 Hp0), (target_page_table_ptr _ _ Hp0) by lia. bstep.
  rewrite (read_entry_at _ _ a 0) by (eauto || lia). bstep. rewrite get_validity_Ret. bstep.
  destruct (entry_cases 0 _ a ltac:(lia) Hk0) as [[Hv ->]|[[Hf ->]|(? & ? & ? & _)]];
    [by rewrite Hv| |done].
  rewrite (proj1 Hf). eauto.
Qed.
End queries.

(** ** Walks depend on the page only *)
Lemma walk_ext E l t a b : (∀ i, (i ≤ l)%nat → vpn i a = vpn i b) →
  walk E l t a = walk E l t b.
Proof.
  revert t. induction l as [|l IH]; intros t Hv; cbn [walk]; rewrite (Hv _ ltac:(done)); [done|].
  rewrite IH; [done|]. intros. apply Hv. lia.
Qed.

Lemma walk_same_leaf E l t a b e l' : walk E l t a = Some (e, l') →
  (∀ i, (l' ≤ i ≤ l)%nat → vpn i a = vpn i b) → walk E l t b = Some (e, l').
Proof.
  revert t. induction l as [|l IH]; intros t Hw Hv; cbn [walk] in Hw |- *.
  - destruct (vbit (E t (vpn 0 a))) eqn:Hvb; [|done]. simpl in Hw.
    destruct (xwr_bits (E t (vpn 0 a)) =? 0) eqn:Hx; [done|]. simpl in Hw. simplify_eq.
    rewrite <-(Hv 0%nat ltac:(lia)), Hvb, Hx. done.
  - destruct (vbit (E t (vpn (S l) a))) eqn:Hvb; [|done]. simpl in Hw.
    assert (l' ≤ S l)%nat as Hle.
    { clear -Hw. destruct (xwr_bits _ =? 0); simpl in Hw; simplify_eq; [|done].
      enough (l' ≤ l)%nat by lia. revert Hw. generalize (ppn (E t (vpn (S l) a)) * 4096).
      clear t. induction l as [|l IH]; intros t; cbn [walk]; repeat case_match; intros; simplify_eq;
        [lia|lia|]. enough (l' ≤ l)%nat by lia. eauto. }
    rewrite <-(Hv (S l) ltac:(lia)), Hvb. simpl.
    destruct (xwr_bits (E t (vpn (S l) a)) =? 0); [|done]. simpl in *.
    apply IH; [done|]. intros. apply Hv. lia.
Qed.

Lemma vpn_same_page l i a b : (l ≤ i)%nat → a / span l = b / span l → vpn i a = vpn i b.
Proof.
  intros Hi Hab. unfold vpn. f_equal.
  replace (2 ^ (12 + 9 * Z.of_nat i)) with (span l * 2 ^ (9 * Z.of_nat (i - l))).
  - assert (0 < span l) by (apply Z.pow_pos_nonneg; lia).
    assert (0 < 2 ^ (9 * Z.of_nat (i - l))) by (apply Z.pow_pos_nonneg; lia).
    rewrite <-!Z.div_div by lia. by rewrite Hab.
  - unfold span. rewrite <-Z.pow_add_r by lia. f_equal. lia.
Qed.

(** ** The checks on user pointers *)

(** [a] is user memory with the wanted right, in a 4 KiB page. *)
Definition user_access (p : RootPageTableHolder) (writable : bool) (a : Z) : Prop :=
  ∃ e m, walk (entry_at (tables p)) 2 (root_table p) a = Some (e, O) ∧
    xwr_from_u8 (xwr_bits e) = Ret m ∧ ubit e = true ∧
    (m = ReadWrite ∨ (writable = false ∧ (m = ReadOnly ∨ m = ReadExecute))).

Lemma user_access_page p w a b : a / 4096 = b / 4096 → user_access p w a → user_access p w b.
Proof.
  intros Hab (e & m & Hw & Hr). exists e, m. split; [|done]. rewrite <-Hw. symmetry.
  apply walk_ext. intros i _. apply (vpn_same_page 0); [lia|done].
Qed.

Section validate.
Context (p : RootPageTableHolder) (k : gmap Z (list Z)).
Context (Hok : tree_ok (root_table p) (tables p) k).

Lemma hw_leaf a e l : walk (entry_at (tables p)) 2 (root_table p) a = Some (e, l) → vbit e = true.
Proof.
  generalize 2%nat, (root_table p). induction n as [|n IH]; intros t; cbn [walk];
    destruct (vbit (entry_at (tables p) t _)) eqn:Hv; simpl; try done;
    case_match; simpl; intros; simplify_eq; eauto.
Qed.

Lemma user_page_ok_iff w a : 0 ≤ a → user_page_ok p w a = Ret true ↔ user_access p w a.
Proof.
  intros Ha. pose proof (walk_to_entry_eq p k Hok a Ha) as Hw.
  unfold user_page_ok, user_access.
  destruct (walk (entry_at (tables p)) 2 (root_table p) a) as [[e [|l]]|] eqn:Hhw.
  - destruct Hw as (t & -> & _). bstep. rewrite get_xwr_mode_eq, get_validity_Ret,
      get_user_mode_accessible_Ret. apply hw_leaf in Hhw as Hv. rewrite Hv. bstep. split.
    + intros H. inv_outcome. destruct (ubit e) eqn:Hu; simpl in H; [|done].
      exists e, r. split_and!; [done..|].
      destruct r; repeat case_bool_decide; simplify_eq/=; destruct w; naive_solver.
    + intros (e' & m & ? & Hx & Hu & Hm). simplify_eq. rewrite Hx, Hu. bstep.
      destruct Hm as [->|[-> [->| ->]]]; simpl; try done. by rewrite andb_false_r.
  - rewrite Hw. split; [done|]. intros (? & ? & ? & _). done.
  - rewrite Hw. split; [done|]. intros (? & ? & ? & _). done.
Qed.

Lemma user_pages_ok_iff w n a : 0 ≤ a → a + Z.of_nat n * 4096 < 2 ^ 64 →
  user_pages_ok p w n a = Ret true ↔
    ∀ i : nat, (i ≤ n)%nat → user_access p w (a + Z.of_nat i * 4096).
Proof.
  revert a. induction n as [|n IH]; intros a Ha Hb; cbn [user_pages_ok].
  - transitivity (user_page_ok p w a = Ret true).
    { destruct (user_page_ok p w a); by simpl. }
    rewrite user_page_ok_iff by done. split.
    + intros H i Hi. by replace (a + Z.of_nat i * 4096) with a by lia.
    + intros H. specialize (H O ltac:(lia)). by rewrite Z.add_0_r in H.
  - assert (add 64 a PAGE_SIZE = Ret (a + 4096)) as Hadd.
    { apply add_Ret. unfold PAGE_SIZE. lia. }
    transitivity (user_page_ok p w a = Ret true ∧ user_pages_ok p w n (a + 4096) = Ret true).
    { destruct (user_page_ok p w a) as [[]|]; bstep; [rewrite Hadd; bstep| |]; naive_solver. }
    rewrite user_page_ok_iff, IH by lia. split.
    + intros [H0 H1] i Hi. destruct i as [|i]; [by rewrite Z.add_0_r|].
      replace (a + Z.of_nat (S i) * 4096) with (a + 4096 + Z.of_nat i * 4096) by lia.
      apply H1. lia.
    + intros H. split; [|intros i Hi].
      * specialize (H O ltac:(lia)). by rewrite Z.add_0_r in H.
      * replace (a + 4096 + Z.of_nat i * 4096) with (a + Z.of_nat (S i) * 4096) by lia.
        apply H. lia.
Qed.

Lemma fat_ptr_valid_iff start elem len w : in_width 64 start → 0 ≤ elem → 0 ≤ len →
  is_valid_userspace_fat_ptr p start elem len w = Ret true ↔
    elem * len < 2 ^ 64 ∧ start + elem * len ≤ 2 ^ 64 ∧
    ∀ b, start ≤ b < start + elem * len → user_access p w b.
Proof.
  intros [Hs0 Hs] He Hl. unfold is_valid_userspace_fat_ptr, checked_mul, checked_add.
  destruct (Z.ltb_spec (elem * len) (2 ^ 64)) as [Hm|Hm]; [|split; [done|lia]].
  destruct (Z.eqb_spec (elem * len) 0) as [H0|H0].
  { split; [|done]. intros _. split_and!; [lia|lia|]. intros b Hb. lia. }
  assert (0 ≤ elem * len) by nia.
  destruct (Z.ltb_spec (start + (elem * len - 1)) (2 ^ 64)) as [Ho|Ho]; [|split; [done|lia]].
  set (last := start + (elem * len - 1)).
  change (PAGE_SIZE - 1) with 4095. rewrite !land_bitnot_page by (split; lia).
  replace ((last / 4096 * 4096 - start / 4096 * 4096) / PAGE_SIZE)
    with (last / 4096 - start / 4096)
    by (unfold PAGE_SIZE; rewrite <-Z.mul_sub_distr_r, Z.div_mul; lia).
  assert (start / 4096 ≤ last / 4096) by (apply Z.div_le_mono; lia).
  assert (0 ≤ start / 4096) by (apply Z.div_pos; lia).
  pose proof (Z.mul_div_le last 4096 ltac:(lia)).
  rewrite user_pages_ok_iff by lia. split.
  - intros Hall. split_and!; [lia|lia|]. intros b Hb.
    assert (start / 4096 ≤ b / 4096 ≤ last / 4096) by (split; apply Z.div_le_mono; lia).
    eapply user_access_page; [|apply (Hall (Z.to_nat (b / 4096 - start / 4096))); lia].
    rewrite <-Z.mul_add_distr_r, Z.div_mul by lia. lia.
  - intros (_ & _ & Hall) i Hi.
    set (b := Z.max start (start / 4096 * 4096 + Z.of_nat i * 4096)).
    apply (user_access_page p w b).
    + subst b. pose proof (Z.mul_div_le start 4096 ltac:(lia)).
      pose proof (Z.mul_succ_div_gt start 4096 ltac:(lia)).
      rewrite <-Z.mul_add_distr_r, Z.div_mul by lia.
      symmetry. apply (Z.div_unique_pos _ _ _ (Z.max (start - start / 4096 * 4096
        - Z.of_nat i * 4096) 0)); lia.
    + apply Hall. subst b. pose proof (Z.mul_div_le start 4096 ltac:(lia)).
      pose proof (Z.mul_div_le last 4096 ltac:(lia)). subst last. lia.
Qed.
End validate.
