(* ===== verification/AddressSpaceOps.v ===== *)
(** The operations on a mapped range ([unmap_userspace], [mprotect],
    [remap_page]), progress of [map], and the theorems about address spaces. *)
From S2P Require Import Prelude Headers KUtil PTE PageAllocator Heap PageTables Sv39 AddressSpace.

#[local] Opaque walk.

Abbreviation hw_walk p a := (walk (entry_at (tables p)) 2 (root_table p) a).

(** ** [unmap_userspace] *)
Lemma is_leaf_leaf e : leaf e → is_leaf e = Ret true.
Proof.
  intros (_ & m & Hm & Hne). unfold is_leaf. rewrite get_xwr_mode_eq, Hm. bstep.
  by rewrite bool_decide_false.
Qed.
Lemma is_leaf_ptr e t : is_ptr e t → is_leaf e = Ret false.
Proof. intros (_ & Hx & _). unfold is_leaf. by rewrite get_xwr_mode_eq, Hx. Qed.

Lemma unmap_step_ok root ts k a e l :
  tree_ok root ts k → 0 ≤ a < 2 ^ 39 → walk (entry_at ts) 2 root a = Some (e, l) →
  ∃ ts', (l ≤ 2)%nat ∧ unmap_step root a ts = Ret (span l, ts') ∧ tree_ok root ts' k ∧
    ∀ b, 0 ≤ b < 2 ^ 39 → walk (entry_at ts') 2 root b =
      if decide (b / span l = a / span l) then None else walk (entry_at ts) 2 root b.
Proof.
  intros Hok Ha Hw. unfold unmap_step.
  pose proof (entry_cases (Holder root ts []) k Hok) as Hcase. cbn [root_table tables] in Hcase.
  assert (∀ l t, (l ≤ 2)%nat → k !! t = Some (table_path l a) →
    leaf (entry_at ts t (vpn l a)) → ∃ ts', write_entry ts t a (Z.of_nat l) 0 = Ret ts' ∧
      tree_ok root ts' k ∧ ∀ b, 0 ≤ b < 2 ^ 39 → walk (entry_at ts') 2 root b =
        if decide (b / span l = a / span l) then None else walk (entry_at ts) 2 root b) as Hwr.
  { intros l0 t Hl Hk Hf. apply (write_entry_ok root ts k Hok); try done; [|by left].
    intros t'. by apply leaf_not_ptr. }
  assert (∀ t s, k !! t = Some s → is_Some (ts !! t)) as Hd.
  { intros t s Ht. apply (t_dom _ _ _ Hok). eauto. }
  pose proof (t_root _ _ _ Hok) as H2.
  rewrite (read_entry_at _ _ a 2) by (eauto || lia). bstep. rewrite get_validity_Ret. bstep.
  destruct (Hcase 2%nat _ a ltac:(lia) H2)
    as [[_ ?]|[[Hf He]|(l1 & t1 & [= <-] & Hp1 & Hk1 & Hp1')]]; [congruence| |].
  { rewrite (proj1 Hf), is_leaf_leaf by done. bstep. rewrite Hw in He. simplify_eq.
    destruct (Hwr 2%nat root ltac:(lia) H2 Hf) as (ts' & Hts & ? & ?).
    change (Z.of_nat 2) with 2 in Hts. rewrite Hts. bstep. by exists ts'. }
  rewrite (proj1 Hp1), (is_leaf_ptr _ _ Hp1). bstep.
  rewrite (target_page_table_ptr _ _ Hp1) by lia. bstep.
  rewrite (read_entry_at _ _ a 1) by (eauto || lia). bstep. rewrite get_validity_Ret. bstep.
  destruct (Hcase 1%nat _ a ltac:(lia) Hk1)
    as [[_ ?]|[[Hf He]|(l0 & t0 & [= <-] & Hp0 & Hk0 & Hp0')]]; [congruence| |].
  { rewrite (proj1 Hf), is_leaf_leaf by done. bstep. rewrite Hw in He. simplify_eq.
    destruct (Hwr 1%nat t1 ltac:(lia) Hk1 Hf) as (ts' & Hts & ? & ?).
    change (Z.of_nat 1) with 1 in Hts. rewrite Hts. bstep. exists ts'.
    split; [lia|]. done. }
  rewrite (proj1 Hp0), (is_leaf_ptr _ _ Hp0). bstep.
  rewrite (target_page_table_ptr _ _ Hp0) by lia. bstep.
  rewrite (read_entry_at _ _ a 0) by (eauto || lia). bstep. rewrite get_validity_Ret. bstep.
  destruct (Hcase 0%nat _ a ltac:(lia) Hk0) as [[_ ?]|[[Hf He]|(? & ? & ? & _)]];
    [congruence| |done].
  rewrite (proj1 Hf). bstep. rewrite Hw in He. simplify_eq.
  destruct (Hwr 0%nat t0 ltac:(lia) Hk0 Hf) as (ts' & Hts & ? & ?).
    change (Z.of_nat 0) with 0 in Hts. rewrite Hts. bstep. exists ts'.
  split; [lia|]. done.
Qed.

(** Every address of [va, va + n) is mapped, by leaves inside the range. *)
Definition covered (root : Z) (ts : gmap Z table) (va n : Z) : Prop :=
  ∀ a, va ≤ a < va + n → ∃ e l, walk (entry_at ts) 2 root a = Some (e, l) ∧
    va ≤ a / span l * span l ∧ (a / span l + 1) * span l ≤ va + n.

Section unmap.
Context (root va size n : Z) (ts0 : gmap Z table) (k : gmap Z (list Z)).
Context (Hva : 0 ≤ va) (Hend : va + n ≤ 2 ^ 39) (Hcov : covered root ts0 va n).
Context (Hn : n mod 4096 = 0) (Hsize : n - 4096 < size ≤ n).

(** The next page to unmap starts a leaf. *)
Lemma next_leaf_aligned ts offset e l :
  0 ≤ offset < n → (l ≤ 2)%nat →
  (∀ a, 0 ≤ a < 2 ^ 39 → walk (entry_at ts) 2 root a =
     if decide (va ≤ a < va + offset) then None else walk (entry_at ts0) 2 root a) →
  walk (entry_at ts0) 2 root (va + offset) = Some (e, l) →
  va ≤ (va + offset) / span l * span l → (va + offset) mod span l = 0.
Proof.
  intros Ho Hl Hst Hw Hin. destruct (span_mod l Hl) as [Hs _].
  pose proof (Z.div_mod (va + offset) (span l)). pose proof (Z.mod_pos_bound (va + offset) (span l)).
  destruct (decide ((va + offset) mod span l = 0)); [done|exfalso].
  set (s := (va + offset) / span l * span l) in *.
  assert (va ≤ s < va + offset) as Hs2 by lia.
  pose proof (Hst s ltac:(lia)) as H1. rewrite decide_True in H1 by done.
  pose proof (Hst (va + offset) ltac:(lia)) as H2. rewrite decide_False in H2 by lia.
  rewrite Hw in H2. eapply (walk_same_leaf _ _ _ _ s) in H2; [congruence|].
  intros i Hi. apply (vpn_same_page l); [lia|]. unfold s. by rewrite Z.div_mul by lia.
Qed.

Lemma unmap_loop_ok fuel ts offset :
  tree_ok root ts k → 0 ≤ offset ≤ n → offset mod 4096 = 0 →
  n - offset ≤ Z.of_nat fuel * 4096 →
  (∀ a, 0 ≤ a < 2 ^ 39 → walk (entry_at ts) 2 root a =
     if decide (va ≤ a < va + offset) then None else walk (entry_at ts0) 2 root a) →
  ∃ ts', unmap_loop fuel root va size ts offset = Ret ts' ∧ tree_ok root ts' k ∧
    ∀ a, 0 ≤ a < 2 ^ 39 → walk (entry_at ts') 2 root a =
      if decide (va ≤ a < va + n) then None else walk (entry_at ts0) 2 root a.
Proof.
  revert ts offset. induction fuel as [|fuel IH]; intros ts offset Hok Ho Hom Hf Hst; cbn [unmap_loop].
  { assert (offset = n) as -> by lia. rewrite (proj2 (Z.ltb_ge _ _)) by lia. eauto. }
  destruct (Z.ltb_spec offset size) as [Hlt|Hge].
  2: { assert (offset = n) as ->; [|eauto].
       apply Z.mod_divide in Hn as [c ->], Hom as [d ->]; lia. }
  unfold addr_add. rewrite (proj2 (add_Ret 64 va offset (va + offset))) by lia. bstep.
  destruct (Hcov (va + offset) ltac:(lia)) as (e & l & Hw & Hin1 & Hin2).
  destruct (unmap_step_ok root ts k (va + offset) e l Hok ltac:(lia)) as (ts1 & Hl & -> & Hok1 & Heff).
  { by rewrite Hst, decide_False by lia. }
  bstep. pose proof (next_leaf_aligned ts offset e l ltac:(lia) Hl Hst Hw Hin1) as Hal.
  destruct (span_mod l Hl) as [Hs Hsm].
  assert (va + offset + span l ≤ va + n).
  { apply Z.mod_divide in Hal as [c Hc]; [|lia]. rewrite Hc, Z.div_mul in Hin2 by lia. lia. }
  rewrite (proj2 (add_Ret 64 offset (span l) (offset + span l))) by lia. bstep.
  apply (IH ts1 (offset + span l)); [done|lia|by apply mod_add_0| |].
  - enough (4096 ≤ span l) by lia. apply Z.mod_divide in Hsm as [c Hc]; lia.
  - intros a Ha. rewrite Heff, Hst by done. pose proof (same_page_interval l (va + offset) a Hal).
    repeat case_decide; (done || lia).
Qed.
End unmap.

Lemma position_of_Some va l i : position_of va l = Some i →
  ∃ m, l !! i = Some m ∧ range_start m = va.
Proof. intros (m & Hm & ?%Z.eqb_eq)%position_Some. by exists m. Qed.

Lemma position_of_elem va l : (∃ m, m ∈ l ∧ range_start m = va) → is_Some (position_of va l).
Proof. intros (m & Hm & Hs). apply (position_elem _ _ m); [done|by apply Z.eqb_eq]. Qed.

(** ** Rewriting the leaf of one page *)
Lemma set_xwr_mode_ok e m : in_width 64 e →
  ∃ e', set_xwr_mode e m = Ret e' ∧ in_width 64 e' ∧ vbit e' = vbit e ∧
    xwr_bits e' = xwr_as_u8 m ∧ ppn e' = ppn e ∧ ubit e' = ubit e.
Proof.
  intros He. destruct (set_xwr_Ret e m) as [e' H1]. exists e'.
  pose proof (λ i, testbit_set_xwr e He m e' i H1) as B.
  split_and!; [done|by eapply set_xwr_in_width| |by eapply xwr_bits_set| |].
  - unfold vbit. by rewrite B.
  - apply ppn_ext. intros i Hi. by rewrite B, bool_decide_false by lia.
  - unfold ubit. by rewrite B.
Qed.

Lemma leaf_with_mode e m : m ≠ PointerToNextLevel → vbit e = true →
  xwr_bits e = xwr_as_u8 m → leaf e.
Proof. intros Hm Hv Hx. split; [done|]. exists m. by rewrite Hx, xwr_from_as. Qed.

(** The page table after the entry of page [a] was replaced by [e']. *)
Lemma replace_page root ts k t a e' :
  tree_ok root ts k → 0 ≤ a < 2 ^ 39 → k !! t = Some (table_path 0 a) →
  leaf (entry_at ts t (vpn 0 a)) → in_width 64 e' → leaf e' →
  ∃ ts', write_entry ts t a 0 e' = Ret ts' ∧ tree_ok root ts' k ∧
    ∀ b, 0 ≤ b < 2 ^ 39 → walk (entry_at ts') 2 root b =
      if decide (b / 4096 = a / 4096) then Some (e', O) else walk (entry_at ts) 2 root b.
Proof.
  intros Hok Ha Hk Hf Hw Hf'.
  destruct (write_entry_ok root ts k Hok 0 t a e') as (ts' & Hwr & Hok' & Heff);
    [lia|done|done|intros t'; by apply leaf_not_ptr|done|by right|].
  exists ts'. split; [done|]. split; [done|]. intros b Hb. rewrite Heff by done.
  by rewrite (proj1 Hf').
Qed.

(** The leaf a walk found, in its table. *)
Lemma walk_to_page p k a e : tree_ok (root_table p) (tables p) k → 0 ≤ a →
  hw_walk p a = Some (e, O) →
  ∃ t, walk_to_entry p a = Ret (Some (t, e)) ∧ k !! t = Some (table_path 0 a) ∧
    e = entry_at (tables p) t (vpn 0 a) ∧ in_width 64 e ∧ leaf e.
Proof.
  intros Hok Ha Hw. pose proof (walk_to_entry_eq p k Hok a Ha) as H. rewrite Hw in H.
  destruct H as (t & Ht & Hk & ->). exists t. split; [done|]. split; [done|].
  split; [done|]. split; [apply (t_entry _ _ _ Hok t _ (vpn 0 a) Hk)|].
  destruct (entry_cases p k Hok 0 t a ltac:(lia) Hk) as [[_ H]|[[H _]|(? & ? & ? & _)]];
    [congruence|apply H|done].
Qed.

Lemma mprotect_page_ok p k mode a e :
  tree_ok (root_table p) (tables p) k → mode ≠ PointerToNextLevel → 0 ≤ a < 2 ^ 39 →
  hw_walk p a = Some (e, O) →
  ∃ p' e', mprotect_page mode p a = Ret p' ∧ root_table p' = root_table p ∧
    already_mapped p' = already_mapped p ∧ tree_ok (root_table p') (tables p') k ∧
    xwr_bits e' = xwr_as_u8 mode ∧ ppn e' = ppn e ∧ ubit e' = ubit e ∧
    ∀ b, 0 ≤ b < 2 ^ 39 → hw_walk p' b =
      if decide (b / 4096 = a / 4096) then Some (e', O) else hw_walk p b.
Proof.
  intros Hok Hm Ha Hw. unfold mprotect_page.
  destruct (walk_to_page p k a e Hok ltac:(lia) Hw) as (t & -> & Hk & He & Hwid & Hf). bstep.
  destruct (set_xwr_mode_ok e mode Hwid) as (e' & -> & Hw' & Hv & Hx & Hp & Hu). bstep.
  rewrite (proj1 Hf) in Hv.
  destruct (replace_page (root_table p) (tables p) k t a e') as (ts' & -> & Hok' & Heff);
    [done|done|done|by rewrite <-He|done|by eapply leaf_with_mode|].
  bstep. exists (with_tables p ts'), e'. done.
Qed.

Lemma remap_page_ok p k mode va q e :
  tree_ok (root_table p) (tables p) k → mode ≠ PointerToNextLevel → 0 ≤ va < 2 ^ 39 →
  va mod 4096 = 0 → 0 ≤ q < 2 ^ 56 → q mod 4096 = 0 → hw_walk p va = Some (e, O) →
  ∃ p' e', remap_page p va q mode = Ret p' ∧ root_table p' = root_table p ∧
    already_mapped p' = already_mapped p ∧ tree_ok (root_table p') (tables p') k ∧
    xwr_bits e' = xwr_as_u8 mode ∧ ppn e' * 4096 = q ∧ ubit e' = ubit e ∧
    ∀ b, 0 ≤ b < 2 ^ 39 → hw_walk p' b =
      if decide (b / 4096 = va / 4096) then Some (e', O) else hw_walk p b.
Proof.
  intros Hok Hm Ha Hva Hq Hqm Hw. unfold remap_page.
  rewrite (proj2 (is_page_aligned_mod va)) by done. bstep.
  destruct (walk_to_page p k va e Hok ltac:(lia) Hw) as (t & -> & Hk & He & Hwid & Hf). bstep.
  unfold set_leaf_address. rewrite (proj2 (is_page_aligned_mod q)) by done. bstep.
  assert (in_width 64 q) as Hqw by (split; lia).
  destruct (set_page_number e q) as [e1|] eqn:H1; [|by rewrite set_page_number_Ret in H1]. bstep.
  pose proof (set_page_number_in_width _ Hwid _ _ Hqw H1) as Hw1.
  pose proof (λ i, testbit_set_page_number e Hwid q e1 i Hqw H1) as B1.
  destruct (set_xwr_mode_ok e1 mode Hw1) as (e' & -> & Hw' & Hv & Hx & Hp & Hu). bstep.
  assert (vbit e' = true) as Hv'.
  { rewrite Hv. unfold vbit. rewrite B1, bool_decide_false by lia. apply Hf. }
  destruct (replace_page (root_table p) (tables p) k t va e') as (ts' & -> & Hok' & Heff);
    [done|done|done|by rewrite <-He|done|by eapply leaf_with_mode|].
  bstep. exists (with_tables p ts'), e'. repeat (split; [done|]). split; [|split; [|done]].
  - rewrite Hp, (ppn_set_page_number e q e1), ppn_of_addr by done. done.
  - rewrite Hu. unfold ubit. by rewrite B1, bool_decide_false by lia.
Qed.

(** ** [mprotect] *)
(** [p'] gives the pages of [va, va + n) the permissions [mode] and agrees with
    [p] on everything else. *)
Definition range_protected (p p' : RootPageTableHolder) (va n : Z) (mode : XWRMode) : Prop :=
  ∀ b, 0 ≤ b < 2 ^ 39 →
    if decide (va ≤ b < va + n)
    then ∃ e e', hw_walk p b = Some (e, O) ∧ hw_walk p' b = Some (e', O) ∧
           xwr_bits e' = xwr_as_u8 mode ∧ ppn e' = ppn e ∧ ubit e' = ubit e
    else hw_walk p' b = hw_walk p b.

Lemma mprotect_loop_ok p k mode va n :
  tree_ok (root_table p) (tables p) k → mode ≠ PointerToNextLevel →
  0 ≤ va → va mod 4096 = 0 → va + Z.of_nat n * 4096 ≤ 2 ^ 39 →
  (∀ a, va ≤ a < va + Z.of_nat n * 4096 → ∃ e, hw_walk p a = Some (e, O)) →
  ∃ p', foldM (λ p offset, a ← addr_add va offset; mprotect_page mode p a)
          ((λ k, k * PAGE_SIZE) <$> seqZ 0 (Z.of_nat n)) p = Ret p' ∧
    root_table p' = root_table p ∧ already_mapped p' = already_mapped p ∧
    tree_ok (root_table p') (tables p') k ∧
    range_protected p p' va (Z.of_nat n * 4096) mode.
Proof.
  intros Hok Hm Hva0 Hva. induction n as [|n IH]; intros Hend Hall.
  { exists p. repeat (split; [done|]). intros b Hb. by rewrite decide_False by lia. }
  destruct IH as (p1 & Hf & Hroot & Hal & Hok1 & Hr1); [lia|intros; apply Hall; lia|].
  replace (Z.of_nat (S n)) with (Z.of_nat n + 1) by lia.
  rewrite seqZ_snoc, fmap_app, foldM_app, Hf by lia. cbn [fmap list_fmap foldM].
  bstep. unfold addr_add. set (a := va + Z.of_nat n * 4096).
  rewrite (proj2 (add_Ret 64 va (Z.of_nat n * PAGE_SIZE) a)) by (unfold PAGE_SIZE; lia). bstep.
  destruct (Hall a ltac:(lia)) as [e He]. pose proof (Hr1 a ltac:(lia)) as Ha.
  rewrite decide_False in Ha by lia. rewrite He in Ha.
  destruct (mprotect_page_ok p1 k mode a e Hok1 Hm ltac:(lia) Ha)
    as (p2 & e' & -> & Hroot2 & Hal2 & Hok2 & Hx & Hp & Hu & Heff). bstep.
  exists p2. split; [done|]. split; [congruence|]. split; [congruence|]. split; [done|].
  assert (a mod 4096 = 0) as Ham by (apply mod_add_0; [done|by apply Z.mod_mul]).
  intros b Hb. rewrite Heff by done. specialize (Hr1 b Hb).
  pose proof (same_page_interval 0 a b Ham) as Hsp. change (span 0) with 4096 in Hsp.
  destruct (decide (b / 4096 = a / 4096)) as [Hab|Hab].
  - rewrite decide_True by lia. rewrite decide_False in Hr1 by lia.
    exists e, e'. split; [|done]. rewrite <-He. apply walk_ext.
    intros i _. by apply (vpn_same_page 0); [lia|].
  - destruct (decide (va ≤ b < va + Z.of_nat n * 4096)).
    + by rewrite decide_True by lia.
    + by rewrite decide_False by lia.
Qed.

(** ** Progress of [map] *)
Section progress.
Context {A : Type} `{!PageAllocatorTrait A} `{!PageAllocatorLaws A}.

Abbreviation free_of h := (pg_free (pages h)).

Lemma box_table_returns ts (k : gmap Z (list Z)) (h : heap A) :
  (∃ free small large runs, heap_inv h free small large runs) → (0 < free_of h)%nat →
  ∃ p h', box_table ts h = Ret (p, <[p := ∅]> ts, h') ∧ free_of h = S (free_of h').
Proof.
  intros (free & small & large & runs & Hi) Hf.
  pose proof (allocated_bound _ _ _ _ _ Hi) as Hb.
  destruct Hi as [_ _ _ _ (m & Hpg & _) _ _ _].
  destruct (pg_alloc_free (pages h) m Hpg Hf) as (p & q & a' & Ha & Hfr).
  destruct (pg_alloc_spec (pages h) m 1 Hpg ltac:(lia)) as (r & a2 & Ha2 & Hr).
  rewrite Ha in Ha2. simplify_eq. destruct Hr as (_ & Hp & _).
  unfold box_table, alloc. change (is_page_allocator_allocation table_layout) with true.
  change (minimum_amount_of_pages (layout_size table_layout)) with (Ret (A:=Z) 1). bstep.
  change (Z.to_nat 1) with 1%nat. rewrite Ha. bstep.
  change (mul 64 1 PAGE_SIZE) with (Ret (A:=Z) 4096). bstep. cbn [allocated_memory with_pages].
  rewrite (proj2 (add_Ret 64 (allocated_memory h) 4096 _)) by (split; [done|lia]). bstep.
  rewrite (proj2 (Z.eqb_neq _ _)) by lia. bstep. do 2 eexists. split; [done|]. done.
Qed.

Lemma next_table_returns root ts k (h : heap A) l t v :
  space_ok root ts k h → (l < 2)%nat → 0 ≤ v < 2 ^ 39 →
  k !! t = Some (table_path (S l) v) → walk (entry_at ts) 2 root v = None →
  (0 < free_of h)%nat →
  ∃ t' ts' h', next_table ts h t v (Z.of_nat (S l)) = Ret (t', ts', h') ∧
    (free_of h ≤ S (free_of h'))%nat.
Proof.
  intros [Hok Hheap] Hl Hv Hk Hw Hf. unfold next_table.
  destruct (proj2 (t_dom _ _ _ Hok t) ltac:(eauto)) as [tb Ht].
  rewrite read_entry_at by (eauto || lia). bstep. rewrite get_physical_address_Ret. bstep.
  destruct (entry_cases (Holder root ts []) k Hok (S l) t v ltac:(lia) Hk)
    as [[Hvb _]|[[_ ?]|(l' & t' & [= <-] & Hp & Hk' & Hpos)]]; cbn [root_table tables] in *;
    [|congruence|].
  - destruct (t_entry _ _ _ Hok t _ (vpn (S l) v) Hk) as [_ [He|[[? _]|(? & [? _] & _)]]];
      [|congruence..]. rewrite He. change (ppn 0 * 4096 =? 0) with true. cbn iota.
    assert (∃ free small large runs, heap_inv h free small large runs) as Hi.
    { destruct Hheap as (? & ? & ? & ? & ? & _). eauto. }
    destruct (box_table_returns ts k h Hi Hf) as (p & h' & Hb & Hfr). rewrite Hb. bstep.
    destruct (box_table_ok ts k h p _ h' Hheap Hb) as [_ [Hfresh [Hpa Hpm] _]].
    destruct (table_entry_ok p Hpa Hpm) as (e1 & e2 & -> & E2 & _ & Hp). bstep. rewrite E2. bstep.
    rewrite (write_entry_at _ t tb); [|rewrite lookup_insert_ne; [done|]|lia|lia].
    2: { intros ->. congruence. }
    bstep. rewrite (target_page_table_ptr e2 p) by (done || lia). bstep.
    do 3 eexists. split; [done|]. lia.
  - destruct Hp as (Hv1 & Hx & Hpt). rewrite Hpt, (proj2 (Z.eqb_neq _ _)) by lia. bstep.
    rewrite (target_page_table_ptr _ t') by (done || lia). bstep.
    do 3 eexists. split; [done|]. lia.
Qed.

Context (root va pa size : Z) (mode : XWRMode) (user : bool).
Context (Hva : 0 ≤ va) (Hpa : 0 ≤ pa) (Hend : va + size ≤ 2 ^ 39) (Hpend : pa + size ≤ 2 ^ 56).
Context (Hvm : va mod 4096 = 0) (Hpm : pa mod 4096 = 0) (Hsm : size mod 4096 = 0).
Context (Hmode : mode ≠ PointerToNextLevel) (Hsmall : size < span 1).

Lemma can_be_mapped_with_small n offset : size < n → 0 ≤ offset ≤ size →
  can_be_mapped_with va pa size n offset = Ret false.
Proof.
  intros Hn Ho. unfold can_be_mapped_with.
  rewrite (proj2 (sub_Ret size offset _)) by (split; [done|lia]). bstep.
  by rewrite (proj2 (Z.leb_gt _ _)) by lia.
Qed.

Lemma map_step_returns ts k (h : heap A) offset :
  space_ok root ts k h → 0 ≤ offset < size → offset mod 4096 = 0 → (2 ≤ free_of h)%nat →
  walk (entry_at ts) 2 root (va + offset) = None →
  ∃ ts' h', map_step root va pa size mode user ts h offset = Ret (4096, ts', h') ∧
    (free_of h ≤ 2 + free_of h')%nat.
Proof.
  intros Hs Ho Hom Hf Hw. unfold map_step, addr_add.
  change (GiB 1) with (Ret (span 2)). change (MiB 2) with (Ret (span 1)). bstep.
  pose proof span_values as (_ & Hs1 & Hs2).
  rewrite !can_be_mapped_with_small by lia. bstep.
  assert (∀ x y, 0 ≤ x → 0 ≤ y → x + y < 2 ^ 64 → add 64 x y = Ret (x + y)) as Hadd.
  { intros x y ???. by apply add_Ret. }
  rewrite (Hadd va offset) by lia. bstep.
  assert (is_aligned (va + offset) PAGE_SIZE = Ret true) as ->.
  { unfold is_aligned, umod. simpl. by rewrite mod_add_0. }
  bstep. rewrite (Hadd pa offset) by lia. bstep.
  assert (is_aligned (pa + offset) PAGE_SIZE = Ret true) as ->.
  { unfold is_aligned, umod. simpl. by rewrite mod_add_0. }
  bstep. pose proof (t_root _ _ _ (proj1 Hs)) as Hroot.
  destruct (next_table_returns root ts k h 1 root (va + offset)) as (t1 & ts1 & h1 & Hn1 & Hf1);
    [done|lia|lia|done|done|lia|]. change (Z.of_nat 2) with 2 in Hn1. rewrite Hn1. bstep.
  apply (next_table_ok root ts k h 1) in Hn1 as (k1 & Hsp1 & Hk1 & Hw1); [|done|lia|lia|done].
  destruct (next_table_returns root ts1 k1 h1 0 t1 (va + offset)) as (t0 & ts2 & h2 & Hn2 & Hf2);
    [done|lia|lia|done|by rewrite Hw1|lia|]. change (Z.of_nat 1) with 1 in Hn2. rewrite Hn2. bstep.
  apply (next_table_ok root ts1 k1 h1 0) in Hn2 as (k2 & Hsp2 & Hk2 & Hw2); [|done|lia|lia|done].
  assert (walk (entry_at ts2) 2 root (va + offset) = None) as Hnone by by rewrite Hw2, Hw1.
  destruct (proj2 (t_dom _ _ _ (proj1 Hsp2) t0) ltac:(eauto)) as [tb Ht].
  rewrite (read_entry_at _ _ _ 0) by (eauto || lia). bstep. rewrite get_validity_Ret. bstep.
  destruct (entry_cases (Holder root ts2 []) k2 (proj1 Hsp2) 0 t0 (va + offset) ltac:(lia) Hk2)
    as [[Hvb _]|[[_ ?]|(? & ? & ? & _)]]; cbn [root_table tables] in *; [|congruence|done].
  rewrite Hvb. bstep.
  destruct (install_leaf root ts2 k2 (proj1 Hsp2) 0 t0 (va + offset) (pa + offset) mode user)
    as (e & ts3 & -> & Hwr & _ & _); try done; try lia;
    [change (span 0) with 4096; apply Z.mod_divide in Hsm as [c ->], Hom as [d ->]; lia..
    |by apply mod_add_0|by apply mod_add_0|by apply not_valid_not_ptr|].
  bstep. change (Z.of_nat 0) with 0 in Hwr. rewrite Hwr. bstep.
  do 2 eexists. split; [done|]. lia.
Qed.

Lemma map_loop_returns fuel ts k (h : heap A) offset :
  space_ok root ts k h → 0 ≤ offset ≤ size → offset mod 4096 = 0 →
  size - offset ≤ Z.of_nat fuel * 4096 → (2 * fuel ≤ free_of h)%nat →
  (∀ a, va + offset ≤ a < va + size → walk (entry_at ts) 2 root a = None) →
  ∃ ts' h', map_loop fuel root va pa size mode user ts h offset = Ret (ts', h').
Proof.
  revert ts k h offset. induction fuel as [|fuel IH]; intros ts k h offset Hs Ho Hom Hfu Hf Hw;
    cbn [map_loop]; destruct (Z.ltb_spec offset size) as [Hlt|Hge]; eauto; [lia|].
  destruct (map_step_returns ts k h offset) as (ts1 & h1 & Hst & Hf1);
    [done|lia|done|lia|apply Hw; lia|]. rewrite Hst. bstep.
  apply (map_step_ok root va pa size mode user Hva Hpa Hend Hpend Hvm Hpm Hsm Hmode ts k)
    in Hst as (k1 & l & Hs1 & _ & _ & Hle & Hr); [|done|lia|done].
  rewrite (proj2 (add_Ret 64 offset 4096 _)) by (split; [done|lia]). bstep.
  apply (IH ts1 k1 h1 (offset + 4096)); [done|lia|by apply mod_add_0|lia|lia|].
  intros a Ha. specialize (Hr a ltac:(lia)). rewrite decide_False in Hr by lia.
  rewrite Hr. apply Hw. lia.
Qed.
End progress.

(** ** A new address space *)
Section theorems.
Context {A : Type} `{!PageAllocatorTrait A} `{!PageAllocatorLaws A}.

(** The invariant of an address space and the heap its tables live on. *)
Definition holder_ok (p : RootPageTableHolder) (h : heap A) : Prop :=
  ∃ k, space_ok (root_table p) (tables p) k h.

Lemma empty_holder_ok (h : heap A) free small large runs p h' :
  heap_inv h free small large runs → empty_holder h = Ret (p, h') →
  holder_ok p h' ∧ ∀ a, hw_walk p a = None.
Proof.
  intros Hi He. unfold empty_holder in He.
  apply bind_Ret in He as ([[root ts] h1] & Hb & He). simplify_eq.
  destruct (box_table_ok ∅ ∅ h root ts h') as [-> [_ [Ha Hm] Hh]]; [|done|].
  { exists free, small, large, runs. split; [done|]. intros a [? Hx]. by rewrite lookup_empty in Hx. }
  assert (∀ t i, entry_at {[root := ∅]} t i = 0) as He0.
  { intros t i. unfold entry_at. destruct (decide (t = root)) as [->|].
    - by rewrite lookup_singleton_eq, lookup_empty.
    - by rewrite lookup_singleton_ne. }
  split.
  - exists {[root := []]}. split; [|apply (Hh [])]. cbn [root_table tables].
    rewrite insert_empty. split.
    + by rewrite lookup_singleton_eq.
    + intros a. split; intros [? [<- _]%lookup_singleton_Some]; by rewrite lookup_singleton_eq.
    + intros a s [_ <-]%lookup_singleton_Some. simpl. lia.
    + by intros a s [<- _]%lookup_singleton_Some.
    + intros a s [<- <-]%lookup_singleton_Some. constructor.
    + intros a s x _. rewrite He0. split; [done|]. by left.
  - intros a. cbn [root_table tables]. rewrite insert_empty. Transparent walk.
    cbn [walk]. rewrite He0. done.
Qed.

(** ** [map] *)


(** [map] of less than 2 MiB succeeds when it should: on a page-aligned,
    non-null range that is not yet mapped, with enough free pages for the
    tables, it neither panics nor runs out of loop iterations. *)
Theorem map_returns (p : RootPageTableHolder) (h : heap A) va pa size n mode user nm :
  holder_ok p h → mode ≠ PointerToNextLevel → 0 < va → 0 ≤ pa → 0 < size →
  align_up size PAGE_SIZE = Ret n → va + n ≤ 2 ^ 39 → pa + n ≤ 2 ^ 56 →
  va mod 4096 = 0 → pa mod 4096 = 0 → n < 2097152 →
  existsb (λ m, contains m va (va + (n - 1))) (already_mapped p) = false →
  (∀ a, va ≤ a < va + n → hw_walk p a = None) →
  (2 * Z.to_nat (n / 4096) ≤ pg_free (pages h))%nat →
  ∃ p' h', map p h va pa size mode user nm = Ret (p', h').
Proof.
  intros [k Hs] Hm Hva Hpa Hsz Hn Hvn Hpn Hva4 Hpa4 Hsmall Hno Hfree Hpg. unfold map.
  rewrite (proj2 (is_page_aligned_mod va)), (proj2 (is_page_aligned_mod pa)) by done. bstep.
  rewrite (proj2 (Z.eqb_neq _ _)), (proj2 (Z.ltb_lt _ _)) by lia. bstep. rewrite Hn. bstep.
  apply align_up_inv in Hn as [Hn1 Hn2]; [|lia|done]. unfold PAGE_SIZE in Hn2.
  rewrite (proj2 (sub_Ret n 1 (n - 1))) by lia. bstep. unfold addr_add.
  rewrite (proj2 (add_Ret 64 va (n - 1) _)) by (split; [done|lia]). bstep.
  rewrite (proj2 (add_Ret 64 pa (n - 1) _)) by (split; [done|lia]). bstep.
  rewrite Hno. bstep.
  destruct (map_loop_returns (root_table p) va pa n mode user ltac:(lia) Hpa Hvn Hpn Hva4 Hpa4
    Hn2 Hm Hsmall (Z.to_nat (n / PAGE_SIZE)) (tables p) k h 0) as (ts' & h' & ->);
    [done|lia|done| |done|by rewrite Z.add_0_r|bstep; eauto].
  unfold PAGE_SIZE. pose proof (Z.div_mod n 4096). pose proof (Z.div_pos n 4096). lia.
Qed.
End theorems.

(** C7: [unmap_userspace] of a range whose leaves lie inside it returns, the
    range no longer translates, every other address translates as before, and
    exactly one bookkeeping entry (one that starts at the range) is removed. *)
Theorem unmap_userspace_correct (p : RootPageTableHolder) k va size n :
  tree_ok (root_table p) (tables p) k → 0 ≤ va → va mod 4096 = 0 → 0 < size →
  n mod 4096 = 0 → n - 4096 < size ≤ n → va + n ≤ 2 ^ 39 →
  covered (root_table p) (tables p) va n →
  (∃ m, m ∈ already_mapped p ∧ range_start m = va) →
  ∃ p' m, unmap_userspace p va size = Ret p' ∧ tree_ok (root_table p') (tables p') k ∧
    root_table p' = root_table p ∧
    range_start m = va ∧ m :: already_mapped p' ≡ₚ already_mapped p ∧
    ∀ a, 0 ≤ a < 2 ^ 39 → translate (root_table p') (tables p') a =
      if decide (va ≤ a < va + n) then None else translate (root_table p) (tables p) a.
Proof.
  intros Hok Hva Hva4 Hsz Hn Hns Hend Hcov Hm. unfold unmap_userspace.
  rewrite (proj2 (is_page_aligned_mod va)), (proj2 (Z.ltb_lt _ _)) by done. bstep.
  destruct (position_of_elem _ _ Hm) as [i Hi]. rewrite Hi. bstep.
  apply position_of_Some in Hi as (m & Hi & Hms).
  assert (n ≤ Z.of_nat (S (Z.to_nat (size / PAGE_SIZE))) * 4096).
  { unfold PAGE_SIZE. pose proof (Z.mul_succ_div_gt size 4096 ltac:(lia)).
    pose proof (Z.div_pos size 4096). apply Z.mod_divide in Hn as [c ->]; lia. }
  destruct (unmap_loop_ok (root_table p) va size n (tables p) k Hva Hend Hcov Hn Hns
    (S (Z.to_nat (size / PAGE_SIZE))) (tables p) 0) as (ts' & -> & Hok' & Heff);
    [done|lia|done|lia|by intros a Ha; rewrite decide_False by lia|].
  bstep. eexists _, m. split; [done|]. split; [done|]. split; [done|]. split; [done|].
  split; [by apply swap_remove_perm|]. cbn [root_table tables]. intros a Ha.
  unfold translate. rewrite Heff by done. by destruct (decide (va ≤ a < va + n)).
Qed.

(** [mprotect] of a range of mapped 4 KiB pages returns and changes the
    permission bits of exactly that range: physical addresses and user bits
    stay, and every other address translates as before. *)
Theorem mprotect_correct (p : RootPageTableHolder) k va n mode :
  tree_ok (root_table p) (tables p) k → mode ≠ PointerToNextLevel →
  0 ≤ va → va mod 4096 = 0 → (0 < n)%nat → va + Z.of_nat n * 4096 ≤ 2 ^ 39 →
  (∀ a, va ≤ a < va + Z.of_nat n * 4096 → ∃ e, hw_walk p a = Some (e, O)) →
  ∃ p', mprotect p va (Z.of_nat n * 4096) mode = Ret p' ∧
    tree_ok (root_table p') (tables p') k ∧
    ∀ a, 0 ≤ a < 2 ^ 39 → translate (root_table p') (tables p') a =
      if decide (va ≤ a < va + Z.of_nat n * 4096)
      then (λ '(q, _, u), (q, xwr_as_u8 mode, u)) <$> translate (root_table p) (tables p) a
      else translate (root_table p) (tables p) a.
Proof.
  intros Hok Hm Hva Hva4 Hn Hend Hall. unfold mprotect.
  rewrite (proj2 (is_page_aligned_mod va)) by done.
  rewrite (proj2 (Z.ltb_lt _ _)) by lia. unfold PAGE_SIZE at 1.
  rewrite Z.mod_mul by lia. bstep. unfold page_offsets.
  replace ((Z.of_nat n * 4096 + PAGE_SIZE - 1) / PAGE_SIZE) with (Z.of_nat n).
  2: { unfold PAGE_SIZE. apply (Z.div_unique_pos _ _ _ 4095); lia. }
  destruct (mprotect_loop_ok p k mode va n Hok Hm Hva Hva4 Hend Hall)
    as (p' & -> & Hroot & _ & Hok' & Hr). bstep.
  eexists. split; [done|]. cbn [with_mapped root_table tables]. split; [done|].
  intros a Ha. specialize (Hr a Ha). unfold translate.
  destruct (decide (va ≤ a < va + Z.of_nat n * 4096)).
  - destruct Hr as (e & e' & -> & -> & Hx & Hp & Hu). simpl. rewrite Hx, Hp, Hu.
    by rewrite Z.mod_1_r.
  - by rewrite Hr.
Qed.

(** ** Validation of user pointers *)
Lemma translate_userspace_eq p k a : tree_ok (root_table p) (tables p) k → in_width 64 a →
  translate_userspace_address_to_physical_address p a =
    match hw_walk p a with
    | None => Ret None
    | Some (e, O) => Ret (if ubit e then Some (ppn e * 4096 + a mod 4096) else None)
    | Some (_, S _) => Panic
    end.
Proof.
  intros Hok [Ha0 Ha]. pose proof (walk_to_entry_eq p k Hok a Ha0) as Hw.
  unfold translate_userspace_address_to_physical_address, is_userspace_address.
  destruct (hw_walk p a) as [[e [|l]]|] eqn:Hhw.
  - destruct Hw as (t & -> & _). bstep. rewrite get_validity_Ret. bstep.
    rewrite (hw_leaf p a e 0 Hhw), get_user_mode_accessible_Ret. bstep.
    destruct (ubit e); bstep; [|done]. rewrite get_physical_address_Ret. bstep.
    pose proof (ppn_range e). pose proof (Z.mod_pos_bound a 4096). unfold addr_add, PAGE_SIZE.
    rewrite (proj2 (add_Ret 64 (ppn e * 4096) (a mod 4096) _)) by (split; [done|lia]). done.
  - by rewrite Hw.
  - by rewrite Hw.
Qed.


(** a user pointer into memory mapped by a 2 MiB or 1 GiB leaf (the kernel's
    own identity mapping uses them) is not rejected: the check panics. *)
Theorem superpage_pointer_panics p k ptr elem e l w :
  tree_ok (root_table p) (tables p) k → in_width 64 ptr → 0 < elem < 4096 →
  ptr + elem ≤ 2 ^ 64 →
  hw_walk p ptr = Some (e, S l) → validate_userspace p ptr elem 1 w = Panic.
Proof.
  intros Hok [Hp0 Hp] He Hov Hw. unfold validate_userspace.
  enough (is_valid_userspace_fat_ptr p ptr elem 1 w = Panic) as -> by done.
  unfold is_valid_userspace_fat_ptr, checked_mul, checked_add. rewrite Z.mul_1_r.
  rewrite (proj2 (Z.ltb_lt _ _)), (proj2 (Z.eqb_neq _ _)) by lia.
  rewrite (proj2 (Z.ltb_lt _ _)) by lia. change (PAGE_SIZE - 1) with 4095.
  rewrite (land_bitnot_page ptr) by (split; lia).
  assert (user_page_ok p w (ptr / 4096 * 4096) = Panic) as Hpan.
  { unfold user_page_ok. pose proof (Z.div_pos ptr 4096).
    pose proof (walk_to_entry_eq p k Hok (ptr / 4096 * 4096) ltac:(lia)) as H1.
    replace (hw_walk p (ptr / 4096 * 4096)) with (hw_walk p ptr) in H1; [by rewrite Hw in H1; rewrite H1|].
    apply walk_ext. intros i _. apply (vpn_same_page 0); [lia|].
    change (span 0) with 4096. by rewrite Z.div_mul by lia. }
  destruct (Z.to_nat _); cbn [user_pages_ok]; by rewrite Hpan.
Qed.

(** The index computation ignores address bits 39 and above, so a pointer that
    the hardware faults on is treated as its alias in the lower half. *)
Lemma walk_to_entry_noncanonical p a : 0 ≤ a → walk_to_entry p (a + 2 ^ 39) = walk_to_entry p a.
Proof.
  intros Ha. assert (∀ l, (l ≤ 2)%nat →
    entry_index (a + 2 ^ 39) (Z.of_nat l) = entry_index a (Z.of_nat l)) as Hi.
  { intros l Hl. rewrite !entry_index_vpn by lia. f_equal. unfold vpn.
    replace (2 ^ 39) with ((2 ^ (18 - 9 * Z.of_nat l) * 512) * 2 ^ (12 + 9 * Z.of_nat l)).
    - rewrite Z.div_add by lia. rewrite Z.mul_comm, Z.mul_comm. apply Z.mod_add. lia.
    - rewrite <-Z.mul_assoc. change 512 with (2 ^ 9). rewrite <-!Z.pow_add_r by lia. f_equal. lia. }
  assert (∀ z, z = 0 ∨ z = 1 ∨ z = 2 → entry_index (a + 2 ^ 39) z = entry_index a z) as Hz.
  { intros z Hz. pose proof (Hi (Z.to_nat z) ltac:(lia)) as H.
    by rewrite Z2Nat.id in H by lia. }
  unfold walk_to_entry, read_entry.
  rewrite (Hz 2), (Hz 1), (Hz 0) by lia. done.
Qed.

(** ** Witnesses *)
Definition wit_pages8 : allocator := Allocator (replicate 8 Free) 8192 40960 ∅.
Definition wit_heap8 : heap allocator := Heap None 0 ∅ wit_pages8.

Lemma wit_heap8_inv : heap_inv wit_heap8 [] [] [] [].
Proof.
  split; [done|constructor|done|constructor| |done|simpl; repeat constructor|constructor].
  exists ∅. split; [|by rewrite map_to_list_empty].
  exists ∅. split; [by apply fresh_refines|]. by rewrite kmap_empty.
Qed.

(** The value of a computation that does not panic. *)
Definition value {T} (d : T) (o : outcome T) : T := match o with Ret x => x | Panic => d end.

Definition wit_empty : RootPageTableHolder * heap allocator :=
  value (Holder 0 ∅ [], wit_heap8) (empty_holder wit_heap8).

Lemma wit_empty_ok : holder_ok wit_empty.1 wit_empty.2 ∧ ∀ a, hw_walk wit_empty.1 a = None.
Proof.
  apply (empty_holder_ok wit_heap8 [] [] [] []); [apply wit_heap8_inv|]. by vm_compute.
Qed.

Definition wit_mapped : RootPageTableHolder * heap allocator :=
  value wit_empty (map wit_empty.1 wit_empty.2 0x10000 0x80000000 5000 ReadWrite true "mmap").


Lemma map_returns_witness :
  ∃ p' h', map wit_empty.1 wit_empty.2 0x10000 0x80000000 5000 ReadWrite true "mmap" = Ret (p', h').
Proof.
  apply (map_returns wit_empty.1 wit_empty.2 0x10000 0x80000000 5000 8192 ReadWrite true "mmap");
    [exact (proj1 wit_empty_ok)|discriminate|lia|lia|lia|reflexivity|lia|lia|reflexivity|reflexivity
    |lia|reflexivity|intros; apply (proj2 wit_empty_ok)|vm_compute; lia].
Defined.

(** The mapped space, with its invariant and its leaves. *)
Lemma wit_mapped_ok : ∃ k, tree_ok (root_table wit_mapped.1) (tables wit_mapped.1) k.
Proof.
  destruct wit_empty_ok as [[k Hs] _].
  destruct (map_loop_ok (root_table wit_empty.1) 0x10000 0x80000000 8192 ReadWrite true
    ltac:(lia) ltac:(lia) ltac:(lia) ltac:(lia) eq_refl eq_refl eq_refl ltac:(done)
    2 (tables wit_empty.1) (tables wit_empty.1) k wit_empty.2 0 (tables wit_mapped.1) wit_mapped.2)
    as (k' & [Hok _] & _); [done|lia|done| |by vm_compute|by exists k'].
  intros a Ha. by rewrite decide_False by lia.
Qed.

Lemma wit_mapped_walk a : 0x10000 ≤ a < 0x10000 + 8192 →
  hw_walk wit_mapped.1 a = hw_walk wit_mapped.1 (if decide (a < 0x11000) then 0x10000 else 0x11000).
Proof.
  intros Ha. apply walk_ext. intros i _. apply (vpn_same_page 0); [lia|].
  change (span 0) with 4096. case_decide.
  - symmetry. apply (Z.div_unique_pos a 4096 16 (a - 0x10000)); lia.
  - symmetry. apply (Z.div_unique_pos a 4096 17 (a - 0x11000)); lia.
Qed.

Lemma wit_mapped_leaf a : 0x10000 ≤ a < 0x10000 + 8192 →
  ∃ e, hw_walk wit_mapped.1 a = Some (e, O) ∧ ubit e = true ∧ xwr_bits e = 3.
Proof.
  intros Ha. rewrite wit_mapped_walk by done.
  case_decide; eexists; (split; [by vm_compute|done]).
Qed.

Lemma wit_mapped_covered : covered (root_table wit_mapped.1) (tables wit_mapped.1) 0x10000 8192.
Proof.
  intros a Ha. destruct (wit_mapped_leaf a Ha) as (e & He & _). exists e, O.
  split; [done|]. change (span 0) with 4096. pose proof (Z.mul_div_le a 4096 ltac:(lia)).
  pose proof (Z.mul_succ_div_gt a 4096 ltac:(lia)).
  assert (16 ≤ a / 4096 ≤ 17); [|lia]. split.
  - apply Z.div_le_lower_bound; lia.
  - enough (a / 4096 < 18) by lia. apply Z.div_lt_upper_bound; lia.
Qed.

Lemma unmap_userspace_correct_witness :
  ∃ p', unmap_userspace wit_mapped.1 0x10000 8192 = Ret p' ∧
    translate (root_table p') (tables p') 0x11008 = None.
Proof.
  destruct wit_mapped_ok as [k Hok].
  destruct (unmap_userspace_correct wit_mapped.1 k 0x10000 8192 8192) as (p' & m & Heq & _ & _ & _ & _ & H);
    [exact Hok|lia|reflexivity|lia|reflexivity|lia|lia|exact wit_mapped_covered| |].
  - exists {| range_start := 0x10000; range_end := 0x11fff; name := "mmap"; privileges := ReadWrite |}.
    split; [|reflexivity]. replace (already_mapped wit_mapped.1) with
      [{| range_start := 0x10000; range_end := 0x11fff; name := "mmap"; privileges := ReadWrite |}]
      by by vm_compute. constructor.
  - exists p'. split; [exact Heq|]. rewrite (H 0x11008) by lia. by rewrite decide_True by lia.
Defined.

Lemma mprotect_correct_witness :
  ∃ p', mprotect wit_mapped.1 0x10000 (Z.of_nat 2 * 4096) ReadOnly = Ret p'.
Proof.
  destruct wit_mapped_ok as [k Hok].
  destruct (mprotect_correct wit_mapped.1 k 0x10000 2 ReadOnly) as (p' & Heq & _);
    [exact Hok|discriminate|lia|reflexivity|lia|lia| |exists p'; exact Heq].
  intros a Ha. destruct (wit_mapped_leaf a Ha) as (e & He & _). exists e. exact He.
Defined.


(** An identity-mapped 2 MiB region, as the kernel maps its own memory. *)
Definition wit_super : RootPageTableHolder * heap allocator :=
  value wit_empty (map wit_empty.1 wit_empty.2 0x80200000 0x80200000 0x200000 ReadWrite false "HEAP").

Lemma wit_super_ok : ∃ k, tree_ok (root_table wit_super.1) (tables wit_super.1) k.
Proof.
  destruct wit_empty_ok as [[k Hs] _].
  destruct (map_loop_ok (root_table wit_empty.1) 0x80200000 0x80200000 0x200000 ReadWrite false
    ltac:(lia) ltac:(lia) ltac:(lia) ltac:(lia) eq_refl eq_refl eq_refl ltac:(done)
    512 (tables wit_empty.1) (tables wit_empty.1) k wit_empty.2 0 (tables wit_super.1) wit_super.2)
    as (k' & [Hok _] & _); [done|lia|done| |by vm_compute|by exists k'].
  intros a Ha. by rewrite decide_False by lia.
Qed.

Lemma superpage_pointer_panics_witness :
  validate_userspace wit_super.1 0x80200010 1 1 false = Panic.
Proof.
  destruct wit_super_ok as [k Hok].
  eapply (superpage_pointer_panics wit_super.1 k 0x80200010 1 _ 0);
    [exact Hok|split; lia|lia|lia|by vm_compute].
Defined.

(** translating only the first byte is not enough for a buffer that spans
    pages. After the second page has been moved to another frame (as resolving
    a copy-on-write page does), the pointer still validates for both pages,
    but the byte behind the page boundary is not at the returned address plus
    its offset. *)
Theorem validated_range_not_contiguous :
  ∃ (p : RootPageTableHolder) ptr q q',
    remap_page wit_mapped.1 0x11000 0x80009000 ReadWrite = Ret p ∧
    validate_userspace p ptr 1 2 true = Ret (Okay q) ∧
    translate (root_table p) (tables p) (ptr + 1) = Some (q', 3, true) ∧ q' ≠ q + 1.
Proof.
  exists (value wit_mapped.1 (remap_page wit_mapped.1 0x11000 0x80009000 ReadWrite)).
  exists 0x10fff, 0x80000fff, 0x80009000. split_and!; by vm_compute.
Qed.

(** unmapping leaves the intermediate tables in place, and [map] insists on
    an empty entry for a superpage: mapping one 4 KiB page, unmapping it, and
    then mapping the surrounding aligned 2 MiB panics, although nothing is
    mapped there any more. *)
Theorem superpage_after_unmap_panics :
  ∃ p1 h1 p2,
    map wit_empty.1 wit_empty.2 0x200000 0x80000000 4096 ReadWrite true "small" = Ret (p1, h1) ∧
    unmap_userspace p1 0x200000 4096 = Ret p2 ∧ already_mapped p2 = [] ∧
    map p2 h1 0x200000 0x80200000 0x200000 ReadWrite true "large" = Panic.
Proof.
  set (r := value wit_empty
    (map wit_empty.1 wit_empty.2 0x200000 0x80000000 4096 ReadWrite true "small")).
  exists r.1, r.2, (value r.1 (unmap_userspace r.1 0x200000 4096)).
  split_and!; by vm_compute.
Qed.
