(* ===== verification/Bytes.v ===== *)
(** Bytes and integers: the little-endian layout of integers in memory,
    [BigEndian] of crates/klib/src/big_endian.rs, and reading fixed-size fields
    at an offset of a byte slice ([split_as], [interpret_as],
    [read_from_bytes]).

    A byte slice is a [list Z] of values below 256. The target is little
    endian, as the RISC-V machine is. That a reinterpreted pointer is aligned
    is an assertion on addresses, which byte lists do not have. *)
From S2P Require Import Prelude.

(** ** Integers as bytes *)
Fixpoint le_bytes (n : nat) (v : Z) : list Z :=
  match n with
  | O => []
  | S n => v mod 256 :: le_bytes n (v / 256)
  end.

Fixpoint le_combine (l : list Z) : Z :=
  match l with
  | [] => 0
  | b :: l => b + 256 * le_combine l
  end.

Definition be_bytes (n : nat) (v : Z) : list Z := rev (le_bytes n v).
Definition be_combine (l : list Z) : Z := le_combine (rev l).

Definition is_byte (b : Z) : Prop := 0 ≤ b < 256.
Abbreviation bytes l := (Forall is_byte l).

(** [T::from_be] on a little-endian machine, for a [T] of [n] bytes. *)
Definition from_be (n : nat) (v : Z) : Z := le_combine (rev (le_bytes n v)).

(** ** [BigEndian<T>] *)
Record BigEndian := BE { raw : Z }.

Definition from_big_endian (v : Z) : BigEndian := BE v.
Definition from_little_endian (n : nat) (v : Z) : BigEndian := BE (from_be n v).
Definition get (n : nat) (b : BigEndian) : Z := from_be n (raw b).

(** [from_u8_buffer]: the conversion to an array panics on a wrong length. *)
Definition from_u8_buffer (n : nat) (buffer : list Z) : outcome BigEndian :=
  rassert (bool_decide (length buffer = n));; Ret (BE (le_combine buffer)).

#[global] Instance BigEndian_eq_dec : EqDecision BigEndian.
Proof. solve_decision. Defined.

(** The bytes of a field in memory, and the field at an offset. *)
Definition field_bytes (n : nat) (b : BigEndian) : list Z := le_bytes n (raw b).
Definition field (n off : nat) (data : list Z) : BigEndian :=
  BE (le_combine (take n (drop off data))).

(** [u16::try_from(n).expect(..)] *)
Definition u16_try_from (n : Z) : outcome Z := if n <? 2 ^ 16 then Ret n else Panic.

(** [&data[..n]] panics out of range. *)
Definition slice_to (n : Z) (data : list Z) : outcome (list Z) :=
  rassert (n <=? Z.of_nat (length data));; Ret (take (Z.to_nat n) data).

(** ** Lemmas *)
Lemma u16_try_from_Ret n : in_width 16 n → u16_try_from n = Ret n.
Proof. intros [_ H]. unfold u16_try_from. by rewrite (proj2 (Z.ltb_lt _ _)). Qed.

Lemma le_bytes_length n v : length (le_bytes n v) = n.
Proof. revert v. induction n; intros; simpl; auto. Qed.

Lemma le_bytes_bytes n v : bytes (le_bytes n v).
Proof.
  revert v. induction n; intros; simpl; constructor; [|done]. apply Z.mod_pos_bound. lia.
Qed.

Lemma le_combine_bytes n v : 0 ≤ v < 256 ^ Z.of_nat n → le_combine (le_bytes n v) = v.
Proof.
  revert v. induction n as [|n IH]; intros v Hv; simpl; [lia|].
  rewrite IH; [pose proof (Z.div_mod v 256); lia|].
  split; [apply Z.div_pos; lia|]. apply Z.div_lt_upper_bound; [lia|].
  replace (Z.of_nat (S n)) with (Z.of_nat n + 1) in Hv by lia.
  rewrite Z.pow_add_r in Hv by lia. lia.
Qed.

Lemma le_bytes_combine l : bytes l → le_bytes (length l) (le_combine l) = l.
Proof.
  induction 1 as [|b l Hb _ IH]; simpl; [done|].
  unfold is_byte in Hb. f_equal.
  - rewrite Z.mul_comm, Z.mod_add, Z.mod_small; lia.
  - rewrite Z.mul_comm, Z.div_add, Z.div_small, Z.add_0_l by lia. done.
Qed.

Lemma le_combine_range l : bytes l → 0 ≤ le_combine l < 256 ^ Z.of_nat (length l).
Proof.
  induction 1 as [|b l Hb _ IH]; simpl; [lia|]. unfold is_byte in Hb.
  replace (Z.of_nat (S (length l))) with (Z.of_nat (length l) + 1) by lia.
  rewrite Z.pow_add_r by lia. lia.
Qed.


Lemma rev_bytes l : bytes l → bytes (rev l).
Proof. rewrite !Forall_forall. intros H b Hb. apply H. rewrite list_elem_of_In in *. by apply in_rev. Qed.

Lemma from_be_involutive n v : 0 ≤ v < 256 ^ Z.of_nat n → from_be n (from_be n v) = v.
Proof.
  intros Hv. unfold from_be at 1 2.
  assert (le_bytes n (le_combine (rev (le_bytes n v))) = rev (le_bytes n v)) as ->.
  { rewrite <-(le_bytes_length n v) at 1. rewrite <-length_rev.
    apply le_bytes_combine, rev_bytes, le_bytes_bytes. }
  rewrite rev_involutive. by apply le_combine_bytes.
Qed.

(** A [BigEndian] holds its value in network order, and [get] reads it back. *)
Lemma get_from_little_endian n v : 0 ≤ v < 256 ^ Z.of_nat n → get n (from_little_endian n v) = v.
Proof. apply from_be_involutive. Qed.

Lemma field_bytes_network n v : field_bytes n (from_little_endian n v) = be_bytes n v.
Proof.
  unfold field_bytes, from_little_endian, from_be, be_bytes. simpl.
  rewrite <-(le_bytes_length n v) at 1. rewrite <-length_rev.
  apply le_bytes_combine, rev_bytes, le_bytes_bytes.
Qed.

Definition be_ok (n : nat) (b : BigEndian) : Prop := 0 ≤ raw b < 256 ^ Z.of_nat n.

Lemma from_little_endian_ok n v : be_ok n (from_little_endian n v).
Proof.
  unfold be_ok, from_little_endian, from_be. simpl.
  pose proof (le_combine_range (rev (le_bytes n v)) (rev_bytes _ (le_bytes_bytes _ _))) as H.
  by rewrite length_rev, le_bytes_length in H.
Qed.

Lemma field_length n b : length (field_bytes n b) = n.
Proof. apply le_bytes_length. Qed.

Lemma field_bytes_bytes n b : bytes (field_bytes n b).
Proof. apply le_bytes_bytes. Qed.

(** A field of [n] bytes is read back from behind [off] bytes. *)
Lemma field_app n off pre b post : length pre = off → be_ok n b →
  field n off (pre ++ field_bytes n b ++ post) = b.
Proof.
  intros Hl Hb. unfold field. rewrite drop_app_length' by done.
  rewrite take_app_length' by by rewrite field_length.
  unfold field_bytes. rewrite le_combine_bytes by done. by destruct b.
Qed.
