(* ===== verification/Checksum.v ===== *)
(** The Internet checksum of crates/kernel/src/net/checksum.rs, and its
    specification as one's-complement arithmetic (RFC 1071). *)
From S2P Require Import Prelude Bytes.

(** ** The routine *)

(** Two bytes as the [u16] the loop adds. *)
Definition word (high low : Z) : Z := Z.lor (Z.shiftl high 8) low.

(** The inner [while i + 1 < slice.len()] loop, with the odd byte it leaves. *)
Fixpoint sum_pairs (sum : Z) (l : list Z) : outcome (Z * option Z) :=
  match l with
  | [] => Ret (sum, None)
  | [b] => Ret (sum, Some b)
  | b :: c :: l => s ← add 32 sum (word b c); sum_pairs s l
  end.

(** One iteration of [for slice in slices]. *)
Definition sum_slice (st : Z * option Z) (slice : list Z) : outcome (Z * option Z) :=
  let '(sum, leftover) := st in
  match leftover with
  | Some high =>
      match slice with
      | [] => Ret (sum, Some high)
      | b :: rest => s ← add 32 sum (word high b); sum_pairs s rest
      end
  | None => sum_pairs sum slice
  end.

(** [while sum >> 16 != 0]; a 32-bit sum needs at most two rounds. *)
Fixpoint fold_carry (fuel : nat) (sum : Z) : outcome Z :=
  if Z.shiftr sum 16 =? 0 then Ret sum
  else match fuel with
  | O => Panic
  | S fuel => s ← add 32 (Z.land sum 0xffff) (Z.shiftr sum 16); fold_carry fuel s
  end.

Definition ones_complement_checksum (slices : list (list Z)) : outcome Z :=
  '(sum, leftover) ← foldM sum_slice slices (0, None);
  sum ← match leftover with
        | Some high => add 32 sum (Z.shiftl high 8)
        | None => Ret sum
        end;
  sum ← fold_carry 3 sum;
  r ← u16_try_from sum;
  Ret (bitnot 16 r).

(** ** The specification *)

(** The 16-bit big-endian words of the data, an odd last byte padded with 0. *)
Fixpoint word_sum (l : list Z) : Z :=
  match l with
  | [] => 0
  | [b] => b * 256
  | b :: c :: l => b * 256 + c + word_sum l
  end.

(** One's-complement reduction to 16 bits: 0 only for 0, else 1 .. 65535. *)
Definition ones_fold (s : Z) : Z := if s =? 0 then 0 else (s - 1) mod 65535 + 1.

Definition internet_checksum (data : list Z) : Z := 65535 - ones_fold (word_sum data).

(** ** Lemmas *)
Lemma list_pair_ind {A} (P : list A → Prop) :
  P [] → (∀ x, P [x]) → (∀ x y l, P l → P (x :: y :: l)) → ∀ l, P l.
Proof.
  intros H0 H1 H2. fix IH 1. intros [|x [|y l]]; [exact H0|exact (H1 x)|]. apply H2, IH.
Qed.

Lemma word_eq b c : is_byte b → is_byte c → word b c = b * 256 + c.
Proof.
  unfold is_byte. intros Hb Hc. unfold word. rewrite Z.shiftl_mul_pow2 by lia.
  change (2 ^ 8) with 256. symmetry. rewrite <-Z.lxor_lor, <-Z.add_nocarry_lxor; [done|..].
  all: apply Z.bits_inj'; intros i Hi; rewrite Z.land_spec, Z.testbit_0_l;
    change 256 with (2 ^ 8); rewrite <-Z.shiftl_mul_pow2, Z.shiftl_spec by lia.
  all: destruct (decide (i < 8)); [by rewrite (Z.testbit_neg_r b) by lia|].
  all: rewrite (testbit_out 8 c i); [by rewrite andb_false_r|split; lia|lia].
Qed.

(** The odd byte carried between slices makes the loop independent of how the
    data is cut into slices. *)
Lemma sum_slice_app l slice sum :
  sum_pairs sum l ≫= (λ st, sum_slice st slice) = sum_pairs sum (l ++ slice).
Proof.
  revert sum. induction l as [|b|b c l IH] using list_pair_ind; intros sum.
  - done.
  - by destruct slice.
  - simpl. destruct (add 32 sum (word b c)); simpl; [apply IH|done].
Qed.

Lemma sum_slices slices l sum :
  sum_pairs sum l ≫= foldM sum_slice slices = sum_pairs sum (l ++ concat slices).
Proof.
  revert l. induction slices as [|s slices IH]; intros l; simpl.
  - rewrite app_nil_r. by destruct (sum_pairs sum l).
  - rewrite app_assoc, <-IH, <-sum_slice_app. by destruct (sum_pairs sum l).
Qed.

Lemma word_sum_nonneg l : bytes l → 0 ≤ word_sum l.
Proof.
  induction l as [|b|b c l IH] using list_pair_ind; simpl; [lia|..];
    rewrite ?Forall_cons; unfold is_byte; [lia|]. intros (? & ? & ?%IH). lia.
Qed.

Lemma word_sum_bound l : bytes l → 2 * word_sum l ≤ 65535 * Z.of_nat (length l + 1).
Proof.
  induction l as [|b|b c l IH] using list_pair_ind; simpl; [lia|..];
    rewrite ?Forall_cons; unfold is_byte; [lia|]. intros (? & ? & ?%IH). lia.
Qed.

Lemma word_sum_app l1 l2 : Nat.Even (length l1) → word_sum (l1 ++ l2) = word_sum l1 + word_sum l2.
Proof.
  induction l1 as [|b|b c l IH] using list_pair_ind; simpl.
  - done.
  - by intros [x Hx]; lia.
  - intros [x Hx]. rewrite IH; [lia|]. exists (x - 1)%nat. lia.
Qed.

(** The loop computes the word sum (with the odd byte still outside). *)
Lemma sum_pairs_Ret l sum : bytes l → 0 ≤ sum → sum + word_sum l < 2 ^ 32 →
  ∃ s o, sum_pairs sum l = Ret (s, o) ∧
    s + match o with Some b => b * 256 | None => 0 end = sum + word_sum l ∧
    match o with Some b => is_byte b | None => True end.
Proof.
  revert sum. induction l as [|b|b c l IH] using list_pair_ind; intros sum; simpl.
  - intros. exists sum, None. split_and!; [done|lia|done].
  - rewrite Forall_singleton. intros. exists sum, (Some b). done.
  - rewrite !Forall_cons. intros (Hb & Hc & Hl) Hs Hb2.
    pose proof (word_sum_nonneg l Hl). rewrite word_eq by done. unfold is_byte in Hb, Hc.
    rewrite (proj2 (add_Ret 32 sum (b * 256 + c) _)) by (split; [done|lia]). simpl.
    destruct (IH (sum + (b * 256 + c)) Hl) as (s & o & -> & Heq & Ho); [lia|lia|].
    exists s, o. split_and!; [done|lia|done].
Qed.

Lemma ones_fold_step s : 65536 ≤ s → ones_fold (s mod 65536 + s / 65536) = ones_fold s.
Proof.
  intros Hs. pose proof (Z.div_mod s 65536 ltac:(lia)). pose proof (Z.mod_pos_bound s 65536).
  assert (1 ≤ s / 65536) by (apply Z.div_le_lower_bound; lia).
  unfold ones_fold. rewrite !(proj2 (Z.eqb_neq _ _)) by lia. f_equal.
  replace (s - 1) with ((s mod 65536 + s / 65536 - 1) + (s / 65536) * 65535) by lia.
  by rewrite Z.mod_add by lia.
Qed.

(** A sum below 2^16 is its own reduction. *)
Lemma ones_fold_small s : 0 ≤ s < 65536 → ones_fold s = s.
Proof.
  intros Hs. unfold ones_fold. destruct (Z.eqb_spec s 0); [done|].
  rewrite Z.mod_small; lia.
Qed.

Lemma fold_carry_done fuel s : 0 ≤ s < 65536 → fold_carry fuel s = Ret (ones_fold s).
Proof.
  intros Hs. rewrite ones_fold_small by done.
  assert (Z.shiftr s 16 = 0) as H0.
  { rewrite Z.shiftr_div_pow2 by lia. by apply Z.div_small. }
  destruct fuel; cbn [fold_carry]; by rewrite H0.
Qed.

Lemma fold_carry_step fuel s : 65536 ≤ s < 2 ^ 32 →
  fold_carry (S fuel) s = fold_carry fuel (s mod 65536 + s / 65536).
Proof.
  intros Hs. cbn [fold_carry]. change 0xffff with (Z.ones 16).
  rewrite Z.land_ones, Z.shiftr_div_pow2 by lia. change (2 ^ 16) with 65536.
  assert (1 ≤ s / 65536 < 65536).
  { split; [apply Z.div_le_lower_bound; lia|apply Z.div_lt_upper_bound; lia]. }
  rewrite (proj2 (Z.eqb_neq _ _)) by lia. pose proof (Z.mod_pos_bound s 65536).
  by rewrite (proj2 (add_Ret 32 _ _ (s mod 65536 + s / 65536))) by lia.
Qed.

Lemma fold_carry_Ret s : 0 ≤ s < 2 ^ 32 → fold_carry 3 s = Ret (ones_fold s).
Proof.
  intros Hs. destruct (decide (s < 65536)); [apply fold_carry_done; lia|].
  rewrite fold_carry_step, <-ones_fold_step by lia.
  assert (1 ≤ s / 65536 < 65536).
  { split; [apply Z.div_le_lower_bound; lia|apply Z.div_lt_upper_bound; lia]. }
  pose proof (Z.mod_pos_bound s 65536). set (t := s mod 65536 + s / 65536) in *.
  destruct (decide (t < 65536)); [apply fold_carry_done; lia|].
  rewrite fold_carry_step, <-ones_fold_step by lia. apply fold_carry_done.
  assert (1 ≤ t / 65536 < 2).
  { split; [apply Z.div_le_lower_bound; lia|apply Z.div_lt_upper_bound; lia]. }
  pose proof (Z.div_mod t 65536). lia.
Qed.

Lemma ones_fold_range s : 0 ≤ s → 0 ≤ ones_fold s ≤ 65535.
Proof.
  intros. unfold ones_fold. case_match; [lia|]. pose proof (Z.mod_pos_bound (s - 1) 65535). lia.
Qed.

Lemma bitnot_16 x : 0 ≤ x ≤ 65535 → bitnot 16 x = 65535 - x.
Proof.
  intros Hx. unfold bitnot. change 65535 with (Z.ones 16) at 1.
  rewrite Z.sub_nocarry_ldiff; [done|]. apply Z.bits_inj'; intros i Hi.
  rewrite Z.ldiff_spec, Z.testbit_0_l. destruct (decide (i < 16)).
  - rewrite Z.ones_spec_low by lia. by rewrite andb_false_r.
  - rewrite (testbit_out 16 x i); [done| |lia]. split; lia.
Qed.

Lemma checksum_Ret slices : bytes (concat slices) → Z.of_nat (length (concat slices)) ≤ 131072 →
  ones_complement_checksum slices = Ret (internet_checksum (concat slices)).
Proof.
  intros Hb Hl. set (d := concat slices) in *. unfold ones_complement_checksum.
  pose proof (word_sum_bound d Hb). pose proof (word_sum_nonneg d Hb).
  change (foldM sum_slice slices (0, None)) with (sum_pairs 0 [] ≫= foldM sum_slice slices).
  rewrite sum_slices. change ([] ++ concat slices) with d.
  assert (word_sum d < 2 ^ 32) as Hw by lia.
  destruct (sum_pairs_Ret d 0 Hb ltac:(lia) ltac:(lia)) as (s & o & -> & Heq & Ho). bstep.
  assert (match o with Some high => add 32 s (Z.shiftl high 8) | None => Ret s end
          = Ret (word_sum d)) as ->.
  { destruct o as [b|]; [|f_equal; lia]. apply add_Ret.
    rewrite Z.shiftl_mul_pow2 by lia. change (2 ^ 8) with 256. lia. }
  bstep. rewrite fold_carry_Ret by lia. bstep.
  pose proof (ones_fold_range (word_sum d) ltac:(lia)). unfold u16_try_from.
  rewrite (proj2 (Z.ltb_lt _ _)) by lia. bstep. by rewrite bitnot_16.
Qed.

(** The receiver's check: with the checksum of the rest filled in, the words
    add up to minus zero. *)
Lemma internet_checksum_verifies s : 0 ≤ s →
  65535 - ones_fold (s + (65535 - ones_fold s)) = 0.
Proof.
  intros Hs. enough (ones_fold (s + (65535 - ones_fold s)) = 65535) by lia.
  unfold ones_fold at 2. destruct (Z.eqb_spec s 0) as [->|Hs0]; [done|].
  pose proof (Z.mod_pos_bound (s - 1) 65535). pose proof (Z.div_mod (s - 1) 65535).
  set (q := (s - 1) / 65535) in *. set (r := (s - 1) mod 65535) in *.
  replace (s + (65535 - (r + 1))) with ((q + 1) * 65535) by lia.
  assert (0 ≤ q) by (apply Z.div_pos; lia).
  unfold ones_fold. rewrite (proj2 (Z.eqb_neq _ _)) by lia.
  replace ((q + 1) * 65535 - 1) with (65534 + q * 65535) by lia.
  by rewrite Z.mod_add by lia.
Qed.

(** C15: [ones_complement_checksum] is the RFC 1071 checksum of the
    concatenated data, however the data is cut into slices (odd-length slices
    included), and its loops terminate without overflow for any data of up to
    128 KiB. *)
Theorem checksum_correct slices :
  bytes (concat slices) → Z.of_nat (length (concat slices)) ≤ 131072 →
  ones_complement_checksum slices = Ret (internet_checksum (concat slices)).
Proof. apply checksum_Ret. Qed.

Lemma checksum_correct_witness :
  ones_complement_checksum [[0x45]; [0; 1]; []; [2; 3]] =
    Ret (internet_checksum [0x45; 0; 1; 2; 3]).
Proof.
  apply (checksum_correct [[0x45]; [0; 1]; []; [2; 3]]); [|simpl; lia].
  repeat constructor; lia.
Defined.
