(* ===== verification/Packets.v ===== *)
(** Packet formats of crates/kernel/src/net: Ethernet ([ethernet.rs]), IPv4
    ([ipv4.rs]), UDP ([udp.rs]), TCP ([tcp.rs]) and ARP ([arp.rs]).

    A header is a record of the source's fields; [as_slice] is its memory
    layout and the [parse_*] functions are [split_as]/[read_from_bytes]. The
    address of the machine ([NETWORK_STACK.ip_addr], the device's MAC) is an
    argument of the functions that read it. *)
From S2P Require Import Prelude Headers Bytes Checksum.

(** ** Addresses *)
Record Ipv4Addr := Ip { oct0 : Z; oct1 : Z; oct2 : Z; oct3 : Z }.
Record MacAddress := Mac { mac0 : Z; mac1 : Z; mac2 : Z; mac3 : Z; mac4 : Z; mac5 : Z }.

#[global] Instance Ipv4Addr_eq_dec : EqDecision Ipv4Addr.
Proof. solve_decision. Defined.
#[global] Instance Ipv4Addr_countable : Countable Ipv4Addr.
Proof.
  apply (inj_countable' (λ a, (oct0 a, oct1 a, oct2 a, oct3 a))
           (λ '(a, b, c, d), Ip a b c d)). by intros [].
Defined.
#[global] Instance MacAddress_eq_dec : EqDecision MacAddress.
Proof. solve_decision. Defined.

Definition octets (a : Ipv4Addr) : list Z := [oct0 a; oct1 a; oct2 a; oct3 a].
Definition as_bytes (m : MacAddress) : list Z := [mac0 m; mac1 m; mac2 m; mac3 m; mac4 m; mac5 m].

Definition BROADCAST : Ipv4Addr := Ip 255 255 255 255.
Definition UNSPECIFIED : Ipv4Addr := Ip 0 0 0 0.
Definition BROADCAST_MAC : MacAddress := Mac 255 255 255 255 255 255.

(** An address at an offset of a byte slice. *)
Definition byte_at (data : list Z) (i : nat) : Z := default 0 (data !! i).
Definition ip_at (off : nat) (data : list Z) : Ipv4Addr :=
  let b i := byte_at data (off + i) in Ip (b 0%nat) (b 1%nat) (b 2%nat) (b 3%nat).
Definition mac_at (off : nat) (data : list Z) : MacAddress :=
  let b i := byte_at data (off + i) in
  Mac (b 0%nat) (b 1%nat) (b 2%nat) (b 3%nat) (b 4%nat) (b 5%nat).

(** The machine's addresses. *)
Record NetConfig := { current_mac_address : MacAddress; ip_addr : Ipv4Addr }.

(** [DRIVER_HEADER_RESERVE] zero bytes for the driver's header. *)
Definition DRIVER_HEADER_RESERVE : nat := 12.

(** ** Ethernet *)
Inductive EtherTypes := Arp | IPv4.

Record EthernetHeader := {
  destination_mac : MacAddress;
  source_mac : MacAddress;
  eth_type : BigEndian;
}.

Inductive EthParseError := EthPacketTooSmall | UnknownEtherType | UnknownDestinationMac.

Definition ETHERTYPE_ARP : Z := 0x0806.
Definition ETHERTYPE_IPV4 : Z := 0x0800.

Definition EtherTypes_try_from (v : BigEndian) : EthParseError + EtherTypes :=
  if get 2 v =? ETHERTYPE_ARP then inr Arp
  else if get 2 v =? ETHERTYPE_IPV4 then inr IPv4
  else inl UnknownEtherType.

Definition EtherTypes_into (t : EtherTypes) : BigEndian :=
  match t with
  | Arp => from_little_endian 2 ETHERTYPE_ARP
  | IPv4 => from_little_endian 2 ETHERTYPE_IPV4
  end.

Definition eth_new (dst src : MacAddress) (t : EtherTypes) : EthernetHeader :=
  {| destination_mac := dst; source_mac := src; eth_type := EtherTypes_into t |}.

Definition eth_slice (h : EthernetHeader) : list Z :=
  as_bytes (destination_mac h) ++ as_bytes (source_mac h) ++ field_bytes 2 (eth_type h).

Definition parse_eth (data : list Z) : EthernetHeader :=
  {| destination_mac := mac_at 0 data; source_mac := mac_at 6 data; eth_type := field 2 12 data |}.

Definition eth_try_parse (cfg : NetConfig) (data : list Z)
    : EthParseError + (EthernetHeader * list Z) :=
  if bool_decide (length data < 14)%nat then inl EthPacketTooSmall
  else
    let header := parse_eth data in
    match EtherTypes_try_from (eth_type header) with
    | inl _ => inl UnknownEtherType
    | inr _ =>
        if negb (bool_decide (destination_mac header = current_mac_address cfg)) &&
           negb (bool_decide (destination_mac header = BROADCAST_MAC))
        then inl UnknownDestinationMac
        else inr (header, drop 14 data)
    end.

(** [ether_type()] panics on an unknown type. *)
Definition ether_type (h : EthernetHeader) : outcome EtherTypes :=
  match EtherTypes_try_from (eth_type h) with inl _ => Panic | inr t => Ret t end.

(** ** IPv4 *)
Record IpV4Header := {
  version_and_ihl : BigEndian;
  tos : BigEndian;
  total_packet_length : BigEndian;
  identification : BigEndian;
  flags_and_offset : BigEndian;
  ttl : BigEndian;
  upper_protocol : BigEndian;
  header_checksum : BigEndian;
  source_ip : Ipv4Addr;
  destination_ip : Ipv4Addr;
}.

Inductive IpV4ParseError := IpPacketTooSmall.

Definition ip_slice (h : IpV4Header) : list Z :=
  field_bytes 1 (version_and_ihl h) ++ field_bytes 1 (tos h) ++
  field_bytes 2 (total_packet_length h) ++ field_bytes 2 (identification h) ++
  field_bytes 2 (flags_and_offset h) ++ field_bytes 1 (ttl h) ++
  field_bytes 1 (upper_protocol h) ++ field_bytes 2 (header_checksum h) ++
  octets (source_ip h) ++ octets (destination_ip h).

Definition parse_ip (data : list Z) : IpV4Header := {|
  version_and_ihl := field 1 0 data;
  tos := field 1 1 data;
  total_packet_length := field 2 2 data;
  identification := field 2 4 data;
  flags_and_offset := field 2 6 data;
  ttl := field 1 8 data;
  upper_protocol := field 1 9 data;
  header_checksum := field 2 10 data;
  source_ip := ip_at 12 data;
  destination_ip := ip_at 16 data;
|}.

Definition IP_HEADER_SIZE : Z := 20.

Definition ip_new (cfg : NetConfig) (dst : Ipv4Addr) (protocol payload_size : Z)
    : outcome IpV4Header :=
  n ← add 64 IP_HEADER_SIZE payload_size;
  total ← u16_try_from n;
  Ret {|
    version_and_ihl := from_little_endian 1 (Z.lor (Z.shiftl 4 4) 5);
    tos := from_little_endian 1 0;
    total_packet_length := from_little_endian 2 total;
    identification := from_little_endian 2 0;
    flags_and_offset := from_little_endian 2 0;
    ttl := from_little_endian 1 128;
    upper_protocol := from_little_endian 1 protocol;
    header_checksum := from_little_endian 2 0;
    source_ip := ip_addr cfg;
    destination_ip := dst;
  |}.

Definition with_ip_checksum (h : IpV4Header) (c : BigEndian) : IpV4Header := {|
  version_and_ihl := version_and_ihl h; tos := tos h;
  total_packet_length := total_packet_length h; identification := identification h;
  flags_and_offset := flags_and_offset h; ttl := ttl h; upper_protocol := upper_protocol h;
  header_checksum := c; source_ip := source_ip h; destination_ip := destination_ip h |}.

Definition ip_calculate_checksum (h : IpV4Header) : outcome Z :=
  ones_complement_checksum [ip_slice h].

Definition ip_checksum_correct (h : IpV4Header) : outcome bool :=
  c ← ip_calculate_checksum h; Ret (c =? 0).

Definition ip_process `{Headers} (cfg : NetConfig) (data : list Z)
    : outcome (IpV4ParseError + (IpV4Header * list Z)) :=
  if bool_decide (length data < 20)%nat then Ret (inl IpPacketTooSmall)
  else
    let h := parse_ip data in
    rassert (Z.shiftr (get 1 (version_and_ihl h)) 4 =? 4);;
    rassert (Z.land (get 1 (version_and_ihl h)) 0x0F =? 5);;
    rassert (get 2 (total_packet_length h) <=? Z.of_nat (length data));;
    rassert (Z.land (get 2 (flags_and_offset h)) 4 =? 0);;
    rassert (bool_decide (destination_ip h = ip_addr cfg) ||
             bool_decide (destination_ip h = BROADCAST) ||
             bool_decide (ip_addr cfg = UNSPECIFIED));;
    rassert ((get 1 (upper_protocol h) =? IPPROTO_UDP) ||
             (get 1 (upper_protocol h) =? IPPROTO_TCP));;
    ok ← ip_checksum_correct h;
    rassert ok;;
    Ret (inr (h, drop 20 data)).

(** ** UDP *)
Record UdpHeader := {
  udp_source_port : BigEndian;
  udp_destination_port : BigEndian;
  udp_length : BigEndian;
  udp_checksum : BigEndian;
}.

Inductive UdpParseError := UdpPacketTooSmall.

Definition udp_slice (h : UdpHeader) : list Z :=
  field_bytes 2 (udp_source_port h) ++ field_bytes 2 (udp_destination_port h) ++
  field_bytes 2 (udp_length h) ++ field_bytes 2 (udp_checksum h).

Definition parse_udp (data : list Z) : UdpHeader := {|
  udp_source_port := field 2 0 data; udp_destination_port := field 2 2 data;
  udp_length := field 2 4 data; udp_checksum := field 2 6 data |}.

Definition UDP_HEADER_SIZE : Z := 8.
Definition UDP_PROTOCOL_TYPE : Z := 17.

(** The 12-byte pseudo header: addresses, protocol and length. *)
Definition pseudo_header (ip : IpV4Header) (protocol len : Z) : list Z :=
  octets (source_ip ip) ++ octets (destination_ip ip) ++ [0; protocol] ++ be_bytes 2 len.

Definition udp_compute_checksum (data : list Z) (uh : UdpHeader) (ip : IpV4Header)
    : outcome Z :=
  n ← sub (get 2 (udp_length uh)) UDP_HEADER_SIZE;
  rassert (Z.of_nat (length data) =? n);;
  ones_complement_checksum
    [pseudo_header ip UDP_PROTOCOL_TYPE (get 2 (udp_length uh)); udp_slice uh; data].

Definition create_udp_packet (cfg : NetConfig) (dst_ip : Ipv4Addr) (dst_port : Z)
    (dst_mac : MacAddress) (src_port : Z) (data : list Z) : outcome (list Z) :=
  n ← add 64 UDP_HEADER_SIZE (Z.of_nat (length data));
  len ← u16_try_from n;
  let uh := {| udp_source_port := from_little_endian 2 src_port;
               udp_destination_port := from_little_endian 2 dst_port;
               udp_length := from_little_endian 2 len;
               udp_checksum := from_little_endian 2 0 |} in
  ih ← ip_new cfg dst_ip UDP_PROTOCOL_TYPE n;
  c ← udp_compute_checksum data uh ih;
  let uh := {| udp_source_port := udp_source_port uh;
               udp_destination_port := udp_destination_port uh;
               udp_length := udp_length uh; udp_checksum := from_little_endian 2 c |} in
  c ← ip_calculate_checksum ih;
  let ih := with_ip_checksum ih (from_little_endian 2 c) in
  let eh := eth_new dst_mac (current_mac_address cfg) IPv4 in
  Ret (replicate DRIVER_HEADER_RESERVE 0 ++ eth_slice eh ++ ip_slice ih ++ udp_slice uh ++ data).

Definition udp_process (data : list Z) (ip : IpV4Header)
    : outcome (UdpParseError + (UdpHeader * list Z)) :=
  if bool_decide (length data < 8)%nat then Ret (inl UdpPacketTooSmall)
  else
    let uh := parse_udp data in
    let rest := drop 8 data in
    n ← add 64 (Z.of_nat (length rest)) UDP_HEADER_SIZE;
    rassert (get 2 (udp_length uh) <=? n);;
    data_length ← sub (get 2 (udp_length uh)) UDP_HEADER_SIZE;
    rest ← slice_to data_length rest;
    if negb (get 2 (udp_checksum uh) =? 0) then
      c ← udp_compute_checksum rest uh ip;
      rassert (c =? 0);;
      Ret (inr (uh, rest))
    else Ret (inr (uh, rest)).

(** ** TCP *)
Record TcpHeader := {
  tcp_source_port : BigEndian;
  tcp_destination_port : BigEndian;
  tcp_sequence_number : BigEndian;
  tcp_acknowledgment_number : BigEndian;
  data_offset_and_flags : BigEndian;
  window_size : BigEndian;
  tcp_checksum : BigEndian;
  urgent_pointer : BigEndian;
}.

Inductive TcpParseError := TcpPacketTooSmall | InvalidDataOffset | InvalidChecksum.

Definition tcp_slice (h : TcpHeader) : list Z :=
  field_bytes 2 (tcp_source_port h) ++ field_bytes 2 (tcp_destination_port h) ++
  field_bytes 4 (tcp_sequence_number h) ++ field_bytes 4 (tcp_acknowledgment_number h) ++
  field_bytes 2 (data_offset_and_flags h) ++ field_bytes 2 (window_size h) ++
  field_bytes 2 (tcp_checksum h) ++ field_bytes 2 (urgent_pointer h).

Definition parse_tcp (data : list Z) : TcpHeader := {|
  tcp_source_port := field 2 0 data; tcp_destination_port := field 2 2 data;
  tcp_sequence_number := field 4 4 data; tcp_acknowledgment_number := field 4 8 data;
  data_offset_and_flags := field 2 12 data; window_size := field 2 14 data;
  tcp_checksum := field 2 16 data; urgent_pointer := field 2 18 data |}.

Definition TCP_HEADER_SIZE : Z := 20.

Definition flags (h : TcpHeader) : Z := Z.land (get 2 (data_offset_and_flags h)) 0x1FF.

Definition tcp_pseudo_header `{Headers} (ip : IpV4Header) (tcp_length : Z) : outcome (list Z) :=
  n ← u16_try_from tcp_length; Ret (pseudo_header ip IPPROTO_TCP n).

Definition tcp_compute_checksum `{Headers} (data : list Z) (th : TcpHeader) (ip : IpV4Header)
    : outcome Z :=
  n ← add 64 TCP_HEADER_SIZE (Z.of_nat (length data));
  pseudo ← tcp_pseudo_header ip n;
  ones_complement_checksum [pseudo; tcp_slice th; data].

Definition tcp_compute_checksum_raw `{Headers} (tcp_bytes : list Z) (ip : IpV4Header)
    (tcp_length : Z) : outcome Z :=
  pseudo ← tcp_pseudo_header ip tcp_length;
  ones_complement_checksum [pseudo; tcp_bytes].

Definition with_tcp_checksum (h : TcpHeader) (c : BigEndian) : TcpHeader := {|
  tcp_source_port := tcp_source_port h; tcp_destination_port := tcp_destination_port h;
  tcp_sequence_number := tcp_sequence_number h;
  tcp_acknowledgment_number := tcp_acknowledgment_number h;
  data_offset_and_flags := data_offset_and_flags h; window_size := window_size h;
  tcp_checksum := c; urgent_pointer := urgent_pointer h |}.

Definition create_tcp_packet `{Headers} (cfg : NetConfig) (dst_ip : Ipv4Addr)
    (dst_mac : MacAddress) (src_port dst_port seq ack fl window : Z) (data : list Z)
    : outcome (list Z) :=
  let th := {| tcp_source_port := from_little_endian 2 src_port;
               tcp_destination_port := from_little_endian 2 dst_port;
               tcp_sequence_number := from_little_endian 4 seq;
               tcp_acknowledgment_number := from_little_endian 4 ack;
               data_offset_and_flags :=
                 from_little_endian 2 (Z.lor (Z.shiftl 5 12) (Z.land fl 0x1FF));
               window_size := from_little_endian 2 window;
               tcp_checksum := from_little_endian 2 0;
               urgent_pointer := from_little_endian 2 0 |} in
  n ← add 64 TCP_HEADER_SIZE (Z.of_nat (length data));
  ih ← ip_new cfg dst_ip IPPROTO_TCP n;
  c ← tcp_compute_checksum data th ih;
  let th := with_tcp_checksum th (from_little_endian 2 c) in
  c ← ip_calculate_checksum ih;
  let ih := with_ip_checksum ih (from_little_endian 2 c) in
  let eh := eth_new dst_mac (current_mac_address cfg) IPv4 in
  Ret (replicate DRIVER_HEADER_RESERVE 0 ++ eth_slice eh ++ ip_slice ih ++ tcp_slice th ++ data).

Definition tcp_process `{Headers} (data : list Z) (ip : IpV4Header)
    : outcome (TcpParseError + (TcpHeader * list Z)) :=
  if bool_decide (length data < 20)%nat then Ret (inl TcpPacketTooSmall)
  else
    let th := parse_tcp data in
    let data_offset := Z.shiftr (get 2 (data_offset_and_flags th)) 12 in
    if data_offset <? 5 then Ret (inl InvalidDataOffset)
    else
      let header_bytes := data_offset * 4 in
      if Z.of_nat (length data) <? header_bytes then Ret (inl TcpPacketTooSmall)
      else
        let payload := drop (Z.to_nat header_bytes) data in
        total_tcp_len ← sub (get 2 (total_packet_length ip)) IP_HEADER_SIZE;
        payload_len ← sub total_tcp_len header_bytes;
        payload ← slice_to payload_len payload;
        all ← slice_to total_tcp_len data;
        c ← tcp_compute_checksum_raw all ip total_tcp_len;
        if negb (c =? 0) then Ret (inl InvalidChecksum)
        else Ret (inr (th, payload)).

(** ** ARP *)
Record ArpPacket := {
  hardware_address_type : BigEndian;
  protocol_address_type : BigEndian;
  hardware_address_length : BigEndian;
  protocol_address_length : BigEndian;
  operation : BigEndian;
  source_mac_address : MacAddress;
  source_ip_address : Ipv4Addr;
  destination_mac_address : MacAddress;
  destination_ip_address : Ipv4Addr;
}.

Definition ARP_REQUEST : Z := 1.
Definition ARP_RESPONSE : Z := 2.
Definition HARDWARE_ADDRESS_TYPE_ETHERNET : Z := 1.
Definition PROTOCOL_ADDRESS_TYPE_IPV4 : Z := 0x0800.

Definition arp_slice (h : ArpPacket) : list Z :=
  field_bytes 2 (hardware_address_type h) ++ field_bytes 2 (protocol_address_type h) ++
  field_bytes 1 (hardware_address_length h) ++ field_bytes 1 (protocol_address_length h) ++
  field_bytes 2 (operation h) ++ as_bytes (source_mac_address h) ++
  octets (source_ip_address h) ++ as_bytes (destination_mac_address h) ++
  octets (destination_ip_address h).

Definition parse_arp (data : list Z) : ArpPacket := {|
  hardware_address_type := field 2 0 data; protocol_address_type := field 2 2 data;
  hardware_address_length := field 1 4 data; protocol_address_length := field 1 5 data;
  operation := field 2 6 data; source_mac_address := mac_at 8 data;
  source_ip_address := ip_at 14 data; destination_mac_address := mac_at 18 data;
  destination_ip_address := ip_at 24 data |}.

Definition new_reply (cfg : NetConfig) (dst_mac : MacAddress) (dst_ip : Ipv4Addr) : ArpPacket := {|
  hardware_address_type := from_little_endian 2 HARDWARE_ADDRESS_TYPE_ETHERNET;
  protocol_address_type := from_little_endian 2 PROTOCOL_ADDRESS_TYPE_IPV4;
  hardware_address_length := from_little_endian 1 6;
  protocol_address_length := from_little_endian 1 4;
  operation := from_little_endian 2 ARP_RESPONSE;
  source_mac_address := current_mac_address cfg;
  source_ip_address := ip_addr cfg;
  destination_mac_address := dst_mac;
  destination_ip_address := dst_ip |}.

Abbreviation arp_cache := (gmap Ipv4Addr MacAddress).

Definition cache_lookup (c : arp_cache) (ip : Ipv4Addr) : option MacAddress := c !! ip.
Definition cache_insert (c : arp_cache) (ip : Ipv4Addr) (mac : MacAddress) : arp_cache :=
  <[ip := mac]> c.

(** [process_and_respond]: the new cache and the packet sent, if any. *)
Definition process_and_respond (cfg : NetConfig) (cache : arp_cache) (data : list Z)
    : outcome (arp_cache * option (list Z)) :=
  rassert (bool_decide (28 ≤ length data)%nat);;
  let h := parse_arp data in
  rassert (get 2 (hardware_address_type h) =? HARDWARE_ADDRESS_TYPE_ETHERNET);;
  rassert (get 2 (protocol_address_type h) =? PROTOCOL_ADDRESS_TYPE_IPV4);;
  rassert (get 1 (hardware_address_length h) =? 6);;
  rassert (get 1 (protocol_address_length h) =? 4);;
  rassert (get 2 (operation h) =? ARP_REQUEST);;
  if negb (bool_decide (destination_ip_address h = ip_addr cfg)) then Ret (cache, None)
  else
    let cache := <[source_ip_address h := source_mac_address h]> cache in
    let reply := new_reply cfg (source_mac_address h) (source_ip_address h) in
    let eth := eth_new (source_mac_address h) (current_mac_address cfg) Arp in
    Ret (cache, Some (replicate DRIVER_HEADER_RESERVE 0 ++ eth_slice eth ++ arp_slice reply)).
