(* ===== verification/PacketTheorems.v ===== *)
(** Correctness of the packet formats of [Packets]: headers are read back as
    they were written, checksums verify, and a packet built for a destination
    is accepted there with its contents intact. *)
From S2P Require Import Prelude Headers Bytes Checksum Packets.

(** ** Reading a field behind a prefix *)
Lemma field_skip n off pre l : (length pre ≤ off)%nat →
  field n off (pre ++ l) = field n (off - length pre) l.
Proof. intros H. unfold field. by rewrite drop_app_ge. Qed.

Lemma field_here n b l : be_ok n b → field n 0 (field_bytes n b ++ l) = b.
Proof. intros. by apply (field_app n 0 []). Qed.

Lemma field_last n b : be_ok n b → field n 0 (field_bytes n b) = b.
Proof. intros. rewrite <-(app_nil_r (field_bytes n b)). by apply field_here. Qed.

Lemma byte_at_skip i pre l : (length pre ≤ i)%nat → byte_at (pre ++ l) i = byte_at l (i - length pre).
Proof. intros. unfold byte_at. by rewrite lookup_app_r. Qed.

Lemma ip_at_skip off pre l : (length pre ≤ off)%nat →
  ip_at off (pre ++ l) = ip_at (off - length pre) l.
Proof.
  intros. unfold ip_at. rewrite !byte_at_skip by lia.
  f_equal; f_equal; lia.
Qed.
Lemma mac_at_skip off pre l : (length pre ≤ off)%nat →
  mac_at off (pre ++ l) = mac_at (off - length pre) l.
Proof.
  intros. unfold mac_at. rewrite !byte_at_skip by lia.
  f_equal; f_equal; lia.
Qed.
Lemma ip_at_here a l : ip_at 0 (octets a ++ l) = a.
Proof. by destruct a. Qed.
Lemma ip_at_last a : ip_at 0 (octets a) = a.
Proof. by destruct a. Qed.
Lemma mac_at_here m l : mac_at 0 (as_bytes m ++ l) = m.
Proof. by destruct m. Qed.
Lemma octets_length a : length (octets a) = 4%nat.
Proof. done. Qed.
Lemma as_bytes_length m : length (as_bytes m) = 6%nat.
Proof. done. Qed.

(** Walk to a field of a header, prefix by prefix. *)
Ltac lengths := rewrite ?field_length, ?octets_length, ?as_bytes_length.
Ltac parse_step :=
  first
    [ rewrite field_here by done
    | rewrite field_last by done
    | rewrite ip_at_here | rewrite ip_at_last | rewrite mac_at_here
    | rewrite field_skip by (lengths; lia); lengths; cbn [Nat.sub]
    | rewrite ip_at_skip by (lengths; lia); lengths; cbn [Nat.sub]
    | rewrite mac_at_skip by (lengths; lia); lengths; cbn [Nat.sub] ].
Ltac parse_fields := repeat parse_step.

(** ** Headers are read back as written *)
Record eth_ok (h : EthernetHeader) : Prop := { eo_type : be_ok 2 (eth_type h) }.

Lemma parse_eth_slice h l : eth_ok h → parse_eth (eth_slice h ++ l) = h.
Proof.
  intros []. unfold parse_eth, eth_slice. rewrite <-!app_assoc.
  transitivity (Build_EthernetHeader (destination_mac h) (source_mac h) (eth_type h));
    [f_equal; by parse_fields|by destruct h].
Qed.

Record ip_ok (h : IpV4Header) : Prop := {
  io_version : be_ok 1 (version_and_ihl h); io_tos : be_ok 1 (tos h);
  io_len : be_ok 2 (total_packet_length h); io_id : be_ok 2 (identification h);
  io_flags : be_ok 2 (flags_and_offset h); io_ttl : be_ok 1 (ttl h);
  io_proto : be_ok 1 (upper_protocol h); io_sum : be_ok 2 (header_checksum h);
}.

Lemma parse_ip_slice h l : ip_ok h → parse_ip (ip_slice h ++ l) = h.
Proof.
  intros []. unfold parse_ip, ip_slice. rewrite <-!app_assoc.
  transitivity (Build_IpV4Header (version_and_ihl h) (tos h) (total_packet_length h)
    (identification h) (flags_and_offset h) (ttl h) (upper_protocol h) (header_checksum h)
    (source_ip h) (destination_ip h));
    [f_equal; by parse_fields|by destruct h].
Qed.

Record udp_ok (h : UdpHeader) : Prop := {
  uo_src : be_ok 2 (udp_source_port h); uo_dst : be_ok 2 (udp_destination_port h);
  uo_len : be_ok 2 (udp_length h); uo_sum : be_ok 2 (udp_checksum h);
}.

Lemma parse_udp_slice h l : udp_ok h → parse_udp (udp_slice h ++ l) = h.
Proof.
  intros []. unfold parse_udp, udp_slice. rewrite <-!app_assoc.
  transitivity (Build_UdpHeader (udp_source_port h) (udp_destination_port h) (udp_length h)
    (udp_checksum h));
    [f_equal; by parse_fields|by destruct h].
Qed.

Record tcp_ok (h : TcpHeader) : Prop := {
  to_src : be_ok 2 (tcp_source_port h); to_dst : be_ok 2 (tcp_destination_port h);
  to_seq : be_ok 4 (tcp_sequence_number h); to_ack : be_ok 4 (tcp_acknowledgment_number h);
  to_flags : be_ok 2 (data_offset_and_flags h); to_win : be_ok 2 (window_size h);
  to_sum : be_ok 2 (tcp_checksum h); to_urg : be_ok 2 (urgent_pointer h);
}.

Lemma parse_tcp_slice h l : tcp_ok h → parse_tcp (tcp_slice h ++ l) = h.
Proof.
  intros []. unfold parse_tcp, tcp_slice. rewrite <-!app_assoc.
  transitivity (Build_TcpHeader (tcp_source_port h) (tcp_destination_port h)
    (tcp_sequence_number h) (tcp_acknowledgment_number h) (data_offset_and_flags h)
    (window_size h) (tcp_checksum h) (urgent_pointer h));
    [f_equal; by parse_fields|by destruct h].
Qed.

Record arp_ok (h : ArpPacket) : Prop := {
  ao_ht : be_ok 2 (hardware_address_type h); ao_pt : be_ok 2 (protocol_address_type h);
  ao_hl : be_ok 1 (hardware_address_length h); ao_pl : be_ok 1 (protocol_address_length h);
  ao_op : be_ok 2 (operation h);
}.

Lemma parse_arp_slice h l : arp_ok h → parse_arp (arp_slice h ++ l) = h.
Proof.
  intros []. unfold parse_arp, arp_slice. rewrite <-!app_assoc.
  transitivity (Build_ArpPacket (hardware_address_type h) (protocol_address_type h)
    (hardware_address_length h) (protocol_address_length h) (operation h)
    (source_mac_address h) (source_ip_address h) (destination_mac_address h)
    (destination_ip_address h));
    [f_equal; by parse_fields|by destruct h].
Qed.

(** ** Filling in a checksum *)
Lemma be_bytes_2 c : 0 ≤ c < 65536 → be_bytes 2 c = [c / 256; c mod 256].
Proof.
  intros Hc. unfold be_bytes. simpl. rewrite (Z.mod_small (c / 256)); [done|].
  split; [apply Z.div_pos; lia|apply Z.div_lt_upper_bound; lia].
Qed.

Lemma be_bytes_bytes n v : bytes (be_bytes n v).
Proof. apply rev_bytes, le_bytes_bytes. Qed.

Lemma be_bytes_length n v : length (be_bytes n v) = n.
Proof. unfold be_bytes. by rewrite length_rev, le_bytes_length. Qed.

Lemma internet_checksum_range d : bytes d → 0 ≤ internet_checksum d < 65536.
Proof.
  intros Hd. unfold internet_checksum.
  pose proof (ones_fold_range (word_sum d) (word_sum_nonneg d Hd)). lia.
Qed.

(** The checksum of data whose checksum field holds the checksum computed with
    a zero field is zero. *)
Lemma checksum_fills pre post : bytes pre → bytes post → Nat.Even (length pre) →
  internet_checksum
    (pre ++ be_bytes 2 (internet_checksum (pre ++ be_bytes 2 0 ++ post)) ++ post) = 0.
Proof.
  intros Hpre Hpost He. pose proof (word_sum_nonneg _ Hpre). pose proof (word_sum_nonneg _ Hpost).
  assert (∀ c, 0 ≤ c < 65536 → word_sum (pre ++ be_bytes 2 c ++ post) =
            word_sum pre + word_sum post + c) as Hw.
  { intros c Hc. rewrite word_sum_app by done. rewrite be_bytes_2 by done. simpl.
    pose proof (Z.div_mod c 256). lia. }
  unfold internet_checksum at 1. rewrite Hw.
  - unfold internet_checksum. rewrite Hw, Z.add_0_r by lia.
    apply internet_checksum_verifies. lia.
  - apply internet_checksum_range. rewrite !Forall_app. split_and!; [done| |done].
    apply be_bytes_bytes.
Qed.

(** Projections of the header records. *)
Ltac hdr := cbn [version_and_ihl tos total_packet_length identification flags_and_offset ttl
  upper_protocol header_checksum source_ip destination_ip with_ip_checksum
  udp_source_port udp_destination_port udp_length udp_checksum
  tcp_source_port tcp_destination_port tcp_sequence_number tcp_acknowledgment_number
  data_offset_and_flags window_size tcp_checksum urgent_pointer with_tcp_checksum
  destination_mac source_mac eth_type eth_new].

Definition addr_ok (a : Ipv4Addr) : Prop := bytes (octets a).

Ltac bytes_tac :=
  rewrite ?Forall_app; split_and!; first [apply field_bytes_bytes | apply be_bytes_bytes | done].

(** ** IPv4 *)
(** The header up to and behind its checksum field. *)
Definition ip_front (h : IpV4Header) : list Z :=
  field_bytes 1 (version_and_ihl h) ++ field_bytes 1 (tos h) ++
  field_bytes 2 (total_packet_length h) ++ field_bytes 2 (identification h) ++
  field_bytes 2 (flags_and_offset h) ++ field_bytes 1 (ttl h) ++
  field_bytes 1 (upper_protocol h).
Definition ip_back (h : IpV4Header) : list Z := octets (source_ip h) ++ octets (destination_ip h).

Lemma ip_slice_split h c : ip_slice (with_ip_checksum h (from_little_endian 2 c)) =
  ip_front h ++ be_bytes 2 c ++ ip_back h.
Proof.
  unfold ip_slice, ip_front, ip_back, with_ip_checksum.
  hdr. by rewrite field_bytes_network, <-!app_assoc.
Qed.

Lemma ip_slice_length h : length (ip_slice h) = 20%nat.
Proof. unfold ip_slice. by rewrite !length_app, !field_length. Qed.

Lemma with_ip_checksum_self h : with_ip_checksum h (header_checksum h) = h.
Proof. by destruct h. Qed.

Lemma ip_checksum_roundtrip h : addr_ok (source_ip h) → addr_ok (destination_ip h) →
  header_checksum h = from_little_endian 2 0 →
  ∃ c, ip_calculate_checksum h = Ret c ∧ 0 ≤ c < 65536 ∧
    ip_calculate_checksum (with_ip_checksum h (from_little_endian 2 c)) = Ret 0.
Proof.
  intros Hs Hd H0. unfold addr_ok in *.
  assert (bytes (ip_front h)) as Hf by (unfold ip_front; bytes_tac).
  assert (bytes (ip_back h)) as Hb by (unfold ip_back; bytes_tac).
  assert (∀ c, ip_calculate_checksum (with_ip_checksum h (from_little_endian 2 c)) =
    Ret (internet_checksum (ip_front h ++ be_bytes 2 c ++ ip_back h))) as Hc.
  { intros c. unfold ip_calculate_checksum. rewrite <-ip_slice_split.
    set (h' := with_ip_checksum h (from_little_endian 2 c)).
    assert (concat [ip_slice h'] = ip_slice h') as Hcat by apply app_nil_r.
    rewrite checksum_Ret; rewrite Hcat; [done| |rewrite ip_slice_length; lia].
    unfold h'. rewrite ip_slice_split. bytes_tac. }
  pose proof (Hc 0) as Hc0. rewrite <-H0, with_ip_checksum_self in Hc0.
  eexists. split; [exact Hc0|]. split; [apply internet_checksum_range; bytes_tac|].
  rewrite Hc, checksum_fills; [done|done|done|].
  exists 5%nat. unfold ip_front. by rewrite !length_app, !field_length.
Qed.

Section stack.
Context `{HH : Headers} `{HO : !HeadersOk HH}.

Lemma ip_new_Ret cfg dst proto n : 0 ≤ proto < 256 → 0 ≤ n → n + 20 < 65536 →
  ∃ h, ip_new cfg dst proto n = Ret h ∧ ip_ok h ∧ get 2 (total_packet_length h) = n + 20 ∧
    get 1 (upper_protocol h) = proto ∧ source_ip h = ip_addr cfg ∧ destination_ip h = dst ∧
    get 1 (version_and_ihl h) = 0x45 ∧ get 2 (flags_and_offset h) = 0 ∧
    header_checksum h = from_little_endian 2 0.
Proof.
  intros Hp Hn Hl. unfold ip_new, IP_HEADER_SIZE.
  rewrite (proj2 (add_Ret 64 20 n (20 + n))) by lia. bstep. unfold u16_try_from.
  rewrite (proj2 (Z.ltb_lt _ _)) by lia. bstep. eexists. split; [done|]. hdr.
  split; [split; apply from_little_endian_ok|].
  rewrite get_from_little_endian by (change (256 ^ Z.of_nat 2) with 65536; lia).
  rewrite get_from_little_endian by (change (256 ^ Z.of_nat 1) with 256; lia).
  split_and!; (done || lia).
Qed.

(** A header built by [new] with its checksum filled in is accepted by the
    destination. *)
Lemma ip_process_built cfg cfg' dst proto n h c rest :
  ip_ok h → get 2 (total_packet_length h) = n + 20 → get 1 (upper_protocol h) = proto →
  source_ip h = ip_addr cfg → destination_ip h = dst → get 1 (version_and_ihl h) = 0x45 →
  get 2 (flags_and_offset h) = 0 → proto = 6 ∨ proto = 17 →
  ip_calculate_checksum (with_ip_checksum h (from_little_endian 2 c)) = Ret 0 →
  ip_addr cfg' = dst → Z.of_nat (length rest) = n →
  ip_process cfg' (ip_slice (with_ip_checksum h (from_little_endian 2 c)) ++ rest) =
    Ret (inr (with_ip_checksum h (from_little_endian 2 c), rest)).
Proof.
  intros Hok Hlen Hproto Hs Hd Hv Hf Hpr Hsum Hip Hr. unfold ip_process.
  rewrite bool_decide_false by (rewrite length_app, ip_slice_length; lia).
  set (h' := with_ip_checksum h (from_little_endian 2 c)) in *.
  assert (ip_ok h') as Hok'.
  { destruct Hok. split; try done. apply from_little_endian_ok. }
  rewrite parse_ip_slice by done. unfold h'. hdr. rewrite Hv, Hlen, Hf, Hd, Hproto.
  change (Z.shiftr 69 4 =? 4) with true. change (Z.land 69 15 =? 5) with true. bstep.
  rewrite length_app, ip_slice_length.
  rewrite (proj2 (Z.leb_le _ _)) by lia. change (Z.land 0 4 =? 0) with true. bstep.
  rewrite Hip, bool_decide_true by done. bstep. cbn [orb].
  destruct ipproto_values as [-> ->].
  assert ((proto =? 17) || (proto =? 6) = true) as ->.
  { by destruct Hpr as [-> | ->]. }
  bstep. unfold ip_checksum_correct. fold h'. rewrite Hsum. bstep. cbn [Z.eqb]. bstep.
  by rewrite drop_app_length' by by rewrite ip_slice_length.
Qed.

(** ** UDP *)
Lemma udp_slice_length h : length (udp_slice h) = 8%nat.
Proof. unfold udp_slice. by rewrite !length_app, !field_length. Qed.

Lemma pseudo_header_length ip proto n : length (pseudo_header ip proto n) = 12%nat.
Proof. unfold pseudo_header. by rewrite !length_app, be_bytes_length. Qed.

Lemma pseudo_header_bytes ip proto n : addr_ok (source_ip ip) → addr_ok (destination_ip ip) →
  is_byte proto → bytes (pseudo_header ip proto n).
Proof.
  intros Hs Hd Hp. unfold pseudo_header. rewrite !Forall_app.
  split_and!; [done|done| |apply be_bytes_bytes].
  rewrite !Forall_cons, Forall_nil. unfold is_byte in *. lia.
Qed.

(** A UDP header with its checksum field cut out. *)
Definition udp_hdr (src dst len c : Z) : UdpHeader :=
  {| udp_source_port := from_little_endian 2 src; udp_destination_port := from_little_endian 2 dst;
     udp_length := from_little_endian 2 len; udp_checksum := from_little_endian 2 c |}.

Lemma udp_hdr_ok src dst len c : udp_ok (udp_hdr src dst len c).
Proof. split; apply from_little_endian_ok. Qed.

Lemma udp_checksum_eq data ip src dst len c :
  addr_ok (source_ip ip) → addr_ok (destination_ip ip) → bytes data →
  len = 8 + Z.of_nat (length data) → len < 65536 →
  udp_compute_checksum data (udp_hdr src dst len c) ip =
    Ret (internet_checksum ((pseudo_header ip 17 len ++ be_bytes 2 src ++ be_bytes 2 dst ++
           be_bytes 2 len) ++ be_bytes 2 c ++ data)).
Proof.
  intros Hs Hd Hb Hlen Hl. unfold udp_compute_checksum, udp_hdr. hdr.
  rewrite get_from_little_endian by (change (256 ^ Z.of_nat 2) with 65536; lia).
  unfold UDP_HEADER_SIZE. rewrite (proj2 (sub_Ret len 8 _)) by (split; [done|lia]). bstep.
  rewrite (proj2 (Z.eqb_eq _ _)) by lia. bstep.
  match goal with |- ones_complement_checksum ?x = Ret (internet_checksum ?y) =>
    assert (concat x = y) as Hcat end.
  { unfold udp_slice. hdr. rewrite !field_bytes_network. cbn [concat].
    by rewrite app_nil_r, <-!app_assoc. }
  rewrite checksum_Ret; rewrite Hcat; [done| |].
  - pose proof (pseudo_header_bytes ip 17 len Hs Hd ltac:(done)). bytes_tac.
  - rewrite !length_app, pseudo_header_length, !be_bytes_length. lia.
Qed.

Lemma udp_accepts data ip src dst len :
  addr_ok (source_ip ip) → addr_ok (destination_ip ip) → bytes data →
  len = 8 + Z.of_nat (length data) → len < 65536 →
  ∃ c, udp_compute_checksum data (udp_hdr src dst len 0) ip = Ret c ∧
    ∀ ip', source_ip ip' = source_ip ip → destination_ip ip' = destination_ip ip →
    udp_process (udp_slice (udp_hdr src dst len c) ++ data) ip' =
      Ret (inr (udp_hdr src dst len c, data)).
Proof.
  intros Hs Hd Hb Hlen Hl. rewrite udp_checksum_eq by done.
  set (front := pseudo_header ip 17 len ++ be_bytes 2 src ++ be_bytes 2 dst ++ be_bytes 2 len).
  set (c := internet_checksum (front ++ be_bytes 2 0 ++ data)).
  exists c. split; [done|]. intros ip' Hs' Hd'. unfold udp_process.
  rewrite bool_decide_false by (rewrite length_app, udp_slice_length; lia).
  rewrite parse_udp_slice by apply udp_hdr_ok.
  rewrite drop_app_length' by by rewrite udp_slice_length.
  assert (get 2 (udp_length (udp_hdr src dst len c)) = len) as ->.
  { apply get_from_little_endian. change (256 ^ Z.of_nat 2) with 65536. lia. }
  unfold UDP_HEADER_SIZE. rewrite (proj2 (add_Ret 64 (Z.of_nat (length data)) 8 len)) by lia. bstep.
  rewrite Z.leb_refl. bstep. rewrite (proj2 (sub_Ret len 8 (Z.of_nat (length data)))) by lia.
  bstep. unfold slice_to. rewrite Z.leb_refl. bstep. rewrite Nat2Z.id, take_ge by done.
  assert (udp_compute_checksum data (udp_hdr src dst len c) ip' = Ret 0) as Hc.
  { rewrite udp_checksum_eq by (rewrite ?Hs', ?Hd'; done).
    replace (pseudo_header ip' 17 len) with (pseudo_header ip 17 len)
      by (unfold pseudo_header; by rewrite Hs', Hd').
    fold front. f_equal. unfold c. apply checksum_fills; [|done|].
    - pose proof (pseudo_header_bytes ip 17 len Hs Hd ltac:(done)). unfold front. bytes_tac.
    - exists 9%nat. unfold front. rewrite !length_app, pseudo_header_length, !be_bytes_length. lia. }
  rewrite Hc. bstep. by destruct (get 2 _ =? 0).
Qed.

(** ** TCP *)
Lemma tcp_slice_length h : length (tcp_slice h) = 20%nat.
Proof. unfold tcp_slice. by rewrite !length_app, !field_length. Qed.

Definition tcp_hdr (src dst seq ack fl win c : Z) : TcpHeader := {|
  tcp_source_port := from_little_endian 2 src; tcp_destination_port := from_little_endian 2 dst;
  tcp_sequence_number := from_little_endian 4 seq;
  tcp_acknowledgment_number := from_little_endian 4 ack;
  data_offset_and_flags := from_little_endian 2 (Z.lor (Z.shiftl 5 12) (Z.land fl 0x1FF));
  window_size := from_little_endian 2 win; tcp_checksum := from_little_endian 2 c;
  urgent_pointer := from_little_endian 2 0 |}.

Lemma tcp_hdr_ok src dst seq ack fl win c : tcp_ok (tcp_hdr src dst seq ack fl win c).
Proof. split; apply from_little_endian_ok. Qed.

(** The data offset and the flags of a header built with offset 5. *)
Lemma tcp_offset_flags fl : 0 ≤ fl < 512 →
  let v := Z.lor (Z.shiftl 5 12) (Z.land fl 0x1FF) in
  0 ≤ v < 65536 ∧ Z.shiftr v 12 = 5 ∧ Z.land v 0x1FF = fl.
Proof.
  intros Hf v. assert (v = 20480 + fl) as ->.
  { unfold v. change 0x1FF with (Z.ones 9). rewrite Z.land_ones, Z.mod_small by lia.
    change (Z.shiftl 5 12) with 20480. rewrite <-Z.lxor_lor, <-Z.add_nocarry_lxor; [done|..].
    all: apply Z.bits_inj'; intros i Hi; rewrite Z.land_spec, Z.testbit_0_l;
      destruct (decide (i < 9)).
    all: try (rewrite (testbit_out 9 fl i); [by rewrite andb_false_r|split; lia|lia]).
    all: change 20480 with (Z.shiftl 40 9); rewrite Z.shiftl_spec_low by lia; done. }
  split; [lia|]. split.
  - rewrite Z.shiftr_div_pow2 by lia. change (2 ^ 12) with 4096.
    symmetry. apply (Z.div_unique_pos _ _ _ fl); lia.
  - change 0x1FF with (Z.ones 9). rewrite Z.land_ones by lia. change (2 ^ 9) with 512.
    symmetry. apply (Z.mod_unique_pos _ _ 40); lia.
Qed.

Lemma tcp_checksum_eq data ip src dst seq ack fl win c :
  addr_ok (source_ip ip) → addr_ok (destination_ip ip) → bytes data →
  20 + Z.of_nat (length data) < 65536 →
  let th := tcp_hdr src dst seq ack fl win in
  let front := pseudo_header ip IPPROTO_TCP (20 + Z.of_nat (length data)) ++
    take 16 (tcp_slice (th 0)) in
  bytes front ∧ length front = 28%nat ∧
  tcp_slice (th c) ++ data = take 16 (tcp_slice (th 0)) ++ be_bytes 2 c ++ [0; 0] ++ data ∧
  (∀ slices, concat slices = pseudo_header ip IPPROTO_TCP (20 + Z.of_nat (length data)) ++
      tcp_slice (th c) ++ data →
    ones_complement_checksum slices =
      Ret (internet_checksum (front ++ be_bytes 2 c ++ [0; 0] ++ data))).
Proof.
  intros Hs Hd Hb Hl th front.
  assert (tcp_slice (th c) ++ data = take 16 (tcp_slice (th 0)) ++ be_bytes 2 c ++ [0; 0] ++ data) as Hsp.
  { unfold th, tcp_hdr, tcp_slice. hdr. rewrite !field_bytes_network.
    rewrite !(take_app_ge _ _ 16) by (rewrite be_bytes_length; lia).
    rewrite !be_bytes_length.
    repeat (rewrite take_app_ge by (rewrite be_bytes_length; simpl; lia);
            rewrite be_bytes_length; cbn [Nat.sub]). cbn [Nat.sub].
    rewrite take_0. rewrite <-!app_assoc. done. }
  assert (bytes (take 16 (tcp_slice (th 0)))) as Ht.
  { apply Forall_take. unfold tcp_slice. bytes_tac. }
  destruct ipproto_values as [Htcp _].
  assert (bytes front) as Hfb.
  { unfold front. rewrite Forall_app. split; [|done].
    apply pseudo_header_bytes; [done|done|]. rewrite Htcp. done. }
  assert (length front = 28%nat) as Hfl.
  { unfold front. rewrite length_app, pseudo_header_length, length_take, tcp_slice_length. lia. }
  split; [done|]. split; [done|]. split; [done|]. intros slices Hcat.
  assert (concat slices = front ++ be_bytes 2 c ++ [0; 0] ++ data) as Hcat'.
  { rewrite Hcat, Hsp. unfold front. by rewrite <-app_assoc. }
  rewrite checksum_Ret; rewrite Hcat'; [done| |].
  - rewrite !Forall_app. split_and!; [done|apply be_bytes_bytes|by repeat constructor|done].
  - rewrite !length_app, Hfl, be_bytes_length. simpl. lia.
Qed.

Lemma tcp_accepts data ip src dst seq ack fl win :
  addr_ok (source_ip ip) → addr_ok (destination_ip ip) → bytes data → 0 ≤ fl < 512 →
  40 + Z.of_nat (length data) < 65536 →
  ∃ c, tcp_compute_checksum data (tcp_hdr src dst seq ack fl win 0) ip = Ret c ∧
    ∀ ip', source_ip ip' = source_ip ip → destination_ip ip' = destination_ip ip →
    get 2 (total_packet_length ip') = 40 + Z.of_nat (length data) →
    tcp_process (tcp_slice (tcp_hdr src dst seq ack fl win c) ++ data) ip' =
      Ret (inr (tcp_hdr src dst seq ack fl win c, data)).
Proof.
  intros Hs Hd Hb Hfl Hl.
  destruct (tcp_checksum_eq data ip src dst seq ack fl win 0 Hs Hd Hb ltac:(lia))
    as (Hfb & Hlen & _ & Hc0).
  set (front := _ ++ take 16 _) in *.
  set (c := internet_checksum (front ++ be_bytes 2 0 ++ [0; 0] ++ data)).
  exists c. split.
  { unfold tcp_compute_checksum, TCP_HEADER_SIZE, tcp_pseudo_header, u16_try_from.
    rewrite (proj2 (add_Ret 64 20 (Z.of_nat (length data)) _)) by (split; [done|lia]). bstep.
    rewrite (proj2 (Z.ltb_lt _ _)) by lia. bstep. apply Hc0. cbn [concat].
    by rewrite app_nil_r. }
  intros ip' Hs' Hd' Htl. unfold tcp_process.
  rewrite bool_decide_false by (rewrite length_app, tcp_slice_length; lia).
  rewrite parse_tcp_slice by apply tcp_hdr_ok.
  destruct (tcp_offset_flags fl Hfl) as (Hv & Ho & _).
  assert (Z.shiftr (get 2 (data_offset_and_flags (tcp_hdr src dst seq ack fl win c))) 12 = 5) as ->.
  { unfold tcp_hdr. hdr. by rewrite get_from_little_endian. }
  change (5 <? 5) with false. cbn iota. change (5 * 4) with 20.
  rewrite length_app, tcp_slice_length, (proj2 (Z.ltb_ge _ _)) by lia.
  change (Z.to_nat 20) with 20%nat. rewrite drop_app_length' by by rewrite tcp_slice_length.
  rewrite Htl. unfold IP_HEADER_SIZE. set (n := Z.of_nat (length data)) in *.
  rewrite (proj2 (sub_Ret (40 + n) 20 (20 + n))) by lia. bstep.
  rewrite (proj2 (sub_Ret (20 + n) 20 n)) by lia. bstep. unfold slice_to.
  rewrite (proj2 (Z.leb_le n _)) by lia. bstep.
  rewrite length_app, tcp_slice_length, (proj2 (Z.leb_le _ _)) by lia. bstep.
  rewrite (take_ge data), (take_ge (_ ++ _)) by (rewrite ?length_app, ?tcp_slice_length; lia).
  unfold tcp_compute_checksum_raw, tcp_pseudo_header, u16_try_from.
  rewrite (proj2 (Z.ltb_lt (20 + n) _)) by lia. bstep.
  destruct (tcp_checksum_eq data ip src dst seq ack fl win c Hs Hd Hb ltac:(lia))
    as (_ & _ & _ & Hc). fold front in Hc.
  rewrite Hc.
  2: { cbn [concat]. rewrite app_nil_r. unfold pseudo_header. by rewrite Hs', Hd'. }
  bstep. replace (internet_checksum _) with 0; [done|]. symmetry. unfold c.
  apply checksum_fills; [done| |exists 14%nat; lia].
  rewrite Forall_app. split; [by repeat constructor|done].
Qed.

(** ** Building packets *)
Lemma create_tcp_packet_Ret cfg dst mac sp dp seq ack fl win data :
  addr_ok (ip_addr cfg) → addr_ok dst → bytes data → 0 ≤ fl < 512 →
  40 + Z.of_nat (length data) < 65536 →
  ∃ ih c, ip_ok ih ∧ source_ip ih = ip_addr cfg ∧ destination_ip ih = dst ∧
    get 2 (total_packet_length ih) = 40 + Z.of_nat (length data) ∧
    get 1 (upper_protocol ih) = IPPROTO_TCP ∧
    create_tcp_packet cfg dst mac sp dp seq ack fl win data =
      Ret (replicate 12 0 ++ eth_slice (eth_new mac (current_mac_address cfg) IPv4) ++
           ip_slice ih ++ tcp_slice (tcp_hdr sp dp seq ack fl win c) ++ data) ∧
    (∀ cfg', ip_addr cfg' = dst →
       ip_process cfg' (ip_slice ih ++ tcp_slice (tcp_hdr sp dp seq ack fl win c) ++ data) =
         Ret (inr (ih, tcp_slice (tcp_hdr sp dp seq ack fl win c) ++ data))) ∧
    tcp_process (tcp_slice (tcp_hdr sp dp seq ack fl win c) ++ data) ih =
      Ret (inr (tcp_hdr sp dp seq ack fl win c, data)).
Proof.
  intros Hs Hd Hb Hfl Hl. destruct ipproto_values as [Htcp Hudp].
  unfold create_tcp_packet, TCP_HEADER_SIZE. set (n := Z.of_nat (length data)) in *.
  rewrite (proj2 (add_Ret 64 20 n (20 + n))) by lia. bstep.
  destruct (ip_new_Ret cfg dst IPPROTO_TCP (20 + n)) as
    (h & -> & Hok & Htl & Hpr & Hsi & Hdi & Hv & Hf & H0); [lia|lia|lia|]. bstep.
  destruct (tcp_accepts data h sp dp seq ack fl win) as (c & Hc & Hacc);
    [by rewrite Hsi|by rewrite Hdi|done|done|lia|].
  unfold tcp_hdr in Hc. rewrite Hc. bstep.
  destruct (ip_checksum_roundtrip h) as (ci & -> & _ & Hsum); [by rewrite Hsi|by rewrite Hdi|done|].
  bstep. exists (with_ip_checksum h (from_little_endian 2 ci)), c.
  split; [destruct Hok; split; try done; apply from_little_endian_ok|].
  split; [done|]. split; [done|]. split; [hdr; lia|]. split; [done|]. split; [done|]. split.
  - intros cfg' Hip. eapply (ip_process_built cfg cfg' dst IPPROTO_TCP (20 + n) h);
      try done; [left; by rewrite Htcp|].
    rewrite length_app, tcp_slice_length. lia.
  - apply Hacc; hdr; (done || lia).
Qed.

Lemma create_udp_packet_Ret cfg dst mac sp dp data :
  addr_ok (ip_addr cfg) → addr_ok dst → bytes data → 28 + Z.of_nat (length data) < 65536 →
  ∃ ih c, ip_ok ih ∧ source_ip ih = ip_addr cfg ∧ destination_ip ih = dst ∧
    get 1 (upper_protocol ih) = 17 ∧
    create_udp_packet cfg dst dp mac sp data =
      Ret (replicate 12 0 ++ eth_slice (eth_new mac (current_mac_address cfg) IPv4) ++
           ip_slice ih ++ udp_slice (udp_hdr sp dp (8 + Z.of_nat (length data)) c) ++ data) ∧
    (∀ cfg', ip_addr cfg' = dst →
       ip_process cfg'
         (ip_slice ih ++ udp_slice (udp_hdr sp dp (8 + Z.of_nat (length data)) c) ++ data) =
       Ret (inr (ih, udp_slice (udp_hdr sp dp (8 + Z.of_nat (length data)) c) ++ data))) ∧
    udp_process (udp_slice (udp_hdr sp dp (8 + Z.of_nat (length data)) c) ++ data) ih =
      Ret (inr (udp_hdr sp dp (8 + Z.of_nat (length data)) c, data)).
Proof.
  intros Hs Hd Hb Hl. unfold create_udp_packet, UDP_HEADER_SIZE.
  set (n := Z.of_nat (length data)) in *.
  rewrite (proj2 (add_Ret 64 8 n (8 + n))) by lia. bstep. unfold u16_try_from.
  rewrite (proj2 (Z.ltb_lt _ _)) by lia. bstep.
  destruct (ip_new_Ret cfg dst 17 (8 + n)) as
    (h & Hnew & Hok & Htl & Hpr & Hsi & Hdi & Hv & Hf & H0); [lia|lia|lia|].
  unfold UDP_PROTOCOL_TYPE at 1. rewrite Hnew. bstep.
  destruct (udp_accepts data h sp dp (8 + n)) as (c & Hc & Hacc);
    [by rewrite Hsi|by rewrite Hdi|done|done|lia|].
  unfold udp_hdr in Hc. rewrite Hc. bstep.
  destruct (ip_checksum_roundtrip h) as (ci & -> & _ & Hsum); [by rewrite Hsi|by rewrite Hdi|done|].
  bstep. exists (with_ip_checksum h (from_little_endian 2 ci)), c.
  split; [destruct Hok; split; try done; apply from_little_endian_ok|].
  split; [done|]. split; [done|]. split; [done|]. split; [done|]. split.
  - intros cfg' Hip. eapply (ip_process_built cfg cfg' dst 17 (8 + n) h); try done; [by right|].
    rewrite length_app, udp_slice_length. lia.
  - apply Hacc; hdr; done.
Qed.

(** A packet of more than 64 KiB does not fit the length field: building it
    panics. *)
Lemma create_tcp_packet_too_big cfg dst mac sp dp seq ack fl win data :
  65536 ≤ 40 + Z.of_nat (length data) →
  create_tcp_packet cfg dst mac sp dp seq ack fl win data = Panic.
Proof.
  intros Hl. unfold create_tcp_packet, ip_new, TCP_HEADER_SIZE, IP_HEADER_SIZE, u16_try_from.
  destruct (add 64 20 (Z.of_nat (length data))) as [n|] eqn:Hn; [|done].
  apply add_Ret in Hn as [-> _]. bstep.
  destruct (add 64 20 (20 + Z.of_nat (length data))) as [n|] eqn:Hn; [|done].
  apply add_Ret in Hn as [-> _]. bstep.
  by rewrite (proj2 (Z.ltb_ge _ _)) by lia.
Qed.
End stack.
