(* ===== verification/Sockets.v ===== *)
(** UDP sockets: crates/kernel/src/net/sockets.rs.

    The socket map holds weak references; a socket lives as long as a file
    descriptor holds a strong one. [socks] is the store of socket objects, a
    socket whose last strong reference is gone but whose [drop] has not run yet
    is [dying]: it is still in the map, and upgrading it fails. *)
From S2P Require Import Prelude Bytes Packets.

Record Datagram := { from : Ipv4Addr; from_port : Z; data : list Z }.

Record AssignedSocket := Socket {
  datagrams : list Datagram;
  port : Z;
  dying : bool;
}.

Record OpenSockets := Open {
  sockets : gmap Z nat;               (* port to socket *)
  socks : gmap nat AssignedSocket;    (* the sockets that exist *)
}.

Definition open_new : OpenSockets := Open ∅ ∅.

(** A socket object that does not exist yet. *)
Definition fresh_sock (o : OpenSockets) : nat := fresh (dom (socks o) : gset nat).

Definition try_get_socket (o : OpenSockets) (p : Z) : option nat * OpenSockets :=
  match sockets o !! p with
  | Some _ => (None, o)
  | None =>
      let s := fresh_sock o in
      (Some s, Open (<[p := s]> (sockets o)) (<[s := Socket [] p false]> (socks o)))
  end.

(** [AssignedSocket::put_data] *)
Definition push_datagram (s : AssignedSocket) (d : Datagram) : AssignedSocket :=
  Socket (datagrams s ++ [d]) (port s) (dying s).

(** [OpenSockets::put_data]: upgrading a dying socket fails and panics. *)
Definition put_data (o : OpenSockets) (src : Ipv4Addr) (src_port to_port : Z) (d : list Z)
    : outcome OpenSockets :=
  match sockets o !! to_port with
  | None => Ret o
  | Some i =>
      s ← expect (socks o !! i);
      rassert (negb (dying s));;
      Ret (Open (sockets o)
             (<[i := push_datagram s {| from := src; from_port := src_port; data := d |}]>
                (socks o)))
  end.

(** [get_datagram] into a buffer: the buffer afterwards, and the result. *)
Definition get_datagram (o : OpenSockets) (i : nat) (out_buffer : list Z)
    : outcome (option (nat * Ipv4Addr * Z) * list Z * OpenSockets) :=
  s ← expect (socks o !! i);
  match datagrams s with
  | [] => Ret (None, out_buffer, o)
  | d :: rest =>
      let len := Nat.min (length (data d)) (length out_buffer) in
      Ret (Some (len, from d, from_port d),
           take len (data d) ++ drop len out_buffer,
           Open (sockets o) (<[i := Socket rest (port s) (dying s)]> (socks o)))
  end.

(** The last strong reference goes away ... *)
Definition release (o : OpenSockets) (i : nat) : outcome OpenSockets :=
  s ← expect (socks o !! i);
  Ret (Open (sockets o) (<[i := Socket (datagrams s) (port s) true]> (socks o))).

(** ... and then [drop] runs. *)
Definition drop_socket (o : OpenSockets) (i : nat) : outcome OpenSockets :=
  s ← expect (socks o !! i);
  rassert (bool_decide (is_Some (sockets o !! port s)));;
  Ret (Open (delete (port s) (sockets o)) (delete i (socks o))).

(** ** Invariant: the map and the sockets agree *)
Definition sockets_ok (o : OpenSockets) : Prop :=
  ∀ p i, sockets o !! p = Some i ↔ ∃ s, socks o !! i = Some s ∧ port s = p.

Lemma sockets_ok_lookup o p i : sockets_ok o → sockets o !! p = Some i →
  ∃ s, socks o !! i = Some s ∧ port s = p.
Proof. intros H. apply H. Qed.

Lemma sockets_ok_insert o i s s' : sockets_ok o → socks o !! i = Some s → port s' = port s →
  sockets_ok (Open (sockets o) (<[i := s']> (socks o))).
Proof.
  intros Hok Hi Hp p j. cbn [sockets socks]. rewrite (Hok p j).
  destruct (decide (j = i)) as [->|Hne].
  - rewrite lookup_insert_eq. split.
    + intros (s0 & Hs0 & Hps). simplify_eq. eauto.
    + intros (s0 & Hs0 & Hps). simplify_eq. eauto.
  - by rewrite lookup_insert_ne by done.
Qed.

Lemma try_get_socket_ok o p r o' : sockets_ok o → try_get_socket o p = (r, o') →
  sockets_ok o' ∧
  match r with
  | None => is_Some (sockets o !! p) ∧ o' = o
  | Some i => sockets o !! p = None ∧ socks o !! i = None ∧
      sockets o' = <[p := i]> (sockets o) ∧ socks o' = <[i := Socket [] p false]> (socks o)
  end.
Proof.
  intros Hok. unfold try_get_socket. destruct (sockets o !! p) as [j|] eqn:Hp.
  { intros [= <- <-]. eauto. }
  intros [= <- <-]. cbn [sockets socks].
  assert (socks o !! fresh_sock o = None) as Hf.
  { apply not_elem_of_dom. unfold fresh_sock. apply is_fresh. }
  split; [|done]. intros q j. cbn [sockets socks].
  destruct (decide (q = p)) as [->|Hq].
  - rewrite lookup_insert_eq. split.
    + intros [= <-]. rewrite lookup_insert_eq. eauto.
    + intros (s & Hs & Hps). apply lookup_insert_Some in Hs as [[<- _]|[_ Hs]]; [done|].
      assert (sockets o !! p = Some j) as Hx by (apply Hok; eauto). congruence.
  - rewrite lookup_insert_ne by done. rewrite (Hok q j). split.
    + intros (s & Hs & Hps). exists s. rewrite lookup_insert_ne; [done|congruence].
    + intros (s & Hs & Hps). apply lookup_insert_Some in Hs as [[_ <-]|[_ Hs]]; [done|]. eauto.
Qed.

Lemma put_data_ok o src sp p d : sockets_ok o →
  match sockets o !! p with
  | None => put_data o src sp p d = Ret o
  | Some i => ∃ s, socks o !! i = Some s ∧ port s = p ∧
      put_data o src sp p d =
        if dying s then Panic else
        Ret (Open (sockets o)
          (<[i := push_datagram s {| from := src; from_port := sp; data := d |}]> (socks o)))
  end.
Proof.
  intros Hok. unfold put_data. destruct (sockets o !! p) as [i|] eqn:Hp; [|done].
  destruct (sockets_ok_lookup o p i Hok Hp) as (s & Hs & Hps). exists s.
  split; [done|]. split; [done|]. rewrite Hs. bstep. by destruct (dying s).
Qed.

(** ** Operations as steps *)
Inductive sock_step : OpenSockets → OpenSockets → Prop :=
  | step_get o p r o' : try_get_socket o p = (r, o') → sock_step o o'
  | step_put o src sp p d o' : put_data o src sp p d = Ret o' → sock_step o o'
  | step_read o i b r b' o' : get_datagram o i b = Ret (r, b', o') → sock_step o o'
  | step_release o i o' : release o i = Ret o' → sock_step o o'
  | step_drop o i o' : drop_socket o i = Ret o' → sock_step o o'.

Lemma sock_step_ok o o' : sockets_ok o → sock_step o o' → sockets_ok o'.
Proof.
  intros Hok Hst. destruct Hst as [o p r o' H|o src sp p d o' H|o i b r b' o' H|o i o' H|o i o' H].
  - by eapply try_get_socket_ok.
  - pose proof (put_data_ok o src sp p d Hok) as Hp. destruct (sockets o !! p) as [i|].
    + destruct Hp as (s & Hs & _ & Heq). rewrite H in Heq. destruct (dying s); [done|].
      simplify_eq. by eapply sockets_ok_insert.
    + rewrite H in Hp. by simplify_eq.
  - unfold get_datagram in H. apply bind_Ret in H as (s & Hs%expect_Ret & H).
    destruct (datagrams s); simplify_eq; [done|]. by eapply sockets_ok_insert.
  - unfold release in H. apply bind_Ret in H as (s & Hs%expect_Ret & H). simplify_eq.
    by eapply sockets_ok_insert.
  - unfold drop_socket in H. apply bind_Ret in H as (s & Hs%expect_Ret & H).
    apply bind_Ret in H as (_ & _ & H). simplify_eq. intros p j. cbn [sockets socks].
    rewrite !lookup_delete_Some, (Hok p j). split.
    + intros (Hne & s' & Hs' & Hp). exists s'. split; [|done].
      rewrite lookup_delete_ne; [done|]. intros ->. congruence.
    + intros (s' & [Hne Hs']%lookup_delete_Some & Hp). split; [|eauto].
      intros Heq. apply Hne. assert (sockets o !! p = Some j) as H1 by (apply Hok; eauto).
      assert (sockets o !! port s = Some i) as H2 by (apply Hok; eauto). congruence.
Qed.

Lemma rtc_sockets_ok o o' : rtc sock_step o o' → sockets_ok o → sockets_ok o'.
Proof. induction 1 as [|o1 o2 o3 Hst _ IH]; [done|]. intros. by eapply IH, sock_step_ok. Qed.

Lemma open_new_ok : sockets_ok open_new.
Proof.
  intros p i. cbn [open_new sockets socks]. rewrite lookup_empty. split; [done|].
  intros (s & Hs & _). by rewrite lookup_empty in Hs.
Qed.

(** in every reachable state the port map and the socket objects agree, so
    a port is never bound twice, and delivering a datagram can only panic in
    one situation: the destination's last descriptor is gone but its [drop] has
    not yet removed it from the map. *)
Theorem socket_map_invariant o : rtc sock_step open_new o →
  (∀ i j s t, socks o !! i = Some s → socks o !! j = Some t → port s = port t → i = j) ∧
  (∀ p i, sockets o !! p = Some i → ∃ s, socks o !! i = Some s ∧ port s = p) ∧
  (∀ src sp p d, put_data o src sp p d = Panic ↔
     ∃ i s, sockets o !! p = Some i ∧ socks o !! i = Some s ∧ dying s = true).
Proof.
  intros Hr. assert (sockets_ok o) as Hok by (eapply rtc_sockets_ok; [done|apply open_new_ok]).
  split; [|split; [intros; by apply Hok|]].
  - intros i j s t Hi Hj Hp.
    assert (sockets o !! port s = Some i) as H1 by (apply Hok; eauto).
    assert (sockets o !! port s = Some j) as H2 by (apply Hok; eauto). congruence.
  - intros src sp p d. pose proof (put_data_ok o src sp p d Hok) as H.
    destruct (sockets o !! p) as [i|].
    + destruct H as (s & Hs & _ & ->). destruct (dying s) eqn:Hdy; split; try done; [eauto|].
      intros (i' & s' & [= <-] & Hs' & Hd). congruence.
    + rewrite H. split; [done|]. by intros (? & ? & ? & _).
Qed.

(** A socket is bound, its descriptor is closed, and a datagram arrives before
    [drop] has run. *)
Definition wit_sock : OpenSockets := (try_get_socket open_new 53).2.

Lemma socket_map_invariant_witness :
  ∃ o, rtc sock_step open_new o ∧ put_data o UNSPECIFIED 1 53 [] = Panic.
Proof.
  exists (match release wit_sock 0%nat with Ret o => o | Panic => wit_sock end).
  assert (rtc sock_step open_new (match release wit_sock 0%nat with Ret o => o | Panic => wit_sock end)) as Hr.
  { eapply rtc_l; [eapply (step_get open_new 53); reflexivity|].
    eapply rtc_once, (step_release _ 0%nat). reflexivity. }
  split; [exact Hr|]. apply (socket_map_invariant _ Hr).
  exists 0%nat. eexists. split; [reflexivity|split; reflexivity].
Defined.
