(* ===== verification/TcpConnection.v ===== *)
(** TCP connections: crates/kernel/src/net/tcp_connection.rs.

    A connection is a shared object driven by one async task. The task is
    modelled as a state machine whose states are the points where it awaits;
    [iteration] is the code from one await to the next. A [Waker] slot is a
    boolean (registered or not); an operation that takes the waker reports
    whether it woke the task. Packets handed to [send_packet] are logged. *)
From S2P Require Import Prelude Headers Bytes Checksum Packets.

Section tcp.
Context `{HH : Headers}.

Definition WINDOW_SIZE : Z := 8192.
Definition MAX_RETRANSMITS : nat := 5.

Definition FLAG_FIN : Z := TH_FIN.
Definition FLAG_SYN : Z := TH_SYN.
Definition FLAG_RST : Z := TH_RST.
Definition FLAG_ACK : Z := TH_ACK.

(** [flags & f != 0] *)
Definition has (fl f : Z) : bool := negb (Z.land fl f =? 0).

(** [fetch_add] on the port counter wraps, the assertion catches it. *)
Definition allocate_ephemeral_port (next : Z) : outcome (Z * Z) :=
  rassert (49152 <=? next);; Ret (next, wrapping_add 16 next 1).

Definition len_as_seq (len : nat) : outcome Z :=
  if Z.of_nat len <? 2 ^ 32 then Ret (Z.of_nat len) else Panic.

(** ** Data *)
Record ConnectionId := ConnId { local_port : Z; remote_ip : Ipv4Addr; remote_port : Z }.

Record ReceivedSegment := Segment { seg_seq : Z; seg_ack : Z; seg_flags : Z; seg_data : list Z }.

Record TcpConnection := Conn {
  id : ConnectionId;
  remote_mac : MacAddress;
  send_seq : Z;
  recv_ack : Z;
  recv_buffer : list Z;
  recv_waker : bool;
  segment_mailbox : list ReceivedSegment;
  segment_waker : bool;
  established : bool;
  closed : bool;
  user_close_requested : bool;
  send_buffer : list Z;
}.

Definition conn_new (i : ConnectionId) (mac : MacAddress) (initial_seq : Z) : TcpConnection :=
  Conn i mac initial_seq 0 [] false [] false false false false [].

(** Field assignments. *)
Definition set_send_seq c v := Conn (id c) (remote_mac c) v (recv_ack c) (recv_buffer c)
  (recv_waker c) (segment_mailbox c) (segment_waker c) (established c) (closed c)
  (user_close_requested c) (send_buffer c).
Definition set_recv_ack c v := Conn (id c) (remote_mac c) (send_seq c) v (recv_buffer c)
  (recv_waker c) (segment_mailbox c) (segment_waker c) (established c) (closed c)
  (user_close_requested c) (send_buffer c).
Definition set_recv_buffer c v := Conn (id c) (remote_mac c) (send_seq c) (recv_ack c) v
  (recv_waker c) (segment_mailbox c) (segment_waker c) (established c) (closed c)
  (user_close_requested c) (send_buffer c).
Definition set_recv_waker c v := Conn (id c) (remote_mac c) (send_seq c) (recv_ack c)
  (recv_buffer c) v (segment_mailbox c) (segment_waker c) (established c) (closed c)
  (user_close_requested c) (send_buffer c).
Definition set_mailbox c v := Conn (id c) (remote_mac c) (send_seq c) (recv_ack c)
  (recv_buffer c) (recv_waker c) v (segment_waker c) (established c) (closed c)
  (user_close_requested c) (send_buffer c).
Definition set_segment_waker c v := Conn (id c) (remote_mac c) (send_seq c) (recv_ack c)
  (recv_buffer c) (recv_waker c) (segment_mailbox c) v (established c) (closed c)
  (user_close_requested c) (send_buffer c).
Definition set_established c v := Conn (id c) (remote_mac c) (send_seq c) (recv_ack c)
  (recv_buffer c) (recv_waker c) (segment_mailbox c) (segment_waker c) v (closed c)
  (user_close_requested c) (send_buffer c).
Definition set_closed c v := Conn (id c) (remote_mac c) (send_seq c) (recv_ack c)
  (recv_buffer c) (recv_waker c) (segment_mailbox c) (segment_waker c) (established c) v
  (user_close_requested c) (send_buffer c).
Definition set_close_requested c v := Conn (id c) (remote_mac c) (send_seq c) (recv_ack c)
  (recv_buffer c) (recv_waker c) (segment_mailbox c) (segment_waker c) (established c) (closed c)
  v (send_buffer c).
Definition set_send_buffer c v := Conn (id c) (remote_mac c) (send_seq c) (recv_ack c)
  (recv_buffer c) (recv_waker c) (segment_mailbox c) (segment_waker c) (established c) (closed c)
  (user_close_requested c) v.

(** ** Methods of [TcpConnection]; the boolean is the waker taken *)
Definition deliver_segment (c : TcpConnection) (s : ReceivedSegment) : TcpConnection * bool :=
  (set_segment_waker (set_mailbox c (segment_mailbox c ++ [s])) false, segment_waker c).

Definition recv_data (c : TcpConnection) (count : nat) : list Z * TcpConnection :=
  let n := Nat.min count (length (recv_buffer c)) in
  (take n (recv_buffer c), set_recv_buffer c (drop n (recv_buffer c))).

Definition has_recv_data (c : TcpConnection) : bool :=
  match recv_buffer c with [] => false | _ => true end.

Definition queue_send_data (c : TcpConnection) (d : list Z) : TcpConnection * bool :=
  (set_segment_waker (set_send_buffer c (send_buffer c ++ d)) false, segment_waker c).

Definition request_close (c : TcpConnection) : TcpConnection * bool :=
  (set_segment_waker (set_close_requested c true) false, segment_waker c).

(** [WaitForRecvData::poll] *)
Definition wait_for_recv_data (c : TcpConnection) (count : nat) : option (list Z) * TcpConnection :=
  if has_recv_data c then let '(d, c) := recv_data c count in (Some d, c)
  else if closed c then (Some [], c)
  else (None, set_recv_waker c true).

(** ** Waiting for a segment *)
Inductive poll := ReadySegment (s : ReceivedSegment) | ReadyNone | PollPending.

(** [WaitForSegment::poll] *)
Definition wait_for_segment (c : TcpConnection) : TcpConnection * poll :=
  match segment_mailbox c with
  | s :: rest => (set_mailbox c rest, ReadySegment s)
  | [] =>
      if user_close_requested c || negb (bool_decide (send_buffer c = [])) then (c, ReadyNone)
      else (set_segment_waker c true, PollPending)
  end.

(** [SegmentOrTimeout::poll]: the segment first, then the timer. *)
Definition wait_for_segment_or_timeout (c : TcpConnection) (fired : bool) : TcpConnection * poll :=
  let '(c, r) := wait_for_segment c in
  match r with
  | PollPending => if fired then (c, ReadyNone) else (c, PollPending)
  | _ => (c, r)
  end.

(** ** The task *)
Inductive Phase :=
  | ServerHandshake (iss : Z) (retransmits : nat)
  | ClientHandshake (iss : Z) (retransmits : nat)
  | EstablishedLoop
  | FinWait (rounds : nat)
  | Finished.

Record Sent := SentSegment { s_flags : Z; s_seq : Z; s_ack : Z; s_data : list Z; s_packet : list Z }.

Record Task := {
  conn : TcpConnection;
  phase : Phase;
  sent : list Sent;
  in_table : bool;       (* still in TCP_CONNECTIONS *)
  backlogged : bool;     (* pushed to the listener *)
}.

Definition set_conn (t : Task) (c : TcpConnection) : Task :=
  {| conn := c; phase := phase t; sent := sent t; in_table := in_table t;
     backlogged := backlogged t |}.
Definition set_phase (t : Task) (p : Phase) : Task :=
  {| conn := conn t; phase := p; sent := sent t; in_table := in_table t;
     backlogged := backlogged t |}.
(** [push_connection] *)
Definition push_connection (t : Task) : Task :=
  {| conn := conn t; phase := phase t; sent := sent t; in_table := in_table t;
     backlogged := true |}.
(** [cleanup_connection], after which the task ends. *)
Definition cleanup_connection (t : Task) : Task :=
  {| conn := conn t; phase := Finished; sent := sent t; in_table := false;
     backlogged := backlogged t |}.

Definition send_data_packet (cfg : NetConfig) (t : Task) (fl seq ack : Z) (d : list Z)
    : outcome Task :=
  let c := conn t in
  packet ← create_tcp_packet cfg (remote_ip (id c)) (remote_mac c) (local_port (id c))
             (remote_port (id c)) seq ack fl WINDOW_SIZE d;
  Ret {| conn := c; phase := phase t; sent := sent t ++ [SentSegment fl seq ack d packet];
         in_table := in_table t; backlogged := backlogged t |}.

Definition flush_send_buffer (cfg : NetConfig) (t : Task) : outcome Task :=
  let c := conn t in
  match send_buffer c with
  | [] => Ret t
  | d =>
      n ← len_as_seq (length d);
      let t := set_conn t (set_send_seq (set_send_buffer c []) (wrapping_add 32 (send_seq c) n)) in
      send_data_packet cfg t FLAG_ACK (send_seq c) (recv_ack c) d
  end.

Definition send_fin (cfg : NetConfig) (t : Task) : outcome Task :=
  let c := conn t in
  let t := set_conn t (set_send_seq c (wrapping_add 32 (send_seq c) 1)) in
  send_data_packet cfg t (Z.lor FLAG_FIN FLAG_ACK) (send_seq c) (recv_ack c) [].

(** The code before the first await of [server_connection_task] and of
    [initiate_connect]. *)
Definition server_start (cfg : NetConfig) (c : TcpConnection) (syn : ReceivedSegment)
    : outcome Task :=
  let c := set_recv_ack c (wrapping_add 32 (seg_seq syn) 1) in
  send_data_packet cfg
    {| conn := c; phase := ServerHandshake (send_seq c) 0; sent := []; in_table := true;
       backlogged := false |}
    (Z.lor FLAG_SYN FLAG_ACK) (send_seq c) (recv_ack c) [].

Definition client_start (cfg : NetConfig) (i : ConnectionId) (mac : MacAddress) (iss : Z)
    : outcome Task :=
  send_data_packet cfg
    {| conn := conn_new i mac iss; phase := ClientHandshake iss 0; sent := []; in_table := true;
       backlogged := false |}
    FLAG_SYN iss 0 [].

(** [flush; send_fin; wait_for_fin_ack] up to its first await. *)
Definition start_close (cfg : NetConfig) (t : Task) : outcome Task :=
  t ← flush_send_buffer cfg t;
  t ← send_fin cfg t;
  Ret (set_phase t (FinWait MAX_RETRANSMITS)).

(** The locked block of [established_loop] that handles a segment without RST:
    the connection, the ACK to send, and whether to end or to close. *)
Definition process_segment (c : TcpConnection) (s : ReceivedSegment)
    : outcome (TcpConnection * option (Z * Z) * bool * bool) :=
  '(c, need_ack) ←
    (if negb (bool_decide (seg_data s = [])) && (seg_seq s =? recv_ack c) then
       n ← len_as_seq (length (seg_data s));
       Ret (set_recv_waker (set_recv_buffer (set_recv_ack c (wrapping_add 32 (recv_ack c) n))
              (recv_buffer c ++ seg_data s)) false, true)
     else Ret (c, false));
  if has (seg_flags s) FLAG_FIN then
    let c := set_recv_waker (set_closed (set_recv_ack c (wrapping_add 32 (recv_ack c) 1)) true) false in
    Ret (c, Some (send_seq c, recv_ack c), true, false)
  else
    Ret (c, if need_ack : bool then Some (send_seq c, recv_ack c) else None, false,
         user_close_requested c).

(** One iteration of [established_loop] from its await on, with the flush at
    the head of the next iteration. *)
Definition established_iteration (cfg : NetConfig) (t : Task) : outcome (Task * bool) :=
  let '(c, r) := wait_for_segment (conn t) in
  let t := set_conn t c in
  match r with
  | PollPending => Ret (t, false)
  | ReadySegment s =>
      if has (seg_flags s) FLAG_RST then
        Ret (cleanup_connection (set_conn t (set_recv_waker (set_closed c true) false)), true)
      else
        '(c, send_ack, do_fin_ack, do_user_close) ← process_segment c s;
        let t := set_conn t c in
        t ← match send_ack with
            | Some (seq, ack) => send_data_packet cfg t FLAG_ACK seq ack []
            | None => Ret t
            end;
        if do_fin_ack : bool then Ret (cleanup_connection t, true)
        else if do_user_close : bool then t ← start_close cfg t; Ret (t, true)
        else t ← flush_send_buffer cfg t; Ret (t, true)
  | ReadyNone =>
      if user_close_requested c then t ← start_close cfg t; Ret (t, true)
      else t ← flush_send_buffer cfg t; Ret (t, true)
  end.

(** The end of a connection closed by the user. *)
Definition finish_close (t : Task) : Task := cleanup_connection (set_conn t (set_closed (conn t) true)).

(** One iteration of [wait_for_fin_ack]. *)
Definition fin_wait_iteration (cfg : NetConfig) (t : Task) (rounds : nat) (fired : bool)
    : outcome (Task * bool) :=
  match rounds with
  | O => Ret (finish_close t, true)
  | S rounds =>
      let '(c, r) := wait_for_segment_or_timeout (conn t) fired in
      let t := set_conn t c in
      match r with
      | PollPending => Ret (t, false)
      | ReadySegment s =>
          if has (seg_flags s) FLAG_ACK then
            if has (seg_flags s) FLAG_FIN then
              let c := set_recv_ack c (wrapping_add 32 (recv_ack c) 1) in
              t ← send_data_packet cfg (set_conn t c) FLAG_ACK (send_seq c) (recv_ack c) [];
              Ret (finish_close t, true)
            else Ret (finish_close t, true)
          else if has (seg_flags s) FLAG_RST then Ret (finish_close t, true)
          else Ret (set_phase t (FinWait rounds), true)
      | ReadyNone =>
          t ← send_data_packet cfg t (Z.lor FLAG_FIN FLAG_ACK)
                (wrapping_sub 32 (send_seq c) 1) (recv_ack c) [];
          Ret (set_phase t (FinWait rounds), true)
      end
  end.

(** One iteration of the handshake loop of [server_connection_task]. *)
Definition server_iteration (cfg : NetConfig) (t : Task) (iss : Z) (retransmits : nat)
    (fired : bool) : outcome (Task * bool) :=
  let '(c, r) := wait_for_segment_or_timeout (conn t) fired in
  let t := set_conn t c in
  match r with
  | PollPending => Ret (t, false)
  | ReadySegment s =>
      if has (seg_flags s) FLAG_ACK && (seg_ack s =? wrapping_add 32 iss 1) then
        let c := set_recv_waker (set_established (set_send_seq c (wrapping_add 32 iss 1)) true) false in
        let t := push_connection (set_phase (set_conn t c) EstablishedLoop) in
        t ← flush_send_buffer cfg t; Ret (t, true)
      else if has (seg_flags s) FLAG_RST then Ret (cleanup_connection t, true)
      else Ret (t, true)
  | ReadyNone =>
      let retransmits := S retransmits in
      if bool_decide (MAX_RETRANSMITS ≤ retransmits)%nat then Ret (cleanup_connection t, true)
      else
        t ← send_data_packet cfg t (Z.lor FLAG_SYN FLAG_ACK) iss (recv_ack c) [];
        Ret (set_phase t (ServerHandshake iss retransmits), true)
  end.

(** One iteration of the handshake loop of [initiate_connect]. *)
Definition client_iteration (cfg : NetConfig) (t : Task) (iss : Z) (retransmits : nat)
    (fired : bool) : outcome (Task * bool) :=
  let '(c, r) := wait_for_segment_or_timeout (conn t) fired in
  let t := set_conn t c in
  match r with
  | PollPending => Ret (t, false)
  | ReadySegment s =>
      if has (seg_flags s) FLAG_SYN && has (seg_flags s) FLAG_ACK then
        let c := set_established (set_send_seq (set_recv_ack c (wrapping_add 32 (seg_seq s) 1))
                   (wrapping_add 32 iss 1)) true in
        t ← send_data_packet cfg (set_phase (set_conn t c) EstablishedLoop) FLAG_ACK
              (send_seq c) (recv_ack c) [];
        t ← flush_send_buffer cfg t; Ret (t, true)
      else if has (seg_flags s) FLAG_RST then Ret (cleanup_connection t, true)
      else Ret (t, true)
  | ReadyNone =>
      let retransmits := S retransmits in
      if bool_decide (MAX_RETRANSMITS ≤ retransmits)%nat then Ret (cleanup_connection t, true)
      else
        t ← send_data_packet cfg t FLAG_SYN iss 0 [];
        Ret (set_phase t (ClientHandshake iss retransmits), true)
  end.

(** From one await to the next; [true] if the task went on, [false] if it is
    suspended. [fired] says whether the timer of the current wait has expired. *)
Definition iteration (cfg : NetConfig) (t : Task) (fired : bool) : outcome (Task * bool) :=
  match phase t with
  | ServerHandshake iss n => server_iteration cfg t iss n fired
  | ClientHandshake iss n => client_iteration cfg t iss n fired
  | EstablishedLoop => established_iteration cfg t
  | FinWait n => fin_wait_iteration cfg t n fired
  | Finished => Ret (t, false)
  end.
End tcp.
