(* ===== verification/TcpTheorems.v ===== *)
(** Properties of a TCP connection over any interleaving of arriving segments,
    user operations, timers and runs of the connection's task: data is received
    in order, data is sent in order, and wake-ups are not lost. *)
From S2P Require Import Prelude Headers Bytes Checksum Packets PacketTheorems TcpConnection.

(** ** Interleavings *)
Section world.
Context `{HH : Headers}.

(** The task with the history the properties speak about: everything the user
    has read and queued, and whether the task is suspended. *)
Record World := {
  task : Task;
  asleep : bool;
  read : list Z;
  queued : list Z;
}.

Inductive event :=
  | Deliver (s : ReceivedSegment)   (* process_tcp_packet finds the connection *)
  | Queue (d : list Z)              (* send *)
  | Close                           (* shutdown, close *)
  | Recv (count : nat)              (* recv *)
  | Poll (fired : bool).            (* the executor polls the task *)

Definition exec (cfg : NetConfig) (w : World) (ev : event) : outcome World :=
  let t := task w in
  match ev with
  | Deliver s =>
      let '(c, woken) := deliver_segment (conn t) s in
      Ret {| task := set_conn t c; asleep := asleep w && negb woken;
             read := read w; queued := queued w |}
  | Queue d =>
      let '(c, woken) := queue_send_data (conn t) d in
      Ret {| task := set_conn t c; asleep := asleep w && negb woken;
             read := read w; queued := queued w ++ d |}
  | Close =>
      let '(c, woken) := request_close (conn t) in
      Ret {| task := set_conn t c; asleep := asleep w && negb woken;
             read := read w; queued := queued w |}
  | Recv n =>
      let '(r, c) := wait_for_recv_data (conn t) n in
      Ret {| task := set_conn t c; asleep := asleep w;
             read := read w ++ default [] r; queued := queued w |}
  | Poll fired =>
      if asleep w && negb fired then Ret w
      else
        '(t, went_on) ← iteration cfg t fired;
        Ret {| task := t; asleep := negb went_on; read := read w; queued := queued w |}
  end.

Definition start (t : Task) : World :=
  {| task := t; asleep := false; read := []; queued := [] |}.

(** ** Effects of the helpers *)
Lemma send_data_packet_inv cfg t fl seq ack d t' :
  send_data_packet cfg t fl seq ack d = Ret t' →
  ∃ pk, t' = {| conn := conn t; phase := phase t; sent := sent t ++ [SentSegment fl seq ack d pk];
                in_table := in_table t; backlogged := backlogged t |}.
Proof. unfold send_data_packet. intros H. inv_outcome. eauto. Qed.

Lemma len_as_seq_inv n k : len_as_seq n = Ret k → k = Z.of_nat n.
Proof. unfold len_as_seq. case_match; [by intros [= <-]|done]. Qed.

Lemma flush_send_buffer_inv cfg t t' : flush_send_buffer cfg t = Ret t' →
  (send_buffer (conn t) = [] ∧ t' = t) ∨
  (∃ pk, send_buffer (conn t) ≠ [] ∧
     t' = {| conn := set_send_seq (set_send_buffer (conn t) [])
                       (wrapping_add 32 (send_seq (conn t)) (Z.of_nat (length (send_buffer (conn t)))));
             phase := phase t;
             sent := sent t ++ [SentSegment FLAG_ACK (send_seq (conn t)) (recv_ack (conn t))
                                  (send_buffer (conn t)) pk];
             in_table := in_table t; backlogged := backlogged t |}).
Proof.
  unfold flush_send_buffer. destruct (send_buffer (conn t)) as [|b l] eqn:Hb.
  { intros [= <-]. by left. }
  intros H. apply bind_Ret in H as (n & ->%len_as_seq_inv & H).
  apply send_data_packet_inv in H as (pk & ->). right. exists pk. done.
Qed.

(** ** Suspension *)
Definition parked (c : TcpConnection) : Prop :=
  segment_waker c = true ∧ segment_mailbox c = [] ∧ user_close_requested c = false ∧
  send_buffer c = [].

Lemma wait_for_segment_pending c c' : wait_for_segment c = (c', PollPending) → parked c'.
Proof.
  unfold wait_for_segment, parked. destruct (segment_mailbox c) eqn:Hm; [|done].
  destruct (user_close_requested c) eqn:Hu; [done|]. case_bool_decide; [|done].
  intros [= <-]. done.
Qed.

Lemma iteration_suspends cfg t fired t' : iteration cfg t fired = Ret (t', false) →
  phase t' = Finished ∨ parked (conn t').
Proof.
  unfold iteration. destruct (phase t) as [iss n|iss n| |[|n]|] eqn:Hp.
  all: unfold server_iteration, client_iteration, established_iteration, fin_wait_iteration,
    wait_for_segment_or_timeout.
  6: intros [= ->]; by left.
  all: try (intros [=]; fail).
  all: destruct (wait_for_segment (conn t)) as [c [s| |]] eqn:Hw; try destruct fired;
    intros H; repeat (case_match || inv_outcome_step || simplify_eq/=).
  all: right; by eapply wait_for_segment_pending.
Qed.

Definition wake_ok (w : World) : Prop :=
  asleep w = true → phase (task w) = Finished ∨ parked (conn (task w)).

(** The only way a waker that is taken was not registered is that the task was
    not parked. *)
Lemma taken_waker_wakes w c' : wake_ok w →
  asleep w && negb (segment_waker (conn (task w))) = true →
  phase (set_conn (task w) c') = Finished ∨ parked (conn (set_conn (task w) c')).
Proof.
  intros Hw [Ha Hn%negb_true_iff]%andb_prop. destruct (Hw Ha) as [?|[? _]]; [by left|congruence].
Qed.

Lemma wait_for_recv_data_conn c n r c' : wait_for_recv_data c n = (r, c') →
  send_seq c' = send_seq c ∧ recv_ack c' = recv_ack c ∧ segment_mailbox c' = segment_mailbox c ∧
  segment_waker c' = segment_waker c ∧ user_close_requested c' = user_close_requested c ∧
  send_buffer c' = send_buffer c ∧ default [] r ++ recv_buffer c' = recv_buffer c.
Proof.
  unfold wait_for_recv_data, recv_data. destruct (has_recv_data c) eqn:Hh.
  - intros [= <- <-]. simpl. split_and!; try done. apply take_drop.
  - unfold has_recv_data in Hh. destruct (recv_buffer c) eqn:Hb; [|done].
    case_match; intros [= <- <-]; simpl; rewrite ?Hb; done.
Qed.

Lemma exec_wake_ok cfg w ev w' : wake_ok w → exec cfg w ev = Ret w' → wake_ok w'.
Proof.
  intros Hw He. destruct ev as [sg|d| |n|fired]; cbn [exec] in He.
  - simplify_eq/=. intros H. by apply taken_waker_wakes.
  - simplify_eq/=. intros H. by apply taken_waker_wakes.
  - simplify_eq/=. intros H. by apply taken_waker_wakes.
  - destruct (wait_for_recv_data (conn (task w)) n) as [r c] eqn:Hr.
    apply wait_for_recv_data_conn in Hr as (_ & _ & Hm & Hsw & Hu & Hb & _).
    simplify_eq/=. intros Ha. destruct (Hw Ha) as [?|(H1 & H2 & H3 & H4)]; [by left|right].
    unfold parked. simpl. rewrite Hm, Hsw, Hu, Hb. done.
  - destruct (asleep w && negb fired); [by simplify_eq|].
    apply bind_Ret in He as ([t' b] & Hit & He). simplify_eq. intros Ha. simpl in *.
    apply negb_true_iff in Ha as ->. by eapply iteration_suspends.
Qed.

(** ** Reception *)
Section receive.
(** The peer's stream, and the sequence number of its first byte. *)
Context (stream : list Z) (base : Z) (Hlen : Z.of_nat (length stream) < 2 ^ 32).

(** A segment that carries bytes of the stream where it says it does. *)
Definition from_stream (s : ReceivedSegment) : Prop :=
  ∃ off : nat, (off + length (seg_data s) ≤ length stream)%nat ∧
    seg_seq s = (base + Z.of_nat off) mod 2 ^ 32 ∧
    seg_data s = take (length (seg_data s)) (drop off stream).

Record rx_ok (w : World) : Prop := {
  rx_mailbox : Forall from_stream (segment_mailbox (conn (task w)));
  rx_stream : ∃ n : nat, (n ≤ length stream)%nat ∧
    read w ++ recv_buffer (conn (task w)) = take n stream ∧
    match phase (task w) with
    | ServerHandshake _ _ | EstablishedLoop =>
        recv_ack (conn (task w)) = (base + Z.of_nat n) mod 2 ^ 32
    | ClientHandshake _ _ => False
    | FinWait _ | Finished => True
    end;
}.

(** What the task may do to the receiving side in one iteration. *)
Record rx_step (t t' : Task) : Prop := {
  rs_mailbox : segment_mailbox (conn t') ⊆ segment_mailbox (conn t);
  rs_data :
    (recv_buffer (conn t') = recv_buffer (conn t) ∧
     match phase t' with
     | ServerHandshake _ _ | EstablishedLoop =>
         recv_ack (conn t') = recv_ack (conn t) ∧
         match phase t with ServerHandshake _ _ | EstablishedLoop => True | _ => False end
     | ClientHandshake _ _ => match phase t with ClientHandshake _ _ => True | _ => False end
     | _ => True
     end) ∨
    (phase t = EstablishedLoop ∧ ∃ s, s ∈ segment_mailbox (conn t) ∧
       seg_seq s = recv_ack (conn t) ∧
       recv_buffer (conn t') = recv_buffer (conn t) ++ seg_data s ∧
       match phase t' with
       | EstablishedLoop => recv_ack (conn t') =
           wrapping_add 32 (recv_ack (conn t)) (Z.of_nat (length (seg_data s)))
       | ServerHandshake _ _ | ClientHandshake _ _ => False
       | _ => True
       end);
}.

(** Two positions of a stream shorter than 2^32 have different numbers. *)
Lemma seq_inj (a b : nat) : (a ≤ length stream)%nat → (b ≤ length stream)%nat →
  (base + Z.of_nat a) mod 2 ^ 32 = (base + Z.of_nat b) mod 2 ^ 32 → a = b.
Proof using Hlen.
  intros Ha Hb He.
  assert ((Z.of_nat a - Z.of_nat b) mod 2 ^ 32 = 0) as Hd.
  { replace (Z.of_nat a - Z.of_nat b) with ((base + Z.of_nat a) - (base + Z.of_nat b)) by lia.
    rewrite Zminus_mod, He, Z.sub_diag. done. }
  apply Z.mod_divide in Hd as [k Hk]; [|lia]. assert (k = 0) by nia. lia.
Qed.

Lemma rx_step_ok w t' a : rx_ok w → rx_step (task w) t' →
  rx_ok {| task := t'; asleep := a; read := read w; queued := queued w |}.
Proof using Hlen.
  intros [Hm (n & Hn & Hs & Hp)] [Hsub Hd]. split; simpl.
  { rewrite Forall_forall in *. auto. }
  destruct Hd as [[Hb Hph]|(Hest & s & Hin & Hseq & Hb & Hph)].
  - exists n. split; [done|]. rewrite Hb. split; [done|].
    destruct (phase t'); try done.
    + destruct Hph as [-> Hph]. by destruct (phase (task w)).
    + by destruct (phase (task w)).
    + destruct Hph as [-> Hph]. by destruct (phase (task w)).
  - rewrite Forall_forall in Hm. destruct (Hm s Hin) as (off & Hoff & Hseq' & Hdata).
    rewrite Hest in Hp. rewrite Hseq, Hp in Hseq'. apply seq_inj in Hseq' as <-; [|lia|lia].
    exists (n + length (seg_data s))%nat. split; [lia|]. split.
    + rewrite Hb, app_assoc, Hs.
      transitivity (take n stream ++ take (length (seg_data s)) (drop n stream));
        [by rewrite <-Hdata|apply take_take_drop].
    + destruct (phase t'); try done. rewrite Hph, Hp. unfold wrapping_add.
      rewrite Zplus_mod_idemp_l. f_equal. lia.
Qed.

(** Sending leaves the receiving side alone. *)
Definition rx_same (t t' : Task) : Prop :=
  recv_buffer (conn t') = recv_buffer (conn t) ∧ recv_ack (conn t') = recv_ack (conn t) ∧
  segment_mailbox (conn t') = segment_mailbox (conn t).

Lemma send_data_packet_rx cfg t fl seq ack d t' : send_data_packet cfg t fl seq ack d = Ret t' →
  rx_same t t' ∧ phase t' = phase t.
Proof. intros (pk & ->)%send_data_packet_inv. done. Qed.

Lemma flush_rx cfg t t' : flush_send_buffer cfg t = Ret t' → rx_same t t' ∧ phase t' = phase t.
Proof. intros [[_ ->]|(pk & _ & ->)]%flush_send_buffer_inv; done. Qed.

Lemma start_close_rx cfg t t' : start_close cfg t = Ret t' →
  rx_same t t' ∧ phase t' = FinWait MAX_RETRANSMITS.
Proof.
  unfold start_close, send_fin. intros H.
  apply bind_Ret in H as (t1 & ([E1 [E2 E3]] & _)%flush_rx & H).
  apply bind_Ret in H as (t2 & ([F1 [F2 F3]] & _)%send_data_packet_rx & H). simplify_eq/=.
  unfold rx_same. simpl. rewrite F1, F2, F3. simpl. done.
Qed.

Lemma wait_inv c c' r : wait_for_segment c = (c', r) →
  (∃ sg rest, r = ReadySegment sg ∧ segment_mailbox c = sg :: rest ∧ c' = set_mailbox c rest) ∨
  (r ≠ PollPending ∨ c' = set_segment_waker c true) ∧
    (∀ sg, r ≠ ReadySegment sg) ∧ segment_mailbox c = [] ∧
    (c' = c ∨ c' = set_segment_waker c true).
Proof.
  unfold wait_for_segment. destruct (segment_mailbox c) as [|sg rest] eqn:Hm.
  - case_match; intros [= <- <-]; right; auto 10.
  - intros [= <- <-]. left. eauto 10.
Qed.

Lemma wait_timeout_inv c fired c' r : wait_for_segment_or_timeout c fired = (c', r) →
  (∃ sg rest, r = ReadySegment sg ∧ segment_mailbox c = sg :: rest ∧ c' = set_mailbox c rest) ∨
  ((∀ sg, r ≠ ReadySegment sg) ∧ segment_mailbox c = [] ∧
    (c' = c ∨ c' = set_segment_waker c true)).
Proof.
  unfold wait_for_segment_or_timeout. destruct (wait_for_segment c) as [c1 r1] eqn:Hw.
  apply wait_inv in Hw as [(sg & rest & -> & Hm & ->)|(_ & Hns & Hm & Hc)].
  - intros [= <- <-]. left. eauto 10.
  - destruct r1; [by destruct (Hns s)|..]; [|destruct fired]; intros [= <- <-]; right; auto 10.
Qed.

Lemma process_segment_inv c sg c' ack fin close : process_segment c sg = Ret (c', ack, fin, close) →
  segment_mailbox c' = segment_mailbox c ∧ send_buffer c' = send_buffer c ∧
  send_seq c' = send_seq c ∧ user_close_requested c' = user_close_requested c ∧
  fin = has (seg_flags sg) FLAG_FIN ∧
  ((recv_buffer c' = recv_buffer c ∧ (fin = false → recv_ack c' = recv_ack c)) ∨
   (seg_seq sg = recv_ack c ∧ recv_buffer c' = recv_buffer c ++ seg_data sg ∧
    (fin = false → recv_ack c' =
       wrapping_add 32 (recv_ack c) (Z.of_nat (length (seg_data sg)))))).
Proof.
  unfold process_segment. intros H. apply bind_Ret in H as ([c1 na] & H1 & H).
  destruct (negb (bool_decide (seg_data sg = [])) && (seg_seq sg =? recv_ack c)) eqn:Hc.
  - apply andb_prop in Hc as [_ Hc%Z.eqb_eq].
    apply bind_Ret in H1 as (n & ->%len_as_seq_inv & H1). simplify_eq/=.
    destruct (has (seg_flags sg) FLAG_FIN); simplify_eq/=; split_and!; try done; right; done.
  - simplify_eq. destruct (has (seg_flags sg) FLAG_FIN); simplify_eq/=; split_and!; try done;
      left; split; (done || intros; done).
Qed.

Lemma established_rx cfg t t' b : phase t = EstablishedLoop →
  established_iteration cfg t = Ret (t', b) → rx_step t t'.
Proof.
  intros Hp. unfold established_iteration.
  destruct (wait_for_segment (conn t)) as [c r] eqn:Hw.
  apply wait_inv in Hw as [(sg & rest & -> & Hm & ->)|(_ & Hns & Hm & Hc)]; intros H.
  - destruct (has (seg_flags sg) FLAG_RST).
    { simplify_eq/=. split; simpl; [rewrite Hm; set_solver|]. by left. }
    apply bind_Ret in H as ([[[c1 ack] fin] close] & Hps & H).
    apply process_segment_inv in Hps as (Hmb & _ & _ & _ & -> & Hd). simpl in Hmb, Hd.
    apply bind_Ret in H as (t1 & Hack & H).
    assert (rx_same (set_conn t c1) t1 ∧ phase t1 = EstablishedLoop) as [(B1 & A1 & M1) P1].
    { destruct ack as [[? ?]|]; [|simplify_eq; done].
      apply send_data_packet_rx in Hack as [? Hp1]. by rewrite Hp1. }
    simpl in B1, A1, M1.
    assert (∃ t2, rx_same t1 t2 ∧ t' = t2 ∧ (phase t2 = Finished ∨ (∃ n, phase t2 = FinWait n) ∨
      (phase t2 = EstablishedLoop ∧ has (seg_flags sg) FLAG_FIN = false))) as (t2 & (B2 & A2 & M2) & -> & P2).
    { destruct (has (seg_flags sg) FLAG_FIN); [simplify_eq; eexists; split; [|split; [done|by left]]; done|].
      destruct close; apply bind_Ret in H as (t2 & H2 & H); simplify_eq.
      - apply start_close_rx in H2 as [? ?]. exists t'. eauto 10.
      - apply flush_rx in H2 as [? Hp2]. exists t'. rewrite Hp2. auto 10. }
    split; [rewrite M2, M1, Hmb, Hm; set_solver|].
    destruct Hd as [[Hb Ha]|(Hseq & Hb & Ha)].
    + left. rewrite B2, B1, Hb. split; [done|].
      destruct P2 as [-> |[[n ->]|[-> Hf]]]; [done|done|]. rewrite Hp, A2, A1. auto.
    + right. split; [done|]. exists sg. rewrite Hm, B2, B1, Hb.
      split_and!; [set_solver|done|done|].
      destruct P2 as [-> |[[n ->]|[-> Hf]]]; [done|done|]. rewrite A2, A1. auto.
  - assert (rx_same t (set_conn t c)) as (B0 & A0 & M0) by by destruct Hc as [-> | ->].
    destruct r as [sg| |]; [by destruct (Hns sg)| |].
    + destruct (user_close_requested c); apply bind_Ret in H as (t2 & H2 & H); simplify_eq.
      * apply start_close_rx in H2 as [(B & A & M) P]. split; [by rewrite M, M0|].
        left. rewrite B, B0, P. done.
      * apply flush_rx in H2 as [(B & A & M) P]. split; [by rewrite M, M0|].
        left. rewrite B, B0, P. simpl. rewrite Hp, A, A0. done.
    + simplify_eq. split; [by rewrite M0|]. left. rewrite B0. simpl. rewrite Hp. done.
Qed.

(** After the wait, the connection is the old one up to its mailbox. *)
Lemma wait_timeout_rx t fired c r : wait_for_segment_or_timeout (conn t) fired = (c, r) →
  recv_buffer c = recv_buffer (conn t) ∧ recv_ack c = recv_ack (conn t) ∧
  segment_mailbox c ⊆ segment_mailbox (conn t).
Proof.
  intros [(sg & rest & -> & Hm & ->)|(_ & Hm & [-> | ->])]%wait_timeout_inv; simpl;
    (split; [done|]; split; [done|]); [rewrite Hm; set_solver|done|done].
Qed.

Lemma fin_wait_rx cfg t n fired t' b : phase t = FinWait n →
  fin_wait_iteration cfg t n fired = Ret (t', b) → rx_step t t'.
Proof.
  intros Hp. destruct n as [|n]; cbn [fin_wait_iteration]; [intros [= <- <-]; by split; [|left]|].
  destruct (wait_for_segment_or_timeout (conn t) fired) as [c r] eqn:Hw.
  apply wait_timeout_rx in Hw as (Hb & Ha & Hm). intros H.
  assert (∀ t1, rx_same (set_conn t c) t1 ∨ (recv_buffer (conn t1) = recv_buffer c ∧
      segment_mailbox (conn t1) = segment_mailbox c) →
    match phase t1 with FinWait _ | Finished => True | _ => False end → rx_step t t1) as Hgo.
  { intros t1 Hs Hph.
    assert (recv_buffer (conn t1) = recv_buffer c ∧ segment_mailbox (conn t1) = segment_mailbox c)
      as [H1 H2] by (destruct Hs as [(? & ? & ?)|?]; done).
    split; [by rewrite H2|]. left. rewrite H1, Hb. split; [done|]. by destruct (phase t1). }
  destruct r as [sg| |].
  - destruct (has (seg_flags sg) FLAG_ACK).
    + destruct (has (seg_flags sg) FLAG_FIN); [|simplify_eq; apply Hgo; [by left|done]].
      apply bind_Ret in H as (t1 & [(B & A & M) P]%send_data_packet_rx & H). simplify_eq.
      apply Hgo; [|done]. right. simpl. rewrite B, M. done.
    + destruct (has (seg_flags sg) FLAG_RST); simplify_eq; (apply Hgo; [by left|done]).
  - apply bind_Ret in H as (t1 & [(B & A & M) P]%send_data_packet_rx & H). simplify_eq.
    apply Hgo; [|done]. right. simpl. rewrite B, M. done.
  - simplify_eq. apply Hgo; [by left|]. simpl. by rewrite Hp.
Qed.

Lemma server_rx cfg t iss n fired t' b : phase t = ServerHandshake iss n →
  server_iteration cfg t iss n fired = Ret (t', b) → rx_step t t'.
Proof.
  intros Hp. unfold server_iteration.
  destruct (wait_for_segment_or_timeout (conn t) fired) as [c r] eqn:Hw.
  apply wait_timeout_rx in Hw as (Hb & Ha & Hm). intros H.
  assert (∀ t1, recv_buffer (conn t1) = recv_buffer c → recv_ack (conn t1) = recv_ack c →
    segment_mailbox (conn t1) = segment_mailbox c →
    match phase t1 with ClientHandshake _ _ => False | _ => True end → rx_step t t1) as Hgo.
  { intros t1 H1 H2 H3 Hph. split; [by rewrite H3|]. left. rewrite H1, Hb, H2, Ha, Hp.
    split; [done|]. by destruct (phase t1). }
  destruct r as [sg| |].
  - destruct (has (seg_flags sg) FLAG_ACK && _).
    + apply bind_Ret in H as (t1 & [(B & A & M) P]%flush_rx & H). simplify_eq.
      apply Hgo; [by rewrite B|by rewrite A|by rewrite M|]. rewrite P. done.
    + destruct (has (seg_flags sg) FLAG_RST); simplify_eq; apply Hgo; try done; simpl; by rewrite Hp.
  - destruct (bool_decide _); [simplify_eq; by apply Hgo|].
    apply bind_Ret in H as (t1 & [(B & A & M) P]%send_data_packet_rx & H). simplify_eq.
    by apply Hgo.
  - simplify_eq. apply Hgo; try done. simpl. by rewrite Hp.
Qed.

Lemma iteration_rx cfg t fired t' b :
  match phase t with ClientHandshake _ _ => False | _ => True end →
  iteration cfg t fired = Ret (t', b) → rx_step t t'.
Proof.
  intros Hc. unfold iteration. destruct (phase t) eqn:Hp; intros H; [| done| | |].
  - by eapply server_rx.
  - by eapply established_rx.
  - by eapply fin_wait_rx.
  - simplify_eq. split; [done|]. left. rewrite Hp. done.
Qed.

Lemma exec_rx cfg w ev w' : rx_ok w →
  (∀ sg, ev = Deliver sg → from_stream sg) → exec cfg w ev = Ret w' → rx_ok w'.
Proof using Hlen.
  intros Hrx Hev He. destruct ev as [sg|d| |n|fired]; cbn [exec] in He.
  - unfold deliver_segment in He. simplify_eq. destruct Hrx as [Hm Hs]. split; [|done]. simpl.
    apply Forall_app. split; [done|]. constructor; [by apply Hev|done].
  - unfold queue_send_data in He. simplify_eq. destruct Hrx as [Hm Hs]. by split.
  - unfold request_close in He. simplify_eq. destruct Hrx as [Hm Hs]. by split.
  - destruct (wait_for_recv_data (conn (task w)) n) as [r c] eqn:Hr.
    apply wait_for_recv_data_conn in Hr as (_ & Ha & Hmb & _ & _ & _ & Hb).
    simplify_eq. destruct Hrx as [Hm (m & Hn & Hs & Hp)]. split; simpl; [by rewrite Hmb|].
    exists m. rewrite <-app_assoc, Hb, Ha. done.
  - destruct (asleep w && negb fired); [by simplify_eq|].
    apply bind_Ret in He as ([t' b] & Hit & He). simplify_eq. apply rx_step_ok; [done|].
    eapply iteration_rx; [|done]. destruct Hrx as [_ (m & _ & _ & Hp)].
    by destruct (phase (task w)).
Qed.

Lemma run_rx cfg evs w w' : rx_ok w → Forall (λ ev, ∀ sg, ev = Deliver sg → from_stream sg) evs →
  foldM (exec cfg) evs w = Ret w' → rx_ok w'.
Proof using Hlen.
  revert w. induction evs as [|ev evs IH]; intros w Hrx Hall H; simpl in H; [by simplify_eq|].
  apply Forall_cons in Hall as [Hev Hall]. apply bind_Ret in H as (w1 & H1 & H).
  eapply IH; [|done|done]. by eapply exec_rx.
Qed.
End receive.

(** ** Transmission *)
Section transmit.
Context (iss : Z).

Definition data_of (l : list Sent) : list Z := concat (s_data <$> l).

Lemma data_of_app l1 l2 : data_of (l1 ++ l2) = data_of l1 ++ data_of l2.
Proof. unfold data_of. by rewrite fmap_app, concat_app. Qed.

(** [q] is what the user has queued so far. *)
Record tx_ok (q : list Z) (t : Task) : Prop := {
  tx_data : data_of (sent t) ++ send_buffer (conn t) = q;
  tx_seq pre x post : sent t = pre ++ x :: post → s_data x ≠ [] →
    s_seq x = (iss + 1 + Z.of_nat (length (data_of pre))) mod 2 ^ 32;
  tx_next : match phase t with
    | ServerHandshake i _ | ClientHandshake i _ => i = iss ∧ data_of (sent t) = []
    | EstablishedLoop =>
        send_seq (conn t) = (iss + 1 + Z.of_nat (length (data_of (sent t)))) mod 2 ^ 32
    | _ => True
    end;
}.

(** The last element of a list extended by one. *)
Lemma app_snoc_cases {A} (l : list A) x pre y post : l ++ [x] = pre ++ y :: post →
  (pre = l ∧ y = x ∧ post = []) ∨ ∃ post', post = post' ++ [x] ∧ l = pre ++ y :: post'.
Proof.
  destruct post as [|z post] using rev_ind.
  - intros H. apply app_inj_tail in H as [-> ->]. by left.
  - clear IHpost. intros H. right. exists post. rewrite app_comm_cons, app_assoc in H.
    by apply app_inj_tail in H as [-> ->].
Qed.

Lemma tx_send_empty cfg q t fl seq ack t' : tx_ok q t →
  send_data_packet cfg t fl seq ack [] = Ret t' → tx_ok q t'.
Proof.
  intros [Hd Hs Hn] (pk & ->)%send_data_packet_inv. split; simpl.
  - by rewrite data_of_app, app_nil_r.
  - intros pre x post Heq Hx. apply app_snoc_cases in Heq as [(_ & -> & _)|(p' & _ & Heq)]; [done|].
    by eapply Hs.
  - rewrite data_of_app, app_nil_r. done.
Qed.

Lemma tx_flush cfg q t t' : tx_ok q t → phase t = EstablishedLoop →
  flush_send_buffer cfg t = Ret t' → tx_ok q t'.
Proof.
  intros [Hd Hs Hn] Hp [[_ ->]|(pk & Hne & ->)]%flush_send_buffer_inv; [by split|].
  rewrite Hp in Hn. split; simpl.
  - rewrite data_of_app, app_nil_r. unfold data_of at 2. simpl. by rewrite app_nil_r.
  - intros pre x post Heq Hx. apply app_snoc_cases in Heq as [(-> & -> & _)|(p' & _ & Heq)].
    + done.
    + by eapply Hs.
  - rewrite Hp, data_of_app. unfold data_of at 2. simpl. rewrite app_nil_r, length_app, Hn.
    unfold wrapping_add. rewrite Zplus_mod_idemp_l. f_equal. lia.
Qed.

Lemma tx_conn q t c : tx_ok q t → send_buffer c = send_buffer (conn t) →
  send_seq c = send_seq (conn t) → tx_ok q (set_conn t c).
Proof. intros [Hd Hs Hn] Hb Hq. split; simpl; [by rewrite Hb|done|by rewrite Hq]. Qed.

(** Phases in which nothing is required of the sequence number. *)
Lemma tx_end q t t' : tx_ok q t → sent t' = sent t → send_buffer (conn t') = send_buffer (conn t) →
  match phase t' with FinWait _ | Finished => True | _ => False end → tx_ok q t'.
Proof.
  intros [Hd Hs Hn] H1 H2 Hp. split; [by rewrite H1, H2|by rewrite H1|]. by destruct (phase t').
Qed.

Lemma tx_start_close cfg q t t' : tx_ok q t → phase t = EstablishedLoop →
  start_close cfg t = Ret t' → tx_ok q t'.
Proof.
  intros Ht Hp H. unfold start_close, send_fin in H.
  apply bind_Ret in H as (t1 & H1 & H). apply (tx_flush cfg q) in H1; [|done..].
  apply bind_Ret in H as (t2 & (pk & ->)%send_data_packet_inv & H). simplify_eq.
  destruct H1 as [Hd Hs Hn]. split; simpl.
  - by rewrite data_of_app, app_nil_r.
  - intros pre x post Heq Hx. apply app_snoc_cases in Heq as [(_ & -> & _)|(p' & _ & Heq)]; [done|].
    by eapply Hs.
  - done.
Qed.

Lemma wait_tx c c' r : wait_for_segment c = (c', r) →
  send_buffer c' = send_buffer c ∧ send_seq c' = send_seq c ∧
  user_close_requested c' = user_close_requested c.
Proof.
  intros [(sg & rest & _ & _ & ->)|(_ & _ & _ & [-> | ->])]%wait_inv; done.
Qed.
Lemma wait_timeout_tx c fired c' r : wait_for_segment_or_timeout c fired = (c', r) →
  send_buffer c' = send_buffer c ∧ send_seq c' = send_seq c.
Proof.
  intros [(sg & rest & _ & _ & ->)|(_ & _ & [-> | ->])]%wait_timeout_inv; done.
Qed.

Lemma established_tx cfg q t t' b : phase t = EstablishedLoop → tx_ok q t →
  established_iteration cfg t = Ret (t', b) → tx_ok q t'.
Proof.
  intros Hp Ht. unfold established_iteration.
  destruct (wait_for_segment (conn t)) as [c r] eqn:Hw.
  apply wait_tx in Hw as (Hb & Hq & _). pose proof (tx_conn q t c Ht Hb Hq) as Ht1. intros H.
  destruct r as [sg| |]; [|destruct (user_close_requested c)|by simplify_eq].
  - destruct (has (seg_flags sg) FLAG_RST); [simplify_eq; by eapply tx_end|].
    apply bind_Ret in H as ([[[c1 ack] fin] close] & Hps & H).
    apply process_segment_inv in Hps as (_ & Hb1 & Hq1 & _).
    apply bind_Ret in H as (t1 & Hack & H).
    assert (tx_ok q t1 ∧ phase t1 = EstablishedLoop) as [Ht2 Hp2].
    { assert (tx_ok q (set_conn t c1)) as Hc1
        by (apply tx_conn; [done|by rewrite Hb1|by rewrite Hq1]).
      destruct ack as [[? ?]|]; [|by simplify_eq]. split; [by eapply tx_send_empty|].
      apply send_data_packet_rx in Hack as [_ ->]. done. }
    destruct fin; [simplify_eq; by eapply tx_end|].
    destruct close; apply bind_Ret in H as (t2 & H2 & H); simplify_eq.
    + by eapply tx_start_close.
    + by eapply tx_flush.
  - apply bind_Ret in H as (t2 & H2 & H). simplify_eq. by eapply tx_start_close.
  - apply bind_Ret in H as (t2 & H2 & H). simplify_eq. by eapply tx_flush.
Qed.

Lemma fin_wait_tx cfg q t n fired t' b : phase t = FinWait n → tx_ok q t →
  fin_wait_iteration cfg t n fired = Ret (t', b) → tx_ok q t'.
Proof.
  intros Hp Ht. destruct n as [|n]; cbn [fin_wait_iteration]; [intros [= <- <-]; by eapply tx_end|].
  destruct (wait_for_segment_or_timeout (conn t) fired) as [c r] eqn:Hw.
  apply wait_timeout_tx in Hw as [Hb Hq]. pose proof (tx_conn q t c Ht Hb Hq) as Ht1. intros H.
  destruct r as [sg| |].
  - destruct (has (seg_flags sg) FLAG_ACK).
    + destruct (has (seg_flags sg) FLAG_FIN); [|simplify_eq; by eapply tx_end].
      apply bind_Ret in H as (t1 & H1 & H). simplify_eq.
      eapply tx_end; [eapply tx_send_empty; [|done]|done|done|done]. by apply tx_conn.
    + destruct (has (seg_flags sg) FLAG_RST); simplify_eq; by eapply tx_end.
  - apply bind_Ret in H as (t1 & H1 & H). simplify_eq.
    eapply tx_end; [by eapply tx_send_empty|done|done|done].
  - by simplify_eq.
Qed.

(** A handshake loop up to the point where the connection is established. *)
Lemma handshake_tx cfg q t fired t' b iss0 n :
  phase t = ServerHandshake iss0 n ∨ phase t = ClientHandshake iss0 n → tx_ok q t →
  iteration cfg t fired = Ret (t', b) → tx_ok q t'.
Proof.
  intros Hp Ht. unfold iteration.
  assert (iss0 = iss ∧ data_of (sent t) = []) as [-> Hnil].
  { destruct Ht as [_ _ Hn]. by destruct Hp as [Hp|Hp]; rewrite Hp in Hn. }
  assert (∀ c1, send_buffer c1 = send_buffer (conn t) → send_seq c1 = wrapping_add 32 iss 1 →
    tx_ok q (set_phase (set_conn t c1) EstablishedLoop)) as Hest.
  { intros c1 Hb1 Hq1. destruct Ht as [Hd Hs _]. split; simpl; [by rewrite Hb1|done|].
    rewrite Hq1, Hnil. unfold wrapping_add. by rewrite Z.add_0_r. }
  assert (∀ t1 n', tx_ok q t1 → data_of (sent t1) = [] → tx_ok q (set_phase t1 (ServerHandshake iss n')) ∧
    tx_ok q (set_phase t1 (ClientHandshake iss n'))) as Hretry.
  { intros t1 n' [Hd Hs Hn] Hnil1. split; split; done. }
  destruct Hp as [Hp|Hp]; rewrite Hp; unfold server_iteration, client_iteration;
    destruct (wait_for_segment_or_timeout (conn t) fired) as [c r] eqn:Hw;
    apply wait_timeout_tx in Hw as [Hb Hq]; pose proof (tx_conn q t c Ht Hb Hq) as Ht1; intros H.
  - destruct r as [sg| |]; [destruct (has (seg_flags sg) FLAG_ACK && _)| |by simplify_eq].
    + apply bind_Ret in H as (t1 & H1 & H). simplify_eq. eapply tx_flush; cycle 2; [exact H1| |done].
      match goal with |- tx_ok q (push_connection (set_phase (set_conn _ ?c1) _)) =>
        destruct (Hest c1 Hb eq_refl) as [? ? ?]; by split end.
    + destruct (has (seg_flags sg) FLAG_RST); simplify_eq; [by eapply tx_end|done].
    + destruct (bool_decide _); [simplify_eq; by eapply tx_end|].
      apply bind_Ret in H as (t1 & H1 & H). simplify_eq.
      pose proof (tx_send_empty _ _ _ _ _ _ _ Ht1 H1) as Ht2. apply Hretry; [done|].
      apply send_data_packet_inv in H1 as (pk & ->). simpl. by rewrite data_of_app, Hnil.
  - destruct r as [sg| |]; [destruct (has (seg_flags sg) FLAG_SYN && _)| |by simplify_eq].
    + apply bind_Ret in H as (t1 & H1 & H). apply bind_Ret in H as (t2 & H2 & H). simplify_eq.
      eapply tx_flush; [eapply tx_send_empty; [|exact H1]| |exact H2].
      * by apply Hest.
      * apply send_data_packet_rx in H1 as [_ ->]. done.
    + destruct (has (seg_flags sg) FLAG_RST); simplify_eq; [by eapply tx_end|done].
    + destruct (bool_decide _); [simplify_eq; by eapply tx_end|].
      apply bind_Ret in H as (t1 & H1 & H). simplify_eq.
      pose proof (tx_send_empty _ _ _ _ _ _ _ Ht1 H1) as Ht2. apply Hretry; [done|].
      apply send_data_packet_inv in H1 as (pk & ->). simpl. by rewrite data_of_app, Hnil.
Qed.

Lemma iteration_tx cfg q t fired t' b : tx_ok q t → iteration cfg t fired = Ret (t', b) → tx_ok q t'.
Proof.
  intros Ht H. destruct (phase t) as [i n|i n| |n|] eqn:Hp.
  - eapply handshake_tx; [by left|done|done].
  - eapply handshake_tx; [by right|done|done].
  - unfold iteration in H. rewrite Hp in H. by eapply established_tx.
  - unfold iteration in H. rewrite Hp in H. by eapply fin_wait_tx.
  - unfold iteration in H. rewrite Hp in H. by simplify_eq.
Qed.

Lemma exec_tx cfg w ev w' : tx_ok (queued w) (task w) → exec cfg w ev = Ret w' →
  tx_ok (queued w') (task w').
Proof.
  intros Ht He. destruct ev as [sg|d| |n|fired]; cbn [exec] in He.
  - unfold deliver_segment in He. simplify_eq. by apply tx_conn.
  - unfold queue_send_data in He. simplify_eq. destruct Ht as [Hd Hs Hn]. split; simpl; [|done|done].
    by rewrite app_assoc, Hd.
  - unfold request_close in He. simplify_eq. by apply tx_conn.
  - destruct (wait_for_recv_data (conn (task w)) n) as [r c] eqn:Hr.
    apply wait_for_recv_data_conn in Hr as (Hq & _ & _ & _ & _ & Hb & _). simplify_eq.
    by apply tx_conn.
  - destruct (asleep w && negb fired); [by simplify_eq|].
    apply bind_Ret in He as ([t' b] & Hit & He). simplify_eq. by eapply iteration_tx.
Qed.

Lemma run_tx cfg evs w w' : tx_ok (queued w) (task w) → foldM (exec cfg) evs w = Ret w' →
  tx_ok (queued w') (task w').
Proof.
  revert w. induction evs as [|ev evs IH]; intros w Ht H; simpl in H; [by simplify_eq|].
  apply bind_Ret in H as (w1 & H1 & H). eapply IH; [|exact H]. by eapply exec_tx.
Qed.
End transmit.

Lemma run_wake_ok cfg evs w w' : wake_ok w → foldM (exec cfg) evs w = Ret w' → wake_ok w'.
Proof.
  revert w. induction evs as [|ev evs IH]; intros w Ht H; simpl in H; [by simplify_eq|].
  apply bind_Ret in H as (w1 & H1 & H). eapply IH; [|exact H]. by eapply exec_wake_ok.
Qed.
End world.

(** ** Theorems *)
Section theorems.
Context `{HH : Headers} `{HO : !HeadersOk HH}.

(** C10: in-order reception. Whatever the interleaving of arriving segments
    (lost, duplicated, reordered or overlapping), user reads and writes, close
    requests, timeouts and runs of the task, the bytes handed to the user
    followed by those still buffered are a prefix of the peer's stream. *)
Theorem tcp_receive_in_order cfg c0 syn t0 stream evs w :
  Z.of_nat (length stream) < 2 ^ 32 →
  recv_buffer c0 = [] → segment_mailbox c0 = [] →
  server_start cfg c0 syn = Ret t0 →
  Forall (λ ev, ∀ sg, ev = Deliver sg → from_stream stream (seg_seq syn + 1) sg) evs →
  foldM (exec cfg) evs (start t0) = Ret w →
  read w ++ recv_buffer (conn (task w)) `prefix_of` stream.
Proof.
  intros Hlen Hb Hm Hs Hall Hrun.
  assert (rx_ok stream (seg_seq syn + 1) (start t0)) as H0.
  { unfold server_start in Hs. apply send_data_packet_inv in Hs as (pk & ->).
    split; simpl; [rewrite Hm; constructor|]. exists 0%nat. split; [lia|]. rewrite Hb. split; [done|].
    unfold wrapping_add. by rewrite Z.add_0_r. }
  pose proof (run_rx stream (seg_seq syn + 1) Hlen cfg evs _ _ H0 Hall Hrun) as [_ (n & _ & -> & _)].
  apply prefix_take.
Qed.

(** C11: in-order transmission. The data of the segments sent so far, followed
    by what is still in the send buffer, is exactly what the user queued: every
    byte is sent at most once and in order, and a segment's sequence number is
    the initial one plus one plus the bytes sent before it, modulo 2^32. *)
Theorem tcp_send_in_order cfg t0 iss evs w :
  (∃ c0 syn, server_start cfg c0 syn = Ret t0 ∧ send_seq c0 = iss ∧ send_buffer c0 = []) ∨
  (∃ i mac, client_start cfg i mac iss = Ret t0) →
  foldM (exec cfg) evs (start t0) = Ret w →
  data_of (sent (task w)) ++ send_buffer (conn (task w)) = queued w ∧
  ∀ pre x post, sent (task w) = pre ++ x :: post → s_data x ≠ [] →
    s_seq x = (iss + 1 + Z.of_nat (length (data_of pre))) mod 2 ^ 32.
Proof.
  intros Hst Hrun. assert (tx_ok iss [] t0) as H0.
  { destruct Hst as [(c0 & syn & Hs & Hq & Hb)|(i & mac & Hs)].
    - unfold server_start in Hs. apply send_data_packet_inv in Hs as (pk & ->).
      split; simpl; [by rewrite Hb| |done]. intros [|? [|]] x post; naive_solver.
    - unfold client_start in Hs. apply send_data_packet_inv in Hs as (pk & ->).
      split; simpl; [done| |done]. intros [|? [|]] x post; naive_solver. }
  pose proof (run_tx iss cfg evs (start t0) w H0 Hrun) as [Hd Hs _]. done.
Qed.


(** a server connection is established, and offered to [accept], only in
    response to a segment that acknowledges its SYN; otherwise the handshake
    stays where it is, retransmits at most four times, or gives the connection
    up. *)
Theorem server_handshake_sound cfg t iss n fired t' b :
  phase t = ServerHandshake iss n → iteration cfg t fired = Ret (t', b) →
  (phase t' = EstablishedLoop ∧ backlogged t' = true ∧ established (conn t') = true ∧
     ∃ s, s ∈ segment_mailbox (conn t) ∧ has (seg_flags s) FLAG_ACK = true ∧
          seg_ack s = wrapping_add 32 iss 1) ∨
  (backlogged t' = backlogged t ∧ established (conn t') = established (conn t) ∧
     (phase t' = ServerHandshake iss n ∨
      (phase t' = ServerHandshake iss (S n) ∧ (S n < MAX_RETRANSMITS)%nat) ∨
      (phase t' = Finished ∧ in_table t' = false))).
Proof.
  intros Hp. unfold iteration. rewrite Hp. unfold server_iteration.
  destruct (wait_for_segment_or_timeout (conn t) fired) as [c r] eqn:Hw.
  assert (established c = established (conn t) ∧
    ∀ s, r = ReadySegment s → s ∈ segment_mailbox (conn t)) as [He Hin].
  { apply wait_timeout_inv in Hw as [(sg & rest & -> & Hm & ->)|(Hns & Hm & [-> | ->])];
      (split; [done|]); [intros ? [= <-]; rewrite Hm; set_solver|intros s ->; by destruct (Hns s)..]. }
  intros H. destruct r as [sg| |]; [destruct (has (seg_flags sg) FLAG_ACK && _) eqn:Hack| |].
  - apply andb_prop in Hack as [Hack Heq%Z.eqb_eq].
    apply bind_Ret in H as (t1 & Hfl & H). simplify_eq. left.
    apply flush_send_buffer_inv in Hfl as [[_ ->]|(pk & _ & ->)]; simpl; eauto 10.
  - right. destruct (has (seg_flags sg) FLAG_RST); simplify_eq; simpl; auto 10.
  - right. case_bool_decide as Hmax; [simplify_eq; simpl; auto 10|].
    apply bind_Ret in H as (t1 & (pk & ->)%send_data_packet_inv & H). simplify_eq. simpl.
    split; [done|]. split; [done|]. right; left. split; [done|lia].
  - right. simplify_eq. simpl. auto 10.
Qed.

(** the wait for the peer's acknowledgment of our FIN does not wait. The
    close request that led there makes every wait return at once, so without
    any timer expiring or any segment arriving the task sends its FIN again
    for all remaining rounds and then ends. *)
Theorem fin_wait_does_not_wait cfg t n :
  addr_ok (ip_addr cfg) → addr_ok (remote_ip (id (conn t))) →
  phase t = FinWait n → segment_mailbox (conn t) = [] → user_close_requested (conn t) = true →
  ∃ t', foldM (λ t _, fst <$> iteration cfg t false) (replicate (S n) tt) t = Ret t' ∧
    phase t' = Finished ∧ closed (conn t') = true ∧ length (sent t') = (length (sent t) + n)%nat.
Proof.
  revert t. induction n as [|n IH]; intros t Ha Hr Hp Hm Hu; cbn [replicate foldM];
    unfold iteration; rewrite Hp; cbn [fin_wait_iteration].
  { eexists. split; [done|]. split; [done|]. split; [done|]. simpl. lia. }
  unfold wait_for_segment_or_timeout, wait_for_segment. rewrite Hm, Hu. cbn [orb].
  destruct (th_values) as (Hf & _ & _ & Hk). unfold FLAG_FIN, FLAG_ACK. rewrite Hf, Hk.
  unfold send_data_packet. cbn [conn set_conn].
  destruct (create_tcp_packet_Ret cfg (remote_ip (id (conn t))) (remote_mac (conn t))
    (local_port (id (conn t))) (remote_port (id (conn t)))
    (wrapping_sub 32 (send_seq (conn t)) 1) (recv_ack (conn t)) (Z.lor 1 16) WINDOW_SIZE [])
    as (ih & c & _ & _ & _ & _ & _ & Hpk & _); [done|done|constructor|by vm_compute|simpl; lia|].
  rewrite Hpk. bstep.
  match goal with |- ∃ t', (fst <$> Ret (?t1, true)) ≫= _ = _ ∧ _ =>
    destruct (IH t1) as (t' & Hrun & Hp' & Hc' & Hl'); [done..|] end.
  exists t'. split; [exact Hrun|]. split; [done|]. split; [done|].
  rewrite Hl'. cbn [set_phase sent]. rewrite length_app. simpl. lia.
Qed.

(** sending more than 65 495 bytes before the task runs panics the kernel:
    the buffer is flushed as one segment, whose length does not fit the IPv4
    header. *)
Theorem tcp_large_send_panics cfg t d :
  phase t = EstablishedLoop → segment_mailbox (conn t) = [] → user_close_requested (conn t) = false →
  65496 ≤ Z.of_nat (length d) →
  exec cfg (start (set_conn t (queue_send_data (conn t) d).1)) (Poll false) = Panic.
Proof.
  intros Hp Hm Hu Hl. cbn [exec]. unfold iteration. cbn [start task phase set_conn asleep andb].
  rewrite Hp. unfold established_iteration, wait_for_segment. cbn [conn set_conn queue_send_data fst].
  cbn [segment_mailbox set_segment_waker set_send_buffer user_close_requested send_buffer].
  rewrite Hm, Hu. rewrite (bool_decide_false (send_buffer (conn t) ++ d = [])).
  2: { intros H. apply (f_equal length) in H. rewrite length_app in H. simpl in H. lia. }
  cbn [orb negb]. cbn iota. cbn [user_close_requested set_segment_waker set_send_buffer].
  rewrite Hu. unfold flush_send_buffer. cbn [conn set_conn send_buffer set_segment_waker set_send_buffer].
  destruct (send_buffer (conn t) ++ d) as [|b l] eqn:Hb.
  { apply (f_equal length) in Hb. rewrite length_app in Hb. simpl in Hb. lia. }
  destruct (len_as_seq (length (b :: l))); [|done]. bstep. unfold send_data_packet.
  rewrite create_tcp_packet_too_big; [done|]. rewrite <-Hb, length_app. lia.
Qed.
End theorems.

(** ** Witnesses: a connection of two machines on one network *)
#[local] Instance wit_headers : Headers := linux_headers.
#[local] Instance wit_headers_ok : HeadersOk wit_headers := linux_headers_ok.

Definition wit_cfg : NetConfig :=
  {| current_mac_address := Mac 2 0 0 0 0 1; ip_addr := Ip 10 0 2 15 |}.
Definition wit_id : ConnectionId := ConnId 80 (Ip 10 0 2 2) 40000.
Definition wit_conn : TcpConnection := conn_new wit_id (Mac 2 0 0 0 0 2) 1000.
Definition wit_syn : ReceivedSegment := Segment 4294967295 0 2 [].
Definition wit_task : Task :=
  match server_start wit_cfg wit_conn wit_syn with
  | Ret t => t
  | Panic => {| conn := wit_conn; phase := Finished; sent := []; in_table := false; backlogged := false |}
  end.

(** The handshake completes, the second half of the data arrives before the
    first, the first half arrives twice, and the user reads and writes. *)
Definition wit_events : list event :=
  [Deliver (Segment 0 1001 16 []); Poll false;
   Deliver (Segment 2 1001 16 [12; 13]); Poll false;
   Deliver (Segment 0 1001 16 [10; 11]); Poll false; Recv 1; Queue [7; 8; 9];
   Deliver (Segment 0 1001 16 [10; 11]); Poll false; Poll false].

Definition wit_world : World :=
  match foldM (exec wit_cfg) wit_events (start wit_task) with
  | Ret w => w | Panic => start wit_task end.

Lemma wit_run : foldM (exec wit_cfg) wit_events (start wit_task) = Ret wit_world.
Proof. by vm_compute. Qed.

Lemma wit_start : server_start wit_cfg wit_conn wit_syn = Ret wit_task.
Proof. by vm_compute. Qed.

Lemma wit_events_from_stream :
  Forall (λ ev, ∀ sg, ev = Deliver sg → from_stream [10; 11; 12; 13] (seg_seq wit_syn + 1) sg)
    wit_events.
Proof.
  unfold wit_events. repeat apply Forall_cons_2; [..|constructor]; intros sg [= <-];
    first [exists 0%nat; split; [simpl; lia|split; reflexivity]
          |exists 2%nat; split; [simpl; lia|split; reflexivity]].
Qed.

Lemma tcp_receive_in_order_witness :
  read wit_world ++ recv_buffer (conn (task wit_world)) `prefix_of` [10; 11; 12; 13] ∧
  read wit_world = [10].
Proof.
  split; [|by vm_compute].
  apply (tcp_receive_in_order wit_cfg wit_conn wit_syn wit_task [10; 11; 12; 13] wit_events);
    [reflexivity|reflexivity|reflexivity|exact wit_start|exact wit_events_from_stream|exact wit_run].
Defined.

Lemma tcp_send_in_order_witness :
  data_of (sent (task wit_world)) ++ send_buffer (conn (task wit_world)) = [7; 8; 9].
Proof.
  destruct (tcp_send_in_order wit_cfg wit_task 1000 wit_events wit_world) as [H _];
    [left; exists wit_conn, wit_syn; split; [exact wit_start|split; reflexivity]|exact wit_run|].
  rewrite H. by vm_compute.
Defined.


(** The handshake's timer fires once. *)
Definition wit_retry : Task * bool :=
  match iteration wit_cfg wit_task true with Ret p => p | Panic => (wit_task, false) end.

Lemma wit_retry_run : iteration wit_cfg wit_task true = Ret (wit_retry.1, wit_retry.2).
Proof. by vm_compute. Qed.

Lemma wit_task_phase : phase wit_task = ServerHandshake 1000 0.
Proof. by vm_compute. Qed.

Lemma wit_retry_not_established : phase wit_retry.1 ≠ EstablishedLoop.
Proof. by vm_compute. Qed.

Lemma server_handshake_sound_witness : backlogged wit_retry.1 = backlogged wit_task.
Proof.
  destruct (server_handshake_sound wit_cfg wit_task 1000 0 true wit_retry.1 wit_retry.2
    wit_task_phase wit_retry_run) as [[H _]|[H _]]; [|exact H].
  by destruct (wit_retry_not_established H).
Defined.

(** The established connection, closed by the user. *)
Definition wit_closing : Task :=
  match foldM (exec wit_cfg) [Deliver (Segment 0 1001 16 []); Poll false; Close; Poll false]
    (start wit_task) with Ret w => task w | Panic => wit_task end.

Lemma wit_addrs : addr_ok (ip_addr wit_cfg) ∧ addr_ok (remote_ip (id (conn wit_closing))).
Proof.
  assert (octets (remote_ip (id (conn wit_closing))) = [10; 0; 2; 2]) as H by by vm_compute.
  unfold addr_ok. rewrite H. change (octets (ip_addr wit_cfg)) with [10; 0; 2; 15].
  split; repeat apply Forall_cons_2; try apply Forall_nil_2; unfold is_byte; lia.
Qed.

Lemma wit_closing_state : phase wit_closing = FinWait 5 ∧ segment_mailbox (conn wit_closing) = [] ∧
  user_close_requested (conn wit_closing) = true ∧ length (sent wit_closing) = 2%nat.
Proof. by vm_compute. Qed.

Lemma fin_wait_does_not_wait_witness :
  ∃ t', foldM (λ t _, fst <$> iteration wit_cfg t false) (replicate 6 tt) wit_closing = Ret t' ∧
    phase t' = Finished ∧ length (sent t') = 7%nat.
Proof.
  destruct (fin_wait_does_not_wait wit_cfg wit_closing 5) as (t' & H1 & H2 & _ & H3);
    [apply wit_addrs|apply wit_addrs|apply wit_closing_state..|].
  exists t'. split; [exact H1|]. split; [exact H2|]. rewrite H3.
  by rewrite (proj2 (proj2 (proj2 wit_closing_state))).
Defined.

Lemma tcp_large_send_panics_witness :
  exec wit_cfg (start (set_conn (task wit_world)
    (queue_send_data (conn (task wit_world)) (replicate (Z.to_nat 70000) 0)).1)) (Poll false) = Panic.
Proof.
  apply (tcp_large_send_panics wit_cfg (task wit_world) (replicate (Z.to_nat 70000) 0));
    [by vm_compute|by vm_compute|by vm_compute|].
  rewrite length_replicate. lia.
Defined.

(** a reader that waits for data when the user shuts the connection down is
    never woken. At the end the connection is closed and the task has ended,
    but the reader's waker is still registered. *)
Theorem reader_not_woken_on_close :
  ∃ w, foldM (exec wit_cfg)
      ([Deliver (Segment 0 1001 16 []); Poll false; Recv 100; Close] ++ replicate 7 (Poll false))
      (start wit_task) = Ret w ∧
    phase (task w) = Finished ∧ closed (conn (task w)) = true ∧ recv_waker (conn (task w)) = true.
Proof.
  eexists. split; [by vm_compute|]. split; [reflexivity|split; reflexivity].
Qed.
