(* ===== verification/NetRx.v ===== *)
(** The receive path of the network stack: crates/kernel/src/net/mod.rs, with
    the connection and listener tables of net/tcp_connection.rs.

    Connections are shared objects ([Arc]): [conn_store] holds them by a handle
    and the tables refer to the handles. A spawned server task is recorded with
    its arguments; [TcpConnection.server_start] is the code it runs first.
    Packets handed to [send_packet] are appended to [outbox]. *)
From S2P Require Import Prelude Headers Bytes Checksum Packets PacketTheorems Sockets TcpConnection.

#[global] Instance ConnectionId_eq_dec : EqDecision ConnectionId.
Proof. solve_decision. Defined.
#[global] Instance ConnectionId_countable : Countable ConnectionId.
Proof.
  apply (inj_countable' (λ i, (local_port i, remote_ip i, remote_port i))
           (λ '(a, b, c), ConnId a b c)). by intros [].
Defined.

(** ** Listeners *)
Record TcpListener := Listener {
  l_port : Z;
  backlog : list nat;       (* handles of established connections *)
  l_waker : bool;
}.

Definition listener_new (p : Z) : TcpListener := Listener p [] false.

Definition listener_push (l : TcpListener) (h : nat) : TcpListener * bool :=
  (Listener (l_port l) (backlog l ++ [h]) false, l_waker l).

Definition accept (l : TcpListener) : option nat * TcpListener :=
  match backlog l with
  | [] => (None, l)
  | h :: rest => (Some h, Listener (l_port l) rest (l_waker l))
  end.

(** ** The stack *)
Record NetStack := {
  net_cfg : NetConfig;
  net_arp : arp_cache;
  net_udp : OpenSockets;
  conn_store : gmap nat TcpConnection;
  connections : gmap ConnectionId nat;       (* TCP_CONNECTIONS *)
  listeners : gmap Z TcpListener;            (* TCP_LISTENERS *)
  spawned : list (nat * ReceivedSegment * Z);
  outbox : list (list Z);
}.

Definition set_arp (n : NetStack) (c : arp_cache) : NetStack :=
  {| net_cfg := net_cfg n; net_arp := c; net_udp := net_udp n; conn_store := conn_store n;
     connections := connections n; listeners := listeners n; spawned := spawned n;
     outbox := outbox n |}.
Definition set_udp (n : NetStack) (o : OpenSockets) : NetStack :=
  {| net_cfg := net_cfg n; net_arp := net_arp n; net_udp := o; conn_store := conn_store n;
     connections := connections n; listeners := listeners n; spawned := spawned n;
     outbox := outbox n |}.
Definition set_store (n : NetStack) (s : gmap nat TcpConnection) : NetStack :=
  {| net_cfg := net_cfg n; net_arp := net_arp n; net_udp := net_udp n; conn_store := s;
     connections := connections n; listeners := listeners n; spawned := spawned n;
     outbox := outbox n |}.
Definition add_connection (n : NetStack) (h : nat) (c : TcpConnection) (sg : ReceivedSegment)
    (lp : Z) : NetStack :=
  {| net_cfg := net_cfg n; net_arp := net_arp n; net_udp := net_udp n;
     conn_store := <[h := c]> (conn_store n);
     connections := <[TcpConnection.id c := h]> (connections n); listeners := listeners n;
     spawned := spawned n ++ [(h, sg, lp)]; outbox := outbox n |}.
Definition register_listener (n : NetStack) (l : TcpListener) : NetStack :=
  {| net_cfg := net_cfg n; net_arp := net_arp n; net_udp := net_udp n; conn_store := conn_store n;
     connections := connections n; listeners := <[l_port l := l]> (listeners n);
     spawned := spawned n; outbox := outbox n |}.
Definition send_packet (n : NetStack) (p : list Z) : NetStack :=
  {| net_cfg := net_cfg n; net_arp := net_arp n; net_udp := net_udp n; conn_store := conn_store n;
     connections := connections n; listeners := listeners n; spawned := spawned n;
     outbox := outbox n ++ [p] |}.

Section rx.
Context `{HH : Headers}.

Definition send_rst (n : NetStack) (dst : Ipv4Addr) (mac : MacAddress)
    (src_port dst_port seq ack : Z) : outcome NetStack :=
  packet ← create_tcp_packet (net_cfg n) dst mac src_port dst_port seq ack
             (Z.lor FLAG_RST FLAG_ACK) 0 [];
  Ret (send_packet n packet).

(** [iss] is [generate_iss()], the clock at that moment. *)
Definition process_tcp_packet (n : NetStack) (iss : Z) (ip : IpV4Header) (data : list Z)
    (mac : MacAddress) : outcome NetStack :=
  r ← tcp_process data ip;
  match r with
  | inl _ => Ret n
  | inr (th, payload) =>
      let conn_id := ConnId (get 2 (tcp_destination_port th)) (source_ip ip)
                       (get 2 (tcp_source_port th)) in
      let segment := Segment (get 4 (tcp_sequence_number th))
                       (get 4 (tcp_acknowledgment_number th)) (flags th) payload in
      match connections n !! conn_id with
      | Some h =>
          c ← expect (conn_store n !! h);
          Ret (set_store n (<[h := (deliver_segment c segment).1]> (conn_store n)))
      | None =>
          match (if has (flags th) FLAG_SYN then listeners n !! local_port conn_id else None) with
          | Some l =>
              let h := fresh (dom (conn_store n) : gset nat) in
              Ret (add_connection n h (conn_new conn_id mac iss) segment (l_port l))
          | None =>
              len ← len_as_seq (length payload);
              ack ← add 32 len (if has (flags th) FLAG_SYN then 1 else 0);
              send_rst n (source_ip ip) mac (get 2 (tcp_destination_port th))
                (get 2 (tcp_source_port th)) (get 4 (tcp_acknowledgment_number th))
                (wrapping_add 32 (get 4 (tcp_sequence_number th)) ack)
          end
      end
  end.

Definition process_ipv4_packet (n : NetStack) (iss : Z) (data : list Z) (mac : MacAddress)
    : outcome NetStack :=
  r ← ip_process (net_cfg n) data;
  match r with
  | inl _ => Ret n
  | inr (ip, rest) =>
      let n := set_arp n (cache_insert (net_arp n) (source_ip ip) mac) in
      if get 1 (upper_protocol ip) =? IPPROTO_UDP then
        r ← udp_process rest ip;
        match r with
        | inl _ => Panic        (* expect("Udp header must be valid.") *)
        | inr (uh, data) =>
            o ← put_data (net_udp n) (source_ip ip) (get 2 (udp_source_port uh))
                  (get 2 (udp_destination_port uh)) data;
            Ret (set_udp n o)
        end
      else if get 1 (upper_protocol ip) =? IPPROTO_TCP then
        process_tcp_packet n iss ip rest mac
      else Ret n
  end.

Definition process_packet (n : NetStack) (iss : Z) (packet : list Z) : outcome NetStack :=
  match eth_try_parse (net_cfg n) packet with
  | inl _ => Ret n
  | inr (eh, rest) =>
      t ← ether_type eh;
      match t with
      | Arp =>
          '(c, reply) ← process_and_respond (net_cfg n) (net_arp n) rest;
          Ret (match reply with
               | Some p => send_packet (set_arp n c) p
               | None => set_arp n c
               end)
      | IPv4 => process_ipv4_packet n iss rest (source_mac eh)
      end
  end.

(** [receive_and_process_packets]: the device's packets in order, each with
    the clock at its processing. *)
Definition receive_and_process_packets (n : NetStack) (packets : list (Z * list Z))
    : outcome (NetStack * nat) :=
  n ← foldM (λ n '(iss, p), process_packet n iss p) packets n;
  Ret (n, length packets).
End rx.

(** ** Reading the Ethernet header back *)
Lemma eth_slice_length h : length (eth_slice h) = 14%nat.
Proof. unfold eth_slice. by rewrite !length_app, field_length. Qed.

Lemma ether_types_into t : EtherTypes_try_from (EtherTypes_into t) = inr t.
Proof. by destruct t. Qed.

Lemma eth_accepts cfg dst src t rest : dst = current_mac_address cfg ∨ dst = BROADCAST_MAC →
  eth_try_parse cfg (eth_slice (eth_new dst src t) ++ rest) = inr (eth_new dst src t, rest).
Proof.
  intros Hd. unfold eth_try_parse.
  rewrite bool_decide_false by (rewrite length_app, eth_slice_length; lia).
  rewrite parse_eth_slice by (split; destruct t; apply from_little_endian_ok).
  hdr. rewrite ether_types_into.
  rewrite drop_app_length' by by rewrite eth_slice_length.
  destruct Hd as [-> | ->]; [by rewrite bool_decide_true|].
  rewrite (bool_decide_true (BROADCAST_MAC = BROADCAST_MAC)) by done. by rewrite andb_false_r.
Qed.

Lemma drop_reserve (l : list Z) : drop 12 (replicate 12 0 ++ l) = l.
Proof. done. Qed.

Lemma fresh_conn_store (n : NetStack) : conn_store n !! fresh (dom (conn_store n) : gset nat) = None.
Proof. apply not_elem_of_dom, is_fresh. Qed.

Definition port_ok (p : Z) : Prop := 0 ≤ p < 65536.
Definition seq_ok (s : Z) : Prop := 0 ≤ s < 2 ^ 32.

Lemma get_port p : port_ok p → get 2 (from_little_endian 2 p) = p.
Proof. intros. by apply get_from_little_endian. Qed.
Lemma get_seq s : seq_ok s → get 4 (from_little_endian 4 s) = s.
Proof. intros. by apply get_from_little_endian. Qed.

Section theorems.
Context `{HH : Headers} `{HO : !HeadersOk HH}.

Lemma tcp_hdr_flags sp dp seq ack fl win c : 0 ≤ fl < 512 →
  flags (tcp_hdr sp dp seq ack fl win c) = fl.
Proof.
  intros Hf. destruct (tcp_offset_flags fl Hf) as (Hr & _ & Hl). unfold flags, tcp_hdr. hdr.
  rewrite get_from_little_endian by exact Hr. exact Hl.
Qed.

(** The addresses of an IPv4 frame reach the upper layer; the sender is
    remembered in the ARP cache. *)
Lemma process_ipv4_frame n iss src ih rest : ip_process (net_cfg n) rest = Ret (inr ih) →
  process_packet n iss
    (eth_slice (eth_new (current_mac_address (net_cfg n)) src IPv4) ++ rest) =
  process_ipv4_packet n iss rest src.
Proof. intros _. unfold process_packet. rewrite eth_accepts by by left. done. Qed.

Lemma send_rst_Ret n dst mac sp dp seq ack : addr_ok (ip_addr (net_cfg n)) → addr_ok dst →
  ∃ rst, create_tcp_packet (net_cfg n) dst mac sp dp seq ack (Z.lor FLAG_RST FLAG_ACK) 0 [] = Ret rst ∧
    send_rst n dst mac sp dp seq ack = Ret (send_packet n rst).
Proof.
  intros Hn Hd. destruct th_values as (_ & _ & Hr & Hk). unfold send_rst, FLAG_RST, FLAG_ACK.
  rewrite Hr, Hk.
  destruct (create_tcp_packet_Ret (net_cfg n) dst mac sp dp seq ack (Z.lor 4 16) 0 [])
    as (ih & c & _ & _ & _ & _ & _ & Hpk & _); [done|done|constructor|by vm_compute|by vm_compute|].
  eexists. split; [exact Hpk|]. by rewrite Hpk.
Qed.

(** C8: a UDP datagram sent by one machine is delivered by the other machine's
    receive path: the frame [create_udp_packet] builds, as it arrives without the
    driver's header, is accepted at every layer, and exactly the datagram sent is
    appended to the queue of the socket bound to the destination port. *)
Theorem udp_end_to_end cfg n iss sp dp payload i s :
  addr_ok (ip_addr cfg) → addr_ok (ip_addr (net_cfg n)) → bytes payload →
  28 + Z.of_nat (length payload) < 65536 → port_ok sp → port_ok dp →
  sockets (net_udp n) !! dp = Some i → socks (net_udp n) !! i = Some s → dying s = false →
  ∃ packet,
    create_udp_packet cfg (ip_addr (net_cfg n)) dp (current_mac_address (net_cfg n)) sp payload
      = Ret packet ∧
    process_packet n iss (drop DRIVER_HEADER_RESERVE packet) =
      Ret (set_udp (set_arp n (<[ip_addr cfg := current_mac_address cfg]> (net_arp n)))
        (Open (sockets (net_udp n))
          (<[i := push_datagram s {| from := ip_addr cfg; from_port := sp; Sockets.data := payload |}]>
             (socks (net_udp n))))).
Proof.
  intros Ha Hb Hd Hl Hsp Hdp Hp Hs Hdy. destruct ipproto_values as [_ Hudp].
  destruct (create_udp_packet_Ret cfg (ip_addr (net_cfg n)) (current_mac_address (net_cfg n))
    sp dp payload) as (ih & c & _ & Hsi & _ & Hpr & Hpk & Hip & Hup); [done..|].
  eexists. split; [exact Hpk|]. unfold DRIVER_HEADER_RESERVE. rewrite drop_reserve.
  erewrite process_ipv4_frame by by apply Hip.
  unfold process_ipv4_packet. rewrite Hip by done. bstep. cbn beta iota.
  rewrite Hpr, Hudp, Z.eqb_refl, Hup. bstep. cbn beta iota. unfold udp_hdr. hdr.
  rewrite !get_port, Hsi by done. unfold put_data, cache_insert. cbn [net_udp set_arp].
  rewrite Hp, Hs. bstep. rewrite Hdy. done.
Qed.

(** C9: a TCP segment sent by one machine reaches the other: a registered
    connection gets exactly that segment at the end of its mailbox; a SYN to a
    listening port without a connection creates the connection, registers it and
    spawns its task with that segment; anything else is answered by one RST
    packet to the sender. *)
Theorem tcp_end_to_end cfg n iss sp dp seq ack fl win payload :
  addr_ok (ip_addr cfg) → addr_ok (ip_addr (net_cfg n)) → bytes payload → 0 ≤ fl < 512 →
  40 + Z.of_nat (length payload) < 65536 → port_ok sp → port_ok dp → seq_ok seq → seq_ok ack →
  (∀ i h, connections n !! i = Some h → is_Some (conn_store n !! h)) →
  let cid := ConnId dp (ip_addr cfg) sp in
  let sg := Segment seq ack fl payload in
  let n' := set_arp n (<[ip_addr cfg := current_mac_address cfg]> (net_arp n)) in
  ∃ packet,
    create_tcp_packet cfg (ip_addr (net_cfg n)) (current_mac_address (net_cfg n)) sp dp seq ack fl
      win payload = Ret packet ∧
    match connections n !! cid with
    | Some h => ∃ c, conn_store n !! h = Some c ∧
        process_packet n iss (drop DRIVER_HEADER_RESERVE packet) =
          Ret (set_store n' (<[h := (deliver_segment c sg).1]> (conn_store n)))
    | None =>
        if has fl FLAG_SYN && bool_decide (is_Some (listeners n !! dp)) then
          ∃ l h, listeners n !! dp = Some l ∧ conn_store n !! h = None ∧
            process_packet n iss (drop DRIVER_HEADER_RESERVE packet) =
              Ret (add_connection n' h (conn_new cid (current_mac_address cfg) iss) sg (l_port l))
        else
          ∃ rst, create_tcp_packet (net_cfg n) (ip_addr cfg) (current_mac_address cfg) dp sp ack
              (wrapping_add 32 seq (Z.of_nat (length payload) + if has fl FLAG_SYN then 1 else 0))
              (Z.lor FLAG_RST FLAG_ACK) 0 [] = Ret rst ∧
            process_packet n iss (drop DRIVER_HEADER_RESERVE packet) = Ret (send_packet n' rst)
    end.
Proof.
  intros Ha Hb Hd Hfl Hl Hsp Hdp Hseq Hack Hst cid sg n'. destruct ipproto_values as [Htcp Hudp].
  destruct (create_tcp_packet_Ret cfg (ip_addr (net_cfg n)) (current_mac_address (net_cfg n))
    sp dp seq ack fl win payload) as (ih & c & _ & Hsi & _ & _ & Hpr & Hpk & Hip & Htp); [done..|].
  eexists. split; [exact Hpk|]. unfold DRIVER_HEADER_RESERVE. rewrite drop_reserve.
  erewrite process_ipv4_frame by by apply Hip.
  unfold process_ipv4_packet. rewrite Hip by done. bstep. cbn beta iota.
  rewrite Hpr, Htcp, Hudp. change (6 =? 17) with false. change (6 =? 6) with true. cbn iota.
  unfold process_tcp_packet. rewrite Htp. bstep. cbn beta iota.
  rewrite tcp_hdr_flags by done. unfold tcp_hdr. hdr. rewrite !get_port, !get_seq, Hsi by done.
  fold cid sg n'. cbn [connections set_arp n' conn_store listeners net_cfg local_port cid].
  destruct (connections n !! cid) as [h|] eqn:Hc.
  { destruct (Hst _ _ Hc) as [c0 Hc0]. exists c0. split; [done|]. rewrite Hc0. done. }
  destruct (if has fl FLAG_SYN then listeners n !! dp else None) as [l|] eqn:Hlis.
  - destruct (has fl FLAG_SYN); [|done]. rewrite bool_decide_true by by eexists. cbn [andb].
    exists l, (fresh (dom (conn_store n) : gset nat)). split; [done|]. split; [|done].
    apply fresh_conn_store.
  - assert (has fl FLAG_SYN && bool_decide (is_Some (listeners n !! dp)) = false) as ->.
    { destruct (has fl FLAG_SYN); [|done]. rewrite Hlis. done. }
    destruct (send_rst_Ret n' (ip_addr cfg) (current_mac_address cfg) dp sp ack
      (wrapping_add 32 seq (Z.of_nat (length payload) + if has fl FLAG_SYN then 1 else 0)))
      as (rst & Hrst & Hs); [done|done|].
    exists rst. split; [exact Hrst|]. unfold len_as_seq. rewrite (proj2 (Z.ltb_lt _ _)) by lia. bstep.
    erewrite (proj2 (add_Ret 32 _ _ _)); [|split; [reflexivity|destruct (has fl FLAG_SYN); lia]].
    exact Hs.
Qed.
(** an ARP request for the machine's address, from any sender, is answered
    by exactly one packet, addressed to the sender, whose ARP part names the
    machine's own MAC and IP address; and the sender is remembered. *)
Theorem arp_request_answered n iss h dst :
  arp_ok h → dst = current_mac_address (net_cfg n) ∨ dst = BROADCAST_MAC →
  get 2 (hardware_address_type h) = 1 → get 2 (protocol_address_type h) = 0x0800 →
  get 1 (hardware_address_length h) = 6 → get 1 (protocol_address_length h) = 4 →
  get 2 (operation h) = 1 → destination_ip_address h = ip_addr (net_cfg n) →
  ∃ reply, process_packet n iss
      (eth_slice (eth_new dst (source_mac_address h) Arp) ++ arp_slice h) =
      Ret (send_packet
        (set_arp n (<[source_ip_address h := source_mac_address h]> (net_arp n))) reply) ∧
    ∃ eh ah, drop DRIVER_HEADER_RESERVE reply = eth_slice eh ++ arp_slice ah ∧
      destination_mac eh = source_mac_address h ∧ ether_type eh = Ret Arp ∧
      get 2 (operation ah) = 2 ∧
      source_mac_address ah = current_mac_address (net_cfg n) ∧
      source_ip_address ah = ip_addr (net_cfg n) ∧
      destination_ip_address ah = source_ip_address h.
Proof.
  intros Hok Hd H1 H2 H3 H4 H5 H6. unfold process_packet. rewrite eth_accepts by done.
  unfold ether_type. hdr. rewrite ether_types_into. bstep. cbn iota.
  unfold process_and_respond.
  assert (parse_arp (arp_slice h) = h) as -> by (rewrite <-(app_nil_r (arp_slice h)); by apply parse_arp_slice).
  assert (length (arp_slice h) = 28%nat) as -> by (unfold arp_slice; by rewrite !length_app, !field_length).
  rewrite H1, H2, H3, H4, H5, (bool_decide_true _ H6). bstep. cbn iota beta.
  eexists. split; [reflexivity|]. unfold DRIVER_HEADER_RESERVE. rewrite drop_reserve.
  do 2 eexists. split; [reflexivity|]. split; [done|]. split; [done|]. by split_and!.
Qed.

(** C18: a single frame from the network panics the kernel: an IPv4 packet of
    another version, an ARP reply, or a UDP packet whose length field is below
    the header's size. *)
Theorem malformed_frames_panic n iss src :
  let us := current_mac_address (net_cfg n) in
  process_packet n iss (eth_slice (eth_new us src IPv4) ++ 0x60 :: replicate 19 0) = Panic ∧
  process_packet n iss (eth_slice (eth_new us src Arp) ++ arp_slice
    (new_reply {| current_mac_address := src; ip_addr := UNSPECIFIED |} us UNSPECIFIED)) = Panic ∧
  ∀ ih uh rest, udp_ok uh → get 2 (udp_length uh) < 8 → get 1 (upper_protocol ih) = 17 →
    ip_process (net_cfg n) (ip_slice ih ++ udp_slice uh ++ rest) =
      Ret (inr (ih, udp_slice uh ++ rest)) →
    process_packet n iss (eth_slice (eth_new us src IPv4) ++ ip_slice ih ++ udp_slice uh ++ rest)
      = Panic.
Proof.
  intros us. split; [|split].
  - unfold process_packet, us. by rewrite eth_accepts by by left.
  - unfold process_packet, us. by rewrite eth_accepts by by left.
  - intros ih uh rest Hok Hlen Hpr Hip. destruct ipproto_values as [_ Hudp]. unfold us.
    erewrite process_ipv4_frame by exact Hip. unfold process_ipv4_packet. rewrite Hip. bstep.
    cbn iota beta. rewrite Hpr, Hudp, Z.eqb_refl. unfold udp_process.
    rewrite bool_decide_false by (rewrite length_app, udp_slice_length; lia).
    rewrite parse_udp_slice by done. unfold UDP_HEADER_SIZE.
    destruct (add 64 _ 8); [|done]. bstep. destruct (_ <=? _); [|done]. bstep.
    unfold sub, checked_sub. by rewrite (proj2 (Z.leb_gt _ _)) by lia.
Qed.
End theorems.

(** ** Witnesses *)
#[local] Instance rx_headers : Headers := linux_headers.
#[local] Instance rx_headers_ok : HeadersOk rx_headers := linux_headers_ok.

Definition rx_sender : NetConfig :=
  {| current_mac_address := Mac 2 0 0 0 0 2; ip_addr := Ip 10 0 2 2 |}.

(** A machine with a socket on port 53 and a listener on port 80. *)
Definition rx_stack : NetStack := {|
  net_cfg := {| current_mac_address := Mac 2 0 0 0 0 1; ip_addr := Ip 10 0 2 15 |};
  net_arp := ∅; net_udp := (try_get_socket open_new 53).2; conn_store := ∅; connections := ∅;
  listeners := {[80 := listener_new 80]}; spawned := []; outbox := [] |}.

Lemma rx_addrs : addr_ok (ip_addr rx_sender) ∧ addr_ok (ip_addr (net_cfg rx_stack)).
Proof.
  split; repeat apply Forall_cons_2; try apply Forall_nil_2; unfold is_byte; simpl; lia.
Qed.

Lemma udp_end_to_end_witness :
  ∃ packet, create_udp_packet rx_sender (Ip 10 0 2 15) 53 (Mac 2 0 0 0 0 1) 40000 [1; 2; 3] = Ret packet ∧
    process_packet rx_stack 0 (drop DRIVER_HEADER_RESERVE packet) ≠ Panic.
Proof.
  destruct (udp_end_to_end rx_sender rx_stack 0 40000 53 [1; 2; 3] 0%nat (Socket [] 53 false))
    as (p & H1 & H2); [apply rx_addrs|apply rx_addrs| |by vm_compute..|].
  - repeat apply Forall_cons_2; try apply Forall_nil_2; unfold is_byte; lia.
  - exists p. split; [exact H1|]. rewrite H2. discriminate.
Defined.

Lemma tcp_end_to_end_witness :
  ∃ packet l h, create_tcp_packet rx_sender (Ip 10 0 2 15) (Mac 2 0 0 0 0 1) 40000 80 7 0 2 8192 []
      = Ret packet ∧ listeners rx_stack !! 80 = Some l ∧
    process_packet rx_stack 99 (drop DRIVER_HEADER_RESERVE packet) =
      Ret (add_connection (set_arp rx_stack (<[Ip 10 0 2 2 := Mac 2 0 0 0 0 2]> ∅)) h
        (conn_new (ConnId 80 (Ip 10 0 2 2) 40000) (Mac 2 0 0 0 0 2) 99) (Segment 7 0 2 []) (l_port l)).
Proof.
  destruct (tcp_end_to_end rx_sender rx_stack 99 40000 80 7 0 2 8192 []) as (p & H1 & H2);
    [apply rx_addrs|apply rx_addrs|constructor|lia|simpl; lia|by vm_compute..|].
  destruct H2 as (l & h & Hl & _ & H). exists p, l, h. split; [exact H1|]. split; [exact Hl|exact H].
Defined.

Definition rx_request : ArpPacket := {|
  hardware_address_type := from_little_endian 2 1;
  protocol_address_type := from_little_endian 2 0x0800;
  hardware_address_length := from_little_endian 1 6;
  protocol_address_length := from_little_endian 1 4;
  operation := from_little_endian 2 1;
  source_mac_address := Mac 2 0 0 0 0 2; source_ip_address := Ip 10 0 2 2;
  destination_mac_address := Mac 0 0 0 0 0 0; destination_ip_address := Ip 10 0 2 15 |}.

Lemma arp_request_answered_witness :
  ∃ n', process_packet rx_stack 0
    (eth_slice (eth_new BROADCAST_MAC (Mac 2 0 0 0 0 2) Arp) ++ arp_slice rx_request) = Ret n'.
Proof.
  destruct (arp_request_answered rx_stack 0 rx_request BROADCAST_MAC) as (r & H & _);
    [split; apply from_little_endian_ok|by right|by vm_compute..|].
  eexists. exact H.
Defined.

(** A UDP packet of length 4. *)
Definition rx_short_ip : IpV4Header :=
  parse_ip [0x45; 0; 0; 28; 0; 0; 0; 0; 64; 17; 0x62; 0xc1; 10; 0; 2; 2; 10; 0; 2; 15].
Definition rx_short_udp : UdpHeader := parse_udp [1; 0; 0; 53; 0; 4; 0; 0].

Lemma rx_short_accepted : ip_process (net_cfg rx_stack) (ip_slice rx_short_ip ++ udp_slice rx_short_udp ++ []) =
  Ret (inr (rx_short_ip, udp_slice rx_short_udp ++ [])).
Proof. by vm_compute. Qed.

Lemma rx_short_ok : udp_ok rx_short_udp.
Proof. repeat split; by vm_compute. Qed.

Lemma malformed_frames_panic_witness :
  process_packet rx_stack 0 (eth_slice (eth_new (current_mac_address (net_cfg rx_stack)) BROADCAST_MAC IPv4) ++
    ip_slice rx_short_ip ++ udp_slice rx_short_udp ++ []) = Panic.
Proof.
  exact (proj2 (proj2 (malformed_frames_panic rx_stack 0 BROADCAST_MAC)) rx_short_ip rx_short_udp []
    rx_short_ok eq_refl eq_refl rx_short_accepted).
Defined.
