(* ===== verification/NetWait.v ===== *)
(** The sleep of the network receive task: [notify_packet_arrival],
    [NetworkInterruptWait] and [network_rx_task] of
    crates/kernel/src/net/mod.rs, as an interleaving of the interrupt handler
    with the task. Each atomic operation or locked block of the source is one
    step. *)
From S2P Require Import Prelude.

(** Where the task is: before the load of the counter, before draining the
    device, at the load of [poll], at the registration, at the second load, or
    suspended. [seen] is the counter it loaded, [registered] the future's flag. *)
Inductive RxPc :=
  | AtLoad
  | AtReceive (seen : Z)
  | AtPoll (seen : Z) (registered : bool)
  | AtRegister (seen : Z)
  | AtRecheck (seen : Z)
  | Suspended (seen : Z).

(** Where the interrupt handler is. *)
Inductive IrqPc := IrqIdle | IrqCount | IrqWake.

Record RxState := {
  interrupt_counter : Z;      (* NETWORK_INTERRUPT_COUNTER *)
  waker_listed : bool;        (* in NETWORK_INTERRUPT_WAKERS *)
  woken : bool;               (* the task is queued to run again *)
  rx_pc : RxPc;
  irq_pc : IrqPc;
  irq_raised : bool;          (* the device asserts its interrupt *)
  rx_pending : nat;           (* packets in the device *)
}.

Definition rx_start : RxState := {|
  interrupt_counter := 0; waker_listed := false; woken := false; rx_pc := AtLoad;
  irq_pc := IrqIdle; irq_raised := false; rx_pending := 0 |}.

Inductive rx_event :=
  | PacketArrives
  | IrqStep
  | TaskStep.

Definition with_pc (s : RxState) (p : RxPc) : RxState := {|
  interrupt_counter := interrupt_counter s; waker_listed := waker_listed s; woken := woken s;
  rx_pc := p; irq_pc := irq_pc s; irq_raised := irq_raised s; rx_pending := rx_pending s |}.

Definition packet_arrives (s : RxState) : RxState := {|
  interrupt_counter := interrupt_counter s; waker_listed := waker_listed s; woken := woken s;
  rx_pc := rx_pc s; irq_pc := irq_pc s; irq_raised := true; rx_pending := S (rx_pending s) |}.

(** [notify_packet_arrival]: the counter, then the wakers. *)
Definition notify_step (s : RxState) : RxState :=
  match irq_pc s with
  | IrqIdle =>
      if irq_raised s then {|
        interrupt_counter := interrupt_counter s; waker_listed := waker_listed s;
        woken := woken s; rx_pc := rx_pc s; irq_pc := IrqCount; irq_raised := false;
        rx_pending := rx_pending s |}
      else s
  | IrqCount => {|
      interrupt_counter := wrapping_add 64 (interrupt_counter s) 1;
      waker_listed := waker_listed s; woken := woken s; rx_pc := rx_pc s; irq_pc := IrqWake;
      irq_raised := irq_raised s; rx_pending := rx_pending s |}
  | IrqWake => {|
      interrupt_counter := interrupt_counter s; waker_listed := false;
      woken := woken s || waker_listed s; rx_pc := rx_pc s; irq_pc := IrqIdle;
      irq_raised := irq_raised s; rx_pending := rx_pending s |}
  end.

(** [network_rx_task] up to the await, and [NetworkInterruptWait::poll]. *)
Definition rx_task_step (s : RxState) : RxState :=
  match rx_pc s with
  | AtLoad => with_pc s (AtReceive (interrupt_counter s))
  | AtReceive seen => {|
      interrupt_counter := interrupt_counter s; waker_listed := waker_listed s; woken := woken s;
      rx_pc := AtPoll seen false; irq_pc := irq_pc s; irq_raised := irq_raised s;
      rx_pending := 0 |}
  | AtPoll seen registered =>
      if negb (interrupt_counter s =? seen) then with_pc s AtLoad
      else if registered then with_pc s (Suspended seen)
      else with_pc s (AtRegister seen)
  | AtRegister seen => {|
      interrupt_counter := interrupt_counter s; waker_listed := true; woken := woken s;
      rx_pc := AtRecheck seen; irq_pc := irq_pc s; irq_raised := irq_raised s;
      rx_pending := rx_pending s |}
  | AtRecheck seen =>
      if negb (interrupt_counter s =? seen) then with_pc s AtLoad
      else with_pc s (Suspended seen)
  | Suspended seen =>
      if woken s then {|
        interrupt_counter := interrupt_counter s; waker_listed := waker_listed s;
        woken := false; rx_pc := AtPoll seen true; irq_pc := irq_pc s;
        irq_raised := irq_raised s; rx_pending := rx_pending s |}
      else s
  end.

Definition rx_step (s : RxState) (ev : rx_event) : RxState :=
  match ev with
  | PacketArrives => packet_arrives s
  | IrqStep => notify_step s
  | TaskStep => rx_task_step s
  end.

Definition rx_run (evs : list rx_event) (s : RxState) : RxState := foldl rx_step s evs.

(** Asleep: suspended, no wake-up queued. *)
Definition rx_asleep (s : RxState) : Prop := (∃ seen, rx_pc s = Suspended seen) ∧ woken s = false.

(** ** With the handler's two steps together *)
(** The whole handler in one step, as when the task and the handler run on the
    same processor. *)
Definition irq_handler (s : RxState) : RxState :=
  if irq_raised s then notify_step (notify_step (notify_step s)) else s.

Definition rx_step_atomic (s : RxState) (ev : rx_event) : RxState :=
  match ev with IrqStep => irq_handler s | _ => rx_step s ev end.
Definition rx_run_atomic (evs : list rx_event) (s : RxState) : RxState :=
  foldl rx_step_atomic s evs.

(** What holds between handlers: the counter has not wrapped, an unfetched
    packet is announced, and a task that has registered is either listed or
    already behind the counter. *)
Record rx_inv (k : Z) (s : RxState) : Prop := {
  ri_count : 0 ≤ interrupt_counter s ≤ k;
  ri_idle : irq_pc s = IrqIdle;
  ri_seen : match rx_pc s with
    | AtLoad => True
    | AtReceive seen | AtPoll seen _ | AtRegister seen | AtRecheck seen | Suspended seen =>
        seen ≤ interrupt_counter s
    end;
  ri_announced : (0 < rx_pending s)%nat → irq_raised s = true ∨
    match rx_pc s with
    | AtLoad | AtReceive _ => True
    | AtPoll seen _ | AtRegister seen | AtRecheck seen | Suspended seen =>
        seen < interrupt_counter s
    end;
  ri_listed : match rx_pc s with
    | AtRecheck seen | AtPoll seen true =>
        waker_listed s = true ∨ seen < interrupt_counter s
    | Suspended seen =>
        waker_listed s = true ∧ seen = interrupt_counter s ∨
        woken s = true ∧ seen < interrupt_counter s ∨
        woken s = true ∧ waker_listed s = true
    | _ => True
    end;
}.

Lemma rx_step_atomic_inv k s ev : rx_inv k s → k + 1 < 2 ^ 64 → rx_inv (k + 1) (rx_step_atomic s ev).
Proof.
  intros [Hc Hi Hs Ha Hl] Hk. destruct s as [c w wo pc irq raised pend]. simpl in *. subst irq.
  destruct ev; simpl.
  - split; simpl; try done; try lia; intros _; by left.
  - unfold irq_handler. simpl. destruct raised; [|split; simpl; (done || lia)].
    unfold notify_step. cbn [irq_pc irq_raised interrupt_counter waker_listed woken rx_pc rx_pending].
    assert (wrapping_add 64 c 1 = c + 1) as -> by (unfold wrapping_add; rewrite Z.mod_small; lia).
    split; cbn [irq_pc irq_raised interrupt_counter waker_listed woken rx_pc rx_pending];
      [lia|done|destruct pc; simpl in *; (done || lia)| |].
    + intros _. right. destruct pc; simpl in *; (done || lia).
    + destruct pc as [| |seen []| | |seen]; simpl in *; try done; try (right; lia).
      right; left. split; [|lia]. destruct Hl as [[-> _]|[[-> _]|[-> _]]]; rewrite ?orb_true_r; done.
  - unfold rx_task_step, with_pc. simpl. destruct pc as [|seen|seen r|seen|seen|seen]; simpl in *.
    + split; simpl; (done || lia || tauto).
    + split; simpl; (done || lia || tauto).
    + destruct (Z.eqb_spec c seen) as [->|]; simpl; [|split; simpl; (done || lia || tauto)].
      destruct r; (split; simpl; try (done || lia || tauto)).
      left. destruct Hl; [done|lia].
    + split; simpl; (done || lia || tauto).
    + destruct (Z.eqb_spec c seen) as [->|]; simpl; (split; simpl; try (done || lia || tauto)).
      left. destruct Hl; [done|lia].
    + destruct wo; simpl; [|split; simpl; (done || lia || tauto)].
      split; simpl; try (done || lia || tauto).
Qed.

Lemma rx_run_atomic_inv evs : ∀ k s, rx_inv k s → k + Z.of_nat (length evs) < 2 ^ 64 →
  ∃ k', rx_inv k' (rx_run_atomic evs s).
Proof.
  unfold rx_run_atomic. induction evs as [|ev evs IH]; intros k s Hs Hk; simpl; [eauto|].
  cbn [length] in Hk. apply (IH (k + 1)); [apply rx_step_atomic_inv; [done|lia]|lia].
Qed.

(** when the interrupt handler runs without the task in between, the task
    never sleeps through a packet: in any run of fewer than 2^64 steps, if the
    task sleeps while the device holds a packet, the device's interrupt is still
    to come; and its handler then wakes the task. *)
Theorem rx_no_lost_packet evs : Z.of_nat (length evs) < 2 ^ 64 →
  let s := rx_run_atomic evs rx_start in
  rx_asleep s →
  ((0 < rx_pending s)%nat → irq_raised s = true) ∧
  (irq_raised s = true → woken (irq_handler s) = true).
Proof.
  intros Hlen s [[seen Hpc] Hw].
  destruct (rx_run_atomic_inv evs 0 rx_start) as [k [Hc Hi Hs Ha Hl]]; [|lia|].
  { split; simpl; (done || lia). }
  fold s in Hc, Hi, Hs, Ha, Hl. rewrite Hpc in *. rewrite Hw in Hl.
  destruct Hl as [[Hwl ->]|[[? _]|[? _]]]; [|done..]. split.
  - intros Hp. destruct (Ha Hp); [done|lia].
  - intros Hr. unfold irq_handler, notify_step. rewrite Hr, Hi. simpl. by rewrite Hwl, orb_true_r.
Qed.

Lemma rx_no_lost_packet_witness :
  let s := rx_run_atomic (replicate 5 TaskStep ++ [PacketArrives]) rx_start in
  irq_raised s = true.
Proof.
  apply (rx_no_lost_packet (replicate 5 TaskStep ++ [PacketArrives]));
    [by vm_compute|split; [by eexists|done]|by vm_compute; lia].
Defined.

(** when the handler on another processor is delayed between counting and
    waking, the task can lose its waker for good: it counts the interrupt as
    seen, registers, is woken, finds nothing new and sleeps again without
    registering. From then on no packet wakes it. *)
Theorem rx_wakeup_lost :
  let evs := [PacketArrives; IrqStep; IrqStep] ++ replicate 5 TaskStep ++ [IrqStep] ++
    replicate 2 TaskStep in
  ∀ k, let s := rx_run (evs ++ concat (replicate k [PacketArrives; IrqStep; IrqStep; IrqStep; TaskStep]))
                  rx_start in
    rx_asleep s ∧ rx_pending s = k ∧ irq_raised s = false ∧ irq_pc s = IrqIdle.
Proof.
  intros evs k. unfold rx_run. rewrite foldl_app.
  set (lost := λ c n, {| interrupt_counter := c; waker_listed := false; woken := false;
    rx_pc := Suspended 1; irq_pc := IrqIdle; irq_raised := false; rx_pending := n |}).
  cut (∀ c n, ∃ c', foldl rx_step (lost c n)
      (concat (replicate k [PacketArrives; IrqStep; IrqStep; IrqStep; TaskStep])) = lost c' (n + k)%nat).
  { intros H. destruct (H 1 0%nat) as [c' Hr].
    change (foldl rx_step rx_start evs) with (lost 1 0%nat). rewrite Hr. simpl.
    split; [split; [by eexists|done]|done]. }
  induction k as [|k IH]; intros c n; cbn [replicate concat].
  - exists c. by rewrite Nat.add_0_r.
  - rewrite foldl_app. destruct (IH (wrapping_add 64 c 1) (S n)) as [c' Hr].
    exists c'. change (foldl rx_step (lost c n) _) with (lost (wrapping_add 64 c 1) (S n)) at 1.
    rewrite Hr. f_equal. lia.
Qed.
