(* ===== verification/Pipe.v ===== *)
(** Pipes: crates/kernel/src/io/pipe.rs.

    A waker is the identity of the reader it wakes. A pipe is shared by its
    handles; [PipeReader]/[PipeWriter] count themselves in and out. *)
From S2P Require Import Prelude Headers.

Record PipeInner := Pipe {
  data : list Z;
  read_wakers : list nat;
  reader_count : Z;
  writer_count : Z;
}.

Definition pipe_new : PipeInner := Pipe [] [] 1 1.

Definition read_closed (p : PipeInner) : bool := reader_count p =? 0.
Definition write_closed (p : PipeInner) : bool := writer_count p =? 0.

(** [wake_readers]: the wakers are popped from the end. *)
Definition wake_readers (p : PipeInner) : PipeInner * list nat :=
  (Pipe (data p) [] (reader_count p) (writer_count p), rev (read_wakers p)).

Definition pipe_write (p : PipeInner) (d : list Z) : result nat * PipeInner * list nat :=
  if read_closed p then (Err EPIPE, p, [])
  else
    let '(p, woken) :=
      wake_readers (Pipe (data p ++ d) (read_wakers p) (reader_count p) (writer_count p)) in
    (Okay (length d), p, woken).

(** [data.drain(..min(data.len(), count))] *)
Definition drain (p : PipeInner) (count : nat) : list Z * PipeInner :=
  let actual := Nat.min (length (data p)) count in
  (take actual (data p), Pipe (drop actual (data p)) (read_wakers p) (reader_count p) (writer_count p)).

Definition try_read (p : PipeInner) (count : nat) : result (list Z) * PipeInner :=
  match data p with
  | _ :: _ => let '(d, p) := drain p count in (Okay d, p)
  | [] => if write_closed p then (Okay [], p) else (Err EAGAIN, p)
  end.

Definition add_reader (p : PipeInner) : outcome PipeInner :=
  rassert (0 <? reader_count p);;
  n ← add 64 (reader_count p) 1;
  Ret (Pipe (data p) (read_wakers p) n (writer_count p)).

Definition add_writer (p : PipeInner) : outcome PipeInner :=
  rassert (0 <? writer_count p);;
  n ← add 64 (writer_count p) 1;
  Ret (Pipe (data p) (read_wakers p) (reader_count p) n).

Definition close_write (p : PipeInner) : outcome (PipeInner * list nat) :=
  rassert (negb (write_closed p));;
  n ← sub (writer_count p) 1;
  let p := Pipe (data p) (read_wakers p) (reader_count p) n in
  Ret (if write_closed p then wake_readers p else (p, [])).

Definition close_read (p : PipeInner) : outcome PipeInner :=
  rassert (negb (read_closed p));;
  n ← sub (reader_count p) 1;
  Ret (Pipe (data p) (read_wakers p) n (writer_count p)).

(** [ReadPipe] *)
Record ReadPipe := { max_count : nat; is_registered : bool }.

Definition read_pipe_new (count : nat) : ReadPipe :=
  {| max_count := count; is_registered := false |}.

(** [ReadPipe::poll] with the waker of reader [me]. *)
Definition poll_read (p : PipeInner) (f : ReadPipe) (me : nat)
    : option (list Z) * PipeInner * ReadPipe :=
  match data p with
  | _ :: _ => let '(d, p) := drain p (max_count f) in (Some d, p, f)
  | [] =>
      if write_closed p then (Some [], p, f)
      else if negb (is_registered f) then
        (None, Pipe (data p) (read_wakers p ++ [me]) (reader_count p) (writer_count p),
         {| max_count := max_count f; is_registered := true |})
      else (None, p, f)
  end.

(** ** Runs *)
(** A pipe with its handles, the readers blocked in [read] and the history:
    what was written and what was read. *)
Record PipeWorld := {
  pipe : PipeInner;
  readers : nat;                       (* PipeReader handles *)
  writers : nat;                       (* PipeWriter handles *)
  blocked : gmap nat ReadPipe;         (* reader to its pending future *)
  runnable : gset nat;                 (* readers queued to be polled *)
  written : list Z;
  got : list Z;
  results : list (nat * list Z);
}.

Inductive pipe_event :=
  | Write (d : list Z)
  | TryRead (count : nat)
  | StartRead (me count : nat)         (* read(2) by a reader that is not in one *)
  | PollRead (me : nat)                (* the scheduler runs a woken reader *)
  | CloneReader | CloneWriter | DropReader | DropWriter.

Definition wake (w : PipeWorld) (ids : list nat) : gset nat :=
  runnable w ∪ (list_to_set ids ∩ dom (blocked w)).

Definition poll_step (w : PipeWorld) (f : ReadPipe) (me : nat) : PipeWorld :=
  let '(r, p, f) := poll_read (pipe w) f me in
  match r with
  | Some d => {| pipe := p; readers := readers w; writers := writers w;
                 blocked := delete me (blocked w); runnable := runnable w ∖ {[me]};
                 written := written w; got := got w ++ d; results := results w ++ [(me, d)] |}
  | None => {| pipe := p; readers := readers w; writers := writers w;
               blocked := <[me := f]> (blocked w); runnable := runnable w ∖ {[me]};
               written := written w; got := got w; results := results w |}
  end.

Definition set_pipe (w : PipeWorld) (p : PipeInner) (woken : list nat) (r wr : nat) : PipeWorld :=
  {| pipe := p; readers := r; writers := wr; blocked := blocked w; runnable := wake w woken;
     written := written w; got := got w; results := results w |}.

Definition pipe_exec (w : PipeWorld) (ev : pipe_event) : outcome PipeWorld :=
  match ev with
  | Write d =>
      if bool_decide (writers w = 0%nat) then Ret w else
      let '(r, p, woken) := pipe_write (pipe w) d in
      Ret {| pipe := p; readers := readers w; writers := writers w; blocked := blocked w;
             runnable := wake w woken;
             written := match r with inr _ => written w ++ d | inl _ => written w end;
             got := got w; results := results w |}
  | TryRead count =>
      if bool_decide (readers w = 0%nat) then Ret w else
      let '(r, p) := try_read (pipe w) count in
      Ret {| pipe := p; readers := readers w; writers := writers w; blocked := blocked w;
             runnable := runnable w; written := written w;
             got := got w ++ match r with inr d => d | inl _ => [] end; results := results w |}
  | StartRead me count =>
      if bool_decide (readers w = 0%nat) || bool_decide (is_Some (blocked w !! me)) then Ret w
      else Ret (poll_step w (read_pipe_new count) me)
  | PollRead me =>
      match blocked w !! me with
      | Some f => if bool_decide (me ∈ runnable w) then Ret (poll_step w f me) else Ret w
      | None => Ret w
      end
  | CloneReader =>
      if bool_decide (readers w = 0%nat) then Ret w else
      p ← add_reader (pipe w); Ret (set_pipe w p [] (S (readers w)) (writers w))
  | CloneWriter =>
      if bool_decide (writers w = 0%nat) then Ret w else
      p ← add_writer (pipe w); Ret (set_pipe w p [] (readers w) (S (writers w)))
  | DropReader =>
      match readers w with
      | O => Ret w
      | S n => p ← close_read (pipe w); Ret (set_pipe w p [] n (writers w))
      end
  | DropWriter =>
      match writers w with
      | O => Ret w
      | S n => '(p, woken) ← close_write (pipe w); Ret (set_pipe w p woken (readers w) n)
      end
  end.

(** [new_pipe]: one handle of each kind. *)
Definition pipe_start : PipeWorld := {|
  pipe := pipe_new; readers := 1; writers := 1; blocked := ∅; runnable := ∅;
  written := []; got := []; results := [] |}.

(** ** Data and handles *)
Record pipe_ok (k : Z) (w : PipeWorld) : Prop := {
  po_data : got w ++ data (pipe w) = written w;
  po_readers : reader_count (pipe w) = Z.of_nat (readers w);
  po_writers : writer_count (pipe w) = Z.of_nat (writers w);
  po_bound : Z.of_nat (readers w) ≤ k ∧ Z.of_nat (writers w) ≤ k;
}.

Lemma drain_data p n d p' : drain p n = (d, p') →
  d ++ data p' = data p ∧ reader_count p' = reader_count p ∧ writer_count p' = writer_count p ∧
  read_wakers p' = read_wakers p.
Proof. unfold drain. intros [= <- <-]. simpl. by rewrite take_drop. Qed.

Lemma poll_read_data p f me r p' f' : poll_read p f me = (r, p', f') →
  default [] r ++ data p' = data p ∧ reader_count p' = reader_count p ∧
  writer_count p' = writer_count p.
Proof.
  unfold poll_read. destruct (data p) as [|b l] eqn:Hd.
  - repeat case_match; intros [= <- <- <-]; simpl; by rewrite ?Hd.
  - destruct (drain p (max_count f)) as [d p1] eqn:Hdr. apply drain_data in Hdr as (H & ? & ? & _).
    intros [= <- <- <-]. simpl. by rewrite H, Hd.
Qed.

Lemma try_read_data p n r p' : try_read p n = (r, p') →
  (match r with inr d => d | inl _ => [] end) ++ data p' = data p ∧
  reader_count p' = reader_count p ∧ writer_count p' = writer_count p.
Proof.
  unfold try_read. destruct (data p) as [|b l] eqn:Hd.
  - case_match; intros [= <- <-]; simpl; by rewrite ?Hd.
  - destruct (drain p n) as [d p1] eqn:Hdr. apply drain_data in Hdr as (H & ? & ? & _).
    intros [= <- <-]. by rewrite H, Hd.
Qed.

Lemma poll_step_ok k w f me : pipe_ok k w → pipe_ok k (poll_step w f me).
Proof.
  intros [Hd Hr Hw Hb]. unfold poll_step.
  destruct (poll_read (pipe w) f me) as [[r p] f'] eqn:Hp.
  apply poll_read_data in Hp as (Hpd & Hpr & Hpw).
  destruct r; split; simpl in *; rewrite ?Hpr, ?Hpw, <-?app_assoc, ?Hpd; done.
Qed.

Lemma pipe_ok_weaken k k' w : pipe_ok k w → k ≤ k' → pipe_ok k' w.
Proof. intros [] ?. split; [done..|lia]. Qed.

Lemma pipe_exec_ok k w ev : pipe_ok k w → k + 1 < 2 ^ 64 →
  ∃ w', pipe_exec w ev = Ret w' ∧ pipe_ok (k + 1) w'.
Proof.
  intros Hok Hk. pose proof Hok as [Hd Hr Hw [Hb1 Hb2]].
  assert (pipe_ok (k + 1) w) as Hok' by (eapply pipe_ok_weaken; [done|lia]).
  destruct ev as [d|n|me n|me| | | |]; cbn [pipe_exec].
  - case_bool_decide; [eauto|]. unfold pipe_write. destruct (read_closed (pipe w)); simpl.
    all: eexists; split; [reflexivity|]; split; simpl; try (done || lia).
    by rewrite app_assoc, Hd.
  - case_bool_decide; [eauto|]. destruct (try_read (pipe w) n) as [r p] eqn:Ht.
    apply try_read_data in Ht as (Hpd & Hpr & Hpw).
    eexists. split; [reflexivity|]. split; simpl; rewrite ?Hpr, ?Hpw, <-?app_assoc, ?Hpd; (done || lia).
  - case_match; [eauto|]. eexists. split; [reflexivity|]. by apply poll_step_ok.
  - case_match; [|eauto]. case_bool_decide; [|eauto].
    eexists. split; [reflexivity|]. by apply poll_step_ok.
  - case_bool_decide; [eauto|]. unfold add_reader. rewrite Hr.
    rewrite (proj2 (Z.ltb_lt _ _)) by lia. bstep.
    rewrite (proj2 (add_Ret 64 _ 1 (Z.of_nat (readers w) + 1))) by lia.
    eexists. split; [reflexivity|]. split; simpl; (done || lia).
  - case_bool_decide; [eauto|]. unfold add_writer. rewrite Hw.
    rewrite (proj2 (Z.ltb_lt _ _)) by lia. bstep.
    rewrite (proj2 (add_Ret 64 _ 1 (Z.of_nat (writers w) + 1))) by lia.
    eexists. split; [reflexivity|]. split; simpl; (done || lia).
  - destruct (readers w) as [|n] eqn:Hn; [eauto|]. unfold close_read, read_closed. rewrite Hr.
    rewrite (proj2 (Z.eqb_neq _ _)) by lia. bstep.
    rewrite (proj2 (sub_Ret _ 1 (Z.of_nat n))) by lia.
    eexists. split; [reflexivity|]. split; simpl; (done || lia).
  - destruct (writers w) as [|n] eqn:Hn; [eauto|]. unfold close_write, write_closed.
    rewrite Hw. rewrite (proj2 (Z.eqb_neq (Z.of_nat (S n)) 0)) by lia. bstep.
    rewrite (proj2 (sub_Ret _ 1 (Z.of_nat n))) by lia. bstep.
    destruct (writer_count _ =? 0); eexists; (split; [reflexivity|]); split; simpl; (done || lia).
Qed.

Lemma pipe_run_ok evs : ∀ k w, pipe_ok k w → k + Z.of_nat (length evs) < 2 ^ 64 →
  ∃ w' k', foldM pipe_exec evs w = Ret w' ∧ pipe_ok k' w'.
Proof.
  induction evs as [|ev evs IH]; intros k w Hok Hk; simpl; [eauto|].
  cbn [length] in Hk. destruct (pipe_exec_ok k w ev) as (w1 & -> & H1); [done|lia|].
  bstep. apply (IH (k + 1)); [done|lia].
Qed.

(** C16: a pipe is a queue. In every run of reads, writes, clones and drops of
    handles, no operation panics (the counts are the numbers of handles), and
    the bytes read so far followed by the bytes in the pipe are exactly the bytes
    whose write succeeded, in order. *)
Theorem pipe_is_fifo evs : Z.of_nat (length evs) < 2 ^ 63 →
  ∃ w, foldM pipe_exec evs pipe_start = Ret w ∧
    got w ++ data (pipe w) = written w ∧
    reader_count (pipe w) = Z.of_nat (readers w) ∧ writer_count (pipe w) = Z.of_nat (writers w).
Proof.
  intros Hl. destruct (pipe_run_ok evs 1 pipe_start) as (w & k & Hr & [H1 H2 H3 _]);
    [split; simpl; (done || lia)|lia|]. eauto.
Qed.

Lemma pipe_is_fifo_witness : ∃ w,
  foldM pipe_exec [Write [1; 2; 3]; StartRead 0 2; CloneWriter; DropReader; Write [4]] pipe_start = Ret w ∧
  got w ++ data (pipe w) = [1; 2; 3].
Proof.
  destruct (pipe_is_fifo [Write [1; 2; 3]; StartRead 0 2; CloneWriter; DropReader; Write [4]])
    as (w & Hr & Hd & _); [by vm_compute|].
  exists w. split; [exact Hr|]. rewrite Hd. vm_compute in Hr. by injection Hr as <-.
Defined.

(** ** Sleeping readers *)
Definition asleep (w : PipeWorld) (me : nat) : Prop :=
  is_Some (blocked w !! me) ∧ me ∉ runnable w.

(** The operations of a run in which [me] is the only reader and nobody writes
    zero bytes. *)
Definition only_reader (me : nat) (ev : pipe_event) : Prop :=
  match ev with
  | StartRead i _ | PollRead i => i = me
  | TryRead _ => False
  | Write d => d ≠ []
  | _ => True
  end.

Record wait_ok (me : nat) (w : PipeWorld) : Prop := {
  wo_listed : asleep w me →
    me ∈ read_wakers (pipe w) ∧ data (pipe w) = [] ∧ write_closed (pipe w) = false;
  wo_woken : me ∈ runnable w → is_Some (blocked w !! me) →
    data (pipe w) ≠ [] ∨ write_closed (pipe w) = true;
}.

(** Steps that change neither the data nor the wakers, or that wake everyone. *)
Lemma set_pipe_quiet me w p' r wr : wait_ok me w →
  data p' = data (pipe w) → read_wakers p' = read_wakers (pipe w) →
  write_closed p' = write_closed (pipe w) → wait_ok me (set_pipe w p' [] r wr).
Proof.
  intros [Hl Hw] Hd Hr Hc. split; unfold asleep; simpl; unfold wake; simpl;
    rewrite intersection_empty_l_L, union_empty_r_L, Hd, Hc, ?Hr; done.
Qed.

Lemma set_pipe_wakes me w p' r wr : wait_ok me w →
  data p' ≠ [] ∨ write_closed p' = true →
  wait_ok me (set_pipe w p' (rev (read_wakers (pipe w))) r wr).
Proof.
  intros [Hl Hw] Hd. split; [|done]. intros [Hb Hn]. exfalso. apply Hn. simpl.
  unfold wake. apply elem_of_union. destruct (decide (me ∈ runnable w)); [by left|].
  destruct (Hl (conj Hb n)) as (Hin & _). right. apply elem_of_intersection.
  split; [|by apply elem_of_dom]. apply elem_of_list_to_set.
  rewrite list_elem_of_In, <-in_rev, <-list_elem_of_In. done.
Qed.

Lemma wait_ok_ghost me w wr gt rs : wait_ok me w ↔
  wait_ok me {| pipe := pipe w; readers := readers w; writers := writers w; blocked := blocked w;
                runnable := runnable w; written := wr; got := gt; results := rs |}.
Proof. split; intros [H1 H2]; split; done. Qed.

Lemma poll_step_wait me w f : wait_ok me (poll_step w f me) ∨
  (is_registered f = true ∧ data (pipe w) = [] ∧ write_closed (pipe w) = false).
Proof.
  unfold poll_step, poll_read. destruct (data (pipe w)) as [|b l] eqn:Hd.
  2: { left. destruct (drain (pipe w) (max_count f)) as [d p]. split; simpl.
       - intros [[? Hb] _]. simpl in Hb. by rewrite lookup_delete_eq in Hb.
       - set_solver. }
  destruct (write_closed (pipe w)) eqn:Hc.
  { left. split; simpl; [|set_solver].
    intros [[? Hb] _]. simpl in Hb. by rewrite lookup_delete_eq in Hb. }
  destruct (is_registered f) eqn:Hr; [by right|]. left. split; simpl; [|set_solver].
  intros _. split; [set_solver|]. done.
Qed.

Lemma pipe_exec_wait me k w ev w' : wait_ok me w → pipe_ok k w → only_reader me ev →
  pipe_exec w ev = Ret w' → wait_ok me w'.
Proof.
  intros Hok [_ Hr Hwr _] Hev. pose proof Hok as [Hl Hw].
  destruct ev as [d|n|i n|i| | | |]; cbn [pipe_exec only_reader] in *; [| done |..].
  - case_bool_decide; [by intros [= <-]|]. unfold pipe_write.
    destruct (read_closed (pipe w)); simpl; intros [= <-].
    + apply (wait_ok_ghost me (set_pipe w (pipe w) [] (readers w) (writers w))).
      by apply set_pipe_quiet.
    + apply (wait_ok_ghost me (set_pipe w (Pipe (data (pipe w) ++ d) [] (reader_count (pipe w))
        (writer_count (pipe w))) (rev (read_wakers (pipe w))) (readers w) (writers w))).
      apply set_pipe_wakes; [done|]. left. simpl. destruct (data (pipe w)), d; done.
  - subst i. case_match; [by intros [= <-]|]. intros [= <-].
    by destruct (poll_step_wait me w (read_pipe_new n)) as [?|[[=] _]].
  - subst i. destruct (blocked w !! me) as [f|] eqn:Hb; [|by intros [= <-]].
    case_bool_decide; [|by intros [= <-]]. intros [= <-].
    destruct (poll_step_wait me w f) as [?|(_ & Hd & Hc)]; [done|].
    destruct (Hw ltac:(done)) as [?|?]; [by eexists|done|congruence].
  - case_bool_decide; [by intros [= <-]|]. intros H1. unfold add_reader in H1. inv_outcome.
    by apply set_pipe_quiet.
  - case_bool_decide; [by intros [= <-]|]. intros H1. unfold add_writer in H1. inv_outcome.
    apply set_pipe_quiet; [done..|]. unfold write_closed. simpl. rewrite Hwr.
    rewrite !(proj2 (Z.eqb_neq _ _)) by lia. done.
  - case_match; [by intros [= <-]|]. intros H1. unfold close_read in H1. inv_outcome.
    by apply set_pipe_quiet.
  - destruct (writers w) as [|n] eqn:Hn; [by intros [= <-]|]. intros H1.
    unfold close_write in H1. inv_outcome.
    destruct (write_closed (Pipe _ _ _ _)) eqn:Hc in H1; simpl in H1; inv_outcome.
    + apply set_pipe_wakes; [done|]. by right.
    + apply set_pipe_quiet; [done..|]. rewrite Hc. unfold write_closed. rewrite Hwr.
      symmetry. apply Z.eqb_neq. lia.
Qed.

Lemma pipe_run_wait me evs : ∀ k w w', wait_ok me w → pipe_ok k w →
  k + Z.of_nat (length evs) < 2 ^ 64 → Forall (only_reader me) evs →
  foldM pipe_exec evs w = Ret w' → wait_ok me w'.
Proof.
  induction evs as [|ev evs IH]; intros k w w' Hw Hok Hk Hev Hrun; simpl in Hrun.
  { by injection Hrun as <-. }
  cbn [length] in Hk. apply Forall_cons in Hev as [He Hev].
  destruct (pipe_exec_ok k w ev) as (w1 & H1 & Hok1); [done|lia|]. rewrite H1 in Hrun. bstep in Hrun.
  eapply (IH (k + 1)); [by eapply pipe_exec_wait|done|lia|done..].
Qed.

(** a pipe's only reader is not left asleep: if nobody writes zero bytes and
    nobody else reads, then whenever the reader sleeps in [read] its waker is
    listed, the pipe is empty and a writer exists; so every later write, and the
    last close, wakes it. *)
Theorem pipe_reader_not_lost me evs w : Z.of_nat (length evs) < 2 ^ 63 →
  Forall (only_reader me) evs → foldM pipe_exec evs pipe_start = Ret w → asleep w me →
  me ∈ read_wakers (pipe w) ∧ data (pipe w) = [] ∧ write_closed (pipe w) = false.
Proof.
  intros Hl Hev Hrun. destruct (pipe_run_wait me evs 1 pipe_start w) as [H _];
    [| |lia|done|done|exact H].
  - split; [|simpl; set_solver]. intros [[? H] _]. simpl in H. by rewrite lookup_empty in H.
  - split; simpl; (done || lia).
Qed.

Lemma pipe_reader_not_lost_witness : ∃ w, foldM pipe_exec [StartRead 7 10] pipe_start = Ret w ∧
  7%nat ∈ read_wakers (pipe w).
Proof.
  eexists. split; [reflexivity|].
  eapply (pipe_reader_not_lost 7 [StartRead 7 10]); [by vm_compute|by repeat constructor|reflexivity|].
  split; [by eexists|]. by vm_compute.
Defined.

(** a blocked reader can be lost for good. A write of zero bytes, or a
    second reader that takes the data first, wakes it; it finds the pipe empty
    and goes back to sleep, but [ReadPipe] does not register its waker again. No
    later write wakes it, although its data is there. *)
Theorem pipe_reader_lost : ∀ d, d ≠ [] →
  (∃ w, foldM pipe_exec [StartRead 1 10; Write []; PollRead 1; Write d] pipe_start = Ret w ∧
    asleep w 1 ∧ data (pipe w) = d) ∧
  (∃ w, foldM pipe_exec [StartRead 1 10; StartRead 2 10; Write [5]; PollRead 2; PollRead 1; Write d]
      pipe_start = Ret w ∧ asleep w 1 ∧ data (pipe w) = d).
Proof.
  intros d _. split; eexists; (split; [reflexivity|]); (split; [|reflexivity]);
    (split; [by eexists|]); by vm_compute.
Qed.
