(* ===== verification/Futex.v ===== *)
(** Futexes: crates/kernel/src/processes/futex.rs.

    [WAITERS] maps a key (process, address) to the wakers registered for it, in
    order. [FutexWait::poll] reads the word and registers under one lock, so it
    is one step. A waker is the identity of its thread. *)
From S2P Require Import Prelude Headers.

Abbreviation FutexKey := (Z * Z)%type.
Abbreviation Waiters := (gmap FutexKey (list nat)).

Record FutexWait := { f_key : FutexKey; f_expected : Z }.

(** [poll]: [current] is the word read from user memory, [None] if the address
    is not readable. [Some e] is the result, the negated error. *)
Definition futex_poll (ws : Waiters) (f : FutexWait) (current : option Z) (me : nat)
    : option errno * Waiters :=
  let current_val := default (2 ^ 32 - 1) current in
  if negb (current_val =? f_expected f) then (Some EAGAIN, ws)
  else (None, <[f_key f := default [] (ws !! f_key f) ++ [me]]> ws).

(** [futex_wake]: the number woken, and who. *)
Definition futex_wake (ws : Waiters) (key : FutexKey) (count : Z)
    : outcome (Z * Waiters * list nat) :=
  match ws !! key with
  | None => Ret (0, ws, [])
  | Some wakers =>
      let wake_count := Nat.min (Z.to_nat count) (length wakers) in
      let rest := drop wake_count wakers in
      let ws := match rest with [] => delete key ws | _ => <[key := rest]> ws end in
      if Z.of_nat wake_count <? 2 ^ 31 then Ret (Z.of_nat wake_count, ws, take wake_count wakers)
      else Panic
  end.

(** ** Runs: one futex word and the threads that wait on it *)
Record FutexWorld := {
  waiters : Waiters;
  word : Z;
  waiting : gmap nat FutexWait;        (* threads with a pending FutexWait *)
  queued : gset nat;                   (* threads queued to run *)
  wake_results : list Z;
}.

Inductive futex_event :=
  | Wait (me : nat) (expected : Z)
  | Repoll (me : nat)                  (* the thread runs again: woken or signalled *)
  | Interrupt (me : nat)               (* a signal handler ends the system call *)
  | Store (v : Z)
  | Wake (count : Z).

Definition after_poll (w : FutexWorld) (f : FutexWait) (me : nat) : FutexWorld :=
  let '(r, ws) := futex_poll (waiters w) f (Some (word w)) me in
  {| waiters := ws; word := word w;
     waiting := match r with Some _ => delete me (waiting w) | None => <[me := f]> (waiting w) end;
     queued := queued w ∖ {[me]}; wake_results := wake_results w |}.

Definition futex_exec (key : FutexKey) (w : FutexWorld) (ev : futex_event) : outcome FutexWorld :=
  match ev with
  | Wait me expected =>
      match waiting w !! me with
      | Some _ => Ret w
      | None => Ret (after_poll w {| f_key := key; f_expected := expected |} me)
      end
  | Repoll me =>
      match waiting w !! me with Some f => Ret (after_poll w f me) | None => Ret w end
  | Interrupt me =>
      Ret {| waiters := waiters w; word := word w; waiting := delete me (waiting w);
             queued := queued w ∖ {[me]}; wake_results := wake_results w |}
  | Store v =>
      Ret {| waiters := waiters w; word := v; waiting := waiting w; queued := queued w;
             wake_results := wake_results w |}
  | Wake count =>
      '(n, ws, woken) ← futex_wake (waiters w) key count;
      Ret {| waiters := ws; word := word w; waiting := waiting w;
             queued := queued w ∪ (list_to_set woken ∩ dom (waiting w));
             wake_results := wake_results w ++ [n] |}
  end.

Definition futex_start (v : Z) : FutexWorld :=
  {| waiters := ∅; word := v; waiting := ∅; queued := ∅; wake_results := [] |}.

Definition f_asleep (w : FutexWorld) (me : nat) : Prop :=
  is_Some (waiting w !! me) ∧ me ∉ queued w.

Definition listed (w : FutexWorld) (key : FutexKey) : list nat := default [] (waiters w !! key).

(** ** [futex_wake] *)
Lemma futex_wake_spec ws key count : Z.of_nat (length (default [] (ws !! key))) < 2 ^ 31 →
  let l := default [] (ws !! key) in
  let n := Nat.min (Z.to_nat count) (length l) in
  ∃ ws', futex_wake ws key count = Ret (Z.of_nat n, ws', take n l) ∧
    default [] (ws' !! key) = drop n l ∧
    ∀ key', key' ≠ key → ws' !! key' = ws !! key'.
Proof.
  intros Hlen l n. unfold futex_wake, l, n. destruct (ws !! key) as [wakers|] eqn:Hk; simpl in *.
  - rewrite (proj2 (Z.ltb_lt _ _)) by lia. eexists. split; [reflexivity|].
    destruct (drop _ wakers) as [|x rest] eqn:Hd.
    + split; [by rewrite lookup_delete_eq|]. intros. by rewrite lookup_delete_ne.
    + split; [by rewrite lookup_insert_eq|]. intros. by rewrite lookup_insert_ne.
  - rewrite Nat.min_0_r. exists ws. rewrite Hk. done.
Qed.

(** A sleeping thread is registered. *)
Definition futex_ok (key : FutexKey) (w : FutexWorld) : Prop :=
  (∀ me f, waiting w !! me = Some f → f_key f = key) ∧
  (∀ me, f_asleep w me → me ∈ listed w key).

Lemma after_poll_ok key w f me : futex_ok key w → f_key f = key → futex_ok key (after_poll w f me).
Proof.
  intros [Hk Hl] Hf. unfold after_poll, futex_poll. rewrite Hf. simpl.
  destruct (negb (word w =? f_expected f)); split; unfold f_asleep, listed; simpl.
  - intros i g. rewrite lookup_delete_Some. intros [_ Hi]. by eapply Hk.
  - intros i [[g Hg] Hq]. apply lookup_delete_Some in Hg as [Hne Hg].
    apply Hl. split; [by eexists|]. set_solver.
  - intros i g. rewrite lookup_insert_Some. intros [[<- <-]|[_ Hi]]; [done|by eapply Hk].
  - intros i [[g Hg] Hq]. rewrite lookup_insert_eq. simpl. apply elem_of_app.
    apply lookup_insert_Some in Hg as [[<- _]|[Hne Hg]]; [right; set_solver|left].
    apply Hl. split; [by eexists|]. set_solver.
Qed.

Lemma futex_exec_ok key w ev w' : futex_ok key w → futex_exec key w ev = Ret w' → futex_ok key w'.
Proof.
  intros Hok. pose proof Hok as [Hk Hl]. destruct ev as [me e|me|me|v|n]; cbn [futex_exec].
  - case_match; intros [= <-]; [done|]. by apply after_poll_ok.
  - destruct (waiting w !! me) as [f|] eqn:Hf; intros [= <-]; [|done].
    apply after_poll_ok; [done|]. by eapply Hk.
  - intros [= <-]. split; simpl.
    + intros i g [_ Hi]%lookup_delete_Some. by eapply Hk.
    + intros i [[g Hg] Hq]. simpl in *. apply lookup_delete_Some in Hg as [Hne Hg].
      apply Hl. split; [by eexists|]. set_solver.
  - intros [= <-]. done.
  - intros H. apply bind_Ret in H as ([[c ws] woken] & Hw & H). injection H as <-.
    split; [done|]. intros i [Hi Hq]. simpl in *. unfold listed in *. simpl.
    unfold futex_wake in Hw. destruct (waiters w !! key) as [wakers|] eqn:Hwk.
    2: { injection Hw as <- <- <-. rewrite Hwk. apply Hl. split; [done|]. set_solver. }
    case_match; [|done]. injection Hw as <- <- <-.
    assert (i ∈ wakers) as Hin.
    { apply (Hl i). split; [done|set_solver]. }
    set (k := Nat.min _ _) in *. rewrite <-(take_drop k wakers) in Hin.
    apply elem_of_app in Hin as [Hin|Hin].
    + exfalso. apply Hq. apply elem_of_union_r, elem_of_intersection.
      split; [by apply elem_of_list_to_set|by apply elem_of_dom].
    + destruct (drop k wakers) eqn:Hd; [by apply elem_of_nil in Hin|].
      by rewrite lookup_insert_eq.
Qed.

(** C17: no wake-up is lost between the check of the word and the sleep. In every
    run, a thread asleep in [FutexWait] is registered, so a [futex_wake] that asks
    for at least as many threads as are registered makes every one of them run. *)
Theorem futex_no_lost_wakeup key v evs w me count w' :
  foldM (futex_exec key) evs (futex_start v) = Ret w → f_asleep w me →
  Z.of_nat (length (listed w key)) ≤ count →
  futex_exec key w (Wake count) = Ret w' →
  me ∈ listed w key ∧ me ∈ queued w'.
Proof.
  intros Hrun Ha Hc Hw. assert (futex_ok key w) as [_ Hl].
  { revert Hrun. apply (foldM_inv (futex_exec key) (λ _, futex_ok key)).
    - split; simpl; [intros ? ? H; by rewrite lookup_empty in H|].
      intros ? [[? H] _]. simpl in H. by rewrite lookup_empty in H.
    - intros ? ? ? ? ? _ H1 H2. by eapply futex_exec_ok. }
  specialize (Hl me Ha). split; [done|]. cbn [futex_exec] in Hw.
  apply bind_Ret in Hw as ([[c ws] woken] & Hw & H). injection H as <-. simpl.
  apply elem_of_union_r, elem_of_intersection. split; [|apply elem_of_dom, Ha].
  apply elem_of_list_to_set. unfold futex_wake, listed in *.
  destruct (waiters w !! key) as [wakers|]; [|by apply elem_of_nil in Hl]. simpl in *.
  case_match; [|done]. injection Hw as <- <- <-. by rewrite take_ge by lia.
Qed.

Lemma futex_no_lost_wakeup_witness :
  ∃ w w', foldM (futex_exec (5, 4096)) [Wait 1 0; Wait 2 0] (futex_start 0) = Ret w ∧
    futex_exec (5, 4096) w (Wake 2) = Ret w' ∧ 2%nat ∈ queued w'.
Proof.
  eexists. eexists. split; [reflexivity|]. split; [reflexivity|].
  eapply (futex_no_lost_wakeup (5, 4096) 0 [Wait 1 0; Wait 2 0] _ 2 2);
    [reflexivity|split; [by eexists|by vm_compute]|by vm_compute|reflexivity].
Defined.

(** a registration outlives its wait. A thread whose wait was interrupted by
    a signal stays registered, and a later [futex_wake] of one thread counts it as
    woken: the call returns 1, and the thread that really waits sleeps on. *)
Theorem futex_stale_waiter : ∃ w,
  foldM (futex_exec (5, 4096)) [Wait 1 0; Interrupt 1; Wait 2 0; Store 1; Wake 1] (futex_start 0)
    = Ret w ∧
  wake_results w = [1] ∧ f_asleep w 2 ∧ queued w = ∅.
Proof.
  eexists. split; [reflexivity|]. split; [reflexivity|]. split; [split; [by eexists|]|]; by vm_compute.
Qed.
