(* ===== verification/Timer.v ===== *)
(** Timers: crates/kernel/src/processes/timer.rs, with
    crates/klib/src/btreemap.rs and the system calls of
    crates/kernel/src/syscalls/time_ops.rs that sleep.

    [WAKEUP_QUEUE] is an ordered map from a clock time to wakers, here a list
    with ascending keys. The clock ([get_current_clocks]) and the frequency are
    arguments. *)
From S2P Require Import Prelude Headers.

Abbreviation WakeupQueue := (list (Z * list nat)).

(** [entry(key).or_default().push(waker)] *)
Fixpoint entry_push (q : WakeupQueue) (key : Z) (waker : nat) : WakeupQueue :=
  match q with
  | [] => [(key, [waker])]
  | (k, ws) :: q' =>
      if key <? k then (key, [waker]) :: q
      else if key =? k then (k, ws ++ [waker]) :: q'
      else (k, ws) :: entry_push q' key waker
  end.

(** [split_off(key)] leaves the keys below and returns the others; the result
    here is (returned, left in place). *)
Definition split_off (q : WakeupQueue) (key : Z) : WakeupQueue * WakeupQueue :=
  (filter (λ e, key ≤ e.1) q, filter (λ e, e.1 < key) q).

Definition split_off_lower_than (q : WakeupQueue) (key : Z) : WakeupQueue * WakeupQueue :=
  let '(upper, self) := split_off q key in (self, upper).

Record timespec := { tv_sec : Z; tv_nsec : Z }.

Record Sleep := { wakeup_time : Z; s_registered : bool }.

(** [u64::try_from(i64)?] *)
Definition u64_try_from (v : Z) : result Z := if v <? 0 then Err EINVAL else Okay v.

Definition sleep (freq now : Z) (duration : timespec) : outcome (result Sleep) :=
  match u64_try_from (tv_sec duration) with
  | inl e => Ret (Err e)
  | inr secs =>
      a ← mul 64 secs freq;
      match u64_try_from (tv_nsec duration) with
      | inl e => Ret (Err e)
      | inr nsecs =>
          b ← mul 64 nsecs freq;
          clocks ← add 64 a (b / 1000000000);
          t ← add 64 now clocks;
          Ret (Okay {| wakeup_time := t; s_registered := false |})
      end
  end.

(** [Sleep::poll]: [true] is [Ready]. *)
Definition sleep_poll (q : WakeupQueue) (now : Z) (s : Sleep) (me : nat)
    : bool * WakeupQueue * Sleep :=
  if wakeup_time s <=? now then (true, q, s)
  else if negb (s_registered s) then
    (false, entry_push q (wakeup_time s) me,
     {| wakeup_time := wakeup_time s; s_registered := true |})
  else (false, q, s).

(** [wakeup_wakers]: the queue afterwards and who is woken, in order. *)
Definition wakeup_wakers (q : WakeupQueue) (now : Z) : WakeupQueue * list nat :=
  let '(threads, q) := split_off_lower_than q now in (q, concat (snd <$> threads)).

Definition current_time (freq clocks : Z) : outcome timespec :=
  secs ← udiv clocks freq;
  remaining ← umod clocks freq;
  n ← mul 64 remaining 1000000000;
  nsecs ← udiv n freq;
  Ret {| tv_sec := secs; tv_nsec := nsecs |}.

(** The clock value [set_timer] programs. *)
Definition set_timer (freq now milliseconds : Z) : outcome Z :=
  c ← mul 64 freq milliseconds;
  Ret (wrapping_add 64 now (c / 1000)).

(** [do_nanosleep] up to its await. *)
Definition do_nanosleep (freq now : Z) (duration : timespec) : outcome (result Sleep) :=
  if (tv_sec duration <? 0) || negb ((0 <=? tv_nsec duration) && (tv_nsec duration <=? 999999999))
  then Ret (Err EINVAL)
  else sleep freq now duration.

(** [do_clock_nanosleep] up to its await; [ids] are the two clock ids. *)
Definition do_clock_nanosleep (ids : Z * Z) (clockid flags freq now : Z) (duration : timespec)
    : outcome (result Sleep) :=
  rassert ((clockid =? ids.1) || (clockid =? ids.2));;
  rassert (flags =? 0);;
  do_nanosleep freq now duration.

(** ** The queue *)
Definition keys_above (k : Z) (q : WakeupQueue) : Prop := Forall (λ e, k < e.1) q.
Fixpoint sorted (q : WakeupQueue) : Prop :=
  match q with [] => True | e :: q => keys_above e.1 q ∧ sorted q end.

(** [me] is queued at time [t]. *)
Definition queued_at (q : WakeupQueue) (t : Z) (me : nat) : Prop :=
  ∃ ws, (t, ws) ∈ q ∧ me ∈ ws.

Lemma keys_above_push k q key w : keys_above k q → k < key → keys_above k (entry_push q key w).
Proof.
  unfold keys_above. induction q as [|[k' ws] q IH]; simpl; intros Hq Hk.
  { by repeat constructor. }
  apply Forall_cons in Hq as [Hk' Hq]. simpl in Hk'.
  destruct (Z.ltb_spec key k'); [by repeat constructor|].
  destruct (Z.eqb_spec key k'); constructor; auto.
Qed.

Lemma entry_push_sorted q key w : sorted q → sorted (entry_push q key w).
Proof.
  induction q as [|[k ws] q IH]; simpl; [by repeat constructor|]. intros [Hk Hq].
  destruct (Z.ltb_spec key k); [|destruct (Z.eqb_spec key k)]; simpl.
  - split; [|done]. constructor; [done|]. eapply Forall_impl; [exact Hk|]. simpl. lia.
  - done.
  - split; [|by apply IH]. apply keys_above_push; [done|lia].
Qed.

Lemma queued_at_push q key w t me : sorted q →
  queued_at (entry_push q key w) t me ↔ (t = key ∧ me = w) ∨ queued_at q t me.
Proof.
  unfold queued_at. induction q as [|[k ws] q IH]; cbn [entry_push sorted]; intros Hs.
  { split.
    - intros (l & [[= -> ->]|?%elem_of_nil]%elem_of_cons & Hl); [|done]. left. set_solver.
    - intros [[-> ->]|(? & ?%elem_of_nil & ?)]; [|done]. exists [w]. set_solver. }
  destruct Hs as [Hk Hs]. destruct (Z.ltb_spec key k); [|destruct (Z.eqb_spec key k) as [->|]].
  - split.
    + intros (l & [[= -> ->]|Hin]%elem_of_cons & Hl); [left; set_solver|right; eauto].
    + intros [[-> ->]|(l & Hin & Hl)]; [exists [w]; set_solver|exists l; set_solver].
  - split.
    + intros (l & [[= -> ->]|Hin]%elem_of_cons & Hl).
      * apply elem_of_app in Hl as [Hl|Hl]; [right; exists ws; set_solver|left; set_solver].
      * right. exists l. set_solver.
    + intros [[-> ->]|(l & [[= -> ->]|Hin]%elem_of_cons & Hl)].
      * exists (ws ++ [w]). set_solver.
      * exists (ws ++ [w]). set_solver.
      * exists l. set_solver.
  - specialize (IH Hs). split.
    + intros (l & [[= -> ->]|Hin]%elem_of_cons & Hl); [right; exists ws; set_solver|].
      destruct (proj1 IH) as [?|(l' & ? & ?)]; [by exists l|by left|right; exists l'; set_solver].
    + intros [H'|(l & [[= -> ->]|Hin]%elem_of_cons & Hl)].
      * destruct (proj2 IH) as (l' & ? & ?); [by left|exists l'; set_solver].
      * exists ws. set_solver.
      * destruct (proj2 IH) as (l' & ? & ?); [right; by exists l|exists l'; set_solver].
Qed.

Lemma filter_sorted (P : Z * list nat → Prop) `{∀ e, Decision (P e)} q : sorted q → sorted (filter P q).
Proof.
  induction q as [|e q IH]; [done|]. intros [Hk Hs]. rewrite filter_cons.
  case_decide; [|auto]. split; [|auto]. apply Forall_forall. intros x [_ Hx]%list_elem_of_filter.
  unfold keys_above in Hk. rewrite Forall_forall in Hk. auto.
Qed.

(** The wakers woken at [now] are exactly those queued for an earlier time; the
    others stay. *)
Lemma wakeup_wakers_spec q now q' woken : sorted q → wakeup_wakers q now = (q', woken) →
  sorted q' ∧ (∀ me, me ∈ woken ↔ ∃ t, t < now ∧ queued_at q t me) ∧
  (∀ t me, queued_at q' t me ↔ now ≤ t ∧ queued_at q t me).
Proof.
  intros Hs. unfold wakeup_wakers, split_off_lower_than, split_off. intros [= <- <-].
  split; [by apply filter_sorted|]. split.
  - intros me. rewrite list_elem_of_In, in_concat. setoid_rewrite <-list_elem_of_In. split.
    + intros (ws & Hws & Hme). apply list_elem_of_fmap in Hws as ([t l] & -> & Hin).
      apply list_elem_of_filter in Hin as [Ht Hin]. simpl in *. exists t. split; [done|by exists l].
    + intros (t & Ht & ws & Hin & Hme). exists ws. split; [|done].
      apply list_elem_of_fmap. exists (t, ws). split; [done|]. by apply list_elem_of_filter.
  - intros t me. unfold queued_at. setoid_rewrite list_elem_of_filter. simpl. naive_solver.
Qed.

(** ** Sleeping threads over time *)
Record TimerWorld := {
  clock : Z;
  queue : WakeupQueue;
  sleeping : gmap nat Sleep;            (* threads with a pending Sleep *)
  to_run : gset nat;
  finished : list (nat * Z * Z);        (* thread, wakeup time, clock at its return *)
}.

Inductive timer_event :=
  | Advance (by_clocks : Z)             (* time passes *)
  | StartSleep (me : nat) (s : Sleep)   (* the first poll *)
  | RunThread (me : nat)                (* the scheduler runs a queued thread *)
  | Tick.                               (* the timer interrupt *)

Definition sleep_step (w : TimerWorld) (s : Sleep) (me : nat) : TimerWorld :=
  let '(ready, q, s) := sleep_poll (queue w) (clock w) s me in
  if ready then
    {| clock := clock w; queue := q; sleeping := delete me (sleeping w);
       to_run := to_run w ∖ {[me]}; finished := finished w ++ [(me, wakeup_time s, clock w)] |}
  else
    {| clock := clock w; queue := q; sleeping := <[me := s]> (sleeping w);
       to_run := to_run w ∖ {[me]}; finished := finished w |}.

Definition timer_exec (w : TimerWorld) (ev : timer_event) : TimerWorld :=
  match ev with
  | Advance d =>
      {| clock := clock w + Z.max 0 d; queue := queue w; sleeping := sleeping w;
         to_run := to_run w; finished := finished w |}
  | StartSleep me s =>
      match sleeping w !! me with
      | Some _ => w
      | None => sleep_step w {| wakeup_time := wakeup_time s; s_registered := false |} me
      end
  | RunThread me =>
      match sleeping w !! me with
      | Some s => if bool_decide (me ∈ to_run w) then sleep_step w s me else w
      | None => w
      end
  | Tick =>
      let '(q, woken) := wakeup_wakers (queue w) (clock w) in
      {| clock := clock w; queue := q; sleeping := sleeping w;
         to_run := to_run w ∪ (list_to_set woken ∩ dom (sleeping w)); finished := finished w |}
  end.

Definition timer_start (now : Z) : TimerWorld :=
  {| clock := now; queue := []; sleeping := ∅; to_run := ∅; finished := [] |}.

(** A sleeping thread is queued for its time, or it is queued to run and its time
    has come; nobody returned early. *)
Record timer_ok (w : TimerWorld) : Prop := {
  to_sorted : sorted (queue w);
  to_registered : ∀ me s, sleeping w !! me = Some s → s_registered s = true;
  to_queued : ∀ me s, sleeping w !! me = Some s →
    queued_at (queue w) (wakeup_time s) me ∨ (me ∈ to_run w ∧ wakeup_time s ≤ clock w);
  to_late : ∀ me t c, (me, t, c) ∈ finished w → t ≤ c;
}.

Lemma sleep_step_ok w s me : timer_ok w →
  (s_registered s = true → queued_at (queue w) (wakeup_time s) me ∨ wakeup_time s ≤ clock w) →
  timer_ok (sleep_step w s me).
Proof.
  intros [Hs Hr Hq Hl] Hn. unfold sleep_step, sleep_poll.
  destruct (Z.leb_spec (wakeup_time s) (clock w)).
  { split; simpl; [done| | |].
    - intros i x [_ Hx]%lookup_delete_Some. by eapply Hr.
    - intros i x [Hne Hx]%lookup_delete_Some. destruct (Hq i x Hx) as [?|[? ?]]; [by left|right; set_solver].
    - intros i t c [Hin|Hin]%elem_of_app; [by eapply Hl|]. apply list_elem_of_singleton in Hin. by simplify_eq. }
  destruct (s_registered s) eqn:Hreg; simpl.
  - split; simpl; [done| | |done].
    + intros i x. rewrite lookup_insert_Some. intros [[<- <-]|[_ Hx]]; [done|by eapply Hr].
    + intros i x Hi. apply lookup_insert_Some in Hi as [[<- <-]|[Hne Hx]].
      * destruct Hn as [?|?]; [done|by left|lia].
      * destruct (Hq i x Hx) as [?|[? ?]]; [by left|right; set_solver].
  - split; simpl; [by apply entry_push_sorted| | |done].
    + intros i x. rewrite lookup_insert_Some. intros [[<- <-]|[_ Hx]]; [done|by eapply Hr].
    + intros i x Hi. rewrite queued_at_push by done.
      apply lookup_insert_Some in Hi as [[<- <-]|[Hne Hx]]; [left; by left|].
      destruct (Hq i x Hx) as [?|[? ?]]; [left; by right|right; set_solver].
Qed.

Lemma timer_exec_ok w ev : timer_ok w → timer_ok (timer_exec w ev).
Proof.
  intros Hok. pose proof Hok as [Hs Hr Hq Hl]. destruct ev as [d|me s|me|]; cbn [timer_exec].
  - split; simpl; try done. intros me s Hm. destruct (Hq me s Hm) as [?|[? ?]]; [by left|].
    right. split; [done|lia].
  - case_match; [done|]. by apply sleep_step_ok.
  - destruct (sleeping w !! me) as [s|] eqn:Hm; [|done]. case_bool_decide; [|done].
    apply sleep_step_ok; [done|]. intros _. destruct (Hq me s Hm) as [?|[_ ?]]; auto.
  - destruct (wakeup_wakers (queue w) (clock w)) as [q woken] eqn:Hw.
    destruct (wakeup_wakers_spec _ _ _ _ Hs Hw) as (Hs' & Hwo & Hst).
    split; simpl; [done|done| |done]. intros me s Hm.
    destruct (Hq me s Hm) as [Hqa|[? ?]]; [|right; set_solver].
    destruct (decide (clock w ≤ wakeup_time s)); [left; by apply Hst|].
    right. split; [|lia]. apply elem_of_union_r, elem_of_intersection.
    split; [|apply elem_of_dom; eauto]. apply elem_of_list_to_set, Hwo.
    exists (wakeup_time s). split; [lia|done].
Qed.

(** a sleep lasts as long as asked and no longer than to the next tick. In
    every run no thread returns from [Sleep] before its wake-up time; and a thread
    whose time has passed is queued to run by the next timer interrupt and then
    returns. *)
Theorem sleep_correct now evs :
  let w := foldl timer_exec (timer_start now) evs in
  (∀ me t c, (me, t, c) ∈ finished w → t ≤ c) ∧
  (∀ me s, sleeping w !! me = Some s → wakeup_time s < clock w →
    let w' := timer_exec (timer_exec w Tick) (RunThread me) in
    sleeping w' !! me = None ∧ finished w' = finished w ++ [(me, wakeup_time s, clock w)]).
Proof.
  intros w. assert (timer_ok w) as [Hs Hr Hq Hl].
  { unfold w. assert (timer_ok (timer_start now)) as H0.
    { split; simpl; [done|intros ? ? H; by rewrite lookup_empty in H..|set_solver]. }
    revert H0. generalize (timer_start now). induction evs; simpl; auto using timer_exec_ok. }
  split; [done|]. intros me s Hm Ht. cbn [timer_exec].
  destruct (wakeup_wakers (queue w) (clock w)) as [q woken] eqn:Hw.
  destruct (wakeup_wakers_spec _ _ _ _ Hs Hw) as (_ & Hwo & _). cbn [sleeping to_run].
  rewrite Hm. rewrite bool_decide_true.
  - unfold sleep_step, sleep_poll. cbn [clock queue]. rewrite (proj2 (Z.leb_le _ _)) by lia.
    simpl. by rewrite lookup_delete_eq.
  - destruct (Hq me s Hm) as [Hqa|[? _]]; [|set_solver].
    apply elem_of_union_r, elem_of_intersection. split; [|apply elem_of_dom; eauto].
    apply elem_of_list_to_set, Hwo. eauto.
Qed.

(** the arithmetic of [nanosleep] and of the clock. With a frequency below
    2^34 and a clock below 2^62, a valid duration of at most 2^27 seconds sleeps for
    at least the duration asked, rounded down to a clock; and [current_time] is the
    clock as normalised seconds and nanoseconds. *)
Theorem timer_arithmetic freq now d : 0 < freq < 2 ^ 34 → 0 ≤ now < 2 ^ 62 →
  0 ≤ tv_sec d ≤ 2 ^ 27 → 0 ≤ tv_nsec d < 1000000000 →
  do_nanosleep freq now d = Ret (Okay {|
    wakeup_time := now + (tv_sec d * 1000000000 + tv_nsec d) * freq / 1000000000;
    s_registered := false |}) ∧
  ∃ t, current_time freq now = Ret t ∧ 0 ≤ tv_nsec t < 1000000000 ∧
    now * 1000000000 / freq = tv_sec t * 1000000000 + tv_nsec t.
Proof.
  intros Hf Hn Hsec Hns.
  assert (0 ≤ tv_sec d * freq ≤ 2 ^ 27 * 2 ^ 34) as Ha
    by (split; [lia|apply Z.mul_le_mono_nonneg; lia]).
  assert (0 ≤ tv_nsec d * freq ≤ 999999999 * 2 ^ 34) as Hb
    by (split; [lia|apply Z.mul_le_mono_nonneg; lia]).
  split.
  - unfold do_nanosleep, sleep, u64_try_from.
    rewrite !(proj2 (Z.ltb_ge _ _)), (proj2 (Z.leb_le 0 _)), (proj2 (Z.leb_le _ 999999999)) by lia.
    cbn [orb andb negb].
    rewrite (proj2 (mul_Ret 64 (tv_sec d) freq (tv_sec d * freq))) by lia. bstep.
    rewrite (proj2 (mul_Ret 64 (tv_nsec d) freq (tv_nsec d * freq))) by lia. bstep.
    assert (0 ≤ tv_nsec d * freq / 1000000000 ≤ freq).
    { split; [apply Z.div_pos; lia|]. apply Z.div_le_upper_bound; nia. }
    rewrite (proj2 (add_Ret 64 (tv_sec d * freq) (tv_nsec d * freq / 1000000000) (tv_sec d * freq + tv_nsec d * freq / 1000000000))) by lia. bstep.
    rewrite (proj2 (add_Ret 64 now (tv_sec d * freq + tv_nsec d * freq / 1000000000) (now + (tv_sec d * freq + tv_nsec d * freq / 1000000000)))) by lia.
    bstep. do 3 f_equal.
    replace ((tv_sec d * 1000000000 + tv_nsec d) * freq)
      with (tv_sec d * freq * 1000000000 + tv_nsec d * freq) by lia.
    rewrite Z.div_add_l by lia. done.
  - unfold current_time, udiv, umod. rewrite (proj2 (Z.eqb_neq _ _)) by lia. bstep.
    pose proof (Z.mod_pos_bound now freq ltac:(lia)).
    rewrite (proj2 (mul_Ret 64 (now mod freq) 1000000000 (now mod freq * 1000000000))) by lia. bstep.
    eexists. split; [reflexivity|]. cbn [tv_sec tv_nsec]. split.
    + split; [apply Z.div_pos; nia|apply Z.div_lt_upper_bound; nia].
    + rewrite (Z.div_mod now freq) at 1 by lia.
      replace ((freq * (now / freq) + now mod freq) * 1000000000)
        with (now / freq * 1000000000 * freq + now mod freq * 1000000000) by lia.
      rewrite Z.div_add_l by lia. done.
Qed.

Lemma timer_arithmetic_witness :
  do_nanosleep 10000000 5000 {| tv_sec := 2; tv_nsec := 500 |} =
    Ret (Okay {| wakeup_time := 20005005; s_registered := false |}).
Proof.
  destruct (timer_arithmetic 10000000 5000 {| tv_sec := 2; tv_nsec := 500 |}) as [H _];
    [lia|lia|simpl; lia|simpl; lia|exact H].
Defined.

(** [nanosleep] panics the kernel on a long sleep: a valid duration whose
    number of clocks does not fit 64 bits overflows. *)
Theorem nanosleep_overflow_panics freq now d :
  0 ≤ tv_sec d → 0 ≤ tv_nsec d < 1000000000 → 2 ^ 64 ≤ tv_sec d * freq →
  do_nanosleep freq now d = Panic.
Proof.
  intros Hs Hn Ho. unfold do_nanosleep, sleep, u64_try_from.
  rewrite (proj2 (Z.ltb_ge _ _)), (proj2 (Z.leb_le 0 _)), (proj2 (Z.leb_le _ 999999999)) by lia.
  cbn [orb andb negb]. unfold mul, checked_mul. by rewrite (proj2 (Z.ltb_ge _ (2 ^ 64))) by lia.
Qed.

Lemma nanosleep_overflow_panics_witness :
  do_nanosleep 10000000 5000 {| tv_sec := 2 ^ 62; tv_nsec := 0 |} = Panic.
Proof. apply nanosleep_overflow_panics; by vm_compute. Defined.
