(* ===== verification/KernelTasks.v ===== *)
(** The executor of kernel tasks: crates/kernel/src/processes/kernel_tasks.rs.

    A task is polled by a function of its state and of the world it acts on; a
    poll reports the task if it is pending, and the ids its wakers were called
    with meanwhile. [TASKS] and [READY_IDS] are only locked for single
    operations, so interrupts may also wake tasks between the steps. *)
From S2P Require Import Prelude.

Section executor.
Context {T W : Type} (poll : W → nat → T → option T * W * list nat).

Record Executor := {
  tasks : gmap nat T;
  ready_ids : list nat;
  next_id : nat;
  world : W;
  polled : list nat;           (* history: the ids polled *)
}.

Definition spawn (e : Executor) (t : T) : Executor := {|
  tasks := <[next_id e := t]> (tasks e); ready_ids := ready_ids e ++ [next_id e];
  next_id := S (next_id e); world := world e; polled := polled e |}.

(** [KernelTaskWaker::wake] *)
Definition wake_task (e : Executor) (id : nat) : Executor := {|
  tasks := tasks e; ready_ids := ready_ids e ++ [id]; next_id := next_id e; world := world e;
  polled := polled e |}.

(** One round of the loop of [poll_ready_tasks]; [true] if the loop goes on. *)
Definition poll_round (e : Executor) : Executor * bool :=
  match ready_ids e with
  | [] => (e, false)
  | id :: rest =>
      match tasks e !! id with
      | None =>
          ({| tasks := tasks e; ready_ids := rest ++ [id]; next_id := next_id e; world := world e;
              polled := polled e |}, false)
      | Some t =>
          let '(r, w, woken) := poll (world e) id t in
          let tasks' := delete id (tasks e) in
          ({| tasks := match r with Some t => <[id := t]> tasks' | None => tasks' end;
              ready_ids := rest ++ woken; next_id := next_id e; world := w;
              polled := polled e ++ [id] |}, true)
      end
  end.

(** [poll_ready_tasks]; [None] if the fuel runs out. *)
Fixpoint poll_ready_tasks (fuel : nat) (e : Executor) : option Executor :=
  match fuel with
  | O => None
  | S fuel =>
      let '(e, go_on) := poll_round e in
      if go_on : bool then poll_ready_tasks fuel e else Some e
  end.

(** One round of [kernel_worker_entry]: [true] if it requests to sleep. *)
Definition worker_round (fuel : nat) (e : Executor) : option (Executor * bool) :=
  e ← poll_ready_tasks fuel e;
  Some (e, bool_decide (ready_ids e = [])).

(** Polls that wake nobody. *)
Definition quiet : Prop := ∀ w id t, (poll w id t).2 = [].

Lemma poll_ready_tasks_all fuel e : quiet → NoDup (ready_ids e) →
  (∀ id, id ∈ ready_ids e → is_Some (tasks e !! id)) → (length (ready_ids e) < fuel)%nat →
  ∃ e', poll_ready_tasks fuel e = Some e' ∧ ready_ids e' = [] ∧
    polled e' = polled e ++ ready_ids e ∧
    ∀ id, id ∉ ready_ids e → tasks e' !! id = tasks e !! id.
Proof.
  intros Hq. revert e. induction fuel as [|fuel IH]; intros e Hnd Hin Hf; [lia|].
  cbn [poll_ready_tasks]. unfold poll_round. destruct (ready_ids e) as [|id rest] eqn:Hr.
  { exists e. rewrite app_nil_r. done. }
  apply NoDup_cons in Hnd as [Hni Hnd]. destruct (Hin id) as [t Ht]; [set_solver|]. rewrite Ht.
  destruct (poll (world e) id t) as [[r w] woken] eqn:Hp.
  assert (woken = []) as -> by (pose proof (Hq (world e) id t) as H; by rewrite Hp in H).
  rewrite app_nil_r.
  match goal with |- context [poll_ready_tasks fuel ?e1] => destruct (IH e1) as (e' & H1 & H2 & H3 & H4) end.
  - done.
  - intros i Hi. simpl. assert (i ≠ id) by set_solver.
    destruct r; rewrite ?lookup_insert_ne, lookup_delete_ne by done; apply Hin; set_solver.
  - simpl in *. lia.
  - exists e'. split; [done|]. split; [done|]. split; [simpl in H3; by rewrite H3, <-app_assoc|].
    intros i Hi. simpl in H4. rewrite H4 by set_solver. assert (i ≠ id) by set_solver.
    destruct r; by rewrite ?lookup_insert_ne, lookup_delete_ne by done.
Qed.

(** a wake-up is served. When the ready tasks all exist and their polls wake
    nobody, [poll_ready_tasks] polls every one of them, once and in the order they
    were woken, touches no other task, and returns with nothing ready, so the
    worker may sleep. *)
Theorem ready_tasks_are_polled e : quiet → NoDup (ready_ids e) →
  (∀ id, id ∈ ready_ids e → is_Some (tasks e !! id)) →
  ∃ e', worker_round (S (length (ready_ids e))) e = Some (e', true) ∧
    polled e' = polled e ++ ready_ids e ∧
    ∀ id, id ∉ ready_ids e → tasks e' !! id = tasks e !! id.
Proof.
  intros Hq Hnd Hin. destruct (poll_ready_tasks_all (S (length (ready_ids e))) e Hq Hnd Hin)
    as (e' & H1 & H2 & H3 & H4); [lia|].
  exists e'. unfold worker_round. rewrite H1. simpl. by rewrite bool_decide_true.
Qed.

(** The id of a task that has finished is never dropped. *)
Lemma stale_id_stays fuel e id : ready_ids e = [id] → tasks e !! id = None →
  poll_ready_tasks (S fuel) e = Some e.
Proof.
  intros Hr Ht. cbn [poll_ready_tasks]. unfold poll_round. rewrite Hr, Ht. destruct e; simpl in *. by subst.
Qed.

(** a task that is woken twice and finishes at the first poll keeps the
    worker busy for ever: its second wake-up leaves the id of a finished task in
    the ready queue, every round of the worker puts it back, and the worker never
    sleeps again. *)
Theorem finished_task_spins id t w n polls : (∀ w', (poll w' id t).1.1 = None ∧ (poll w' id t).2 = []) →
  let e := {| tasks := {[id := t]}; ready_ids := [id; id]; next_id := n; world := w;
              polled := polls |} in
  ∃ e', worker_round 2 e = Some (e', false) ∧ tasks e' = ∅ ∧
    ∀ fuel, worker_round (S fuel) e' = Some (e', false).
Proof.
  intros Hp e. unfold worker_round. cbn [poll_ready_tasks]. unfold poll_round at 1, e.
  cbn [ready_ids tasks world]. rewrite lookup_singleton_eq.
  destruct (poll w id t) as [[r w'] woken] eqn:Hpoll.
  destruct (Hp w) as [H1 H2]. rewrite Hpoll in H1, H2. simpl in H1, H2. subst.
  unfold poll_round. cbn [ready_ids tasks app next_id world polled].
  rewrite lookup_delete_eq. cbn iota. simpl.
  eexists. split; [reflexivity|]. simpl. split; [by rewrite delete_singleton_eq|].
  intros fuel. rewrite lookup_delete_eq. reflexivity.
Qed.
End executor.

Arguments Executor : clear implicits.

(** Tasks that count down and finish. *)
Definition countdown (w : unit) (id n : nat) : option nat * unit * list nat :=
  (match n with O => None | S n => Some n end, tt, []).

Lemma ready_tasks_are_polled_witness :
  ∃ e', worker_round countdown 3 {| tasks := {[1%nat := 4%nat; 2%nat := 0%nat]}; ready_ids := [2%nat; 1%nat];
      next_id := 3; world := tt; polled := [] |} = Some (e', true) ∧ polled e' = [2%nat; 1%nat].
Proof.
  destruct (ready_tasks_are_polled countdown {| tasks := {[1%nat := 4%nat; 2%nat := 0%nat]};
    ready_ids := [2%nat; 1%nat]; next_id := 3; world := tt; polled := [] |}) as (e' & H1 & H2 & _).
  - intros [] id [|n]; reflexivity.
  - repeat constructor; set_solver.
  - intros id [-> | [-> | ?%elem_of_nil]%elem_of_cons]%elem_of_cons; [by eexists..|done].
  - exists e'. split; [exact H1|exact H2].
Defined.

Lemma finished_task_spins_witness :
  ∃ e', worker_round countdown 2 {| tasks := {[1%nat := 0%nat]}; ready_ids := [1%nat; 1%nat];
      next_id := 2; world := tt; polled := [] |} = Some (e', false) ∧
    ∀ fuel, worker_round countdown (S fuel) e' = Some (e', false).
Proof.
  destruct (finished_task_spins countdown 1 0%nat tt 2 []) as (e' & H1 & _ & H2); [done|].
  exists e'. split; [exact H1|exact H2].
Defined.
