(* ===== verification/Signal.v ===== *)
(** Signal numbers, pending sets and default actions: the first half of
    crates/kernel/src/processes/signal.rs. The signal numbers come from the
    generated headers. *)
From S2P Require Import Prelude Headers KUtil.

Class SigHeaders := {
  SIGHUP : Z; SIGINT : Z; SIGQUIT : Z; SIGILL : Z; SIGTRAP : Z; SIGABRT : Z; SIGBUS : Z;
  SIGFPE : Z; SIGKILL : Z; SIGUSR1 : Z; SIGSEGV : Z; SIGUSR2 : Z; SIGPIPE : Z; SIGALRM : Z;
  SIGTERM : Z; SIGSTKFLT : Z; SIGCHLD : Z; SIGCONT : Z; SIGSTOP : Z; SIGTSTP : Z; SIGTTIN : Z;
  SIGTTOU : Z; SIGURG : Z; SIGXCPU : Z; SIGXFSZ : Z; SIGVTALRM : Z; SIGPROF : Z; SIGWINCH : Z;
  SIGIO : Z; SIGPWR : Z; SIGSYS : Z;
  NSIG : Z; SA_NODEFER : Z; SA_RESETHAND : Z;
  SIG_BLOCK : Z; SIG_UNBLOCK : Z; SIG_SETMASK : Z;
}.

(** The values of asm-generic/signal.h. *)
Class SigHeadersOk (H : SigHeaders) : Prop := {
  sig_values :
    [SIGHUP; SIGINT; SIGQUIT; SIGILL; SIGTRAP; SIGABRT; SIGBUS; SIGFPE; SIGKILL; SIGUSR1;
     SIGSEGV; SIGUSR2; SIGPIPE; SIGALRM; SIGTERM; SIGSTKFLT; SIGCHLD; SIGCONT; SIGSTOP;
     SIGTSTP; SIGTTIN; SIGTTOU; SIGURG; SIGXCPU; SIGXFSZ; SIGVTALRM; SIGPROF; SIGWINCH;
     SIGIO; SIGPWR; SIGSYS] = seqZ 1 31;
  nsig_value : NSIG = 64;
  sa_values : SA_NODEFER = 2 ^ 30 ∧ SA_RESETHAND = 2 ^ 31;
  how_values : SIG_BLOCK = 0 ∧ SIG_UNBLOCK = 1 ∧ SIG_SETMASK = 2;
}.

Definition linux_signals : SigHeaders := {|
  SIGHUP := 1; SIGINT := 2; SIGQUIT := 3; SIGILL := 4; SIGTRAP := 5; SIGABRT := 6; SIGBUS := 7;
  SIGFPE := 8; SIGKILL := 9; SIGUSR1 := 10; SIGSEGV := 11; SIGUSR2 := 12; SIGPIPE := 13;
  SIGALRM := 14; SIGTERM := 15; SIGSTKFLT := 16; SIGCHLD := 17; SIGCONT := 18; SIGSTOP := 19;
  SIGTSTP := 20; SIGTTIN := 21; SIGTTOU := 22; SIGURG := 23; SIGXCPU := 24; SIGXFSZ := 25;
  SIGVTALRM := 26; SIGPROF := 27; SIGWINCH := 28; SIGIO := 29; SIGPWR := 30; SIGSYS := 31;
  NSIG := 64; SA_NODEFER := 2 ^ 30; SA_RESETHAND := 2 ^ 31;
  SIG_BLOCK := 0; SIG_UNBLOCK := 1; SIG_SETMASK := 2;
|}.

Lemma linux_signals_ok : SigHeadersOk linux_signals.
Proof. by split. Qed.

(** Replace the signal names by their numbers. *)
Ltac sig_numbers :=
  let H := fresh "H" in
  pose proof sig_values as H; vm_compute (seqZ _ _) in H; injection H; clear H; intros;
  repeat match goal with E : _ = Z.pos _ |- _ => rewrite ?E; clear E end.

(** ** Exit status *)
Inductive ExitStatus := Exited (code : Z) | Signaled (sig : Z).

Definition to_wstatus (e : ExitStatus) : Z :=
  match e with
  | Exited code => Z.shiftl code 8
  | Signaled sig => Z.land sig 0x7f
  end.

(** ** Pending signals *)
Definition pending_new : Z := 0.

Definition sig_in_range (sig : Z) : bool := (1 <=? sig) && (sig <=? 31).

Definition pending_raise (p sig : Z) : outcome Z :=
  rassert (sig_in_range sig);; b ← shl 64 1 sig; Ret (Z.lor p b).

Definition pending_clear (p sig : Z) : outcome Z :=
  rassert (sig_in_range sig);; b ← shl 64 1 sig; Ret (Z.land p (bitnot 64 b)).

(** [trailing_zeros] of a non-zero 64-bit word. *)
Fixpoint trailing_zeros (fuel : nat) (x i : Z) : Z :=
  match fuel with
  | O => i
  | S fuel => if Z.testbit x i then i else trailing_zeros fuel x (i + 1)
  end.

Definition first_matching (p allowed : Z) : option Z :=
  let matched := Z.land p allowed in
  if matched =? 0 then None else Some (trailing_zeros 64 matched 0).

(** ** Default actions *)
Inductive DefaultAction := Terminate | Ignore | Stop | Continue.

#[global] Instance DefaultAction_eq_dec : EqDecision DefaultAction.
Proof. solve_decision. Defined.

Definition validate_signal `{SigHeaders} (sig : Z) : result (option Z) :=
  if sig <? 0 then Err EINVAL
  else if NSIG <=? sig then Err EINVAL
  else if sig =? 0 then Okay None
  else Okay (Some sig).

Definition default_action `{SigHeaders} (sig : Z) : DefaultAction :=
  let among l := existsb (Z.eqb sig) l in
  if among [SIGHUP; SIGINT; SIGQUIT; SIGILL; SIGTRAP; SIGABRT; SIGBUS; SIGFPE; SIGKILL; SIGUSR1;
            SIGSEGV; SIGUSR2; SIGPIPE; SIGALRM; SIGTERM; SIGSTKFLT; SIGXCPU; SIGXFSZ; SIGVTALRM;
            SIGPROF; SIGIO; SIGPWR; SIGSYS] then Terminate
  else if among [SIGCHLD; SIGURG; SIGWINCH] then Ignore
  else if among [SIGSTOP; SIGTSTP; SIGTTIN; SIGTTOU] then Stop
  else if sig =? SIGCONT then Continue
  else Terminate.

(** ** The pending set as a set of signals *)
Definition pending_ok (p : Z) : Prop :=
  in_width 64 p ∧ ∀ i, Z.testbit p i = true → 1 ≤ i ≤ 31.

Lemma pending_new_ok : pending_ok pending_new.
Proof. split; [by vm_compute|]. intros i. by rewrite Z.testbit_0_l. Qed.

Lemma sig_in_range_spec sig : sig_in_range sig = true ↔ 1 ≤ sig ≤ 31.
Proof. unfold sig_in_range. rewrite andb_true_iff, !Z.leb_le. done. Qed.

Lemma shl_bit sig : 0 ≤ sig < 64 → shl 64 1 sig = Ret (2 ^ sig).
Proof.
  intros. unfold shl. rewrite (proj2 (Z.ltb_lt _ _)) by lia. f_equal.
  rewrite Z.shiftl_1_l, Z.land_ones, Z.mod_small; [done| |lia].
  split; [lia|]. apply Z.pow_lt_mono_r; lia.
Qed.

Lemma pending_raise_Ret p sig : 1 ≤ sig ≤ 31 →
  pending_raise p sig = Ret (Z.lor p (2 ^ sig)).
Proof.
  intros. unfold pending_raise. rewrite (proj2 (sig_in_range_spec sig)) by done. bstep.
  by rewrite shl_bit by lia.
Qed.

Lemma pending_clear_Ret p sig : 1 ≤ sig ≤ 31 →
  pending_clear p sig = Ret (Z.land p (bitnot 64 (2 ^ sig))).
Proof.
  intros. unfold pending_clear. rewrite (proj2 (sig_in_range_spec sig)) by done. bstep.
  by rewrite shl_bit by lia.
Qed.

Lemma pending_raise_bits p sig i : 0 ≤ sig →
  Z.testbit (Z.lor p (2 ^ sig)) i = Z.testbit p i || bool_decide (i = sig).
Proof.
  intros. rewrite Z.lor_spec, Z.pow2_bits_eqb by done. f_equal.
  rewrite bool_decide_decide. destruct (Z.eqb_spec sig i), (decide (i = sig)); congruence.
Qed.

Lemma pending_clear_bits p sig i : in_width 64 p → 0 ≤ sig →
  Z.testbit (Z.land p (bitnot 64 (2 ^ sig))) i = Z.testbit p i && bool_decide (i ≠ sig).
Proof.
  intros Hp Hs. rewrite Z.land_spec, testbit_bitnot, Z.pow2_bits_eqb by lia.
  destruct (Z.testbit p i) eqn:Hi; [|done]. rewrite bool_decide_true; simpl.
  - destruct (Z.eqb_spec sig i); simpl; [rewrite bool_decide_false|rewrite bool_decide_true]; congruence.
  - destruct (decide (i < 0)); [by rewrite Z.testbit_neg_r in Hi|].
    destruct (decide (64 ≤ i)); [by rewrite (testbit_out 64) in Hi|lia].
Qed.

Lemma in_width_lor p q : in_width 64 p → in_width 64 q → in_width 64 (Z.lor p q).
Proof.
  intros [Hp1 Hp2] [Hq1 Hq2]. apply in_width_bits; [lia|by apply Z.lor_nonneg|].
  intros i Hi. rewrite Z.lor_spec, !(testbit_out 64) by (split || lia; done). done.
Qed.

Lemma in_width_land p q : in_width 64 p → in_width 64 (Z.land p q).
Proof.
  intros Hp. pose proof Hp as [Hp1 Hp2]. apply in_width_bits; [lia|apply Z.land_nonneg; by left|].
  intros i Hi. by rewrite Z.land_spec, (testbit_out 64 p) by done.
Qed.

Lemma pending_raise_ok p sig : pending_ok p → 1 ≤ sig ≤ 31 → pending_ok (Z.lor p (2 ^ sig)).
Proof.
  intros [Hw Hb] Hs. split.
  - apply in_width_lor; [done|]. split; [lia|]. apply Z.pow_lt_mono_r; lia.
  - intros i. rewrite pending_raise_bits by lia. intros [?|?%bool_decide_eq_true]%orb_prop; [auto|lia].
Qed.

Lemma pending_clear_ok p sig : pending_ok p → 0 ≤ sig → pending_ok (Z.land p (bitnot 64 (2 ^ sig))).
Proof.
  intros [Hw Hb] Hs. split; [by apply in_width_land|].
  intros i. rewrite pending_clear_bits by done. intros [? _]%andb_prop. auto.
Qed.

(** ** The lowest matching signal *)
Lemma trailing_zeros_spec fuel x i : 0 ≤ i → (∃ j, i ≤ j < i + Z.of_nat fuel ∧ Z.testbit x j = true) →
  let r := trailing_zeros fuel x i in
  Z.testbit x r = true ∧ i ≤ r ∧ ∀ j, i ≤ j < r → Z.testbit x j = false.
Proof.
  revert i. induction fuel as [|fuel IH]; intros i Hi (j & Hj & Hb); [lia|]. cbn [trailing_zeros].
  destruct (Z.testbit x i) eqn:Hx; [split; [done|]; split; [lia|lia]|].
  destruct (IH (i + 1)) as (H1 & H2 & H3); [lia| |].
  - exists j. split; [|done]. assert (j ≠ i) by congruence. lia.
  - split; [done|]. split; [lia|]. intros k Hk. destruct (decide (k = i)) as [->|]; [done|].
    apply H3. lia.
Qed.

Lemma nonzero_bit x : in_width 64 x → x ≠ 0 → ∃ j, 0 ≤ j < 64 ∧ Z.testbit x j = true.
Proof.
  intros Hw Hx. pose proof Hw as [H0 H1]. exists (Z.log2 x). split.
  - split; [apply Z.log2_nonneg|]. apply Z.log2_lt_pow2; lia.
  - apply Z.bit_log2. lia.
Qed.

(** The lowest-numbered pending signal among the allowed ones, if any. *)
Lemma first_matching_Some p allowed sig : pending_ok p →
  first_matching p allowed = Some sig →
  1 ≤ sig ≤ 31 ∧ Z.testbit p sig = true ∧ Z.testbit allowed sig = true ∧
  ∀ j, 0 ≤ j < sig → Z.testbit p j && Z.testbit allowed j = false.
Proof.
  intros [Hw Hb]. unfold first_matching. destruct (Z.eqb_spec (Z.land p allowed) 0); [done|].
  intros [= <-]. assert (in_width 64 (Z.land p allowed)) as Hw' by by apply in_width_land.
  destruct (nonzero_bit _ Hw' n) as (j & Hj & Hjb).
  destruct (trailing_zeros_spec 64 (Z.land p allowed) 0) as (H1 & H2 & H3);
    [lia|exists j; split; [lia|done]|].
  rewrite Z.land_spec in H1. apply andb_prop in H1 as [H1 H1']. split; [by apply Hb|].
  split; [done|]. split; [done|]. intros k Hk. rewrite <-Z.land_spec. by apply H3.
Qed.

Lemma first_matching_None p allowed : first_matching p allowed = None ↔
  ∀ j, Z.testbit p j && Z.testbit allowed j = false.
Proof.
  unfold first_matching. destruct (Z.eqb_spec (Z.land p allowed) 0) as [H|H]; split; try done.
  - intros _ j. by rewrite <-Z.land_spec, H, Z.testbit_0_l.
  - intros Hj. destruct H. apply Z.bits_inj'. intros i Hi. by rewrite Z.land_spec, Hj, Z.testbit_0_l.
Qed.

(** ** Exit statuses are told apart *)
(** The decoding of [wait(2)]: WIFEXITED, WEXITSTATUS, WTERMSIG. *)
Definition wifexited (w : Z) : bool := Z.land w 0x7f =? 0.
Definition wexitstatus (w : Z) : Z := Z.land (Z.shiftr w 8) 0xff.
Definition wtermsig (w : Z) : Z := Z.land w 0x7f.

Lemma wstatus_exited code : 0 ≤ code < 256 →
  wifexited (to_wstatus (Exited code)) = true ∧ wexitstatus (to_wstatus (Exited code)) = code.
Proof.
  intros H. unfold wifexited, wexitstatus, to_wstatus. split.
  - apply Z.eqb_eq. change 0x7f with (Z.ones 7). rewrite Z.land_ones, Z.shiftl_mul_pow2 by lia.
    replace (code * 2 ^ 8) with (code * 2 * 2 ^ 7) by lia. by apply Z.mod_mul.
  - change 0xff with (Z.ones 8). rewrite Z.shiftr_shiftl_l, Z.sub_diag, Z.shiftl_0_r by lia.
    rewrite Z.land_ones, Z.mod_small by lia. done.
Qed.

Lemma wstatus_signaled sig : 1 ≤ sig < 128 →
  wifexited (to_wstatus (Signaled sig)) = false ∧ wtermsig (to_wstatus (Signaled sig)) = sig.
Proof.
  intros H. unfold wifexited, wtermsig, to_wstatus. change 0x7f with (Z.ones 7).
  rewrite !Z.land_ones, !Z.mod_small by (rewrite ?Z.mod_small; lia). split; [apply Z.eqb_neq; lia|done].
Qed.
