(* ===== verification/Thread.v ===== *)
(** Threads: crates/kernel/src/processes/thread.rs, with the trap frame of
    crates/abi/src/syscalls/trap_frame.rs.

    A system-call task is a future; it is a handle here. The thread and process
    names, which only the tracer and [prctl] read, are left out. *)
From S2P Require Import Prelude Headers Signal.

(** ** Trap frames *)
Record TrapFrame := Frame { registers : list Z; floating_registers : list Z }.

Definition frame_zero : TrapFrame := Frame (replicate 32 0) (replicate 32 0).

(** Numbers of the registers the kernel names. *)
Definition reg_ra : nat := 1.
Definition reg_sp : nat := 2.
Definition reg_tp : nat := 4.
Definition reg_a0 : nat := 10.

(** [frame[r]], [frame[r] = v]: the arrays have 32 entries and [r] is one of the
    32 names. *)
Definition reg (f : TrapFrame) (r : nat) : Z := default 0 (registers f !! r).
Definition set_reg (f : TrapFrame) (r : nat) (v : Z) : TrapFrame :=
  Frame (<[r := v]> (registers f)) (floating_registers f).

(** ** State *)
Inductive ThreadState :=
  | Running (cpu : Z)
  | Runnable
  | Waiting
  | Stopped
  | Zombie (e : ExitStatus).

#[global] Instance ExitStatus_eq_dec : EqDecision ExitStatus.
Proof. solve_decision. Defined.
#[global] Instance ThreadState_eq_dec : EqDecision ThreadState.
Proof. solve_decision. Defined.

Definition is_zombie (s : ThreadState) : bool := match s with Zombie _ => true | _ => false end.

(** [sa_handler]: [None] is SIG_DFL, [Some 1] is SIG_IGN. *)
Record sigaction := SigAction { sa_handler : option Z; sa_flags : Z; sa_mask : Z }.

Definition sigaction_default : sigaction := SigAction None 0 0.

Record stack_t := { ss_sp : Z; ss_flags : Z; ss_size : Z }.

Record SignalState := SigState {
  sigaltstack : stack_t;
  sigmask : Z;
  sigactions : list sigaction;
  pending : Z;
}.

Definition signal_state_new `{SigHeaders} : SignalState :=
  SigState {| ss_sp := 0; ss_flags := 0; ss_size := 0 |} 0
    (replicate (Z.to_nat NSIG) sigaction_default) pending_new.

Record Thread := MkThread {
  tid : Z;
  parent_tid : Z;
  register_state : TrapFrame;
  program_counter : Z;
  state : ThreadState;
  wakeup_pending : bool;
  in_kernel_mode : bool;
  process : nat;
  clear_child_tid : option Z;
  signal_state : SignalState;
  syscall_task : option nat;
  registers_replaced : bool;
  stopped_notified : bool;
  stop_signal : Z;
  sigtimedwait_mask : option Z;
}.

(** Field assignments. *)
Definition set_parent_tid (t : Thread) v : Thread := MkThread (tid t) v (register_state t)
  (program_counter t) (state t) (wakeup_pending t) (in_kernel_mode t) (process t) (clear_child_tid
  t) (signal_state t) (syscall_task t) (registers_replaced t) (stopped_notified t) (stop_signal t)
  (sigtimedwait_mask t).
Definition set_register_state (t : Thread) v : Thread := MkThread (tid t) (parent_tid t) v
  (program_counter t) (state t) (wakeup_pending t) (in_kernel_mode t) (process t) (clear_child_tid
  t) (signal_state t) (syscall_task t) (registers_replaced t) (stopped_notified t) (stop_signal t)
  (sigtimedwait_mask t).
Definition set_program_counter (t : Thread) v : Thread := MkThread (tid t) (parent_tid t)
  (register_state t) v (state t) (wakeup_pending t) (in_kernel_mode t) (process t) (clear_child_tid
  t) (signal_state t) (syscall_task t) (registers_replaced t) (stopped_notified t) (stop_signal t)
  (sigtimedwait_mask t).
Definition set_state (t : Thread) v : Thread := MkThread (tid t) (parent_tid t) (register_state t)
  (program_counter t) v (wakeup_pending t) (in_kernel_mode t) (process t) (clear_child_tid t)
  (signal_state t) (syscall_task t) (registers_replaced t) (stopped_notified t) (stop_signal t)
  (sigtimedwait_mask t).
Definition set_wakeup_pending (t : Thread) v : Thread := MkThread (tid t) (parent_tid t)
  (register_state t) (program_counter t) (state t) v (in_kernel_mode t) (process t) (clear_child_tid
  t) (signal_state t) (syscall_task t) (registers_replaced t) (stopped_notified t) (stop_signal t)
  (sigtimedwait_mask t).
Definition set_process (t : Thread) v : Thread := MkThread (tid t) (parent_tid t) (register_state
  t) (program_counter t) (state t) (wakeup_pending t) (in_kernel_mode t) v (clear_child_tid t)
  (signal_state t) (syscall_task t) (registers_replaced t) (stopped_notified t) (stop_signal t)
  (sigtimedwait_mask t).
Definition set_clear_child_tid (t : Thread) v : Thread := MkThread (tid t) (parent_tid t)
  (register_state t) (program_counter t) (state t) (wakeup_pending t) (in_kernel_mode t) (process t)
  v (signal_state t) (syscall_task t) (registers_replaced t) (stopped_notified t) (stop_signal t)
  (sigtimedwait_mask t).
Definition set_signal_state (t : Thread) v : Thread := MkThread (tid t) (parent_tid t)
  (register_state t) (program_counter t) (state t) (wakeup_pending t) (in_kernel_mode t) (process t)
  (clear_child_tid t) v (syscall_task t) (registers_replaced t) (stopped_notified t) (stop_signal t)
  (sigtimedwait_mask t).
Definition set_syscall_task (t : Thread) v : Thread := MkThread (tid t) (parent_tid t)
  (register_state t) (program_counter t) (state t) (wakeup_pending t) (in_kernel_mode t) (process t)
  (clear_child_tid t) (signal_state t) v (registers_replaced t) (stopped_notified t) (stop_signal t)
  (sigtimedwait_mask t).
Definition set_registers_replaced (t : Thread) v : Thread := MkThread (tid t) (parent_tid t)
  (register_state t) (program_counter t) (state t) (wakeup_pending t) (in_kernel_mode t) (process t)
  (clear_child_tid t) (signal_state t) (syscall_task t) v (stopped_notified t) (stop_signal t)
  (sigtimedwait_mask t).
Definition set_stopped_notified (t : Thread) v : Thread := MkThread (tid t) (parent_tid t)
  (register_state t) (program_counter t) (state t) (wakeup_pending t) (in_kernel_mode t) (process t)
  (clear_child_tid t) (signal_state t) (syscall_task t) (registers_replaced t) v (stop_signal t)
  (sigtimedwait_mask t).
Definition set_stop_signal (t : Thread) v : Thread := MkThread (tid t) (parent_tid t)
  (register_state t) (program_counter t) (state t) (wakeup_pending t) (in_kernel_mode t) (process t)
  (clear_child_tid t) (signal_state t) (syscall_task t) (registers_replaced t) (stopped_notified t)
  v (sigtimedwait_mask t).
Definition set_sigtimedwait_mask (t : Thread) v : Thread := MkThread (tid t) (parent_tid t)
  (register_state t) (program_counter t) (state t) (wakeup_pending t) (in_kernel_mode t) (process t)
  (clear_child_tid t) (signal_state t) (syscall_task t) (registers_replaced t) (stopped_notified t)
  (stop_signal t) v.

Definition set_sigmask (t : Thread) (m : Z) : Thread :=
  let s := signal_state t in
  set_signal_state t (SigState (sigaltstack s) m (sigactions s) (pending s)).
Definition set_pending (t : Thread) (p : Z) : Thread :=
  let s := signal_state t in
  set_signal_state t (SigState (sigaltstack s) (sigmask s) (sigactions s) p).
Definition set_sigactions (t : Thread) (l : list sigaction) : Thread :=
  let s := signal_state t in
  set_signal_state t (SigState (sigaltstack s) (sigmask s) l (pending s)).
Definition set_sigaltstack (t : Thread) (a : stack_t) : Thread :=
  let s := signal_state t in
  set_signal_state t (SigState a (sigmask s) (sigactions s) (pending s)).

(** ** Operations *)
Section thread.
Context `{SH : SigHeaders}.

(** [get_next_tid]: the counter wraps, the assertion catches its maximum. *)
Definition get_next_tid (counter : Z) : outcome (Z * Z) :=
  rassert (negb (counter =? 2 ^ 64 - 1));; Ret (counter, wrapping_add 64 counter 1).

Definition thread_new (id : Z) (regs : TrapFrame) (pc : Z) (kernel : bool) (proc : nat) (parent : Z)
    : Thread :=
  MkThread id parent regs pc Runnable false kernel proc None signal_state_new None false false 0 None.

(** [!sigmask] *)
Definition peek_first_unblocked_signal (t : Thread) : option Z :=
  first_matching (pending (signal_state t)) (bitnot 64 (sigmask (signal_state t))).

Definition has_pending_unblocked_signal (t : Thread) : bool :=
  bool_decide (is_Some (peek_first_unblocked_signal t)).

Definition first_pending_in_set (t : Thread) (set : Z) : option Z :=
  first_matching (pending (signal_state t)) set.

Definition clear_pending (t : Thread) (sig : Z) : outcome Thread :=
  p ← pending_clear (pending (signal_state t)) sig; Ret (set_pending t p).

Definition take_next_pending_signal (t : Thread) : outcome (option Z * Thread) :=
  match peek_first_unblocked_signal t with
  | None => Ret (None, t)
  | Some sig => t ← clear_pending t sig; Ret (Some sig, t)
  end.

Definition sigtimedwait_matches (t : Thread) (sig : Z) : outcome bool :=
  match sigtimedwait_mask t with
  | None => Ret false
  | Some m => b ← shl 64 1 sig; Ret (negb (Z.land m b =? 0))
  end.

Definition sigtimedwait_pending (t : Thread) : bool :=
  match sigtimedwait_mask t with
  | None => false
  | Some m => bool_decide (is_Some (first_matching (pending (signal_state t)) m))
  end.

Definition suspend (t : Thread) : outcome Thread :=
  rassert (negb (bool_decide (state t = Waiting)));; Ret (set_state t Waiting).

(** The boolean: the caller must queue the thread. *)
Definition set_syscall_task_and_suspend (t : Thread) (task : nat) : outcome (Thread * bool) :=
  rassert (bool_decide (syscall_task t = None));;
  if is_zombie (state t) then Ret (t, false)
  else
    let t := set_syscall_task t (Some task) in
    if wakeup_pending t then Ret (set_state (set_wakeup_pending t false) Runnable, true)
    else if has_pending_unblocked_signal t || sigtimedwait_pending t
    then Ret (set_state t Runnable, true)
    else t ← suspend t; Ret (t, false).

Definition wake_up (t : Thread) : Thread * bool :=
  match state t with
  | Waiting => (set_state t Runnable, true)
  | Running _ => (set_wakeup_pending t true, false)
  | _ => (t, false)
  end.

Definition suspend_unless_wakeup_pending (t : Thread) : outcome Thread :=
  if wakeup_pending t then Ret (set_wakeup_pending t false) else suspend t.

Definition clear_wakeup_pending (t : Thread) : Thread := set_wakeup_pending t false.

Definition take_syscall_task (t : Thread) : option nat * Thread :=
  (syscall_task t, set_syscall_task t None).

Definition store_syscall_task (t : Thread) (task : nat) : Thread := set_syscall_task t (Some task).

(** [sigaction[sig]], in range because [sig < _NSIG]. *)
Definition get_sigaction_raw (t : Thread) (sig : Z) : outcome sigaction :=
  expect (sigactions (signal_state t) !! Z.to_nat sig).

Definition set_sigaction (t : Thread) (sig : Z) (a : sigaction) : outcome (result (sigaction * Thread)) :=
  if NSIG <=? sig then Ret (Err EINVAL)
  else
    old ← get_sigaction_raw t sig;
    Ret (Okay (old, set_sigactions t (<[Z.to_nat sig := a]> (sigactions (signal_state t))))).

Definition get_sigaction (t : Thread) (sig : Z) : outcome (result sigaction) :=
  if NSIG <=? sig then Ret (Err EINVAL)
  else old ← get_sigaction_raw t sig; Ret (Okay old).

Definition clear_pending_stop_signals (t : Thread) : outcome Thread :=
  foldM clear_pending [SIGSTOP; SIGTSTP; SIGTTIN; SIGTTOU] t.

Definition raise_pending (t : Thread) (sig : Z) : outcome Thread :=
  p ← pending_raise (pending (signal_state t)) sig; Ret (set_pending t p).

Definition raise_signal (t : Thread) (sig : Z) : outcome Thread :=
  rassert (sig_in_range sig);;
  t ← match default_action sig with
      | Continue => clear_pending_stop_signals t
      | Stop => clear_pending t SIGCONT
      | _ => Ret t
      end;
  if (sig =? SIGKILL) || (sig =? SIGSTOP) then raise_pending t sig
  else
    action ← get_sigaction_raw t sig;
    match sa_handler action with
    | None =>
        match default_action sig with
        | Ignore => Ret t
        | Terminate | Stop | Continue => raise_pending t sig
        end
    | Some f => if f =? 1 then Ret t else raise_pending t sig
    end.
End thread.
