(* ===== verification/SignalDelivery.v ===== *)
(** Signal delivery: the second half of
    crates/kernel/src/processes/signal.rs and the system calls of
    crates/kernel/src/syscalls/signal_ops.rs.

    User memory is reached through the two slice operations of
    [Process] ([write_userspace_slice], [read_userspace_slice]); they are an
    interface here, with the law that what was written is read back. *)
From S2P Require Import Prelude Headers KUtil Bytes Signal Thread.

Class UserMemory (M : Type) := {
  write_userspace_slice : M → Z → list Z → outcome (result M);
  read_userspace_slice : M → Z → nat → outcome (result (list Z));
}.

Class UserMemoryLaws (M : Type) `{UserMemory M} : Prop := {
  read_after_write m a d m' : bytes d → write_userspace_slice m a d = Ret (Okay m') →
    read_userspace_slice m' a (length d) = Ret (Okay d);
}.

Definition TRAMPOLINE_VADDR : Z := 0x1000.

(** ** The signal frame *)
Record SignalFrame := {
  saved_regs : list Z;
  saved_fregs : list Z;
  saved_pc : Z;
  saved_sigmask : Z;
}.

Definition SIGNAL_FRAME_SIZE : Z := 528.

(** The frame in memory: 66 words. *)
Definition word_bytes (l : list Z) : list Z := concat (le_bytes 8 <$> l).

Definition frame_slice (f : SignalFrame) : list Z :=
  word_bytes (saved_regs f ++ saved_fregs f ++ [saved_pc f; saved_sigmask f]).

Fixpoint words_of (n : nat) (data : list Z) : list Z :=
  match n with
  | O => []
  | S n => le_combine (take 8 data) :: words_of n (drop 8 data)
  end.

(** [read_from_bytes::<SignalFrame>] *)
Definition frame_of_bytes (data : list Z) : SignalFrame :=
  let w := words_of 66 data in {|
    saved_regs := take 32 w; saved_fregs := take 32 (drop 32 w);
    saved_pc := nth 64 w 0; saved_sigmask := nth 65 w 0 |}.

Inductive SignalDeliveryResult :=
  | DeliveryContinue
  | DeliveryTerminate (e : ExitStatus)
  | DeliveryStop (sig : Z).

Section delivery.
Context `{SH : SigHeaders} {M : Type} `{UM : UserMemory M}.

Definition setup_signal_frame (m : M) (t : Thread) (sig handler : Z) (action : sigaction)
    : outcome (bool * Thread * M) :=
  let regs := register_state t in
  let mask := sigmask (signal_state t) in
  let frame := {| saved_regs := registers regs; saved_fregs := floating_registers regs;
                  saved_pc := program_counter t; saved_sigmask := mask |} in
  top ← sub (reg regs reg_sp) SIGNAL_FRAME_SIZE;
  let frame_sp := Z.land top (bitnot 64 0xF) in
  w ← write_userspace_slice m frame_sp (frame_slice frame);
  match w with
  | inl _ => Ret (false, t, m)
  | inr m =>
      let regs := set_reg (set_reg (set_reg regs reg_sp frame_sp) reg_a0 sig) reg_ra TRAMPOLINE_VADDR in
      let t := set_program_counter (set_register_state t regs) handler in
      let new_mask := Z.lor mask (sa_mask action) in
      bit ← shl 64 1 sig;
      let new_mask := if Z.land (sa_flags action) SA_NODEFER =? 0 then Z.lor new_mask bit else new_mask in
      let t := set_sigmask t new_mask in
      if negb (Z.land (sa_flags action) SA_RESETHAND =? 0) then
        r ← set_sigaction t sig sigaction_default;
        Ret (true, match r with inr (_, t) => t | inl _ => t end, m)
      else Ret (true, t, m)
  end.

(** [u8::try_from(sig).expect(..)] *)
Definition signaled (sig : Z) : outcome ExitStatus :=
  if sig <? 256 then Ret (Signaled sig) else Panic.

(** [deliver_signal]; [None] if the fuel runs out. *)
Fixpoint deliver_signal_fuel (fuel : nat) (m : M) (t : Thread)
    : outcome (option (SignalDeliveryResult * Thread * M)) :=
  match fuel with
  | O => Ret None
  | S fuel =>
      '(next, t) ← take_next_pending_signal t;
      match next with
      | None => Ret (Some (DeliveryContinue, t, m))
      | Some sig =>
          action ← get_sigaction_raw t sig;
          match sa_handler action with
          | None =>
              match default_action sig with
              | Terminate => e ← signaled sig; Ret (Some (DeliveryTerminate e, t, m))
              | Stop => Ret (Some (DeliveryStop sig, t, m))
              | Ignore | Continue => deliver_signal_fuel fuel m t
              end
          | Some f =>
              if f =? 1 then deliver_signal_fuel fuel m t
              else
                '(ok, t, m) ← setup_signal_frame m t sig f action;
                if ok : bool then Ret (Some (DeliveryContinue, t, m))
                else if sig =? SIGSEGV then
                  e ← signaled SIGSEGV; Ret (Some (DeliveryTerminate e, t, m))
                else t ← raise_signal t SIGSEGV; deliver_signal_fuel fuel m t
          end
      end
  end.

Definition deliver_signal (m : M) (t : Thread) := deliver_signal_fuel 64 m t.

Definition restore_signal_frame (m : M) (t : Thread) : outcome (result Thread) :=
  let sp := reg (register_state t) reg_sp in
  r ← read_userspace_slice m sp (Z.to_nat SIGNAL_FRAME_SIZE);
  match r with
  | inl e => Ret (Err e)
  | inr data =>
      rassert (Z.of_nat (length data) =? SIGNAL_FRAME_SIZE);;
      let frame := frame_of_bytes data in
      let t := set_register_state t (Frame (saved_regs frame) (saved_fregs frame)) in
      let t := set_program_counter t (saved_pc frame) in
      Ret (Okay (set_sigmask t (saved_sigmask frame)))
  end.

(** ** System calls *)
(** [do_rt_sigaction], with its user pointers already read. *)
Definition do_rt_sigaction (t : Thread) (sig : Z) (act : option sigaction) (sigsetsize : Z)
    : outcome (result (sigaction * Thread)) :=
  if negb (sigsetsize =? 8) || (sig =? SIGKILL) || (sig =? SIGSTOP) || (NSIG <=? sig)
  then Ret (Err EINVAL)
  else
    match act with
    | Some act => set_sigaction t sig act
    | None =>
        r ← get_sigaction t sig;
        Ret match r with inl e => Err e | inr old => Okay (old, t) end
    end.

(** [do_rt_sigprocmask]: the old mask and the thread. *)
Definition do_rt_sigprocmask (t : Thread) (how : Z) (set : option Z) (sigsetsize : Z)
    : result (Z * Thread) :=
  let current := sigmask (signal_state t) in
  if negb (sigsetsize =? 8) then Err EINVAL
  else
    match set with
    | None => Okay (current, t)
    | Some new =>
        if how =? SIG_BLOCK then Okay (current, set_sigmask t (Z.lor current new))
        else if how =? SIG_UNBLOCK then Okay (current, set_sigmask t (Z.land current (bitnot 64 new)))
        else if how =? SIG_SETMASK then Okay (current, set_sigmask t new)
        else Err EINVAL
    end.

(** [do_rt_sigreturn] *)
Definition do_rt_sigreturn (m : M) (t : Thread) : outcome (result Thread) :=
  r ← restore_signal_frame m t;
  Ret match r with inl e => Err e | inr t => Okay (set_registers_replaced t true) end.

(** The wait set of [do_rt_sigtimedwait], and its poll with a zero timeout. *)
Definition sigtimedwait_set (set : Z) : outcome Z :=
  k ← shl 64 1 SIGKILL;
  s ← shl 64 1 SIGSTOP;
  Ret (Z.land (Z.land set (bitnot 64 k)) (bitnot 64 s)).

Definition sigtimedwait_now (t : Thread) (wait_mask : Z) : outcome (result (Z * Thread)) :=
  match first_pending_in_set t wait_mask with
  | Some sig => t ← clear_pending t sig; Ret (Okay (sig, t))
  | None => Ret (Err EAGAIN)
  end.

(** [SigTimedWait::poll]: [None] is pending. *)
Definition sigtimedwait_poll (t : Thread) (wait_mask : Z) : outcome (option Z * Thread) :=
  match first_pending_in_set t wait_mask with
  | Some sig => t ← clear_pending t sig; Ret (Some sig, t)
  | None => Ret (None, set_sigtimedwait_mask t (Some wait_mask))
  end.
End delivery.

(** ** The frame is read back as written *)
Lemma word_bytes_length l : length (word_bytes l) = (8 * length l)%nat.
Proof.
  unfold word_bytes. induction l as [|x l IH]; [done|]. cbn [fmap list_fmap concat length].
  rewrite length_app, le_bytes_length, IH. lia.
Qed.

Lemma words_of_bytes l rest : Forall (in_width 64) l → words_of (length l) (word_bytes l ++ rest) = l.
Proof.
  induction 1 as [|x l Hx _ IH]; [done|]. unfold word_bytes. cbn [length words_of fmap list_fmap concat].
  rewrite <-app_assoc. rewrite take_app_length' by by rewrite le_bytes_length.
  rewrite drop_app_length' by by rewrite le_bytes_length.
  rewrite le_combine_bytes by (change (256 ^ Z.of_nat 8) with (2 ^ 64); apply Hx). f_equal. apply IH.
Qed.

Definition frame_ok (f : SignalFrame) : Prop :=
  length (saved_regs f) = 32%nat ∧ length (saved_fregs f) = 32%nat ∧
  Forall (in_width 64) (saved_regs f ++ saved_fregs f ++ [saved_pc f; saved_sigmask f]).

Lemma frame_of_bytes_slice f : frame_ok f → frame_of_bytes (frame_slice f) = f.
Proof.
  intros (H1 & H2 & Hw). unfold frame_of_bytes, frame_slice.
  set (l := saved_regs f ++ saved_fregs f ++ [saved_pc f; saved_sigmask f]).
  assert (length l = 66%nat) as Hl by (unfold l; rewrite !length_app; simpl; lia).
  assert (words_of 66 (word_bytes l) = l) as ->.
  { rewrite <-Hl, <-(app_nil_r (word_bytes l)). by apply words_of_bytes. }
  unfold l. rewrite take_app_length', drop_app_length', take_app_length' by done.
  rewrite !app_nth2 by (rewrite ?length_app; lia). rewrite H1, H2. by destruct f.
Qed.

Lemma frame_slice_length f : frame_ok f → length (frame_slice f) = 528%nat.
Proof.
  intros (H1 & H2 & _). unfold frame_slice. rewrite word_bytes_length, !length_app, H1, H2. done.
Qed.

Lemma frame_slice_bytes f : bytes (frame_slice f).
Proof.
  unfold frame_slice, word_bytes. induction (_ ++ _ ++ _) as [|x l IH]; [constructor|].
  cbn [fmap list_fmap concat].
  apply Forall_app. split; [apply le_bytes_bytes|done].
Qed.

Definition thread_regs_ok (t : Thread) : Prop :=
  length (registers (register_state t)) = 32%nat ∧
  length (floating_registers (register_state t)) = 32%nat ∧
  Forall (in_width 64) (registers (register_state t)) ∧
  Forall (in_width 64) (floating_registers (register_state t)) ∧
  in_width 64 (program_counter t) ∧ in_width 64 (sigmask (signal_state t)).

Section theorems.
Context `{SH : SigHeaders} `{SO : !SigHeadersOk SH} {M : Type} `{UM : UserMemory M}.

(** What [setup_signal_frame] does when it succeeds. *)
Lemma setup_signal_frame_inv m t sig h a t' m' : setup_signal_frame m t sig h a = Ret (true, t', m') →
  let sp := reg (register_state t) reg_sp in
  let frame_sp := Z.land (sp - 528) (bitnot 64 15) in
  528 ≤ sp ∧ sig < 64 ∧
  write_userspace_slice m frame_sp (frame_slice {|
    saved_regs := registers (register_state t);
    saved_fregs := floating_registers (register_state t);
    saved_pc := program_counter t; saved_sigmask := sigmask (signal_state t) |}) = Ret (Okay m') ∧
  register_state t' = set_reg (set_reg (set_reg (register_state t) reg_sp frame_sp) reg_a0 sig)
    reg_ra TRAMPOLINE_VADDR ∧
  program_counter t' = h ∧ state t' = state t ∧
  sigmask (signal_state t') = Z.lor (Z.lor (sigmask (signal_state t)) (sa_mask a))
    (if Z.land (sa_flags a) SA_NODEFER =? 0 then Z.land (Z.shiftl 1 sig) (Z.ones 64) else 0).
Proof.
  unfold setup_signal_frame. intros H. apply bind_Ret in H as (top & Htop & H).
  apply sub_Ret in Htop as [-> Hsp]. apply bind_Ret in H as (w & Hw & H).
  destruct w as [e|m1]; [done|]. apply bind_Ret in H as (bit & Hbit & H).
  unfold shl in Hbit. destruct (Z.ltb_spec sig 64); [|done]. injection Hbit as <-.
  match type of H with context [set_sigaction ?T sig _] => set (t1 := T) in H end.
  assert ((t' = t1 ∨ ∃ l, t' = set_sigactions t1 l) ∧ m1 = m') as [Ht1 <-].
  { destruct (negb _); [|injection H as <- <-; auto].
    apply bind_Ret in H as (r & Hr & H). injection H as <- <-. split; [|done].
    unfold set_sigaction in Hr. destruct (NSIG <=? sig); [injection Hr as <-; by left|].
    apply bind_Ret in Hr as (old & _ & Hr). injection Hr as <-. right. by eexists. }
  assert (sigmask (signal_state t1) = Z.lor (Z.lor (sigmask (signal_state t)) (sa_mask a))
    (if Z.land (sa_flags a) SA_NODEFER =? 0 then Z.land (Z.shiftl 1 sig) (Z.ones 64) else 0)) as Hm.
  { unfold t1. simpl. destruct (Z.land (sa_flags a) SA_NODEFER =? 0); [done|by rewrite Z.lor_0_r]. }
  destruct Ht1 as [-> | [l ->]]; (split; [done|]; split; [done|]; split; [done|]);
    (split; [done|]; split; [done|]; split; [done|exact Hm]).
Qed.

(** ** Delivery terminates *)
Definition thread_ok (t : Thread) : Prop :=
  pending_ok (pending (signal_state t)) ∧ length (sigactions (signal_state t)) = 64%nat.

(** SIGSEGV weighs one, every other signal two: a failed frame trades another
    signal for SIGSEGV. *)
Definition weight (p i : Z) : nat := if Z.testbit p i then if i =? 11 then 1%nat else 2%nat else 0%nat.
Definition load (p : Z) : nat := sum_list_with (weight p) (seqZ 1 31).

Lemma sum_update (f g : Z → nat) l k : NoDup l → k ∈ l → (∀ i, i ≠ k → f i = g i) →
  (sum_list_with f l + g k = sum_list_with g l + f k)%nat.
Proof.
  induction 1 as [|x l Hx Hnd IH]; intros Hk Heq; [by apply elem_of_nil in Hk|]. simpl.
  destruct (decide (x = k)) as [->|Hne].
  - assert (sum_list_with f l = sum_list_with g l) as ->; [|lia].
    clear IH Hk Hnd. induction l as [|y l IH]; simpl; [done|].
    rewrite Heq, IH by set_solver. done.
  - apply elem_of_cons in Hk as [->|Hk]; [done|]. specialize (IH Hk Heq). rewrite Heq by done. lia.
Qed.

Lemma load_bound p : (load p ≤ 61)%nat.
Proof.
  unfold load. change (seqZ 1 31) with (seqZ 1 10 ++ [11] ++ seqZ 12 20). rewrite !sum_list_with_app.
  assert (∀ a n, sum_list_with (weight p) (seqZ a n) ≤ 2 * Z.to_nat n)%nat as H.
  { intros a n. rewrite <-(length_seqZ a n). induction (seqZ a n); simpl; [lia|].
    assert (weight p a0 ≤ 2)%nat by (unfold weight; repeat case_match; lia). lia. }
  pose proof (H 1 10). pose proof (H 12 20). unfold sum_list_with at 2. unfold weight at 2.
  case_match; simpl in *; lia.
Qed.

Lemma load_clear p sig : in_width 64 p → 1 ≤ sig ≤ 31 → Z.testbit p sig = true →
  (load (Z.land p (bitnot 64 (2 ^ sig)%Z)) + (if (sig =? 11)%Z then 1 else 2) = load p)%nat.
Proof.
  intros Hp Hs Hb. unfold load.
  assert (weight (Z.land p (bitnot 64 (2 ^ sig))) sig = 0%nat) as H0.
  { unfold weight. by rewrite pending_clear_bits, bool_decide_false, andb_false_r by (done || lia || auto). }
  assert (weight p sig = if sig =? 11 then 1%nat else 2%nat) as H1 by (unfold weight; by rewrite Hb).
  rewrite <-H1, (sum_update _ (weight p) _ sig); [lia|apply NoDup_seqZ|apply elem_of_seqZ; lia|].
  intros i Hi. unfold weight. rewrite pending_clear_bits by (done || lia).
  by rewrite bool_decide_true, andb_true_r by done.
Qed.

Lemma load_raise p : (load (Z.lor p (2 ^ 11)%Z) ≤ load p + 1)%nat.
Proof.
  unfold load.
  pose proof (sum_update (weight (Z.lor p (2 ^ 11))) (weight p) (seqZ 1 31) 11) as H.
  assert (weight (Z.lor p (2 ^ 11)) 11 = 1%nat) as H11.
  { unfold weight. rewrite pending_raise_bits, bool_decide_true, orb_true_r by lia. done. }
  rewrite H11 in H.
  assert (sum_list_with (weight (Z.lor p (2 ^ 11))) (seqZ 1 31) + weight p 11 =
    sum_list_with (weight p) (seqZ 1 31) + 1)%nat as H'; [|lia].
  apply H; [apply NoDup_seqZ|apply elem_of_seqZ; lia|].
  intros i Hi. unfold weight. rewrite pending_raise_bits by lia.
  by rewrite bool_decide_false, orb_false_r by done.
Qed.

(** The next signal: the lowest unblocked one, and it is cleared. *)
Lemma take_next_pending_signal_spec t : thread_ok t →
  (take_next_pending_signal t = Ret (None, t) ∧ peek_first_unblocked_signal t = None) ∨
  ∃ sig, peek_first_unblocked_signal t = Some sig ∧ 1 ≤ sig ≤ 31 ∧
    let p := Z.land (pending (signal_state t)) (bitnot 64 (2 ^ sig)) in
    take_next_pending_signal t = Ret (Some sig, set_pending t p) ∧
    thread_ok (set_pending t p) ∧
    (load p + (if (sig =? 11)%Z then 1 else 2) = load (pending (signal_state t)))%nat.
Proof.
  intros [Hp Ha]. unfold take_next_pending_signal.
  destruct (peek_first_unblocked_signal t) as [sig|] eqn:Hk; [right|by left].
  exists sig. unfold peek_first_unblocked_signal in Hk.
  destruct (first_matching_Some _ _ _ Hp Hk) as (Hr & Hb & _ & _).
  split; [done|]. split; [done|]. unfold clear_pending. rewrite pending_clear_Ret by done. bstep.
  split; [done|]. split; [split; [apply pending_clear_ok; [done|lia]|done]|].
  apply load_clear; [apply Hp|done|done].
Qed.

Lemma get_sigaction_raw_Ret t sig : thread_ok t → 0 ≤ sig < 64 →
  ∃ a, get_sigaction_raw t sig = Ret a.
Proof.
  intros [_ Ha] Hs. unfold get_sigaction_raw.
  destruct (lookup_lt_is_Some_2 (sigactions (signal_state t)) (Z.to_nat sig)) as [a ->]; [lia|by exists a].
Qed.

Lemma sigsegv_value : SIGSEGV = 11.
Proof. pose proof sig_values as H. by injection H. Qed.

Lemma raise_sigsegv t : thread_ok t → ∃ t', raise_signal t SIGSEGV = Ret t' ∧ thread_ok t' ∧
  register_state t' = register_state t ∧
  (load (pending (signal_state t')) ≤ load (pending (signal_state t)) + 1)%nat.
Proof.
  intros Hok. pose proof Hok as [Hp Ha]. 
  unfold raise_signal. rewrite sigsegv_value. change (sig_in_range 11) with true. bstep.
  assert (default_action 11 = Terminate) as ->.
  { unfold default_action. sig_numbers. done. }
  bstep. assert ((11 =? SIGKILL) || (11 =? SIGSTOP) = false) as -> by (sig_numbers; done).
  destruct (get_sigaction_raw_Ret t 11) as [a ->]; [done|lia|]. bstep.
  assert (∃ t', raise_pending t 11 = Ret t' ∧ thread_ok t' ∧ register_state t' = register_state t ∧
    (load (pending (signal_state t')) ≤ load (pending (signal_state t)) + 1)%nat) as Hraise.
  { unfold raise_pending. rewrite pending_raise_Ret by lia. bstep. eexists. split; [done|].
    split; [split; [apply pending_raise_ok; [done|lia]|done]|]. split; [done|]. apply load_raise. }
  destruct (sa_handler a) as [f|]; [|done]. destruct (f =? 1); [|done].
  exists t. split; [done|]. split; [done|]. split; [done|]. lia.
Qed.

Hypothesis write_returns : ∀ m a d, ∃ r, write_userspace_slice m a d = Ret r.

Lemma setup_signal_frame_returns m t sig h a : thread_ok t → 0 ≤ sig < 64 →
  528 ≤ reg (register_state t) reg_sp →
  (∃ t' m', setup_signal_frame m t sig h a = Ret (true, t', m')) ∨
  setup_signal_frame m t sig h a = Ret (false, t, m).
Proof.
  intros Hok Hs Hsp. unfold setup_signal_frame, SIGNAL_FRAME_SIZE.
  rewrite (proj2 (sub_Ret (reg (register_state t) reg_sp) 528 _)) by (split; [done|lia]). bstep.
  match goal with |- context [write_userspace_slice m ?x ?d] => destruct (write_returns m x d) as [[e|m1] ->] end;
    [by right|]. left. bstep. unfold shl. rewrite (proj2 (Z.ltb_lt sig 64)) by lia. bstep.
  destruct (negb _); [|by do 2 eexists].
  unfold set_sigaction. rewrite nsig_value, (proj2 (Z.leb_gt 64 sig)) by lia.
  destruct (get_sigaction_raw_Ret t sig Hok Hs) as [x Hx]. unfold get_sigaction_raw in Hx |- *.
  cbn [signal_state set_sigmask set_signal_state set_program_counter set_register_state sigactions].
  rewrite Hx. by do 2 eexists.
Qed.

Lemma deliver_signal_fuel_returns fuel : ∀ m t, thread_ok t → 528 ≤ reg (register_state t) reg_sp →
  (load (pending (signal_state t)) < fuel)%nat →
  ∃ r t' m', deliver_signal_fuel fuel m t = Ret (Some (r, t', m')).
Proof.
  induction fuel as [|fuel IH]; intros m t Hok Hsp Hl; [lia|]. cbn [deliver_signal_fuel].
  destruct (take_next_pending_signal_spec t Hok) as [[-> _]|(sig & _ & Hr & -> & Hok1 & Hload)].
  { bstep. by do 3 eexists. }
  bstep. set (t1 := set_pending t _) in *.
  assert (load (pending (signal_state t1)) < fuel)%nat as Hl1.
  { unfold t1. cbn [signal_state set_pending set_signal_state pending]. destruct (sig =? 11); lia. }
  destruct (get_sigaction_raw_Ret t1 sig) as [a ->]; [done|lia|]. bstep.
  assert (∀ x, 0 ≤ x < 256 → signaled x = Ret (Signaled x)) as Hsd.
  { intros x Hx. unfold signaled. by rewrite (proj2 (Z.ltb_lt _ _)) by lia. }
  destruct (sa_handler a) as [f|].
  - destruct (f =? 1); [by apply IH|].
    destruct (setup_signal_frame_returns m t1 sig f a) as [(t2 & m2 & ->)| ->]; [done|lia|done| |].
    { bstep. by do 3 eexists. }
    bstep. destruct (Z.eqb_spec sig SIGSEGV) as [Hse|Hse].
    { rewrite sigsegv_value, Hsd by lia. bstep. by do 3 eexists. }
    destruct (raise_sigsegv t1 Hok1) as (t2 & -> & Hok2 & Hreg & Hload2). bstep.
    rewrite sigsegv_value in Hse. rewrite (proj2 (Z.eqb_neq _ _) Hse) in Hload.
    unfold t1 in Hload2. cbn [signal_state set_pending set_signal_state pending] in Hload2.
    apply IH; [done|by rewrite Hreg|lia].
  - destruct (default_action sig); [|by apply IH|by do 3 eexists|by apply IH].
    rewrite Hsd by lia. bstep. by do 3 eexists.
Qed.

(** [deliver_signal] terminates. Whatever signals are pending, whatever the
    handlers are, and even if every write to the user stack fails, its loop ends
    with a result, provided the user's stack pointer leaves room for a frame. *)
Theorem deliver_signal_terminates m t : thread_ok t → 528 ≤ reg (register_state t) reg_sp →
  ∃ r t' m', deliver_signal m t = Ret (Some (r, t', m')).
Proof.
  intros Hok Hsp. apply deliver_signal_fuel_returns; [done|done|].
  pose proof (load_bound (pending (signal_state t))). lia.
Qed.
End theorems.

Section signals.
Context `{SH : SigHeaders} `{SO : !SigHeadersOk SH} {M : Type} `{UM : UserMemory M}.

(** ** Raising *)
Lemma clear_pending_Ret t sig : 1 ≤ sig ≤ 31 →
  clear_pending t sig = Ret (set_pending t (Z.land (pending (signal_state t)) (bitnot 64 (2 ^ sig)))).
Proof. intros. unfold clear_pending. by rewrite pending_clear_Ret by done. Qed.

(** The signals [raise_signal] cancels: SIGCONT cancels the stop signals and
    they cancel it. *)
Definition cancels (sig j : Z) : bool :=
  match default_action sig with
  | Continue => existsb (Z.eqb j) [19; 20; 21; 22]
  | Stop => j =? 18
  | _ => false
  end.

(** Whether the signal becomes pending: SIGKILL and SIGSTOP always do, an
    ignored one never does. *)
Definition accepted (t : Thread) (sig : Z) : bool :=
  if (sig =? 9) || (sig =? 19) then true
  else
    match sigactions (signal_state t) !! Z.to_nat sig with
    | Some a =>
        match sa_handler a with
        | None => negb (bool_decide (default_action sig = Ignore))
        | Some f => negb (f =? 1)
        end
    | None => false
    end.

Lemma cancel_step t sig : thread_ok t → 1 ≤ sig ≤ 31 →
  ∃ p, match default_action sig with
       | Continue => clear_pending_stop_signals t
       | Stop => clear_pending t SIGCONT
       | _ => Ret t
       end = Ret (set_pending t p) ∧ pending_ok p ∧
    ∀ j, Z.testbit p j = Z.testbit (pending (signal_state t)) j && negb (cancels sig j).
Proof.
  intros [Hp Ha] Hs. unfold cancels.
  assert (set_pending t (pending (signal_state t)) = t) as Hid by (by destruct t as [????????? []]).
  destruct (default_action sig).
  - exists (pending (signal_state t)). rewrite Hid. split; [done|]. split; [done|].
    intros j. by rewrite andb_true_r.
  - exists (pending (signal_state t)). rewrite Hid. split; [done|]. split; [done|].
    intros j. by rewrite andb_true_r.
  - assert (SIGCONT = 18) as -> by by sig_numbers. rewrite clear_pending_Ret by lia.
    eexists. split; [done|]. split; [apply pending_clear_ok; [done|lia]|].
    intros j. rewrite pending_clear_bits by (apply Hp || lia). f_equal.
    destruct (Z.eqb_spec j 18); [by rewrite bool_decide_false by auto|by rewrite bool_decide_true].
  - assert ([SIGSTOP; SIGTSTP; SIGTTIN; SIGTTOU] = [19; 20; 21; 22]) as E by by sig_numbers.
    unfold clear_pending_stop_signals. rewrite E. cbn [foldM].
    do 4 (rewrite clear_pending_Ret by lia; bstep).
    cbn [set_pending set_signal_state signal_state pending sigaltstack sigmask sigactions].
    eexists. split; [done|]. split; [by repeat (apply pending_clear_ok; [|lia])|].
    intros j. rewrite !pending_clear_bits by (repeat apply in_width_land; apply Hp || lia).
    simpl. rewrite orb_false_r. rewrite <-!andb_assoc. f_equal.
    repeat match goal with |- context [j =? ?k] => destruct (Z.eqb_spec j k) end; subst; try done.
    all: rewrite !bool_decide_true by done; done.
Qed.

(** [raise_signal] does what POSIX asks: for the signals 1 to 31 it returns,
    SIGCONT cancels pending stop signals and the stop signals cancel a pending
    SIGCONT, an ignored signal is dropped unless it is SIGKILL or SIGSTOP, every
    other signal becomes pending, and nothing else of the thread changes. *)
Theorem raise_signal_spec t sig : thread_ok t → 1 ≤ sig ≤ 31 →
  ∃ p, raise_signal t sig = Ret (set_pending t p) ∧ pending_ok p ∧
    ∀ j, Z.testbit p j =
      (Z.testbit (pending (signal_state t)) j && negb (cancels sig j)) ||
      (bool_decide (j = sig) && accepted t sig).
Proof.
  intros Hok Hs. pose proof Hok as [_ Ha]. unfold raise_signal.
  rewrite (proj2 (sig_in_range_spec sig)) by done. bstep.
  destruct (cancel_step t sig Hok Hs) as (p & -> & Hp & Hbits). bstep.
  assert (SIGKILL = 9) as -> by by sig_numbers. assert (SIGSTOP = 19) as -> by by sig_numbers.
  assert (∀ x, set_pending (set_pending t p) x = set_pending t x) as Hsp by done.
  assert (∃ q, raise_pending (set_pending t p) sig = Ret (set_pending t q) ∧ pending_ok q ∧
    ∀ j, Z.testbit q j = Z.testbit p j || bool_decide (j = sig)) as (q & Hraise & Hq & Hqb).
  { unfold raise_pending. rewrite pending_raise_Ret by done. bstep. eexists. split; [done|].
    split; [by apply pending_raise_ok|]. intros j. cbn [set_pending set_signal_state signal_state pending].
    by rewrite pending_raise_bits by lia. }
  assert (∃ r, raise_pending (set_pending t p) sig = Ret (set_pending t r) ∧ pending_ok r ∧
    ∀ j, Z.testbit r j = (Z.testbit (pending (signal_state t)) j && negb (cancels sig j)) ||
      (bool_decide (j = sig) && true)) as Hyes.
  { exists q. split; [done|]. split; [done|]. intros j. by rewrite Hqb, Hbits, andb_true_r. }
  assert (∃ r, Ret (set_pending t p) = Ret (set_pending t r) ∧ pending_ok r ∧
    ∀ j, Z.testbit r j = (Z.testbit (pending (signal_state t)) j && negb (cancels sig j)) ||
      (bool_decide (j = sig) && false)) as Hno.
  { exists p. split; [done|]. split; [done|]. intros j. by rewrite Hbits, andb_false_r, orb_false_r. }
  unfold accepted. destruct ((sig =? 9) || (sig =? 19)); [exact Hyes|].
  destruct (get_sigaction_raw_Ret t sig Hok ltac:(lia)) as [a Hga].
  assert (get_sigaction_raw (set_pending t p) sig = Ret a) as -> by exact Hga. bstep.
  unfold get_sigaction_raw in Hga. apply expect_Ret in Hga. rewrite Hga.
  destruct (sa_handler a) as [f|].
  - destruct (f =? 1); [exact Hno|exact Hyes].
  - destruct (default_action sig); [exact Hyes|exact Hno|exact Hyes|exact Hyes].
Qed.

(** a signal number that [kill] accepts panics the kernel: [validate_signal]
    lets 32 to 63 through, [raise_signal] asserts at most 31. *)
Theorem realtime_signal_panics t sig : 32 ≤ sig < 64 →
  validate_signal sig = Okay (Some sig) ∧ raise_signal t sig = Panic.
Proof.
  intros Hs. split.
  - unfold validate_signal. rewrite nsig_value.
    rewrite (proj2 (Z.ltb_ge sig 0)), (proj2 (Z.leb_gt 64 sig)), (proj2 (Z.eqb_neq sig 0)) by lia. done.
  - unfold raise_signal. destruct (sig_in_range sig) eqn:E; [|done].
    apply sig_in_range_spec in E. lia.
Qed.

(** SIGKILL can be blocked. A thread that blocks all signals with
    [rt_sigprocmask] keeps a raised SIGKILL pending but not deliverable: it is not
    woken for it, and [deliver_signal] lets it continue. *)
Theorem sigkill_can_be_blocked m t t1 old : thread_ok t →
  do_rt_sigprocmask t SIG_SETMASK (Some (2 ^ 64 - 1)) 8 = Okay (old, t1) →
  ∃ t2, raise_signal t1 SIGKILL = Ret t2 ∧
    Z.testbit (pending (signal_state t2)) 9 = true ∧
    has_pending_unblocked_signal t2 = false ∧
    deliver_signal m t2 = Ret (Some (DeliveryContinue, t2, m)).
Proof.
  intros Hok. unfold do_rt_sigprocmask. destruct how_values as (-> & -> & ->).
  intros H. cbn [Z.eqb Pos.eqb negb] in H. injection H as _ <-.
  set (t1 := set_sigmask t _). assert (SIGKILL = 9) as -> by by sig_numbers.
  unfold raise_signal. change (sig_in_range 9) with true. bstep.
  destruct (cancel_step t1 9) as (p & -> & Hp & _); [exact Hok|lia|]. bstep.
  assert (SIGKILL = 9) as -> by by sig_numbers. cbn [Z.eqb orb Pos.eqb].
  unfold raise_pending. rewrite pending_raise_Ret by lia. bstep. eexists. split; [reflexivity|].
  split; [cbn [signal_state set_pending set_signal_state pending];
    by rewrite pending_raise_bits, bool_decide_true, orb_true_r by lia|].
  match goal with |- has_pending_unblocked_signal ?x = _ ∧ _ => set (t2 := x) end.
  assert (peek_first_unblocked_signal t2 = None) as Hpk.
  { unfold peek_first_unblocked_signal. apply first_matching_None. intros j.
    assert (sigmask (signal_state t2) = Z.ones 64) as -> by done.
    unfold bitnot. by rewrite Z.ldiff_diag, Z.testbit_0_l, andb_false_r. }
  split; [unfold has_pending_unblocked_signal; by rewrite Hpk|].
  unfold deliver_signal. assert (∃ n, 64%nat = S n) as [n ->] by by exists 63%nat.
  cbn [deliver_signal_fuel]. unfold take_next_pending_signal. by rewrite Hpk.
Qed.

(** a user stack pointer below 528 panics the kernel when a handled signal is
    delivered: the frame's address underflows. *)
Theorem low_stack_pointer_panics m t sig a f : thread_ok t →
  peek_first_unblocked_signal t = Some sig → get_sigaction_raw t sig = Ret a →
  sa_handler a = Some f → f ≠ 1 → reg (register_state t) reg_sp < 528 →
  deliver_signal m t = Panic.
Proof.
  intros Hok Hpk Ha Hf Hf1 Hsp. unfold deliver_signal.
  assert (∃ n, 64%nat = S n) as [n ->] by by exists 63%nat. cbn [deliver_signal_fuel].
  destruct (take_next_pending_signal_spec t Hok) as [[_ Hn]|(sig' & Hs & _ & -> & _)]; [congruence|].
  bstep. assert (sig' = sig) as -> by congruence.
  assert (get_sigaction_raw (set_pending t _) sig = Ret a) as -> by exact Ha. bstep.
  rewrite Hf, (proj2 (Z.eqb_neq _ _) Hf1). unfold setup_signal_frame, sub, checked_sub, SIGNAL_FRAME_SIZE.
  cbn [register_state set_pending set_signal_state]. by rewrite (proj2 (Z.leb_gt 528 _)) by lia.
Qed.
End signals.

(** ** Witnesses: a flat user memory and a thread with a handler *)
#[local] Instance wit_signals : SigHeaders := linux_signals.
#[local] Instance wit_signals_ok : SigHeadersOk wit_signals := linux_signals_ok.

(** Memory as a function; addresses below 4096 are not mapped. *)
Definition flat_memory := Z → Z.

#[local] Instance flat_ops : UserMemory flat_memory := {|
  write_userspace_slice := λ m a d,
    if a <? 4096 then Ret (Err EFAULT)
    else Ret (Okay (λ x, if (a <=? x) && (x <? a + Z.of_nat (length d))
                         then nth (Z.to_nat (x - a)) d 0 else m x));
  read_userspace_slice := λ m a n,
    if a <? 4096 then Ret (Err EFAULT)
    else Ret (Okay ((λ i, m (a + Z.of_nat i)) <$> seq 0 n)) |}.

#[local] Instance flat_laws : UserMemoryLaws flat_memory.
Proof.
  split. intros m a d m' _. simpl. destruct (a <? 4096); [done|]. intros [= <-]. do 2 f_equal.
  apply list_eq. intros i. rewrite list_lookup_fmap.
  destruct (decide (i < length d)%nat) as [Hi|Hi].
  - rewrite lookup_seq_lt by done. simpl.
    rewrite (proj2 (Z.leb_le _ _)), (proj2 (Z.ltb_lt _ _)) by lia. simpl.
    replace (a + Z.of_nat i - a) with (Z.of_nat i) by lia. rewrite Nat2Z.id.
    destruct (lookup_lt_is_Some_2 d i Hi) as [x Hx]. rewrite Hx. f_equal. by apply nth_lookup_Some.
  - rewrite lookup_seq_ge by lia. simpl. symmetry. apply lookup_ge_None. lia.
Qed.

Definition sig_thread : Thread :=
  set_sigactions
    (thread_new 5 (Frame (<[2%nat := 100000]> (replicate 32 7)) (replicate 32 9)) 4096 false 0 1)
    (<[10%nat := SigAction (Some 8192) 0 0]> (replicate 64 sigaction_default)).

Lemma sig_thread_ok : thread_ok sig_thread ∧ thread_regs_ok sig_thread.
Proof.
  split; [split; [apply pending_new_ok|reflexivity]|]. split; [reflexivity|]. split; [reflexivity|].
  assert (∀ n x, in_width 64 x → Forall (in_width 64) (replicate n x)) as Hr
    by (intros; by apply Forall_replicate).
  assert (∀ x, 0 ≤ x ≤ 100000 → in_width 64 x) as Hw by (intros; split; lia).
  split; [apply Forall_insert; [apply Hr|]; apply Hw; lia|].
  split; [apply Hr, Hw; lia|]. split; apply Hw; simpl; lia.
Qed.

Lemma wit_setup : ∃ t' m',
  setup_signal_frame (λ _, 0) sig_thread 10 8192 (SigAction (Some 8192) 0 0) = Ret (true, t', m').
Proof.
  unfold setup_signal_frame. change (reg (register_state sig_thread) reg_sp) with 100000.
  unfold SIGNAL_FRAME_SIZE. rewrite (proj2 (sub_Ret 100000 528 99472)) by lia. bstep.
  cbn [write_userspace_slice flat_ops]. change (Z.land 99472 (bitnot 64 15) <? 4096) with false. bstep.
  rewrite shl_bit by lia. bstep. do 2 eexists. reflexivity.
Qed.


Lemma deliver_signal_terminates_witness : ∃ r t' m',
  deliver_signal (λ _, 0) sig_thread = Ret (Some (r, t', m')).
Proof.
  apply (deliver_signal_terminates (M:=flat_memory)); [|apply sig_thread_ok|by vm_compute].
  intros m a d. simpl. destruct (a <? 4096); by eexists.
Defined.

Lemma raise_signal_spec_witness : ∃ p, raise_signal sig_thread 10 = Ret (set_pending sig_thread p) ∧
  Z.testbit p 10 = true.
Proof.
  destruct (raise_signal_spec sig_thread 10) as (p & H & _ & Hb); [apply sig_thread_ok|lia|].
  exists p. split; [exact H|]. rewrite Hb. by vm_compute.
Defined.

Lemma realtime_signal_panics_witness : raise_signal sig_thread 40 = Panic.
Proof. apply realtime_signal_panics. lia. Defined.

Lemma sigkill_can_be_blocked_witness : ∃ t1 t2,
  raise_signal t1 9 = Ret t2 ∧ has_pending_unblocked_signal t2 = false.
Proof.
  destruct (sigkill_can_be_blocked (M:=flat_memory) (λ _, 0) sig_thread
    (set_sigmask sig_thread (2 ^ 64 - 1)) 0) as (t2 & H1 & _ & H2 & _);
    [apply sig_thread_ok|reflexivity|].
  eexists _, t2. split; [exact H1|exact H2].
Defined.

Lemma low_stack_pointer_panics_witness :
  deliver_signal (λ _, 0) (set_pending (set_register_state sig_thread frame_zero) (2 ^ 10)) = Panic.
Proof.
  apply (low_stack_pointer_panics (M:=flat_memory) (λ _, 0) _ 10 (SigAction (Some 8192) 0 0) 8192);
    [split; [|done]|by vm_compute..].
  split; [by vm_compute|]. intros i. cbn [pending signal_state set_pending set_signal_state].
  rewrite Z.pow2_bits_eqb by lia. intros ?%Z.eqb_eq. lia.
Defined.

(** The kernel keeps signal [n] at bit [n] of a set, user space (as on Linux) at bit
    [n - 1]. A thread that blocks SIGUSR1 (10) with the set of user space is still
    interrupted by it, and no longer by SIGKILL (9). *)
Lemma blocked_signal_off_by_one :
  match do_rt_sigprocmask sig_thread SIG_SETMASK (Some (2 ^ (SIGUSR1 - 1))) 8 with
  | inr (_, t) => has_pending_unblocked_signal <$> raise_signal t SIGUSR1 = Ret true ∧
                  has_pending_unblocked_signal <$> raise_signal t SIGKILL = Ret false
  | inl _ => False
  end.
Proof. split; by vm_compute. Qed.
