(* ===== verification/ThreadWait.v ===== *)
(** How threads go to sleep and are woken: the protocols between a system call
    that blocks ([Thread::set_syscall_task_and_suspend], [ThreadWaker],
    [CpuScheduler::prepare_next_process]) or the kernel worker
    ([kernel_worker_entry], the software interrupt of
    crates/kernel/src/interrupts/trap.rs) and whoever wakes them. The thread is
    the record of [Thread]; every step is what one lock or one processor without
    interruption does. *)
From S2P Require Import Prelude Headers Signal Thread.

(** ** A system call that waits for an event *)
(** Where the thread's processor is. *)
Inductive CallPc :=
  | Polling       (* about to poll the task *)
  | Suspending    (* the poll was pending, the thread is about to suspend *)
  | OffCpu        (* not on a processor *)
  | Returned.

Record CallState := {
  c_thread : Thread;
  c_pc : CallPc;
  c_event : bool;         (* what the future waits for has happened *)
  c_registered : bool;    (* the event source holds the thread's waker *)
  c_queue : nat;          (* entries of the thread in RUN_QUEUE *)
}.

Inductive call_event :=
  | PollTask        (* the future's poll, under the event source's lock *)
  | SuspendTask     (* set_syscall_task_and_suspend *)
  | Fire            (* the event happens; its source wakes who is registered *)
  | SpuriousWake    (* the waker is called for another reason *)
  | PickNext (cpu : Z).  (* prepare_next_process pops the thread's entry *)

Section call.
Context `{SH : SigHeaders}.

Definition with_thread (s : CallState) (t : Thread) (pc : CallPc) (q : nat) : CallState := {|
  c_thread := t; c_pc := pc; c_event := c_event s; c_registered := c_registered s; c_queue := q |}.

(** [ThreadWaker::wake] *)
Definition thread_wake (s : CallState) : CallState :=
  let '(t, woke) := wake_up (c_thread s) in
  with_thread s t (c_pc s) (if woke : bool then S (c_queue s) else c_queue s).

Definition call_step (s : CallState) (ev : call_event) : outcome CallState :=
  match ev with
  | PollTask =>
      match c_pc s with
      | Polling =>
          if c_event s then
            Ret (with_thread s (clear_wakeup_pending (c_thread s)) Returned (c_queue s))
          else Ret {| c_thread := c_thread s; c_pc := Suspending; c_event := false;
                      c_registered := true; c_queue := c_queue s |}
      | _ => Ret s
      end
  | SuspendTask =>
      match c_pc s with
      | Suspending =>
          '(t, should_enqueue) ← set_syscall_task_and_suspend (c_thread s) 0;
          Ret (with_thread s t OffCpu (if should_enqueue : bool then S (c_queue s) else c_queue s))
      | _ => Ret s
      end
  | Fire =>
      let s' := {| c_thread := c_thread s; c_pc := c_pc s; c_event := true;
                   c_registered := false; c_queue := c_queue s |} in
      if c_registered s then Ret (thread_wake s') else Ret s'
  | SpuriousWake => Ret (thread_wake s)
  | PickNext cpu =>
      match c_queue s, c_pc s with
      | S q, OffCpu =>
          if bool_decide (state (c_thread s) = Runnable) then
            let t := (take_syscall_task (set_state (c_thread s) (Running cpu))).2 in
            Ret (with_thread s t Polling q)
          else Ret (with_thread s (c_thread s) OffCpu q)
      | S q, _ => Ret (with_thread s (c_thread s) (c_pc s) q)   (* a stale entry *)
      | O, _ => Ret s
      end
  end.

(** The thread runs its system call. *)
Definition call_start (t : Thread) (cpu : Z) : CallState := {|
  c_thread := set_wakeup_pending (set_syscall_task (set_state t (Running cpu)) None) false;
  c_pc := Polling; c_event := false; c_registered := false; c_queue := 0 |}.

(** What holds of a thread in a blocking call. *)
Record call_ok (s : CallState) : Prop := {
  co_running : c_pc s = Polling ∨ c_pc s = Suspending →
    (∃ cpu, state (c_thread s) = Running cpu) ∧ syscall_task (c_thread s) = None;
  co_off : c_pc s = OffCpu →
    state (c_thread s) = Waiting ∨ state (c_thread s) = Runnable ∧ (0 < c_queue s)%nat;
  co_event : c_event s = true →
    match c_pc s with
    | Polling | Returned => True
    | Suspending => wakeup_pending (c_thread s) = true
    | OffCpu => state (c_thread s) = Runnable
    end;
  co_registered : c_event s = false →
    match c_pc s with
    | Polling | Returned => True
    | Suspending => c_registered s = true
    | OffCpu => c_registered s = true
    end;
}.

Lemma call_start_ok t cpu : call_ok (call_start t cpu).
Proof. split; simpl; try done. intros _. split; [by eexists|done]. Qed.

Ltac call_cases :=
  split; simpl in *; try done; intros;
  repeat match goal with
  | H : ?P → _, H' : ?P |- _ => specialize (H H')
  | H : Polling = Polling ∨ _ → _ |- _ => specialize (H (or_introl eq_refl))
  | H : _ ∨ Suspending = Suspending → _ |- _ => specialize (H (or_intror eq_refl))
  | H : ?x = ?x → _ |- _ => specialize (H eq_refl)
  end; destruct_and?; destruct_or?; destruct_and?;
  repeat match goal with H : ∃ _, _ |- _ => destruct H end; simplify_eq/=; eauto with lia.

Lemma thread_wake_ok s : call_ok s → call_ok (thread_wake s).
Proof.
  intros [Hr Ho He Hg]. unfold thread_wake, wake_up. destruct s as [t pc e g q]. simpl in *.
  destruct (state t) eqn:Hst; destruct pc; simpl in *; call_cases.
Qed.

Lemma call_step_ok s ev s' : call_ok s → call_step s ev = Ret s' → call_ok s'.
Proof.
  intros Hok. destruct ev as [| | | |cpu]; cbn [call_step].
  - destruct Hok as [Hr Ho He Hg]. destruct s as [t pc e g q]. simpl in *.
    destruct pc; try (intros [= <-]; by split).
    destruct e; intros [= <-]; call_cases.
  - destruct Hok as [Hr Ho He Hg]. destruct s as [t pc e g q]. simpl in *.
    destruct pc; try (intros [= <-]; by split).
    destruct (Hr (or_intror eq_refl)) as [[cpu Hst] Htask]. unfold set_syscall_task_and_suspend.
    rewrite Htask, bool_decide_true, Hst by done. bstep. cbn [is_zombie].
    cbn [wakeup_pending set_syscall_task]. destruct (wakeup_pending t) eqn:Hw.
    { intros [= <-]. call_cases. }
    destruct (_ || _); [intros [= <-]; call_cases|].
    unfold suspend. cbn [state set_syscall_task]. rewrite Hst. intros [= <-].
    destruct e; [by specialize (He eq_refl)|]. call_cases.
  - destruct Hok as [Hr Ho He Hg]. destruct s as [t pc e g q]. simpl in *.
    destruct g; intros [= <-].
    + unfold thread_wake, wake_up. simpl. destruct (state t) eqn:Hst; destruct pc; simpl in *; call_cases.
    + destruct e, pc; simpl in *; call_cases.
  - intros [= <-]. by apply thread_wake_ok.
  - destruct Hok as [Hr Ho He Hg]. destruct s as [t pc e g [|q]]; simpl in *.
    { destruct pc; intros [= <-]; by split. }
    destruct pc; try (intros [= <-]; call_cases; fail).
    case_bool_decide as Hst; intros [= <-]; [call_cases|].
    destruct (Ho eq_refl) as [Hw|[? _]]; [|done]. rewrite Hw in *. call_cases.
Qed.

Lemma call_run_ok t cpu evs s : foldM call_step evs (call_start t cpu) = Ret s → call_ok s.
Proof.
  apply (foldM_inv call_step (λ _, call_ok)); [apply call_start_ok|].
  intros ? ? ? ? ? _ H1 H2. by eapply call_step_ok.
Qed.

End call.

#[local] Instance tw_signals : SigHeaders := linux_signals.


(** ** The kernel worker *)
(** [kernel_worker_entry] between its steps: polling the ready tasks, after it
    found none ready, and with the sleep requested (the software interrupt it
    raises is taken at once). *)
Inductive WorkerPc := WorkPolling | WorkIdleSeen.

Record WorkerState := {
  w_thread : Thread;
  w_pc : WorkerPc;
  w_ready : nat;         (* the length of READY_IDS *)
  w_waking : nat;        (* wakers that pushed their id and not yet woke the worker *)
  w_queue : nat;         (* entries of the worker in RUN_QUEUE *)
}.

Inductive worker_event :=
  | WorkerStep           (* the worker's next step, when it runs *)
  | PushReady            (* KernelTaskWaker::wake, the push to READY_IDS *)
  | WakeWorker           (* wake_worker_thread of such a waker *)
  | Preempt              (* the timer interrupt on the worker's processor *)
  | PickWorker (cpu : Z).

Definition is_running (st : ThreadState) : bool :=
  match st with Running _ => true | _ => false end.

Section worker.
Context `{SH : SigHeaders}.

Definition with_worker (s : WorkerState) (t : Thread) (pc : WorkerPc) (q : nat) : WorkerState := {|
  w_thread := t; w_pc := pc; w_ready := w_ready s; w_waking := w_waking s; w_queue := q |}.

(** [schedule] takes the running thread off the processor. *)
Definition queue_back (t : Thread) (q : nat) : Thread * nat :=
  match state t with
  | Running _ => (set_state t Runnable, S q)
  | _ => (t, q)
  end.

(** [wake_worker_thread] *)
Definition wake_worker_thread (s : WorkerState) : WorkerState :=
  let '(t, woke) := wake_up (w_thread s) in
  with_worker s t (w_pc s) (if woke : bool then S (w_queue s) else w_queue s).

(** [kernel_worker_entry]: one step polls until [READY_IDS] is found empty, the
    other is the software interrupt of the sleep request. *)
Definition kernel_worker_step (s : WorkerState) : outcome WorkerState :=
  match w_pc s with
  | WorkPolling =>
      Ret {| w_thread := w_thread s; w_pc := WorkIdleSeen; w_ready := 0;
             w_waking := w_waking s; w_queue := w_queue s |}
  | WorkIdleSeen =>
      t ← suspend_unless_wakeup_pending (w_thread s);
      let '(t, q) := queue_back t (w_queue s) in
      Ret (with_worker s t WorkPolling q)
  end.

Definition worker_step (s : WorkerState) (ev : worker_event) : outcome WorkerState :=
  match ev with
  | WorkerStep => if is_running (state (w_thread s)) then kernel_worker_step s else Ret s
  | PushReady =>
      Ret {| w_thread := w_thread s; w_pc := w_pc s; w_ready := S (w_ready s);
             w_waking := S (w_waking s); w_queue := w_queue s |}
  | WakeWorker =>
      match w_waking s with
      | O => Ret s
      | S n => Ret (wake_worker_thread {| w_thread := w_thread s; w_pc := w_pc s;
                 w_ready := w_ready s; w_waking := n; w_queue := w_queue s |})
      end
  | Preempt =>
      let '(t, q) := queue_back (w_thread s) (w_queue s) in
      Ret (with_worker s t (w_pc s) q)
  | PickWorker cpu =>
      match w_queue s with
      | O => Ret s
      | S q =>
          if bool_decide (state (w_thread s) = Runnable) then
            Ret (with_worker s (set_state (w_thread s) (Running cpu)) (w_pc s) q)
          else Ret (with_worker s (w_thread s) (w_pc s) q)
      end
  end.

Definition worker_start (t : Thread) (cpu : Z) : WorkerState := {|
  w_thread := set_wakeup_pending (set_state t (Running cpu)) false; w_pc := WorkPolling;
  w_ready := 0; w_waking := 0; w_queue := 0 |}.

(** the kernel worker can sleep through a wake-up. If it is preempted after
    it found no ready task, a task woken while it waits in the run queue leaves no
    trace on its thread ([wake_up] does nothing to a runnable thread): when the
    worker runs on, it goes to sleep with the task ready and nobody left to wake it. *)
Theorem worker_wakeup_lost t cpu cpu' : ∃ s,
  foldM worker_step [WorkerStep; Preempt; PushReady; WakeWorker; PickWorker cpu'; WorkerStep]
    (worker_start t cpu) = Ret s ∧
  state (w_thread s) = Waiting ∧ w_ready s = 1%nat ∧ w_waking s = 0%nat ∧
  wakeup_pending (w_thread s) = false ∧ w_queue s = 0%nat.
Proof. eexists. split; [reflexivity|]. by split_and!. Qed.

(** The same system, with interrupts masked between the check of [READY_IDS] and
    the sleep request. *)
Definition masked_worker_step (s : WorkerState) (ev : worker_event) : outcome WorkerState :=
  match ev, w_pc s with
  | Preempt, WorkIdleSeen => Ret s
  | _, _ => worker_step s ev
  end.

(** What then holds of the worker. *)
Record worker_ok (s : WorkerState) : Prop := {
  wo_pc : ¬ is_running (state (w_thread s)) → w_pc s = WorkPolling;
  wo_state : state (w_thread s) = Waiting ∨
             state (w_thread s) = Runnable ∧ (0 < w_queue s)%nat ∨
             ∃ cpu, state (w_thread s) = Running cpu;
  wo_ready : (0 < w_ready s)%nat → (0 < w_waking s)%nat ∨
             state (w_thread s) ≠ Waiting ∧
             (w_pc s = WorkPolling ∨ wakeup_pending (w_thread s) = true);
}.

Lemma kernel_worker_step_ok s s' : worker_ok s → is_running (state (w_thread s)) →
  kernel_worker_step s = Ret s' → worker_ok s'.
Proof.
  intros [Hp Hs Hr] Hrun. destruct s as [t pc r w q]. simpl in *. unfold kernel_worker_step. simpl.
  destruct (state t) eqn:Hst; try done. destruct pc.
  { intros [= <-]. split; simpl; rewrite ?Hst; eauto; try done. lia. }
  unfold suspend_unless_wakeup_pending, suspend. destruct (wakeup_pending t) eqn:Hw; bstep.
  - unfold queue_back. simpl. rewrite Hst. intros [= <-].
    split; simpl; [done|right; left; split; [done|lia]|]. intros _. right. auto.
  - rewrite Hst. bstep. simpl. intros [= <-]. split; simpl; [done|auto|].
    intros H. destruct (Hr H) as [?|[_ [?|?]]]; [by left|done..].
Qed.

(** Waking the worker settles the wake-ups, whatever was pending. *)
Lemma wake_worker_ok s : (¬ is_running (state (w_thread s)) → w_pc s = WorkPolling) →
  (state (w_thread s) = Waiting ∨ state (w_thread s) = Runnable ∧ (0 < w_queue s)%nat ∨
     ∃ cpu, state (w_thread s) = Running cpu) →
  worker_ok (wake_worker_thread s).
Proof.
  intros Hp Hs. destruct s as [t pc r w q]. unfold wake_worker_thread, wake_up. simpl in *.
  destruct (state t) eqn:Hst; simpl; try (destruct Hs as [?|[[? ?]|[? ?]]]; done);
    split; simpl; rewrite ?Hst; eauto with lia; try done; intros _; right; auto.
Qed.

Lemma masked_worker_step_ok s ev s' : worker_ok s → masked_worker_step s ev = Ret s' → worker_ok s'.
Proof.
  intros Hok. pose proof Hok as [Hp Hs Hr].
  destruct ev as [| | | |cpu]; cbn [masked_worker_step worker_step w_pc w_thread w_waking w_queue].
  - destruct (is_running _) eqn:Hrun; [|destruct (w_pc s); by intros [= <-]].
    intros H. eapply kernel_worker_step_ok; [done|by rewrite Hrun|by destruct (w_pc s)].
  - assert (worker_ok {| w_thread := w_thread s; w_pc := w_pc s; w_ready := S (w_ready s);
      w_waking := S (w_waking s); w_queue := w_queue s |}) as ?.
    { split; simpl; [done..|]. left. lia. }
    destruct (w_pc s); by intros [= <-].
  - destruct (w_waking s) as [|n]; [destruct (w_pc s); by intros [= <-]|].
    pose proof (wake_worker_ok {| w_thread := w_thread s; w_pc := w_pc s;
      w_ready := w_ready s; w_waking := n; w_queue := w_queue s |} Hp Hs).
    destruct (w_pc s); by intros [= <-].
  - destruct (w_pc s) eqn:E; [|by intros [= <-]]. unfold queue_back.
    destruct (state (w_thread s)) eqn:Hst; intros [= <-]; split; simpl; rewrite ?Hst; eauto with lia.
    all: intros H; destruct (Hr H) as [?|[? _]]; auto.
  - destruct (w_queue s) as [|q]; [destruct (w_pc s); by intros [= <-]|].
    case_bool_decide as Hst.
    + destruct (w_pc s) eqn:E; intros [= <-]; [split; simpl; eauto|].
      rewrite Hst in Hp. by specialize (Hp ltac:(by intros [])).
    + assert (worker_ok (with_worker s (w_thread s) (w_pc s) q)) as ?.
      { split; simpl; [done| |done]. destruct Hs as [?|[[? _]|?]]; auto. done. }
      destruct (w_pc s); by intros [= <-].
Qed.

Lemma masked_worker_ok t cpu evs s :
  foldM masked_worker_step evs (worker_start t cpu) = Ret s → worker_ok s.
Proof.
  apply (foldM_inv masked_worker_step (λ _, worker_ok)).
  - split; simpl; [done|eauto|lia].
  - intros ? ? ? ? ? _ H1 H2. by eapply masked_worker_step_ok.
Qed.

(** without a preemption between the check and the sleep request the worker
    loses no wake-up: whenever a task is ready and no waker is still on its way, the
    worker runs, or it is runnable and in the run queue; and if it runs and is about
    to go to sleep, the wake-up is recorded on its thread and keeps it awake. *)
Theorem worker_wakeup_not_lost t cpu evs s :
  foldM masked_worker_step evs (worker_start t cpu) = Ret s →
  (0 < w_ready s)%nat → w_waking s = 0%nat →
  match state (w_thread s) with
  | Running _ => w_pc s = WorkIdleSeen → ∃ s', worker_step s WorkerStep = Ret s' ∧
      state (w_thread s') = Runnable ∧ (0 < w_queue s')%nat ∧ w_ready s' = w_ready s
  | Runnable => (0 < w_queue s)%nat
  | _ => False
  end.
Proof.
  intros Hrun Hr Hw. destruct (masked_worker_ok _ _ _ _ Hrun) as [_ Hs Hrd].
  destruct (Hrd Hr) as [?|[Hnw Hp]]; [lia|].
  destruct (state (w_thread s)) eqn:Hst; try (destruct Hs as [?|[[? ?]|[? ?]]]; done).
  intros Hpc. destruct Hp as [?|Hp]; [congruence|].
  unfold worker_step, kernel_worker_step, suspend_unless_wakeup_pending, queue_back.
  rewrite Hst, Hpc, Hp. simpl. rewrite Hst. eexists. split; [done|]. split_and!; [done|simpl; lia|done].
Qed.
End worker.

Lemma worker_wakeup_not_lost_witness : ∃ s,
  foldM masked_worker_step [WorkerStep; Preempt; PushReady; WakeWorker]
    (worker_start (thread_new 5 frame_zero 0 false 0 1) 0) = Ret s ∧
  ∃ s', worker_step s WorkerStep = Ret s' ∧ state (w_thread s') = Runnable.
Proof.
  eexists. split; [reflexivity|].
  match goal with |- ∃ s', worker_step ?s _ = _ ∧ _ =>
    destruct (worker_wakeup_not_lost (thread_new 5 frame_zero 0 false 0 1) 0
      [WorkerStep; Preempt; PushReady; WakeWorker] s eq_refl ltac:(simpl; lia) eq_refl eq_refl)
      as (s' & H1 & H2 & _)
  end.
  by exists s'.
Defined.
