(* ===== verification/ProcessTable.v ===== *)
(** The process table: crates/kernel/src/processes/process_table.rs, with the
    thread sets and ids of crates/kernel/src/processes/process.rs and the future
    of crates/kernel/src/processes/wait_child.rs.

    Threads are kept by id; [RUN_QUEUE] and the wakers hold ids, and the id of a
    thread that has left the table stands for a reference to a zombie. Processes
    are objects behind handles. What killing a thread does outside the table
    (clearing a word of user memory, waking a futex, closing descriptors,
    interrupting the other processors) is recorded in [effects]. *)
From stdpp Require Import sorting.
From S2P Require Import Prelude Headers Signal Thread.

Definition POWERSAVE_TID : Z := 0.
Definition INIT_TID : Z := 1.

(** ** State *)
Record Process := MkProcess { p_threads : list Z; main_tid : Z; pgid : Z; sid : Z }.

Inductive WaitPid := Specific (wanted : Z) | AnyChild | PgidOf (g : Z).

Inductive effect :=
  | ClearTid (tid addr : Z)
  | FutexWake (main addr : Z)
  | CloseFds (p : nat)
  | Ipi.

Record ProcessTable := MkTable {
  threads : gmap Z Thread;
  children : gmap Z (list Z);
  wait_wakers : list Z;
  run_queue : list Z;
  live_count : Z;
  procs : gmap nat Process;
  effects : list effect;
}.

Definition set_threads (pt : ProcessTable) v := MkTable v (children pt) (wait_wakers pt)
  (run_queue pt) (live_count pt) (procs pt) (effects pt).
Definition set_children (pt : ProcessTable) v := MkTable (threads pt) v (wait_wakers pt)
  (run_queue pt) (live_count pt) (procs pt) (effects pt).
Definition set_wait_wakers (pt : ProcessTable) v := MkTable (threads pt) (children pt) v
  (run_queue pt) (live_count pt) (procs pt) (effects pt).
Definition set_run_queue (pt : ProcessTable) v := MkTable (threads pt) (children pt) (wait_wakers pt)
  v (live_count pt) (procs pt) (effects pt).
Definition set_live_count (pt : ProcessTable) v := MkTable (threads pt) (children pt) (wait_wakers pt)
  (run_queue pt) v (procs pt) (effects pt).
Definition set_procs (pt : ProcessTable) v := MkTable (threads pt) (children pt) (wait_wakers pt)
  (run_queue pt) (live_count pt) v (effects pt).
Definition add_effects (pt : ProcessTable) l := MkTable (threads pt) (children pt) (wait_wakers pt)
  (run_queue pt) (live_count pt) (procs pt) (effects pt ++ l).

Definition put_thread (pt : ProcessTable) (i : Z) (t : Thread) : ProcessTable :=
  set_threads pt (<[i := t]> (threads pt)).
Definition enqueue (pt : ProcessTable) (i : Z) : ProcessTable :=
  set_run_queue pt (run_queue pt ++ [i]).

(** [BTreeMap::keys]: ascending. *)
Definition sorted_keys {A} (m : gmap Z A) : list Z := merge_sort Z.le (elements (dom m)).

Definition table_new : ProcessTable := MkTable ∅ ∅ [] [] 0 ∅ [].

Definition is_empty (pt : ProcessTable) : bool := live_count pt =? 0.

(** ** Processes *)
Definition process_new (main g s : Z) : Process := MkProcess [] main g s.

(** [Process::add_thread]: a sorted map of threads, here its keys. *)
Definition add_thread_tid (p : Process) (i : Z) : outcome Process :=
  rassert (negb (bool_decide (i ∈ p_threads p)));;
  Ret (MkProcess (merge_sort Z.le (i :: p_threads p)) (main_tid p) (pgid p) (sid p)).

Definition remove_thread (p : Process) (i : Z) : Process :=
  MkProcess (filter (λ j, j ≠ i) (p_threads p)) (main_tid p) (pgid p) (sid p).

Definition has_no_threads (p : Process) : bool := bool_decide (p_threads p = []).

Definition set_pgid (p : Process) (g : Z) : Process := MkProcess (p_threads p) (main_tid p) g (sid p).
Definition set_sid (p : Process) (s : Z) : Process := MkProcess (p_threads p) (main_tid p) (pgid p) s.

(** [t.process().lock()]: a thread's reference keeps its process alive. *)
Definition proc_of (pt : ProcessTable) (t : Thread) : outcome Process :=
  expect (procs pt !! process t).

(** ** Operations *)
Section table.
Context `{SH : SigHeaders}.

Definition add_thread (pt : ProcessTable) (t : Thread) : outcome ProcessTable :=
  let pt := set_live_count pt (wrapping_add 64 (live_count pt) 1) in
  let pt := enqueue pt (tid t) in
  rassert (negb (bool_decide (is_Some (threads pt !! tid t))));;
  let pt := put_thread pt (tid t) t in
  Ret (set_children pt
    (<[parent_tid t := default [] (children pt !! parent_tid t) ++ [tid t]]> (children pt))).

(** The child the three arms of [take_zombie] and [take_stopped] look for. *)
Definition thread_is (pt : ProcessTable) (test : Thread → bool) (i : Z) : bool :=
  match threads pt !! i with Some t => test t | None => false end.

Definition in_group (pt : ProcessTable) (g : Z) (t : Thread) : bool :=
  match procs pt !! process t with Some p => pgid p =? g | None => false end.

Fixpoint find (f : Z → bool) (l : list Z) : option Z :=
  match l with [] => None | x :: l => if f x then Some x else find f l end.

Definition select_child (pt : ProcessTable) (parent : Z) (target : WaitPid) (test : Thread → bool)
    : option Z :=
  match children pt !! parent with
  | None => None
  | Some cs =>
      match target with
      | Specific wanted =>
          if bool_decide (wanted ∈ cs) && thread_is pt test wanted then Some wanted else None
      | AnyChild => find (thread_is pt test) cs
      | PgidOf g => find (thread_is pt (λ t, test t && in_group pt g t)) cs
      end
  end.

Definition take_zombie (pt : ProcessTable) (parent : Z) (target : WaitPid)
    : outcome (option (Z * Z) * ProcessTable) :=
  match select_child pt parent target (λ t, is_zombie (state t)) with
  | None => Ret (None, pt)
  | Some i =>
      t ← expect (threads pt !! i);
      let pt := set_threads pt (delete i (threads pt)) in
      wstatus ← match state t with Zombie e => Ret (to_wstatus e) | _ => Panic end;
      let cs := match children pt !! parent with
                | Some l => <[parent := filter (λ c, c ≠ i) l]> (children pt)
                | None => children pt
                end in
      Ret (Some (i, wstatus), set_children pt (delete i cs))
  end.

(** [(stop_signal << 8) | 0x7f] *)
Definition stopped_wstatus (sig : Z) : outcome Z :=
  if sig <? 256 then Ret (Z.lor (Z.shiftl sig 8) 0x7f) else Panic.

Definition unnotified_stop (t : Thread) : bool :=
  bool_decide (state t = Stopped) && negb (stopped_notified t).

Definition take_stopped (pt : ProcessTable) (parent : Z) (target : WaitPid)
    : outcome (option (Z * Z) * ProcessTable) :=
  match select_child pt parent target unnotified_stop with
  | None => Ret (None, pt)
  | Some i =>
      t ← expect (threads pt !! i);
      wstatus ← stopped_wstatus (stop_signal t);
      Ret (Some (i, wstatus), put_thread pt i (set_stopped_notified t true))
  end.

Definition get_pgid_of (pt : ProcessTable) (i : Z) : outcome (option Z) :=
  match threads pt !! i with
  | None => Ret None
  | Some t => p ← proc_of pt t; Ret (Some (pgid p))
  end.

Definition get_sid_of (pt : ProcessTable) (i : Z) : outcome (option Z) :=
  match threads pt !! i with
  | None => Ret None
  | Some t => p ← proc_of pt t; Ret (Some (sid p))
  end.

Definition set_pgid_of (pt : ProcessTable) (i g : Z) : outcome (bool * ProcessTable) :=
  match threads pt !! i with
  | None => Ret (false, pt)
  | Some t =>
      p ← proc_of pt t;
      Ret (true, set_procs pt (<[process t := set_pgid p g]> (procs pt)))
  end.

Definition is_child_of (pt : ProcessTable) (parent i : Z) : bool :=
  match children pt !! parent with Some cs => bool_decide (i ∈ cs) | None => false end.

Definition has_any_child_of (pt : ProcessTable) (parent : Z) : bool :=
  match children pt !! parent with Some cs => negb (bool_decide (cs = [])) | None => false end.

Definition register_wait_waker (pt : ProcessTable) (i : Z) : ProcessTable :=
  set_wait_wakers pt (wait_wakers pt ++ [i]).

(** [ThreadWaker::wake] *)
Definition wake_thread (pt : ProcessTable) (i : Z) : ProcessTable :=
  match threads pt !! i with
  | None => pt
  | Some t =>
      let '(t, woke) := wake_up t in
      let pt := put_thread pt i t in
      if woke : bool then enqueue pt i else pt
  end.

Definition wake_wait_wakers (pt : ProcessTable) : ProcessTable :=
  foldl wake_thread (set_wait_wakers pt []) (wait_wakers pt).

Definition send_signal (pt : ProcessTable) (i sig : Z) : outcome ProcessTable :=
  match threads pt !! i with
  | None => Ret pt
  | Some t =>
      if is_zombie (state t) then Ret pt
      else
        t ← raise_signal t sig;
        sigtimedwait_hit ← sigtimedwait_matches t sig;
        if (sig =? SIGCONT) && bool_decide (state t = Stopped) then
          t ← clear_pending_stop_signals t;
          Ret (enqueue (put_thread pt i (set_state t Runnable)) i)
        else if (sigtimedwait_hit || has_pending_unblocked_signal t) && bool_decide (state t = Waiting)
        then Ret (enqueue (put_thread pt i (set_state t Runnable)) i)
        else Ret (put_thread pt i t)
  end.

Definition send_signal_to_pgid (pt : ProcessTable) (g sig : Z) : outcome ProcessTable :=
  foldM (λ pt i, send_signal pt i sig)
    (filter (λ i, thread_is pt (λ t, negb (is_zombie (state t)) && in_group pt g t) i)
       (sorted_keys (threads pt))) pt.

Definition send_signal_to_process (pt : ProcessTable) (i sig : Z) : outcome ProcessTable :=
  match threads pt !! i with
  | None => Ret pt
  | Some t =>
      p ← proc_of pt t;
      foldM (λ pt j, send_signal pt j sig) (p_threads p) pt
  end.

(** The thread's own part of [kill], up to the wake-ups. *)
Definition bury (pt : ProcessTable) (i : Z) (t : Thread) (p : Process) (e : ExitStatus)
    : ProcessTable :=
  let pt := set_live_count pt (wrapping_sub 64 (live_count pt) 1) in
  let pt := put_thread pt i (set_syscall_task (set_state t (Zombie e)) None) in
  let pt := add_effects pt [Ipi] in
  let pt := match clear_child_tid t with
            | Some addr => add_effects pt [ClearTid i addr]
            | None => pt
            end in
  let p := remove_thread p i in
  let pt := set_procs pt (<[process t := p]> (procs pt)) in
  let pt := if has_no_threads p then add_effects pt [CloseFds (process t)] else pt in
  match clear_child_tid t with
  | Some addr => add_effects pt [FutexWake (main_tid p) addr]
  | None => pt
  end.

(** Reparent orphans to init. *)
Definition set_parent (pt : ProcessTable) (i parent : Z) : ProcessTable :=
  match threads pt !! i with
  | Some t => put_thread pt i (set_parent_tid t parent)
  | None => pt
  end.

Definition reparent (pt : ProcessTable) (main : Z) : ProcessTable :=
  match children pt !! main with
  | None => pt
  | Some orphans =>
      let pt := set_children pt (delete main (children pt)) in
      let pt := foldl (λ pt c, set_parent pt c INIT_TID) pt orphans in
      set_children pt
        (<[INIT_TID := default [] (children pt !! INIT_TID) ++ orphans]> (children pt))
  end.

Definition kill_body (kill : ProcessTable → Z → ExitStatus → outcome ProcessTable)
    (pt : ProcessTable) (i : Z) (e : ExitStatus) : outcome ProcessTable :=
  rassert (negb (i =? POWERSAVE_TID));;
  match threads pt !! i with
  | None => Ret pt
  | Some t =>
      if is_zombie (state t) then Ret pt
      else
        p ← proc_of pt t;
        let pt := wake_wait_wakers (bury pt i t p e) in
        if i =? main_tid p then
          if main_tid p =? INIT_TID then
            foldM (λ pt j, kill pt j e)
              (filter (λ j, j ≠ POWERSAVE_TID ∧ j ≠ i) (sorted_keys (threads pt))) pt
          else Ret (reparent pt (main_tid p))
        else Ret pt
  end.

(** [kill] calls itself only for init's death, and then for other threads. *)
Definition kill : ProcessTable → Z → ExitStatus → outcome ProcessTable :=
  kill_body (kill_body (λ _ _ _, Panic)).

Definition kill_process_of (pt : ProcessTable) (i : Z) (e : ExitStatus) : outcome ProcessTable :=
  match threads pt !! i with
  | None => Ret pt
  | Some t => p ← proc_of pt t; foldM (λ pt j, kill pt j e) (p_threads p) pt
  end.

(** ** [WaitChild::poll] *)
Definition wait_child (pt : ProcessTable) (me parent : Z) (target : WaitPid) (wnohang wuntraced : bool)
    : outcome (option (result (Z * Z)) * ProcessTable) :=
  '(z, pt) ← take_zombie pt parent target;
  match z with
  | Some r => Ret (Some (Okay r), pt)
  | None =>
      '(s, pt) ← (if wuntraced then take_stopped pt parent target else Ret (None, pt));
      match s with
      | Some r => Ret (Some (Okay r), pt)
      | None =>
          if negb (has_any_child_of pt parent) then Ret (Some (Err ECHILD), pt)
          else if wnohang then Ret (Some (Okay (0, 0)), pt)
          else Ret (None, register_wait_waker pt me)
      end
  end.
End table.

(** ** Lemmas *)
Lemma elem_of_sorted_keys {A} (m : gmap Z A) i : i ∈ sorted_keys m ↔ is_Some (m !! i).
Proof.
  unfold sorted_keys. rewrite (merge_sort_Permutation Z.le), elem_of_elements. apply elem_of_dom.
Qed.

Lemma find_Some f l i : find f l = Some i → i ∈ l ∧ f i = true.
Proof.
  induction l as [|x l IH]; simpl; [done|]. destruct (f x) eqn:E.
  - intros [= ->]. split; [left|done].
  - intros [? ?]%IH. split; [by right|done].
Qed.

Lemma find_None f l : find f l = None ↔ ∀ i, i ∈ l → f i = false.
Proof.
  induction l as [|x l IH]; simpl; [set_solver|]. destruct (f x) eqn:E.
  - split; [done|]. intros H. rewrite H in E by set_solver. done.
  - rewrite IH. set_solver.
Qed.

(** The threads that are not zombies. *)
Definition live_tids (pt : ProcessTable) : gset Z :=
  dom (filter (λ kt : Z * Thread, is_zombie (state kt.2) = false) (threads pt)).

Lemma elem_of_live pt i :
  i ∈ live_tids pt ↔ ∃ t, threads pt !! i = Some t ∧ is_zombie (state t) = false.
Proof.
  unfold live_tids. rewrite elem_of_dom. unfold is_Some. setoid_rewrite map_lookup_filter_Some. done.
Qed.

(** What holds between operations: threads are filed under their ids and belong
    to a process that knows its live threads; a runnable thread is in the run queue;
    the counter counts the live threads; a child is in the list of its parent only. *)
Record pt_ok (pt : ProcessTable) : Prop := {
  ok_key : ∀ i t, threads pt !! i = Some t → tid t = i ∧ i ≠ POWERSAVE_TID;
  ok_proc : ∀ i t, threads pt !! i = Some t → ∃ p, procs pt !! process t = Some p ∧
    (is_zombie (state t) = false → i ∈ p_threads p);
  ok_member : ∀ h p i, procs pt !! h = Some p → i ∈ p_threads p →
    ∃ t, threads pt !! i = Some t ∧ process t = h ∧ is_zombie (state t) = false;
  ok_run : ∀ i t, threads pt !! i = Some t → state t = Runnable → i ∈ run_queue pt;
  ok_live : live_count pt = Z.of_nat (size (live_tids pt)) mod 2 ^ 64;
  ok_children : ∀ p cs, children pt !! p = Some cs → NoDup cs ∧
    ∀ c, c ∈ cs → ∃ t, threads pt !! c = Some t ∧ parent_tid t = p;
}.

Lemma table_new_ok : pt_ok table_new.
Proof. split; simpl; try (intros *; by rewrite lookup_empty). done. Qed.

Lemma enqueue_ok pt i : pt_ok pt → pt_ok (enqueue pt i).
Proof. intros [? ? ? Hrun ? ?]. split; try done. intros j t Hj Hr. apply elem_of_app. left. eauto. Qed.

Lemma add_effects_ok pt l : pt_ok pt → pt_ok (add_effects pt l).
Proof. by intros []. Qed.

Lemma set_wait_wakers_ok pt l : pt_ok pt → pt_ok (set_wait_wakers pt l).
Proof. by intros []. Qed.

(** A thread changes without leaving its process, its parent or the living. *)
Definition same_place (t t' : Thread) : Prop :=
  tid t' = tid t ∧ process t' = process t ∧ parent_tid t' = parent_tid t ∧
  is_zombie (state t') = is_zombie (state t).

Lemma put_thread_live pt i t t' : threads pt !! i = Some t →
  is_zombie (state t') = is_zombie (state t) → live_tids (put_thread pt i t') = live_tids pt.
Proof.
  intros Hi Hz. apply set_eq. intros j. rewrite !elem_of_live. cbn [put_thread set_threads threads].
  destruct (decide (i = j)) as [<-|Hne]; [|by rewrite lookup_insert_ne].
  rewrite lookup_insert_eq, Hi. split; intros (t1 & [= <-] & H); eexists; (split; [done|congruence]).
Qed.

Lemma put_thread_ok pt i t t' : pt_ok pt → threads pt !! i = Some t → same_place t t' →
  (state t' = Runnable → i ∈ run_queue pt) → pt_ok (put_thread pt i t').
Proof.
  intros [Hk Hp Hm Hr Hl Hc] Hi (H1 & H2 & H3 & H4) Hq.
  assert (∀ j u, threads (put_thread pt i t') !! j = Some u →
    (j = i ∧ u = t') ∨ (j ≠ i ∧ threads pt !! j = Some u)) as Hcase.
  { intros j u. simpl. destruct (decide (i = j)) as [<-|Hne].
    - rewrite lookup_insert_eq. intros [= <-]. auto.
    - rewrite lookup_insert_ne by done. auto. }
  split.
  - intros j u [[-> ->]|[_ Hu]]%Hcase; [rewrite H1|]; eauto.
  - intros j u [[-> ->]|[_ Hu]]%Hcase; [rewrite H2, H4|]; eauto.
  - intros h p j Hh Hj. destruct (Hm h p j Hh Hj) as (u & Hu & ? & ?). simpl.
    destruct (decide (i = j)) as [<-|]; [|rewrite lookup_insert_ne by done; eauto].
    rewrite lookup_insert_eq. exists t'. rewrite H2, H4. naive_solver.
  - intros j u [[-> ->]|[_ Hu]]%Hcase; eauto.
  - by rewrite (put_thread_live pt i t).
  - intros p cs Hcs. destruct (Hc p cs Hcs) as [Hnd Hin]. split; [done|]. intros c Hc'.
    destruct (Hin c Hc') as (u & Hu & ?). simpl.
    destruct (decide (i = c)) as [<-|]; [|rewrite lookup_insert_ne by done; eauto].
    rewrite lookup_insert_eq. exists t'. rewrite H3. naive_solver.
Qed.

(** A thread that becomes runnable is queued in the same operation. *)
Lemma put_enqueue_ok pt i t t' : pt_ok pt → threads pt !! i = Some t → same_place t t' →
  pt_ok (enqueue (put_thread pt i t') i).
Proof.
  intros Hok Hi Hs. change (pt_ok (put_thread (enqueue pt i) i t')).
  eapply put_thread_ok; [by apply enqueue_ok|done|done|]. intros _. set_solver.
Qed.

Lemma wake_thread_ok pt i : pt_ok pt → pt_ok (wake_thread pt i).
Proof.
  intros Hok. unfold wake_thread. destruct (threads pt !! i) as [t|] eqn:Hi; [|done].
  unfold wake_up. destruct (state t) eqn:Hst; simpl.
  - eapply put_thread_ok; [done|done|by repeat split|]. simpl. by rewrite Hst.
  - eapply put_thread_ok; [done|done|by repeat split|]. intros _. eapply ok_run; eauto.
  - eapply put_enqueue_ok; [done|done|]. unfold same_place. simpl. by rewrite Hst.
  - eapply put_thread_ok; [done|done|by repeat split|]. by rewrite Hst.
  - eapply put_thread_ok; [done|done|by repeat split|]. by rewrite Hst.
Qed.

Lemma wake_wait_wakers_ok pt : pt_ok pt → pt_ok (wake_wait_wakers pt).
Proof.
  intros Hok. unfold wake_wait_wakers. assert (pt_ok (set_wait_wakers pt [])) as H by by apply set_wait_wakers_ok.
  revert H. generalize (set_wait_wakers pt []). induction (wait_wakers pt) as [|w ws IH]; simpl; auto using wake_thread_ok.
Qed.

Section signals.
Context `{SH : SigHeaders}.

(** Raising a signal changes a thread's pending set only. *)
Definition repended (t t' : Thread) : Prop := ∃ p, t' = set_pending t p.

Lemma repended_refl t : repended t t.
Proof. exists (pending (signal_state t)). by destruct t as [? ? ? ? ? ? ? ? ? [] ? ? ? ? ?]. Qed.

Lemma repended_trans t t1 t2 : repended t t1 → repended t1 t2 → repended t t2.
Proof. intros [p ->] [q ->]. by exists q. Qed.

Lemma clear_pending_repended t s t' : clear_pending t s = Ret t' → repended t t'.
Proof. unfold clear_pending. intros H. inv_outcome. by eexists. Qed.

Lemma clear_stop_repended t t' : clear_pending_stop_signals t = Ret t' → repended t t'.
Proof.
  apply (foldM_inv clear_pending (λ _, repended t)); [apply repended_refl|].
  intros ? ? ? ? ? _ H1 H2. eapply repended_trans; [done|]. by eapply clear_pending_repended.
Qed.

Lemma raise_pending_repended t s t' : raise_pending t s = Ret t' → repended t t'.
Proof. unfold raise_pending. intros H. inv_outcome. by eexists. Qed.

Lemma raise_signal_repended t s t' : raise_signal t s = Ret t' → repended t t'.
Proof.
  unfold raise_signal. intros (u & _ & (t1 & H1 & H)%bind_Ret)%bind_Ret.
  assert (repended t t1) as H0.
  { destruct (default_action s); simplify_eq; eauto using repended_refl, clear_pending_repended, clear_stop_repended. }
  eapply repended_trans; [done|]. clear H0 H1 t. destruct (_ || _); [by eapply raise_pending_repended|].
  apply bind_Ret in H as (a & _ & H).
  destruct (sa_handler a) as [f|]; [destruct (f =? 1)|destruct (default_action s)];
    simplify_eq; eauto using repended_refl, raise_pending_repended.
Qed.

Lemma repended_same t t' : repended t t' → same_place t t' ∧ state t' = state t.
Proof. by intros [p ->]. Qed.

Lemma same_place_trans t t1 t2 : same_place t t1 → same_place t1 t2 → same_place t t2.
Proof.
  intros (? & ? & ? & ?) (? & ? & ? & ?). split_and!; congruence.
Qed.

Lemma same_place_runnable t t' : same_place t t' → is_zombie (state t) = false →
  same_place t (set_state t' Runnable).
Proof. intros (? & ? & ? & ?) Hz. by split_and!. Qed.

Lemma send_signal_ok pt i s pt' : pt_ok pt → send_signal pt i s = Ret pt' → pt_ok pt'.
Proof.
  intros Hok. unfold send_signal. destruct (threads pt !! i) as [t|] eqn:Hi; [|by intros [= <-]].
  destruct (is_zombie (state t)) eqn:Hz; [by intros [= <-]|].
  intros (t1 & [Hs1 He1]%raise_signal_repended%repended_same & (hit & _ & H)%bind_Ret)%bind_Ret.
  destruct (_ && bool_decide (state t1 = Stopped)).
  - apply bind_Ret in H as (t2 & [Hs2 He2]%clear_stop_repended%repended_same & [= <-]).
    eapply put_enqueue_ok; [done|done|]. apply same_place_runnable; [|done].
    by eapply same_place_trans.
  - destruct (_ && _); simplify_eq.
    + eapply put_enqueue_ok; [done|done|]. by apply same_place_runnable.
    + eapply put_thread_ok; [done|done|done|]. rewrite He1. intros. by eapply ok_run.
Qed.

Lemma foldM_ok {A} (f : ProcessTable → A → outcome ProcessTable) l pt pt' :
  (∀ pt x pt', pt_ok pt → f pt x = Ret pt' → pt_ok pt') →
  pt_ok pt → foldM f l pt = Ret pt' → pt_ok pt'.
Proof.
  intros Hf Hok. apply (foldM_inv f (λ _, pt_ok)); [done|]. intros ? ? ? ? ? _ H1 H2. eauto.
Qed.

Lemma send_signal_to_pgid_ok pt g s pt' :
  pt_ok pt → send_signal_to_pgid pt g s = Ret pt' → pt_ok pt'.
Proof. apply foldM_ok. intros ? ? ?. apply send_signal_ok. Qed.

Lemma send_signal_to_process_ok pt i s pt' :
  pt_ok pt → send_signal_to_process pt i s = Ret pt' → pt_ok pt'.
Proof.
  intros Hok. unfold send_signal_to_process. destruct (threads pt !! i) as [t|]; [|by intros [= <-]].
  intros (p & _ & H)%bind_Ret. revert H. apply foldM_ok; [|done]. intros ? ? ?. apply send_signal_ok.
Qed.

(** *** Killing *)
Lemma live_count_bury pt i t t' ch ww rq lc ps l : threads pt !! i = Some t →
  is_zombie (state t) = false → is_zombie (state t') = true →
  wrapping_sub 64 (Z.of_nat (size (live_tids pt)) mod 2 ^ 64) 1 =
  Z.of_nat (size (live_tids (MkTable (<[i := t']> (threads pt)) ch ww rq lc ps l))) mod 2 ^ 64.
Proof.
  intros Hi Hz Hz'. unfold wrapping_sub. rewrite Zminus_mod_idemp_l. f_equal.
  assert (live_tids pt = {[i]} ∪ live_tids (MkTable (<[i := t']> (threads pt)) ch ww rq lc ps l)) as ->.
  { apply set_eq. intros j. rewrite elem_of_union, elem_of_singleton, !elem_of_live. simpl.
    destruct (decide (i = j)) as [<-|]; [|rewrite lookup_insert_ne by done; naive_solver].
    rewrite Hi. naive_solver. }
  rewrite size_union, size_singleton; [lia|].
  apply disjoint_singleton_l. rewrite elem_of_live. simpl. rewrite lookup_insert_eq. intros (? & [= <-] & ?).
  congruence.
Qed.

Lemma bury_ok pt i t p e : pt_ok pt → threads pt !! i = Some t → is_zombie (state t) = false →
  procs pt !! process t = Some p → pt_ok (bury pt i t p e).
Proof.
  intros [Hk Hp Hm Hr Hl Hc] Hi Hz Hpr.
  set (t' := set_syscall_task (set_state t (Zombie e)) None).
  set (p' := remove_thread p i).
  assert (∀ l, pt_ok (MkTable (<[i := t']> (threads pt)) (children pt) (wait_wakers pt) (run_queue pt)
    (wrapping_sub 64 (live_count pt) 1) (<[process t := p']> (procs pt)) l)) as Hmain.
  { intros l. split; cbn [threads children run_queue live_count procs].
    - intros j u. destruct (decide (i = j)) as [<-|]; [|rewrite lookup_insert_ne by done; eauto].
      rewrite lookup_insert_eq. intros [= <-]. by apply (Hk i t).
    - intros j u. destruct (decide (i = j)) as [<-|].
      { rewrite lookup_insert_eq. intros [= <-]. exists p'. simpl. by rewrite lookup_insert_eq. }
      rewrite lookup_insert_ne by done. intros Hj. destruct (Hp j u Hj) as (q & Hq & Hq').
      destruct (decide (process t = process u)) as [Heq|]; [|rewrite lookup_insert_ne by done; eauto].
      rewrite <-Heq, lookup_insert_eq in *. exists p'. split; [done|]. simplify_eq. intros Hu. simpl.
      apply list_elem_of_filter. auto.
    - intros h q j. destruct (decide (process t = h)) as [<-|].
      + rewrite lookup_insert_eq. intros [= <-]. simpl. intros [Hne Hj]%list_elem_of_filter.
        rewrite lookup_insert_ne by done. eauto.
      + rewrite lookup_insert_ne by done. intros Hh Hj. destruct (Hm h q j Hh Hj) as (u & Hu & ? & ?).
        rewrite lookup_insert_ne by congruence. eauto.
    - intros j u. destruct (decide (i = j)) as [<-|]; [|rewrite lookup_insert_ne by done; eauto].
      rewrite lookup_insert_eq. by intros [= <-].
    - rewrite Hl. by apply (live_count_bury pt i t t').
    - intros q cs Hcs. destruct (Hc q cs Hcs) as [Hnd Hin]. split; [done|]. intros c Hcc.
      destruct (Hin c Hcc) as (u & Hu & ?).
      destruct (decide (i = c)) as [<-|]; [|rewrite lookup_insert_ne by done; eauto].
      rewrite lookup_insert_eq. exists t'. naive_solver. }
  unfold bury. destruct (clear_child_tid t), (has_no_threads _); apply Hmain.
Qed.

Lemma set_parents os q : ∀ pt, ∃ m,
  foldl (λ pt c, set_parent pt c q) pt os = set_threads pt m ∧
  ∀ j, m !! j = if bool_decide (j ∈ os) then (λ t, set_parent_tid t q) <$> threads pt !! j
                else threads pt !! j.
Proof.
  induction os as [|c os IH]; intros pt; simpl.
  { exists (threads pt). split; [by destruct pt|done]. }
  destruct (IH (set_parent pt c q)) as (m & -> & Hm). exists m.
  split; [unfold set_parent; by destruct (threads pt !! c)|]. intros j. rewrite Hm. unfold set_parent.
  destruct (decide (j = c)) as [->|Hne].
  - rewrite (bool_decide_true (c ∈ c :: os)) by set_solver.
    destruct (threads pt !! c) eqn:Hc; simpl; [rewrite lookup_insert_eq|rewrite Hc]; by case_bool_decide.
  - rewrite (bool_decide_ext (j ∈ c :: os) (j ∈ os)) by set_solver.
    destruct (threads pt !! c) eqn:Hc; [|done]. simpl. by rewrite lookup_insert_ne.
Qed.

Lemma reparent_ok pt main : pt_ok pt → main ≠ INIT_TID → pt_ok (reparent pt main).
Proof.
  intros [Hk Hp Hm Hr Hl Hc] Hne. unfold reparent.
  destruct (children pt !! main) as [os|] eqn:Hos; [|done].
  destruct (set_parents os INIT_TID (set_children pt (delete main (children pt)))) as (m & -> & Hlook).
  cbn [set_children set_threads threads children] in *.
  assert (∀ j u, m !! j = Some u → ∃ t, threads pt !! j = Some t ∧
    u = if bool_decide (j ∈ os) then set_parent_tid t INIT_TID else t) as Hfrom.
  { intros j u. rewrite Hlook. case_bool_decide; [|eauto].
    intros (t & -> & ?)%fmap_Some. eauto. }
  assert (∀ j t, threads pt !! j = Some t →
    m !! j = Some (if bool_decide (j ∈ os) then set_parent_tid t INIT_TID else t)) as Hto.
  { intros j t Hj. rewrite Hlook, Hj. by case_bool_decide. }
  split; cbn [set_children set_threads threads children run_queue live_count procs].
  - intros j u (t & Hj & ->)%Hfrom. destruct (Hk j t Hj). by case_bool_decide.
  - intros j u (t & Hj & ->)%Hfrom. destruct (Hp j t Hj) as (q & ? & ?). exists q. by case_bool_decide.
  - intros h q j Hh Hj. destruct (Hm h q j Hh Hj) as (t & Ht' & ? & ?). eexists.
    split; [by apply Hto|]. by case_bool_decide.
  - intros j u (t & Hj & ->)%Hfrom Hst. apply (Hr j t Hj). revert Hst. by case_bool_decide.
  - rewrite Hl. do 3 f_equal. apply set_eq. intros j. rewrite !elem_of_live. simpl. split.
    + intros (t & Hj & Hz). eexists. split; [by apply Hto|]. by case_bool_decide.
    + intros (u & (t & Hj & ->)%Hfrom & Hz). exists t. split; [done|]. revert Hz. by case_bool_decide.
  - intros q cs. destruct (Hc main os Hos) as [Hnd Hin].
    destruct (decide (q = INIT_TID)) as [->|Hq].
    + rewrite lookup_insert_eq, lookup_delete_ne by done. intros [= <-].
      assert (∀ c, c ∈ default [] (children pt !! INIT_TID) →
        ∃ t, threads pt !! c = Some t ∧ parent_tid t = INIT_TID) as Hold.
      { destruct (children pt !! INIT_TID) as [cs|] eqn:E; [by apply (Hc _ cs)|set_solver]. }
      split.
      * apply NoDup_app. split; [|split; [|done]].
        { destruct (children pt !! INIT_TID) eqn:E; [by eapply Hc|constructor]. }
        intros c (t & Ht1 & ?)%Hold (t' & Ht2 & ?)%Hin. congruence.
      * intros c [(t & Hct & Hpt)%Hold|Hco]%elem_of_app.
        { eexists. split; [by apply Hto|]. by case_bool_decide. }
        destruct (Hin c Hco) as (t & Hct & _). eexists. split; [by apply Hto|]. by rewrite bool_decide_true.
    + rewrite lookup_insert_ne by done. destruct (decide (q = main)) as [->|].
      { by rewrite lookup_delete_eq. }
      rewrite lookup_delete_ne by done. intros Hcs. destruct (Hc q cs Hcs) as [? Hcs'].
      split; [done|]. intros c Hcc. destruct (Hcs' c Hcc) as (t & Hct & Hpt). eexists.
      split; [by apply Hto|]. rewrite bool_decide_false; [done|]. intros Hco.
      destruct (Hin c Hco) as (? & ? & ?). congruence.
Qed.

Lemma kill_body_ok rec pt i e pt' :
  (∀ pt j pt', pt_ok pt → rec pt j e = Ret pt' → pt_ok pt') →
  pt_ok pt → kill_body rec pt i e = Ret pt' → pt_ok pt'.
Proof.
  intros Hrec Hok (? & _ & H)%bind_Ret. destruct (threads pt !! i) as [t|] eqn:Hi; [|by simplify_eq].
  destruct (is_zombie (state t)) eqn:Hz; [by simplify_eq|].
  apply bind_Ret in H as (p & Hp%expect_Ret & H). cbv zeta in H.
  assert (pt_ok (wake_wait_wakers (bury pt i t p e))) as Hb by by apply wake_wait_wakers_ok, bury_ok.
  destruct (i =? main_tid p) eqn:E1; [|by simplify_eq].
  destruct (main_tid p =? INIT_TID) eqn:E2; simplify_eq.
  - revert H. apply foldM_ok; [|done]. intros ? ? ?. apply Hrec.
  - apply reparent_ok; [done|]. by apply Z.eqb_neq.
Qed.

Lemma kill_ok pt i e pt' : pt_ok pt → kill pt i e = Ret pt' → pt_ok pt'.
Proof. apply kill_body_ok. intros ? ? ?. by apply kill_body_ok. Qed.

Lemma kill_process_of_ok pt i e pt' : pt_ok pt → kill_process_of pt i e = Ret pt' → pt_ok pt'.
Proof.
  intros Hok. unfold kill_process_of. destruct (threads pt !! i) as [t|]; [|by intros [= <-]].
  intros (p & _ & H)%bind_Ret. revert H. apply foldM_ok; [|done]. intros ? ? ?. apply kill_ok.
Qed.

(** *** Reaping *)
Lemma select_child_Some pt parent target test i : select_child pt parent target test = Some i →
  ∃ cs t, children pt !! parent = Some cs ∧ i ∈ cs ∧ threads pt !! i = Some t ∧ test t = true.
Proof.
  unfold select_child. destruct (children pt !! parent) as [cs|]; [|done]. intros H.
  assert (i ∈ cs ∧ thread_is pt test i = true) as [Hin Hi].
  { destruct target as [w| |g].
    - destruct (_ && _) eqn:E; [|done]. simplify_eq. apply andb_true_iff in E as [E ?].
      by apply bool_decide_eq_true in E.
    - by apply find_Some in H.
    - apply find_Some in H as [? H]. split; [done|]. revert H. unfold thread_is.
      destruct (threads pt !! i); [|done]. by intros [? _]%andb_true_iff. }
  revert Hi. unfold thread_is. destruct (threads pt !! i) eqn:E; [|done]. eauto 8.
Qed.

Lemma take_zombie_ok pt parent target r pt' : pt_ok pt → take_zombie pt parent target = Ret (r, pt') →
  pt_ok pt'.
Proof.
  intros Hok. unfold take_zombie.
  destruct (select_child _ _ _ _) as [i|] eqn:Hsel; [|by intros [= <- <-]].
  apply select_child_Some in Hsel as (cs & t & Hcs & Hin & Hi & Hz). rewrite Hi. bstep.
  destruct (state t) as [| | | |e] eqn:Hst; try done. simpl. rewrite Hcs. intros [= <- <-].
  destruct Hok as [Hk Hp Hm Hr Hl Hc].
  assert (parent_tid t = parent) as Hpar.
  { destruct (Hc parent cs Hcs) as [_ H]. destruct (H i Hin) as (? & ? & ?). congruence. }
  split; cbn [set_children set_threads threads children run_queue live_count procs].
  - intros j u [? ?]%lookup_delete_Some. eauto.
  - intros j u [? ?]%lookup_delete_Some. eauto.
  - intros h p j Hh Hj. destruct (Hm h p j Hh Hj) as (u & Hu & ? & ?).
    assert (i ≠ j) by (intros <-; rewrite Hi in Hu; simplify_eq; by rewrite Hst in *).
    rewrite lookup_delete_ne by done. eauto.
  - intros j u [? ?]%lookup_delete_Some. eauto.
  - rewrite Hl. do 3 f_equal. apply set_eq. intros j. rewrite !elem_of_live. simpl.
    destruct (decide (i = j)) as [<-|]; [|by rewrite lookup_delete_ne].
    rewrite lookup_delete_eq, Hi. split; [|naive_solver]. intros (? & [= <-] & H). by rewrite Hst in H.
  - intros q cs' [Hq Hcs']%lookup_delete_Some. destruct (decide (parent = q)) as [<-|].
    + rewrite lookup_insert_eq in Hcs'. injection Hcs' as <-. destruct (Hc parent cs Hcs) as [Hnd H].
      split; [by apply NoDup_filter|]. intros c [Hne Hcc]%list_elem_of_filter.
      rewrite lookup_delete_ne by done. eauto.
    + rewrite lookup_insert_ne in Hcs' by done. destruct (Hc q cs' Hcs') as [Hnd H].
      split; [done|]. intros c Hcc. destruct (H c Hcc) as (u & Hu & ?).
      rewrite lookup_delete_ne by congruence. eauto.
Qed.

Lemma take_stopped_ok pt parent target r pt' : pt_ok pt → take_stopped pt parent target = Ret (r, pt') →
  pt_ok pt'.
Proof.
  intros Hok. unfold take_stopped.
  destruct (select_child _ _ _ _) as [i|] eqn:Hsel; [|by intros [= <- <-]].
  apply select_child_Some in Hsel as (cs & t & _ & _ & Hi & _). rewrite Hi. bstep.
  intros (w & _ & [= <- <-])%bind_Ret. eapply put_thread_ok; [done|done|by repeat split|].
  simpl. intros. by eapply ok_run.
Qed.

Lemma wait_child_ok pt me parent target nh wu r pt' : pt_ok pt →
  wait_child pt me parent target nh wu = Ret (r, pt') → pt_ok pt'.
Proof.
  intros Hok. unfold wait_child. intros ([z pt1] & H1 & H)%bind_Ret.
  assert (pt_ok pt1) as Hok1 by by eapply take_zombie_ok. destruct z; [by simplify_eq|].
  apply bind_Ret in H as ([s pt2] & H2 & H).
  assert (pt_ok pt2) as Hok2 by (destruct wu; [by eapply take_stopped_ok|by simplify_eq]).
  destruct s; [by simplify_eq|]. destruct (negb _); [by simplify_eq|].
  destruct nh; simplify_eq; [done|]. by apply set_wait_wakers_ok.
Qed.

(** *** What killing does *)
(** The exit status of a thread, [None] inside while it lives. *)
Definition exit_of (st : ThreadState) : option ExitStatus :=
  match st with Zombie e => Some e | _ => None end.
Definition status (pt : ProcessTable) (i : Z) : option (option ExitStatus) :=
  (λ t, exit_of (state t)) <$> threads pt !! i.

Lemma elem_of_live_status pt i : i ∈ live_tids pt ↔ status pt i = Some None.
Proof.
  rewrite elem_of_live. unfold status. rewrite fmap_Some. split; intros (t & Hi & H); exists t; (split; [done|]);
    by destruct (state t).
Qed.

Definition died (e : ExitStatus) (o : option ExitStatus) : option ExitStatus := Some (default e o).

Lemma status_put pt i t j :
  status (put_thread pt i t) j = if decide (j = i) then Some (exit_of (state t)) else status pt j.
Proof.
  unfold status. simpl. case_decide as Hj; [subst; by rewrite lookup_insert_eq|by rewrite lookup_insert_ne].
Qed.

Lemma status_wake pt i j : status (wake_thread pt i) j = status pt j.
Proof.
  unfold wake_thread. destruct (threads pt !! i) as [t|] eqn:Hi; [|done].
  assert (exit_of (state (wake_up t).1) = exit_of (state t)) as He.
  { unfold wake_up. by destruct (state t) eqn:E; simpl; rewrite ?E. }
  destruct (wake_up t) as [t' woke]. simpl in He.
  assert (status (put_thread pt i t') j = status pt j) as <-; [|by destruct woke].
  rewrite status_put, He. case_decide; [subst; unfold status; by rewrite Hi|done].
Qed.

Lemma status_wakes pt j : status (wake_wait_wakers pt) j = status pt j.
Proof.
  unfold wake_wait_wakers. change (status pt j) with (status (set_wait_wakers pt []) j).
  generalize (set_wait_wakers pt []). induction (wait_wakers pt) as [|w ws IH]; intros q; simpl; [done|].
  by rewrite IH, status_wake.
Qed.

Lemma threads_bury pt i t p e :
  threads (bury pt i t p e) = <[i := set_syscall_task (set_state t (Zombie e)) None]> (threads pt).
Proof. unfold bury. by destruct (clear_child_tid t), (has_no_threads _). Qed.

Lemma status_bury pt i t p e j :
  status (bury pt i t p e) j = if decide (j = i) then Some (Some e) else status pt j.
Proof.
  unfold status. rewrite threads_bury.
  case_decide as Hj; [subst; by rewrite lookup_insert_eq|by rewrite lookup_insert_ne].
Qed.

Lemma status_reparent pt main j : status (reparent pt main) j = status pt j.
Proof.
  unfold reparent. destruct (children pt !! main) as [os|]; [|done].
  destruct (set_parents os INIT_TID (set_children pt (delete main (children pt)))) as (m & -> & Hm).
  unfold status. simpl. rewrite Hm. case_bool_decide; [|done]. simpl. by destruct (threads pt !! j).
Qed.

(** A thread other than init's main thread dies alone. *)
Lemma kill_body_status rec pt i e : pt_ok pt → i ≠ POWERSAVE_TID → i ≠ INIT_TID →
  ∃ pt', kill_body rec pt i e = Ret pt' ∧
    ∀ j, status pt' j = if decide (j = i) then died e <$> status pt j else status pt j.
Proof.
  intros Hok H0 H1. unfold kill_body. rewrite (proj2 (Z.eqb_neq _ _) H0). bstep.
  destruct (threads pt !! i) as [t|] eqn:Hi.
  - destruct (ok_proc pt Hok i t Hi) as (p & Hp & _). unfold proc_of. rewrite Hp. bstep. cbv zeta.
    destruct (is_zombie (state t)) eqn:Hz.
    { exists pt. split; [done|]. intros j. case_decide as Hj; [|done]. subst. unfold status. rewrite Hi. simpl.
      by destruct (state t). }
    assert (∀ j, status (wake_wait_wakers (bury pt i t p e)) j =
      if decide (j = i) then died e <$> status pt j else status pt j) as Hst.
    { intros j. rewrite status_wakes, status_bury. case_decide as Hj; [|done]. subst. unfold status.
      rewrite Hi. simpl. by destruct (state t). }
    destruct (i =? main_tid p) eqn:E; [|by eexists]. apply Z.eqb_eq in E as <-.
    rewrite (proj2 (Z.eqb_neq _ _) H1). eexists. split; [done|]. intros j. by rewrite status_reparent.
  - exists pt. split; [done|]. intros j. case_decide as Hj; [|done]. subst. unfold status. by rewrite Hi.
Qed.

Lemma kill_status pt i e : pt_ok pt → i ≠ POWERSAVE_TID → i ≠ INIT_TID →
  ∃ pt', kill pt i e = Ret pt' ∧ pt_ok pt' ∧
    ∀ j, status pt' j = if decide (j = i) then died e <$> status pt j else status pt j.
Proof.
  intros Hok H0 H1. destruct (kill_body_status (kill_body (λ _ _ _, Panic)) pt i e) as (pt' & H & Hs); [done..|].
  exists pt'. split; [done|]. split; [|done]. by eapply kill_ok.
Qed.

Lemma kills_status (kill1 : ProcessTable → Z → ExitStatus → outcome ProcessTable) e l :
  (∀ pt i, pt_ok pt → i ∈ l → ∃ pt', kill1 pt i e = Ret pt' ∧ pt_ok pt' ∧
    ∀ j, status pt' j = if decide (j = i) then died e <$> status pt j else status pt j) →
  ∀ pt, pt_ok pt → ∃ pt', foldM (λ pt i, kill1 pt i e) l pt = Ret pt' ∧ pt_ok pt' ∧
    ∀ j, status pt' j = if decide (j ∈ l) then died e <$> status pt j else status pt j.
Proof.
  induction l as [|i l IH]; intros Hk pt Hok; cbn [foldM].
  { exists pt. split; [done|]. split; [done|]. intros j. by rewrite decide_False by set_solver. }
  destruct (Hk pt i Hok) as (pt1 & -> & Hok1 & H1); [set_solver|]. bstep.
  destruct (IH (λ pt i Hp Hi, Hk pt i Hp (proj2 (elem_of_cons _ _ _) (or_intror Hi))) pt1 Hok1)
    as (pt2 & H2 & Hok2 & H2'). exists pt2. split; [done|]. split; [done|]. intros j. rewrite H2', H1.
  destruct (decide (j = i)) as [->|Hne].
  - rewrite (decide_True (P := i ∈ i :: l)) by set_solver. case_decide; [|done]. by destruct (status pt i) as [[]|].
  - destruct (decide (j ∈ l)); [rewrite decide_True by set_solver|rewrite decide_False by set_solver]; done.
Qed.
End signals.
