(* ===== verification/ProcessOps.v ===== *)
(** The system calls on processes: clone, wait4 and kill of
    crates/kernel/src/syscalls/process_ops.rs, signal_ops.rs and linux.rs, and the
    ids and credentials of crates/kernel/src/syscalls/id_ops.rs and
    crates/kernel/src/processes/credentials.rs.

    Copying the address space, the descriptors and the other fields of the process
    on a fork is not modelled here; writes to user memory are arguments (their
    results). *)
From stdpp Require Import sorting.
From S2P Require Import Prelude Headers Signal Thread ProcessTable.

(** The constants of <linux/sched.h> and <linux/wait.h> the calls test. *)
Class CloneHeaders := {
  CLONE_THREAD : Z; CLONE_SETTLS : Z; CLONE_PARENT_SETTID : Z; CLONE_CHILD_CLEARTID : Z;
  WNOHANG : Z; WUNTRACED : Z;
}.

Definition linux_clone : CloneHeaders := {|
  CLONE_THREAD := 0x10000; CLONE_SETTLS := 0x80000; CLONE_PARENT_SETTID := 0x100000;
  CLONE_CHILD_CLEARTID := 0x200000; WNOHANG := 1; WUNTRACED := 2;
|}.

(** ** [Tid] *)
Definition as_isize (i : Z) : outcome Z := if i <? 2 ^ 63 then Ret i else Panic.
Definition try_from_i32 (v : Z) : option Z := if v <? 0 then None else Some v.

(** ** clone *)
Section ops.
Context `{SH : SigHeaders} `{CH : CloneHeaders}.

(** The registers of the child. *)
Definition child_registers (regs : TrapFrame) (stack : Z) : TrapFrame :=
  let regs := set_reg regs reg_a0 0 in
  if negb (stack =? 0) then set_reg regs reg_sp stack else regs.

(** [clone_fork] by thread [cur]; [h] is the new process's handle. *)
Definition clone_fork (pt : ProcessTable) (counter : Z) (cur : Thread) (regs : TrapFrame)
    (pc stack : Z) (h : nat) : outcome (result Z * Z * ProcessTable) :=
  parent ← proc_of pt cur;
  '(child_tid, counter) ← get_next_tid counter;
  child_pc ← add 64 pc 4;
  let child := thread_new child_tid (child_registers regs stack) child_pc false h (main_tid parent) in
  child_process ← add_thread_tid (process_new child_tid (pgid parent) (sid parent)) child_tid;
  pt ← add_thread (set_procs pt (<[h := child_process]> (procs pt))) child;
  r ← as_isize child_tid;
  Ret (Okay r, counter, pt).

Definition flag (flags f : Z) : bool := negb (Z.land flags f =? 0).

(** [clone_thread]; [ptid] is the result of the write of the parent's tid. *)
Definition clone_thread (pt : ProcessTable) (counter : Z) (cur : Thread) (regs : TrapFrame)
    (pc flags stack tls ctid : Z) (ptid : result unit) : outcome (result Z * Z * ProcessTable) :=
  parent ← proc_of pt cur;
  '(child_tid, counter) ← get_next_tid counter;
  let regs := child_registers regs stack in
  let regs := if flag flags CLONE_SETTLS then set_reg regs reg_tp tls else regs in
  child_pc ← add 64 pc 4;
  let child := thread_new child_tid regs child_pc false (process cur) (main_tid parent) in
  let child := if flag flags CLONE_CHILD_CLEARTID
               then set_clear_child_tid child (Some ctid) else child in
  parent ← add_thread_tid parent child_tid;
  let pt := set_procs pt (<[process cur := parent]> (procs pt)) in
  match (if flag flags CLONE_PARENT_SETTID then ptid else Okay tt) with
  | inl e => Ret (Err e, counter, pt)
  | inr _ =>
      pt ← add_thread pt child;
      r ← as_isize child_tid;
      Ret (Okay r, counter, pt)
  end.

Definition clone (pt : ProcessTable) (counter : Z) (cur : Thread) (regs : TrapFrame)
    (pc flags stack tls ctid : Z) (ptid : result unit) (h : nat) : outcome (result Z * Z * ProcessTable) :=
  if flag flags CLONE_THREAD then clone_thread pt counter cur regs pc flags stack tls ctid ptid
  else clone_fork pt counter cur regs pc stack h.

(** ** wait4 *)
(** The target; [checked_neg] fails for the least [i32]. *)
Definition wait_target (pt : ProcessTable) (cur : Thread) (pid : Z) : outcome (result WaitPid) :=
  if 0 <? pid then t ← expect (try_from_i32 pid); Ret (Okay (Specific t))
  else if pid =? -1 then Ret (Okay AnyChild)
  else if pid =? 0 then p ← proc_of pt cur; Ret (Okay (PgidOf (pgid p)))
  else if pid =? - 2 ^ 31 then Ret (Err EINVAL)
  else t ← expect (try_from_i32 (- pid)); Ret (Okay (PgidOf t)).

(** [do_wait4] up to the end of one poll; [None] if it waits. *)
Definition do_wait4 (pt : ProcessTable) (cur : Thread) (pid options : Z)
    : outcome (option (result (Z * Z)) * ProcessTable) :=
  rassert (Z.ldiff options (Z.lor WNOHANG WUNTRACED) =? 0);;
  target ← wait_target pt cur pid;
  match target with
  | inl e => Ret (Some (Err e), pt)
  | inr target =>
      wait_child pt (tid cur) (tid cur) target (flag options WNOHANG) (flag options WUNTRACED)
  end.

(** ** kill, tgkill, tkill *)
Definition do_kill (pt : ProcessTable) (cur : Thread) (pid sig : Z) : outcome (result Z * ProcessTable) :=
  match validate_signal sig with
  | inl e => Ret (Err e, pt)
  | inr sig =>
      if 0 <? pid then
        match try_from_i32 pid with
        | None => Ret (Err ESRCH, pt)
        | Some target =>
            pt ← (match sig with Some sig => send_signal_to_process pt target sig | None => Ret pt end);
            Ret (Okay 0, pt)
        end
      else if pid =? 0 then
        p ← proc_of pt cur;
        pt ← (match sig with Some sig => send_signal_to_pgid pt (pgid p) sig | None => Ret pt end);
        Ret (Okay 0, pt)
      else if pid =? -1 then Ret (Err ESRCH, pt)
      else if pid =? - 2 ^ 31 then Panic          (* -pid overflows *)
      else
        match try_from_i32 (- pid) with
        | None => Ret (Err ESRCH, pt)
        | Some g =>
            pt ← (match sig with Some sig => send_signal_to_pgid pt g sig | None => Ret pt end);
            Ret (Okay 0, pt)
        end
  end.

Definition tgkill (pt : ProcessTable) (i sig : Z) : outcome (result Z * ProcessTable) :=
  match try_from_i32 i with
  | None => Ret (Err ESRCH, pt)
  | Some target =>
      match validate_signal sig with
      | inl e => Ret (Err e, pt)
      | inr None => Ret (Okay 0, pt)
      | inr (Some sig) => pt ← send_signal pt target sig; Ret (Okay 0, pt)
      end
  end.

(** ** Ids *)
Definition getpid (pt : ProcessTable) (cur : Thread) : outcome Z := p ← proc_of pt cur; as_isize (main_tid p).
Definition getppid (cur : Thread) : outcome Z := as_isize (parent_tid cur).
Definition gettid (cur : Thread) : outcome Z := as_isize (tid cur).

Definition do_getpgid (pt : ProcessTable) (cur : Thread) (pid : Z) : outcome (result Z) :=
  if pid =? 0 then p ← proc_of pt cur; r ← as_isize (pgid p); Ret (Okay r)
  else
    match try_from_i32 pid with
    | None => Ret (Err ESRCH)
    | Some target =>
        g ← get_pgid_of pt target;
        match g with None => Ret (Err ESRCH) | Some g => r ← as_isize g; Ret (Okay r) end
    end.

Definition do_getsid (pt : ProcessTable) (cur : Thread) (pid : Z) : outcome (result Z) :=
  if pid =? 0 then p ← proc_of pt cur; r ← as_isize (sid p); Ret (Okay r)
  else
    match try_from_i32 pid with
    | None => Ret (Err ESRCH)
    | Some target =>
        s ← get_sid_of pt target;
        match s with None => Ret (Err ESRCH) | Some s => r ← as_isize s; Ret (Okay r) end
    end.

Definition do_setpgid (pt : ProcessTable) (cur : Thread) (pid g : Z) : outcome (result Z * ProcessTable) :=
  me ← proc_of pt cur;
  match (if pid =? 0 then Some (main_tid me) else try_from_i32 pid) with
  | None => Ret (Err EINVAL, pt)
  | Some target_tid =>
      match (if g =? 0 then Some target_tid else try_from_i32 g) with
      | None => Ret (Err EINVAL, pt)
      | Some new_pgid =>
          if negb (target_tid =? main_tid me) && negb (is_child_of pt (main_tid me) target_tid)
          then Ret (Err ESRCH, pt)
          else
            '(found, pt) ← set_pgid_of pt target_tid new_pgid;
            if found : bool then Ret (Okay 0, pt) else Ret (Err ESRCH, pt)
      end
  end.

Definition do_setsid (pt : ProcessTable) (cur : Thread) : outcome (result Z * ProcessTable) :=
  p ← proc_of pt cur;
  if pgid p =? main_tid p then Ret (Err EPERM, pt)
  else
    r ← as_isize (main_tid p);
    let p := set_sid (set_pgid p (main_tid p)) (main_tid p) in
    Ret (Okay r, set_procs pt (<[process cur := p]> (procs pt))).
End ops.

(** ** Credentials *)
Record Credentials := { uid : Z; gid : Z; euid : Z; egid : Z; suid : Z; sgid : Z; groups : list Z }.

Definition root : Credentials :=
  {| uid := 0; gid := 0; euid := 0; egid := 0; suid := 0; sgid := 0; groups := [] |}.

Definition set_uids (c : Credentials) (r e s : Z) : Credentials :=
  {| uid := r; gid := gid c; euid := e; egid := egid c; suid := s; sgid := sgid c; groups := groups c |}.
Definition set_gids (c : Credentials) (r e s : Z) : Credentials :=
  {| uid := uid c; gid := r; euid := euid c; egid := e; suid := suid c; sgid := s; groups := groups c |}.

(** [u32::MAX] leaves an id alone. *)
Definition keep (v old : Z) : Z := if negb (v =? 2 ^ 32 - 1) then v else old.

Definition do_setuid (c : Credentials) (v : Z) : Credentials := set_uids c v v v.
Definition do_setgid (c : Credentials) (v : Z) : Credentials := set_gids c v v v.
Definition do_setreuid (c : Credentials) (r e : Z) : Credentials :=
  set_uids c (keep r (uid c)) (keep e (euid c)) (suid c).
Definition do_setregid (c : Credentials) (r e : Z) : Credentials :=
  set_gids c (keep r (gid c)) (keep e (egid c)) (sgid c).
Definition do_setresuid (c : Credentials) (r e s : Z) : Credentials :=
  set_uids c (keep r (uid c)) (keep e (euid c)) (keep s (suid c)).
Definition do_setresgid (c : Credentials) (r e s : Z) : Credentials :=
  set_gids c (keep r (gid c)) (keep e (egid c)) (keep s (sgid c)).

(** ** Lemmas *)
Section lemmas.
Context `{SH : SigHeaders} `{CH : CloneHeaders}.

Lemma add_thread_tid_inv p i p' : add_thread_tid p i = Ret p' →
  (i ∉ p_threads p) ∧ (∀ j, j ∈ p_threads p' ↔ (j = i ∨ j ∈ p_threads p)) ∧
  main_tid p' = main_tid p ∧ pgid p' = pgid p ∧ sid p' = sid p.
Proof.
  unfold add_thread_tid. intros (? & Hi & [= <-])%bind_Ret.
  apply rassert_Ret, negb_true_iff, bool_decide_eq_false in Hi. split; [done|]. split; [|done].
  intros j. simpl. rewrite (merge_sort_Permutation Z.le). set_solver.
Qed.

Lemma add_thread_tid_Ret p i : i ∉ p_threads p → ∃ p', add_thread_tid p i = Ret p'.
Proof. intros Hi. unfold add_thread_tid. rewrite bool_decide_false by done. by eexists. Qed.

Lemma live_count_add pt pt' t : threads pt !! tid t = None → is_zombie (state t) = false →
  threads pt' = <[tid t := t]> (threads pt) →
  Z.of_nat (size (live_tids pt')) = (Z.of_nat (size (live_tids pt)) + 1)%Z.
Proof.
  intros Hn Hz Heq. assert (live_tids pt' = {[tid t]} ∪ live_tids pt) as ->.
  { apply set_eq. intros j. rewrite elem_of_union, elem_of_singleton, !elem_of_live, Heq.
    destruct (decide (tid t = j)) as [<-|]; [rewrite lookup_insert_eq|rewrite lookup_insert_ne by done];
      naive_solver. }
  rewrite size_union, size_singleton; [lia|]. apply disjoint_singleton_l. rewrite elem_of_live.
  intros (? & ? & _). congruence.
Qed.

(** A new thread of a process, old or new, keeps the table's invariant. *)
Lemma add_thread_ok pt p p' t pt' : pt_ok pt → threads pt !! tid t = None → tid t ≠ POWERSAVE_TID →
  state t = Runnable → procs pt !! process t = Some p ∨ procs pt !! process t = None ∧ p_threads p = [] →
  add_thread_tid p (tid t) = Ret p' →
  add_thread (set_procs pt (<[process t := p']> (procs pt))) t = Ret pt' → pt_ok pt'.
Proof.
  intros [Hk Hp Hm Hr Hl Hc] Hn H0 Hst Hproc (_ & Hmem & _)%add_thread_tid_inv.
  unfold add_thread. intros (? & _ & [= <-])%bind_Ret.
  assert (∀ j u, <[tid t := t]> (threads pt) !! j = Some u →
    (j = tid t ∧ u = t) ∨ (j ≠ tid t ∧ threads pt !! j = Some u)) as Hcase.
  { intros j u. destruct (decide (tid t = j)) as [<-|]; [rewrite lookup_insert_eq; naive_solver|].
    rewrite lookup_insert_ne by done. auto. }
  split; cbn [set_children put_thread set_threads enqueue set_run_queue set_live_count set_procs
    threads children run_queue live_count procs].
  - intros j u [[-> ->]|[_ ?]]%Hcase; eauto.
  - intros j u [[-> ->]|[_ Hj]]%Hcase.
    { exists p'. rewrite lookup_insert_eq. split; [done|]. intros _. apply Hmem. auto. }
    destruct (Hp j u Hj) as (q & Hq & Hq'). destruct (decide (process t = process u)) as [Heq|].
    + rewrite Heq, lookup_insert_eq. exists p'. split; [done|]. intros Hz. apply Hmem. right.
      destruct Hproc as [Hproc|[Hproc _]]; rewrite Heq in Hproc; [|congruence]. simplify_eq. auto.
    + rewrite lookup_insert_ne by done. eauto.
  - intros h q j. destruct (decide (process t = h)) as [<-|].
    + rewrite lookup_insert_eq. intros [= <-]. rewrite Hmem. intros [->|Hj].
      { exists t. rewrite lookup_insert_eq, Hst. auto. }
      destruct Hproc as [Hproc|[_ Hnil]]; [|rewrite Hnil in Hj; set_solver].
      destruct (Hm _ p j Hproc Hj) as (u & ? & ? & ?). exists u. rewrite lookup_insert_ne by congruence. auto.
    + rewrite lookup_insert_ne by done. intros Hh Hj. destruct (Hm h q j Hh Hj) as (u & ? & ? & ?).
      exists u. rewrite lookup_insert_ne by congruence. auto.
  - intros j u [[-> ->]|[_ Hj]]%Hcase Hu; [set_solver|]. apply elem_of_app. eauto.
  - rewrite Hl. unfold wrapping_add. rewrite Zplus_mod_idemp_l. f_equal. symmetry.
    apply (live_count_add pt _ t); [done|by rewrite Hst|done].
  - assert (∀ q cs c, children pt !! q = Some cs → c ∈ cs → c ≠ tid t ∧
      ∃ u, <[tid t := t]> (threads pt) !! c = Some u ∧ parent_tid u = q) as Hold.
    { intros q cs c Hq Hcc. destruct (Hc q cs Hq) as [_ H]. destruct (H c Hcc) as (u & Hu & ?).
      assert (c ≠ tid t) by congruence. split; [done|]. exists u. by rewrite lookup_insert_ne. }
    intros q cs. destruct (decide (parent_tid t = q)) as [<-|]; [|rewrite lookup_insert_ne by done].
    + rewrite lookup_insert_eq. intros [= <-].
      destruct (children pt !! parent_tid t) as [cs|] eqn:E; simpl.
      * split; [apply NoDup_app; split; [by apply (Hc _ cs E)|]; split; [|apply NoDup_singleton]|].
        { intros c Hcc. rewrite list_elem_of_singleton. by apply (Hold _ cs c E). }
        intros c [Hcc|Hcc%list_elem_of_singleton]%elem_of_app; [by apply (Hold _ cs c E)|].
        exists t. by rewrite Hcc, lookup_insert_eq.
      * split; [apply NoDup_singleton|]. intros c Hcc%list_elem_of_singleton. exists t.
        by rewrite Hcc, lookup_insert_eq.
    + intros Hq. split; [by apply (Hc q cs Hq)|]. intros c Hcc. by apply (Hold q cs c Hq).
Qed.

(** Ids are handed out in order. *)
Definition fresh_above (pt : ProcessTable) (counter : Z) : Prop :=
  0 < counter ∧ ∀ i, is_Some (threads pt !! i) → i < counter.

Lemma get_next_tid_inv counter i counter' : get_next_tid counter = Ret (i, counter') →
  0 < counter < 2 ^ 64 → i = counter ∧ counter' = counter + 1.
Proof.
  unfold get_next_tid, wrapping_add. intros (? & H & [= <- <-])%bind_Ret Hc.
  apply rassert_Ret, negb_true_iff, Z.eqb_neq in H. split; [done|]. apply Z.mod_small. lia.
Qed.

Lemma add_thread_inv pt t pt' : add_thread pt t = Ret pt' →
  threads pt' = <[tid t := t]> (threads pt) ∧ procs pt' = procs pt ∧
  run_queue pt' = run_queue pt ++ [tid t] ∧
  children pt' = <[parent_tid t := default [] (children pt !! parent_tid t) ++ [tid t]]> (children pt).
Proof. unfold add_thread. by intros (? & _ & [= <-])%bind_Ret. Qed.

Lemma fresh_above_insert pt pt' t counter : fresh_above pt counter → tid t = counter →
  threads pt' = <[tid t := t]> (threads pt) → fresh_above pt' (counter + 1).
Proof.
  intros [H0 H] Ht Heq. split; [lia|]. intros i. rewrite Heq.
  destruct (decide (tid t = i)); [lia|]. rewrite lookup_insert_ne by done. intros ?%H. lia.
Qed.

Lemma clone_fork_inv pt counter cur regs pc stack h p r counter' pt' : fresh_above pt counter →
  counter < 2 ^ 63 → procs pt !! process cur = Some p →
  clone_fork pt counter cur regs pc stack h = Ret (r, counter', pt') →
  let t := thread_new counter (child_registers regs stack) (pc + 4) false h (main_tid p) in
  r = Okay counter ∧ counter' = counter + 1 ∧
  add_thread (set_procs pt (<[h := MkProcess [counter] counter (pgid p) (sid p)]> (procs pt))) t = Ret pt'.
Proof.
  intros [H0 _] Hlt Hp. unfold clone_fork, proc_of. rewrite Hp. bstep.
  intros ([i c] & [-> ->]%get_next_tid_inv & H)%bind_Ret; [|lia].
  apply bind_Ret in H as (cpc & [-> _]%add_Ret & H).
  apply bind_Ret in H as (q & Hq & H). apply bind_Ret in H as (pt1 & Hadd & H).
  unfold as_isize in H. rewrite (proj2 (Z.ltb_lt _ _)) in H by lia. simpl in H. injection H as <- <- <-.
  unfold add_thread_tid in Hq. simpl in Hq. by injection Hq as <-.
Qed.

Lemma fresh_above_None pt counter : fresh_above pt counter → threads pt !! counter = None.
Proof. intros [_ H]. apply eq_None_not_Some. intros ?%H. lia. Qed.

Lemma clone_fork_ok pt counter cur regs pc stack h p r counter' pt' : pt_ok pt →
  fresh_above pt counter → counter < 2 ^ 63 → procs pt !! h = None → procs pt !! process cur = Some p →
  clone_fork pt counter cur regs pc stack h = Ret (r, counter', pt') →
  pt_ok pt' ∧ fresh_above pt' counter'.
Proof.
  intros Hok Hfr Hlt Hh Hp (_ & -> & Hadd)%(clone_fork_inv _ _ _ _ _ _ _ p); [|done..]. split.
  - eapply (add_thread_ok pt (process_new counter (pgid p) (sid p)) _
      (thread_new counter (child_registers regs stack) (pc + 4) false h (main_tid p)));
      simpl; eauto using fresh_above_None. unfold POWERSAVE_TID. destruct Hfr. lia.
  - eapply fresh_above_insert; [done| |by apply add_thread_inv in Hadd as (-> & _)]. done.
Qed.

Lemma clone_fork_returns pt counter cur regs pc stack h p : fresh_above pt counter →
  counter < 2 ^ 63 → 0 ≤ pc < 2 ^ 64 - 4 → procs pt !! process cur = Some p →
  ∃ pt', clone_fork pt counter cur regs pc stack h = Ret (Okay counter, counter + 1, pt').
Proof.
  intros Hfr Hlt Hpc Hp. pose proof (fresh_above_None _ _ Hfr) as Hn. destruct Hfr as [H0 _].
  unfold clone_fork, proc_of, get_next_tid, as_isize. rewrite Hp. bstep.
  rewrite (proj2 (Z.eqb_neq counter (2 ^ 64 - 1))) by lia. bstep.
  rewrite (proj2 (add_Ret 64 pc 4 (pc + 4))) by lia. bstep.
  unfold add_thread_tid, process_new. cbn [p_threads]. rewrite bool_decide_false by set_solver. bstep.
  unfold add_thread. cbn [threads set_procs set_live_count enqueue set_run_queue tid thread_new]. rewrite Hn.
  rewrite bool_decide_false by (by intros []). bstep. rewrite (proj2 (Z.ltb_lt _ _)) by lia. bstep.
  unfold wrapping_add. rewrite Z.mod_small by lia. eauto.
Qed.

(** fork makes a new process. [clone_fork] returns; the child's id is new,
    its thread is in the table, runnable and queued, and resumes behind the call with
    a0 = 0 and every other register (the stack pointer apart, if one is given) as the
    parent's; it is the only thread of a process in the parent's group and session;
    it is listed as a child of the parent's main thread; the other threads are as
    they were; and the table's invariant holds. *)
Theorem clone_fork_spec pt counter cur regs pc stack h p : pt_ok pt →
  fresh_above pt counter → counter < 2 ^ 63 → 0 ≤ pc < 2 ^ 64 - 4 →
  procs pt !! h = None → procs pt !! process cur = Some p → length (registers regs) = 32%nat →
  ∃ pt', clone_fork pt counter cur regs pc stack h = Ret (Okay counter, counter + 1, pt') ∧
  pt_ok pt' ∧ fresh_above pt' (counter + 1) ∧
  threads pt !! counter = None ∧ counter ∈ run_queue pt' ∧
  (∀ j, j ≠ counter → threads pt' !! j = threads pt !! j) ∧
  (∃ t, threads pt' !! counter = Some t ∧ state t = Runnable ∧ program_counter t = pc + 4 ∧
    process t = h ∧ reg (register_state t) reg_a0 = 0 ∧
    ∀ n, n ≠ reg_a0 → n ≠ reg_sp ∨ stack = 0 → reg (register_state t) n = reg regs n) ∧
  procs pt' !! h = Some (MkProcess [counter] counter (pgid p) (sid p)) ∧
  is_child_of pt' (main_tid p) counter = true.
Proof.
  intros Hok Hfr Hlt Hpc Hh Hp Hlen. pose proof (fresh_above_None _ _ Hfr) as Hn.
  destruct (clone_fork_returns pt counter cur regs pc stack h p) as [pt' Hfork]; [done..|].
  exists pt'. destruct (clone_fork_ok _ _ _ _ _ _ _ p _ _ _ Hok Hfr Hlt Hh Hp Hfork) as [Hok' Hfr'].
  pose proof Hfork as (_ & _ & Hadd)%(clone_fork_inv _ _ _ _ _ _ _ p); [|done..].
  set (t := thread_new counter _ _ _ _ _) in *.
  destruct (add_thread_inv _ _ _ Hadd) as (Ht & Hpr & Hrq & Hch). simpl in Ht, Hpr, Hch.
  do 4 (split; [done|]).
  split; [rewrite Hrq; simpl; set_solver|].
  split; [intros j Hj; rewrite Ht; by apply lookup_insert_ne|]. split.
  - exists t. rewrite Ht, lookup_insert_eq. split; [done|]. do 3 (split; [done|]). simpl.
    unfold child_registers, reg, set_reg. destruct (stack =? 0) eqn:Es; simpl; split.
    + by rewrite list_lookup_insert_eq by (rewrite Hlen; unfold reg_a0; lia).
    + intros n Hn1 _. by rewrite list_lookup_insert_ne.
    + rewrite list_lookup_insert_ne by done.
      by rewrite list_lookup_insert_eq by (rewrite Hlen; unfold reg_a0; lia).
    + intros n Hn1 [?|Hs]; [|by subst]. by rewrite !list_lookup_insert_ne.
  - rewrite Hpr, lookup_insert_eq. split.
    + done.
    + unfold is_child_of. rewrite Hch, lookup_insert_eq. apply bool_decide_eq_true. set_solver.
Qed.

(** ** A clone that fails half way *)
(** Process [h] lists a thread that is not in the table, and its descriptors are
    not closed. *)
Definition phantom (h : nat) (c : Z) (pt : ProcessTable) : Prop :=
  threads pt !! c = None ∧ (∃ q, procs pt !! h = Some q ∧ c ∈ p_threads q) ∧
  CloseFds h ∉ effects pt.

Lemma phantom_put h c pt i t : phantom h c pt → is_Some (threads pt !! i) → phantom h c (put_thread pt i t).
Proof.
  intros (H1 & H2 & H3) [u Hu]. split; [|done]. simpl. rewrite lookup_insert_ne by congruence. done.
Qed.

Lemma phantom_wake h c pt i : phantom h c pt → phantom h c (wake_thread pt i).
Proof.
  intros H. unfold wake_thread. destruct (threads pt !! i) as [t|] eqn:Hi; [|done].
  destruct (wake_up t) as [t' woke].
  assert (phantom h c (put_thread pt i t')) by (apply phantom_put; eauto). by destruct woke.
Qed.

Lemma phantom_wakes h c pt : phantom h c pt → phantom h c (wake_wait_wakers pt).
Proof.
  intros H. unfold wake_wait_wakers. assert (phantom h c (set_wait_wakers pt [])) as H' by done.
  revert H'. generalize (set_wait_wakers pt []).
  induction (wait_wakers pt) as [|w ws IH]; simpl; auto using phantom_wake.
Qed.

Lemma phantom_bury h c pt i t p e : phantom h c pt → threads pt !! i = Some t →
  procs pt !! process t = Some p → phantom h c (bury pt i t p e).
Proof.
  intros (H1 & (q & Hq & Hc) & H3) Hi Hp. assert (i ≠ c) by congruence. split; [|split].
  - rewrite threads_bury. by rewrite lookup_insert_ne.
  - assert (procs (bury pt i t p e) = <[process t := remove_thread p i]> (procs pt)) as ->.
    { unfold bury. by destruct (clear_child_tid t), (has_no_threads _). }
    destruct (decide (process t = h)) as [<-|]; [|rewrite lookup_insert_ne by done; eauto].
    rewrite lookup_insert_eq. simplify_eq. eexists. split; [done|]. simpl. apply list_elem_of_filter. auto.
  - assert (has_no_threads (remove_thread p i) = true → process t ≠ h) as Hne.
    { unfold has_no_threads. intros Hnil%bool_decide_eq_true <-. simplify_eq. simpl in Hnil.
      apply (not_elem_of_nil c). rewrite <-Hnil. apply list_elem_of_filter. auto. }
    unfold bury. destruct (clear_child_tid t), (has_no_threads _); simpl;
      rewrite ?elem_of_app, ?list_elem_of_singleton; intuition congruence.
Qed.

Lemma phantom_reparent h c pt main : phantom h c pt → phantom h c (reparent pt main).
Proof.
  intros (H1 & H2 & H3). unfold reparent. destruct (children pt !! main) as [os|]; [|done].
  destruct (set_parents os INIT_TID (set_children pt (delete main (children pt)))) as (m & -> & Hm).
  split; [|done]. simpl. rewrite Hm. simpl. rewrite H1. by case_bool_decide.
Qed.

Lemma phantom_kill_body rec h c pt i e pt' :
  (∀ pt j pt', phantom h c pt → rec pt j e = Ret pt' → phantom h c pt') →
  phantom h c pt → kill_body rec pt i e = Ret pt' → phantom h c pt'.
Proof.
  intros Hrec Hph (? & _ & H)%bind_Ret. destruct (threads pt !! i) as [t|] eqn:Hi; [|by simplify_eq].
  destruct (is_zombie (state t)); [by simplify_eq|]. apply bind_Ret in H as (p & Hp%expect_Ret & H).
  cbv zeta in H.
  assert (phantom h c (wake_wait_wakers (bury pt i t p e))) as Hb by by apply phantom_wakes, phantom_bury.
  destruct (i =? main_tid p); [|by simplify_eq].
  destruct (main_tid p =? INIT_TID); [|simplify_eq; by apply phantom_reparent].
  revert H. apply (foldM_inv (λ pt j, rec pt j e) (λ _, phantom h c)); [done|].
  intros ? ? ? ? ? _. apply Hrec.
Qed.

Lemma phantom_kill h c pt i e pt' : phantom h c pt → kill pt i e = Ret pt' → phantom h c pt'.
Proof. apply phantom_kill_body. intros ? ? ?. by apply phantom_kill_body. Qed.

(** a clone that fails to write the parent's thread id leaks. The call returns
    the error, but the process keeps the id of a thread that does not exist; however
    its threads are killed afterwards, the process never becomes empty and its file
    descriptors are never closed. *)
Theorem clone_bad_ptid_leaks pt counter cur regs pc flags stack tls ctid p : pt_ok pt →
  fresh_above pt counter → counter < 2 ^ 63 → procs pt !! process cur = Some p → pc < 2 ^ 39 →
  flag flags CLONE_PARENT_SETTID = true → CloseFds (process cur) ∉ effects pt →
  ∃ pt', clone_thread pt counter cur regs pc flags stack tls ctid (Err EFAULT) =
      Ret (Err EFAULT, counter + 1, pt') ∧
    ∀ dying pt'', foldM (λ pt '(i, e), kill pt i e) dying pt' = Ret pt'' →
      (CloseFds (process cur) ∉ effects pt'') ∧ status pt'' counter = None ∧
      ∃ q, procs pt'' !! process cur = Some q ∧ counter ∈ p_threads q.
Proof.
  intros Hok [H0 Hfr] Hlt Hp Hpc Hf Hfx. unfold clone_thread, proc_of. rewrite Hp. bstep.
  assert (threads pt !! counter = None) as Hn by (apply eq_None_not_Some; intros ?%Hfr; lia).
  assert (get_next_tid counter = Ret (counter, counter + 1)) as ->.
  { unfold get_next_tid, wrapping_add. rewrite (proj2 (Z.eqb_neq _ _)) by lia. bstep.
    by rewrite Z.mod_small by lia. }
  bstep. rewrite (proj2 (add_Ret 64 pc 4 (pc + 4))) by lia. bstep.
  destruct (add_thread_tid_Ret p counter) as [q Hq].
  { intros Hc. destruct (ok_member pt Hok _ p counter Hp Hc) as (? & ? & _). congruence. }
  rewrite Hq, Hf. bstep. eexists. split; [done|]. intros dying pt'' Hrun.
  assert (phantom (process cur) counter pt'') as (H1 & H2 & H3).
  { revert Hrun. apply (foldM_inv _ (λ _, phantom (process cur) counter)).
    - split; [done|]. split; [|done]. exists q. simpl. rewrite lookup_insert_eq. split; [done|].
      destruct (add_thread_tid_inv _ _ _ Hq) as (_ & Hm & _). apply Hm. auto.
    - intros ? [i e] ? ? ? _. apply phantom_kill. }
  split; [done|]. split; [unfold status; by rewrite H1|done].
Qed.

(** ** Orphans *)
(** a process whose main thread has exited and been reaped forks orphans that
    nobody can reap: the child's parent is the reaped main thread, and init does
    not get the child. *)
Theorem fork_after_main_reaped pt counter cur regs pc stack h p r counter' pt' : pt_ok pt →
  procs pt !! process cur = Some p → threads pt !! main_tid p = None → main_tid p ≠ counter →
  main_tid p ≠ INIT_TID → fresh_above pt counter → counter < 2 ^ 63 →
  clone_fork pt counter cur regs pc stack h = Ret (r, counter', pt') →
  ∃ t, threads pt' !! counter = Some t ∧ threads pt' !! parent_tid t = None ∧
    is_child_of pt' INIT_TID counter = false.
Proof.
  intros Hok Hp Hnone Hmc Hmi Hfr Hlt (_ & _ & Hadd)%(clone_fork_inv _ _ _ _ _ _ _ p); [|done..].
  destruct (add_thread_inv _ _ _ Hadd) as (Ht & _ & _ & Hch). simpl in Ht, Hch.
  eexists. rewrite Ht, lookup_insert_eq. split; [done|]. simpl. rewrite lookup_insert_ne by done.
  split; [done|]. unfold is_child_of. rewrite Hch, lookup_insert_ne by done.
  destruct (children pt !! INIT_TID) as [cs|] eqn:Hcs; [|done]. apply bool_decide_eq_false. intros Hc.
  destruct (ok_children pt Hok _ cs Hcs) as [_ H]. destruct (H counter Hc) as (u & Hu & _).
  by rewrite (fresh_above_None pt counter) in Hu.
Qed.

(** ** Small defects *)
(** [kill(INT_MIN, sig)] overflows. *)
Lemma kill_min_pid_panics pt cur sig s : validate_signal sig = Okay s → do_kill pt cur (- 2 ^ 31) sig = Panic.
Proof. intros Hv. unfold do_kill. by rewrite Hv. Qed.

(** A thread made by clone is its own process's child: [getppid] returns the
    process's own id. *)
Lemma thread_getppid_is_getpid pt counter cur regs pc flags stack tls ctid r counter' pt' :
  0 < counter < 2 ^ 63 →
  clone_thread pt counter cur regs pc flags stack tls ctid (Okay tt) = Ret (r, counter', pt') →
  ∃ t, threads pt' !! counter = Some t ∧ getppid t = getpid pt' t.
Proof.
  intros Hc. unfold clone_thread. intros (p & Hp%expect_Ret & H)%bind_Ret.
  apply bind_Ret in H as ([i c] & [-> ->]%get_next_tid_inv & H); [|lia].
  apply bind_Ret in H as (cpc & _ & H). apply bind_Ret in H as (q & Hq & H).
  assert ((if flag flags CLONE_PARENT_SETTID then Okay tt else Okay tt) = Okay tt) as Hu by by destruct (flag _ _).
  rewrite Hu in H. apply bind_Ret in H as (pt1 & Hadd & H). apply bind_Ret in H as (? & _ & [= _ _ <-]).
  destruct (add_thread_inv _ _ _ Hadd) as (Ht & Hpr & _). rewrite Ht.
  assert (main_tid q = main_tid p) as Hm by by apply (add_thread_tid_inv p counter q).
  destruct (flag flags CLONE_CHILD_CLEARTID); simpl in *; (eexists; rewrite lookup_insert_eq; split; [done|]);
    unfold getppid, getpid, proc_of; simpl; rewrite Hpr; simpl; rewrite lookup_insert_eq; simpl; by rewrite Hm.
Qed.
End lemmas.
