(* ===== verification/ProcessTheorems.v ===== *)
(** Theorems on the process table: what kill and wait do to every thread, and
    that a waiting parent is woken. *)
From stdpp Require Import sorting.
From S2P Require Import Prelude Headers Signal Thread ProcessTable ProcessOps.

Section theorems.
Context `{SH : SigHeaders}.


(** [kill] satisfies the equation of the source's recursion. *)
Lemma kill_body_ext rec1 rec2 pt i e : i ≠ INIT_TID → kill_body rec1 pt i e = kill_body rec2 pt i e.
Proof.
  intros Hi. unfold kill_body. destruct (rassert _); [|done]. bstep.
  destruct (threads pt !! i) as [t|]; [|done]. destruct (is_zombie _); [done|].
  destruct (proc_of pt t) as [p|]; [|done]. bstep. cbv zeta.
  destruct (i =? main_tid p) eqn:E; [|done]. apply Z.eqb_eq in E as <-.
  by rewrite (proj2 (Z.eqb_neq _ _) Hi).
Qed.

Lemma kill_unfold pt i e : kill pt i e = kill_body kill pt i e.
Proof.
  destruct (decide (i = INIT_TID)) as [->|Hi]; [|by apply kill_body_ext].
  unfold kill at 1, kill_body at 1 3. destruct (rassert _); [|done]. bstep.
  destruct (threads pt !! INIT_TID) as [t|]; [|done]. destruct (is_zombie _); [done|].
  destruct (proc_of pt t) as [p|]; [|done]. bstep. cbv zeta.
  destruct (_ =? main_tid p); [|done]. destruct (_ =? INIT_TID); [|done].
  set (l := filter _ _). assert (∀ j, j ∈ l → j ≠ INIT_TID) as Hl.
  { intros j [[_ ?] _]%list_elem_of_filter. done. }
  clearbody l. generalize (wake_wait_wakers (bury pt INIT_TID t p e)).
  induction l as [|j l IH]; intros q; simpl; [done|].
  assert (kill_body (λ _ _ _, Panic) q j e = kill q j e) as -> by (apply kill_body_ext, Hl; set_solver).
  destruct (kill q j e); [|done]. apply IH. set_solver.
Qed.

(** when init's main thread dies the system ends: [kill] returns with every
    thread a zombie, and the table counts no live thread, which is what the scheduler
    shuts the machine down on. *)
Theorem init_death_ends_all pt t p e : pt_ok pt → threads pt !! INIT_TID = Some t →
  is_zombie (state t) = false → procs pt !! process t = Some p → main_tid p = INIT_TID →
  ∃ pt', kill pt INIT_TID e = Ret pt' ∧ pt_ok pt' ∧
    (∀ j, status pt' j = died e <$> status pt j) ∧ is_empty pt' = true.
Proof.
  intros Hok Hi Hz Hp Hm. unfold kill, kill_body at 1. change (INIT_TID =? POWERSAVE_TID) with false.
  bstep. rewrite Hi, Hz. unfold proc_of. rewrite Hp. bstep. cbv zeta. rewrite Hm, Z.eqb_refl.
  set (pt1 := wake_wait_wakers (bury pt INIT_TID t p e)). set (l := filter _ _).
  assert (pt_ok pt1) as Hok1 by by apply wake_wait_wakers_ok, bury_ok.
  destruct (kills_status (kill_body (λ _ _ _, Panic)) e l) with (pt := pt1) as (pt' & H & Hok' & Hst); [|done|].
  { intros q j Hq [[? ?] _]%list_elem_of_filter.
    destruct (kill_body_status (λ _ _ _, Panic) q j e) as (q' & Hq1 & Hs); [done..|].
    exists q'. split; [done|]. split; [|done]. eapply kill_body_ok; [|exact Hq|exact Hq1]. by intros. }
  assert (∀ j, status pt' j = died e <$> status pt j) as Hst'.
  { intros j. rewrite Hst. unfold pt1. rewrite status_wakes, status_bury. case_decide as Hj.
    - rewrite decide_False; [done|]. intros ->. apply list_elem_of_filter in Hj as [[_ ?] _]. done.
    - case_decide as Hj'; [subst; unfold status; rewrite Hi; simpl; by destruct (state t)|].
      destruct (status pt j) as [o|] eqn:Ho; [|done]. exfalso. apply Hj.
      assert (status pt1 j = Some o) as Ho1.
      { unfold pt1. by rewrite status_wakes, status_bury, decide_False. }
      apply list_elem_of_filter. unfold status in Ho1. apply fmap_Some in Ho1 as (u & Hu & _).
      split; [split; [by apply (ok_key pt1 Hok1 j u)|done]|]. apply elem_of_sorted_keys. eauto. }
  exists pt'. split; [done|]. split; [done|]. split; [done|].
  unfold is_empty. rewrite (ok_live pt' Hok').
  assert (live_tids pt' = ∅) as ->; [|done]. apply set_eq. intros j.
  rewrite elem_of_live_status, Hst'. destruct (status pt j) as [[]|]; set_solver.
Qed.

(** *** Waiting *)
Definition waits_for (pt : ProcessTable) (target : WaitPid) (c : Z) (t : Thread) : Prop :=
  match target with
  | Specific w => c = w
  | AnyChild => True
  | PgidOf g => in_group pt g t = true
  end.

Lemma select_child_target pt parent target test c t : select_child pt parent target test = Some c →
  threads pt !! c = Some t → waits_for pt target c t.
Proof.
  unfold select_child. destruct (children pt !! parent) as [cs|]; [|done].
  destruct target as [w| |g]; simpl; [|done|].
  - destruct (_ && _); by intros [= <-].
  - intros [_ H]%find_Some Hc. unfold thread_is in H. rewrite Hc in H. by apply andb_true_iff in H as [_ ?].
Qed.

Lemma select_child_None pt parent target test c t : select_child pt parent target test = None →
  is_child_of pt parent c = true → threads pt !! c = Some t → waits_for pt target c t → test t = false.
Proof.
  unfold select_child, is_child_of. destruct (children pt !! parent) as [cs|]; [|done].
  intros H Hc%bool_decide_eq_true Ht Hw. destruct target as [w| |g]; simpl in *; subst.
  - rewrite bool_decide_true in H by done. unfold thread_is in H. rewrite Ht in H. by destruct (test t).
  - rewrite find_None in H. specialize (H c Hc). unfold thread_is in H. by rewrite Ht in H.
  - rewrite find_None in H. specialize (H c Hc). unfold thread_is in H. rewrite Ht, Hw in H.
    by rewrite andb_true_r in H.
Qed.

Lemma no_children pt parent c : has_any_child_of pt parent = false → is_child_of pt parent c = false.
Proof.
  unfold has_any_child_of, is_child_of. destruct (children pt !! parent) as [cs|]; [|done].
  intros H%negb_false_iff%bool_decide_eq_true. subst. by apply bool_decide_eq_false, not_elem_of_nil.
Qed.

(** C21: [wait4] is right whenever it is polled. It returns a child only if the
    child is a zombie, asked for and the caller's, with the status it died with, and
    removes it from the table and from every list of children, so it is reaped once;
    it fails with ECHILD only if the caller has no children; and it waits only if no
    child asked for is a zombie, and then the caller is registered to be woken. *)
Theorem wait_child_spec pt me parent target : pt_ok pt →
  ∃ r pt', wait_child pt me parent target false false = Ret (r, pt') ∧ pt_ok pt' ∧
  match r with
  | Some (inr (c, st)) => ∃ t e, threads pt !! c = Some t ∧ state t = Zombie e ∧ st = to_wstatus e ∧
      parent_tid t = parent ∧ waits_for pt target c t ∧
      threads pt' = delete c (threads pt) ∧ ∀ p, is_child_of pt' p c = false
  | Some (inl err) => err = ECHILD ∧ ∀ c, is_child_of pt parent c = false
  | None => me ∈ wait_wakers pt' ∧ ∀ c t, is_child_of pt parent c = true → threads pt !! c = Some t →
      waits_for pt target c t → is_zombie (state t) = false
  end.
Proof.
  intros Hok. assert (∀ r pt', wait_child pt me parent target false false = Ret (r, pt') → pt_ok pt') as Hok'
    by (intros ? ?; by apply wait_child_ok). revert Hok'. unfold wait_child, take_zombie.
  destruct (select_child _ _ _ _) as [c|] eqn:Hsel.
  - pose proof Hsel as (cs & t & Hcs & Hin & Hc & Hz)%select_child_Some. rewrite Hc. bstep.
    destruct (state t) as [| | | |e] eqn:Hst; try done. bstep. intros Hok'. do 2 eexists.
    split; [done|]. pose proof (Hok' _ _ eq_refl) as Hok1. split; [done|]. exists t, e. do 3 (split; [done|]).
    split; [destruct (ok_children pt Hok parent cs Hcs) as [_ H]; destruct (H c Hin) as (? & ? & ?); congruence|].
    split; [by eapply select_child_target|]. split; [done|]. intros p. unfold is_child_of.
    destruct (children _ !! p) as [cs'|] eqn:Hp; [|done]. apply bool_decide_eq_false. intros Hcc.
    destruct (ok_children _ Hok1 p cs' Hp) as [_ H]. destruct (H c Hcc) as (u & Hu & _).
    simpl in Hu. by rewrite lookup_delete_eq in Hu.
  - bstep. destruct (has_any_child_of pt parent) eqn:Hany; bstep; intros Hok'; (do 2 eexists; split; [done|];
      split; [by eapply Hok'|]).
    + split; [simpl; set_solver|]. intros c t Hc Ht Hw.
      by apply (select_child_None pt parent target (λ t, is_zombie (state t)) c t).
    + split; [done|]. intros c. by apply no_children.
Qed.

Lemma wake_runnable pt i me t : threads pt !! me = Some t → state t = Runnable →
  threads (wake_thread pt i) !! me = Some t.
Proof.
  intros Hme Hst. unfold wake_thread. destruct (threads pt !! i) as [u|] eqn:Hi; [|done].
  destruct (decide (i = me)) as [->|Hne].
  - rewrite Hme in Hi. injection Hi as <-. unfold wake_up. rewrite Hst. simpl. by rewrite lookup_insert_eq.
  - destruct (wake_up u) as [u' []]; simpl; by rewrite lookup_insert_ne.
Qed.

Lemma wakes_runnable ws me : ∀ pt t, threads pt !! me = Some t →
  state t = Runnable ∨ state t = Waiting ∧ me ∈ ws →
  ∃ t', threads (foldl wake_thread pt ws) !! me = Some t' ∧ state t' = Runnable.
Proof.
  induction ws as [|w ws IH]; intros pt t Hme H; simpl.
  { destruct H as [?|[_ ?]]; [eauto|set_solver]. }
  destruct H as [Hr|[Hw Hin]]; [eapply IH; [by apply wake_runnable|auto]|].
  destruct (decide (w = me)) as [->|Hne].
  - eapply (IH _ (set_state t Runnable)); [|auto]. unfold wake_thread, wake_up. rewrite Hme, Hw. simpl.
    by rewrite lookup_insert_eq.
  - eapply (IH _ t); [|set_solver]. unfold wake_thread. destruct (threads pt !! w) as [u|]; [|done].
    destruct (wake_up u) as [u' []]; simpl; by rewrite lookup_insert_ne.
Qed.

(** a parent that waits is not forgotten: whatever thread dies, every thread
    registered by [wait4] and asleep is made runnable and put in the run queue, and
    the registrations are used up. *)
Theorem wait_wakeup_not_lost pt i u e me t : pt_ok pt → threads pt !! i = Some u →
  is_zombie (state u) = false → i ≠ INIT_TID →
  me ∈ wait_wakers pt → threads pt !! me = Some t → state t = Waiting → me ≠ i →
  ∃ pt' t', kill pt i e = Ret pt' ∧
    threads pt' !! me = Some t' ∧ state t' = Runnable ∧ me ∈ run_queue pt'.
Proof.
  intros Hok Hi Hz Hinit Hme Ht Hw Hne.
  destruct (kill_status pt i e) as (pt' & Hk & Hok' & _); [done|by apply (ok_key pt Hok i u)|done|].
  exists pt'. rewrite Hk.
  cut (∃ t', threads pt' !! me = Some t' ∧ state t' = Runnable).
  { intros (t' & H1 & H2). exists t'. split; [done|]. split; [done|]. split; [done|]. by eapply ok_run. }
  unfold kill, kill_body at 1 in Hk. apply bind_Ret in Hk as (? & _ & Hk). rewrite Hi, Hz in Hk.
  apply bind_Ret in Hk as (p & _ & Hk). cbv zeta in Hk.
  destruct (wakes_runnable (wait_wakers (bury pt i u p e)) me (set_wait_wakers (bury pt i u p e) []) t)
    as (t1 & H1 & H2).
  { simpl. rewrite threads_bury. by rewrite lookup_insert_ne. }
  { right. split; [done|]. unfold bury. by destruct (clear_child_tid u), (has_no_threads _). }
  change (foldl _ _ _) with (wake_wait_wakers (bury pt i u p e)) in H1.
  destruct (i =? main_tid p) eqn:E; [|simplify_eq; eauto]. apply Z.eqb_eq in E.
  rewrite <-E, (proj2 (Z.eqb_neq _ _) Hinit) in Hk. injection Hk as <-.
  unfold reparent. destruct (children _ !! i) as [os|]; [|eauto].
  destruct (set_parents os INIT_TID (set_children (wake_wait_wakers (bury pt i u p e))
    (delete i (children (wake_wait_wakers (bury pt i u p e)))))) as (m & -> & Hm).
  simpl. rewrite Hm. simpl. rewrite H1. case_bool_decide; simpl; eauto.
Qed.
End theorems.

(** ** A small system *)
#[local] Instance wit_sig : SigHeaders := linux_signals.
#[local] Instance wit_clone : CloneHeaders := linux_clone.

(** Init alone; then with a child; then with the child dead. *)
Definition sys_init : Thread := thread_new 1 frame_zero 0x1000 false 0 0.
Definition sys1 : ProcessTable :=
  MkTable {[1 := sys_init]} {[0 := [1]]} [] [1] 1 {[0%nat := MkProcess [1] 1 1 1]} [].
Definition run_or {A} (d : A) (o : outcome A) : A := match o with Ret a => a | Panic => d end.
Definition sys2 : ProcessTable :=
  (run_or (Okay 0, 0, sys1) (clone_fork sys1 2 sys_init frame_zero 0x1000 0 1)).2.
(** Init waits for it. *)
Definition sys3 : ProcessTable :=
  put_thread (register_wait_waker sys2 1) 1 (set_state sys_init Waiting).

Lemma sys1_ok : pt_ok sys1 ∧ fresh_above sys1 2.
Proof.
  split; [|split; [done|]].
  - eapply (add_thread_ok table_new (process_new 1 1 1) _ sys_init); [apply table_new_ok|done|done|done|
      by right|reflexivity|reflexivity].
  - intros i [t Ht]. unfold sys1 in Ht. simpl in Ht. apply lookup_singleton_Some in Ht as [<- _]. done.
Qed.

Lemma sys2_eq : clone_fork sys1 2 sys_init frame_zero 0x1000 0 1 = Ret (Okay 2, 3, sys2).
Proof. reflexivity. Qed.

Lemma sys2_ok : pt_ok sys2 ∧ fresh_above sys2 3.
Proof.
  destruct sys1_ok as [H1 H2].
  exact (clone_fork_ok sys1 2 sys_init frame_zero 0x1000 0 1 (MkProcess [1] 1 1 1) (Okay 2) 3 sys2
    H1 H2 eq_refl eq_refl eq_refl sys2_eq).
Qed.

Lemma sys3_ok : pt_ok sys3.
Proof.
  eapply (put_thread_ok _ 1 sys_init); [apply set_wait_wakers_ok, sys2_ok|reflexivity|by repeat split|done].
Qed.

Lemma clone_fork_spec_witness : ∃ pt',
  clone_fork sys1 2 sys_init frame_zero 0x1000 0 1 = Ret (Okay 2, 3, pt') ∧ is_child_of pt' 1 2 = true.
Proof.
  destruct sys1_ok as [H1 H2].
  destruct (clone_fork_spec sys1 2 sys_init frame_zero 0x1000 0 1 (MkProcess [1] 1 1 1) H1 H2)
    as (pt' & H & _ & _ & _ & _ & _ & _ & _ & Hc); [done..|]. exists pt'. split; [exact H|exact Hc].
Defined.

Definition sys2_child : Thread := thread_new 2 frame_zero 0x1004 false 1 1.

Lemma sys2_child_eq : threads sys2 !! 2 = Some sys2_child ∧ procs sys2 !! 1%nat = Some (MkProcess [2] 2 1 1).
Proof. by vm_compute. Qed.


Lemma init_death_ends_all_witness : ∃ pt', kill sys2 1 (Exited 0) = Ret pt' ∧ is_empty pt' = true.
Proof.
  destruct (init_death_ends_all sys2 sys_init (MkProcess [1] 1 1 1) (Exited 0) (proj1 sys2_ok))
    as (pt' & H & _ & _ & He); [reflexivity..|].
  by exists pt'.
Defined.

Lemma wait_child_spec_witness :
  ∃ pt', wait_child sys2 1 1 AnyChild false false = Ret (None, pt') ∧ 1 ∈ wait_wakers pt'.
Proof.
  destruct (wait_child_spec sys2 1 1 AnyChild (proj1 sys2_ok)) as (r & pt' & H & _ & Hr).
  assert (wait_child sys2 1 1 AnyChild false false = Ret (None, register_wait_waker sys2 1)) as Heq by reflexivity.
  rewrite Heq in H. injection H as <- <-. exists (register_wait_waker sys2 1). split; [exact Heq|]. apply Hr.
Defined.

Lemma wait_wakeup_not_lost_witness : ∃ pt' t', kill sys3 2 (Exited 3) = Ret pt' ∧
  threads pt' !! 1 = Some t' ∧ state t' = Runnable.
Proof.
  destruct (wait_wakeup_not_lost sys3 2 sys2_child (Exited 3) 1 (set_state sys_init Waiting) sys3_ok)
    as (pt' & t' & Hk & H1 & H2 & _); [reflexivity|reflexivity|done|by left|reflexivity|reflexivity|done|].
  by exists pt', t'.
Defined.

Lemma clone_bad_ptid_leaks_witness : ∃ pt',
  clone_thread sys2 3 sys2_child frame_zero 0x2000 0x110f00 0 0 0 (Err EFAULT) = Ret (Err EFAULT, 4, pt') ∧
  ∀ pt'', kill pt' 2 (Exited 0) = Ret pt'' → CloseFds 1 ∉ effects pt''.
Proof.
  destruct sys2_ok as [H1 H2].
  destruct (clone_bad_ptid_leaks sys2 3 sys2_child frame_zero 0x2000 0x110f00 0 0 0 (MkProcess [2] 2 1 1) H1 H2)
    as (pt' & H & Hk); [done|reflexivity|done|reflexivity|by apply not_elem_of_nil|].
  exists pt'. split; [exact H|]. intros pt'' Hk'.
  apply (Hk [(2, Exited 0)] pt''). simpl. rewrite Hk'. reflexivity.
Defined.

(** The child starts a thread, its main thread exits and is reaped by init, and
    the thread forks; everybody dies, init reaps the thread, and has no child left
    while the grandchild is a zombie. *)
Definition sys4 : ProcessTable :=
  (run_or (Okay 0, 0, sys1) (clone_thread sys2 3 sys2_child frame_zero 0x2000 0x10f00 0 0 0 (Okay tt))).2.
Definition sys5 : ProcessTable := run_or sys1 (kill sys4 2 (Exited 0)).
Definition sys6 : ProcessTable := (run_or (None, sys1) (wait_child sys5 1 1 AnyChild false false)).2.
Definition sys6_thread : Thread := thread_new 3 frame_zero 0x2004 false 1 2.

Lemma sys4_ok : pt_ok sys4 ∧ fresh_above sys4 4.
Proof.
  destruct sys2_ok as [H1 H2]. split.
  - eapply (add_thread_ok sys2 (MkProcess [2] 2 1 1) _ sys6_thread); [done|reflexivity|done|done|by left|
      reflexivity|reflexivity].
  - apply (fresh_above_insert sys2 sys4 sys6_thread 3); [done|reflexivity|reflexivity].
Qed.

Lemma sys5_eq : kill sys4 2 (Exited 0) = Ret sys5.
Proof. by vm_compute. Qed.

Lemma sys6_eq : wait_child sys5 1 1 AnyChild false false = Ret (Some (Okay (2, 0)), sys6).
Proof. by vm_compute. Qed.

Lemma sys6_small : bool_decide (map_Forall (λ i _, i < 4) (threads sys6)) = true.
Proof. by vm_compute. Qed.

Lemma sys6_ok : pt_ok sys6 ∧ fresh_above sys6 4.
Proof.
  assert (pt_ok sys5) as H5 by (exact (kill_ok sys4 2 (Exited 0) sys5 (proj1 sys4_ok) sys5_eq)).
  split; [|split; [done|]].
  - exact (wait_child_ok sys5 1 1 AnyChild false false (Some (Okay (2, 0))) sys6 H5 sys6_eq).
  - intros i [t Ht]. pose proof sys6_small as H%bool_decide_eq_true. exact (H i t Ht).
Qed.

Definition sys7 : ProcessTable :=
  (run_or (Okay 0, 0, sys1) (clone_fork sys6 4 sys6_thread frame_zero 0x3000 0 2)).2.
Definition sys8 : ProcessTable :=
  (run_or (None, sys1) (pt ← foldM (λ pt i, kill pt i (Exited 0)) [4; 3] sys7;
                        wait_child pt 1 1 AnyChild false false)).2.

Lemma sys6_proc : procs sys6 !! process sys6_thread = Some (MkProcess [3] 2 1 1).
Proof. by vm_compute. Qed.

Lemma sys6_main : threads sys6 !! main_tid (MkProcess [3] 2 1 1) = None.
Proof. by vm_compute. Qed.

Lemma sys7_eq : clone_fork sys6 4 sys6_thread frame_zero 0x3000 0 2 = Ret (Okay 4, 5, sys7).
Proof. by vm_compute. Qed.

Lemma sys8_eq : status sys8 4 = Some (Some (Exited 0)) ∧
  wait_child sys8 1 1 AnyChild false false = Ret (Some (Err ECHILD), sys8).
Proof. by vm_compute. Qed.

Lemma fork_after_main_reaped_witness : ∃ t,
  clone_fork sys6 4 sys6_thread frame_zero 0x3000 0 2 = Ret (Okay 4, 5, sys7) ∧
  threads sys7 !! 4 = Some t ∧ threads sys7 !! parent_tid t = None ∧
  status sys8 4 = Some (Some (Exited 0)) ∧
  wait_child sys8 1 1 AnyChild false false = Ret (Some (Err ECHILD), sys8).
Proof.
  destruct sys6_ok as [H1 H2].
  destruct (fork_after_main_reaped sys6 4 sys6_thread frame_zero 0x3000 0 2 (MkProcess [3] 2 1 1) (Okay 4) 5
    sys7 H1 sys6_proc sys6_main) as (t & Ht & Hp & _); [done|done|exact H2|done|exact sys7_eq|].
  exists t. split; [exact sys7_eq|]. split; [exact Ht|]. split; [exact Hp|exact sys8_eq].
Defined.
