(* ===== verification/Scheduler.v ===== *)
(** Scheduling: crates/kernel/src/processes/scheduler.rs and the system call entry
    of crates/kernel/src/processes/syscall_runner.rs, on any number of processors.

    A processor is in user mode, in the loop of [schedule], or about to run a
    suspended system call; each step below is what the code does while it holds the
    processor's scheduler: one turn of [prepare_next_process], one
    [run_syscall_task], one [dispatch]. What a system call does to the rest of the
    system happens in steps of its own; here it is its result, [None] if its future
    is pending. *)
From S2P Require Import Prelude Headers Signal Thread SignalDelivery ProcessTable.

(** ** State *)
Inductive Phase := UserMode | Scheduling | RunTask (task : nat).

Record CpuState := MkCpu {
  cur : Z;                   (* current_thread; POWERSAVE_TID for the powersave thread *)
  phase : Phase;
  trap_frame : TrapFrame;
  sepc : Z;
  to_kernel : bool;          (* set_ret_to_kernel_mode *)
  timer : Z;                 (* the last set_timer *)
}.

Definition set_cur (c : CpuState) v := MkCpu v (phase c) (trap_frame c) (sepc c) (to_kernel c) (timer c).
Definition set_phase (c : CpuState) v := MkCpu (cur c) v (trap_frame c) (sepc c) (to_kernel c) (timer c).
Definition set_regs (c : CpuState) f pc k := MkCpu (cur c) (phase c) f pc k (timer c).
Definition set_timer_ms (c : CpuState) ms := MkCpu (cur c) (phase c) (trap_frame c) (sepc c) (to_kernel c) ms.

Section scheduler.
Context `{SH : SigHeaders} {M : Type} `{UM : UserMemory M}.
Context (powersave : Thread) (errno_code : errno → Z).

Record System := MkSys { table : ProcessTable; cpus : gmap Z CpuState; mems : gmap nat M }.

Definition set_table (s : System) pt := MkSys pt (cpus s) (mems s).
Definition set_cpu (s : System) (c : Z) (cp : CpuState) := MkSys (table s) (<[c := cp]> (cpus s)) (mems s).
Definition set_mem (s : System) (h : nat) (m : M) := MkSys (table s) (cpus s) (<[h := m]> (mems s)).

Definition cpu_of (s : System) (c : Z) : outcome CpuState := expect (cpus s !! c).
Definition goto (s : System) (c : Z) (ph : Phase) : outcome System :=
  cp ← cpu_of s c; Ret (set_cpu s c (set_phase cp ph)).

Definition put (s : System) (i : Z) (t : Thread) : System := set_table s (put_thread (table s) i t).

(** ** [CpuScheduler] *)
Definition queue_current_process_back (s : System) (c : Z) : outcome System :=
  cp ← cpu_of s c;
  if cur cp =? POWERSAVE_TID then Ret s
  else
    let s := set_cpu s c (set_cur cp POWERSAVE_TID) in
    match threads (table s) !! cur cp with
    | Some t =>
        if bool_decide (state t = Running c) then
          let t := set_state t Runnable in
          let t := set_program_counter t (sepc cp) in
          let t := set_register_state t (trap_frame cp) in
          Ret (set_table s (enqueue (put_thread (table s) (cur cp) t) (cur cp)))
        else Ret s
    | None => Ret s
    end.

(** Pop the run queue: [false] if the entry is stale. *)
Definition pick_next (s : System) (c : Z) : outcome (System * bool) :=
  match run_queue (table s) with
  | [] => Ret (s, true)
  | i :: q =>
      let s := set_table s (set_run_queue (table s) q) in
      match threads (table s) !! i with
      | Some t =>
          if bool_decide (state t = Runnable) then
            let s := put s i (set_state t (Running c)) in
            cp ← cpu_of s c;
            Ret (set_cpu s c (set_cur cp i), true)
          else Ret (s, false)
      | None => Ret (s, false)
      end
  end.

(** [write_trap_frame], [write_sepc], [set_ret_to_kernel_mode] *)
Definition load_registers (s : System) (c : Z) (t : Thread) : outcome System :=
  cp ← cpu_of s c;
  Ret (set_cpu s c (set_regs cp (register_state t) (program_counter t) (in_kernel_mode t))).

(** [deliver_signal] in the thread's process. *)
Definition deliver (s : System) (i : Z) (t : Thread) : outcome (SignalDeliveryResult * Thread * System) :=
  m ← expect (mems s !! process t);
  r ← deliver_signal m t;
  '(d, t, m) ← expect r;
  Ret (d, t, put (set_mem s (process t) m) i t).

Definition kill_tids (pt : ProcessTable) (tids : list Z) (e : ExitStatus) : outcome ProcessTable :=
  foldM (λ pt i, kill pt i e) tids pt.

Definition kill_current_process (s : System) (t : Thread) (e : ExitStatus) : outcome System :=
  p ← proc_of (table s) t;
  pt ← kill_tids (table s) (p_threads p) e;
  Ret (set_table s pt).

Definition stop_thread (sig : Z) (pt : ProcessTable) (i : Z) : ProcessTable :=
  match threads pt !! i with
  | Some t =>
      if is_zombie (state t) then pt
      else put_thread pt i (set_stop_signal (set_stopped_notified (set_state t Stopped) false) sig)
  | None => pt
  end.

Definition stop_current_process (s : System) (t : Thread) (sig : Z) : outcome System :=
  p ← proc_of (table s) t;
  let pt := foldl (stop_thread sig) (table s) (p_threads p) in
  pt ← send_signal pt (parent_tid t) SIGCHLD;
  Ret (set_table s (add_effects (wake_wait_wakers pt) [Ipi])).

(** [set_cpu_reg_for_current_thread] *)
Definition is_dead_or_stopped (st : ThreadState) : bool :=
  match st with Zombie _ | Stopped => true | _ => false end.

Definition set_cpu_reg_for_current_thread (s : System) (c i : Z) : outcome (System * bool) :=
  match threads (table s) !! i with
  | None => Ret (s, false)
  | Some t =>
      if is_dead_or_stopped (state t) then Ret (s, false)
      else
        rassert (bool_decide (state t = Running c));;
        s ← load_registers s c t;
        Ret (s, true)
  end.

(** The end of [schedule]. *)
Definition to_user (s : System) (c : Z) : outcome System :=
  cp ← cpu_of s c;
  Ret (set_cpu s c (set_timer_ms (set_phase cp UserMode) (if cur cp =? POWERSAVE_TID then 200 else 100))).

(** One turn of [prepare_next_process] with what [schedule] does with its result;
    [None] is the shutdown. *)
Definition prepare_step (s : System) (c : Z) : outcome (option System) :=
  s ← queue_current_process_back s c;
  if is_empty (table s) then Ret None
  else
    cp ← cpu_of s c;
    rassert (cur cp =? POWERSAVE_TID);;
    '(s, accepted) ← pick_next s c;
    if negb accepted then Ret (Some s)
    else
      cp ← cpu_of s c;
      if cur cp =? POWERSAVE_TID then
        s ← load_registers s c powersave; s ← to_user s c; Ret (Some s)
      else
        match threads (table s) !! cur cp with
        | None => Ret (Some s)
        | Some t =>
            match take_syscall_task t with
            | (Some task, t) => s ← goto (put s (cur cp) t) c (RunTask task); Ret (Some s)
            | (None, _) =>
                if is_dead_or_stopped (state t) then Ret (Some s)
                else
                  '(d, t, s) ← deliver s (cur cp) t;
                  match d with
                  | DeliveryTerminate e =>
                      pt ← kill_process_of (table s) (cur cp) e; Ret (Some (set_table s pt))
                  | DeliveryStop sig => s ← stop_current_process s t sig; Ret (Some s)
                  | DeliveryContinue =>
                      rassert (bool_decide (state t = Running c));;
                      s ← load_registers s c t; s ← to_user s c; Ret (Some s)
                  end
            end
        end.

(** [Ok(ret) => ret, Err(errno) => -(errno as isize)], as a register. *)
Definition syscall_return (r : result Z) : Z :=
  match r with
  | inr ret => ret mod 2 ^ 64
  | inl e => (- errno_code e) mod 2 ^ 64
  end.

Definition return_registers (t : Thread) (ret : Z) : outcome Thread :=
  let t := set_register_state t (set_reg (register_state t) reg_a0 ret) in
  pc ← add 64 (program_counter t) 4;
  Ret (set_program_counter t pc).

(** What follows [deliver_signal] on the way back to user space: [true] if the
    thread goes on. *)
Definition after_delivery (s : System) (c i : Z) (t : Thread) (d : SignalDeliveryResult)
    : outcome (System * bool) :=
  match d with
  | DeliveryTerminate e => s ← kill_current_process s t e; Ret (s, false)
  | DeliveryStop sig => s ← stop_current_process s t sig; Ret (s, false)
  | DeliveryContinue => set_cpu_reg_for_current_thread s c i
  end.

Inductive BlockedAction :=
  | BlockedNone
  | BlockedTerminate (e : ExitStatus)
  | BlockedStop (sig : Z)
  | BlockedInterrupt.

(** The loop over pending signals of a call that is still blocked. Every turn takes
    one signal, of 31. *)
Fixpoint blocked_action (fuel : nat) (t : Thread) : outcome (BlockedAction * Thread) :=
  match fuel with
  | O => Panic
  | S fuel =>
      match peek_first_unblocked_signal t with
      | None => Ret (BlockedNone, t)
      | Some sig =>
          sa ← get_sigaction_raw t sig;
          match sa_handler sa with
          | None =>
              '(_, t') ← take_next_pending_signal t;
              match default_action sig with
              | Terminate => e ← signaled sig; Ret (BlockedTerminate e, t')
              | Stop => Ret (BlockedStop sig, t')
              | _ => blocked_action fuel t'
              end
          | Some f =>
              if f =? 1 then '(_, t') ← take_next_pending_signal t; blocked_action fuel t'
              else Ret (BlockedInterrupt, t)
          end
      end
  end.

(** The poll is ready. *)
Definition task_ready (s : System) (c i : Z) (t : Thread) (r : result Z) : outcome (System * bool) :=
  if registers_replaced t then
    set_cpu_reg_for_current_thread (put s i (clear_wakeup_pending (set_registers_replaced t false))) c i
  else
    t ← return_registers (clear_wakeup_pending t) (syscall_return r);
    '(d, t, s) ← deliver s i t;
    after_delivery s c i t d.

(** The poll is pending. *)
Definition task_pending (s : System) (c i : Z) (t : Thread) (task : nat) : outcome (System * bool) :=
  '(action, t) ← blocked_action 32 t;
  match action with
  | BlockedTerminate e => s ← kill_current_process (put s i t) t e; Ret (s, false)
  | BlockedStop sig =>
      let t := store_syscall_task t task in
      s ← stop_current_process (put s i t) t sig; Ret (s, false)
  | BlockedInterrupt =>
      t ← return_registers t (syscall_return (Err EINTR));
      '(d, t, s) ← deliver s i t;
      after_delivery s c i t d
  | BlockedNone =>
      '(t, should_enqueue) ← set_syscall_task_and_suspend t task;
      let pt := put_thread (table s) i t in
      Ret (set_table s (if should_enqueue : bool then enqueue pt i else pt), false)
  end.

Definition run_syscall_task (s : System) (c : Z) (task : nat) (r : option (result Z))
    : outcome (System * bool) :=
  cp ← cpu_of s c;
  match threads (table s) !! cur cp with
  | None => Ret (s, false)
  | Some t =>
      match r with
      | Some r => task_ready s c (cur cp) t r
      | None => task_pending s c (cur cp) t task
      end
  end.

(** [run_syscall_task] in the loop of [schedule]. *)
Definition task_step (s : System) (c : Z) (task : nat) (r : option (result Z)) : outcome System :=
  '(s, completed) ← run_syscall_task s c task r;
  if completed : bool then to_user s c else goto s c Scheduling.

(** ** [LinuxSyscallRunner::dispatch] *)
(** [check_thread_ownership_and_reschedule_if_needed]: [true] if the processor
    still owns the thread. *)
Definition check_thread_ownership (s : System) (c i : Z) (t : Thread) (frame : TrapFrame)
    : outcome (System * bool) :=
  match state t with
  | Running c' => if c' =? c then Ret (s, true) else Panic
  | Waiting | Runnable | Stopped =>
      cp ← cpu_of s c;
      pc ← add 64 (sepc cp) 4;
      Ret (put s i (set_program_counter (set_register_state t frame) pc), false)
  | Zombie _ => Ret (s, false)
  end.

Definition dispatch_ready (s : System) (c i : Z) (t : Thread) (frame : TrapFrame) (r : result Z)
    : outcome (System * bool) :=
  if registers_replaced t then
    set_cpu_reg_for_current_thread (put s i (set_registers_replaced t false)) c i
  else
    let frame := set_reg frame reg_a0 (syscall_return r) in
    '(s, owned) ← check_thread_ownership s c i t frame;
    if negb owned then Ret (s, false)
    else
      cp ← cpu_of s c;
      pc ← add 64 (sepc cp) 4;
      '(d, t, s) ← deliver s i (set_program_counter (set_register_state t frame) pc);
      after_delivery s c i t d.

Definition dispatch_pending (s : System) (c i : Z) (t : Thread) (frame : TrapFrame) (task : nat)
    : outcome (System * bool) :=
  cp ← cpu_of s c;
  let t := set_program_counter (set_register_state t frame) (sepc cp) in
  '(t, should_enqueue) ← set_syscall_task_and_suspend t task;
  let pt := put_thread (table s) i t in
  Ret (set_table s (if should_enqueue : bool then enqueue pt i else pt), false).

Definition dispatch (s : System) (c : Z) (task : nat) (r : option (result Z)) : outcome System :=
  cp ← cpu_of s c;
  let i := cur cp in
  match threads (table s) !! i with
  | None => goto s c Scheduling
  | Some t =>
      '(s, back) ← match r with
                   | Some r => dispatch_ready s c i t (trap_frame cp) r
                   | None => dispatch_pending s c i t (trap_frame cp) task
                   end;
      if back : bool then Ret s else goto s c Scheduling
  end.
End scheduler.
