(* ===== verification/SchedulerTheorems.v ===== *)
(** Theorems on the scheduler: a thread runs on one processor at a time and
    runnable threads are queued, in every interleaving of the processors' steps with
    signals, wake-ups, forks and deaths, as long as a stopped thread is continued only
    after its processor has let go of it; and what happens otherwise. *)
From S2P Require Import Prelude Headers KUtil Bytes Signal Thread SignalDelivery ProcessTable ProcessOps Scheduler.

(** ** What delivering signals leaves alone *)
Definition kept (t t' : Thread) : Prop :=
  tid t' = tid t ∧ process t' = process t ∧ parent_tid t' = parent_tid t ∧
  state t' = state t.

Lemma kept_refl t : kept t t.
Proof. done. Qed.

Lemma kept_trans t t1 t2 : kept t t1 → kept t1 t2 → kept t t2.
Proof. intros (? & ? & ? & ?) (? & ? & ? & ?). split_and!; congruence. Qed.

Lemma kept_same t t' : kept t t' → same_place t t'.
Proof. intros (? & ? & ? & H). unfold same_place. rewrite H. split_and!; done. Qed.

Section signals.
Context `{SH : SigHeaders} {M : Type} `{UM : UserMemory M}.

Lemma repended_kept t t' : repended t t' → kept t t'.
Proof. by intros [p ->]. Qed.

Lemma take_next_kept t r t' : take_next_pending_signal t = Ret (r, t') → kept t t'.
Proof.
  unfold take_next_pending_signal. destruct (peek_first_unblocked_signal t); [|by intros [= <- <-]].
  intros (t1 & H & [= <- <-])%bind_Ret. by eapply repended_kept, clear_pending_repended.
Qed.

Lemma setup_signal_frame_kept m t sig h a ok t' m' :
  setup_signal_frame m t sig h a = Ret (ok, t', m') → kept t t'.
Proof.
  unfold setup_signal_frame. intros (top & _ & H)%bind_Ret. apply bind_Ret in H as (w & _ & H).
  destruct w as [e|m1]; [by simplify_eq|]. apply bind_Ret in H as (bit & _ & H).
  destruct (negb (_ =? 0)); [|by simplify_eq].
  apply bind_Ret in H as (r & Hr & [= <- <- <-]). destruct r as [e|[old t1]]; [done|].
  unfold set_sigaction in Hr. destruct (NSIG <=? sig); [done|].
  apply bind_Ret in Hr as (? & _ & [= _ <-]). done.
Qed.

Lemma deliver_signal_fuel_kept fuel : ∀ m t d t' m',
  deliver_signal_fuel fuel m t = Ret (Some (d, t', m')) → kept t t'.
Proof.
  induction fuel as [|fuel IH]; intros m t d t' m'; cbn [deliver_signal_fuel]; [done|].
  intros ([next t1] & H1%take_next_kept & H)%bind_Ret. eapply kept_trans; [exact H1|]. clear H1 t.
  destruct next as [sig|]; [|by simplify_eq]. apply bind_Ret in H as (a & _ & H).
  destruct (sa_handler a) as [f|].
  - destruct (f =? 1); [by eapply IH|]. apply bind_Ret in H as ([[ok t2] m2] & H2%setup_signal_frame_kept & H).
    eapply kept_trans; [exact H2|]. clear H2 t1. destruct ok; [by simplify_eq|].
    destruct (sig =? SIGSEGV); [apply bind_Ret in H as (? & _ & ?); by simplify_eq|].
    apply bind_Ret in H as (t3 & H3%raise_signal_repended%repended_kept & H).
    eapply kept_trans; [exact H3|]. by eapply IH.
  - destruct (default_action sig); [apply bind_Ret in H as (? & _ & ?); by simplify_eq|by eapply IH|
      by simplify_eq|by eapply IH].
Qed.

Lemma blocked_action_kept fuel : ∀ t a t', blocked_action fuel t = Ret (a, t') → kept t t'.
Proof.
  induction fuel as [|fuel IH]; intros t a t'; cbn [blocked_action]; [done|].
  destruct (peek_first_unblocked_signal t) as [sig|]; [|by intros [= <- <-]].
  intros (sa & _ & H)%bind_Ret. destruct (sa_handler sa) as [f|].
  - destruct (f =? 1); [|by simplify_eq]. apply bind_Ret in H as ([? t1] & H1%take_next_kept & H).
    eapply kept_trans; [exact H1|]. by eapply IH.
  - apply bind_Ret in H as ([? t1] & H1%take_next_kept & H). eapply kept_trans; [exact H1|].
    destruct (default_action sig); [apply bind_Ret in H as (? & _ & ?); by simplify_eq|by eapply IH|
      by simplify_eq|by eapply IH].
Qed.
End signals.

(** ** Changes that do not concern a running thread *)
Definition calm (st st' : ThreadState) : Prop :=
  st' = st ∨ is_dead_or_stopped st' = true ∨ (st = Waiting ∧ st' = Runnable).

Lemma calm_trans st st1 st2 : calm st st1 → calm st1 st2 → calm st st2.
Proof.
  unfold calm. intros [->|[H|[-> ->]]] [->|[H'|[H1 H2]]]; auto; subst; try done.
Qed.

Definition calm_table (pt pt' : ProcessTable) : Prop :=
  ∀ i t', threads pt' !! i = Some t' → ∃ t, threads pt !! i = Some t ∧ calm (state t) (state t').

Lemma calm_refl pt pt' : threads pt' = threads pt → calm_table pt pt'.
Proof. intros Heq i t Hi. rewrite Heq in Hi. exists t. split; [done|by left]. Qed.

Lemma calm_table_trans pt pt1 pt2 : calm_table pt pt1 → calm_table pt1 pt2 → calm_table pt pt2.
Proof.
  intros H1 H2 i t2 Hi. destruct (H2 i t2 Hi) as (t1 & Hi1 & ?). destruct (H1 i t1 Hi1) as (t & ? & ?).
  exists t. split; [done|]. by eapply calm_trans.
Qed.

Lemma calm_put pt i t t' : threads pt !! i = Some t → calm (state t) (state t') →
  calm_table pt (put_thread pt i t').
Proof.
  intros Hi Hc j u. simpl. destruct (decide (i = j)) as [<-|Hne].
  - rewrite lookup_insert_eq. intros [= <-]. eauto.
  - rewrite lookup_insert_ne by done. intros Hj. exists u. split; [done|by left].
Qed.

Lemma calm_enqueue pt i : calm_table pt (enqueue pt i).
Proof. by apply calm_refl. Qed.

Lemma calm_foldl {A} (f : ProcessTable → A → ProcessTable) l : (∀ pt x, calm_table pt (f pt x)) →
  ∀ pt, calm_table pt (foldl f pt l).
Proof.
  intros Hf. induction l as [|x l IH]; intros pt; simpl; [by apply calm_refl|].
  eapply calm_table_trans; [apply Hf|apply IH].
Qed.

Lemma calm_foldM {A} (f : ProcessTable → A → outcome ProcessTable) l pt pt' :
  (∀ pt x pt', f pt x = Ret pt' → calm_table pt pt') → foldM f l pt = Ret pt' → calm_table pt pt'.
Proof.
  intros Hf. apply (foldM_inv f (λ _, calm_table pt)); [by apply calm_refl|].
  intros ? ? ? ? ? _ H1 H2. eapply calm_table_trans; eauto.
Qed.

Lemma calm_wake pt i : calm_table pt (wake_thread pt i).
Proof.
  unfold wake_thread. destruct (threads pt !! i) as [t|] eqn:Hi; [|by apply calm_refl].
  assert (calm_table pt (put_thread pt i (wake_up t).1)) as H.
  { eapply calm_put; [done|]. unfold wake_up, calm. destruct (state t) eqn:E; simpl; rewrite ?E; auto. }
  destruct (wake_up t) as [t' woke]. by destruct woke.
Qed.

Lemma calm_wakes pt : calm_table pt (wake_wait_wakers pt).
Proof.
  unfold wake_wait_wakers. eapply calm_table_trans; [by apply (calm_refl _ (set_wait_wakers pt []))|].
  apply calm_foldl. apply calm_wake.
Qed.

Section calm_signals.
Context `{SH : SigHeaders}.

Lemma calm_send pt i sig pt' : (∀ t, threads pt !! i = Some t → state t = Stopped → sig ≠ SIGCONT) →
  send_signal pt i sig = Ret pt' → calm_table pt pt'.
Proof.
  intros Hg. unfold send_signal. destruct (threads pt !! i) as [t|] eqn:Hi; [|intros [= <-]; by apply calm_refl].
  destruct (is_zombie _); [intros [= <-]; by apply calm_refl|].
  intros (t1 & [_ He]%raise_signal_repended%repended_same & (hit & _ & H)%bind_Ret)%bind_Ret.
  destruct (bool_decide_reflect (state t1 = Stopped)) as [Hst|_].
  { rewrite (proj2 (Z.eqb_neq _ _)) in H by (apply (Hg t); congruence). simpl in H.
    rewrite (bool_decide_false (state t1 = Waiting)), andb_false_r in H by congruence. simplify_eq.
    eapply calm_put; [done|]. left. congruence. }
  rewrite andb_false_r in H.
  destruct (bool_decide_reflect (state t1 = Waiting)) as [Hst|_].
  - destruct (_ && true); simplify_eq.
    + eapply calm_table_trans; [|apply calm_enqueue]. eapply calm_put; [done|]. right; right. split; [congruence|done].
    + eapply calm_put; [done|]. left. congruence.
  - rewrite andb_false_r in H. simplify_eq. eapply calm_put; [done|]. left. congruence.
Qed.

Lemma calm_bury pt i t p e : threads pt !! i = Some t → calm_table pt (bury pt i t p e).
Proof.
  intros Hi. eapply calm_table_trans; [eapply (calm_put pt i t (set_syscall_task (set_state t (Zombie e)) None))|];
    [done|right; by left|]. apply calm_refl. by rewrite threads_bury.
Qed.

Lemma calm_reparent pt main : calm_table pt (reparent pt main).
Proof.
  unfold reparent. destruct (children pt !! main) as [os|]; [|by apply calm_refl].
  destruct (set_parents os INIT_TID (set_children pt (delete main (children pt)))) as (m & -> & Hm).
  intros i u. simpl. rewrite Hm. simpl. case_bool_decide.
  - intros (t & Ht & ->)%fmap_Some. exists t. split; [done|by left].
  - intros Hi. exists u. split; [done|by left].
Qed.

Lemma calm_kill_body rec pt i e pt' : (∀ pt j pt', rec pt j e = Ret pt' → calm_table pt pt') →
  kill_body rec pt i e = Ret pt' → calm_table pt pt'.
Proof.
  intros Hrec (? & _ & H)%bind_Ret. destruct (threads pt !! i) as [t|] eqn:Hi; [|simplify_eq; by apply calm_refl].
  destruct (is_zombie (state t)); [simplify_eq; by apply calm_refl|]. apply bind_Ret in H as (p & _ & H).
  cbv zeta in H. eapply calm_table_trans; [by apply (calm_bury pt i t p e)|].
  eapply calm_table_trans; [apply calm_wakes|].
  destruct (i =? main_tid p); [|simplify_eq; by apply calm_refl].
  destruct (main_tid p =? INIT_TID); [|simplify_eq; by apply calm_reparent].
  revert H. by apply calm_foldM.
Qed.

Lemma calm_kill pt i e pt' : kill pt i e = Ret pt' → calm_table pt pt'.
Proof. apply calm_kill_body. intros ? ? ?. by apply calm_kill_body. Qed.

Lemma calm_kills pt l e pt' : kill_tids pt l e = Ret pt' → calm_table pt pt'.
Proof. apply calm_foldM. intros ? ? ?. apply calm_kill. Qed.

Lemma calm_stop sig pt i : calm_table pt (stop_thread sig pt i).
Proof.
  unfold stop_thread. destruct (threads pt !! i) as [t|] eqn:Hi; [|by apply calm_refl].
  destruct (is_zombie _); [by apply calm_refl|]. eapply calm_put; [done|]. right; by left.
Qed.

Lemma stop_thread_ok sig pt i : pt_ok pt → pt_ok (stop_thread sig pt i).
Proof.
  intros Hok. unfold stop_thread. destruct (threads pt !! i) as [t|] eqn:Hi; [|done].
  destruct (is_zombie _) eqn:Hz; [done|]. eapply put_thread_ok; [done|done| |done].
  unfold same_place. rewrite Hz. by split_and!.
Qed.

Lemma stop_threads_ok sig l : ∀ pt, pt_ok pt → pt_ok (foldl (stop_thread sig) pt l).
Proof. induction l; simpl; auto using stop_thread_ok. Qed.
End calm_signals.

(** ** The system *)
Section system.
Context `{SH : SigHeaders} {M : Type} `{UM : UserMemory M}.
Context (powersave : Thread) (errno_code : errno → Z).

(** A processor executes its current thread unless it is looking for another. *)
Definition executes (s : System (M := M)) (c i : Z) : Prop :=
  ∃ cp, cpus s !! c = Some cp ∧ phase cp ≠ Scheduling ∧ cur cp = i ∧ i ≠ POWERSAVE_TID.

(** The invariant: the table's, a thread marked running is the current one of that
    processor, a processor executes threads marked so (or already dead or stopped),
    and no two processors execute the same thread. *)
Record sys_ok (s : System (M := M)) : Prop := {
  so_table : pt_ok (table s);
  so_running : ∀ i t c, threads (table s) !! i = Some t → state t = Running c →
    ∃ cp, cpus s !! c = Some cp ∧ cur cp = i;
  so_executes : ∀ c i t, executes s c i → threads (table s) !! i = Some t →
    state t = Running c ∨ is_dead_or_stopped (state t) = true;
  so_unique : ∀ c c' i, executes s c i → executes s c' i → c = c';
}.

Lemma set_table_ok s pt : sys_ok s → pt_ok pt → calm_table (table s) pt → sys_ok (set_table s pt).
Proof.
  intros [Ht Hr He Hu] Hok Hc. split; [done| | |done].
  - intros i t c Hi Hst. simpl in Hi. destruct (Hc i t Hi) as (u & Hu' & [Heq|[Hd|[_ Heq]]]);
      [|by rewrite Hst in Hd|congruence]. eapply Hr; [exact Hu'|congruence].
  - intros c i t Hx Hi. simpl in Hi. destruct (Hc i t Hi) as (u & Hu' & [Heq|[Hd|[Hw Heq]]]); [|auto|].
    + rewrite Heq. by eapply (He c i u).
    + destruct (He c i u Hx Hu') as [?|Hd]; [congruence|]. by rewrite Hw in Hd.
Qed.

Lemma put_ok s i t t' : sys_ok s → threads (table s) !! i = Some t → kept t t' → sys_ok (put s i t').
Proof.
  intros Hok Hi Hk. pose proof (so_table _ Hok) as Ht. apply set_table_ok; [done| |].
  - eapply put_thread_ok; [done|done|by apply kept_same|]. destruct Hk as (_ & _ & _ & ->). by eapply ok_run.
  - eapply calm_put; [done|]. left. by destruct Hk as (_ & _ & _ & ->).
Qed.

(** A processor's registers, timer and the end of its execution are nobody else's
    business. *)
Lemma set_cpu_ok s c cp cp' : sys_ok s → cpus s !! c = Some cp → cur cp' = cur cp →
  (phase cp' ≠ Scheduling → phase cp ≠ Scheduling) → sys_ok (set_cpu s c cp').
Proof.
  intros [Ht Hr He Hu] Hc H1 H2.
  assert (∀ c' i, executes (set_cpu s c cp') c' i → executes s c' i) as Hx.
  { intros c' i (cp1 & Hc' & Hph & Hcur). simpl in Hc'. destruct (decide (c = c')) as [<-|].
    - rewrite lookup_insert_eq in Hc'. simplify_eq. exists cp. rewrite <-H1. auto.
    - rewrite lookup_insert_ne in Hc' by done. exists cp1. auto. }
  split; [done| |intros c' i t Hx'%Hx; by apply He|intros c1 c2 i H3%Hx H4%Hx; by eapply Hu].
  intros i t c' Hi Hst. destruct (Hr i t c' Hi Hst) as (cp1 & Hc' & Hcur). simpl.
  destruct (decide (c = c')) as [<-|]; [|rewrite lookup_insert_ne by done; eauto].
  rewrite lookup_insert_eq. exists cp'. split; [done|]. congruence.
Qed.

(** A processor that picked a thread starts to execute it. *)
Lemma start_executing s c cp cp' : sys_ok s → cpus s !! c = Some cp → phase cp = Scheduling →
  cur cp' = cur cp →
  cur cp = POWERSAVE_TID ∨ (∃ t, threads (table s) !! cur cp = Some t ∧ state t = Running c) →
  sys_ok (set_cpu s c cp').
Proof.
  intros [Ht Hr He Hu] Hc Hph Hcur Hrun.
  assert (∀ c' i, executes (set_cpu s c cp') c' i → c' = c ∧ i = cur cp ∧ i ≠ POWERSAVE_TID ∨
    c' ≠ c ∧ executes s c' i) as Hx.
  { intros c' i (cp1 & Hc' & Hph' & Hi & H0). simpl in Hc'. destruct (decide (c = c')) as [<-|].
    - rewrite lookup_insert_eq in Hc'. simplify_eq. left. by rewrite <-Hcur.
    - rewrite lookup_insert_ne in Hc' by done. right. split; [done|]. exists cp1. auto. }
  assert (∀ c', executes s c' (cur cp) → c' = c) as Hno.
  { intros c' Hc'. pose proof Hc' as (cp1 & Hcp1 & Hph1 & _ & H0).
    destruct Hrun as [?|(t & Hi & Hst)]; [done|].
    destruct (He c' (cur cp) t Hc' Hi) as [?|Hd]; [congruence|by rewrite Hst in Hd]. }
  split; [done| | |].
  - intros i t c' Hi Hst. destruct (Hr i t c' Hi Hst) as (cp1 & Hc' & Hcur'). simpl.
    destruct (decide (c = c')) as [<-|]; [|rewrite lookup_insert_ne by done; eauto].
    rewrite lookup_insert_eq. exists cp'. split; [done|]. congruence.
  - intros c' i t [(-> & -> & H0)|[_ ?]]%Hx Hi; [|by eapply He].
    destruct Hrun as [?|(u & Hu' & Hst)]; [done|]. left. simpl in Hi. congruence.
  - intros c1 c2 i [(-> & -> & _)|[Hn1 H1]]%Hx [(Hc2 & Hi2 & _)|[Hn2 H2]]%Hx; [done| | |by eapply Hu].
    + symmetry. by apply Hno.
    + subst. by apply Hno.
Qed.

Lemma pop_ok pt i q : pt_ok pt → run_queue pt = i :: q →
  (∀ t, threads pt !! i = Some t → state t ≠ Runnable) → pt_ok (set_run_queue pt q).
Proof.
  intros [Hk Hp Hm Hr Hl Hc] Hq Hi. split; try done. intros j t Hj Hst. simpl in *.
  assert (j ∈ run_queue pt) as Hin by eauto. rewrite Hq in Hin. apply elem_of_cons in Hin as [->|?]; [|done].
  exfalso. by eapply Hi.
Qed.

(** A thread that nobody executes may change to any state but running. *)
Lemma change_idle_ok s i t' pt' : sys_ok s → threads pt' = <[i := t']> (threads (table s)) → pt_ok pt' →
  (∀ c, state t' ≠ Running c) → (∀ c, ¬ executes s c i) → sys_ok (set_table s pt').
Proof.
  intros [Ht Hr He Hu] Heq Hok Hst Hno.
  assert (∀ j u, threads pt' !! j = Some u →
    j = i ∧ u = t' ∨ j ≠ i ∧ threads (table s) !! j = Some u) as Hcase.
  { intros j u. rewrite Heq. destruct (decide (i = j)) as [<-|]; [rewrite lookup_insert_eq; naive_solver|].
    rewrite lookup_insert_ne by done. auto. }
  split; [done| | |done].
  - intros j u c [[-> ->]|[_ Hj]]%Hcase Hrun; [by destruct (Hst c)|by eapply Hr].
  - intros c j u Hx [[-> ->]|[_ Hj]]%Hcase; [by destruct (Hno c)|by eapply He].
Qed.

Lemma make_runnable_ok s i t t' : sys_ok s → threads (table s) !! i = Some t → same_place t t' →
  state t' = Runnable → (∀ c, ¬ executes s c i) →
  sys_ok (set_table s (enqueue (put_thread (table s) i t') i)).
Proof.
  intros Hok Hi Hsame Hst Hno. apply (change_idle_ok s i t'); [done|done| |congruence|done].
  eapply put_enqueue_ok; [apply Hok|done|done].
Qed.

Lemma unset_cur_ok s c cp : sys_ok s → cpus s !! c = Some cp →
  (∀ t, threads (table s) !! cur cp = Some t → state t ≠ Running c) →
  sys_ok (set_cpu s c (set_cur cp POWERSAVE_TID)).
Proof.
  intros [Ht Hr He Hu] Hc Hnot.
  assert (∀ c' i, executes (set_cpu s c (set_cur cp POWERSAVE_TID)) c' i → executes s c' i) as Hx.
  { intros c' i (cp1 & Hc' & Hph' & Hi & H0). simpl in Hc'. destruct (decide (c = c')) as [<-|].
    - rewrite lookup_insert_eq in Hc'. by simplify_eq.
    - rewrite lookup_insert_ne in Hc' by done. exists cp1. auto. }
  split; [done| |intros c' i t Hx'%Hx; by apply He|intros c1 c2 i H3%Hx H4%Hx; by eapply Hu].
  intros i t c' Hi Hst. destruct (Hr i t c' Hi Hst) as (cp1 & Hc' & Hcur). simpl.
  assert (c ≠ c') by (intros <-; simplify_eq; by eapply Hnot).
  rewrite lookup_insert_ne by done. eauto.
Qed.

(** The thread of a processor that schedules goes back to the queue. *)
Lemma queue_back_ok s c cp s' : sys_ok s → cpus s !! c = Some cp → phase cp = Scheduling →
  queue_current_process_back s c = Ret s' →
  sys_ok s' ∧ ∃ cp', cpus s' !! c = Some cp' ∧ phase cp' = Scheduling ∧ cur cp' = POWERSAVE_TID.
Proof.
  intros Hok Hc Hph. unfold queue_current_process_back, cpu_of. rewrite Hc. bstep.
  destruct (cur cp =? POWERSAVE_TID) eqn:Hz.
  { intros [= <-]. apply Z.eqb_eq in Hz. eauto 6. }
  intros H. split.
  2: { exists (set_cur cp POWERSAVE_TID). destruct (threads _ !! cur cp) as [t|];
         [destruct (bool_decide _)|]; simplify_eq; simpl; by rewrite lookup_insert_eq. }
  cbn [set_cpu table] in H. destruct (threads (table s) !! cur cp) as [t|] eqn:Hi.
  - destruct (bool_decide_reflect (state t = Running c)) as [Hst|Hst]; injection H as <-.
    + set (t' := set_register_state _ _).
      apply (unset_cur_ok (set_table s (enqueue (put_thread (table s) (cur cp) t') (cur cp))) c cp); [|done|].
      * apply (make_runnable_ok s (cur cp) t t'); [done|done| |done|].
        { unfold same_place. simpl. by rewrite Hst. }
        intros c' Hx. pose proof Hx as (cp1 & Hc1 & Hph1 & _).
        destruct (so_executes _ Hok c' _ t Hx Hi) as [?|Hd]; [|by rewrite Hst in Hd].
        assert (c' = c) by congruence. subst. congruence.
      * simpl. intros u. rewrite lookup_insert_eq. by intros [= <-].
    + apply unset_cur_ok; [done|done|]. intros u ?. congruence.
  - injection H as <-. apply unset_cur_ok; [done|done|]. intros u ?. congruence.
Qed.

(** The next thread is taken. *)
Lemma pick_next_ok s c cp s' b : sys_ok s → cpus s !! c = Some cp → phase cp = Scheduling →
  cur cp = POWERSAVE_TID → pick_next s c = Ret (s', b) →
  sys_ok s' ∧ ∃ cp', cpus s' !! c = Some cp' ∧ phase cp' = Scheduling ∧
    (cur cp' = POWERSAVE_TID ∨ ∃ t, threads (table s') !! cur cp' = Some t ∧ state t = Running c).
Proof.
  intros Hok Hc Hph Hcur. unfold pick_next. destruct (run_queue (table s)) as [|i q] eqn:Hq.
  { intros [= <- <-]. split; [done|]. exists cp. auto. }
  cbn [set_table table set_run_queue threads]. pose proof (so_table _ Hok) as Ht.
  destruct (threads (table s) !! i) as [t|] eqn:Hi.
  - destruct (bool_decide_reflect (state t = Runnable)) as [Hst|Hst].
    + unfold cpu_of. cbn [put set_table cpus]. rewrite Hc. bstep. intros [= <- <-]. split.
      2: { exists (set_cur cp i). simpl. rewrite lookup_insert_eq. split; [done|]. split; [done|]. right.
           eexists. by rewrite lookup_insert_eq. }
      destruct Hok as [_ Hr He Hu].
      assert (∀ c' j, executes (set_cpu s c (set_cur cp i)) c' j → executes s c' j) as Hx.
      { intros c' j (cp1 & Hc' & Hph' & Hj & H0). simpl in Hc'. destruct (decide (c = c')) as [<-|].
        - rewrite lookup_insert_eq in Hc'. by simplify_eq.
        - rewrite lookup_insert_ne in Hc' by done. exists cp1. auto. }
      split.
      * apply (pop_ok (put_thread (table s) i (set_state t (Running c))) i q); [|done|].
        { eapply put_thread_ok; [done|done| |done]. unfold same_place. simpl. by rewrite Hst. }
        intros u. simpl. rewrite lookup_insert_eq. by intros [= <-].
      * intros j u c' Hj Hrun. simpl in *. destruct (decide (i = j)) as [<-|].
        { rewrite lookup_insert_eq in Hj. injection Hj as <-. simpl in Hrun. injection Hrun as <-.
          exists (set_cur cp i). by rewrite lookup_insert_eq. }
        rewrite lookup_insert_ne in Hj by done. destruct (Hr j u c' Hj Hrun) as (cp1 & Hc' & ?).
        assert (c ≠ c').
        { intros <-. simplify_eq. rewrite Hcur in Hj. by apply (ok_key _ Ht) in Hj as [_ ?]. }
        rewrite lookup_insert_ne by done. eauto.
      * intros c' j u Hx'%Hx Hj. simpl in Hj. destruct (decide (i = j)) as [<-|].
        { destruct (He c' i t Hx' Hi) as [?|Hd]; [congruence|by rewrite Hst in Hd]. }
        rewrite lookup_insert_ne in Hj by done. by eapply He.
      * intros c1 c2 j H1%Hx H2%Hx. by eapply Hu.
    + intros [= <- <-]. split; [|exists cp; auto]. apply set_table_ok; [done| |by apply calm_refl].
      apply (pop_ok _ i); [done|done|]. intros u ?. congruence.
  - intros [= <- <-]. split; [|exists cp; auto]. apply set_table_ok; [done| |by apply calm_refl].
    apply (pop_ok _ i); [done|done|]. intros u ?. congruence.
Qed.

Lemma deliver_ok s i t0 t d t' s' : sys_ok s → threads (table s) !! i = Some t0 → kept t0 t →
  deliver s i t = Ret (d, t', s') →
  sys_ok s' ∧ kept t0 t' ∧ threads (table s') !! i = Some t' ∧ cpus s' = cpus s.
Proof.
  intros Hok Hi Hk. unfold deliver, deliver_signal. intros (m & _ & H)%bind_Ret.
  apply bind_Ret in H as (r & Hr & H). apply bind_Ret in H as ([[d1 t1] m1] & ->%expect_Ret & [= <- <- <-]).
  apply deliver_signal_fuel_kept in Hr. assert (kept t0 t1) as Hk1 by by eapply kept_trans.
  split; [|split; [done|]; split; [simpl; by rewrite lookup_insert_eq|done]].
  apply (put_ok _ i t0); [|done|done]. by destruct Hok.
Qed.

Lemma load_registers_ok s c t s' : sys_ok s → load_registers s c t = Ret s' →
  sys_ok s' ∧ table s' = table s ∧
  ∃ cp cp', cpus s !! c = Some cp ∧ cpus s' !! c = Some cp' ∧ cur cp' = cur cp ∧ phase cp' = phase cp ∧
    trap_frame cp' = register_state t ∧ sepc cp' = program_counter t.
Proof.
  intros Hok. unfold load_registers, cpu_of. intros (cp & Hc%expect_Ret & [= <-])%bind_Ret.
  split; [by eapply set_cpu_ok|]. split; [done|].
  exists cp. eexists. simpl. rewrite lookup_insert_eq. by split_and!.
Qed.

Lemma kill_current_process_ok s t e s' : sys_ok s → kill_current_process s t e = Ret s' →
  sys_ok s' ∧ cpus s' = cpus s.
Proof.
  intros Hok. unfold kill_current_process. intros (p & _ & (pt & Hk & [= <-])%bind_Ret)%bind_Ret.
  split; [|done]. apply set_table_ok; [done| |by eapply calm_kills].
  revert Hk. apply foldM_ok; [|apply Hok]. intros ? ? ?. apply kill_ok.
Qed.

Context `{!SigHeadersOk SH}.

Lemma sigchld_sigcont : SIGCHLD ≠ SIGCONT.
Proof. sig_numbers. lia. Qed.

Lemma stop_current_process_ok s t sig s' : sys_ok s → stop_current_process s t sig = Ret s' →
  sys_ok s' ∧ cpus s' = cpus s.
Proof.
  intros Hok. unfold stop_current_process. intros (p & _ & (pt & Hs & [= <-])%bind_Ret)%bind_Ret.
  assert (pt_ok (foldl (stop_thread sig) (table s) (p_threads p))) as Hst by apply stop_threads_ok, Hok.
  split; [|done]. apply set_table_ok; [done| |].
  - apply add_effects_ok, wake_wait_wakers_ok. by eapply send_signal_ok.
  - eapply calm_table_trans; [apply (calm_foldl (stop_thread sig) (p_threads p)); apply calm_stop|].
    eapply calm_table_trans; [eapply calm_send; [|exact Hs]; intros; apply sigchld_sigcont|].
    eapply calm_table_trans; [apply calm_wakes|by apply calm_refl].
Qed.

Lemma to_user_inv (s s' : System (M := M)) c : to_user s c = Ret s' →
  ∃ cp cp', cpus s !! c = Some cp ∧ s' = set_cpu s c cp' ∧ cur cp' = cur cp ∧ phase cp' = UserMode.
Proof.
  unfold to_user, cpu_of. intros (cp & Hc%expect_Ret & [= <-])%bind_Ret. eauto 8.
Qed.

(** One turn of [prepare_next_process]. *)
Lemma prepare_step_ok s c cp s' : sys_ok s → cpus s !! c = Some cp → phase cp = Scheduling →
  prepare_step powersave s c = Ret (Some s') → sys_ok s'.
Proof.
  intros Hok Hc Hph. unfold prepare_step. intros (s1 & H1 & H)%bind_Ret.
  destruct (queue_back_ok _ _ _ _ Hok Hc Hph H1) as (Hok1 & cp1 & Hc1 & Hph1 & Hcur1). clear H1.
  destruct (is_empty (table s1)); [done|]. unfold cpu_of in H. rewrite Hc1 in H.
  apply bind_Ret in H as (u1 & _ & H). apply bind_Ret in H as (u2 & _ & H).
  apply bind_Ret in H as ([s2 acc] & H2 & H).
  destruct (pick_next_ok _ _ _ _ _ Hok1 Hc1 Hph1 Hcur1 H2) as (Hok2 & cp2 & Hc2 & Hph2 & Hrun). clear H2.
  destruct (negb acc); [by simplify_eq|]. rewrite Hc2 in H. bstep in H.
  destruct (cur cp2 =? POWERSAVE_TID) eqn:Hz.
  - apply Z.eqb_eq in Hz. apply bind_Ret in H as (s3 & H3 & H).
    destruct (load_registers_ok _ _ _ _ Hok2 H3) as (Hok3 & _ & x & cp3 & Hx & Hc3 & Hcur3 & Hph3 & _).
    apply bind_Ret in H as (s4 & (y & cp4 & Hy & -> & Hcur4 & _)%to_user_inv & [= <-]). simplify_eq.
    eapply start_executing; [done|done|congruence|done|]. left. congruence.
  - destruct Hrun as [Hrun|(t & Hi & Hst)]; [by rewrite Hrun in Hz|]. rewrite Hi in H.
    unfold take_syscall_task in H. destruct (syscall_task t) as [task|].
    + unfold goto, cpu_of in H. cbn [put set_table cpus] in H. rewrite Hc2 in H. bstep in H. injection H as <-.
      set (t' := set_syscall_task t None).
      assert (sys_ok (put s2 (cur cp2) t')) as Hok3.
      { apply set_table_ok; [done| |eapply calm_put; [done|by left]].
        eapply put_thread_ok; [apply Hok2|done| |simpl; congruence]. unfold same_place. simpl.
        by rewrite Hst. }
      eapply (start_executing (put s2 (cur cp2) t')); [done|done|done|done|]. right. exists t'. simpl.
      by rewrite lookup_insert_eq.
    + destruct (is_dead_or_stopped (state t)); [by simplify_eq|].
      apply bind_Ret in H as ([[d t3] s3] & H3 & H).
      destruct (deliver_ok _ _ _ _ _ _ _ Hok2 Hi (kept_refl t) H3) as (Hok3 & Hk & Hi3 & Hcs).
      destruct d as [|e|sig].
      * apply bind_Ret in H as (u3 & _ & H). apply bind_Ret in H as (s4 & H4 & H).
        destruct (load_registers_ok _ _ _ _ Hok3 H4) as (Hok4 & Htab & x & cp4 & Hx & Hc4 & Hcur4 & Hph4 & _).
        apply bind_Ret in H as (s5 & (y & cp5 & Hy & -> & Hcur5 & _)%to_user_inv & [= <-]).
        rewrite Hcs in Hx. simplify_eq. eapply start_executing; [done|done|congruence|done|].
        right. exists t3. rewrite Htab, Hcur4. split; [done|]. destruct Hk as (_ & _ & _ & ->). done.
      * apply bind_Ret in H as (pt & Hkill & [= <-]). apply set_table_ok; [done| |].
        { eapply kill_process_of_ok; [apply Hok3|exact Hkill]. }
        unfold kill_process_of in Hkill. rewrite Hi3 in Hkill. apply bind_Ret in Hkill as (p & _ & Hkill).
        by apply (calm_kills _ (p_threads p) e).
      * apply bind_Ret in H as (s4 & H4 & [= <-]). by eapply stop_current_process_ok.
Qed.

(** *** System calls *)
(** After a step at the end of which the processor goes on ([b]) or schedules. *)
Definition leaves (s : System (M := M)) (c : Z) (b : bool) : Prop :=
  ∃ cp, cpus s !! c = Some cp ∧ phase cp ≠ Scheduling ∧ (b = true → sys_ok s) ∧
    sys_ok (set_cpu s c (set_phase cp Scheduling)).

Lemma ok_leaves s c cp b : sys_ok s → cpus s !! c = Some cp → phase cp ≠ Scheduling → leaves s c b.
Proof. intros Hok Hc Hph. exists cp. split_and!; [done..|]. by eapply set_cpu_ok. Qed.

Lemma set_cpu_reg_leaves s c cp i s' b : sys_ok s → cpus s !! c = Some cp → phase cp ≠ Scheduling →
  set_cpu_reg_for_current_thread s c i = Ret (s', b) → leaves s' c b.
Proof.
  intros Hok Hc Hph. unfold set_cpu_reg_for_current_thread.
  destruct (threads (table s) !! i) as [t|]; [|intros [= <- <-]; by eapply ok_leaves].
  destruct (is_dead_or_stopped _); [intros [= <- <-]; by eapply ok_leaves|].
  intros (u0 & _ & (s1 & H1 & [= <- <-])%bind_Ret)%bind_Ret.
  destruct (load_registers_ok _ _ _ _ Hok H1) as (Hok1 & _ & x & cp1 & Hx & Hc1 & _ & Hph1 & _).
  eapply ok_leaves; [done|done|congruence].
Qed.

Lemma after_delivery_leaves s c cp i t d s' b : sys_ok s → cpus s !! c = Some cp →
  phase cp ≠ Scheduling → after_delivery s c i t d = Ret (s', b) → leaves s' c b.
Proof.
  intros Hok Hc Hph. unfold after_delivery. destruct d as [|e|sig]; [by eapply set_cpu_reg_leaves| |];
    intros (s1 & H1 & [= <- <-])%bind_Ret.
  - apply kill_current_process_ok in H1 as [? Hcs]; [|done]. eapply ok_leaves; [done|by rewrite Hcs|done].
  - apply stop_current_process_ok in H1 as [? Hcs]; [|done]. eapply ok_leaves; [done|by rewrite Hcs|done].
Qed.

Lemma return_registers_kept t ret t' : return_registers t ret = Ret t' → kept t t'.
Proof. unfold return_registers. by intros (pc & _ & [= <-])%bind_Ret. Qed.

Lemma deliver_leaves s c cp i t0 t s' b : sys_ok s → cpus s !! c = Some cp → phase cp ≠ Scheduling →
  threads (table s) !! i = Some t0 → kept t0 t →
  ('(d, t, s) ← deliver s i t; after_delivery s c i t d) = Ret (s', b) → leaves s' c b.
Proof.
  intros Hok Hc Hph Hi Hk ([[d t1] s1] & H1 & H)%bind_Ret.
  destruct (deliver_ok _ _ _ _ _ _ _ Hok Hi Hk H1) as (Hok1 & _ & _ & Hcs).
  eapply (after_delivery_leaves s1); [done|by rewrite Hcs|done|exact H].
Qed.

Lemma suspend_leaves s c cp i t0 t task t' enq : sys_ok s → cpus s !! c = Some cp →
  executes s c i → threads (table s) !! i = Some t0 → kept t0 t →
  set_syscall_task_and_suspend t task = Ret (t', enq) →
  leaves (set_table s (if enq : bool then enqueue (put_thread (table s) i t') i
                       else put_thread (table s) i t')) c false.
Proof.
  intros Hok Hc Hx Hi Hk. pose proof Hx as (x & Hx1 & Hph & Hcur & H0). simplify_eq.
  unfold set_syscall_task_and_suspend. intros (u0 & _ & H)%bind_Ret.
  destruct (is_zombie (state t)) eqn:Hz.
  { simplify_eq. eapply ok_leaves; [by eapply put_ok|done|done]. }
  assert (sys_ok (set_cpu s c (set_phase cp Scheduling))) as Hok1 by by eapply set_cpu_ok.
  assert (∀ c', ¬ executes (set_cpu s c (set_phase cp Scheduling)) c' (cur cp)) as Hno.
  { intros c' (cp1 & Hc1 & Hph1 & Hcur1 & _). simpl in Hc1. destruct (decide (c = c')) as [<-|Hne].
    - rewrite lookup_insert_eq in Hc1. by simplify_eq.
    - rewrite lookup_insert_ne in Hc1 by done. apply Hne. eapply (so_unique _ Hok); [exact Hx|].
      exists cp1. auto. }
  pose proof Hk as (K1 & K2 & K3 & K4).
  assert (∀ u, u = set_state (set_syscall_task t (Some task)) Runnable ∨
    u = set_state (set_wakeup_pending (set_syscall_task t (Some task)) false) Runnable ∨
    u = set_state (set_syscall_task t (Some task)) Waiting → same_place t0 u) as Hsp.
  { intros u Hu. assert (is_zombie (state t0) = false) as Hz0 by by rewrite <-K4.
    destruct Hu as [->|[->| ->]]; unfold same_place; simpl; rewrite Hz0; by split_and!. }
  exists cp. split; [destruct enq; done|]. split; [done|]. split; [done|].
  assert (∀ u, same_place t0 u → state u = Runnable →
    sys_ok (set_table (set_cpu s c (set_phase cp Scheduling)) (enqueue (put_thread (table s) (cur cp) u) (cur cp)))) as Hrun.
  { intros u Hu Hst. by apply (make_runnable_ok (set_cpu s c (set_phase cp Scheduling)) (cur cp) t0 u). }
  cbn [wakeup_pending set_syscall_task] in H. destruct (wakeup_pending t); [simplify_eq; apply Hrun; auto|].
  destruct (_ || _); [simplify_eq; apply Hrun; auto|].
  apply bind_Ret in H as (u & Hu & [= <- <-]). unfold suspend in Hu. apply bind_Ret in Hu as (u1 & _ & [= <-]).
  eapply (change_idle_ok (set_cpu s c (set_phase cp Scheduling)) (cur cp)); [done|done| |done|done].
  eapply put_thread_ok; [apply Hok|done|by apply Hsp; auto|done].
Qed.

Lemma put_leaves s c cp i t t' b : sys_ok s → cpus s !! c = Some cp → phase cp ≠ Scheduling →
  threads (table s) !! i = Some t → kept t t' → leaves (put s i t') c b.
Proof. intros Hok Hc Hph Hi Hk. eapply ok_leaves; [by eapply put_ok|done|done]. Qed.

Lemma task_ready_leaves s c cp i t r s' b : sys_ok s → cpus s !! c = Some cp → phase cp ≠ Scheduling →
  threads (table s) !! i = Some t → task_ready errno_code s c i t r = Ret (s', b) → leaves s' c b.
Proof.
  intros Hok Hc Hph Hi. unfold task_ready. destruct (registers_replaced t).
  - apply (set_cpu_reg_leaves _ c cp); [by eapply put_ok|done|done].
  - intros (t1 & H1%return_registers_kept & H)%bind_Ret.
    eapply (deliver_leaves s c cp i t t1); [done..| |exact H]. eapply kept_trans; [|exact H1]. done.
Qed.

Lemma task_pending_leaves s c cp i t task s' b : sys_ok s → cpus s !! c = Some cp →
  executes s c i → threads (table s) !! i = Some t →
  task_pending errno_code s c i t task = Ret (s', b) → leaves s' c b.
Proof.
  intros Hok Hc Hx Hi. pose proof Hx as (x & Hx1 & Hph & Hcur & H0). simplify_eq.
  unfold task_pending. intros ([a t1] & Hk%blocked_action_kept & H)%bind_Ret.
  assert (sys_ok (put s (cur cp) t1)) as Hok1 by by eapply put_ok. destruct a as [|e|sig|].
  - apply bind_Ret in H as ([t2 enq] & H2 & [= <- <-]). by eapply suspend_leaves.
  - apply bind_Ret in H as (s1 & H1 & [= <- <-]). apply kill_current_process_ok in H1 as [? Hcs]; [|done].
    eapply ok_leaves; [done|by rewrite Hcs|done].
  - apply bind_Ret in H as (s1 & H1 & [= <- <-]).
    assert (sys_ok (put s (cur cp) (store_syscall_task t1 task))) as Hok2.
    { apply (put_ok s _ t); [done|done|]. exact Hk. }
    apply stop_current_process_ok in H1 as [? Hcs]; [|done]. eapply ok_leaves; [done|by rewrite Hcs|done].
  - apply bind_Ret in H as (t2 & H2%return_registers_kept & H).
    eapply (deliver_leaves s c cp (cur cp) t t2); [done..|by eapply kept_trans|exact H].
Qed.

(** A step that leaves ends with the processor going on or scheduling. *)
Lemma leaves_goto s c b s' : leaves s c b → b = false → goto s c Scheduling = Ret s' → sys_ok s'.
Proof.
  intros (cp & Hc & _ & _ & Hok) _. unfold goto, cpu_of. rewrite Hc. bstep. by intros [= <-].
Qed.

Lemma leaves_to_user s c b s' : leaves s c b → b = true → to_user s c = Ret s' → sys_ok s'.
Proof.
  intros (cp & Hc & Hph & Hok & _) Hb (x & cp' & Hx & -> & Hcur & Hph')%to_user_inv. simplify_eq.
  eapply set_cpu_ok; [by apply Hok|done|done|done].
Qed.

Lemma task_step_ok s c cp task r s' : sys_ok s → cpus s !! c = Some cp → phase cp = RunTask task →
  cur cp ≠ POWERSAVE_TID → task_step errno_code s c task r = Ret s' → sys_ok s'.
Proof.
  intros Hok Hc Hph H0. unfold task_step, run_syscall_task, cpu_of. rewrite Hc. bstep.
  intros ([s1 b] & H1 & H)%bind_Ret. assert (phase cp ≠ Scheduling) as Hph' by congruence.
  assert (leaves s1 c b) as Hl.
  { destruct (threads (table s) !! cur cp) as [t|] eqn:Hi; [|simplify_eq; by eapply ok_leaves].
    destruct r as [r|]; [by eapply task_ready_leaves|]. eapply task_pending_leaves; [done|done| |done|exact H1].
    exists cp. auto. }
  destruct b; [by eapply leaves_to_user|by eapply leaves_goto].
Qed.

(** The processor that executes a thread owns it. *)
Lemma ownership s c i t c' : sys_ok s → executes s c i → threads (table s) !! i = Some t →
  state t = Running c' → c' = c.
Proof.
  intros Hok Hx Hi Hst. destruct (so_executes _ Hok c i t Hx Hi) as [?|Hd]; [congruence|by rewrite Hst in Hd].
Qed.

Lemma dispatch_ready_leaves s c cp i t f r s' b : sys_ok s → cpus s !! c = Some cp →
  phase cp ≠ Scheduling → threads (table s) !! i = Some t →
  dispatch_ready errno_code s c i t f r = Ret (s', b) → leaves s' c b.
Proof.
  intros Hok Hc Hph Hi. unfold dispatch_ready. destruct (registers_replaced t).
  { apply (set_cpu_reg_leaves _ c cp); [by eapply put_ok|done|done]. }
  intros ([s1 owned] & H1 & H)%bind_Ret.
  assert (owned = true ∧ s1 = s ∨ owned = false ∧ leaves s1 c false) as [[-> ->]|[-> Hl]].
  { unfold check_thread_ownership in H1. destruct (state t) as [c'| | | |e].
    - destruct (c' =? c); [left; by simplify_eq|done].
    - right. apply bind_Ret in H1 as (? & _ & (? & _ & [= <- <-])%bind_Ret). split; [done|]. by eapply put_leaves.
    - right. apply bind_Ret in H1 as (? & _ & (? & _ & [= <- <-])%bind_Ret). split; [done|]. by eapply put_leaves.
    - right. apply bind_Ret in H1 as (? & _ & (? & _ & [= <- <-])%bind_Ret). split; [done|]. by eapply put_leaves.
    - right. simplify_eq. split; [done|]. by eapply ok_leaves. }
  - simpl in H. apply bind_Ret in H as (x & _ & (pc & _ & H)%bind_Ret).
    eapply (deliver_leaves s c cp i t); [done..| |exact H]. done.
  - simpl in H. by simplify_eq.
Qed.

Lemma dispatch_ok s c cp task r s' : sys_ok s → cpus s !! c = Some cp → phase cp = UserMode →
  cur cp ≠ POWERSAVE_TID → dispatch errno_code s c task r = Ret s' → sys_ok s'.
Proof.
  intros Hok Hc Hph H0. unfold dispatch, cpu_of. rewrite Hc. bstep. cbv zeta.
  assert (phase cp ≠ Scheduling) as Hph' by congruence.
  destruct (threads (table s) !! cur cp) as [t|] eqn:Hi.
  2: { apply (leaves_goto s c false); [by eapply ok_leaves|done]. }
  intros ([s1 b] & H1 & H)%bind_Ret.
  assert (leaves s1 c b) as Hl.
  { destruct r as [r|]; [by eapply dispatch_ready_leaves|]. unfold dispatch_pending, cpu_of in H1.
    rewrite Hc in H1. bstep in H1. apply bind_Ret in H1 as ([t2 enq] & H2 & [= <- <-]).
    eapply (suspend_leaves s c cp (cur cp) t); [done|done|by exists cp|done| |exact H2]. done. }
  destruct b; [|by eapply leaves_goto]. simplify_eq. destruct Hl as (? & _ & _ & Hs & _). by apply Hs.
Qed.

(** ** Runs *)
(** Continuing a thread that no processor executes any more. *)
Definition let_go (s : System (M := M)) (i sig : Z) : Prop :=
  sig = SIGCONT → ∀ t, threads (table s) !! i = Some t → state t = Stopped → ∀ c, ¬ executes s c i.

Lemma send_signal_sys_ok s i sig pt : sys_ok s → let_go s i sig → send_signal (table s) i sig = Ret pt →
  sys_ok (set_table s pt).
Proof.
  intros Hok Hlet Hs. assert (pt_ok pt) as Hpt by (eapply send_signal_ok; [apply Hok|done]).
  destruct (decide (sig = SIGCONT)) as [->|Hne].
  2: { apply set_table_ok; [done|done|]. eapply calm_send; [|done]. done. }
  unfold send_signal in Hs. destruct (threads (table s) !! i) as [t|] eqn:Hi.
  2: { simplify_eq. by apply set_table_ok; [|done|apply calm_refl]. }
  destruct (decide (state t = Stopped)) as [Hst|Hst].
  2: { apply set_table_ok; [done|done|]. eapply (calm_send _ i SIGCONT); [|unfold send_signal; by rewrite Hi].
       intros ? ? ?. congruence. }
  rewrite Hst in Hs. cbn [is_zombie] in Hs.
  apply bind_Ret in Hs as (t1 & [Hs1 He1]%raise_signal_repended%repended_same & Hs).
  apply bind_Ret in Hs as (hit & _ & Hs). rewrite Z.eqb_refl, He1, bool_decide_true in Hs by done. simpl in Hs.
  apply bind_Ret in Hs as (t2 & [Hs2 He2]%clear_stop_repended%repended_same & [= <-]).
  apply (make_runnable_ok s i t); [done|done| |done|by eapply Hlet].
  apply same_place_runnable; [by eapply same_place_trans|by rewrite Hst].
Qed.

(** What happens to the system: the processors' steps, and what their system calls
    and interrupts do to the table. *)
Inductive sys_step : System (M := M) → System (M := M) → Prop :=
  | step_interrupt s c cp : cpus s !! c = Some cp → phase cp = UserMode →
      sys_step s (set_cpu s c (set_phase cp Scheduling))
  | step_prepare s c cp s' : cpus s !! c = Some cp → phase cp = Scheduling →
      prepare_step powersave s c = Ret (Some s') → sys_step s s'
  | step_task s c cp task r s' : cpus s !! c = Some cp → phase cp = RunTask task →
      cur cp ≠ POWERSAVE_TID → task_step errno_code s c task r = Ret s' → sys_step s s'
  | step_syscall s c cp task r s' : cpus s !! c = Some cp → phase cp = UserMode →
      cur cp ≠ POWERSAVE_TID → dispatch errno_code s c task r = Ret s' → sys_step s s'
  | step_wake s i : sys_step s (set_table s (wake_thread (table s) i))
  | step_signal s i sig pt : let_go s i sig → send_signal (table s) i sig = Ret pt →
      sys_step s (set_table s pt)
  | step_kill s i e pt : kill (table s) i e = Ret pt → sys_step s (set_table s pt)
  | step_wait s me parent target nh wu r pt : wait_child (table s) me parent target nh wu = Ret (r, pt) →
      sys_step s (set_table s pt)
  | step_spawn s p p' t pt : threads (table s) !! tid t = None → tid t ≠ POWERSAVE_TID →
      state t = Runnable → (∀ c, ¬ executes s c (tid t)) →
      procs (table s) !! process t = Some p ∨ procs (table s) !! process t = None ∧ p_threads p = [] →
      add_thread_tid p (tid t) = Ret p' →
      add_thread (set_procs (table s) (<[process t := p']> (procs (table s)))) t = Ret pt →
      sys_step s (set_table s pt).

Lemma calm_take_zombie pt parent target r pt' :
  take_zombie pt parent target = Ret (r, pt') → calm_table pt pt'.
Proof.
  unfold take_zombie. destruct (select_child _ _ _ _) as [i|]; [|intros [= <- <-]; by apply calm_refl].
  intros (t & _ & (w & _ & [= <- <-])%bind_Ret)%bind_Ret j u Hj. simpl in Hj. apply lookup_delete_Some in Hj as [_ Hj].
  exists u. split; [done|by left].
Qed.

Lemma calm_wait pt me parent target nh wu r pt' :
  wait_child pt me parent target nh wu = Ret (r, pt') → calm_table pt pt'.
Proof.
  unfold wait_child. intros ([z pt1] & H1%calm_take_zombie & H)%bind_Ret. eapply calm_table_trans; [exact H1|].
  destruct z; [simplify_eq; by apply calm_refl|]. apply bind_Ret in H as ([st pt2] & H2 & H).
  eapply (calm_table_trans _ pt2).
  - destruct wu; [|simplify_eq; by apply calm_refl]. unfold take_stopped in H2.
    destruct (select_child _ _ _ _) as [i|]; [|simplify_eq; by apply calm_refl].
    apply bind_Ret in H2 as (t & Hi%expect_Ret & (w & _ & [= _ <-])%bind_Ret).
    eapply calm_put; [done|by left].
  - destruct st; [simplify_eq; by apply calm_refl|]. destruct (negb _); [simplify_eq; by apply calm_refl|].
    destruct nh; simplify_eq; by apply calm_refl.
Qed.

Lemma sys_step_ok s s' : sys_ok s → sys_step s s' → sys_ok s'.
Proof.
  intros Hok. destruct 1 as [s c cp Hc Hph|s c cp s' Hc Hph H|s c cp task r s' Hc Hph H0 H|
    s c cp task r s' Hc Hph H0 H|s i|s i sig pt Hl H|s i e pt H|s me parent target nh wu r pt H|
    s p p' t pt Hn H0 Hst Hx Hp Hp' H].
  - by eapply set_cpu_ok.
  - by eapply prepare_step_ok.
  - by eapply task_step_ok.
  - by eapply dispatch_ok.
  - apply set_table_ok; [done|apply wake_thread_ok, Hok|apply calm_wake].
  - by eapply send_signal_sys_ok.
  - apply set_table_ok; [done|eapply kill_ok; [apply Hok|done]|by eapply calm_kill].
  - apply set_table_ok; [done|eapply wait_child_ok; [apply Hok|done]|by eapply calm_wait].
  - apply (change_idle_ok s (tid t) t); [done| | |congruence|done].
    + by apply add_thread_inv in H as (-> & _).
    + eapply add_thread_ok; [apply Hok|done..].
Qed.

(** The processors at boot: all looking for a thread. *)
Definition booting (s : System (M := M)) : Prop :=
  pt_ok (table s) ∧ (∀ i t c, threads (table s) !! i = Some t → state t ≠ Running c) ∧
  ∀ c cp, cpus s !! c = Some cp → phase cp = Scheduling.

Lemma booting_ok s : booting s → sys_ok s.
Proof.
  intros (Ht & Hr & Hc). assert (∀ c i, ¬ executes s c i) as Hx.
  { intros c i (cp & Hcp & Hph & _). by apply Hph, (Hc c). }
  split; [done|intros i t c Hi ?; by destruct (Hr i t c)|intros c i t H; by destruct (Hx c i)|
    intros c c' i H; by destruct (Hx c i)].
Qed.


(** Nothing pending: delivery does nothing. *)
Lemma deliver_signal_fuel_nothing n m t : (0 < n)%nat → peek_first_unblocked_signal t = None →
  deliver_signal_fuel n m t = Ret (Some (DeliveryContinue, t, m)).
Proof.
  destruct n; [lia|]. intros _ Hp. cbn [deliver_signal_fuel]. unfold take_next_pending_signal. by rewrite Hp.
Qed.

Lemma deliver_signal_nothing m t : peek_first_unblocked_signal t = None →
  deliver_signal m t = Ret (Some (DeliveryContinue, t, m)).
Proof. intros Hp. unfold deliver_signal. apply deliver_signal_fuel_nothing; [lia|done]. Qed.

Lemma bind_Ret_l {A B} (a : A) (f : A → outcome B) : Ret a ≫= f = f a.
Proof. done. Qed.

Lemma deliver_nothing s i t : is_Some (mems s !! process t) → peek_first_unblocked_signal t = None →
  ∃ m, deliver s i t = Ret (DeliveryContinue, t, put (set_mem s (process t) m) i t).
Proof.
  intros [m Hm] Hp. exists m. pose proof (deliver_signal_nothing m t Hp) as H. unfold deliver.
  rewrite Hm. rewrite (eq_refl : expect (Some m) = Ret m), bind_Ret_l, H, bind_Ret_l. reflexivity.
Qed.

#[local] Opaque deliver.

Lemma queue_back_saves (s s1 : System (M := M)) c cp t : cpus s !! c = Some cp →
  threads (table s) !! cur cp = Some t → cur cp ≠ POWERSAVE_TID → state t = Running c →
  queue_current_process_back s c = Ret s1 →
  threads (table s1) !! cur cp =
    Some (set_register_state (set_program_counter (set_state t Runnable) (sepc cp)) (trap_frame cp)).
Proof.
  intros Hc Hi H0 Hst. unfold queue_current_process_back, cpu_of. rewrite Hc. bstep.
  rewrite (proj2 (Z.eqb_neq _ _) H0). cbn [set_cpu table]. rewrite Hi, bool_decide_true by done.
  intros [= <-]. simpl. by rewrite lookup_insert_eq.
Qed.

Lemma prepare_resumes (s : System (M := M)) c cp i t q : cpus s !! c = Some cp → cur cp = POWERSAVE_TID →
  run_queue (table s) = i :: q → is_empty (table s) = false → threads (table s) !! i = Some t →
  i ≠ POWERSAVE_TID → state t = Runnable → syscall_task t = None →
  peek_first_unblocked_signal t = None → is_Some (mems s !! process t) →
  ∃ s' cp', prepare_step powersave s c = Ret (Some s') ∧ cpus s' !! c = Some cp' ∧ cur cp' = i ∧
    phase cp' = UserMode ∧ trap_frame cp' = register_state t ∧ sepc cp' = program_counter t.
Proof.
  intros Hc Hcur Hq Hne Hi H0 Hst Htask Hpend Hmem.
  unfold prepare_step, queue_current_process_back, cpu_of. rewrite Hc. bstep.
  rewrite Hcur, Z.eqb_refl, bind_Ret_l, Hne, Hc. bstep. rewrite Hcur, Z.eqb_refl. bstep.
  unfold pick_next, cpu_of. rewrite Hq. cbn [set_table table set_run_queue threads]. rewrite Hi.
  rewrite bool_decide_true by done. cbn [put set_table cpus table]. rewrite Hc. bstep.
  cbn [negb set_cpu cpus table put_thread set_threads threads cur set_cur].
  rewrite lookup_insert_eq. bstep. cbn [cur set_cur put set_table table put_thread set_threads threads].
  rewrite (proj2 (Z.eqb_neq _ _) H0), lookup_insert_eq.
  unfold take_syscall_task. cbn [syscall_task set_state]. rewrite Htask. cbn [state set_state is_dead_or_stopped].
  match goal with |- context [deliver ?s1 i ?t1] =>
    destruct (deliver_nothing s1 i t1 Hmem Hpend) as [m Hm]; rewrite Hm end.
  rewrite bind_Ret_l. cbn [state set_state]. rewrite bool_decide_true by done. bstep.
  unfold load_registers, to_user, cpu_of. cbn [put set_mem set_table set_cpu cpus]. rewrite lookup_insert_eq. bstep.
  cbn [set_cpu cpus]. rewrite lookup_insert_eq. bstep. do 2 eexists. split; [reflexivity|].
  cbn [set_cpu cpus]. rewrite lookup_insert_eq. by split_and!.
Qed.

(** a context switch loses nothing. A thread that is taken off a processor and
    later, with no signal to deliver, picked up by any processor, resumes there with
    exactly the registers and the program counter it was interrupted with. *)
Theorem context_switch (s s1 s2 : System (M := M)) c cp i t c' cp' q : cpus s !! c = Some cp → cur cp = i →
  threads (table s) !! i = Some t → i ≠ POWERSAVE_TID → state t = Running c → syscall_task t = None →
  peek_first_unblocked_signal t = None →
  queue_current_process_back s c = Ret s1 →
  threads (table s2) !! i = threads (table s1) !! i → run_queue (table s2) = i :: q →
  is_empty (table s2) = false → is_Some (mems s2 !! process t) →
  cpus s2 !! c' = Some cp' → cur cp' = POWERSAVE_TID →
  ∃ s3 cp3, prepare_step powersave s2 c' = Ret (Some s3) ∧ cpus s3 !! c' = Some cp3 ∧
    cur cp3 = i ∧ phase cp3 = UserMode ∧ trap_frame cp3 = trap_frame cp ∧ sepc cp3 = sepc cp.
Proof.
  intros Hc Hcur Hi H0 Hst Htask Hpend Hback Hsame Hq Hne Hmem Hc' Hcur'. subst i.
  rewrite (queue_back_saves s s1 c cp t) in Hsame by done.
  destruct (prepare_resumes s2 c' cp' (cur cp) _ q Hc' Hcur' Hq Hne Hsame) as (s3 & cp3 & H); [done..|].
  exists s3, cp3. exact H.
Qed.
End system.

(** ** A stop and a continue in quick succession *)
#[local] Instance race_signals : SigHeaders := linux_signals.
#[local] Instance race_signals_ok : SigHeadersOk race_signals := linux_signals_ok.
#[local] Instance race_memory : UserMemory unit := {|
  write_userspace_slice _ _ _ := Ret (Okay tt); read_userspace_slice _ _ _ := Ret (Err EFAULT) |}.

Definition race_thread (i c : Z) : Thread := set_state (thread_new i frame_zero 0x1000 false 0 1) (Running c).
Definition race_powersave : Thread := thread_new 0 frame_zero 0x1000 true 1 0.

(** Threads 2 and 3 of one process run on processors 0 and 1. *)
Definition race_table : ProcessTable :=
  MkTable (<[2 := race_thread 2 0]> {[3 := race_thread 3 1]}) {[1 := [2; 3]]} [] [] 2
    {[0%nat := MkProcess [2; 3] 2 2 2]} [].
Definition race_start : System (M := unit) := MkSys race_table
  (<[0 := MkCpu 2 UserMode frame_zero 0x1000 false 100]>
     {[1 := MkCpu 3 UserMode frame_zero 0x1000 false 100]}) {[0%nat := tt]}.

Definition interrupt (s : System (M := unit)) (c : Z) : outcome (System (M := unit)) := goto (M := unit) s c Scheduling.
Definition prepare (s : System (M := unit)) (c : Z) : outcome (System (M := unit)) :=
  r ← prepare_step race_powersave s c; expect r.
Definition signal (s : System (M := unit)) (i sig : Z) : outcome (System (M := unit)) :=
  pt ← send_signal (table s) i sig; Ret (set_table s pt).

(** Thread 2 gets SIGSTOP and is rescheduled, which stops both; thread 3 gets SIGCONT
    before processor 1 takes the interrupt; processor 0 picks thread 3. *)
Definition race : outcome (System (M := unit)) :=
  s ← signal race_start 2 SIGSTOP;
  s ← interrupt s 0;
  s ← prepare s 0;
  s ← signal s 3 SIGCONT;
  prepare s 0.

Lemma race_executes : match race with
  | Ret s => match cpus s !! 0, cpus s !! 1 with
             | Some cp0, Some cp1 => bool_decide (cur cp0 = 3) && bool_decide (cur cp1 = 3) &&
                 match phase cp0, phase cp1 with UserMode, UserMode => true | _, _ => false end
             | _, _ => false
             end && match dispatch (λ _, 1) s 1 0 (Some (Okay 0)) with Panic => true | Ret _ => false end
  | Panic => false
  end = true.
Proof. by vm_compute. Qed.

Lemma race_lookup i t : threads race_table !! i = Some t →
  i = 2 ∧ t = race_thread 2 0 ∨ i = 3 ∧ t = race_thread 3 1.
Proof.
  unfold race_table. simpl.
  intros [[<- <-]|[_ [<- <-]%lookup_singleton_Some]]%lookup_insert_Some; auto.
Qed.

Lemma race_table_ok : pt_ok race_table.
Proof.
  split.
  - intros i t [[-> ->]|[-> ->]]%race_lookup; done.
  - intros i t [[-> ->]|[-> ->]]%race_lookup; (eexists; split; [reflexivity|]); set_solver.
  - intros h p i Hp. unfold race_table in Hp. simpl in Hp. apply lookup_singleton_Some in Hp as [<- <-]. simpl. intros Hi.
    assert (i = 2 ∨ i = 3) as [->| ->] by set_solver; eexists; split_and!; reflexivity.
  - intros i t [[-> ->]|[-> ->]]%race_lookup; done.
  - by vm_compute.
  - intros p cs Hp. unfold race_table in Hp. simpl in Hp. apply lookup_singleton_Some in Hp as [<- <-]. split; [by repeat constructor; set_solver|].
    intros c Hc. assert (c = 2 ∨ c = 3) as [->| ->] by set_solver; eexists; split; reflexivity.
Qed.

Lemma race_cpus c i : executes race_start c i → c = 0 ∧ i = 2 ∨ c = 1 ∧ i = 3.
Proof.
  intros (cp & Hc & _ & Hi & _). simpl in Hc.
  apply lookup_insert_Some in Hc as [[<- <-]|[_ Hc]]; [by left|].
  apply lookup_singleton_Some in Hc as [<- <-]. by right.
Qed.

(** a continue that arrives before the other processors have noticed the stop
    makes one thread run twice. Two threads of a process run on two processors; one
    is stopped by a signal, which marks both stopped; SIGCONT makes the second one
    runnable while its processor is still executing it, and the first processor picks
    it up: both execute it, from different registers, and when the second processor
    finishes a system call the kernel panics. *)
Theorem stop_continue_runs_twice : sys_ok race_start ∧ ∃ s, race = Ret s ∧
  executes s 0 3 ∧ executes s 1 3 ∧ dispatch (λ _, 1) s 1 0 (Some (Okay 0)) = Panic.
Proof.
  split.
  - split; [apply race_table_ok| | |].
    + intros i t c [[-> ->]|[-> ->]]%race_lookup [= <-]; eexists; by split.
    + intros c i t [[-> ->]|[-> ->]]%race_cpus [[[=] ->]|[[=] ->]]%race_lookup; by left.
    + intros c c' i [[-> ->]|[-> ->]]%race_cpus [[-> ?]|[-> ?]]%race_cpus; done.
  - pose proof race_executes as H. destruct race as [s|]; [|done]. exists s. split; [done|].
    apply andb_true_iff in H as [H Hd]. destruct (dispatch _ s 1 0 _); [done|].
    destruct (cpus s !! 0) as [cp0|] eqn:H0; [|done]. destruct (cpus s !! 1) as [cp1|] eqn:H1; [|done].
    apply andb_true_iff in H as [[E0%bool_decide_eq_true E1%bool_decide_eq_true]%andb_true_iff Hp].
    split; [exists cp0|split; [exists cp1|done]]; destruct (phase cp0), (phase cp1); done.
Qed.

(** ** Witnesses *)
Definition boot_thread : Thread := thread_new 2 frame_zero 0x1000 false 0 1.
Definition boot_table : ProcessTable :=
  MkTable {[2 := boot_thread]} {[1 := [2]]} [] [2] 1 {[0%nat := MkProcess [2] 2 2 2]} [].
Definition boot_cpu : CpuState := MkCpu 0 Scheduling frame_zero 0 false 0.
Definition boot_system : System (M := unit) := MkSys boot_table {[0 := boot_cpu]} {[0%nat := tt]}.
Definition sys_or (o : outcome (System (M := unit))) : System (M := unit) :=
  match o with Ret s => s | Panic => boot_system end.
(** Thread 2 runs; then it is preempted. *)
Definition running_system : System (M := unit) := sys_or (prepare boot_system 0).
Definition running_cpu : CpuState := MkCpu 2 UserMode frame_zero 0x1000 false 100.
Definition preempted_system : System (M := unit) := sys_or (queue_current_process_back running_system 0).

Lemma boot_booting : booting boot_system.
Proof.
  split; [|split].
  - eapply (add_thread_ok table_new (process_new 2 2 2) _ boot_thread); [apply table_new_ok|done|done|done|
      by right|reflexivity|reflexivity].
  - intros i t c Hi. unfold boot_system, boot_table in Hi. simpl in Hi.
    by apply lookup_singleton_Some in Hi as [<- <-].
  - intros c cp Hc. unfold boot_system in Hc. simpl in Hc. by apply lookup_singleton_Some in Hc as [<- <-].
Qed.

Lemma running_eq : prepare_step race_powersave boot_system 0 = Ret (Some running_system) ∧
  cpus running_system !! 0 = Some running_cpu ∧
  threads (table running_system) !! 2 = Some (set_state boot_thread (Running 0)).
Proof. by vm_compute. Qed.

Lemma preempted_eq : queue_current_process_back running_system 0 = Ret preempted_system ∧
  run_queue (table preempted_system) = [2] ∧ is_empty (table preempted_system) = false ∧
  mems preempted_system !! 0%nat = Some tt ∧
  cpus preempted_system !! 0 = Some (set_cur running_cpu 0).
Proof. by vm_compute. Qed.


Lemma context_switch_witness : ∃ s3 cp3, prepare_step race_powersave preempted_system 0 = Ret (Some s3) ∧
  cpus s3 !! 0 = Some cp3 ∧ sepc cp3 = 0x1000.
Proof.
  destruct running_eq as (_ & Hc & Ht). destruct preempted_eq as (Hq & Hr & He & Hm & Hc').
  destruct (context_switch race_powersave running_system preempted_system preempted_system 0 running_cpu 2
    (set_state boot_thread (Running 0)) 0 (set_cur running_cpu 0) [])
    as (s3 & cp3 & H1 & H2 & _ & _ & _ & H3); [exact Hc|reflexivity|exact Ht|done|reflexivity|reflexivity|
    reflexivity|exact Hq|reflexivity|exact Hr|exact He|eexists; exact Hm|exact Hc'|reflexivity|].
  by exists s3, cp3.
Defined.
