(* ===== verification/ResultM.v ===== *)
(** Fallible operations on a state: the state and error monad in which the file
    system, the descriptor tables and their system calls are written.

    An operation returns a result and the new state, or panics. An error keeps the
    changes made before it, as the source's [?] does. *)
From S2P Require Import Prelude Headers.

Definition stM (S A : Type) : Type := S → outcome (result A * S).

Definition ok {S A} (a : A) : stM S A := λ s, Ret (Okay a, s).
Definition fail {S A} (e : errno) : stM S A := λ s, Ret (Err e, s).
Definition fbind {S A B} (m : stM S A) (k : A → stM S B) : stM S B := λ s,
  '(r, s) ← m s;
  match r with inl e => Ret (Err e, s) | inr a => k a s end.
(** An operation whose error is inspected instead of propagated. *)
Definition try {S A} (m : stM S A) : stM S (result A) := λ s, '(r, s) ← m s; Ret (Okay r, s).
(** A part of the source that reads the state only. *)
Definition reads {S A} (f : S → outcome (result A)) : stM S A := λ s, r ← f s; Ret (r, s).
Definition gets {S A} (f : S → A) : stM S A := λ s, Ret (Okay (f s), s).
Definition modify {S} (f : S → S) : stM S unit := λ s, Ret (Okay tt, f s).
(** A computation that may panic. *)
Definition lift {S A} (o : outcome A) : stM S A := λ s, a ← o; Ret (Okay a, s).
(** A result computed without the state. *)
Definition from {S A} (r : result A) : stM S A := λ s, Ret (r, s).
(** An operation on a part of the state. *)
Definition zoom {S T A} (get : S → T) (put : S → T → S) (m : stM T A) : stM S A := λ s,
  '(r, t) ← m (get s); Ret (r, put s t).

Declare Scope stM_scope.
Delimit Scope stM_scope with stM.
Notation "x ←? m ; k" := (fbind m (λ x, k)) (at level 20, m at level 100, k at level 200, only parsing) : stM_scope.
Notation "' p ←? m ; k" := (fbind m (λ x, match x with p => k end))
  (at level 20, p pattern, m at level 100, k at level 200, only parsing) : stM_scope.
Notation "m ;;? k" := (fbind m (λ _, k)) (at level 100, k at level 200, right associativity) : stM_scope.

(** [o.ok_or(e)] *)
Definition ok_or {S A} (o : option A) (e : errno) : stM S A := match o with Some a => ok a | None => fail e end.

Fixpoint mapM_outcome {A B} (f : A → outcome B) (l : list A) : outcome (list B) :=
  match l with
  | [] => Ret []
  | a :: l => x ← f a; r ← mapM_outcome f l; Ret (x :: r)
  end.

(** ** Reasoning: an operation that returns, whatever its result, with a property *)
Lemma fbind_Ret {S A B} (m : stM S A) (k : A → stM S B) s r s' : fbind m k s = Ret (r, s') →
  ∃ r1 s1, m s = Ret (r1, s1) ∧
    match r1 with inl e => r = Err e ∧ s' = s1 | inr a => k a s1 = Ret (r, s') end.
Proof.
  unfold fbind. intros ([r1 s1] & Hm & H)%bind_Ret. exists r1, s1. split; [done|].
  destruct r1; [by simplify_eq|done].
Qed.

Lemma fbind_ok {S A B} (m : stM S A) (k : A → stM S B) s a s1 : m s = Ret (Okay a, s1) →
  fbind m k s = k a s1.
Proof. unfold fbind. by intros ->. Qed.

Lemma fbind_fail {S A B} (m : stM S A) (k : A → stM S B) s e s1 : m s = Ret (Err e, s1) →
  fbind m k s = Ret (Err e, s1).
Proof. unfold fbind. by intros ->. Qed.

(** [I] is kept by [m], if it returns. *)
Definition keeps {S A} (I : S → Prop) (m : stM S A) : Prop := ∀ s r s', I s → m s = Ret (r, s') → I s'.

Lemma keeps_ok {S A} (I : S → Prop) (a : A) : keeps I (ok a).
Proof. intros s r s' H [= <- <-]. done. Qed.
Lemma keeps_fail {S A} (I : S → Prop) e : keeps I (@fail S A e).
Proof. intros s r s' H [= <- <-]. done. Qed.
Lemma keeps_fbind {S A B} (I : S → Prop) (m : stM S A) (k : A → stM S B) :
  keeps I m → (∀ a, keeps I (k a)) → keeps I (fbind m k).
Proof.
  intros Hm Hk s r s' H (r1 & s1 & H1 & H2)%fbind_Ret. apply Hm in H1; [|done].
  destruct r1 as [e|a]; [by destruct H2 as [_ ->]|]. by eapply Hk.
Qed.
Lemma keeps_try {S A} (I : S → Prop) (m : stM S A) : keeps I m → keeps I (try m).
Proof. intros Hm s r s' H. unfold try. intros ([r1 s1] & H1 & [= <- <-])%bind_Ret. by eapply Hm. Qed.
Lemma keeps_reads {S A} (I : S → Prop) (f : S → outcome (result A)) : keeps I (reads f).
Proof. intros s r s' H. unfold reads. by intros (? & _ & [= <- <-])%bind_Ret. Qed.
Lemma keeps_gets {S A} (I : S → Prop) (f : S → A) : keeps I (gets f).
Proof. intros s r s' H [= <- <-]. done. Qed.
Lemma keeps_lift {S A} (I : S → Prop) (o : outcome A) : keeps I (lift o).
Proof. intros s r s' H. unfold lift. by intros (? & _ & [= <- <-])%bind_Ret. Qed.
Lemma keeps_from {S A} (I : S → Prop) (r : result A) : keeps I (from r).
Proof. intros s r' s' H [= <- <-]. done. Qed.
Lemma keeps_ok_or {S A} (I : S → Prop) (o : option A) e : keeps I (@ok_or S A o e).
Proof. destruct o; [apply keeps_ok|apply keeps_fail]. Qed.

Create HintDb keeps.
#[export] Hint Resolve keeps_ok keeps_fail keeps_fbind keeps_try keeps_reads keeps_gets keeps_lift
  keeps_from keeps_ok_or : keeps.

(** Split along the structure of an operation. *)
Ltac keeps_step :=
  first [ apply keeps_ok | apply keeps_fail | apply keeps_reads | apply keeps_gets | apply keeps_lift
        | apply keeps_from | apply keeps_ok_or | apply keeps_try
        | apply keeps_fbind; [|intros ?] ].

(** ** Inversion of an operation that has returned *)
Lemma ok_Ret {S A} (a : A) (s : S) r s' : ok a s = Ret (r, s') → r = Okay a ∧ s' = s.
Proof. by intros [= <- <-]. Qed.
Lemma fail_Ret {S A} e (s : S) (r : result A) s' : fail e s = Ret (r, s') → r = Err e ∧ s' = s.
Proof. by intros [= <- <-]. Qed.
Lemma lift_Ret {S A} (o : outcome A) (s : S) r s' : lift o s = Ret (r, s') → ∃ a, o = Ret a ∧ r = Okay a ∧ s' = s.
Proof. unfold lift. intros (a & H & [= <- <-])%bind_Ret. by exists a. Qed.
Lemma reads_Ret {S A} (f : S → outcome (result A)) s r s' : reads f s = Ret (r, s') → f s = Ret r ∧ s' = s.
Proof. unfold reads. by intros (a & H & [= <- <-])%bind_Ret. Qed.
Lemma try_Ret {S A} (m : stM S A) s r s' : try m s = Ret (r, s') → ∃ r1, m s = Ret (r1, s') ∧ r = Okay r1.
Proof. unfold try. intros ([r1 s1] & H & [= <- <-])%bind_Ret. by exists r1. Qed.
Lemma ok_or_Ret {S A} (o : option A) e (s : S) r s' : ok_or o e s = Ret (r, s') →
  s' = s ∧ r = match o with Some a => Okay a | None => Err e end.
Proof. destruct o; by intros [= <- <-]. Qed.

Ltac inv_st_step :=
  match goal with
  | H : fbind _ _ _ = Ret _ |- _ =>
      let r := fresh "r" in let s := fresh "s" in let H1 := fresh "Hm" in
      apply fbind_Ret in H as (r & s & H1 & H)
  | H : ok _ _ = Ret _ |- _ => apply ok_Ret in H as [? ?]
  | H : fail _ _ = Ret _ |- _ => apply fail_Ret in H as [? ?]
  | H : lift _ _ = Ret _ |- _ =>
      let a := fresh "a" in let H1 := fresh "Ha" in apply lift_Ret in H as (a & H1 & ? & ?)
  | H : reads _ _ = Ret _ |- _ => apply reads_Ret in H as [H ?]
  | H : from _ _ = Ret _ |- _ => injection H as ? ?
  | H : gets _ _ = Ret _ |- _ => injection H as ? ?
  | H : modify _ _ = Ret _ |- _ => injection H as ? ?
  | H : ok_or _ _ _ = Ret _ |- _ => apply ok_or_Ret in H as [? ?]
  | H : try _ _ = Ret _ |- _ =>
      let r := fresh "r" in apply try_Ret in H as (r & H & ?)
  | H : Ret _ = Ret _ |- _ => injection H as ? ?; subst
  | H : Okay _ = Okay _ |- _ => injection H as ?; subst
  | H : _ ∧ _ |- _ => destruct H
  end; simplify_eq/=.
Ltac inv_st := repeat inv_st_step.
