(* ===== verification/Parser.v ===== *)
(** The byte parser of crates/klib/src/parser.rs ([ConsumableBuffer]), and which byte
    strings are UTF-8 ([core::str::from_utf8]). *)
From S2P Require Import Prelude KUtil Bytes.

(** ** UTF-8 *)
Definition between (lo hi x : Z) : bool := (lo <=? x) && (x <=? hi).
Definition is_cont (x : Z) : bool := between 0x80 0xBF x.

(** The allowed second bytes after a first byte that starts three or four. *)
Definition second_of_3 (b0 b1 : Z) : bool :=
  if b0 =? 0xE0 then between 0xA0 0xBF b1
  else if b0 =? 0xED then between 0x80 0x9F b1
  else is_cont b1.
Definition second_of_4 (b0 b1 : Z) : bool :=
  if b0 =? 0xF0 then between 0x90 0xBF b1
  else if b0 =? 0xF4 then between 0x80 0x8F b1
  else is_cont b1.

Fixpoint utf8_valid (l : list Z) : bool :=
  match l with
  | [] => true
  | b0 :: l1 =>
      if b0 <? 0x80 then utf8_valid l1
      else match l1 with
           | [] => false
           | b1 :: l2 =>
               if between 0xC2 0xDF b0 then is_cont b1 && utf8_valid l2
               else match l2 with
                    | [] => false
                    | b2 :: l3 =>
                        if between 0xE0 0xEF b0 then second_of_3 b0 b1 && is_cont b2 && utf8_valid l3
                        else match l3 with
                             | [] => false
                             | b3 :: l4 =>
                                 between 0xF0 0xF4 b0 && second_of_4 b0 b1 && is_cont b2 && is_cont b3
                                 && utf8_valid l4
                             end
                    end
           end
  end.

(** [core::str::from_utf8] *)
Definition from_utf8 (l : list Z) : option (list Z) := if utf8_valid l then Some l else None.

(** Bytes below 128 are UTF-8. *)
Lemma utf8_ascii l : Forall (λ x, x < 128) l → utf8_valid l = true.
Proof.
  induction 1 as [|x l Hx _ IH]; simpl; [done|]. by rewrite (proj2 (Z.ltb_lt _ _)).
Qed.

(** ** [ConsumableBuffer] *)
Record ConsumableBuffer := CB { buffer : list Z; position : nat }.

Definition cb_new (data : list Z) : ConsumableBuffer := CB data 0.
Definition cb_reset (c : ConsumableBuffer) : ConsumableBuffer := CB (buffer c) 0.

(** The parsers return [None], leaving the position, or what they consumed. A size
    near [usize::MAX] overflows the addition. *)
Definition consume_slice (c : ConsumableBuffer) (size : Z) : outcome (option (list Z) * ConsumableBuffer) :=
  e ← add 64 (Z.of_nat (position c)) size;
  if Z.of_nat (length (buffer c)) <? e then Ret (None, c)
  else Ret (Some (take (Z.to_nat size) (drop (position c) (buffer c))),
            CB (buffer c) (position c + Z.to_nat size)).

(** A number of [n] bytes, little endian. *)
Definition consume_number (c : ConsumableBuffer) (n : nat) : outcome (option Z * ConsumableBuffer) :=
  '(s, c) ← consume_slice c (Z.of_nat n);
  Ret (option_map le_combine s, c).

(** A [BigEndian] number of [n] bytes. *)
Definition consume_be (c : ConsumableBuffer) (n : nat) : outcome (option Z * ConsumableBuffer) :=
  '(s, c) ← consume_slice c (Z.of_nat n);
  Ret (option_map be_combine s, c).

Definition consume_alignment (c : ConsumableBuffer) (alignment : Z) : outcome (option unit * ConsumableBuffer) :=
  aligned_value ← align_up (Z.of_nat (position c)) alignment;
  diff ← sub aligned_value (Z.of_nat (position c));
  '(s, c) ← consume_slice c diff;
  Ret (option_map (λ _, tt) s, c).

(** The length of the string at the front: up to the first zero byte, [None] if there
    is none. *)
Fixpoint c_strlen (l : list Z) : option nat :=
  match l with
  | [] => None
  | x :: l => if x =? 0 then Some O else S <$> c_strlen l
  end.

Definition consume_str (c : ConsumableBuffer) : option (list Z) * ConsumableBuffer :=
  match c_strlen (drop (position c) (buffer c)) with
  | None => (None, c)
  | Some n =>
      match from_utf8 (take n (drop (position c) (buffer c))) with
      | None => (None, c)
      | Some s => (Some s, CB (buffer c) (position c + n + 1))
      end
  end.

Definition cb_empty (c : ConsumableBuffer) : bool := bool_decide (length (buffer c) ≤ position c)%nat.
Definition size_left (c : ConsumableBuffer) : nat := length (buffer c) - position c.
Definition cb_rest (c : ConsumableBuffer) : list Z := drop (position c) (buffer c).

(** ** Lemmas: what parsers leave behind *)
(** The position is within the buffer. *)
Definition cb_ok (c : ConsumableBuffer) : Prop :=
  (position c ≤ length (buffer c))%nat ∧ Z.of_nat (length (buffer c)) < 2 ^ 63.

Lemma consume_slice_app pre d rest : Z.of_nat (length (pre ++ d ++ rest)) < 2 ^ 63 →
  consume_slice (CB (pre ++ d ++ rest) (length pre)) (Z.of_nat (length d)) =
    Ret (Some d, CB (pre ++ d ++ rest) (length (pre ++ d))).
Proof.
  intros Hl. rewrite !length_app in Hl. unfold consume_slice. simpl.
  rewrite (proj2 (add_Ret 64 (Z.of_nat (length pre)) (Z.of_nat (length d)) (Z.of_nat (length pre + length d)))) by lia.
  bstep. rewrite !length_app, (proj2 (Z.ltb_ge _ _)) by lia. rewrite Nat2Z.id, drop_app_length, take_app_length. done.
Qed.

Lemma consume_slice_ok c size r c' : cb_ok c → 0 ≤ size → consume_slice c size = Ret (r, c') →
  cb_ok c' ∧ buffer c' = buffer c ∧ (position c ≤ position c')%nat ∧
  match r with
  | Some d => length d = Z.to_nat size ∧ cb_rest c = d ++ cb_rest c' ∧ position c' = (position c + Z.to_nat size)%nat
  | None => c' = c ∧ Z.of_nat (size_left c) < size
  end.
Proof.
  intros [Hp Hl] Hs. unfold consume_slice. intros (e & [-> _]%add_Ret & H)%bind_Ret.
  destruct (Z.ltb_spec (Z.of_nat (length (buffer c))) (Z.of_nat (position c) + size)) as [Hlt|Hge]; simplify_eq.
  - split; [done|]. split; [done|]. split; [done|]. split; [done|]. unfold size_left. lia.
  - simpl. unfold cb_ok, cb_rest. simpl. split; [split; [lia|done]|]. split; [done|]. split; [lia|].
    split; [rewrite length_take, length_drop; lia|]. split; [|done]. by rewrite <-drop_drop, take_drop.
Qed.

Lemma c_strlen_app s rest : 0 ∉ s → c_strlen (s ++ 0 :: rest) = Some (length s).
Proof.
  induction s as [|x s IH]; simpl; [done|]. intros [Hx Hs]%not_elem_of_cons.
  rewrite (proj2 (Z.eqb_neq _ _)) by done. by rewrite IH.
Qed.

Lemma c_strlen_Some l n : c_strlen l = Some n → ∃ s rest, l = s ++ 0 :: rest ∧ length s = n ∧ 0 ∉ s.
Proof.
  revert n. induction l as [|x l IH]; intros n; simpl; [done|]. destruct (Z.eqb_spec x 0) as [->|Hx].
  - intros [= <-]. exists [], l. split; [done|]. split; [done|]. apply not_elem_of_nil.
  - destruct (c_strlen l) as [k|]; [|done]. intros [= <-]. destruct (IH k eq_refl) as (s & rest & -> & <- & Hs).
    exists (x :: s), rest. split; [done|]. split; [done|]. by apply not_elem_of_cons.
Qed.

(** A string and its terminator are consumed together. *)
Lemma consume_str_app pre s rest : 0 ∉ s → utf8_valid s = true →
  consume_str (CB (pre ++ s ++ 0 :: rest) (length pre)) =
    (Some s, CB (pre ++ s ++ 0 :: rest) (length pre + length s + 1)).
Proof.
  intros H0 Hu. unfold consume_str. simpl. rewrite drop_app_length, c_strlen_app, take_app_length by done.
  unfold from_utf8. by rewrite Hu.
Qed.

Lemma consume_str_ok c r c' : cb_ok c → consume_str c = (r, c') →
  cb_ok c' ∧ buffer c' = buffer c ∧
  match r with
  | Some s => 0 ∉ s ∧ utf8_valid s = true ∧ cb_rest c = s ++ 0 :: cb_rest c'
  | None => c' = c
  end.
Proof.
  intros [Hp Hl]. unfold consume_str, from_utf8, cb_rest. destruct (c_strlen _) as [n|] eqn:E; [|by intros [= <- <-]].
  apply c_strlen_Some in E as (s & rest & Hs & <- & H0). rewrite Hs, take_app_length.
  destruct (utf8_valid s) eqn:Hu; intros [= <- <-]; [|done]. unfold cb_ok. simpl.
  assert (length (drop (position c) (buffer c)) = length (s ++ 0 :: rest)) as Hlen by by rewrite Hs.
  rewrite length_drop, length_app in Hlen. simpl in Hlen. split; [split; [lia|done]|]. split; [done|].
  split; [done|]. split; [done|]. rewrite <-Nat.add_assoc, <-drop_drop, Hs. rewrite Nat.add_1_r. f_equal.
  rewrite drop_app_ge by lia. replace (S (length s) - length s)%nat with 1%nat by lia. done.
Qed.

(** ** Padding to a multiple of four *)
Definition pad4 (n : nat) : list Z := replicate ((4 - n mod 4) mod 4) 0.

Lemma pad4_length n : Z.of_nat (n + length (pad4 n)) = 4 * ((Z.of_nat n + 3) / 4).
Proof.
  unfold pad4. rewrite length_replicate, Nat2Z.inj_add, Nat2Z.inj_mod, Nat2Z.inj_sub, Nat2Z.inj_mod by (pose proof (Nat.mod_upper_bound n 4); lia).
  change (Z.of_nat 4) with 4. pose proof (Z.div_mod (Z.of_nat n) 4 ltac:(lia)) as H. pose proof (Z.mod_pos_bound (Z.of_nat n) 4 ltac:(lia)).
  set (q := Z.of_nat n / 4) in *. set (r := Z.of_nat n mod 4) in *.
  replace (Z.of_nat n + 3) with ((r + 3) + q * 4) by lia. rewrite Z.div_add by lia.
  assert (r = 0 ∨ r = 1 ∨ r = 2 ∨ r = 3) as [Hr|[Hr|[Hr|Hr]]] by lia; rewrite Hr; vm_compute (_ mod 4); vm_compute ((_ + 3) / 4); lia.
Qed.
