(* ===== verification/Paths.v ===== *)
(** Paths: the string functions of crates/kernel/src/fs/vfs.rs
    ([canonicalize_path], [pop_segment]), of crates/kernel/src/syscalls/helpers.rs
    ([compose_abs], [make_absolute]) and of crates/kernel/src/initramfs/mod.rs
    ([normalize], [split_parent]), with what they use of Rust's [str].

    A string is the list of its bytes. The separator is a single byte below 128,
    so splitting the bytes and splitting the characters agree. *)
From Stdlib Require Import Strings.Ascii.
From S2P Require Import Prelude.

Abbreviation str := (list Z).

(** Literals. *)
Fixpoint b (s : string) : str :=
  match s with
  | EmptyString => []
  | String c s => Z.of_N (Ascii.N_of_ascii c) :: b s
  end.

Definition slash : Z := 47.
Definition dot : str := [46].
Definition dotdot : str := [46; 46].

(** ** What Rust's [str] provides *)
(** [s.split('/')] *)
Fixpoint split_slash (s : str) : list str :=
  match s with
  | [] => [[]]
  | c :: s =>
      if c =? slash then [] :: split_slash s
      else match split_slash s with
           | p :: ps => (c :: p) :: ps
           | [] => [[c]]
           end
  end.

Definition starts_with_slash (s : str) : bool :=
  match s with c :: _ => c =? slash | [] => false end.

Definition ends_with_slash (s : str) : bool :=
  match last s with Some c => c =? slash | None => false end.

(** [s.starts_with(p)] *)
Fixpoint starts_with (p s : str) : bool :=
  match p, s with
  | [], _ => true
  | x :: p, y :: s => (x =? y) && starts_with p s
  | _ :: _, [] => false
  end.

(** [s.rfind('/')] *)
Fixpoint rfind_slash (s : str) : option nat :=
  match s with
  | [] => None
  | c :: s =>
      match rfind_slash s with
      | Some i => Some (S i)
      | None => if c =? slash then Some O else None
      end
  end.

(** [s.trim_start_matches('/')] and [s.trim_end_matches('/')] *)
Fixpoint trim_start_slash (s : str) : str :=
  match s with c :: s' => if c =? slash then trim_start_slash s' else s | [] => [] end.

Definition trim_end_slash (s : str) : str := reverse (trim_start_slash (reverse s)).

(** ** Canonical paths *)
(** One turn of the loop of [canonicalize_path]. *)
Definition push_component (stack : list str) (component : str) : list str :=
  if bool_decide (component = []) || bool_decide (component = dot) then stack
  else if bool_decide (component = dotdot) then removelast stack
  else stack ++ [component].

Definition canonicalize_path (path : str) : str :=
  let stack := foldl push_component [] (split_slash path) in
  if bool_decide (stack = []) then [slash]
  else foldl (λ out c, out ++ [slash] ++ c) [] stack.

Definition pop_segment (path : str) : str :=
  if bool_decide (path = [slash]) then [slash]
  else match rfind_slash path with
       | Some O => [slash]
       | Some pos => take pos path
       | None => [slash]
       end.

Definition compose_abs (base_abs path : str) : str :=
  canonicalize_path
    (if starts_with_slash path then path
     else if ends_with_slash base_abs then base_abs ++ path
     else base_abs ++ [slash] ++ path).

Definition make_absolute (cwd path : str) : str :=
  if starts_with_slash path then path
  else if bool_decide (cwd = [slash]) then [slash] ++ path
  else cwd ++ [slash] ++ path.

(** ** Paths of an archive *)
Definition normalize (name : str) : str :=
  let s := trim_start_slash name in
  let s := if starts_with (b "./") s then drop 2 s else s in
  if bool_decide (s = dot) then [] else s.

Definition split_parent (path : str) : str * str :=
  match rfind_slash path with
  | Some i => (take i path, drop (S i) path)
  | None => ([], path)
  end.

(** ** Names and absolute paths *)
(** A name of a directory entry that path resolution can reach. *)
Definition is_name (n : str) : Prop := n ≠ [] ∧ n ≠ dot ∧ n ≠ dotdot ∧ slash ∉ n.

#[global] Instance is_name_dec n : Decision (is_name n).
Proof. unfold is_name. apply _. Defined.

(** The absolute path with the given names. *)
Definition abs_path (ns : list str) : str :=
  match ns with [] => [slash] | _ => concat (map (cons slash) ns) end.

(** The names a path denotes when [.] and [..] are resolved from left to right. *)
Definition lexical (path : str) : list str := foldl push_component [] (split_slash path).

Lemma split_slash_nonempty s : split_slash s ≠ [].
Proof. destruct s as [|c s]; simpl; [done|]. destruct (c =? slash); [done|]. by destruct (split_slash s). Qed.

Lemma split_slash_no_slash n : slash ∉ n → split_slash n = [n].
Proof.
  induction n as [|c n IH]; simpl; [done|]. intros [Hc Hn]%not_elem_of_cons.
  rewrite (proj2 (Z.eqb_neq _ _)) by done. by rewrite IH.
Qed.

(** A name followed by the separator is split off. *)
Lemma split_slash_name n s : slash ∉ n → split_slash (n ++ slash :: s) = n :: split_slash s.
Proof.
  induction n as [|c n IH]; simpl; [done|]. intros [Hc Hn]%not_elem_of_cons.
  rewrite (proj2 (Z.eqb_neq _ _)) by done. by rewrite IH.
Qed.

Lemma split_slash_pieces s p : p ∈ split_slash s → slash ∉ p.
Proof.
  revert p. induction s as [|c s IH]; intros p; simpl.
  - intros ->%list_elem_of_singleton. apply not_elem_of_nil.
  - destruct (Z.eqb_spec c slash) as [->|Hc].
    + intros [->|?]%elem_of_cons; [apply not_elem_of_nil|auto].
    + destruct (split_slash s) as [|q qs] eqn:E; [by destruct (split_slash_nonempty s)|].
      intros [->|?]%elem_of_cons; [|apply IH; by right]. apply not_elem_of_cons. split; [done|]. apply IH. by left.
Qed.

Lemma split_abs_path ns : Forall is_name ns → ns ≠ [] → split_slash (abs_path ns) = [] :: ns.
Proof.
  intros H Hne. destruct ns as [|n ns]; [done|]. unfold abs_path. clear Hne.
  apply Forall_cons in H as [(_ & _ & _ & Hn) H]. cbn [map concat app split_slash]. rewrite Z.eqb_refl. f_equal.
  revert n Hn. induction ns as [|m ns IH]; intros n Hn; simpl; [by rewrite app_nil_r, split_slash_no_slash|].
  apply Forall_cons in H as [(_ & _ & _ & Hm) H]. rewrite split_slash_name by done. f_equal. by apply IH.
Qed.

Lemma push_name stack n : is_name n → push_component stack n = stack ++ [n].
Proof.
  intros (H1 & H2 & H3 & _). unfold push_component.
  by rewrite !bool_decide_false by done.
Qed.

Lemma push_names stack ns : Forall is_name ns → foldl push_component stack ns = stack ++ ns.
Proof.
  revert stack. induction ns as [|n ns IH]; intros stack H; simpl; [by rewrite app_nil_r|].
  apply Forall_cons in H as [Hn H]. rewrite push_name by done. rewrite IH by done. by rewrite <-app_assoc.
Qed.

Lemma removelast_Forall {A} (P : A → Prop) l : Forall P l → Forall P (removelast l).
Proof.
  intros H. rewrite removelast_firstn_len. by apply Forall_take.
Qed.

Lemma lexical_names path : Forall is_name (lexical path).
Proof.
  unfold lexical. assert (Forall (λ p, slash ∉ p) (split_slash path)) as Hs
    by (apply Forall_forall; apply split_slash_pieces).
  revert Hs. generalize (split_slash path). intros ps.
  assert (Forall is_name (@nil str)) as H0 by constructor. revert H0. generalize (@nil str).
  induction ps as [|p ps IH]; intros st Hst Hs; simpl; [done|]. apply Forall_cons in Hs as [Hp Hs].
  apply IH; [|done]. unfold push_component. repeat case_bool_decide; simpl; auto using removelast_Forall.
  apply Forall_app. split; [done|]. apply Forall_singleton. by repeat split.
Qed.

Lemma canonicalize_abs path : canonicalize_path path = abs_path (lexical path).
Proof.
  unfold canonicalize_path. fold (lexical path). destruct (lexical path) as [|n ns]; [done|].
  rewrite bool_decide_false by done. unfold abs_path.
  assert (∀ l out, foldl (λ out c, out ++ [slash] ++ c) out l = out ++ concat (map (cons slash) l)) as ->; [|done].
  induction l as [|c l IH]; intros out; simpl; [by rewrite app_nil_r|]. rewrite IH. simpl. by rewrite <-app_assoc.
Qed.

Lemma lexical_abs ns : Forall is_name ns → lexical (abs_path ns) = ns.
Proof.
  intros H. destruct (decide (ns = [])) as [->|Hne]; [done|]. unfold lexical.
  rewrite split_abs_path by done. simpl. by rewrite push_names.
Qed.

Lemma canonicalize_idempotent path : canonicalize_path (canonicalize_path path) = canonicalize_path path.
Proof. rewrite !canonicalize_abs, lexical_abs; [done|]. apply lexical_names. Qed.

Lemma lexical_app p q : lexical (p ++ slash :: q) = foldl push_component (lexical p) (split_slash q).
Proof.
  unfold lexical. rewrite <-foldl_app. f_equal.
  induction p as [|c p IH]; simpl; [done|]. destruct (c =? slash); [by rewrite IH|]. rewrite IH.
  destruct (split_slash p) eqn:E; [by destruct (split_slash_nonempty p)|done].
Qed.

(** ** Absolute paths and their prefixes *)
Lemma split_slash_app p q : split_slash (p ++ slash :: q) = split_slash p ++ split_slash q.
Proof.
  induction p as [|c p IH]; simpl; [done|]. destruct (c =? slash); [by rewrite IH|]. rewrite IH.
  destruct (split_slash p) eqn:E; [by destruct (split_slash_nonempty p)|done].
Qed.

Lemma abs_path_inj ns ms : Forall is_name ns → Forall is_name ms → abs_path ns = abs_path ms → ns = ms.
Proof. intros Hn Hm H. by rewrite <-(lexical_abs ns), H, lexical_abs. Qed.

Lemma abs_path_app ms k : ms ≠ [] → abs_path (ms ++ k) = abs_path ms ++ concat (map (cons slash) k).
Proof. destruct ms as [|m ms]; [done|]. intros _. unfold abs_path. simpl. by rewrite map_app, concat_app, app_assoc. Qed.

Lemma starts_with_app p s : starts_with p s = true ↔ ∃ r, s = p ++ r.
Proof.
  revert s. induction p as [|x p IH]; intros s; simpl; [split; [by exists s|done]|].
  destruct s as [|y s]; [split; [done|by intros [r ?]]|]. rewrite andb_true_iff, Z.eqb_eq, IH.
  split; [intros [-> [r ->]]; by exists r|intros [r [= -> ->]]; eauto].
Qed.

Lemma starts_with_slash_abs ns : starts_with_slash (abs_path ns) = true.
Proof. by destruct ns. Qed.

(** The path [p] lies at or below [m], a separator following [m] in it. *)
Lemma below_abs ms ns r : Forall is_name ms → Forall is_name ns → ms ≠ [] →
  abs_path ns = abs_path ms ++ slash :: r → ns = ms ++ split_slash r.
Proof.
  intros Hm Hn Hne H. assert (ns ≠ []) as Hns.
  { intros ->. destruct ms as [|m ms]; [done|]. apply (f_equal length) in H. unfold abs_path in H. simpl in H.
    rewrite length_app in H. simpl in H. lia. }
  apply (f_equal split_slash) in H. rewrite split_slash_app, !split_abs_path in H by done.
  by injection H.
Qed.

Lemma removelast_snoc {A} (l : list A) x : removelast (l ++ [x]) = l.
Proof. rewrite removelast_app by done. apply app_nil_r. Qed.

Lemma rfind_slash_app p n : slash ∉ n → rfind_slash (p ++ slash :: n) = Some (length p).
Proof.
  intros Hn. induction p as [|c p IH]; simpl; [|by rewrite IH].
  assert (rfind_slash n = None) as ->; [|done].
  induction n as [|d n IH]; simpl; [done|]. apply not_elem_of_cons in Hn as [Hd Hn].
  rewrite IH by done. by rewrite (proj2 (Z.eqb_neq _ _)).
Qed.

Lemma pop_segment_abs ns n : Forall is_name ns → is_name n → pop_segment (abs_path (ns ++ [n])) = abs_path ns.
Proof.
  intros Hns (Hn & _ & _ & Hs). destruct n as [|x n]; [done|]. unfold pop_segment.
  destruct (decide (ns = [])) as [->|Hne].
  - cbn [app abs_path map concat]. rewrite app_nil_r, bool_decide_false by done.
    change (slash :: x :: n) with ([] ++ slash :: x :: n). by rewrite rfind_slash_app.
  - rewrite abs_path_app by done. cbn [map concat]. rewrite app_nil_r, bool_decide_false.
    + rewrite rfind_slash_app by done. destruct (length (abs_path ns)) as [|j] eqn:E.
      * by destruct ns.
      * by rewrite <-E, take_app_length.
    + intros H%(f_equal length). rewrite length_app in H. simpl in H. lia.
Qed.

Lemma pop_segment_root : pop_segment (abs_path []) = abs_path [].
Proof. done. Qed.

(** What is left of a path below a prefix, and its components. *)
Lemma remainder_split ms k : Forall is_name (ms ++ k) →
  split_slash (drop (length (abs_path ms)) (abs_path (ms ++ k))) = k ∨
  split_slash (drop (length (abs_path ms)) (abs_path (ms ++ k))) = [] :: k.
Proof.
  intros [Hm Hk]%Forall_app. destruct (decide (ms = [])) as [->|Hne].
  - destruct k as [|n k]; [by right|left]. pose proof (split_abs_path (n :: k) Hk) as H.
    cbn [app abs_path map concat length drop split_slash] in *. rewrite Z.eqb_refl in H.
    by injection H.
  - rewrite abs_path_app by done. rewrite drop_app_length. right.
    destruct k as [|n k]; [done|]. by apply (split_abs_path (n :: k)).
Qed.

Lemma abs_path_length ms k : k ≠ [] → Forall is_name k → (length (abs_path ms) < length (abs_path (ms ++ k)))%nat.
Proof.
  intros Hne Hk. destruct k as [|n k]; [done|]. apply Forall_cons in Hk as [(Hn & _) _].
  destruct n as [|x n]; [done|]. destruct (decide (ms = [])) as [->|Hm].
  - cbn [app abs_path map concat length]. simpl. lia.
  - rewrite abs_path_app by done. rewrite length_app. simpl. lia.
Qed.

Lemma lexical_slash path : lexical ([slash] ++ path) = lexical path.
Proof. done. Qed.
