(* ===== verification/Vfs.v ===== *)
(** The file system tree: crates/kernel/src/fs/vfs.rs with the nodes of tmpfs.rs,
    procfs.rs, devfs.rs and ext2/{dir,file}.rs.

    A node is an object behind [Arc<dyn VfsNode>]: [nodes] holds them under
    handles, and a directory maps names to handles, so that a hard link is one
    handle under two names. The trait's default methods are the last branches of
    the matches below. Devices implement the traits of crates/driver-api/src/lib.rs;
    they are an interface here, with a state of their own. *)
From stdpp Require Import sorting.
From S2P Require Import Prelude Headers ResultM Paths.

(** Constants of the generated headers. *)
Class FsHeaders := {
  S_IFMT : Z; S_IFREG : Z; S_IFDIR : Z; S_IFLNK : Z; S_IFBLK : Z; S_IFCHR : Z; S_IFIFO : Z; S_IFSOCK : Z;
  O_APPEND : Z; O_CREAT : Z; O_EXCL : Z; O_TRUNC : Z; O_DIRECTORY : Z; O_NONBLOCK : Z; O_CLOEXEC : Z;
  SEEK_SET : Z; SEEK_CUR : Z; SEEK_END : Z;
  AT_FDCWD : Z; AT_REMOVEDIR : Z; AT_SYMLINK_NOFOLLOW : Z; AT_EMPTY_PATH : Z;
  DT_REG : Z; DT_DIR : Z; DT_LNK : Z;
}.

Class FsHeadersOk (H : FsHeaders) : Prop := {
  s_values : S_IFMT = 0xF000 ∧ S_IFREG = 0x8000 ∧ S_IFDIR = 0x4000 ∧ S_IFLNK = 0xA000 ∧
    S_IFBLK = 0x6000 ∧ S_IFCHR = 0x2000 ∧ S_IFIFO = 0x1000 ∧ S_IFSOCK = 0xC000;
  o_values : O_APPEND = 0x400 ∧ O_CREAT = 0x40 ∧ O_EXCL = 0x80 ∧ O_TRUNC = 0x200 ∧
    O_DIRECTORY = 0x10000 ∧ O_NONBLOCK = 0x800 ∧ O_CLOEXEC = 0x80000;
  seek_values : SEEK_SET = 0 ∧ SEEK_CUR = 1 ∧ SEEK_END = 2;
  at_values : AT_FDCWD = -100 ∧ AT_REMOVEDIR = 0x200 ∧ AT_SYMLINK_NOFOLLOW = 0x100 ∧ AT_EMPTY_PATH = 0x1000;
  dt_values : DT_REG = 8 ∧ DT_DIR = 4 ∧ DT_LNK = 10;
}.

Definition linux_fs : FsHeaders := {|
  S_IFMT := 0xF000; S_IFREG := 0x8000; S_IFDIR := 0x4000; S_IFLNK := 0xA000;
  S_IFBLK := 0x6000; S_IFCHR := 0x2000; S_IFIFO := 0x1000; S_IFSOCK := 0xC000;
  O_APPEND := 0x400; O_CREAT := 0x40; O_EXCL := 0x80; O_TRUNC := 0x200;
  O_DIRECTORY := 0x10000; O_NONBLOCK := 0x800; O_CLOEXEC := 0x80000;
  SEEK_SET := 0; SEEK_CUR := 1; SEEK_END := 2;
  AT_FDCWD := -100; AT_REMOVEDIR := 0x200; AT_SYMLINK_NOFOLLOW := 0x100; AT_EMPTY_PATH := 0x1000;
  DT_REG := 8; DT_DIR := 4; DT_LNK := 10;
|}.

Lemma linux_fs_ok : FsHeadersOk linux_fs.
Proof. by split. Qed.

(** The device traits: a device has a handle, all devices one state. A read
    returns the bytes it put at the front of the buffer. *)
Class Devices (D : Type) := {
  char_read : D → nat → nat → D * result (list Z);
  char_write : D → nat → list Z → D * result Z;
  is_tty : nat → bool;
  display_read_at : D → nat → Z → nat → D * result (list Z);
  display_write_at : D → nat → Z → list Z → D * result Z;
  poll_event : D → nat → D * option (list Z);
  rng_fill : D → nat → nat → D * result (list Z);
  num_blocks : nat → Z;
  block_size : nat → Z;
  block_read : D → nat → Z → nat → D * result (list Z);
  block_write : D → nat → Z → list Z → D * result Z;
}.

(** ** Nodes *)
Inductive NodeType := File | Directory | Symlink.

#[global] Instance NodeType_eq_dec : EqDecision NodeType.
Proof. solve_decision. Defined.

Record TmpfsMetadata := Meta { mode : Z; uid : Z; gid : Z; nlink : Z }.

Inductive NodeKind :=
  | TmpfsFile (data : list Z) (m : TmpfsMetadata)
  | TmpfsDir (children : gmap str nat) (m : TmpfsMetadata)
  | TmpfsSymlink (target : str)
  | StaticDir (entries : gmap str nat)
  | ProcVersionFile
  | DevNull
  | DevZero
  | CharNode (device : nat)
  | DisplayNode (device : nat) (size : Z)
  | InputNode (device : nat)
  | RngNode (device : nat)
  | BlockNode (device : nat)
  | DevfsDir (entries : gmap str nat)
  | Ext2Dir (children : gmap str nat)
  | Ext2File (data : list Z) (file_size : nat).

Record VfsNode := MkNode { ino : Z; kind : NodeKind }.

(** An open file ([VfsOpenFileInner] of fs/open_file.rs). *)
Record VfsOpenFileInner := MkFile { f_node : nat; f_offset : Z; f_flags : Z; f_abs_path : str }.

(** The nodes, the mount table, the open files (shared, under handles) and the
    devices. *)
Record FS {D : Type} := MkFS {
  nodes : gmap nat VfsNode;
  next_node : nat;
  next_ino : Z;
  MOUNT_TABLE : gmap str nat;
  DEVFS : option nat;
  files : gmap nat VfsOpenFileInner;
  next_file : nat;
  devices : D;
}.
Arguments FS : clear implicits.
Arguments MkFS {D}.

Definition set_nodes {D} (s : FS D) (ns : gmap nat VfsNode) : FS D :=
  MkFS ns (next_node s) (next_ino s) (MOUNT_TABLE s) (DEVFS s) (files s) (next_file s) (devices s).
Definition set_mounts {D} (s : FS D) (ms : gmap str nat) : FS D :=
  MkFS (nodes s) (next_node s) (next_ino s) ms (DEVFS s) (files s) (next_file s) (devices s).
Definition set_devfs {D} (s : FS D) (d : option nat) : FS D :=
  MkFS (nodes s) (next_node s) (next_ino s) (MOUNT_TABLE s) d (files s) (next_file s) (devices s).
Definition set_files {D} (s : FS D) (fs : gmap nat VfsOpenFileInner) : FS D :=
  MkFS (nodes s) (next_node s) (next_ino s) (MOUNT_TABLE s) (DEVFS s) fs (next_file s) (devices s).
Definition set_devices {D} (s : FS D) (d : D) : FS D :=
  MkFS (nodes s) (next_node s) (next_ino s) (MOUNT_TABLE s) (DEVFS s) (files s) (next_file s) d.

Abbreviation fsM D := (stM (FS D)).

Section vfs.
Context `{FH : FsHeaders} {D : Type} `{DV : Devices D}.

Definition stat_mode (t : NodeType) : Z :=
  match t with
  | File => Z.lor S_IFREG 0x1A4
  | Directory => Z.lor S_IFDIR 0x1ED
  | Symlink => Z.lor S_IFLNK 0x1FF
  end.

Definition node_type (k : NodeKind) : NodeType :=
  match k with
  | TmpfsDir _ _ | StaticDir _ | DevfsDir _ | Ext2Dir _ => Directory
  | TmpfsSymlink _ => Symlink
  | _ => File
  end.

Definition VERSION_STRING : list Z := b "Solaya 0.1.0" ++ [10].

Definition node_size (k : NodeKind) : outcome Z :=
  match k with
  | TmpfsFile data _ => Ret (Z.of_nat (length data))
  | TmpfsSymlink target => Ret (Z.of_nat (length target))
  | ProcVersionFile => Ret (Z.of_nat (length VERSION_STRING))
  | DisplayNode _ size => Ret size
  | BlockNode d => mul 64 (num_blocks d) (block_size d)
  | Ext2File _ file_size => Ret (Z.of_nat file_size)
  | _ => Ret 0
  end.

Definition node_mode (k : NodeKind) : Z :=
  match k with TmpfsFile _ m | TmpfsDir _ m => mode m | _ => stat_mode (node_type k) end.
Definition node_uid (k : NodeKind) : Z :=
  match k with TmpfsFile _ m | TmpfsDir _ m => uid m | _ => 0 end.
Definition node_gid (k : NodeKind) : Z :=
  match k with TmpfsFile _ m | TmpfsDir _ m => gid m | _ => 0 end.
Definition node_nlink (k : NodeKind) : Z :=
  match k with TmpfsFile _ m | TmpfsDir _ m => nlink m | _ => 1 end.

(** ** The store *)
Definition get_node (n : nat) : fsM D VfsNode := λ s, v ← expect (nodes s !! n); Ret (Okay v, s).

Definition set_kind (n : nat) (k : NodeKind) : fsM D unit := λ s,
  v ← expect (nodes s !! n);
  Ret (Okay tt, set_nodes s (<[n := MkNode (ino v) k]> (nodes s))).

(** [Arc::new] of a node with a new inode number. *)
Definition new_node (k : NodeKind) : fsM D nat := λ s,
  Ret (Okay (next_node s),
       MkFS (<[next_node s := MkNode (next_ino s) k]> (nodes s)) (S (next_node s))
         (wrapping_add 64 (next_ino s) 1) (MOUNT_TABLE s) (DEVFS s) (files s) (next_file s) (devices s)).

(** A call of a device. *)
Definition device {A} (f : D → D * result A) : fsM D A := λ s,
  let '(d, r) := f (devices s) in
  Ret (r, set_devices s d).

Definition tmpfs_file : NodeKind := TmpfsFile [] (Meta (Z.lor S_IFREG 0x1A4) 0 0 1).
Definition tmpfs_dir : NodeKind := TmpfsDir ∅ (Meta (Z.lor S_IFDIR 0x1ED) 0 0 2).

Open Scope stM_scope.

(** ** Methods of the nodes *)
(** The part of [data] that a read at [offset] into [len] bytes copies. *)
Definition read_data (data : list Z) (offset : Z) (len : nat) : list Z :=
  if Z.of_nat (length data) <=? offset then [] else take len (drop (Z.to_nat offset) data).

(** The loop of [InputNode::read]: at most [n] events. *)
Fixpoint read_events (n : nat) (d : nat) : fsM D (list Z) :=
  match n with
  | O => ok []
  | S n =>
      e ←? device (λ st, let '(st, e) := poll_event st d in (st, Okay e));
      match e with
      | None => ok []
      | Some bytes => rest ←? read_events n d; ok (bytes ++ rest)
      end
  end.

Definition node_read (n : nat) (offset : Z) (len : nat) : fsM D (list Z) :=
  v ←? get_node n;
  match kind v with
  | TmpfsFile data _ => ok (read_data data offset len)
  | ProcVersionFile => ok (read_data VERSION_STRING offset len)
  | Ext2File data file_size =>
      if Z.of_nat file_size <=? offset then ok []
      else lift (rassert (bool_decide (file_size ≤ length data)%nat));;?
           ok (take len (drop (Z.to_nat offset) (take file_size data)))
  | DevNull => ok []
  | DevZero => ok (replicate len 0)
  | CharNode d => device (λ st, char_read st d len)
  | DisplayNode d _ => device (λ st, display_read_at st d offset len)
  | InputNode d =>
      data ←? read_events (len / 8) d;
      if bool_decide (data = []) then fail EAGAIN else ok data
  | RngNode d => device (λ st, rng_fill st d len)
  | _ => fail EISDIR
  end.

(** [Vec::resize(n, 0)] *)
Definition resize0 (l : list Z) (n : nat) : list Z := take n l ++ replicate (n - length l) 0.

(** [content[offset..offset + data.len()].copy_from_slice(data)] *)
Definition overwrite (content : list Z) (offset : nat) (data : list Z) : list Z :=
  take offset content ++ data ++ drop (offset + length data) content.

(** [Vec::resize] panics when the capacity would exceed [isize::MAX]. *)
Definition vec_resize (l : list Z) (n : Z) : outcome (list Z) :=
  if n <? 2 ^ 63 then Ret (resize0 l (Z.to_nat n)) else Panic.

Definition node_write (n : nat) (offset : Z) (data : list Z) : fsM D Z :=
  v ←? get_node n;
  match kind v with
  | TmpfsFile content m =>
      e ←? lift (add 64 offset (Z.of_nat (length data)));
      content ←? lift (if Z.of_nat (length content) <? e then vec_resize content e else Ret content);
      set_kind n (TmpfsFile (overwrite content (Z.to_nat offset) data) m);;?
      ok (Z.of_nat (length data))
  | ProcVersionFile => fail EACCES
  | Ext2File _ _ => fail EROFS
  | DevNull | DevZero | InputNode _ | RngNode _ => ok (Z.of_nat (length data))
  | CharNode d => device (λ st, char_write st d data)
  | DisplayNode d _ => device (λ st, display_write_at st d offset data)
  | _ => fail EISDIR
  end.

Definition node_truncate (n : nat) (len : Z) : fsM D unit :=
  v ←? get_node n;
  match kind v with
  | TmpfsFile content m => content ←? lift (vec_resize content len); set_kind n (TmpfsFile content m)
  | Ext2File _ _ => fail EROFS
  | BlockNode _ => fail EINVAL
  | DevNull | DevZero | CharNode _ | DisplayNode _ _ | InputNode _ | RngNode _ => ok tt
  | _ => fail EISDIR
  end.

Definition set_mode (n : nat) (md : Z) : fsM D unit :=
  v ←? get_node n;
  match kind v with
  | TmpfsFile c m => set_kind n (TmpfsFile c (Meta md (uid m) (gid m) (nlink m)))
  | TmpfsDir c m => set_kind n (TmpfsDir c (Meta md (uid m) (gid m) (nlink m)))
  | _ => fail EPERM
  end.

Definition set_owner (n : nat) (u g : Z) : fsM D unit :=
  v ←? get_node n;
  match kind v with
  | TmpfsFile c m => set_kind n (TmpfsFile c (Meta (mode m) u g (nlink m)))
  | TmpfsDir c m => set_kind n (TmpfsDir c (Meta (mode m) u g (nlink m)))
  | _ => fail EPERM
  end.

Definition set_nlink (m : TmpfsMetadata) (l : Z) : TmpfsMetadata := Meta (mode m) (uid m) (gid m) l.

Definition inc_nlink (n : nat) : fsM D unit :=
  v ←? get_node n;
  match kind v with
  | TmpfsFile c m => l ←? lift (add 32 (nlink m) 1); set_kind n (TmpfsFile c (set_nlink m l))
  | _ => ok tt
  end.

(** The entries of a directory, [None] for another node. *)
Definition entries_of (k : NodeKind) : option (gmap str nat) :=
  match k with
  | TmpfsDir c _ | StaticDir c | DevfsDir c | Ext2Dir c => Some c
  | _ => None
  end.

Definition lookup (s : FS D) (n : nat) (name : str) : outcome (result nat) :=
  v ← expect (nodes s !! n);
  Ret (match entries_of (kind v) with
       | Some c => match c !! name with Some m => Okay m | None => Err ENOENT end
       | None => Err ENOTDIR
       end).

Definition create (n : nat) (name : str) (t : NodeType) : fsM D nat :=
  v ←? get_node n;
  match kind v with
  | TmpfsDir c m =>
      if bool_decide (is_Some (c !! name)) then fail EEXIST
      else match t with
           | File => f ←? new_node tmpfs_file; set_kind n (TmpfsDir (<[name := f]> c) m);;? ok f
           | Directory =>
               l ←? lift (add 32 (nlink m) 1);
               f ←? new_node tmpfs_dir; set_kind n (TmpfsDir (<[name := f]> c) (set_nlink m l));;? ok f
           | Symlink => fail EINVAL
           end
  | Ext2Dir _ => fail EROFS
  | _ => fail ENOTDIR
  end.

Definition create_symlink (n : nat) (name target : str) : fsM D nat :=
  v ←? get_node n;
  match kind v with
  | TmpfsDir c m =>
      if bool_decide (is_Some (c !! name)) then fail EEXIST
      else f ←? new_node (TmpfsSymlink target); set_kind n (TmpfsDir (<[name := f]> c) m);;? ok f
  | _ => fail ENOTDIR
  end.

Definition unlink (n : nat) (name : str) : fsM D unit :=
  v ←? get_node n;
  match kind v with
  | TmpfsDir c m =>
      match c !! name with
      | None => fail ENOENT
      | Some f =>
          w ←? get_node f;
          l ←? lift (if bool_decide (node_type (kind w) = Directory) then sub (nlink m) 1 else Ret (nlink m));
          set_kind n (TmpfsDir (delete name c) (set_nlink m l))
      end
  | Ext2Dir _ => fail EROFS
  | _ => fail ENOTDIR
  end.

Definition link (n : nat) (name : str) (f : nat) : fsM D unit :=
  v ←? get_node n;
  match kind v with
  | TmpfsDir c m =>
      if bool_decide (is_Some (c !! name)) then fail EEXIST
      else set_kind n (TmpfsDir (<[name := f]> c) m)
  | _ => fail ENOTDIR
  end.

Definition remove_child (n : nat) (name : str) : fsM D nat :=
  v ←? get_node n;
  match kind v with
  | TmpfsDir c m =>
      match c !! name with
      | None => fail ENOENT
      | Some f => set_kind n (TmpfsDir (delete name c) m);;? ok f
      end
  | _ => fail ENOTDIR
  end.

Definition readlink (k : NodeKind) : result str :=
  match k with TmpfsSymlink t => Okay t | _ => Err EINVAL end.

(** The order of [BTreeMap<String, _>]. *)
Fixpoint str_leb (p q : str) : bool :=
  match p, q with
  | [], _ => true
  | _ :: _, [] => false
  | x :: p, y :: q => (x <? y) || ((x =? y) && str_leb p q)
  end.
Definition str_le (p q : str) : Prop := Is_true (str_leb p q).

#[export] Instance str_le_dec p q : Decision (str_le p q).
Proof. unfold str_le. apply _. Defined.

Definition btree_keys {A} (m : gmap str A) : list str := merge_sort str_le (map fst (map_to_list m)).

Record DirEntry := MkEntry { e_name : str; e_ino : Z; e_type : NodeType }.

Definition dir_entry (s : FS D) (c : gmap str nat) (name : str) : outcome DirEntry :=
  n ← expect (c !! name);
  v ← expect (nodes s !! n);
  Ret (MkEntry name (ino v) (node_type (kind v))).

Definition readdir (s : FS D) (n : nat) : outcome (result (list DirEntry)) :=
  v ← expect (nodes s !! n);
  match entries_of (kind v) with
  | None => Ret (Err ENOTDIR)
  | Some c => es ← mapM_outcome (dir_entry s c) (btree_keys c); Ret (Okay es)
  end.

Definition char_device (k : NodeKind) : option nat := match k with CharNode d => Some d | _ => None end.
Definition block_device (k : NodeKind) : option nat := match k with BlockNode d => Some d | _ => None end.

(** ** Mounting and devices *)
Definition mount (path : str) (root : nat) : fsM D unit :=
  modify (λ s, set_mounts s (<[path := root]> (MOUNT_TABLE s))).

Definition register_device (name : str) (node : nat) : fsM D unit :=
  d ←? (λ s, n ← expect (DEVFS s); Ret (Okay n, s));
  v ←? get_node d;
  match kind v with
  | DevfsDir c => set_kind d (DevfsDir (<[name := node]> c))
  | _ => lift Panic
  end.

Definition register_node (name : str) (k : NodeKind) : fsM D unit :=
  n ←? new_node k; register_device name n.

(** [name] is [device.name()]; a display also has the stride and height of its
    frame buffer, both [u32]. *)
Definition register_block_device (name : str) (d : nat) : fsM D unit := register_node name (BlockNode d).
Definition register_char_device (name : str) (d : nat) : fsM D unit := register_node name (CharNode d).
Definition register_display_device (name : str) (d : nat) (stride height : Z) : fsM D unit :=
  size ←? lift (mul 64 stride height); register_node name (DisplayNode d size).
Definition register_input_device (name : str) (d : nat) : fsM D unit := register_node name (InputNode d).
Definition register_rng_device (name : str) (d : nat) : fsM D unit := register_node name (RngNode d).

Definition devfs_new : fsM D nat :=
  null ←? new_node DevNull;
  zero ←? new_node DevZero;
  d ←? new_node (DevfsDir {[b "null" := null; b "zero" := zero]});
  modify (λ s, set_devfs s (Some d));;? ok d.

Definition procfs_new : fsM D nat :=
  v ←? new_node ProcVersionFile; new_node (StaticDir {[b "version" := v]}).

Definition fs_init : fsM D unit :=
  r ←? new_node tmpfs_dir; mount (b "/") r;;?
  t ←? new_node tmpfs_dir; mount (b "/tmp") t;;?
  p ←? procfs_new; mount (b "/proc") p;;?
  d ←? devfs_new; mount (b "/dev") d.

Definition fs_empty (d : D) : FS D := MkFS ∅ 0 1 ∅ None ∅ 0 d.

(** ** Path resolution *)
Definition mount_matches (mount_path path : str) : bool :=
  bool_decide (path = mount_path)
  || bool_decide (mount_path = [slash]) && starts_with_slash path
  || starts_with mount_path path && bool_decide (path !! length mount_path = Some slash).

Definition best_mount (path : str) (best : option (str * nat)) (m : str * nat) : option (str * nat) :=
  if mount_matches m.1 path &&
     match best with None => true | Some (mp, _) => bool_decide (length mp < length m.1)%nat end
  then Some m else best.

Definition find_mount (s : FS D) (path : str) : result (str * nat) :=
  match foldl (best_mount path) None
          (omap (λ k, (λ n, (k, n)) <$> MOUNT_TABLE s !! k) (btree_keys (MOUNT_TABLE s))) with
  | Some m => Okay m
  | None => Err ENOENT
  end.

Definition MAX_SYMLINK_DEPTH : Z := 8.

(** [base_abs] with a component appended *)
Definition push_str (base_abs component : str) : str :=
  if ends_with_slash base_abs then base_abs ++ component else base_abs ++ [slash] ++ component.

(** The target of a symbolic link found at [base_abs]. *)
Definition abs_target (base_abs target : str) : str :=
  if starts_with_slash target then canonicalize_path target
  else canonicalize_path (pop_segment base_abs ++ [slash] ++ target).

(** The loop of [walk_with_depth]; [resolve] is [resolve_path_with_depth]. *)
Fixpoint walk (resolve : str → Z → outcome (result nat)) (s : FS D) (node : nat) (base_abs : str)
    (components : list str) (depth : Z) : outcome (result nat) :=
  match components with
  | [] => Ret (Okay node)
  | component :: rest =>
      if bool_decide (component = []) || bool_decide (component = dot) then
        walk resolve s node base_abs rest depth
      else if bool_decide (component = dotdot) then
        let base_abs := pop_segment base_abs in
        r ← resolve base_abs depth;
        match r with
        | inl e => Ret (Err e)
        | inr node => walk resolve s node base_abs rest depth
        end
      else
        r ← lookup s node component;
        match r with
        | inl e => Ret (Err e)
        | inr node =>
            let base_abs := push_str base_abs component in
            v ← expect (nodes s !! node);
            if bool_decide (node_type (kind v) = Symlink) then
              if MAX_SYMLINK_DEPTH <=? depth then Ret (Err ELOOP)
              else
                match readlink (kind v) with
                | inl e => Ret (Err e)
                | inr target =>
                    let t := abs_target base_abs target in
                    r ← resolve t (depth + 1);
                    match r with
                    | inl e => Ret (Err e)
                    | inr node => walk resolve s node t rest (depth + 1)
                    end
                end
            else walk resolve s node base_abs rest depth
        end
  end.

Definition mount_root (s : FS D) : outcome (result nat) :=
  Ret (match find_mount s [slash] with inl e => Err e | inr (_, n) => Okay n end).

(** [fuel] bounds the nesting of the mutual recursion with [walk]. *)
Fixpoint resolve_path_with_depth (fuel : nat) (s : FS D) (path : str) (depth : Z) : outcome (result nat) :=
  match fuel with
  | O => Panic
  | S fuel =>
      if bool_decide (path = dot) || bool_decide (path = [slash]) then mount_root s
      else
        let absolute :=
          if starts_with_slash path then canonicalize_path path else canonicalize_path ([slash] ++ path) in
        if bool_decide (absolute = [slash]) then mount_root s
        else match find_mount s absolute with
             | inl e => Ret (Err e)
             | inr (mount_path, node) =>
                 walk (resolve_path_with_depth fuel s) s node mount_path
                   (split_slash (drop (length mount_path) absolute)) depth
             end
  end.

Definition resolve_fuel : nat := 9.

Definition resolve_path (s : FS D) (path : str) : outcome (result nat) :=
  resolve_path_with_depth resolve_fuel s path 0.

Definition resolve_relative (s : FS D) (base : nat) (base_abs path : str) : outcome (result nat) :=
  walk (resolve_path_with_depth resolve_fuel s) s base base_abs (split_slash path) 0.

Definition resolve_parent (s : FS D) (path : str) : outcome (result (nat * str)) :=
  let path := trim_end_slash path in
  if bool_decide (path = []) then Ret (Err EINVAL)
  else match rfind_slash path with
       | None => Ret (Err EINVAL)
       | Some last_slash =>
           let parent_path := if bool_decide (last_slash = O) then [slash] else take last_slash path in
           let name := drop (S last_slash) path in
           if bool_decide (name = []) then Ret (Err EINVAL)
           else
             r ← resolve_path s parent_path;
             Ret (match r with inl e => Err e | inr parent => Okay (parent, name) end)
       end.

(** The recursive call of the source only adds the leading separator. *)
Definition resolve_path_nofollow (s : FS D) (path : str) : outcome (result nat) :=
  if bool_decide (path = dot) || bool_decide (path = [slash]) || bool_decide (path = dotdot)
  then resolve_path s path
  else
    let path := if starts_with_slash path then path else [slash] ++ path in
    if bool_decide (path = [slash]) then resolve_path s path
    else
      r ← resolve_parent s path;
      match r with
      | inl e => Ret (Err e)
      | inr (parent, name) =>
          if bool_decide (name = dot) || bool_decide (name = dotdot) then resolve_path s path
          else lookup s parent name
      end.
End vfs.
