(* ===== verification/VfsTheorems.v ===== *)
(** Theorems on path resolution: it always ends, it reaches the node that the
    names of the path lead to below the longest mount point, and the operations
    on nodes keep the tree well formed. *)
From stdpp Require Import sorting.
From S2P Require Import Prelude Headers ResultM Paths Vfs.

Section resolution.
Context `{FH : FsHeaders} {D : Type} `{DV : Devices D}.
Implicit Types s : FS D.

(** A well-formed tree: no dangling handles, handles are given out in order, and
    mount points are canonical paths. *)
Record fs_wf s : Prop := {
  wf_fresh : ∀ n, is_Some (nodes s !! n) → (n < next_node s)%nat;
  wf_closed : ∀ n v c name m, nodes s !! n = Some v → entries_of (kind v) = Some c →
    c !! name = Some m → is_Some (nodes s !! m);
  wf_mounts : ∀ p n, MOUNT_TABLE s !! p = Some n → is_Some (nodes s !! n);
  wf_paths : ∀ p, is_Some (MOUNT_TABLE s !! p) → ∃ ns, Forall is_name ns ∧ p = abs_path ns;
  wf_files : ∀ f fl, files s !! f = Some fl → is_Some (nodes s !! f_node fl);
  wf_next_file : ∀ f, is_Some (files s !! f) → (f < next_file s)%nat;
  wf_devfs : ∀ n, DEVFS s = Some n → ∃ i c, nodes s !! n = Some (MkNode i (DevfsDir c));
}.

(** Something is mounted at [/]. *)
Definition rooted s : Prop := is_Some (MOUNT_TABLE s !! [slash]).

Definition fs_ok s : Prop := fs_wf s ∧ rooted s.

(** ** The longest mount point *)
Lemma mount_matches_abs ms ns : Forall is_name ms → Forall is_name ns →
  mount_matches (abs_path ms) (abs_path ns) = true ↔ ms `prefix_of` ns.
Proof.
  intros Hm Hn. unfold mount_matches. rewrite !orb_true_iff, !andb_true_iff, !bool_decide_eq_true, starts_with_app.
  split.
  - intros [[H|[H _]]|[[r Hr] Hs]].
    + by apply abs_path_inj in H as ->.
    + assert (ms = []) as -> by (by apply abs_path_inj). apply prefix_nil.
    + rewrite Hr, lookup_app_r, Nat.sub_diag in Hs by done. destruct r as [|x r]; [done|]. injection Hs as ->.
      destruct (decide (ms = [])) as [->|Hne]; [apply prefix_nil|].
      apply below_abs in Hr as ->; [|done..]. by apply prefix_app_r.
  - intros [k ->]. destruct (decide (ms = [])) as [->|Hne].
    { left; right. split; [done|]. apply starts_with_slash_abs. }
    destruct k as [|n k]; [left; left; by rewrite app_nil_r|right]. rewrite abs_path_app by done.
    split; [by eexists|]. by rewrite lookup_app_r, Nat.sub_diag.
Qed.

(** One turn of the search. *)
Lemma best_mount_cases path best m :
  best_mount path best m = best ∨ best_mount path best m = Some m ∧ mount_matches m.1 path = true.
Proof.
  unfold best_mount. destruct (mount_matches m.1 path) eqn:E; simpl; [|auto].
  destruct best as [[mp mn]|]; [|auto]. case_bool_decide; auto.
Qed.

Lemma best_mount_grows path best m x : best = Some x ∨ x = m ∧ mount_matches m.1 path = true →
  ∃ y, best_mount path best m = Some y ∧ (length x.1 ≤ length y.1)%nat.
Proof.
  unfold best_mount. intros [->|[-> ->]]; simpl.
  - destruct x as [mp mn]. destruct (mount_matches m.1 path); simpl; [|eauto]. case_bool_decide; simpl; eauto.
    exists m. split; [done|]. simpl. lia.
  - destruct best as [[mp mn]|]; [|eauto]. case_bool_decide; [eauto|]. exists (mp, mn). split; [done|]. simpl. lia.
Qed.

Lemma best_mount_fold path l best :
  let r := foldl (best_mount path) best l in
  (r = best ∨ ∃ m, r = Some m ∧ m ∈ l ∧ mount_matches m.1 path = true) ∧
  (∀ x, best = Some x ∨ x ∈ l ∧ mount_matches x.1 path = true → ∃ y, r = Some y ∧ (length x.1 ≤ length y.1)%nat).
Proof.
  revert best. induction l as [|m l IH]; intros best; simpl.
  { split; [by left|]. intros x [->|[?%elem_of_nil _]]; [eauto|done]. }
  destruct (IH (best_mount path best m)) as [H1 H2]. split.
  - destruct H1 as [->|(x & -> & ? & ?)]; [|right; set_solver].
    destruct (best_mount_cases path best m) as [->|[-> ?]]; [by left|]. right. set_solver.
  - intros x Hx. destruct (decide (best = Some x ∨ x = m ∧ mount_matches m.1 path = true)) as [H|H].
    + apply (best_mount_grows path best m) in H as (y & Hy & Hl).
      destruct (H2 y) as (z & Hz & Hl'); [by left|]. exists z. split; [done|lia].
    + apply H2. right. destruct Hx as [?|[Hx ?]]; [naive_solver|]. split; [|done]. set_solver.
Qed.

Lemma btree_keys_elem {A} (m : gmap str A) k : k ∈ btree_keys m ↔ is_Some (m !! k).
Proof.
  unfold btree_keys. rewrite merge_sort_Permutation, list_elem_of_fmap. split.
  - intros ([k' x] & -> & H%elem_of_map_to_list). by exists x.
  - intros [x H]. exists (k, x). split; [done|]. by apply elem_of_map_to_list.
Qed.

(** [find_mount] finds the mount point with the longest path that is a prefix. *)
Lemma find_mount_longest s ns : fs_ok s → Forall is_name ns → ∃ ms k n,
  find_mount s (abs_path ns) = Okay (abs_path ms, n) ∧ ns = ms ++ k ∧ MOUNT_TABLE s !! abs_path ms = Some n ∧
  ∀ ms', Forall is_name ms' → is_Some (MOUNT_TABLE s !! abs_path ms') → ms' `prefix_of` ns → ms' `prefix_of` ms.
Proof.
  intros Hok Hns. unfold find_mount.
  set (l := omap _ _). assert (∀ p n, (p, n) ∈ l ↔ MOUNT_TABLE s !! p = Some n) as Hl.
  { intros p n. unfold l. rewrite list_elem_of_omap. split.
    - intros (k & _ & H). destruct (MOUNT_TABLE s !! k) eqn:E; simplify_eq/=. done.
    - intros H. exists p. rewrite btree_keys_elem, H. by eauto. }
  destruct (best_mount_fold (abs_path ns) l None) as [H1 H2].
  destruct Hok as [Hok [r0 Hr0]].
  destruct (H2 ([slash], r0)) as ([p n] & Hr & _).
  { right. split; [by apply Hl|]. change [slash] with (abs_path []). by apply mount_matches_abs; [|done|apply prefix_nil]. }
  rewrite Hr. destruct H1 as [H1|(m & Hm & Hin & Hmat)]; [by rewrite H1 in Hr|].
  rewrite Hm in Hr. injection Hr as ->. apply Hl in Hin.
  destruct (wf_paths s Hok p) as (ms & Hms & ->); [by eexists|].
  apply mount_matches_abs in Hmat as [k ->]; [|done..]. exists ms, k, n. do 3 (split; [done|]).
  intros ms' Hms' [n' Hn'] Hpre. destruct (H2 (abs_path ms', n')) as (y & Hy & Hlen).
  { right. split; [by apply Hl|]. by apply mount_matches_abs. }
  rewrite Hm in Hy. injection Hy as <-. simpl in Hlen.
  destruct (prefix_weak_total ms' ms (ms ++ k)) as [?|[j ->]]; [done|by apply prefix_app_r|done|].
  destruct (decide (j = [])) as [->|Hj]; [by rewrite app_nil_r|].
  apply Forall_app in Hms' as [_ Hj']. pose proof (abs_path_length ms j Hj Hj'). lia.
Qed.

(** ** Resolution ends *)
(** A node that exists, or one of the errors that a walk can end with. *)
Definition resolved s (r : result nat) : Prop :=
  match r with
  | inr n => is_Some (nodes s !! n)
  | inl e => e = ENOENT ∨ e = ENOTDIR ∨ e = ELOOP
  end.

Lemma lookup_resolved s n name : fs_ok s → is_Some (nodes s !! n) →
  ∃ r, lookup s n name = Ret r ∧ resolved s r.
Proof.
  intros Hok [v Hv]. unfold lookup. rewrite Hv. bstep. destruct (entries_of (kind v)) as [c|] eqn:Ec.
  - destruct (c !! name) as [m|] eqn:Em; eexists; (split; [done|]); simpl; [by eapply wf_closed; [apply Hok|..]|auto].
  - eexists. split; [done|]. simpl. auto.
Qed.

Lemma readlink_symlink k : node_type k = Symlink → ∃ t, readlink k = Okay t.
Proof. destruct k; simpl; try done. eauto. Qed.

(** The walk asks for other paths only at greater depth, unless it meets [..]. *)
Lemma walk_resolved f s comps node base depth : fs_ok s → is_Some (nodes s !! node) →
  (∀ p d, depth < d ≤ 8 ∨ depth ≤ d ≤ 8 ∧ dotdot ∈ comps → ∃ r, f p d = Ret r ∧ resolved s r) → depth ≤ 8 →
  ∃ r, walk f s node base comps depth = Ret r ∧ resolved s r.
Proof.
  intros Hok. revert node base depth. induction comps as [|c comps IH]; intros node base depth Hn Hf Hd; simpl; [eauto|].
  assert (∀ p d, depth < d ≤ 8 ∨ depth ≤ d ≤ 8 ∧ dotdot ∈ comps → ∃ r, f p d = Ret r ∧ resolved s r) as Hf'
    by (intros p d Hpd; apply Hf; set_solver).
  destruct (bool_decide _ || _); [by apply IH|]. case_bool_decide as Hdd.
  { destruct (Hf (pop_segment base) depth) as (r & -> & Hr); [right; set_solver|]. bstep.
    destruct r as [e|n]; [eauto|]. by apply IH. }
  destruct (lookup_resolved s node c) as (r & -> & Hr); [done..|]. bstep. destruct r as [e|n]; [eauto|].
  destruct Hr as [v Hv]. rewrite Hv. bstep. case_bool_decide as Hsym; [|by eapply IH; eauto].
  unfold MAX_SYMLINK_DEPTH. destruct (Z.leb_spec 8 depth); [eexists; split; [done|simpl; auto]|].
  destruct (readlink_symlink _ Hsym) as [t ->].
  destruct (Hf (abs_target (push_str base c) t) (depth + 1)) as (r & -> & Hr); [left; lia|]. bstep.
  destruct r as [e|m]; [eauto|]. apply IH; [done| |lia]. intros p d Hpd. apply Hf'. lia.
Qed.

Lemma mount_root_resolved s : fs_ok s → ∃ r, mount_root s = Ret r ∧ resolved s r.
Proof.
  intros Hok. unfold mount_root.
  destruct (find_mount_longest s []) as (ms & k & n & H & _ & Hn & _); [done|constructor|].
  change [slash] with (abs_path []). rewrite H. eexists. split; [done|]. by eapply wf_mounts; [apply Hok|].
Qed.

(** The components that a resolved path is walked through are names. *)
Lemma resolve_unfold fuel s path depth : fs_ok s → ∃ ms k root,
  lexical path = ms ++ k ∧ MOUNT_TABLE s !! abs_path ms = Some root ∧
  (∀ ms', Forall is_name ms' → is_Some (MOUNT_TABLE s !! abs_path ms') →
    ms' `prefix_of` lexical path → ms' `prefix_of` ms) ∧
  resolve_path_with_depth (S fuel) s path depth =
    walk (resolve_path_with_depth fuel s) s root (abs_path ms) k depth.
Proof.
  intros Hok. pose proof (lexical_names path) as Hns.
  destruct (find_mount_longest s (lexical path)) as (ms & k & n & Hf & Hk & Hn & Hl); [done..|].
  exists ms, k, n. do 3 (split; [done|]). cbn [resolve_path_with_depth].
  assert ((if starts_with_slash path then canonicalize_path path else canonicalize_path ([slash] ++ path))
    = abs_path (lexical path)) as Habs by (destruct (starts_with_slash path); by rewrite canonicalize_abs).
  assert (lexical path = [] → mount_root s = walk (resolve_path_with_depth fuel s) s n (abs_path ms) k depth) as Hroot.
  { intros H0. rewrite H0 in Hk, Hf. symmetry in Hk. apply app_eq_nil in Hk as [-> ->].
    unfold mount_root. change [slash] with (abs_path []). by rewrite Hf. }
  destruct (bool_decide (path = dot) || _) eqn:E.
  { apply Hroot. apply orb_true_iff in E as [->%bool_decide_eq_true| ->%bool_decide_eq_true]; done. }
  rewrite Habs. clear E. case_bool_decide as H1.
  { apply Hroot. change [slash] with (abs_path []) in H1. by apply abs_path_inj in H1; [|done|constructor]. }
  rewrite Hf, Hk. rewrite Hk in Hns. by destruct (remainder_split ms k Hns) as [->| ->].
Qed.

Lemma resolve_depth_resolved fuel s path depth : fs_ok s → depth ≤ 8 → 8 - depth < Z.of_nat fuel →
  ∃ r, resolve_path_with_depth fuel s path depth = Ret r ∧ resolved s r.
Proof.
  intros Hok. revert path depth. induction fuel as [|fuel IH]; intros path depth Hd Hf; [lia|].
  destruct (resolve_unfold fuel s path depth) as (ms & k & root & Hk & Hr & _ & ->); [done|].
  apply walk_resolved; [done|by eapply wf_mounts; [apply Hok|]| |done].
  intros p d [Hlt|[_ Hin]]; [apply IH; lia|]. pose proof (lexical_names path) as Hns. rewrite Hk in Hns.
  apply Forall_app in Hns as [_ Hns]. rewrite Forall_forall in Hns. by destruct (Hns _ Hin) as (_ & _ & ? & _).
Qed.

(** C24: path resolution ends. For every well-formed tree, however its symbolic
    links point at each other, [resolve_path] and [resolve_relative] return within
    nine nested resolutions: a node of the tree, or one of ENOENT, ENOTDIR, ELOOP. *)
Theorem resolution_terminates s path base base_abs : fs_ok s → is_Some (nodes s !! base) →
  (∃ r, resolve_path s path = Ret r ∧ resolved s r) ∧
  (∃ r, resolve_relative s base base_abs path = Ret r ∧ resolved s r).
Proof.
  intros Hok Hb. split; [by apply resolve_depth_resolved|]. apply walk_resolved; [done..| |done].
  intros p d Hd. apply resolve_depth_resolved; [done|lia|]. unfold resolve_fuel. lia.
Qed.

(** ** Resolution is right *)
(** The node that names lead to from a node, one directory entry after the other;
    [None] if a symbolic link is on the way. *)
Fixpoint descend s (n : nat) (names : list str) : option (result nat) :=
  match names with
  | [] => Some (Okay n)
  | name :: names =>
      match lookup s n name with
      | Ret (inl e) => Some (Err e)
      | Ret (inr m) =>
          match nodes s !! m with
          | Some v => if bool_decide (node_type (kind v) = Symlink) then None else descend s m names
          | None => None
          end
      | Panic => None
      end
  end.

Lemma walk_descend f s names n base depth r : Forall is_name names → descend s n names = Some r →
  walk f s n base names depth = Ret r.
Proof.
  revert n base. induction names as [|name names IH]; intros n base Hn H; simpl in *; [by simplify_eq|].
  apply Forall_cons in Hn as [(H1 & H2 & H3 & _) Hn]. rewrite !bool_decide_false by done. simpl.
  destruct (lookup s n name) as [[e|m]|]; [by simplify_eq| |done]. bstep.
  destruct (nodes s !! m) as [v|]; [|done]. bstep. case_bool_decide; [done|]. by apply IH.
Qed.

(** C23: resolution finds what the path names. Let the lexical form of the path
    ([.], [..] and empty components resolved) be split at the longest mount point
    that is a prefix of it. If no symbolic link is on the way, [resolve_path] gives
    exactly the node, or the error, that following the remaining names from the root
    of that mount gives. In particular the result depends on the lexical form only. *)
Theorem resolve_path_correct s path : fs_ok s → ∃ ms k root,
  lexical path = ms ++ k ∧ MOUNT_TABLE s !! abs_path ms = Some root ∧
  (∀ ms', Forall is_name ms' → is_Some (MOUNT_TABLE s !! abs_path ms') →
    ms' `prefix_of` lexical path → ms' `prefix_of` ms) ∧
  ∀ r, descend s root k = Some r → resolve_path s path = Ret r.
Proof.
  intros Hok. destruct (resolve_unfold 8 s path 0) as (ms & k & root & Hk & Hr & Hl & H); [done|].
  exists ms, k, root. do 3 (split; [done|]). intros r Hd. unfold resolve_path, resolve_fuel. rewrite H.
  apply walk_descend; [|done]. pose proof (lexical_names path) as Hns. rewrite Hk in Hns. by apply Forall_app in Hns as [_ ?].
Qed.
End resolution.

(** ** The operations keep the tree well formed *)
Section preservation.
Context `{FH : FsHeaders} {D : Type} `{DV : Devices D}.
Implicit Types s : FS D.

Lemma get_node_Ret n s r s' : get_node n s = Ret (r, s') → ∃ v, nodes s !! n = Some v ∧ r = Okay v ∧ s' = s.
Proof. unfold get_node. intros (v & Hv%expect_Ret & [= <- <-])%bind_Ret. by exists v. Qed.

Lemma set_kind_Ret n k s r s' : set_kind n k s = Ret (r, s') → ∃ v, nodes s !! n = Some v ∧ r = Okay tt ∧
  s' = set_nodes s (<[n := MkNode (ino v) k]> (nodes s)).
Proof. unfold set_kind. intros (v & Hv%expect_Ret & [= <- <-])%bind_Ret. by exists v. Qed.

Lemma device_Ret {A} (f : D → D * result A) s r s' : device f s = Ret (r, s') → ∃ d, s' = set_devices s d.
Proof. unfold device. destruct (f (devices s)). intros [= <- <-]. eauto. Qed.

(** Well formed, with the nodes [X] (the ones in use) in place. *)
Definition live (X : gset nat) s : Prop := fs_wf s ∧ ∀ n, n ∈ X → is_Some (nodes s !! n).

(** A change of a node keeps what the others refer to. *)
Lemma live_set_kind X s n v k : live X s → nodes s !! n = Some v →
  (∀ c name m, entries_of k = Some c → c !! name = Some m → is_Some (nodes s !! m)) →
  (∀ c, kind v = DevfsDir c → ∃ c', k = DevfsDir c') →
  live X (set_nodes s (<[n := MkNode (ino v) k]> (nodes s))).
Proof.
  intros [[H1 H2 H3 H4 H5 H6 H7] HX] Hn Hk Hd.
  assert (∀ m, is_Some (nodes s !! m) → is_Some (<[n := MkNode (ino v) k]> (nodes s) !! m)) as Hup.
  { intros m Hm. destruct (decide (n = m)) as [<-|]; [by rewrite lookup_insert_eq|by rewrite lookup_insert_ne]. }
  split; [|by auto]. split; simpl; eauto.
  - intros m Hm. destruct (decide (n = m)) as [<-|]; [by apply H1; eexists|]. rewrite lookup_insert_ne in Hm by done. auto.
  - intros m w c name m' Hm. destruct (decide (n = m)) as [<-|Hne].
    + rewrite lookup_insert_eq in Hm. simplify_eq/=. eauto.
    + rewrite lookup_insert_ne in Hm by done. eauto.
  - intros m Hm. destruct (H7 m Hm) as (i & c & Hc). destruct (decide (n = m)) as [<-|Hne].
    + destruct (Hd c) as [c' ->]; [by simplify_eq|]. rewrite lookup_insert_eq. eauto.
    + rewrite lookup_insert_ne by done. eauto.
Qed.

Lemma live_new X s k r s' : live X s →
  (∀ c name m, entries_of k = Some c → c !! name = Some m → is_Some (nodes s !! m)) →
  new_node k s = Ret (r, s') → r = Okay (next_node s) ∧ live ({[next_node s]} ∪ X) s' ∧
  (∀ n, is_Some (nodes s !! n) → nodes s' !! n = nodes s !! n) ∧ MOUNT_TABLE s' = MOUNT_TABLE s ∧ DEVFS s' = DEVFS s.
Proof.
  intros [[H1 H2 H3 H4 H5 H6 H7] HX] Hk [= <- <-]. split; [done|].
  assert (∀ n, is_Some (nodes s !! n) → <[next_node s := MkNode (next_ino s) k]> (nodes s) !! n = nodes s !! n) as Hold.
  { intros n Hn. apply lookup_insert_ne. intros <-. apply H1 in Hn. lia. }
  assert (∀ n, is_Some (nodes s !! n) → is_Some (<[next_node s := MkNode (next_ino s) k]> (nodes s) !! n)) as Hup.
  { intros n Hn. by rewrite Hold. }
  split; [|by split]. split; [split; simpl; eauto|].
  - intros n. destruct (decide (next_node s = n)) as [<-|]; [lia|]. rewrite lookup_insert_ne by done. intros ?%H1. lia.
  - intros n v c name m. destruct (decide (next_node s = n)) as [<-|].
    + rewrite lookup_insert_eq. intros [= <-]. simpl. eauto.
    + rewrite lookup_insert_ne by done. eauto.
  - intros n Hn. destruct (H7 n Hn) as (i & c & Hc). exists i, c. rewrite Hold; eauto.
  - simpl. intros n [->%elem_of_singleton|Hn]%elem_of_union; [by rewrite lookup_insert_eq|auto].
Qed.

Lemma live_mono X Y s : X ⊆ Y → live Y s → live X s.
Proof. intros Hs [H HX]. split; [done|]. set_solver. Qed.
Lemma live_add X n s : live X s → is_Some (nodes s !! n) → live ({[n]} ∪ X) s.
Proof. intros [H HX] Hn. split; [done|]. intros m [->%elem_of_singleton|?]%elem_of_union; auto. Qed.
Lemma live_devices X s d : live X s → live X (set_devices s d).
Proof. intros [[] HX]. by split. Qed.
End preservation.

Ltac inv_fs_step :=
  match goal with
  | H : get_node _ _ = Ret _ |- _ =>
      let v := fresh "v" in let Hv := fresh "Hv" in apply get_node_Ret in H as (v & Hv & ? & ?)
  | H : set_kind _ _ _ = Ret _ |- _ =>
      let v := fresh "v" in let Hv := fresh "Hv" in apply set_kind_Ret in H as (v & Hv & ? & ?)
  | H : device _ _ = Ret _ |- _ =>
      let d := fresh "d" in apply device_Ret in H as (d & ?)
  | _ => inv_st_step
  end; simplify_eq/=.
Ltac inv_fs := repeat inv_fs_step.

Section operations.
Context `{FH : FsHeaders} {D : Type} `{DV : Devices D}.
Implicit Types s : FS D.

(** Solves the side conditions for a node without entries. *)
Local Ltac no_entries := intros; simpl in *; congruence.

Lemma read_events_keeps X n d : keeps (live X) (read_events (D := D) n d).
Proof.
  induction n as [|n IH]; simpl; [apply keeps_ok|]. apply keeps_fbind.
  - intros s r s' Hl H. inv_fs. by apply live_devices.
  - intros [e|]; [|apply keeps_ok]. apply keeps_fbind; [done|]. intros ?. apply keeps_ok.
Qed.

Lemma node_read_keeps X n offset len : keeps (live X) (node_read (D := D) n offset len).
Proof.
  unfold node_read. apply keeps_fbind; [intros s r s' Hl H; by inv_fs|]. intros v.
  assert (∀ A (f : D → D * result A), keeps (live X) (device f)) as Hd.
  { intros A f s r s' Hl H. inv_fs. by apply live_devices. }
  destruct (kind v); auto with keeps.
  - apply keeps_fbind; [apply read_events_keeps|]. intros a. destruct (bool_decide _); auto with keeps.
  - destruct (_ <=? _); auto with keeps.
Qed.

Lemma node_write_keeps X n offset data : keeps (live X) (node_write (D := D) n offset data).
Proof.
  intros s r s' Hl H. unfold node_write in H. inv_fs. destruct (kind v) eqn:Ek; inv_fs; auto using live_devices.
  eapply live_set_kind; [done..| |]; no_entries.
Qed.

Lemma node_truncate_keeps X n len : keeps (live X) (node_truncate (D := D) n len).
Proof.
  intros s r s' Hl H. unfold node_truncate in H. inv_fs. destruct (kind v) eqn:Ek; inv_fs; auto.
  eapply live_set_kind; [done..| |]; no_entries.
Qed.

(** A tmpfs directory whose entries become [c']. *)
Lemma live_tmpfs_dir X s n v c m c' m' : live X s → nodes s !! n = Some v → kind v = TmpfsDir c m →
  (∀ name f, c' !! name = Some f → c !! name = Some f ∨ is_Some (nodes s !! f)) →
  live X (set_nodes s (<[n := MkNode (ino v) (TmpfsDir c' m')]> (nodes s))).
Proof.
  intros Hl Hn Hk Hc. eapply live_set_kind; [done..| |intros; simpl in *; congruence]. intros c1 name f [= <-] Hf.
  destruct (Hc name f Hf) as [?|?]; [|done]. eapply (wf_closed s (proj1 Hl)); [done|by rewrite Hk|done].
Qed.

Lemma set_mode_keeps X n md : keeps (live X) (set_mode (D := D) n md).
Proof.
  intros s r s' Hl H. unfold set_mode in H. inv_fs. destruct (kind v) eqn:Ek; inv_fs; auto.
  - eapply live_set_kind; [done..| |]; no_entries.
  - eapply live_tmpfs_dir; eauto.
Qed.

Lemma set_owner_keeps X n u g : keeps (live X) (set_owner (D := D) n u g).
Proof.
  intros s r s' Hl H. unfold set_owner in H. inv_fs. destruct (kind v) eqn:Ek; inv_fs; auto.
  - eapply live_set_kind; [done..| |]; no_entries.
  - eapply live_tmpfs_dir; eauto.
Qed.

Lemma inc_nlink_keeps X n : keeps (live X) (inc_nlink (D := D) n).
Proof.
  intros s r s' Hl H. unfold inc_nlink in H. inv_fs. destruct (kind v) eqn:Ek; inv_fs; auto.
  eapply live_set_kind; [done..| |]; no_entries.
Qed.

Lemma unlink_keeps X n name : keeps (live X) (unlink (D := D) n name).
Proof.
  intros s r s' Hl H. unfold unlink in H. inv_fs. destruct (kind v) eqn:Ek; inv_fs; auto.
  destruct (children !! name) as [f|] eqn:Ef; inv_fs; auto.
  eapply live_tmpfs_dir; eauto. intros n' f' [_ ?]%lookup_delete_Some. auto.
Qed.

Lemma link_keeps X n name f : f ∈ X → keeps (live X) (link (D := D) n name f).
Proof.
  intros Hf s r s' Hl H. unfold link in H. inv_fs. destruct (kind v) eqn:Ek; inv_fs; auto.
  case_bool_decide; inv_fs; auto. eapply live_tmpfs_dir; eauto.
  intros n' f' [[_ <-]|[_ ?]]%lookup_insert_Some; [right; by apply Hl|auto].
Qed.

(** A removed child is still there, to be linked elsewhere. *)
Lemma remove_child_keeps X n name s r s' : live X s → remove_child n name s = Ret (r, s') →
  live X s' ∧ match r with inr f => is_Some (nodes s' !! f) | inl _ => True end.
Proof.
  intros Hl H. unfold remove_child in H. inv_fs. destruct (kind v) eqn:Ek; inv_fs; auto.
  destruct (children !! name) as [f|] eqn:Ef; inv_fs; auto.
  assert (is_Some (nodes s !! f)) as Hf by (eapply (wf_closed s (proj1 Hl)); [done|by rewrite Ek|done]).
  assert (live ({[f]} ∪ X) (set_nodes s (<[n := MkNode (ino v) (TmpfsDir (delete name children) m)]> (nodes s)))) as Hl'.
  { eapply live_tmpfs_dir; [by apply live_add|done..|]. intros n' f' [_ ?]%lookup_delete_Some. auto. }
  split; [eapply live_mono; [|done]; set_solver|]. apply Hl'. set_solver.
Qed.

(** A new node entered into a tmpfs directory. *)
Lemma live_enter X s n v c m k name r s1 m' : live X s → nodes s !! n = Some v → kind v = TmpfsDir c m →
  entries_of k = None ∨ entries_of k = Some ∅ → new_node k s = Ret (r, s1) →
  r = Okay (next_node s) ∧ nodes s1 !! n = Some v ∧
  live ({[next_node s]} ∪ X)
    (set_nodes s1 (<[n := MkNode (ino v) (TmpfsDir (<[name := next_node s]> c) m')]> (nodes s1))).
Proof.
  intros Hl Hn Hk He H. destruct (live_new X s k r s1) as (-> & Hl1 & Hold & _); [done| |done|].
  { intros c0 nm f Hc Hf. destruct He as [He|He]; rewrite He in Hc; [done|]. injection Hc as <-. by rewrite lookup_empty in Hf. }
  assert (nodes s1 !! n = Some v) as Hn1 by (rewrite Hold by (by exists v); done). split; [done|]. split; [done|].
  eapply live_tmpfs_dir; [done..|]. intros n' f' [[_ <-]|[_ ?]]%lookup_insert_Some; [|auto].
  right. apply Hl1. set_solver.
Qed.

Lemma create_keeps X n name t s r s' : live X s → create n name t s = Ret (r, s') →
  live X s' ∧ match r with inr f => is_Some (nodes s' !! f) | inl _ => True end.
Proof.
  intros Hl H. unfold create in H. inv_fs. destruct (kind v) eqn:Ek; inv_fs; auto.
  case_bool_decide; inv_fs; auto. destruct t; inv_fs; auto.
  - destruct (live_enter X s n v children m tmpfs_file name r0 s0 m) as (-> & Hn & Hl'); [done|done|done|by left|done|].
    inv_fs. split; [eapply live_mono; [|done]; set_solver|]. apply Hl'. set_solver.
  - destruct (live_enter X s n v children m tmpfs_dir name r0 s0 (set_nlink m a)) as (-> & Hn & Hl');
      [done|done|done|by right|done|].
    inv_fs. split; [eapply live_mono; [|done]; set_solver|]. apply Hl'. set_solver.
Qed.

Lemma create_symlink_keeps X n name t s r s' : live X s → create_symlink n name t s = Ret (r, s') →
  live X s' ∧ match r with inr f => is_Some (nodes s' !! f) | inl _ => True end.
Proof.
  intros Hl H. unfold create_symlink in H. inv_fs. destruct (kind v) eqn:Ek; inv_fs; auto.
  case_bool_decide; inv_fs; auto.
  destruct (live_enter X s n v children m (TmpfsSymlink t) name r0 s0 m) as (-> & Hn & Hl'); [done|done|done|by left|done|].
  inv_fs. split; [eapply live_mono; [|done]; set_solver|]. apply Hl'. set_solver.
Qed.

(** ** The tree after [init] *)
Lemma fs_empty_live (d : D) : live ∅ (fs_empty d).
Proof.
  split; [|set_solver]. split; simpl.
  - intros n. rewrite lookup_empty. by intros [].
  - intros n v c name m. by rewrite lookup_empty.
  - intros p n. by rewrite lookup_empty.
  - intros p. rewrite lookup_empty. by intros [].
  - intros f fl. by rewrite lookup_empty.
  - intros f. rewrite lookup_empty. by intros [].
  - done.
Qed.

Lemma live_mount X s p ns n : live X s → n ∈ X → Forall is_name ns → p = abs_path ns →
  live X (set_mounts s (<[p := n]> (MOUNT_TABLE s))).
Proof.
  intros [[H1 H2 H3 H4 H5 H6 H7] HX] Hn Hns ->. split; [|done]. split; simpl; auto.
  - intros q m [[_ <-]|[_ ?]]%lookup_insert_Some; eauto.
  - intros q [m [[<- _]|[_ ?]]%lookup_insert_Some]; eauto.
Qed.

Lemma live_set_devfs X s n i c : live X s → nodes s !! n = Some (MkNode i (DevfsDir c)) → live X (set_devfs s (Some n)).
Proof. intros [[] HX] Hn. split; [|done]. split; simpl; auto. intros m [= <-]. eauto. Qed.

(** A new node of a kind whose entries are in use. *)
Lemma new_node_step X s k : live X s →
  (∀ c name m, entries_of k = Some c → c !! name = Some m → m ∈ X) →
  ∃ s1, new_node k s = Ret (Okay (next_node s), s1) ∧ live ({[next_node s]} ∪ X) s1 ∧
    MOUNT_TABLE s1 = MOUNT_TABLE s ∧ nodes s1 !! next_node s = Some (MkNode (next_ino s) k).
Proof.
  intros Hl Hk. eexists. split; [reflexivity|]. edestruct (live_new X s k) as (_ & Hl1 & _ & Hm & _);
    [exact Hl| |reflexivity|].
  { intros c name m Hc Hf. apply Hl. by eapply Hk. }
  split; [exact Hl1|]. split; [exact Hm|]. simpl. by rewrite lookup_insert_eq.
Qed.

Lemma mount_step X s name n : live X s → n ∈ X → is_name name →
  ∃ s1, mount (slash :: name) n s = Ret (Okay tt, s1) ∧ live X s1 ∧ (rooted s → rooted s1).
Proof.
  intros Hl Hn Hi. eexists. split; [reflexivity|]. split.
  - apply (live_mount _ _ _ [name]); [done|done|by apply Forall_singleton|]. simpl. by rewrite app_nil_r.
  - unfold rooted. intros [m Hm]. simpl. destruct (decide (slash :: name = [slash])) as [->|].
    + rewrite lookup_insert_eq. eauto.
    + rewrite lookup_insert_ne by done. eauto.
Qed.

Lemma mount_root_step X s n : live X s → n ∈ X →
  ∃ s1, mount [slash] n s = Ret (Okay tt, s1) ∧ live X s1 ∧ rooted s1.
Proof.
  intros Hl Hn. eexists. split; [reflexivity|]. split; [by apply (live_mount _ _ _ [])|].
  unfold rooted. simpl. rewrite lookup_insert_eq. eauto.
Qed.

Lemma rooted_eq s s1 : MOUNT_TABLE s1 = MOUNT_TABLE s → rooted s → rooted s1.
Proof. unfold rooted. by intros ->. Qed.

Lemma entries_none k : entries_of k = None → ∀ X c (name : str) (m : nat), entries_of k = Some c → c !! name = Some m → m ∈ (X : gset nat).
Proof. congruence. Qed.

Lemma procfs_step X s : live X s → ∃ n X1 s1, procfs_new s = Ret (Okay n, s1) ∧ live X1 s1 ∧ n ∈ X1 ∧ MOUNT_TABLE s1 = MOUNT_TABLE s.
Proof.
  intros Hl. unfold procfs_new.
  destruct (new_node_step X s ProcVersionFile Hl (entries_none ProcVersionFile eq_refl X)) as (s1 & E1 & Hl1 & Hm1 & _).
  rewrite (fbind_ok _ _ _ _ _ E1).
  destruct (new_node_step _ s1 (StaticDir {[b "version" := next_node s]}) Hl1) as (s2 & E2 & Hl2 & Hm2 & _).
  { intros c name m [= <-] [_ <-]%lookup_singleton_Some. set_solver. }
  eexists _, _, s2. split; [exact E2|]. split; [exact Hl2|]. split; [set_solver|congruence].
Qed.

Lemma devfs_step X s : live X s → ∃ n X1 s1, devfs_new s = Ret (Okay n, s1) ∧ live X1 s1 ∧ n ∈ X1 ∧ MOUNT_TABLE s1 = MOUNT_TABLE s.
Proof.
  intros Hl. unfold devfs_new.
  destruct (new_node_step X s DevNull Hl (entries_none DevNull eq_refl X)) as (s1 & E1 & Hl1 & Hm1 & _).
  rewrite (fbind_ok _ _ _ _ _ E1).
  destruct (new_node_step _ s1 DevZero Hl1 (entries_none DevZero eq_refl _)) as (s2 & E2 & Hl2 & Hm2 & _).
  rewrite (fbind_ok _ _ _ _ _ E2).
  destruct (new_node_step _ s2 (DevfsDir {[b "null" := next_node s; b "zero" := next_node s1]}) Hl2) as (s3 & E3 & Hl3 & Hm3 & Hn3).
  { intros c name m [= <-] [[_ <-]|[_ [_ <-]%lookup_singleton_Some]]%lookup_insert_Some; set_solver. }
  rewrite (fbind_ok _ _ _ _ _ E3). erewrite (fbind_ok (modify _)) by reflexivity.
  eexists _, _, _. split; [reflexivity|]. split; [by eapply live_set_devfs|]. split; [set_solver|simpl; congruence].
Qed.

(** The tree that [init] builds is well formed. *)
Lemma fs_init_ok (d : D) : ∃ s, fs_init (fs_empty d) = Ret (Okay tt, s) ∧ fs_ok s.
Proof.
  pose proof (fs_empty_live d) as Hl. unfold fs_init.
  destruct (new_node_step _ _ tmpfs_dir Hl) as (s1 & E1 & Hl1 & _).
  { intros c name m [= <-]. by rewrite lookup_empty. }
  rewrite (fbind_ok _ _ _ _ _ E1).
  destruct (mount_root_step _ _ (next_node (fs_empty d)) Hl1) as (s2 & E2 & Hl2 & R2); [set_solver|].
  erewrite fbind_ok by exact E2.
  destruct (new_node_step _ _ tmpfs_dir Hl2) as (s3 & E3 & Hl3 & M3 & _).
  { intros c name m [= <-]. by rewrite lookup_empty. }
  rewrite (fbind_ok _ _ _ _ _ E3).
  destruct (mount_step _ _ (b "tmp") (next_node s2) Hl3) as (s4 & E4 & Hl4 & R4); [set_solver|by apply (bool_decide_eq_true_1 _)|].
  erewrite fbind_ok by exact E4.
  destruct (procfs_step _ _ Hl4) as (p & X5 & s5 & E5 & Hl5 & Hp & M5). rewrite (fbind_ok _ _ _ _ _ E5).
  destruct (mount_step _ _ (b "proc") p Hl5 Hp) as (s6 & E6 & Hl6 & R6); [by apply (bool_decide_eq_true_1 _)|].
  erewrite fbind_ok by exact E6.
  destruct (devfs_step _ _ Hl6) as (q & X7 & s7 & E7 & Hl7 & Hq & M7). rewrite (fbind_ok _ _ _ _ _ E7).
  destruct (mount_step _ _ (b "dev") q Hl7 Hq) as (s8 & E8 & Hl8 & R8); [by apply (bool_decide_eq_true_1 _)|].
  exists s8. split; [exact E8|]. split; [apply Hl8|].
  apply R8, (rooted_eq s6); [done|]. apply R6, (rooted_eq s4); [done|]. apply R4. by apply (rooted_eq s2).
Qed.

Lemma symlink_wf s n name t r s' : fs_ok s → create_symlink n name t s = Ret (r, s') → fs_wf s'.
Proof.
  intros [H _] E. assert (live ∅ s) as Hl by (split; [done|set_solver]).
  by destruct (create_symlink_keeps ∅ _ _ _ _ _ _ Hl E) as [[? _] _].
Qed.
End operations.

(** ** The tree of a machine without devices *)
#[local] Instance wit_fs : FsHeaders := linux_fs.

#[export] Instance no_devices : Devices unit := {|
  char_read := λ d _ _, (d, Err EIO); char_write := λ d _ _, (d, Err EIO); is_tty := λ _, false;
  display_read_at := λ d _ _ _, (d, Err EIO); display_write_at := λ d _ _ _, (d, Err EIO);
  poll_event := λ d _, (d, None); rng_fill := λ d _ _, (d, Err EIO); num_blocks := λ _, 0; block_size := λ _, 512;
  block_read := λ d _ _ _, (d, Err EIO); block_write := λ d _ _ _, (d, Err EIO) |}.

(** The tree after [init]. *)
Definition run_fs {A} (d : FS unit) (m : outcome (A * FS unit)) : FS unit :=
  match m with Ret (_, s) => s | Panic => d end.
Definition fs1 : FS unit := run_fs (fs_empty tt) (fs_init (fs_empty tt)).

Lemma fs1_ok : fs_ok fs1.
Proof. unfold fs1. by destruct (fs_init_ok tt) as (s & -> & ?). Qed.

(** With a symbolic link [/tmp/l] that points at itself. *)
Definition fs_loop : FS unit := run_fs fs1 (create_symlink 1 (b "l") (b "/tmp/l") fs1).

Lemma fs_loop_ok : fs_ok fs_loop.
Proof.
  split; [|by vm_compute; eexists]. destruct (create_symlink 1 (b "l") (b "/tmp/l") fs1) as [[r s]|] eqn:E; [|by vm_compute in E].
  replace fs_loop with s by (unfold fs_loop; by rewrite E). exact (symlink_wf _ _ _ _ _ _ fs1_ok E).
Qed.

(** Resolving the link ends, with ELOOP. *)
Lemma resolution_terminates_witness : resolve_path fs_loop (b "/tmp/l") = Ret (Err ELOOP) ∧
  ∃ r, resolve_relative fs_loop 1 (b "/tmp") (b "/tmp/l") = Ret r ∧ resolved fs_loop r.
Proof.
  destruct (resolution_terminates fs_loop (b "/tmp/l") 1 (b "/tmp")) as [(r & Hr & _) H2];
    [apply fs_loop_ok|by vm_compute; eexists|].
  split; [|exact H2]. rewrite Hr. vm_compute in Hr. congruence.
Defined.

Lemma split_two (x y : str) ms k : [x; y] = ms ++ k → [x] `prefix_of` ms →
  ms = [x] ∧ k = [y] ∨ ms = [x; y] ∧ k = [].
Proof. intros H [[|z [|w l]] ->]; simplify_eq/=; auto. Qed.

(** [/proc/./x/../version] is looked up in the mount at [/proc]. *)
Lemma resolve_path_correct_witness : ∃ root, MOUNT_TABLE fs1 !! b "/proc" = Some root ∧
  descend fs1 root [b "version"] = Some (Okay 2%nat) ∧ resolve_path fs1 (b "/proc/./x/../version") = Ret (Okay 2%nat).
Proof.
  destruct (resolve_path_correct fs1 (b "/proc/./x/../version") fs1_ok) as (ms & k & root & Hl & Hr & Hmax & H).
  change (lexical _) with [b "proc"; b "version"] in Hl, Hmax.
  destruct (split_two _ _ _ _ Hl) as [[-> ->]|[-> ->]].
  { apply Hmax; [by apply (bool_decide_eq_true_1 _)|by vm_compute; eexists|by exists [b "version"]]. }
  - exists 3%nat. assert (root = 3%nat) as -> by (vm_compute in Hr; congruence).
    split; [exact Hr|]. split; [by vm_compute|]. apply H. by vm_compute.
  - exfalso. by vm_compute in Hr.
Defined.
