(* ===== verification/OpenFile.v ===== *)
(** Open files: crates/kernel/src/fs/open_file.rs, and what a sequence of writes
    and reads through one does to a tmpfs file. *)
From S2P Require Import Prelude Headers ResultM Paths Vfs VfsTheorems.

(** [x as isize] and [x as usize] *)
Definition as_signed (x : Z) : Z := signed 64 x.
(** [isize::checked_add] *)
Definition checked_add_signed (x y : Z) : option Z :=
  if bool_decide (- 2 ^ 63 ≤ x + y < 2 ^ 63) then Some (x + y) else None.

Section open_file.
Context `{FH : FsHeaders} {D : Type} `{DV : Devices D}.
Open Scope stM_scope.

Definition open (node : nat) (flags : Z) (abs : str) : fsM D nat := λ s,
  Ret (Okay (next_file s),
       MkFS (nodes s) (next_node s) (next_ino s) (MOUNT_TABLE s) (DEVFS s)
         (<[next_file s := MkFile node 0 flags abs]> (files s)) (S (next_file s)) (devices s)).

Definition get_file (f : nat) : fsM D VfsOpenFileInner := λ s, fl ← expect (files s !! f); Ret (Okay fl, s).

Definition set_offset (f : nat) (offset : Z) : fsM D unit :=
  fl ←? get_file f;
  modify (λ s, set_files s (<[f := MkFile (f_node fl) offset (f_flags fl) (f_abs_path fl)]> (files s))).

Definition advance_offset (f : nat) (n : Z) : fsM D unit :=
  fl ←? get_file f;
  offset ←? lift (add 64 (f_offset fl) n);
  set_offset f offset.

Definition file_read (f : nat) (len : nat) : fsM D (list Z) :=
  fl ←? get_file f;
  d ←? node_read (f_node fl) (f_offset fl) len;
  advance_offset f (Z.of_nat (length d));;?
  ok d.

Definition file_pread (f : nat) (offset : Z) (len : nat) : fsM D (list Z) :=
  fl ←? get_file f; node_read (f_node fl) offset len.

Definition file_pwrite (f : nat) (offset : Z) (data : list Z) : fsM D Z :=
  fl ←? get_file f; node_write (f_node fl) offset data.

(** The flags of an open file, an [i32], as [u32]. *)
Definition has_append (fl : VfsOpenFileInner) : bool := negb (Z.land (f_flags fl mod 2 ^ 32) O_APPEND =? 0).

Definition effective_write_offset (f : nat) : fsM D Z :=
  fl ←? get_file f;
  if has_append fl then
    v ←? get_node (f_node fl);
    size ←? lift (node_size (kind v));
    set_offset f size;;? ok size
  else ok (f_offset fl).

Definition file_write (f : nat) (data : list Z) : fsM D Z :=
  offset ←? effective_write_offset f;
  fl ←? get_file f;
  n ←? node_write (f_node fl) offset data;
  advance_offset f n;;?
  ok n.

(** The offset that a seek relative to [base] leads to. *)
Definition seek_from (base offset : Z) : result Z :=
  match checked_add_signed (as_signed base) offset with
  | None => Err EINVAL
  | Some new => if new <? 0 then Err EINVAL else Okay new
  end.

Definition seek (f : nat) (offset whence : Z) : fsM D Z :=
  fl ←? get_file f;
  new_offset ←?
    (if whence =? SEEK_SET then if offset <? 0 then fail EINVAL else ok offset
     else if whence =? SEEK_CUR then from (seek_from (f_offset fl) offset)
     else if whence =? SEEK_END then
       v ←? get_node (f_node fl); size ←? lift (node_size (kind v)); from (seek_from size offset)
     else fail EINVAL);
  set_offset f new_offset;;?
  ok new_offset.

Definition is_directory (f : nat) : fsM D bool :=
  fl ←? get_file f; v ←? get_node (f_node fl); ok (bool_decide (node_type (kind v) = Directory)).

(** ** A sequence of writes, and of reads *)
Fixpoint write_all (f : nat) (ds : list (list Z)) : fsM D unit :=
  match ds with
  | [] => ok tt
  | d :: ds => file_write f d;;? write_all f ds
  end.

Fixpoint read_all (f : nat) (lens : list nat) : fsM D (list (list Z)) :=
  match lens with
  | [] => ok []
  | n :: lens => d ←? file_read f n; rest ←? read_all f lens; ok (d :: rest)
  end.
End open_file.

(** ** Contents of a tmpfs file *)
(** What [TmpfsFile::write] makes of the contents. *)
Definition write_content (c : list Z) (o : nat) (d : list Z) : list Z :=
  overwrite (if bool_decide (length c < o + length d)%nat then resize0 c (o + length d) else c) o d.

Lemma resize0_lookup c n i : resize0 c n !! i =
  if bool_decide (i < n)%nat then Some (default 0 (c !! i)) else None.
Proof.
  unfold resize0. case_bool_decide as Hi.
  - destruct (decide (i < length c)%nat) as [Hc|Hc].
    + rewrite lookup_app_l by (rewrite length_take; lia). rewrite lookup_take_lt by lia.
      destruct (lookup_lt_is_Some_2 c i Hc) as [x ->]. done.
    + rewrite (lookup_ge_None_2 c i) by lia. rewrite lookup_app_r by (rewrite length_take; lia).
      rewrite length_take, lookup_replicate_2 by lia. done.
  - apply lookup_ge_None_2. rewrite length_app, length_take, length_replicate. lia.
Qed.

Lemma resize0_length c n : length (resize0 c n) = n.
Proof. unfold resize0. rewrite length_app, length_take, length_replicate. lia. Qed.

Lemma overwrite_lookup c o d i : (o + length d ≤ length c)%nat → overwrite c o d !! i =
  if bool_decide (o ≤ i < o + length d)%nat then d !! (i - o)%nat else c !! i.
Proof.
  intros Hl. unfold overwrite. case_bool_decide as Hi.
  - rewrite lookup_app_r by (rewrite length_take; lia). rewrite length_take.
    replace (i - o `min` length c)%nat with (i - o)%nat by lia. by rewrite lookup_app_l by lia.
  - destruct (decide (i < o)%nat).
    + rewrite lookup_app_l by (rewrite length_take; lia). by rewrite lookup_take_lt by lia.
    + rewrite lookup_app_r by (rewrite length_take; lia). rewrite length_take, lookup_app_r by lia.
      rewrite lookup_drop. f_equal. lia.
Qed.

(** Byte by byte: the data where it was written, zeros in a gap, the old bytes
    elsewhere. *)
Lemma write_content_lookup c o d i : write_content c o d !! i =
  if bool_decide (o ≤ i < o + length d)%nat then d !! (i - o)%nat
  else if bool_decide (i < length c)%nat then c !! i
  else if bool_decide (i < o)%nat then Some 0 else None.
Proof.
  unfold write_content. case_bool_decide as Hc.
  - rewrite overwrite_lookup by (rewrite resize0_length; lia). case_bool_decide as Hi; [done|].
    rewrite resize0_lookup. case_bool_decide as H1.
    + case_bool_decide as H2; [by destruct (lookup_lt_is_Some_2 c i H2) as [x ->]|].
      rewrite bool_decide_true by lia. by rewrite lookup_ge_None_2 by lia.
    + rewrite !bool_decide_false by lia. done.
  - rewrite overwrite_lookup by lia. case_bool_decide; [done|].
    case_bool_decide; [done|]. rewrite bool_decide_false by lia. by apply lookup_ge_None_2; lia.
Qed.

Lemma write_content_length c o d : length (write_content c o d) = (length c `max` (o + length d))%nat.
Proof.
  unfold write_content, overwrite. rewrite !length_app, length_take, length_drop.
  case_bool_decide; rewrite ?resize0_length; lia.
Qed.

Lemma write_content_app c o d1 d2 :
  write_content (write_content c o d1) (o + length d1) d2 = write_content c o (d1 ++ d2).
Proof.
  apply list_eq. intros i. rewrite !write_content_lookup, write_content_length, length_app.
  repeat case_bool_decide; try lia; try done.
  - rewrite lookup_app_r by lia. f_equal. lia.
  - by rewrite lookup_app_l by lia.
Qed.

Section theorems.
Context `{FH : FsHeaders} {D : Type} `{DV : Devices D}.
Implicit Types s : FS D.
Open Scope stM_scope.

(** Open file [f] is at [offset] of the tmpfs file [n] with contents [c]. *)
Definition file_at s (f : nat) (fl : VfsOpenFileInner) (v : VfsNode) (m : TmpfsMetadata) (c : list Z)
    (offset : nat) : Prop :=
  files s !! f = Some (MkFile (f_node fl) (Z.of_nat offset) (f_flags fl) (f_abs_path fl)) ∧
  nodes s !! f_node fl = Some (MkNode (ino v) (TmpfsFile c m)).

(** The rest of the file system is as in [s]. *)
Definition same_but s s' (f n : nat) : Prop :=
  MOUNT_TABLE s' = MOUNT_TABLE s ∧ devices s' = devices s ∧
  (∀ g, g ≠ f → files s' !! g = files s !! g) ∧ (∀ k, k ≠ n → nodes s' !! k = nodes s !! k).

Lemma same_but_refl s f n : same_but s s f n.
Proof. by repeat split. Qed.
Lemma same_but_trans s1 s2 s3 f n : same_but s1 s2 f n → same_but s2 s3 f n → same_but s1 s3 f n.
Proof.
  intros (A1 & A2 & A3 & A4) (B1 & B2 & B3 & B4). split; [congruence|]. split; [congruence|].
  split; [intros g Hg; by rewrite B3, A3|intros k Hk; by rewrite B4, A4].
Qed.

Lemma get_file_eq s f fl : files s !! f = Some fl → get_file f s = Ret (Okay fl, s).
Proof. unfold get_file. by intros ->. Qed.

Lemma set_offset_eq s f fl o : files s !! f = Some fl → set_offset f o s =
  Ret (Okay tt, set_files s (<[f := MkFile (f_node fl) o (f_flags fl) (f_abs_path fl)]> (files s))).
Proof. intros Hf. unfold set_offset. by rewrite (fbind_ok _ _ _ _ _ (get_file_eq _ _ _ Hf)). Qed.

Lemma advance_offset_eq s f fl n : files s !! f = Some fl → f_offset fl + n < 2 ^ 64 →
  advance_offset f n s =
    Ret (Okay tt, set_files s (<[f := MkFile (f_node fl) (f_offset fl + n) (f_flags fl) (f_abs_path fl)]> (files s))).
Proof.
  intros Hf Hlt. unfold advance_offset. rewrite (fbind_ok _ _ _ _ _ (get_file_eq _ _ _ Hf)).
  unfold fbind, lift. rewrite (proj2 (add_Ret 64 (f_offset fl) n (f_offset fl + n))) by done. bstep.
  by apply set_offset_eq.
Qed.

Lemma node_write_tmpfs s n i c m (o : nat) d : nodes s !! n = Some (MkNode i (TmpfsFile c m)) →
  Z.of_nat o + Z.of_nat (length d) < 2 ^ 63 →
  node_write n (Z.of_nat o) d s =
    Ret (Okay (Z.of_nat (length d)), set_nodes s (<[n := MkNode i (TmpfsFile (write_content c o d) m)]> (nodes s))).
Proof.
  intros Hn Hlt. unfold node_write, get_node, set_kind, fbind, lift, ok. rewrite Hn. bstep. cbn [kind].
  rewrite (proj2 (add_Ret 64 (Z.of_nat o) (Z.of_nat (length d)) (Z.of_nat o + Z.of_nat (length d)))) by lia. bstep.
  assert ((if Z.of_nat (length c) <? Z.of_nat o + Z.of_nat (length d)
      then vec_resize c (Z.of_nat o + Z.of_nat (length d)) else Ret c)
    = Ret (if bool_decide (length c < o + length d)%nat then resize0 c (o + length d) else c)) as ->.
  { unfold vec_resize. rewrite (proj2 (Z.ltb_lt _ (2 ^ 63))) by lia.
    replace (Z.to_nat (Z.of_nat o + Z.of_nat (length d))) with (o + length d)%nat by lia.
    destruct (Z.ltb_spec (Z.of_nat (length c)) (Z.of_nat o + Z.of_nat (length d)));
      [by rewrite bool_decide_true by lia|by rewrite bool_decide_false by lia]. }
  bstep. rewrite Hn. bstep. by rewrite Nat2Z.id.
Qed.

Lemma file_write_at s f fl v m c o d : file_at s f fl v m c o → has_append fl = false →
  Z.of_nat o + Z.of_nat (length d) < 2 ^ 63 →
  ∃ s', file_write f d s = Ret (Okay (Z.of_nat (length d)), s') ∧ same_but s s' f (f_node fl) ∧
    file_at s' f fl v m (write_content c o d) (o + length d).
Proof.
  intros [Hf Hn] Ha Hlt. unfold file_write.
  assert (effective_write_offset f s = Ret (Okay (Z.of_nat o), s)) as Heff.
  { unfold effective_write_offset. rewrite (fbind_ok _ _ _ _ _ (get_file_eq _ _ _ Hf)).
    change (has_append (MkFile _ _ _ _)) with (has_append fl). by rewrite Ha. }
  rewrite (fbind_ok _ _ _ _ _ Heff), (fbind_ok _ _ _ _ _ (get_file_eq _ _ _ Hf)). cbn [f_node].
  rewrite (fbind_ok _ _ _ _ _ (node_write_tmpfs _ _ _ _ _ _ _ Hn Hlt)).
  rewrite (fbind_ok _ _ _ _ _ (advance_offset_eq (set_nodes s _) f _ (Z.of_nat (length d)) Hf ltac:(simpl; lia))).
  eexists. split; [reflexivity|]. split; [|split; cbn; rewrite lookup_insert_eq; [|done]].
  - do 2 (split; [done|]). split; intros k Hk; cbn; by rewrite lookup_insert_ne.
  - do 2 f_equal. lia.
Qed.

Lemma file_read_at s f fl v m c o len : file_at s f fl v m c o → (o ≤ length c)%nat → Z.of_nat (length c) < 2 ^ 63 →
  ∃ s', file_read f len s = Ret (Okay (take len (drop o c)), s') ∧ same_but s s' f (f_node fl) ∧
    file_at s' f fl v m c (o + length (take len (drop o c))).
Proof.
  intros [Hf Hn] Ho Hc. unfold file_read. rewrite (fbind_ok _ _ _ _ _ (get_file_eq _ _ _ Hf)).
  assert (node_read (f_node fl) (Z.of_nat o) len s = Ret (Okay (read_data c (Z.of_nat o) len), s)) as Hr
    by (unfold node_read, get_node, fbind; by rewrite Hn).
  cbn [f_node f_offset]. rewrite (fbind_ok _ _ _ _ _ Hr).
  assert (read_data c (Z.of_nat o) len = take len (drop o c)) as ->.
  { unfold read_data. rewrite Nat2Z.id. destruct (Z.leb_spec (Z.of_nat (length c)) (Z.of_nat o)); [|done].
    by rewrite drop_ge, take_nil by lia. }
  set (d := take len (drop o c)).
  assert (length d ≤ length c - o)%nat by (unfold d; rewrite length_take, length_drop; lia).
  rewrite (fbind_ok _ _ _ _ _ (advance_offset_eq s f _ (Z.of_nat (length d)) Hf ltac:(simpl; lia))).
  eexists. split; [reflexivity|]. split; [|split; cbn; [rewrite lookup_insert_eq; do 2 f_equal; lia|done]].
  do 2 (split; [done|]). split; intros k Hk; [cbn; by rewrite lookup_insert_ne|done].
Qed.

Lemma write_all_at s f fl v m c o d ds : file_at s f fl v m c o → has_append fl = false →
  Z.of_nat o + Z.of_nat (length (concat (d :: ds))) < 2 ^ 63 →
  ∃ s', write_all f (d :: ds) s = Ret (Okay tt, s') ∧ same_but s s' f (f_node fl) ∧
    file_at s' f fl v m (write_content c o (concat (d :: ds))) (o + length (concat (d :: ds))).
Proof.
  revert s c o d. induction ds as [|d' ds IH]; intros s c o d Hat Ha Hlt; cbn [write_all concat] in *;
    rewrite length_app in Hlt; destruct (file_write_at s f fl v m c o d) as (s1 & H1 & Hs1 & Hat1); [done|done|lia| |done|done|lia|];
    rewrite (fbind_ok _ _ _ _ _ H1).
  - exists s1. rewrite app_nil_r. done.
  - destruct (IH s1 (write_content c o d) (o + length d)%nat d') as (s2 & H2 & Hs2 & Hat2); [done|done|lia|].
    exists s2. split; [exact H2|]. split; [by eapply same_but_trans|].
    rewrite write_content_app, <-Nat.add_assoc, <-length_app in Hat2. done.
Qed.

Lemma read_all_at s f fl v m c o lens : file_at s f fl v m c o → (o ≤ length c)%nat → Z.of_nat (length c) < 2 ^ 63 →
  ∃ ds s', read_all f lens s = Ret (Okay ds, s') ∧ concat ds = take (sum_list lens) (drop o c) ∧
    same_but s s' f (f_node fl) ∧ nodes s' !! f_node fl = nodes s !! f_node fl.
Proof.
  revert s o. induction lens as [|n lens IH]; intros s o Hat Ho Hc; cbn [read_all].
  { exists [], s. split; [done|]. split; [done|]. split; [apply same_but_refl|done]. }
  destruct (file_read_at s f fl v m c o n) as (s1 & H1 & Hs1 & Hat1); [done..|]. rewrite (fbind_ok _ _ _ _ _ H1).
  destruct (IH s1 (o + length (take n (drop o c)))%nat) as (ds & s2 & H2 & Hds & Hs2 & Hn2); [done| |done|].
  { rewrite length_take, length_drop. lia. }
  rewrite (fbind_ok _ _ _ _ _ H2). exists (take n (drop o c) :: ds), s2. split; [done|]. split.
  - simpl. rewrite Hds, <-drop_drop, <-take_take_drop. f_equal. f_equal.
    rewrite length_take. destruct (decide (n ≤ length (drop o c))%nat); [f_equal; lia|].
    rewrite !drop_ge by (rewrite ?length_drop in *; lia). done.
  - split; [by eapply same_but_trans|]. rewrite Hn2, (proj2 Hat1), (proj2 Hat). done.
Qed.

Lemma drop_write_content c o d : drop o (write_content c o d) = d ++ drop (o + length d) c.
Proof.
  apply list_eq. intros i. rewrite lookup_drop, write_content_lookup. destruct (decide (i < length d)%nat).
  - rewrite bool_decide_true by lia. rewrite lookup_app_l by done. f_equal. lia.
  - rewrite bool_decide_false by lia. rewrite lookup_app_r, lookup_drop by lia.
    replace (o + length d + (i - length d))%nat with (o + i)%nat by lia.
    case_bool_decide; [done|]. rewrite bool_decide_false by lia. by rewrite lookup_ge_None_2 by lia.
Qed.

Lemma seek_set_at s f fl v m c o o' : file_at s f fl v m c o →
  ∃ s', seek f (Z.of_nat o') SEEK_SET s = Ret (Okay (Z.of_nat o'), s') ∧ same_but s s' f (f_node fl) ∧
    file_at s' f fl v m c o'.
Proof.
  intros [Hf Hn]. unfold seek. rewrite (fbind_ok _ _ _ _ _ (get_file_eq _ _ _ Hf)), Z.eqb_refl.
  rewrite (proj2 (Z.ltb_ge _ _)) by lia. rewrite (fbind_ok _ _ _ (Z.of_nat o') s eq_refl).
  rewrite (fbind_ok _ _ _ _ _ (set_offset_eq s f _ (Z.of_nat o') Hf)).
  eexists. split; [reflexivity|]. split; [|split; cbn; [by rewrite lookup_insert_eq|done]].
  do 2 (split; [done|]). split; intros k Hk; [cbn; by rewrite lookup_insert_ne|done].
Qed.

(** what is written to a file is read back. Any writes through an open tmpfs
    file succeed in full; after a seek to where they began, reads of any sizes return
    together exactly the bytes written, followed by what the file held behind them;
    the bytes before are unchanged (zeros in a gap beyond the old end), and so are all
    other files. *)
Theorem file_write_read s f fl v m c o d ds lens : file_at s f fl v m c o → has_append fl = false →
  Z.of_nat o + Z.of_nat (length (concat (d :: ds))) < 2 ^ 63 → Z.of_nat (length c) < 2 ^ 63 →
  ∃ s1 rs s2, write_all f (d :: ds) s = Ret (Okay tt, s1) ∧
    (seek f (Z.of_nat o) SEEK_SET;;? read_all f lens) s1 = Ret (Okay rs, s2) ∧
    concat rs = take (sum_list lens) (concat (d :: ds) ++ drop (o + length (concat (d :: ds))) c) ∧
    same_but s s2 f (f_node fl) ∧
    ∃ c', nodes s2 !! f_node fl = Some (MkNode (ino v) (TmpfsFile c' m)) ∧
      length c' = (length c `max` (o + length (concat (d :: ds))))%nat ∧
      ∀ i, (i < o)%nat → c' !! i = Some (default 0 (c !! i)).
Proof.
  intros Hat Ha Hlt Hc. destruct (write_all_at s f fl v m c o d ds) as (s1 & H1 & Hs1 & Hat1); [done..|].
  set (w := concat (d :: ds)) in *. exists s1.
  destruct (seek_set_at _ _ _ _ _ _ _ o Hat1) as (s2 & H2 & Hs2 & Hat2).
  destruct (read_all_at s2 f fl v m (write_content c o w) o lens) as (rs & s3 & H3 & Hrs & Hs3 & Hn3);
    [done|rewrite write_content_length; lia..|].
  exists rs, s3. split; [done|]. split; [by rewrite (fbind_ok _ _ _ _ _ H2)|].
  split; [by rewrite Hrs, drop_write_content|]. split; [by do 2 (eapply same_but_trans; [eassumption|])|].
  exists (write_content c o w). split; [rewrite Hn3; apply Hat2|]. split; [apply write_content_length|].
  intros i Hi. rewrite write_content_lookup, bool_decide_false by lia. case_bool_decide.
  - by destruct (lookup_lt_is_Some_2 c i) as [x ->].
  - rewrite bool_decide_true by lia. by rewrite lookup_ge_None_2 by lia.
Qed.

(** A write in append mode goes to the end, wherever the offset was. *)
Lemma file_append_at s f fl v m c o d : file_at s f fl v m c o → has_append fl = true →
  Z.of_nat (length c) + Z.of_nat (length d) < 2 ^ 63 →
  ∃ s', file_write f d s = Ret (Okay (Z.of_nat (length d)), s') ∧
    file_at s' f fl v m (c ++ d) (length c + length d).
Proof.
  intros [Hf Hn] Ha Hlt. unfold file_write.
  set (s0 := set_files s (<[f := MkFile (f_node fl) (Z.of_nat (length c)) (f_flags fl) (f_abs_path fl)]> (files s))).
  assert (effective_write_offset f s = Ret (Okay (Z.of_nat (length c)), s0)) as Heff.
  { unfold effective_write_offset. rewrite (fbind_ok _ _ _ _ _ (get_file_eq _ _ _ Hf)).
    change (has_append (MkFile _ _ _ _)) with (has_append fl). rewrite Ha. cbn [f_node].
    assert (get_node (f_node fl) s = Ret (Okay (MkNode (ino v) (TmpfsFile c m)), s)) as Hg
      by (unfold get_node; by rewrite Hn).
    rewrite (fbind_ok _ _ _ _ _ Hg). cbn [kind node_size].
    rewrite (fbind_ok _ _ _ (Z.of_nat (length c)) s eq_refl).
    by rewrite (fbind_ok _ _ _ _ _ (set_offset_eq s f _ (Z.of_nat (length c)) Hf)). }
  assert (file_at s0 f fl v m c (length c)) as [Hf0 Hn0] by (split; cbn; [by rewrite lookup_insert_eq|done]).
  rewrite (fbind_ok _ _ _ _ _ Heff), (fbind_ok _ _ _ _ _ (get_file_eq _ _ _ Hf0)). cbn [f_node].
  rewrite (fbind_ok _ _ _ _ _ (node_write_tmpfs _ _ _ _ _ _ _ Hn0 Hlt)).
  erewrite (fbind_ok (advance_offset _ _)); [|apply advance_offset_eq; [exact Hf0|simpl; lia]].
  eexists. split; [reflexivity|]. split; cbn; rewrite lookup_insert_eq; [do 2 f_equal; lia|].
  do 3 f_equal. apply list_eq. intros i. rewrite write_content_lookup. repeat case_bool_decide; try lia.
  - by rewrite lookup_app_r by lia.
  - by rewrite lookup_app_l by lia.
  - rewrite lookup_ge_None_2; [done|]. rewrite length_app. lia.
Qed.
End theorems.

(** ** A small file system *)
#[local] Instance wit_fs : FsHeaders := linux_fs.

(** With a file [/tmp/a] that holds two bytes, open at offset 1. *)
Definition fs2 : FS unit := run_fs fs1
  ((f ←? create 1 (b "a") File; node_write f 0 [7; 8];;? fd ←? open f 2 (b "/tmp/a"); seek fd 1 SEEK_SET)%stM fs1).

Lemma file_write_read_witness : ∃ s1 rs s2, write_all 0 [[1; 2]; [3]] fs2 = Ret (Okay tt, s1) ∧
  (seek 0 1 SEEK_SET;;? read_all 0 [2; 1; 5]%nat)%stM s1 = Ret (Okay rs, s2) ∧ concat rs = [1; 2; 3].
Proof.
  destruct (file_write_read fs2 0 (MkFile 7 1 2 (b "/tmp/a")) (MkNode 8 DevNull) (Meta 0x81A4 0 0 1) [7; 8] 1
    [1; 2] [[3]] [2; 1; 5]%nat) as (s1 & rs & s2 & H1 & H2 & H3 & _); [by vm_compute|by vm_compute|simpl; lia|simpl; lia|].
  exists s1, rs, s2. split; [exact H1|]. split; [exact H2|exact H3].
Defined.
