(* ===== verification/FdTable.v ===== *)
(** File descriptor tables: crates/kernel/src/processes/fd_table.rs, with the
    system calls that change them (close, dup, dup3, pipe2 of
    crates/kernel/src/syscalls/linux.rs and io_ops.rs, and the tables' part of
    clone, execve and exit).

    A descriptor is a reference to a shared object. Copies and drops of a
    reference to a pipe end count it in and out, and a table owns its
    descriptors; [closed_tcp] lists the connections on which [request_close] has
    been called. *)
From S2P Require Import Prelude Headers ResultM Vfs Pipe.

Inductive FileDescriptor :=
  | Tty
  | UnboundUdpSocket
  | UdpSocket (socket : nat)
  | UnboundTcpSocket
  | TcpStream (conn : nat)
  | TcpListener (listener : nat)
  | PipeRead (pipe : nat)
  | PipeWrite (pipe : nat)
  | VfsFile (file : nat).

#[global] Instance FileDescriptor_eq_dec : EqDecision FileDescriptor.
Proof. solve_decision. Defined.

Record FdEntry := MkFd { descriptor : FileDescriptor; flags : Z }.

Abbreviation FdTable := (gmap Z FdEntry).

Record Fds := MkFds {
  tables : gmap nat FdTable;
  pipes : gmap nat PipeInner;
  next_pipe : nat;
  closed_tcp : list nat;
}.

Definition set_tables (s : Fds) (t : gmap nat FdTable) : Fds := MkFds t (pipes s) (next_pipe s) (closed_tcp s).
Definition set_pipes (s : Fds) (p : gmap nat PipeInner) : Fds := MkFds (tables s) p (next_pipe s) (closed_tcp s).

Section fd_table.
Context `{FH : FsHeaders}.
Open Scope stM_scope.

(** ** [FdFlags] *)
Definition is_nonblocking (fl : Z) : bool := negb (Z.land fl O_NONBLOCK =? 0).
Definition is_cloexec (fl : Z) : bool := negb (Z.land fl O_CLOEXEC =? 0).
Definition from_raw (raw : Z) : Z := Z.land raw (Z.lor O_NONBLOCK O_CLOEXEC).

(** ** The table itself *)
Definition fd_table_new : FdTable := <[0 := MkFd Tty 0]> (<[1 := MkFd Tty 0]> {[2 := MkFd Tty 0]}).

(** [(n..).find(|n| !self.table.contains_key(n))]: before a number is looked at, its
    successor is computed, which overflows at [i32::MAX]. *)
Fixpoint find_free (fuel : nat) (t : FdTable) (n : Z) : outcome Z :=
  match fuel with
  | O => Panic
  | S fuel =>
      if n =? 2 ^ 31 - 1 then Panic
      else if bool_decide (is_Some (t !! n)) then find_free fuel t (n + 1) else Ret n
  end.

Definition first_free (t : FdTable) (n : Z) : outcome Z := find_free (S (size t)) t n.

Definition get_entry (t : FdTable) (fd : Z) : result FdEntry :=
  match t !! fd with Some e => Okay e | None => Err EBADF end.

Definition get_vfs_file (t : FdTable) (fd : Z) : result nat :=
  match t !! fd with
  | Some (MkFd (VfsFile f) _) => Okay f
  | _ => Err EBADF
  end.

Definition get_flags (t : FdTable) (fd : Z) : result Z :=
  match t !! fd with Some e => Okay (flags e) | None => Err EBADF end.

Definition set_flags (t : FdTable) (fd fl : Z) : result FdTable :=
  match t !! fd with
  | Some e => Okay (<[fd := MkFd (descriptor e) fl]> t)
  | None => Err EBADF
  end.

(** ** References to pipe ends *)
Definition on_pipe (p : nat) (f : PipeInner → outcome PipeInner) : stM Fds unit := λ s,
  pi ← expect (pipes s !! p);
  pi ← f pi;
  Ret (Okay tt, set_pipes s (<[p := pi]> (pipes s))).

(** [FileDescriptor::clone] *)
Definition clone_descriptor (d : FileDescriptor) : stM Fds unit :=
  match d with
  | PipeRead p => on_pipe p add_reader
  | PipeWrite p => on_pipe p add_writer
  | _ => ok tt
  end.

(** The end of a descriptor. *)
Definition drop_descriptor (d : FileDescriptor) : stM Fds unit :=
  match d with
  | PipeRead p => on_pipe p close_read
  | PipeWrite p => on_pipe p (λ pi, fst <$> close_write pi)
  | _ => ok tt
  end.

Definition close_tcp_if_needed (d : FileDescriptor) : stM Fds unit :=
  match d with
  | TcpStream c => modify (λ s, MkFds (tables s) (pipes s) (next_pipe s) (closed_tcp s ++ [c]))
  | _ => ok tt
  end.

Definition get_table (h : nat) : stM Fds FdTable := λ s, t ← expect (tables s !! h); Ret (Okay t, s).
Definition put_table (h : nat) (t : FdTable) : stM Fds unit := modify (λ s, set_tables s (<[h := t]> (tables s))).

(** ** Operations on the table of process [h] *)
Definition allocate (h : nat) (d : FileDescriptor) : stM Fds Z :=
  t ←? get_table h;
  fd ←? lift (first_free t 0);
  put_table h (<[fd := MkFd d 0]> t);;?
  ok fd.

Definition replace_descriptor (h : nat) (fd : Z) (d : FileDescriptor) : stM Fds unit :=
  t ←? get_table h;
  e ←? from (get_entry t fd);
  put_table h (<[fd := MkFd d (flags e)]> t);;?
  drop_descriptor (descriptor e).

Definition dup_from (h : nat) (oldfd min_fd fl : Z) : stM Fds Z :=
  t ←? get_table h;
  e ←? from (get_entry t oldfd);
  clone_descriptor (descriptor e);;?
  newfd ←? lift (first_free t min_fd);
  put_table h (<[newfd := MkFd (descriptor e) fl]> t);;?
  ok newfd.

Definition drop_entry (e : option FdEntry) : stM Fds unit :=
  match e with Some e => drop_descriptor (descriptor e) | None => ok tt end.

Definition dup_to (h : nat) (oldfd newfd fl : Z) : stM Fds Z :=
  if oldfd =? newfd then fail EINVAL
  else
    t ←? get_table h;
    e ←? from (get_entry t oldfd);
    clone_descriptor (descriptor e);;?
    put_table h (<[newfd := MkFd (descriptor e) (from_raw fl)]> (delete newfd t));;?
    drop_entry (t !! newfd);;?
    ok newfd.

(** [FdTable::close] and the rest of the system call. *)
Definition close (h : nat) (fd : Z) : stM Fds unit :=
  t ←? get_table h;
  e ←? from (get_entry t fd);
  put_table h (delete fd t);;?
  close_tcp_if_needed (descriptor e);;?
  drop_descriptor (descriptor e).

Definition forM {S A} (f : A → stM S unit) : list A → stM S unit :=
  fix go l := match l with [] => ok tt | a :: l => f a;;? go l end.

Definition entries (t : FdTable) : list FdEntry := map snd (map_to_list t).

Definition drop_entries (t : FdTable) : stM Fds unit := forM (λ e, drop_descriptor (descriptor e)) (entries t).

Definition close_all (h : nat) : stM Fds unit :=
  t ←? get_table h;
  forM (λ e, close_tcp_if_needed (descriptor e)) (entries t);;?
  put_table h ∅;;?
  drop_entries t.

(** [table.retain(..)]: the entries that stay, and those that go. *)
Definition cloexec_entries (t : FdTable) : FdTable := filter (λ kv, is_cloexec (flags kv.2) = true) t.
Definition kept_entries (t : FdTable) : FdTable := filter (λ kv, is_cloexec (flags kv.2) ≠ true) t.

(** [FdTable::clone] *)
Definition clone_table (t : FdTable) : stM Fds unit := forM (λ e, clone_descriptor (descriptor e)) (entries t).

(** fork: the child [h'] gets a copy of the table. *)
Definition fork_table (h h' : nat) : stM Fds unit :=
  t ←? get_table h;
  clone_table t;;?
  put_table h' t.

(** execve by the only thread of [h]: a copy without the entries to be closed
    becomes the table of the new process [h'], and the old process ends. *)
Definition exec_table (h h' : nat) : stM Fds unit :=
  t ←? get_table h;
  clone_table t;;?
  forM (λ e, close_tcp_if_needed (descriptor e);;? drop_descriptor (descriptor e)) (entries (cloexec_entries t));;?
  put_table h' (kept_entries t);;?
  modify (λ s, set_tables s (delete h (tables s)));;?
  drop_entries t.

(** [new_pipe] and [do_pipe2], up to the write of the two numbers. *)
Definition new_pipe : stM Fds nat := λ s,
  Ret (Okay (next_pipe s),
       MkFds (tables s) (<[next_pipe s := pipe_new]> (pipes s)) (S (next_pipe s)) (closed_tcp s)).

Definition do_pipe2 (h : nat) : stM Fds (Z * Z) :=
  p ←? new_pipe;
  r ←? allocate h (PipeRead p);
  w ←? allocate h (PipeWrite p);
  ok (r, w).

(** ** A run: calls by processes, in any order *)
Inductive fd_event :=
  | FdOpen (h : nat) (d : FileDescriptor)
  | FdPipe2 (h : nat)
  | FdDup (h : nat) (oldfd min_fd fl : Z)
  | FdDup3 (h : nat) (oldfd newfd fl : Z)
  | FdClose (h : nat) (fd : Z)
  | FdFork (h h' : nat)
  | FdExec (h h' : nat)
  | FdExit (h : nat).

Definition is_pipe_end (d : FileDescriptor) : bool :=
  match d with PipeRead _ | PipeWrite _ => true | _ => false end.

Definition fd_exec (ev : fd_event) : stM Fds unit :=
  match ev with
  | FdOpen h d => if is_pipe_end d then fail EINVAL else allocate h d;;? ok tt
  | FdPipe2 h => do_pipe2 h;;? ok tt
  | FdDup h o m f => dup_from h o m f;;? ok tt
  | FdDup3 h o n f => dup_to h o n f;;? ok tt
  | FdClose h fd => close h fd
  | FdFork h h' => fork_table h h'
  | FdExec h h' => exec_table h h'
  | FdExit h => close_all h
  end.
End fd_table.
