(* ===== verification/FdTheorems.v ===== *)
(** Theorems on descriptor tables: the numbers handed out, and that the counters of
    every pipe are the numbers of descriptors that refer to its ends. *)
From S2P Require Import Prelude Headers ResultM Vfs Pipe FdTable.

Section theorems.
Context `{FH : FsHeaders}.
Open Scope stM_scope.

(** ** The number that is handed out *)
Lemma free_fd_spec fuel t n fd : n < 2 ^ 31 → find_free fuel t n = Ret fd →
  n ≤ fd < 2 ^ 31 - 1 ∧ t !! fd = None ∧ ∀ i, n ≤ i < fd → is_Some (t !! i).
Proof.
  revert n. induction fuel as [|fuel IH]; intros n Hn; simpl; [done|].
  destruct (Z.eqb_spec n (2 ^ 31 - 1)) as [->|Hn']; [done|]. case_bool_decide as Ht.
  - intros (H1 & H2 & H3)%IH; [|lia]. split; [lia|]. split; [done|]. intros i Hi.
    destruct (decide (i = n)) as [->|]; [done|]. apply H3. lia.
  - intros [= <-]. apply eq_None_not_Some in Ht. split; [lia|]. split; [done|lia].
Qed.

Lemma find_free_panics fuel t n : n + Z.of_nat fuel ≤ 2 ^ 31 - 1 → find_free fuel t n = Panic →
  ∀ i, n ≤ i < n + Z.of_nat fuel → is_Some (t !! i).
Proof.
  revert n. induction fuel as [|fuel IH]; intros n Hn; simpl; [lia|].
  rewrite (proj2 (Z.eqb_neq _ _)) by lia. case_bool_decide as Ht; [|done]. intros H i Hi.
  destruct (decide (i = n)) as [->|]; [done|]. apply (IH (n + 1)); [lia|done|lia].
Qed.

Lemma first_free_returns t n : n + Z.of_nat (size t) < 2 ^ 31 - 1 → ∃ fd, first_free t n = Ret fd.
Proof.
  intros Hn. unfold first_free. destruct (find_free _ t n) as [fd|] eqn:E; [eauto|].
  pose proof (find_free_panics (S (size t)) t n ltac:(lia) E) as H. exfalso.
  set (X := list_to_set (seqZ n (Z.of_nat (S (size t)))) : gset Z).
  assert (size X ≤ size (dom t))%nat as Hs.
  { apply subseteq_size. intros i Hi%elem_of_list_to_set%elem_of_seqZ. apply elem_of_dom, H. lia. }
  unfold X in Hs. rewrite size_list_to_set, size_dom in Hs by apply NoDup_seqZ.
  rewrite length_seqZ in Hs. lia.
Qed.

(** ** Descriptors in use *)
(** The descriptors of a table, and of all tables. *)
Definition held (t : FdTable) : list FileDescriptor := descriptor <$> entries t.
Definition owned (m : gmap nat FdTable) : list FileDescriptor := (map_to_list m).*2 ≫= held.

Definition occ (d : FileDescriptor) (l : list FileDescriptor) : Z := Z.of_nat (length (filter (d =.) l)).

Lemma occ_perm d l l' : l ≡ₚ l' → occ d l = occ d l'.
Proof. intros H. unfold occ. by rewrite H. Qed.
Lemma occ_app d l l' : occ d (l ++ l') = occ d l + occ d l'.
Proof. unfold occ. rewrite filter_app, length_app. lia. Qed.
Lemma occ_cons d x l : occ d (x :: l) = (if decide (d = x) then 1 else 0) + occ d l.
Proof. unfold occ. rewrite filter_cons. case_decide; simpl; lia. Qed.
Lemma occ_bound d l : 0 ≤ occ d l ≤ Z.of_nat (length l).
Proof. unfold occ. pose proof (length_filter (d =.) l). lia. Qed.
Lemma occ_pos d l : 0 < occ d l ↔ d ∈ l.
Proof.
  unfold occ. split.
  - intros H. destruct (filter (d =.) l) as [|x xs] eqn:E; [simpl in H; lia|].
    assert (x ∈ filter (d =.) l) as [<- ?]%list_elem_of_filter by (rewrite E; by left). done.
  - intros H. assert (d ∈ filter (d =.) l) as H' by (by apply list_elem_of_filter).
    destruct (filter (d =.) l); [by apply elem_of_nil in H'|simpl; lia].
Qed.

Lemma held_insert t fd e : t !! fd = None → held (<[fd := e]> t) ≡ₚ descriptor e :: held t.
Proof. intros H. unfold held, entries. by rewrite map_to_list_insert. Qed.
Lemma held_delete t fd e : t !! fd = Some e → held t ≡ₚ descriptor e :: held (delete fd t).
Proof. intros H. rewrite <-held_insert by apply lookup_delete_eq. by rewrite insert_delete_id. Qed.
Lemma held_split t : held (cloexec_entries t) ++ held (kept_entries t) ≡ₚ held t.
Proof.
  unfold cloexec_entries, kept_entries. induction t as [|fd e t Hfd IH] using map_ind; [done|].
  assert (∀ (P : Z * FdEntry → Prop) `{!∀ x, Decision (P x)}, filter P t !! fd = None) as HN.
  { intros P ?. apply map_lookup_filter_None. by left. }
  rewrite (held_insert t) by done. destruct (decide (is_cloexec (flags e) = true)) as [Hc|Hc].
  - rewrite map_filter_insert_True by done. rewrite map_filter_insert_False by (by intros H).
    rewrite delete_id by done. rewrite held_insert by done. simpl. by rewrite IH.
  - rewrite map_filter_insert_False by done. rewrite map_filter_insert_True by done.
    rewrite delete_id by done. rewrite held_insert by done. by rewrite <-Permutation_middle, IH.
Qed.

Lemma owned_insert m h t : m !! h = None → owned (<[h := t]> m) ≡ₚ held t ++ owned m.
Proof. intros H. unfold owned. rewrite map_to_list_insert by done. done. Qed.
Lemma owned_delete m h t : m !! h = Some t → owned m ≡ₚ held t ++ owned (delete h m).
Proof. intros H. rewrite <-owned_insert by apply lookup_delete_eq. by rewrite insert_delete_id. Qed.
Lemma owned_update m h t t' : m !! h = Some t → held t ++ owned (<[h := t']> m) ≡ₚ held t' ++ owned m.
Proof.
  intros H. rewrite (owned_delete m h t) by done. rewrite <-(insert_delete_eq m), owned_insert by apply lookup_delete_eq.
  by rewrite !app_assoc, (Permutation_app_comm (held t)).
Qed.

Lemma elem_of_owned m d : d ∈ owned m ↔ ∃ h t fd e, m !! h = Some t ∧ t !! fd = Some e ∧ descriptor e = d.
Proof.
  unfold owned, held, entries. rewrite list_elem_of_bind. split.
  - intros (t & Hd & ([h t'] & -> & H%elem_of_map_to_list)%list_elem_of_fmap).
    apply list_elem_of_fmap in Hd as (e & -> & Hd). apply list_elem_of_fmap in Hd as ([fd e'] & -> & Hd%elem_of_map_to_list).
    by exists h, t', fd, e'.
  - intros (h & t & fd & e & Hh & Ht & <-). exists t. split.
    + apply list_elem_of_fmap. exists e. split; [done|]. apply list_elem_of_fmap. exists (fd, e).
      split; [done|]. by apply elem_of_map_to_list.
    + apply list_elem_of_fmap. exists (h, t). split; [done|]. by apply elem_of_map_to_list.
Qed.

(** ** The counters *)
(** The counters of every pipe, when the descriptors [X] are in use besides those of
    the tables. *)
Definition counted (X : list FileDescriptor) (s : Fds) : Prop :=
  (∀ p, (p < next_pipe s)%nat ↔ is_Some (pipes s !! p)) ∧
  ∀ p, match pipes s !! p with
       | Some pi => reader_count pi = occ (PipeRead p) (owned (tables s) ++ X) ∧
                    writer_count pi = occ (PipeWrite p) (owned (tables s) ++ X)
       | None => occ (PipeRead p) (owned (tables s) ++ X) = 0 ∧ occ (PipeWrite p) (owned (tables s) ++ X) = 0
       end.

Lemma counted_perm X X' s m' : counted X s → owned m' ++ X' ≡ₚ owned (tables s) ++ X → counted X' (set_tables s m').
Proof.
  intros [H1 H2] Hp. split; [done|]. intros p. specialize (H2 p). simpl.
  destruct (pipes s !! p); by rewrite !(occ_perm _ _ _ Hp).
Qed.

Lemma counted_perm_same X X' s : counted X s → X' ≡ₚ X → counted X' s.
Proof. intros H Hp. destruct s. eapply (counted_perm _ _ _ _ H). by rewrite Hp. Qed.

Lemma occ_mid d x l X : occ d (l ++ x :: X) = (if decide (d = x) then 1 else 0) + occ d (l ++ X).
Proof. rewrite (occ_perm d _ (x :: l ++ X)) by (by rewrite Permutation_middle). apply occ_cons. Qed.

(** A descriptor that is no pipe end can come and go. *)
Lemma counted_other X d s : is_pipe_end d = false → counted X s ↔ counted (d :: X) s.
Proof.
  intros Hd. unfold counted. assert (∀ p l, occ (PipeRead p) (l ++ d :: X) = occ (PipeRead p) (l ++ X) ∧
    occ (PipeWrite p) (l ++ d :: X) = occ (PipeWrite p) (l ++ X)) as He.
  { intros p l. rewrite !occ_mid. by destruct d. }
  split; intros [H1 H2]; (split; [done|]); intros p; specialize (H2 p); destruct (He p (owned (tables s))) as [E1 E2];
    destruct (pipes s !! p); rewrite ?E1, ?E2 in *; done.
Qed.

(** The state after a change of pipe [p]'s counters. *)
Lemma counted_pipe X X' s p pi pi' : counted X s → pipes s !! p = Some pi →
  (∀ q, q ≠ p → occ (PipeRead q) (owned (tables s) ++ X') = occ (PipeRead q) (owned (tables s) ++ X) ∧
                occ (PipeWrite q) (owned (tables s) ++ X') = occ (PipeWrite q) (owned (tables s) ++ X)) →
  reader_count pi' = occ (PipeRead p) (owned (tables s) ++ X') →
  writer_count pi' = occ (PipeWrite p) (owned (tables s) ++ X') →
  counted X' (set_pipes s (<[p := pi']> (pipes s))).
Proof.
  intros [H1 H2] Hp Hq Hr Hw. split.
  - intros q. rewrite H1. simpl. destruct (decide (p = q)) as [<-|]; [rewrite lookup_insert_eq, Hp; split; eauto|].
    by rewrite lookup_insert_ne.
  - intros q. simpl. destruct (decide (p = q)) as [<-|Hne]; [by rewrite lookup_insert_eq|].
    rewrite lookup_insert_ne by done. specialize (H2 q). destruct (Hq q) as [-> ->]; [done|]. done.
Qed.

Definition in_use (s : Fds) (X : list FileDescriptor) : Z := Z.of_nat (length (owned (tables s) ++ X)).

Lemma on_pipe_eq p f s pi pi' : pipes s !! p = Some pi → f pi = Ret pi' →
  on_pipe p f s = Ret (Okay tt, set_pipes s (<[p := pi']> (pipes s))).
Proof. unfold on_pipe. intros -> H. bstep. by rewrite H. Qed.

Lemma counted_pipe_exists X s d p : counted X s → d ∈ owned (tables s) ++ X → d = PipeRead p ∨ d = PipeWrite p →
  ∃ pi, pipes s !! p = Some pi ∧ reader_count pi = occ (PipeRead p) (owned (tables s) ++ X) ∧
    writer_count pi = occ (PipeWrite p) (owned (tables s) ++ X).
Proof.
  intros [_ H2] Hin%occ_pos Hd. specialize (H2 p). destruct (pipes s !! p) as [pi|]; [eauto|].
  destruct Hd as [-> | ->]; lia.
Qed.

Ltac other_pipe := intros; rewrite !occ_mid, !decide_False by congruence; lia.

Lemma clone_counted X d s : counted X s → d ∈ owned (tables s) ++ X → in_use s X < 2 ^ 63 →
  ∃ ps, clone_descriptor d s = Ret (Okay tt, set_pipes s ps) ∧ counted (d :: X) (set_pipes s ps).
Proof.
  intros Hc Hin Hlt. unfold in_use in Hlt.
  destruct (is_pipe_end d) eqn:Ed.
  2:{ exists (pipes s). destruct s. split; [by destruct d|]. by apply counted_other. }
  destruct d as [| | | | | |p|p|]; try done; simpl;
    destruct (counted_pipe_exists X s _ p Hc Hin ltac:(eauto)) as (pi & Hp & Hr & Hw);
    apply occ_pos in Hin.
  - pose proof (occ_bound (PipeRead p) (owned (tables s) ++ X)).
    exists (<[p := Pipe (data pi) (read_wakers pi) (reader_count pi + 1) (writer_count pi)]> (pipes s)). split.
    + apply (on_pipe_eq _ _ _ pi); [done|]. unfold add_reader. rewrite (proj2 (Z.ltb_lt _ _)) by lia. bstep.
      by rewrite (proj2 (add_Ret 64 (reader_count pi) 1 (reader_count pi + 1))) by lia.
    + eapply counted_pipe; [done..|split; other_pipe| |]; simpl; rewrite occ_mid;
        [rewrite decide_True by done; lia|rewrite decide_False by done; lia].
  - pose proof (occ_bound (PipeWrite p) (owned (tables s) ++ X)).
    exists (<[p := Pipe (data pi) (read_wakers pi) (reader_count pi) (writer_count pi + 1)]> (pipes s)). split.
    + apply (on_pipe_eq _ _ _ pi); [done|]. unfold add_writer. rewrite (proj2 (Z.ltb_lt _ _)) by lia. bstep.
      by rewrite (proj2 (add_Ret 64 (writer_count pi) 1 (writer_count pi + 1))) by lia.
    + eapply counted_pipe; [done..|split; other_pipe| |]; simpl; rewrite occ_mid;
        [rewrite decide_False by done; lia|rewrite decide_True by done; lia].
Qed.

Lemma drop_counted X d s : counted (d :: X) s →
  ∃ ps, drop_descriptor d s = Ret (Okay tt, set_pipes s ps) ∧ counted X (set_pipes s ps).
Proof.
  intros Hc. destruct (is_pipe_end d) eqn:Ed.
  2:{ exists (pipes s). destruct s. split; [by destruct d|]. by apply counted_other in Hc. }
  assert (d ∈ owned (tables s) ++ d :: X) as Hin by set_solver.
  destruct d as [| | | | | |p|p|]; try done; simpl;
    destruct (counted_pipe_exists _ s _ p Hc Hin ltac:(eauto)) as (pi & Hp & Hr & Hw);
    rewrite occ_mid in Hr, Hw.
  - rewrite decide_True in Hr by done. rewrite decide_False in Hw by done.
    pose proof (occ_bound (PipeRead p) (owned (tables s) ++ X)).
    exists (<[p := Pipe (data pi) (read_wakers pi) (reader_count pi - 1) (writer_count pi)]> (pipes s)). split.
    + apply (on_pipe_eq _ _ _ pi); [done|]. unfold close_read, read_closed. rewrite (proj2 (Z.eqb_neq _ _)) by lia. bstep.
      by rewrite (proj2 (sub_Ret (reader_count pi) 1 (reader_count pi - 1))) by lia.
    + eapply counted_pipe; [done..|split; other_pipe| |]; simpl; lia.
  - rewrite decide_False in Hr by done. rewrite decide_True in Hw by done.
    pose proof (occ_bound (PipeWrite p) (owned (tables s) ++ X)).
    set (pi1 := Pipe (data pi) (read_wakers pi) (reader_count pi) (writer_count pi - 1)).
    exists (<[p := (if write_closed pi1 then wake_readers pi1 else (pi1, [])).1]> (pipes s)). split.
    + apply (on_pipe_eq _ _ _ pi); [done|].
      assert (close_write pi = Ret (if write_closed pi1 then wake_readers pi1 else (pi1, []))) as ->; [|done].
      unfold close_write. assert (write_closed pi = false) as -> by (apply Z.eqb_neq; lia). bstep.
      by rewrite (proj2 (sub_Ret (writer_count pi) 1 (writer_count pi - 1))) by lia.
    + eapply counted_pipe; [done..|split; other_pipe| |]; destruct (write_closed pi1); simpl; lia.
Qed.

Lemma set_pipes_twice s ps ps' : set_pipes (set_pipes s ps) ps' = set_pipes s ps'.
Proof. done. Qed.

Lemma clones_counted es X s : counted X s → (∀ e, e ∈ es → descriptor e ∈ owned (tables s) ++ X) →
  in_use s X + Z.of_nat (length es) < 2 ^ 63 →
  ∃ ps, forM (λ e, clone_descriptor (descriptor e)) es s = Ret (Okay tt, set_pipes s ps) ∧
    counted ((descriptor <$> es) ++ X) (set_pipes s ps).
Proof.
  revert X s. induction es as [|e es IH]; intros X s Hc Hin Hlt; simpl.
  { exists (pipes s). by destruct s. }
  simpl in Hlt. destruct (clone_counted X (descriptor e) s) as (ps & H1 & Hc1); [done|apply Hin; by left|lia|].
  rewrite (fbind_ok _ _ _ _ _ H1).
  destruct (IH (descriptor e :: X) (set_pipes s ps)) as (ps2 & H2 & Hc2); [done|intros e' He'; simpl; set_solver| |].
  { unfold in_use in *. simpl. rewrite length_app in *. simpl. lia. }
  exists ps2. split; [exact H2|]. eapply counted_perm_same; [exact Hc2|]. by rewrite <-Permutation_middle.
Qed.

Lemma drops_counted es X s : counted ((descriptor <$> es) ++ X) s →
  ∃ ps, forM (λ e, drop_descriptor (descriptor e)) es s = Ret (Okay tt, set_pipes s ps) ∧
    counted X (set_pipes s ps).
Proof.
  revert s. induction es as [|e es IH]; intros s Hc; simpl in *.
  { exists (pipes s). by destruct s. }
  destruct (drop_counted _ _ _ Hc) as (ps & H1 & Hc1). rewrite (fbind_ok _ _ _ _ _ H1).
  destruct (IH (set_pipes s ps)) as (ps2 & H2 & Hc2); [done|]. by exists ps2.
Qed.

Definition set_closed (s : Fds) (l : list nat) : Fds := MkFds (tables s) (pipes s) (next_pipe s) l.

Lemma close_tcp_eq d s : ∃ l, close_tcp_if_needed d s = Ret (Okay tt, set_closed s l).
Proof. destruct d; try (exists (closed_tcp s); by destruct s). by eexists. Qed.

Lemma close_tcps_eq es s : ∃ l, forM (λ e, close_tcp_if_needed (descriptor e)) es s = Ret (Okay tt, set_closed s l).
Proof.
  revert s. induction es as [|e es IH]; intros s; simpl; [exists (closed_tcp s); by destruct s|].
  destruct (close_tcp_eq (descriptor e) s) as [l Hl]. rewrite (fbind_ok _ _ _ _ _ Hl).
  destruct (IH (set_closed s l)) as [l' ->]. by exists l'.
Qed.

(** [close_cloexec_fds] on a copy. *)
Lemma cloexec_drops_counted es X s : counted ((descriptor <$> es) ++ X) s →
  ∃ ps l, forM (λ e, close_tcp_if_needed (descriptor e);;? drop_descriptor (descriptor e)) es s
      = Ret (Okay tt, set_closed (set_pipes s ps) l) ∧ counted X (set_closed (set_pipes s ps) l).
Proof.
  revert s. induction es as [|e es IH]; intros s Hc; simpl in *.
  { exists (pipes s), (closed_tcp s). by destruct s. }
  destruct (close_tcp_eq (descriptor e) s) as [l Hl].
  destruct (drop_counted _ _ (set_closed s l) Hc) as (ps & H1 & Hc1).
  rewrite (fbind_ok _ _ _ tt (set_pipes (set_closed s l) ps)) by (by rewrite (fbind_ok _ _ _ _ _ Hl)).
  destruct (IH (set_pipes (set_closed s l) ps)) as (ps2 & l2 & H2 & Hc2); [done|]. by exists ps2, l2.
Qed.

Lemma get_table_eq h s t : tables s !! h = Some t → get_table h s = Ret (Okay t, s).
Proof. unfold get_table. by intros ->. Qed.

(** A descriptor that was in use besides the tables is entered. *)
Lemma insert_counted X s h t fd d fl : counted (d :: X) s → tables s !! h = Some t → t !! fd = None →
  counted X (set_tables s (<[h := <[fd := MkFd d fl]> t]> (tables s))).
Proof.
  intros Hc Ht Hfd. eapply counted_perm; [exact Hc|]. rewrite (Permutation_app_comm _ X), (Permutation_app_comm _ (d :: X)).
  simpl. apply (Permutation_app_inv_l (held t)). rewrite (app_comm_cons X), !app_assoc, !(Permutation_app_comm (held t)).
  rewrite <-!app_assoc, owned_update, (held_insert _ fd) by done. simpl. by rewrite !Permutation_middle.
Qed.

Lemma delete_counted X s h t fd e : counted X s → tables s !! h = Some t → t !! fd = Some e →
  counted (descriptor e :: X) (set_tables s (<[h := delete fd t]> (tables s))).
Proof.
  intros Hc Ht Hfd. eapply counted_perm; [exact Hc|]. rewrite <-Permutation_middle, app_comm_cons.
  apply Permutation_app_tail. apply (Permutation_app_inv_l (held (delete fd t))).
  rewrite <-owned_update by done. rewrite (held_delete t fd e) by done. simpl. by rewrite Permutation_middle.
Qed.

Lemma allocate_counted X s h t d : counted (d :: X) s → tables s !! h = Some t →
  Z.of_nat (size t) < 2 ^ 31 - 1 → ∃ fd, allocate h d s =
    Ret (Okay fd, set_tables s (<[h := <[fd := MkFd d 0]> t]> (tables s))) ∧ t !! fd = None ∧
    counted X (set_tables s (<[h := <[fd := MkFd d 0]> t]> (tables s))).
Proof.
  intros Hc Ht Hs. destruct (first_free_returns t 0) as [fd Hfd]; [lia|]. exists fd.
  apply free_fd_spec in Hfd as Hspec; [|done].
  split; [|split; [apply Hspec|by eapply insert_counted; [| |apply Hspec]]].
  unfold allocate. rewrite (fbind_ok _ _ _ _ _ (get_table_eq _ _ _ Ht)).
  rewrite (fbind_ok _ _ _ fd s) by (unfold lift; by rewrite Hfd). done.
Qed.

(** A new pipe, both ends of which are in use. *)
Lemma new_pipe_counted s : counted [] s → ∃ s', new_pipe s = Ret (Okay (next_pipe s), s') ∧ tables s' = tables s ∧
  counted [PipeRead (next_pipe s); PipeWrite (next_pipe s)] s'.
Proof.
  intros [H1 H2]. eexists. split; [reflexivity|]. split; [done|]. set (p := next_pipe s).
  assert (pipes s !! p = None) as Hp.
  { apply eq_None_not_Some. rewrite <-H1. unfold p. lia. }
  split; simpl.
  - intros q. destruct (decide (p = q)) as [<-|Hne]; [rewrite lookup_insert_eq; split; [eauto|unfold p; lia]|].
    rewrite lookup_insert_ne, <-H1 by done. unfold p in *. lia.
  - intros q. rewrite !occ_mid, !app_nil_r. specialize (H2 q). rewrite app_nil_r in H2.
    destruct (decide (p = q)) as [<-|Hne].
    + rewrite Hp in H2. rewrite lookup_insert_eq. simpl. repeat case_decide; simplify_eq; lia.
    + rewrite lookup_insert_ne by done. repeat case_decide; simplify_eq; destruct (pipes s !! q); lia.
Qed.

(** The table of the caller exists and neither the numbers nor the memory of
    the machine are used up. *)
Definition fits (ev : fd_event) (s : Fds) : Prop :=
  in_use s [] < 2 ^ 62 ∧
  match ev with
  | FdOpen h _ => ∃ t, tables s !! h = Some t ∧ Z.of_nat (size t) < 2 ^ 31 - 1
  | FdPipe2 h => ∃ t, tables s !! h = Some t ∧ Z.of_nat (size t) < 2 ^ 31 - 2
  | FdDup h _ min_fd _ => ∃ t, tables s !! h = Some t ∧ min_fd + Z.of_nat (size t) < 2 ^ 31 - 1
  | FdDup3 h _ _ _ | FdClose h _ | FdExit h => is_Some (tables s !! h)
  | FdFork h h' | FdExec h h' => is_Some (tables s !! h) ∧ tables s !! h' = None
  end.

Lemma owned_size m h t : m !! h = Some t → (size t ≤ length (owned m))%nat.
Proof.
  intros H. rewrite (owned_delete m h t) by done. rewrite length_app. unfold held, entries.
  rewrite length_fmap, length_map, length_map_to_list. lia.
Qed.

Lemma held_owned m h t e : m !! h = Some t → e ∈ entries t → descriptor e ∈ owned m.
Proof.
  intros Hm He. unfold entries in He. apply list_elem_of_fmap in He as ([fd e'] & -> & He%elem_of_map_to_list).
  apply elem_of_owned. by exists h, t, fd, e'.
Qed.

Lemma dup_from_counted s h t oldfd min_fd fl : counted [] s → tables s !! h = Some t →
  in_use s [] < 2 ^ 62 → min_fd + Z.of_nat (size t) < 2 ^ 31 - 1 →
  ∃ r s', dup_from h oldfd min_fd fl s = Ret (r, s') ∧ counted [] s'.
Proof.
  intros Hc Ht Hu Hm. unfold dup_from, get_entry. rewrite (fbind_ok _ _ _ _ _ (get_table_eq _ _ _ Ht)).
  destruct (t !! oldfd) as [e|] eqn:He; [|by do 2 eexists]. rewrite (fbind_ok _ _ _ e s eq_refl).
  destruct (clone_counted [] (descriptor e) s) as (ps & H1 & Hc1); [done| |lia|].
  { rewrite app_nil_r. apply elem_of_owned. by exists h, t, oldfd, e. }
  rewrite (fbind_ok _ _ _ _ _ H1). destruct (first_free_returns t min_fd) as [fd Hfd]; [done|].
  rewrite (fbind_ok _ _ _ fd (set_pipes s ps)) by (unfold lift; by rewrite Hfd).
  apply free_fd_spec in Hfd as (_ & Hfree & _); [|lia]. do 2 eexists. split; [reflexivity|].
  by eapply (insert_counted [] (set_pipes s ps)).
Qed.

Lemma dup_to_counted s h t oldfd newfd fl : counted [] s → tables s !! h = Some t → in_use s [] < 2 ^ 62 →
  ∃ r s', dup_to h oldfd newfd fl s = Ret (r, s') ∧ counted [] s'.
Proof.
  intros Hc Ht Hu. unfold dup_to, get_entry. destruct (oldfd =? newfd); [by do 2 eexists|].
  rewrite (fbind_ok _ _ _ _ _ (get_table_eq _ _ _ Ht)).
  destruct (t !! oldfd) as [e|] eqn:He; [|by do 2 eexists]. rewrite (fbind_ok _ _ _ e s eq_refl).
  destruct (clone_counted [] (descriptor e) s) as (ps & H1 & Hc1); [done| |lia|].
  { rewrite app_nil_r. apply elem_of_owned. by exists h, t, oldfd, e. }
  rewrite (fbind_ok _ _ _ _ _ H1). unfold put_table. erewrite (fbind_ok (modify _)) by reflexivity.
  destruct (t !! newfd) as [e'|] eqn:He'; simpl.
  - pose proof (delete_counted _ _ h t newfd e' Hc1 Ht He') as Hc2.
    eapply counted_perm_same in Hc2; [|apply Permutation_swap].
    eapply (insert_counted [descriptor e'] _ h (delete newfd t) newfd _ (from_raw fl)) in Hc2;
      [|simpl; by rewrite lookup_insert_eq|by rewrite lookup_delete_eq].
    simpl in Hc2. rewrite insert_insert_eq in Hc2.
    destruct (drop_counted [] (descriptor e') _ Hc2) as (ps2 & H2 & Hc3).
    rewrite (fbind_ok _ _ _ _ _ H2). by do 2 eexists.
  - rewrite (fbind_ok (ok tt) _ _ tt _ eq_refl). do 2 eexists. split; [reflexivity|].
    rewrite delete_id by done. by eapply (insert_counted [] (set_pipes s ps)).
Qed.

Lemma close_counted s h t fd : counted [] s → tables s !! h = Some t →
  ∃ r s', close h fd s = Ret (r, s') ∧ counted [] s'.
Proof.
  intros Hc Ht. unfold close, get_entry. rewrite (fbind_ok _ _ _ _ _ (get_table_eq _ _ _ Ht)).
  destruct (t !! fd) as [e|] eqn:He; [|by do 2 eexists]. rewrite (fbind_ok _ _ _ e s eq_refl).
  unfold put_table. erewrite (fbind_ok (modify _)) by reflexivity.
  pose proof (delete_counted _ _ h t fd e Hc Ht He) as Hc1.
  destruct (close_tcp_eq (descriptor e) (set_tables s (<[h := delete fd t]> (tables s)))) as [l Hl].
  rewrite (fbind_ok _ _ _ _ _ Hl). destruct (drop_counted [] (descriptor e) _ Hc1) as (ps & H2 & Hc3).
  destruct (drop_counted [] (descriptor e) (set_closed (set_tables s (<[h := delete fd t]> (tables s))) l) Hc1)
    as (ps' & -> & ?). by do 2 eexists.
Qed.

Lemma fork_counted s h h' t : counted [] s → tables s !! h = Some t → tables s !! h' = None → in_use s [] < 2 ^ 62 →
  ∃ r s', fork_table h h' s = Ret (r, s') ∧ counted [] s'.
Proof.
  intros Hc Ht Hh' Hu. unfold fork_table, clone_table. rewrite (fbind_ok _ _ _ _ _ (get_table_eq _ _ _ Ht)).
  pose proof (owned_size _ _ _ Ht) as Hsz. unfold in_use in *. rewrite app_nil_r in Hu.
  destruct (clones_counted (entries t) [] s) as (ps & H1 & Hc1); [done| | |].
  { intros e He. rewrite app_nil_r. by eapply held_owned. }
  { unfold in_use, entries. rewrite app_nil_r, length_map, length_map_to_list. lia. }
  rewrite (fbind_ok _ _ _ _ _ H1). do 2 eexists. split; [reflexivity|].
  eapply (counted_perm _ [] (set_pipes s ps)); [exact Hc1|]. simpl.
  rewrite !app_nil_r, (owned_insert _ h') by done. apply Permutation_app_comm.
Qed.

Lemma close_all_counted s h t : counted [] s → tables s !! h = Some t →
  ∃ r s', close_all h s = Ret (r, s') ∧ counted [] s'.
Proof.
  intros Hc Ht. unfold close_all, drop_entries. rewrite (fbind_ok _ _ _ _ _ (get_table_eq _ _ _ Ht)).
  destruct (close_tcps_eq (entries t) s) as [l Hl]. rewrite (fbind_ok _ _ _ _ _ Hl).
  unfold put_table. erewrite (fbind_ok (modify _)) by reflexivity.
  destruct (drops_counted (entries t) [] (set_tables (set_closed s l) (<[h := ∅]> (tables s)))) as (ps & H2 & ?);
    [|do 2 eexists; split; [exact H2|done]].
  eapply (counted_perm [] _ (set_closed s l)); [done|]. simpl. rewrite !app_nil_r.
  rewrite Permutation_app_comm. by rewrite (owned_update _ h t ∅).
Qed.

Lemma exec_counted s h h' t : counted [] s → tables s !! h = Some t → tables s !! h' = None → in_use s [] < 2 ^ 62 →
  ∃ r s', exec_table h h' s = Ret (r, s') ∧ counted [] s'.
Proof.
  intros Hc Ht Hh' Hu. unfold exec_table, clone_table, drop_entries. rewrite (fbind_ok _ _ _ _ _ (get_table_eq _ _ _ Ht)).
  pose proof (owned_size _ _ _ Ht) as Hsz. unfold in_use in *. rewrite app_nil_r in Hu.
  destruct (clones_counted (entries t) [] s) as (ps & H1 & Hc1); [done| | |].
  { intros e He. rewrite app_nil_r. by eapply held_owned. }
  { unfold in_use, entries. rewrite app_nil_r, length_map, length_map_to_list. lia. }
  rewrite (fbind_ok _ _ _ _ _ H1). rewrite app_nil_r in Hc1. change (descriptor <$> entries t) with (held t) in Hc1.
  eapply counted_perm_same in Hc1; [|apply held_split].
  destruct (cloexec_drops_counted (entries (cloexec_entries t)) _ _ Hc1) as (ps2 & l & H2 & Hc2).
  rewrite (fbind_ok _ _ _ _ _ H2). unfold put_table. do 2 erewrite (fbind_ok (modify _)) by reflexivity.
  assert (h' ≠ h) as Hne by congruence.
  set (s2 := set_closed _ l) in *.
  destruct (drops_counted (entries t) [] (set_tables s2 (delete h (<[h' := kept_entries t]> (tables s))))) as (ps3 & H3 & ?);
    [|do 2 eexists; split; [exact H3|done]].
  eapply (counted_perm _ _ s2 (delete h (<[h' := kept_entries t]> (tables s)))); [exact Hc2|]. simpl. rewrite app_nil_r.
  rewrite delete_insert_ne, (owned_insert _ h') by (try done; by rewrite lookup_delete_ne by done).
  rewrite (owned_delete (tables s) h t) by done. change (descriptor <$> entries t) with (held t).
  rewrite <-app_assoc, Permutation_app_comm. f_equiv. apply Permutation_app_comm.
Qed.

Lemma fd_step_counted ev s : counted [] s → fits ev s → ∃ r s', fd_exec ev s = Ret (r, s') ∧ counted [] s'.
Proof.
  intros Hc [Hu Hf].
  assert (∀ A (m : stM Fds A), (∃ r s', m s = Ret (r, s') ∧ counted [] s') →
    ∃ r s', (m;;? ok tt) s = Ret (r, s') ∧ counted [] s') as Hseq.
  { intros A m (r & s' & Hm & ?). unfold fbind. rewrite Hm. bstep. destruct r; by do 2 eexists. }
  destruct ev as [h d|h|h o m fl|h o n fl|h fd|h h'|h h'|h]; simpl in *.
  - destruct (is_pipe_end d) eqn:Ed; [by do 2 eexists|]. destruct Hf as (t & Ht & Hs). apply Hseq.
    destruct (allocate_counted [] s h t d) as (fd & -> & _ & ?); [by apply counted_other|done..|]. by do 2 eexists.
  - destruct Hf as (t & Ht & Hs). apply Hseq. unfold do_pipe2.
    destruct (new_pipe_counted s Hc) as (s1 & H1 & Htab & Hc1). rewrite (fbind_ok _ _ _ _ _ H1).
    destruct (allocate_counted _ s1 h t _ Hc1) as (r & H2 & Hr & Hc2); [by rewrite Htab|lia|].
    rewrite (fbind_ok _ _ _ _ _ H2).
    destruct (allocate_counted _ _ h (<[r := MkFd (PipeRead (next_pipe s)) 0]> t) _ Hc2) as (w & H3 & _ & Hc3);
      [simpl; apply lookup_insert_eq|rewrite map_size_insert_None by done; lia|].
    rewrite (fbind_ok _ _ _ _ _ H3). by do 2 eexists.
  - destruct Hf as (t & Ht & Hs). apply Hseq. by eapply dup_from_counted.
  - destruct Hf as [t Ht]. apply Hseq. by eapply dup_to_counted.
  - destruct Hf as [t Ht]. by eapply close_counted.
  - destruct Hf as [[t Ht] Hh']. by eapply fork_counted.
  - destruct Hf as [[t Ht] Hh']. by eapply exec_counted.
  - destruct Hf as [t Ht]. by eapply close_all_counted.
Qed.

(** A run of calls that fit the machine. *)
Inductive fd_steps : Fds → Fds → Prop :=
  | fd_steps_refl s : fd_steps s s
  | fd_steps_next s ev r s1 s2 : fits ev s → fd_exec ev s = Ret (r, s1) → fd_steps s1 s2 → fd_steps s s2.

(** Before the first process has made a pipe. *)
Definition fds_start (m : gmap nat FdTable) : Fds := MkFds m ∅ 0 [].

Lemma fds_start_counted m : (∀ d, d ∈ owned m → is_pipe_end d = false) → counted [] (fds_start m).
Proof.
  intros H. split; simpl; [intros p; rewrite lookup_empty; split; [lia|by intros []]|].
  intros p. rewrite lookup_empty, app_nil_r. pose proof (occ_bound (PipeRead p) (owned m)).
  pose proof (occ_bound (PipeWrite p) (owned m)). split.
  - destruct (decide (0 < occ (PipeRead p) (owned m))) as [Hp%occ_pos%H|]; [done|lia].
  - destruct (decide (0 < occ (PipeWrite p) (owned m))) as [Hp%occ_pos%H|]; [done|lia].
Qed.

(** C25: pipe ends are counted exactly. However processes open, duplicate, replace
    and close descriptors, fork, execute programs and exit, no step panics, and in
    every reachable state the counters of every pipe are the numbers of descriptors
    that refer to its two ends; so a reader sees the end of the stream, and a writer
    EPIPE, exactly when no process holds the other end any more. *)
Theorem pipe_ends_counted m s : (∀ d, d ∈ owned m → is_pipe_end d = false) → fd_steps (fds_start m) s →
  (∀ ev, fits ev s → ∃ r s', fd_exec ev s = Ret (r, s')) ∧
  ∀ p pi, pipes s !! p = Some pi →
    (read_closed pi = true ↔ ¬ ∃ h t fd e, tables s !! h = Some t ∧ t !! fd = Some e ∧ descriptor e = PipeRead p) ∧
    (write_closed pi = true ↔ ¬ ∃ h t fd e, tables s !! h = Some t ∧ t !! fd = Some e ∧ descriptor e = PipeWrite p).
Proof.
  intros Hm Hrun. assert (counted [] s) as Hc.
  { remember (fds_start m) as s0 eqn:E. assert (counted [] s0) as H0 by (subst; by apply fds_start_counted).
    clear Hm E. induction Hrun as [|s ev r s1 s2 Hf He _ IH]; [done|]. apply IH.
    destruct (fd_step_counted ev s H0 Hf) as (r' & s' & He' & ?). by rewrite He in He'; simplify_eq. }
  split; [intros ev Hf; destruct (fd_step_counted ev s Hc Hf) as (r & s' & ? & _); eauto|].
  intros p pi Hp. destruct Hc as [_ Hc]. specialize (Hc p). rewrite Hp, app_nil_r in Hc. destruct Hc as [Hr Hw].
  unfold read_closed, write_closed. rewrite !Z.eqb_eq, <-!elem_of_owned, <-!occ_pos, Hr, Hw.
  pose proof (occ_bound (PipeRead p) (owned (tables s))). pose proof (occ_bound (PipeWrite p) (owned (tables s))). lia.
Qed.

(** The number handed out is the least that is free, and only that entry changes. *)
Lemma allocate_least s h t d fd s' : tables s !! h = Some t → allocate h d s = Ret (Okay fd, s') →
  t !! fd = None ∧ (∀ i, 0 ≤ i < fd → is_Some (t !! i)) ∧ tables s' !! h = Some (<[fd := MkFd d 0]> t).
Proof.
  intros Ht. unfold allocate, put_table. rewrite (fbind_ok _ _ _ _ _ (get_table_eq _ _ _ Ht)). intros H. inv_st.
  apply free_fd_spec in Ha as (_ & ? & ?); [|done]. split; [done|]. split; [done|]. by rewrite lookup_insert_eq.
Qed.

(** The largest number as the lower bound of a duplicate panics: its successor is
    computed first. *)
Lemma dupfd_max_panics s h t fd e fl : tables s !! h = Some t → t !! fd = Some e → is_pipe_end (descriptor e) = false →
  dup_from h fd (2 ^ 31 - 1) fl s = Panic.
Proof.
  intros Ht He Hd. unfold dup_from, get_entry. rewrite (fbind_ok _ _ _ _ _ (get_table_eq _ _ _ Ht)), He.
  rewrite (fbind_ok _ _ _ e s eq_refl).
  assert (clone_descriptor (descriptor e) s = Ret (Okay tt, s)) as Hc by by destruct (descriptor e).
  by rewrite (fbind_ok _ _ _ _ _ Hc).
Qed.

(** dup3 accepts a negative number. *)
Lemma dup3_negative s h t fd e : tables s !! h = Some t → t !! fd = Some e → is_pipe_end (descriptor e) = false →
  fd ≠ -5 → t !! (-5) = None → ∃ s', dup_to h fd (-5) 0 s = Ret (Okay (-5), s').
Proof.
  intros Ht He Hd Hne Hn. unfold dup_to, get_entry. rewrite (proj2 (Z.eqb_neq _ _)) by done.
  rewrite (fbind_ok _ _ _ _ _ (get_table_eq _ _ _ Ht)), He, Hn. rewrite (fbind_ok _ _ _ e s eq_refl).
  destruct (descriptor e); try done; by eexists.
Qed.
End theorems.

(** ** Two processes and a pipe *)
#[local] Instance wit_fs : FsHeaders := linux_fs.

Definition fds1 : Fds := fds_start {[1%nat := fd_table_new]}.

Definition run_fd (ev : fd_event) (s : Fds) : Fds := match fd_exec ev s with Ret (_, s) => s | Panic => s end.

(** A shell makes a pipe, forks, and closes its write end; the child keeps its own. *)
Definition fds_pipe : Fds := run_fd (FdPipe2 1) fds1.
Definition fds_fork : Fds := run_fd (FdFork 1 2) fds_pipe.
Definition fds2 : Fds := run_fd (FdClose 1 4) fds_fork.

Lemma fds2_steps : fd_steps fds1 fds2.
Proof.
  apply (fd_steps_next _ (FdPipe2 1) (Okay tt) fds_pipe); [split; [by vm_compute|]|by vm_compute|].
  { exists fd_table_new. split; [done|]. by vm_compute. }
  apply (fd_steps_next _ (FdFork 1 2) (Okay tt) fds_fork); [split; [by vm_compute|]|by vm_compute|].
  { split; [by vm_compute; eexists|by vm_compute]. }
  apply (fd_steps_next _ (FdClose 1 4) (Okay tt) fds2); [split; [by vm_compute|]|by vm_compute|].
  { by vm_compute; eexists. }
  apply fd_steps_refl.
Qed.

Lemma pipe_ends_counted_witness : ∃ pi, pipes fds2 !! 0%nat = Some pi ∧ write_closed pi = false ∧ reader_count pi = 2.
Proof.
  destruct (pipes fds2 !! 0%nat) as [pi|] eqn:Hp; [|by vm_compute in Hp]. exists pi. split; [done|].
  assert (∀ d, d ∈ owned {[1%nat := fd_table_new]} → is_pipe_end d = false) as H0.
  { intros d (h & t & fd & e & [<- <-]%lookup_singleton_Some & He & <-)%elem_of_owned. unfold fd_table_new in He.
    apply lookup_insert_Some in He as [[_ <-]|[_ He]]; [done|].
    apply lookup_insert_Some in He as [[_ <-]|[_ He]]; [done|]. by apply lookup_singleton_Some in He as [_ <-]. }
  destruct (pipe_ends_counted _ _ H0 fds2_steps) as [_ H]. destruct (H 0%nat pi Hp) as [_ Hw]. split.
  - destruct (write_closed pi); [|done]. exfalso. apply (proj1 Hw eq_refl).
    exists 2%nat. by eexists _, 4, _.
  - by vm_compute in Hp; simplify_eq.
Defined.
