(* ===== verification/FsOps.v ===== *)
(** The system calls on files: crates/kernel/src/syscalls/fs_ops.rs, the calls on open
    files of io_ops.rs and linux.rs, and the paths they read from user space
    (helpers.rs).

    A call runs in process [h] on the file system, the descriptor tables, the
    process's memory and working directory. *)
From S2P Require Import Prelude Headers Bytes Parser ResultM Paths Vfs OpenFile FdTable SignalDelivery.

(** Layout of the structures that the generated headers declare. *)
Record stat := MkStat {
  st_ino : Z; st_mode : Z; st_nlink : Z; st_uid : Z; st_gid : Z; st_size : Z; st_blksize : Z;
}.
Record statfs := MkStatfs { f_type : Z; f_bsize : Z; f_namelen : Z; f_frsize : Z }.

Class FsLayout := {
  stat_slice : stat → list Z;
  statx_slice : stat → list Z;
  statfs_slice : statfs → list Z;
  (** [size_of::<linux_dirent64>()] *)
  DIRENT_SIZE : Z;
}.

Record Call {D M : Type} := MkCall {
  c_fs : FS D;
  c_fds : Fds;
  c_mem : M;
  c_cwd : str;
  (** the foreground process group of the console *)
  c_fg : Z;
}.
Arguments Call : clear implicits.
Arguments MkCall {D M}.

(** Reading and writing the other descriptors: the terminal, pipes and TCP streams,
    whose own components model them. *)
Class Streams (D M : Type) := {
  stream_read : FileDescriptor → Z → stM (Call D M) (list Z);
  stream_try_read : FileDescriptor → Z → stM (Call D M) (list Z);
  stream_write : FileDescriptor → list Z → stM (Call D M) Z;
}.

(** They leave the files and the tables of descriptors alone. *)
Definition streams_only {D M A} (m : stM (Call D M) A) : Prop := ∀ c r c', m c = Ret (r, c') →
  c_fs c' = c_fs c ∧ tables (c_fds c') = tables (c_fds c).

Class StreamsLaws (D M : Type) `{Streams D M} : Prop := {
  stream_read_only d n : streams_only (stream_read (D := D) (M := M) d n);
  stream_try_read_only d n : streams_only (stream_try_read (D := D) (M := M) d n);
  stream_write_only d l : streams_only (stream_write (D := D) (M := M) d l);
}.

Section calls.
Context `{FH : FsHeaders} `{FL : FsLayout} {D M : Type} `{DV : Devices D} `{UM : UserMemory M} `{SM : Streams D M}.
(** The process and its group. *)
Variable h : nat.
Variable pgid : Z.
Open Scope stM_scope.

Abbreviation callM := (stM (Call D M)).

Definition on_fs {A} (m : fsM D A) : callM A :=
  zoom c_fs (λ c s, MkCall s (c_fds c) (c_mem c) (c_cwd c) (c_fg c)) m.
Definition on_fds {A} (m : stM Fds A) : callM A :=
  zoom c_fds (λ c s, MkCall (c_fs c) s (c_mem c) (c_cwd c) (c_fg c)) m.

(** ** User memory *)
Definition write_user (addr : Z) (data : list Z) : callM unit := λ c,
  r ← write_userspace_slice (c_mem c) addr data;
  match r with
  | inl e => Ret (Err e, c)
  | inr m => Ret (Okay tt, MkCall (c_fs c) (c_fds c) m (c_cwd c) (c_fg c))
  end.

Definition read_user (addr : Z) (n : nat) : callM (list Z) :=
  reads (λ c, read_userspace_slice (c_mem c) addr n).

Definition read_cstring (addr : Z) : callM str :=
  n ←? lift (d ← sub (2 ^ 64 - 1) addr; add 64 d 1);
  bytes ←? read_user addr (Z.to_nat (Z.min 256 n));
  ok_or (fst (consume_str (cb_new bytes))) EFAULT.

Definition read_path (addr : Z) : callM str :=
  path ←? read_cstring addr;
  cwd ←? gets c_cwd;
  ok (make_absolute cwd path).

(** ** Resolution *)
Definition table_of : callM FdTable := on_fds (get_table h).

Definition resolve (path : str) : callM nat := on_fs (reads (λ s, resolve_path s path)).
Definition relative (base : nat) (base_abs path : str) : callM nat :=
  on_fs (reads (λ s, resolve_relative s base base_abs path)).
Definition parent_of (path : str) : callM (nat * str) := on_fs (reads (λ s, resolve_parent s path)).
Definition lookup_child (n : nat) (name : str) : callM nat := on_fs (reads (λ s, lookup s n name)).
Definition node (n : nat) : callM VfsNode := on_fs (get_node n).
Definition type_of (n : nat) : callM NodeType := v ←? node n; ok (node_type (kind v)).

Definition file_of (fd : Z) : callM nat := t ←? table_of; from (get_vfs_file t fd).

Definition resolve_dirfd_node (dirfd : Z) : callM (nat * str) :=
  f ←? file_of dirfd;
  fl ←? on_fs (get_file f);
  ok (f_node fl, f_abs_path fl).

Definition resolve_openat_base (dirfd : Z) : callM (nat * str) :=
  if dirfd =? AT_FDCWD then
    cwd ←? gets c_cwd;
    n ←? resolve cwd;
    ok (n, cwd)
  else resolve_dirfd_node dirfd.

Definition resolve_path_from_dirfd (dirfd pathname : Z) : callM nat :=
  if dirfd =? AT_FDCWD then path ←? read_path pathname; resolve path
  else
    path ←? read_cstring pathname;
    '(base, base_abs) ←? resolve_dirfd_node dirfd;
    relative base base_abs path.

(** ** openat *)
Definition has (fl f : Z) : bool := negb (Z.land fl f =? 0).

Definition resolve_from (base : nat) (base_abs path : str) : callM nat :=
  if starts_with_slash path then resolve path else relative base base_abs path.

(** Where a new file goes. *)
Definition creation_parent (base : nat) (base_abs path : str) : callM (nat * str) :=
  let trimmed := trim_end_slash path in
  if starts_with_slash trimmed then parent_of trimmed
  else match rfind_slash trimmed with
       | Some i => d ←? relative base base_abs (take i trimmed); ok (d, drop (S i) trimmed)
       | None => ok (base, trimmed)
       end.

Definition open_node (base : nat) (base_abs raw_path : str) (fl : Z) : callM nat :=
  r ←? try (resolve_from base base_abs raw_path);
  match r with
  | inr n =>
      if has fl O_EXCL && has fl O_CREAT then fail EEXIST
      else if has fl O_TRUNC then on_fs (node_truncate n 0);;? ok n
      else ok n
  | inl ENOENT =>
      if has fl O_CREAT then
        '(parent, name) ←? creation_parent base base_abs raw_path;
        on_fs (create parent name File)
      else fail ENOENT
  | inl e => fail e
  end.

Definition do_openat (dirfd pathname fl : Z) : callM Z :=
  raw_path ←? read_cstring pathname;
  let flags_u32 := fl mod 2 ^ 32 in
  '(base_node, base_abs) ←? resolve_openat_base dirfd;
  n ←? open_node base_node base_abs raw_path flags_u32;
  v ←? node n;
  if has flags_u32 O_DIRECTORY && negb (bool_decide (node_type (kind v) = Directory)) then fail ENOTDIR
  else
    descriptor ←?
      match char_device (kind v) with
      | Some d =>
          if is_tty d then
            modify (λ c, MkCall (c_fs c) (c_fds c) (c_mem c) (c_cwd c) pgid);;? ok Tty
          else f ←? on_fs (open n fl (compose_abs base_abs raw_path)); ok (VfsFile f)
      | None => f ←? on_fs (open n fl (compose_abs base_abs raw_path)); ok (VfsFile f)
      end;
    on_fds (allocate h descriptor).

(** ** stat *)
Definition stat_from_node (n : nat) : callM stat :=
  v ←? node n;
  size ←? lift (node_size (kind v));
  ok (MkStat (ino v) (node_mode (kind v)) (node_nlink (kind v)) (node_uid (kind v)) (node_gid (kind v))
        (as_signed size) 4096).

Definition do_fstat (fd statbuf : Z) : callM Z :=
  t ←? table_of;
  e ←? from (get_entry t fd);
  st ←? match descriptor e with
        | VfsFile f => fl ←? on_fs (get_file f); stat_from_node (f_node fl)
        | _ => ok (MkStat 0 (Z.lor S_IFCHR 0x1B6) 1 0 0 0 4096)
        end;
  write_user statbuf (stat_slice st);;?
  ok 0.

Definition resolve_stat_node (dirfd pathname fl : Z) : callM nat :=
  let nofollow := has fl AT_SYMLINK_NOFOLLOW in
  if has fl AT_EMPTY_PATH && (pathname =? 0) then
    f ←? file_of dirfd; fl ←? on_fs (get_file f); ok (f_node fl)
  else if dirfd =? AT_FDCWD then
    path ←? read_path pathname;
    if nofollow then on_fs (reads (λ s, resolve_path_nofollow s path)) else resolve path
  else
    path ←? read_cstring pathname;
    '(base, base_abs) ←? resolve_dirfd_node dirfd;
    if nofollow then
      match rfind_slash path with
      | Some i => p ←? relative base base_abs (take i path); lookup_child p (drop (S i) path)
      | None => lookup_child base path
      end
    else relative base base_abs path.

Definition do_newfstatat (dirfd pathname statbuf fl : Z) : callM Z :=
  n ←? resolve_stat_node dirfd pathname fl;
  st ←? stat_from_node n;
  write_user statbuf (stat_slice st);;? ok 0.

Definition do_statx (dirfd pathname fl statxbuf : Z) : callM Z :=
  n ←? resolve_stat_node dirfd pathname fl;
  st ←? stat_from_node n;
  write_user statxbuf (statx_slice st);;? ok 0.

(** ** getdents64 *)
Definition reclen_of (name : str) : Z :=
  Z.land (DIRENT_SIZE + (Z.of_nat (length name) + 1) + 7) (bitnot 64 7).

Definition d_type_of (t : NodeType) : Z :=
  match t with File => DT_REG | Directory => DT_DIR | Symlink => DT_LNK end.

(** One record, zero padded to its length. *)
Definition dirent_bytes (e : DirEntry) (entry_idx reclen : Z) : list Z :=
  resize0 (le_bytes 8 (e_ino e) ++ le_bytes 8 entry_idx ++ le_bytes 2 (reclen mod 2 ^ 16)
           ++ [d_type_of (e_type e)] ++ e_name e ++ [0]) (Z.to_nat reclen).

(** The loop: records as long as they fit, and the index after the last. *)
Fixpoint dirents (es : list DirEntry) (entry_idx pos count : Z) : list Z * Z :=
  match es with
  | [] => ([], entry_idx)
  | e :: es =>
      let reclen := reclen_of (e_name e) in
      if count <? pos + reclen then ([], entry_idx)
      else
        let '(out, idx) := dirents es (entry_idx + 1) (pos + reclen) count in
        (dirent_bytes e (entry_idx + 1) reclen ++ out, idx)
  end.

(** [vec![0u8; count]] panics when the size exceeds [isize::MAX]. *)
Definition vec_zeroed (count : Z) : outcome nat := if count <? 2 ^ 63 then Ret (Z.to_nat count) else Panic.

Definition do_getdents64 (fd dirp count : Z) : callM Z :=
  f ←? file_of fd;
  d ←? on_fs (is_directory f);
  if negb d then fail ENOTDIR
  else
    fl ←? on_fs (get_file f);
    entries ←? on_fs (reads (λ s, readdir s (f_node fl)));
    lift (vec_zeroed count);;?
    let '(out, entry_idx) := dirents (drop (Z.to_nat (f_offset fl)) entries) (f_offset fl) 0 count in
    on_fs (seek f entry_idx SEEK_SET);;?
    (if bool_decide (out = []) then ok tt else write_user dirp out);;?
    ok (Z.of_nat (length out)).

(** ** Calls on names *)
Definition do_faccessat (dirfd pathname : Z) : callM Z := resolve_path_from_dirfd dirfd pathname;;? ok 0.

Definition do_mkdirat (dirfd pathname : Z) : callM Z :=
  if negb (dirfd =? AT_FDCWD) then fail ENOSYS
  else
    path ←? read_path pathname;
    '(parent, name) ←? parent_of path;
    on_fs (create parent name Directory);;? ok 0.

Definition do_unlinkat (dirfd pathname fl : Z) : callM Z :=
  path ←? read_cstring pathname;
  let path := trim_end_slash path in
  '(parent, name) ←?
    (if dirfd =? AT_FDCWD then abs ←? read_path pathname; parent_of abs
     else match rfind_slash path with
          | Some i =>
              '(base, base_abs) ←? resolve_dirfd_node dirfd;
              p ←? relative base base_abs (take i path);
              ok (p, drop (S i) path)
          | None => '(base, _) ←? resolve_dirfd_node dirfd; ok (base, path)
          end);
  n ←? lookup_child parent name;
  t ←? type_of n;
  (if has fl AT_REMOVEDIR then
     if negb (bool_decide (t = Directory)) then fail ENOTDIR
     else
       es ←? on_fs (reads (λ s, readdir s n));
       if bool_decide (es = []) then ok tt else fail ENOTEMPTY
   else if bool_decide (t = Directory) then fail EISDIR else ok tt);;?
  on_fs (unlink parent name);;? ok 0.

Definition do_getcwd (buf size : Z) : callM Z :=
  cwd ←? gets c_cwd;
  let needed := Z.of_nat (length cwd) + 1 in
  if size <? needed then fail ERANGE
  else write_user buf (cwd ++ [0]);;? ok needed.

Definition chdir (pathname : Z) : callM Z :=
  path ←? read_path pathname;
  n ←? resolve path;
  t ←? type_of n;
  if negb (bool_decide (t = Directory)) then fail ENOTDIR
  else modify (λ c, MkCall (c_fs c) (c_fds c) (c_mem c) path (c_fg c));;? ok 0.

Definition make_statfs_reply : statfs := MkStatfs 0x01021994 4096 255 4096.

Definition do_statfs (pathname buf : Z) : callM Z :=
  path ←? read_path pathname; resolve path;;?
  write_user buf (statfs_slice make_statfs_reply);;? ok 0.

Definition do_fstatfs (fd buf : Z) : callM Z :=
  file_of fd;;? write_user buf (statfs_slice make_statfs_reply);;? ok 0.

Definition do_truncate (pathname len : Z) : callM Z :=
  if len <? 0 then fail EINVAL
  else
    path ←? read_path pathname;
    n ←? resolve path;
    on_fs (node_truncate n len);;? ok 0.

Definition do_ftruncate (fd len : Z) : callM Z :=
  if len <? 0 then fail EINVAL
  else
    f ←? file_of fd;
    fl ←? on_fs (get_file f);
    on_fs (node_truncate (f_node fl) len);;? ok 0.

(** The permission bits of [mode] over the type bits of [current]. *)
Definition chmod_bits (current md : Z) : Z := Z.lor (Z.land current (bitnot 32 0xFFF)) (Z.land md 0xFFF).

Definition chmod_node (n : nat) (md : Z) : callM Z :=
  v ←? node n;
  on_fs (set_mode n (chmod_bits (node_mode (kind v)) md));;? ok 0.

Definition chown_node (n : nat) (u g : Z) : callM Z :=
  v ←? node n;
  on_fs (set_owner n (if u =? 2 ^ 32 - 1 then node_uid (kind v) else u)
                     (if g =? 2 ^ 32 - 1 then node_gid (kind v) else g));;? ok 0.

Definition do_fchmod (fd md : Z) : callM Z :=
  f ←? file_of fd; fl ←? on_fs (get_file f); chmod_node (f_node fl) md.
Definition do_fchmodat (dirfd pathname md : Z) : callM Z :=
  n ←? resolve_path_from_dirfd dirfd pathname; chmod_node n md.
Definition do_fchown (fd u g : Z) : callM Z :=
  f ←? file_of fd; fl ←? on_fs (get_file f); chown_node (f_node fl) u g.
Definition do_fchownat (dirfd pathname u g : Z) : callM Z :=
  n ←? resolve_path_from_dirfd dirfd pathname; chown_node n u g.

Definition do_readlinkat (pathname buf bufsiz : Z) : callM Z :=
  path ←? read_path pathname;
  n ←? on_fs (reads (λ s, resolve_path_nofollow s path));
  v ←? node n;
  target ←? from (readlink (kind v));
  let bytes := take (Z.to_nat bufsiz) target in
  write_user buf bytes;;? ok (Z.of_nat (length bytes)).

Definition do_symlinkat (target linkpath : Z) : callM Z :=
  target_str ←? read_cstring target;
  link_path ←? read_path linkpath;
  '(parent, name) ←? parent_of link_path;
  symlink ←? on_fs (new_node (TmpfsSymlink target_str));
  on_fs (link parent name symlink);;? ok 0.

Definition do_linkat (oldpath newpath : Z) : callM Z :=
  old_path ←? read_path oldpath;
  target_node ←? resolve old_path;
  t ←? type_of target_node;
  if bool_decide (t = Directory) then fail EPERM
  else
    new_path ←? read_path newpath;
    '(new_parent, new_name) ←? parent_of new_path;
    on_fs (link new_parent new_name target_node);;?
    on_fs (inc_nlink target_node);;? ok 0.

(** What [do_renameat2] does to the tree, once both parents are resolved. *)
Definition rename_entries (old_parent : nat) (old_name : str) (new_parent : nat) (new_name : str) : fsM D unit :=
  n ←? remove_child old_parent old_name;
  try (remove_child new_parent new_name);;?
  link new_parent new_name n.

Definition do_renameat2 (oldpath newpath fl : Z) : callM Z :=
  old_path_str ←? read_path oldpath;
  new_path_str ←? read_path newpath;
  '(old_parent, old_name) ←? parent_of old_path_str;
  '(new_parent, new_name) ←? parent_of new_path_str;
  there ←? try (lookup_child new_parent new_name);
  if has fl 1 && (match there with inr _ => true | inl _ => false end) then fail EEXIST
  else on_fs (rename_entries old_parent old_name new_parent new_name);;? ok 0.

(** ** Calls on open files *)
Definition lseek (fd offset whence : Z) : callM Z := f ←? file_of fd; on_fs (seek f offset whence).

(** [FileDescriptor::read] of a [VfsFile]. *)
Definition read_vfs_file (f : nat) (count : Z) : fsM D (list Z) :=
  fl ←? get_file f;
  v ←? get_node (f_node fl);
  len ←? lift (vec_zeroed count);
  match block_device (kind v) with
  | Some d =>
      data ←? device (λ st, block_read st d (f_offset fl) len);
      advance_offset f (Z.of_nat (length data));;? ok data
  | None => file_read f len
  end.

Definition write_vfs_file (f : nat) (data : list Z) : fsM D Z :=
  fl ←? get_file f;
  v ←? get_node (f_node fl);
  match block_device (kind v) with
  | Some d =>
      offset ←? effective_write_offset f;
      n ←? device (λ st, block_write st d offset data);
      advance_offset f n;;? ok n
  | None => file_write f data
  end.

(** [FileDescriptor::read], [try_read] and [write]. *)
Definition descriptor_read (d : FileDescriptor) (count : Z) : callM (list Z) :=
  match d with
  | VfsFile f => on_fs (read_vfs_file f count)
  | Tty | PipeRead _ | TcpStream _ => stream_read d count
  | _ => fail EBADF
  end.

Definition try_read (d : FileDescriptor) (count : Z) : callM (list Z) :=
  match d with
  | VfsFile f => len ←? lift (vec_zeroed count); on_fs (file_read f len)
  | Tty | PipeRead _ | TcpStream _ => stream_try_read d count
  | _ => fail EBADF
  end.

Definition descriptor_write (d : FileDescriptor) (data : list Z) : callM Z :=
  match d with
  | VfsFile f => on_fs (write_vfs_file f data)
  | Tty | PipeWrite _ | TcpStream _ => stream_write d data
  | _ => fail EBADF
  end.

Definition entry_of (fd : Z) : callM FdEntry := t ←? table_of; from (get_entry t fd).

(** The read of [do_read] and [do_readv]. *)
Definition read_entry (e : FdEntry) (count : Z) : callM (list Z) :=
  if is_nonblocking (flags e) then try_read (descriptor e) count else descriptor_read (descriptor e) count.

Definition do_read (fd buf count : Z) : callM Z :=
  e ←? entry_of fd;
  data ←? read_entry e count;
  lift (rassert (Z.of_nat (length data) <=? count));;?
  write_user buf data;;? ok (Z.of_nat (length data)).

Definition do_write (fd buf count : Z) : callM Z :=
  e ←? entry_of fd;
  data ←? read_user buf (Z.to_nat count);
  descriptor_write (descriptor e) data;;? ok count.

(** The buffers of an array of [iovec]: address and length. *)
Fixpoint iovecs (n : nat) (bytes : list Z) : list (Z * Z) :=
  match n with
  | O => []
  | S n => (le_combine (take 8 bytes), le_combine (take 8 (drop 8 bytes))) :: iovecs n (drop 16 bytes)
  end.

Definition read_iov (iov iovcnt : Z) : callM (list (Z * Z)) :=
  if iovcnt <? 0 then fail EINVAL
  else
    bytes ←? read_user iov (16 * Z.to_nat iovcnt);
    ok (filter (λ io, io.2 ≠ 0) (iovecs (Z.to_nat iovcnt) bytes)).

Fixpoint readv_loop (e : FdEntry) (buffers : list (Z * Z)) (total : Z) : callM Z :=
  match buffers with
  | [] => ok total
  | (base, count) :: buffers =>
      data ←? read_entry e count;
      write_user base data;;?
      total ←? lift (if total + Z.of_nat (length data) <? 2 ^ 63 then Ret (total + Z.of_nat (length data)) else Panic);
      if Z.of_nat (length data) <? count then ok total else readv_loop e buffers total
  end.

Definition do_readv (fd iov iovcnt : Z) : callM Z :=
  e ←? entry_of fd;
  buffers ←? read_iov iov iovcnt;
  readv_loop e buffers 0.

Fixpoint gather (buffers : list (Z * Z)) : callM (list Z) :=
  match buffers with
  | [] => ok []
  | (base, len) :: buffers =>
      buf ←? read_user base (Z.to_nat len);
      data ←? gather buffers;
      ok (buf ++ data)
  end.

Definition do_writev (fd iov iovcnt : Z) : callM Z :=
  e ←? entry_of fd;
  buffers ←? read_iov iov iovcnt;
  data ←? gather buffers;
  descriptor_write (descriptor e) data;;? ok (Z.of_nat (length data)).

Definition do_pread64 (fd buf count offset : Z) : callM Z :=
  if offset <? 0 then fail EINVAL
  else
    f ←? file_of fd;
    len ←? lift (vec_zeroed count);
    data ←? on_fs (file_pread f offset len);
    write_user buf data;;? ok (Z.of_nat (length data)).

Definition do_pwrite64 (fd buf count offset : Z) : callM Z :=
  if offset <? 0 then fail EINVAL
  else
    f ←? file_of fd;
    data ←? read_user buf (Z.to_nat count);
    on_fs (file_pwrite f offset data).

(** The loops of [do_sendfile], with an offset of its own ([Some]) or at the file's
    offset; [left] is what is still to copy. Every turn copies a byte or more, so
    [left] turns are enough. *)
Definition sendfile_read (f : nat) (off : option Z) (chunk : nat) : fsM D (list Z) :=
  match off with Some o => file_pread f o chunk | None => file_read f chunk end.

Definition advance (off : option Z) (n : Z) : outcome (option Z) :=
  match off with
  | Some o => if o + n <? 2 ^ 63 then Ret (Some (o + n)) else Panic
  | None => Ret None
  end.

Fixpoint sendfile_loop (fuel : nat) (out : FileDescriptor) (f : nat) (buf_size left : Z) (off : option Z) (total : Z) :
  callM (Z * option Z) :=
  if left <=? 0 then ok (total, off)
  else match fuel with
       | O => lift Panic
       | S fuel =>
           data ←? on_fs (sendfile_read f off (Z.to_nat (Z.min left buf_size)));
           if bool_decide (data = []) then ok (total, off)
           else
             let n := Z.of_nat (length data) in
             descriptor_write out data;;?
             off ←? lift (advance off n);
             sendfile_loop fuel out f buf_size (left - n) off (total + n)
       end.

Definition do_sendfile (out_fd in_fd offset count : Z) : callM Z :=
  f ←? file_of in_fd;
  e ←? entry_of out_fd;
  let buf_size := Z.min count 4096 in
  if offset =? 0 then
    '(total, _) ←? sendfile_loop (Z.to_nat count) (descriptor e) f buf_size count None 0;
    ok total
  else
    bytes ←? read_user offset 8;
    let off := as_signed (le_combine bytes) in
    if off <? 0 then fail EINVAL
    else
      '(total, off) ←? sendfile_loop (Z.to_nat count) (descriptor e) f buf_size count (Some off) 0;
      write_user offset (le_bytes 8 (default 0 off));;?
      ok total.

(** ** fcntl *)
Definition try_i32 (x : Z) : callM Z := if x <? 2 ^ 31 then ok x else fail EINVAL.

Definition change_flags (fd : Z) (f : Z → Z) : callM Z :=
  t ←? table_of;
  cur ←? from (get_flags t fd);
  t' ←? from (set_flags t fd (f cur));
  on_fds (put_table h t');;? ok 0.

Definition do_fcntl (fd cmd arg F_GETFL F_SETFL : Z) : callM Z :=
  if cmd =? 0 then m ←? try_i32 arg; on_fds (dup_from h fd m 0)
  else if cmd =? 1030 then m ←? try_i32 arg; on_fds (dup_from h fd m (from_raw O_CLOEXEC))
  else if cmd =? 1 then
    t ←? table_of; fl ←? from (get_flags t fd); ok (if is_cloexec fl then 1 else 0)
  else if cmd =? 2 then
    raw ←? try_i32 arg;
    change_flags fd (λ cur, from_raw (if has raw 1 then Z.lor cur O_CLOEXEC else Z.ldiff cur O_CLOEXEC))
  else if cmd =? F_GETFL then t ←? table_of; fl ←? from (get_flags t fd); ok fl
  else if cmd =? F_SETFL then raw ←? try_i32 arg; change_flags fd (λ _, from_raw raw)
  else fail EINVAL.
End calls.
