(* ===== verification/FsTheorems.v ===== *)
(** Theorems on the file system calls: every call keeps the tree and the open files
    well formed, what rename does, and how it goes wrong. *)
From S2P Require Import Prelude Headers Bytes Parser ResultM Paths Vfs VfsTheorems OpenFile FdTable FdTheorems SignalDelivery FsOps.

(** ** What the operations leave alone *)
Section frames.
Context `{FH : FsHeaders} {D : Type} `{DV : Devices D}.

(** The mount table stays, and open files stay open. *)
Definition frame (s s' : FS D) : Prop :=
  MOUNT_TABLE s' = MOUNT_TABLE s ∧ ∀ f, is_Some (files s !! f) → is_Some (files s' !! f).

Definition frames {A} (m : fsM D A) : Prop := ∀ s r s', m s = Ret (r, s') → frame s s'.

Lemma frame_refl s : frame s s.
Proof. done. Qed.
Lemma frame_trans s1 s2 s3 : frame s1 s2 → frame s2 s3 → frame s1 s3.
Proof. intros [H1 H2] [H3 H4]. split; [congruence|auto]. Qed.

Lemma frames_fbind {A B} (m : fsM D A) (k : A → fsM D B) : frames m → (∀ a, frames (k a)) → frames (fbind m k).
Proof.
  intros Hm Hk s r s' (r1 & s1 & H1 & H2)%fbind_Ret. apply Hm in H1. destruct r1 as [e|a].
  - by destruct H2 as [_ ->].
  - apply Hk in H2. by eapply frame_trans.
Qed.
Lemma frames_ok {A} (a : A) : frames (ok a).
Proof. intros s r s' H. by inv_st. Qed.
Lemma frames_fail {A} e : frames (@fail (FS D) A e).
Proof. intros s r s' H. by inv_st. Qed.
Lemma frames_lift {A} (o : outcome A) : frames (lift o).
Proof. intros s r s' H. by inv_st. Qed.
Lemma frames_from {A} (x : result A) : frames (from x).
Proof. intros s r s' H. by inv_st. Qed.
Lemma frames_try {A} (m : fsM D A) : frames m → frames (try m).
Proof. intros Hm s r s' H. inv_st. by eapply Hm. Qed.
Lemma frames_get_node n : frames (get_node n).
Proof. intros s r s' H. by inv_fs. Qed.
Lemma frames_set_kind n k : frames (set_kind n k).
Proof. intros s r s' H. by inv_fs. Qed.
Lemma frames_new_node k : frames (new_node k).
Proof. by intros s r s' [= <- <-]. Qed.
Lemma frames_device {A} (f : D → D * result A) : frames (device f).
Proof. intros s r s' H. by inv_fs. Qed.
Lemma frames_get_file f : frames (get_file f).
Proof. intros s r s' H. unfold get_file in H. by apply bind_Ret in H as (? & _ & [= <- <-]). Qed.
Lemma frames_set_offset f o : frames (set_offset f o).
Proof.
  apply frames_fbind; [apply frames_get_file|]. intros fl s r s' H. inv_st. split; [done|].
  intros g Hg. simpl. destruct (decide (f = g)) as [<-|]; [by rewrite lookup_insert_eq|by rewrite lookup_insert_ne].
Qed.

Lemma frames_if {A} (c : bool) (m1 m2 : fsM D A) : frames m1 → frames m2 → frames (if c then m1 else m2).
Proof. by destruct c. Qed.
End frames.

Ltac frames_tac :=
  repeat first
    [ apply frames_ok | apply frames_fail | apply frames_lift | apply frames_from | apply frames_get_node
    | apply frames_set_kind | apply frames_new_node | apply frames_device | apply frames_get_file
    | apply frames_set_offset | apply frames_try | apply frames_if
    | apply frames_fbind; [|intros ?]
    | match goal with |- frames (match ?x with _ => _ end) => destruct x end ].

Section ops_frame.
Context `{FH : FsHeaders} {D : Type} `{DV : Devices D}.

Lemma read_events_frames n d : frames (D := D) (read_events n d).
Proof. induction n as [|n IH]; simpl; frames_tac; auto. Qed.
Lemma node_read_frames n o l : frames (D := D) (node_read n o l).
Proof. unfold node_read. frames_tac. apply read_events_frames. Qed.
Lemma node_write_frames n o d : frames (D := D) (node_write n o d).
Proof. unfold node_write. frames_tac. Qed.
Lemma node_truncate_frames n l : frames (D := D) (node_truncate n l).
Proof. unfold node_truncate. frames_tac. Qed.
Lemma set_mode_frames n md : frames (D := D) (set_mode n md).
Proof. unfold set_mode. frames_tac. Qed.
Lemma set_owner_frames n u g : frames (D := D) (set_owner n u g).
Proof. unfold set_owner. frames_tac. Qed.
Lemma inc_nlink_frames n : frames (D := D) (inc_nlink n).
Proof. unfold inc_nlink. frames_tac. Qed.
Lemma create_frames n name t : frames (D := D) (create n name t).
Proof. unfold create. frames_tac. Qed.
Lemma unlink_frames n name : frames (D := D) (unlink n name).
Proof. unfold unlink. frames_tac. Qed.
Lemma link_frames n name f : frames (D := D) (link n name f).
Proof. unfold link. frames_tac. Qed.
Lemma remove_child_frames n name : frames (D := D) (remove_child n name).
Proof. unfold remove_child. frames_tac. Qed.
Lemma advance_offset_frames f n : frames (D := D) (advance_offset f n).
Proof. unfold advance_offset. frames_tac. Qed.
Lemma seek_frames f o w : frames (D := D) (seek f o w).
Proof. unfold seek. frames_tac. Qed.
Lemma file_read_frames f l : frames (D := D) (file_read f l).
Proof. unfold file_read. frames_tac; apply read_events_frames. Qed.
Lemma effective_write_offset_frames f : frames (D := D) (effective_write_offset f).
Proof. unfold effective_write_offset. frames_tac. Qed.
Lemma file_write_frames f d : frames (D := D) (file_write f d).
Proof.
  unfold file_write. frames_tac.
Qed.
Lemma read_vfs_file_frames f n : frames (D := D) (read_vfs_file f n).
Proof. unfold read_vfs_file. frames_tac; apply read_events_frames. Qed.
Lemma write_vfs_file_frames f d : frames (D := D) (write_vfs_file f d).
Proof.
  unfold write_vfs_file. frames_tac.
Qed.
End ops_frame.

(** ** Well-formed system state *)
Section calls_wf.
Context `{FH : FsHeaders} `{FL : FsLayout} {D M : Type} `{DV : Devices D} `{UM : UserMemory M} `{SM : Streams D M}.
Context `{SL : !StreamsLaws D M}.
Variable h : nat.
Variable pgid : Z.
Open Scope stM_scope.
Abbreviation callM := (stM (Call D M)).
Implicit Types c : Call D M.
Implicit Types X F : gset nat.

(** The tree is well formed, every open file refers to a node of it, and every file
    descriptor to an open file. *)
Definition call_ok c : Prop :=
  fs_ok (c_fs c) ∧
  ∀ h t fd e f, tables (c_fds c) !! h = Some t → t !! fd = Some e → descriptor e = VfsFile f →
    is_Some (files (c_fs c) !! f).

(** With the nodes [X] and the open files [F] in use. *)
Definition uses X F c : Prop :=
  call_ok c ∧ (∀ n, n ∈ X → is_Some (nodes (c_fs c) !! n)) ∧ (∀ f, f ∈ F → is_Some (files (c_fs c) !! f)).

Lemma uses_node X F n c : uses X F c → is_Some (nodes (c_fs c) !! n) → uses ({[n]} ∪ X) F c.
Proof. intros (H1 & H2 & H3) Hn. split; [done|]. split; [|done]. set_solver. Qed.
Lemma uses_file X F f c : uses X F c → is_Some (files (c_fs c) !! f) → uses X ({[f]} ∪ F) c.
Proof. intros (H1 & H2 & H3) Hn. split; [done|]. split; [done|]. set_solver. Qed.
Lemma uses_mono X X' F F' c : X ⊆ X' → F ⊆ F' → uses X' F' c → uses X F c.
Proof. intros HX HF (H1 & H2 & H3). split; [done|]. set_solver. Qed.

Lemma uses_fs X F c s : uses X F c → live X s → frame (c_fs c) s →
  uses X F (MkCall s (c_fds c) (c_mem c) (c_cwd c) (c_fg c)).
Proof.
  intros ([[Hwf Hr] Hd] & HX & HF) [Hwf' HX'] [Hm Hf]. split; [split; [split; [done|]|]|split; [done|]]; simpl.
  - unfold rooted in *. by rewrite Hm.
  - intros. apply Hf. by eapply Hd.
  - intros f Hf'. by apply Hf, HF.
Qed.

Lemma uses_live X F c : uses X F c → live X (c_fs c).
Proof. intros ([[H _] _] & HX & _). by split. Qed.

Lemma zoom_Ret {S T A} (get : S → T) put (m : stM T A) s r s' : zoom get put m s = Ret (r, s') →
  ∃ t, m (get s) = Ret (r, t) ∧ s' = put s t.
Proof. unfold zoom. intros ([r1 t] & H & [= <- <-])%bind_Ret. by exists t. Qed.

Lemma on_fs_keeps {A} X F (m : fsM D A) : keeps (live X) m → frames m → keeps (uses X F) (on_fs (M := M) m).
Proof.
  intros Hm Hf c r c' Hc (s & H & ->)%zoom_Ret. apply uses_fs; [done| |by eapply Hf].
  eapply Hm; [by eapply uses_live|done].
Qed.

(** A call that finds a node, and what follows. *)
Definition finds {A} (m : callM A) (n : A → nat) : Prop :=
  ∀ X F c r c', uses X F c → m c = Ret (r, c') → uses X F c' ∧
    match r with inr a => is_Some (nodes (c_fs c') !! n a) | inl _ => True end.

Lemma keeps_finds {A B} X F (m : callM A) (n : A → nat) (k : A → callM B) : finds m n →
  (∀ a, keeps (uses ({[n a]} ∪ X) F) (k a)) → keeps (uses X F) (fbind m k).
Proof.
  intros Hm Hk c r c' Hc (r1 & c1 & H1 & H2)%fbind_Ret. destruct (Hm X F c r1 c1 Hc H1) as [Hc1 Hr].
  destruct r1 as [e|a]; [by destruct H2 as [_ ->]|].
  eapply uses_mono; [| |eapply Hk; [by apply uses_node|exact H2]]; set_solver.
Qed.

Lemma finds_keeps {A} X F (m : callM A) n : finds m n → keeps (uses X F) m.
Proof. intros Hm c r c' Hc H. by eapply Hm. Qed.

Lemma finds_fbind {A B} (m : callM A) (k : A → callM B) (n : B → nat) :
  (∀ X F, keeps (uses X F) m) → (∀ a, finds (k a) n) → finds (fbind m k) n.
Proof.
  intros Hm Hk X F c r c' Hc (r1 & c1 & H1 & H2)%fbind_Ret. apply (Hm X F) in H1; [|done].
  destruct r1 as [e|a]; [by destruct H2 as [-> ->]|]. by eapply Hk.
Qed.

Lemma finds_fail {A} e (n : A → nat) : finds (fail e) n.
Proof. intros X F c r c' Hc H. by inv_st. Qed.

(** The node that a search has found, with something else. *)
Lemma finds_pair {A B} (m : callM A) (n : A → nat) (g : A → B) (n' : B → nat) :
  finds m n → (∀ a, n' (g a) = n a) → finds (fbind m (λ a, ok (g a))) n'.
Proof.
  intros Hm Hn X F c r c' Hc (r1 & c1 & H1 & H2)%fbind_Ret. destruct (Hm X F c r1 c1 Hc H1) as [Hc1 Hr].
  destruct r1 as [e|a]; [by destruct H2 as [-> ->]|]. inv_st. by rewrite Hn.
Qed.

(** ** Resolution finds nodes *)
Lemma reads_finds {A} (f : FS D → outcome (result A)) (n : A → nat) :
  (∀ s r, fs_ok s → f s = Ret r → match r with inr a => is_Some (nodes s !! n a) | inl _ => True end) →
  finds (on_fs (reads f)) n.
Proof.
  intros Hf X F c r c' Hc (s & H & ->)%zoom_Ret. inv_st. pose proof Hc as [[Hok _] _].
  split; [by destruct c|]. simpl. by eapply Hf.
Qed.

Lemma resolve_finds path : finds (resolve path) id.
Proof.
  apply reads_finds. intros s r Hok H. destruct (resolve_depth_resolved resolve_fuel s path 0) as (r' & H' & Hr); [done..|].
  unfold resolve_path in H. rewrite H in H'. simplify_eq. by destruct r'.
Qed.

Lemma parent_finds path : finds (parent_of path) fst.
Proof.
  apply reads_finds. intros s r Hok. unfold resolve_parent. case_bool_decide; [by intros; simplify_eq|].
  destruct (rfind_slash _) as [i|]; [|by intros; simplify_eq]. case_bool_decide; [by intros; simplify_eq|].
  intros (r1 & H1 & [= <-])%bind_Ret.
  destruct (resolve_depth_resolved resolve_fuel s (if bool_decide (i = 0%nat) then [slash] else take i (trim_end_slash path)) 0)
    as (r' & H' & Hr); [done..|].
  unfold resolve_path in H1. rewrite H1 in H'. simplify_eq. by destruct r'.
Qed.

Lemma lookup_child_finds n name : finds (lookup_child n name) id.
Proof.
  apply reads_finds. intros s r Hok H. unfold lookup in H. apply bind_Ret in H as (v & Hv%expect_Ret & [= <-]).
  destruct (entries_of (kind v)) as [cs|] eqn:Ec; [|done]. destruct (cs !! name) eqn:En; [|done].
  by eapply (wf_closed s (proj1 Hok)).
Qed.

(** A walk from a node that exists. *)
Lemma relative_finds X F base base_abs path c r c' : base ∈ X → uses X F c → relative base base_abs path c = Ret (r, c') →
  uses X F c' ∧ match r with inr n => is_Some (nodes (c_fs c') !! n) | inl _ => True end.
Proof.
  intros Hb Hc (s & H & ->)%zoom_Ret. inv_st. pose proof Hc as [[Hok _] [HX _]]. split; [by destruct c|]. simpl.
  destruct (walk_resolved (resolve_path_with_depth resolve_fuel (c_fs c)) (c_fs c) (split_slash path) base base_abs 0)
    as (r' & H' & Hr); [done|by apply HX| |done|].
  { intros p d Hd. apply resolve_depth_resolved; [done|lia|]. unfold resolve_fuel. lia. }
  unfold resolve_relative in H. rewrite H in H'. simplify_eq. by destruct r'.
Qed.

Lemma relative_keeps X F base base_abs path : base ∈ X → keeps (uses X F) (relative (M := M) base base_abs path).
Proof. intros Hb c r c' Hc H. by eapply relative_finds. Qed.

(** After a walk from a node in use. *)
Lemma keeps_relative {B} X F base base_abs path (k : nat → callM B) : base ∈ X →
  (∀ n, keeps (uses ({[n]} ∪ X) F) (k n)) → keeps (uses X F) (fbind (relative base base_abs path) k).
Proof.
  intros Hb Hk c r c' Hc (r1 & c1 & H1 & H2)%fbind_Ret. destruct (relative_finds X F _ _ _ _ _ _ Hb Hc H1) as [Hc1 Hr].
  destruct r1 as [e|a]; [by destruct H2 as [_ ->]|].
  eapply uses_mono; [| |eapply Hk; [by apply uses_node|exact H2]]; set_solver.
Qed.

(** ** The pieces of the calls *)
Lemma write_user_keeps X F a d : keeps (uses X F) (write_user (D := D) (M := M) a d).
Proof.
  intros c r c' Hc. unfold write_user. intros (x & _ & H)%bind_Ret. by destruct x; simplify_eq.
Qed.
Lemma read_user_keeps X F a n : keeps (uses X F) (read_user (D := D) (M := M) a n).
Proof. apply keeps_reads. Qed.
Lemma read_cstring_keeps X F a : keeps (uses X F) (read_cstring (D := D) (M := M) a).
Proof. unfold read_cstring, read_user. repeat keeps_step. Qed.
Lemma read_path_keeps X F a : keeps (uses X F) (read_path (D := D) (M := M) a).
Proof. unfold read_path. apply keeps_fbind; [apply read_cstring_keeps|]. intros p. repeat keeps_step. Qed.

Lemma table_of_Ret c r c' : table_of h c = Ret (r, c') → c' = c ∧ ∃ t, tables (c_fds c) !! h = Some t ∧ r = Okay t.
Proof.
  intros (s & H & ->)%zoom_Ret. unfold get_table in H. apply bind_Ret in H as (t & Ht%expect_Ret & [= <- <-]).
  split; [by destruct c|eauto].
Qed.
Lemma table_of_keeps X F : keeps (uses X F) (table_of (D := D) (M := M) h).
Proof. by intros c r c' Hc [-> _]%table_of_Ret. Qed.

Lemma file_of_Ret fd c r c' : call_ok c → file_of h fd c = Ret (r, c') →
  c' = c ∧ match r with inr f => is_Some (files (c_fs c) !! f) | inl _ => True end.
Proof.
  intros [_ Hd] (r1 & c1 & [-> (t & Ht & ->)]%table_of_Ret & H2)%fbind_Ret. injection H2 as <- <-. split; [done|].
  unfold get_vfs_file. destruct (t !! fd) as [[d fl]|] eqn:E; [|done]. destruct d; try done. by eapply Hd.
Qed.
Lemma file_of_keeps X F fd : keeps (uses X F) (file_of (D := D) (M := M) h fd).
Proof. by intros c r c' Hc [-> _]%file_of_Ret; [|apply Hc]. Qed.

Lemma get_file_Ret f (s : FS D) r s' : get_file f s = Ret (r, s') → ∃ fl, files s !! f = Some fl ∧ r = Okay fl ∧ s' = s.
Proof. unfold get_file. intros (fl & Hf%expect_Ret & [= <- <-])%bind_Ret. by exists fl. Qed.

Lemma open_file_finds f : finds (on_fs (get_file f)) f_node.
Proof.
  intros X F c r c' Hc (s & (fl & Hf & -> & ->)%get_file_Ret & ->)%zoom_Ret. split; [by destruct c|]. simpl.
  eapply wf_files; [apply Hc|done].
Qed.

Lemma dirfd_finds fd : finds (resolve_dirfd_node h fd) fst.
Proof.
  unfold resolve_dirfd_node. apply finds_fbind; [intros; apply file_of_keeps|]. intros f.
  apply (finds_pair _ f_node); [apply open_file_finds|done].
Qed.

Lemma base_finds fd : finds (resolve_openat_base h fd) fst.
Proof.
  unfold resolve_openat_base. destruct (_ =? _); [|apply dirfd_finds].
  apply finds_fbind; [intros; apply keeps_gets|]. intros cwd. apply (finds_pair _ id); [apply resolve_finds|done].
Qed.

(** A search that goes on from a node found before. *)
Lemma finds_finds {A B} (m : callM A) (n : A → nat) (k : A → callM B) (n' : B → nat) : finds m n →
  (∀ a X F c r c', uses ({[n a]} ∪ X) F c → k a c = Ret (r, c') → uses ({[n a]} ∪ X) F c' ∧
    match r with inr b => is_Some (nodes (c_fs c') !! n' b) | inl _ => True end) → finds (fbind m k) n'.
Proof.
  intros Hm Hk X F c r c' Hc (r1 & c1 & H1 & H2)%fbind_Ret. destruct (Hm X F c r1 c1 Hc H1) as [Hc1 Hr].
  destruct r1 as [e|a]; [by destruct H2 as [-> ->]|].
  destruct (Hk a X F c1 r c') as [Hc2 Hr2]; [by apply uses_node|done|]. split; [|done].
  eapply uses_mono; [| |exact Hc2]; set_solver.
Qed.

Lemma from_dirfd_finds fd a : finds (resolve_path_from_dirfd h fd a) id.
Proof.
  unfold resolve_path_from_dirfd. destruct (_ =? _).
  - apply finds_fbind; [intros; apply read_path_keeps|]. intros p. apply resolve_finds.
  - apply finds_fbind; [intros; apply read_cstring_keeps|]. intros p. apply (finds_finds _ fst); [apply dirfd_finds|].
    intros [base abs] X F c r c' Hc H. eapply relative_finds; [|exact Hc|exact H]. set_solver.
Qed.

Lemma node_keeps X F n : keeps (uses X F) (node (D := D) (M := M) n).
Proof.
  intros c r c' Hc (s & H & ->)%zoom_Ret. inv_fs. by destruct c.
Qed.
Lemma type_of_keeps X F n : keeps (uses X F) (type_of (D := D) (M := M) n).
Proof. unfold type_of. apply keeps_fbind; [apply node_keeps|]. intros v. apply keeps_ok. Qed.

(** Changes of the tree, as part of a call. *)
Lemma create_finds n name t : finds (on_fs (create n name t)) id.
Proof.
  intros X F c r c' Hc (s & H & ->)%zoom_Ret. apply (create_keeps X) in H as Hk; [|by eapply uses_live].
  destruct Hk as [Hl Hr]. split; [|done]. apply uses_fs; [done..|]. by eapply create_frames.
Qed.

Lemma set_offset_keeps X f o : keeps (live X) (set_offset (D := D) f o).
Proof.
  intros s r s' [[H1 H2 H3 H4 H5 H6 H7] HX] (r1 & s1 & (fl & Hf & -> & ->)%get_file_Ret & H)%fbind_Ret.
  injection H as <- <-. split; [|done]. split; simpl; auto.
  - intros g fl'. destruct (decide (f = g)) as [<-|]; [|rewrite lookup_insert_ne by done; eauto].
    rewrite lookup_insert_eq. intros [= <-]. simpl. eauto.
  - intros g. destruct (decide (f = g)) as [<-|]; [intros _; apply H6; eauto|rewrite lookup_insert_ne by done; eauto].
Qed.

Lemma get_file_keeps X f : keeps (live X) (get_file (D := D) f).
Proof. by intros s r s' Hl (fl & _ & _ & ->)%get_file_Ret. Qed.
Lemma get_node_keeps X n : keeps (live X) (get_node (D := D) n).
Proof. intros s r s' Hl H. by inv_fs. Qed.
Lemma device_keeps {A} X (f : D → D * result A) : keeps (live X) (device f).
Proof. intros s r s' Hl H. inv_fs. by apply live_devices. Qed.
Lemma advance_offset_keeps X f n : keeps (live X) (advance_offset (D := D) f n).
Proof. unfold advance_offset. repeat first [apply get_file_keeps | apply set_offset_keeps | keeps_step]. Qed.

Hint Resolve get_file_keeps get_node_keeps set_offset_keeps advance_offset_keeps device_keeps node_read_keeps
  node_write_keeps : keeps.

Lemma file_read_keeps X f n : keeps (live X) (file_read (D := D) f n).
Proof. unfold file_read. eauto 8 with keeps. Qed.
Lemma effective_write_offset_keeps X f : keeps (live X) (effective_write_offset (D := D) f).
Proof. unfold effective_write_offset. apply keeps_fbind; [auto with keeps|]. intros fl. destruct (has_append fl); eauto 8 with keeps. Qed.
Lemma file_write_keeps X f d : keeps (live X) (file_write (D := D) f d).
Proof. unfold file_write. apply keeps_fbind; [apply effective_write_offset_keeps|]. eauto 8 with keeps. Qed.
Lemma seek_keeps X f o w : keeps (live X) (seek (D := D) f o w).
Proof.
  unfold seek. apply keeps_fbind; [auto with keeps|]. intros fl.
  apply keeps_fbind; [|intros; eauto with keeps].
  destruct (w =? SEEK_SET); [destruct (o <? 0); auto with keeps|]. destruct (w =? SEEK_CUR); [auto with keeps|].
  destruct (w =? SEEK_END); eauto with keeps.
Qed.
Lemma read_vfs_file_keeps X f n : keeps (live X) (read_vfs_file (D := D) f n).
Proof.
  unfold read_vfs_file. do 3 (apply keeps_fbind; [auto with keeps|intros ?]).
  destruct (block_device _); eauto using file_read_keeps with keeps.
Qed.
Lemma write_vfs_file_keeps X f d : keeps (live X) (write_vfs_file (D := D) f d).
Proof.
  unfold write_vfs_file. do 2 (apply keeps_fbind; [auto with keeps|intros ?]).
  destruct (block_device _); [|apply file_write_keeps]. apply keeps_fbind; [apply effective_write_offset_keeps|].
  eauto 8 with keeps.
Qed.
Lemma is_directory_keeps X f : keeps (live X) (is_directory (D := D) f).
Proof. unfold is_directory. eauto 8 with keeps. Qed.

(** Opening a node that is there. *)
Lemma open_keeps X F n fl abs c r c' : n ∈ X → uses X F c → on_fs (open n fl abs) c = Ret (r, c') →
  uses X F c' ∧ match r with inr f => is_Some (files (c_fs c') !! f) | inl _ => True end.
Proof.
  intros Hn Hc (s & [= <- <-] & ->)%zoom_Ret. simpl. split; [|by rewrite lookup_insert_eq].
  pose proof (uses_live _ _ _ Hc) as [[H1 H2 H3 H4 H5 H6 H7] HX]. apply uses_fs; [done| |].
  - split; [|done]. split; simpl; auto.
    + intros g fl'. destruct (decide (next_file (c_fs c) = g)) as [<-|]; [|rewrite lookup_insert_ne by done; eauto].
      rewrite lookup_insert_eq. intros [= <-]. by apply HX.
    + intros g. destruct (decide (next_file (c_fs c) = g)) as [<-|]; [lia|]. rewrite lookup_insert_ne by done.
      intros ?%H6. lia.
  - split; [done|]. intros g Hg. simpl. destruct (decide (next_file (c_fs c) = g)) as [<-|];
      [by rewrite lookup_insert_eq|by rewrite lookup_insert_ne].
Qed.

(** A table with one more entry. *)
Lemma uses_table X F c t fd e ps : uses X F c → tables (c_fds c) !! h = Some t →
  (∀ f, descriptor e = VfsFile f → is_Some (files (c_fs c) !! f)) →
  uses X F (MkCall (c_fs c) (set_tables (set_pipes (c_fds c) ps) (<[h := <[fd := e]> t]> (tables (c_fds c)))) (c_mem c) (c_cwd c) (c_fg c)).
Proof.
  intros ([Hok Hd] & HX & HF) Ht He. split; [|done]. split; [done|]. simpl. intros h' t' fd' e' f.
  destruct (decide (h = h')) as [<-|]; [rewrite lookup_insert_eq|rewrite lookup_insert_ne by done; by intros; eapply Hd].
  intros [= <-]. destruct (decide (fd = fd')) as [<-|]; [rewrite lookup_insert_eq; intros [= <-]; apply He|].
  rewrite lookup_insert_ne by done. by intros; eapply Hd.
Qed.

Lemma allocate_uses X F d : (∀ f, d = VfsFile f → f ∈ F) → keeps (uses X F) (on_fds (D := D) (M := M) (allocate h d)).
Proof.
  intros Hd c r c' Hc (s & H & ->)%zoom_Ret. unfold allocate, get_table, put_table in H. inv_st.
  apply bind_Ret in Hm as (t & Ht%expect_Ret & [= <- <-]). inv_st.
  eapply (uses_table X F c t a (MkFd d 0) (pipes (c_fds c))) in Hc; [by destruct (c_fds c)|done|].
  intros f Hf. apply Hc. by apply Hd.
Qed.

Lemma clone_descriptor_Ret d s r s' : clone_descriptor d s = Ret (r, s') → ∃ ps, s' = set_pipes s ps.
Proof.
  destruct d; simpl; intros H; inv_st; try (exists (pipes s); by destruct s); unfold on_pipe in H;
    apply bind_Ret in H as (? & _ & H); apply bind_Ret in H as (? & _ & [= <- <-]); eauto.
Qed.

Lemma dup_from_uses X F o m fl : keeps (uses X F) (on_fds (D := D) (M := M) (dup_from h o m fl)).
Proof.
  intros c r c' Hc (s & H & ->)%zoom_Ret. unfold dup_from, get_table, put_table, get_entry in H. inv_st.
  apply bind_Ret in Hm as (t & Ht%expect_Ret & [= <- <-]). inv_st. destruct (t !! o) as [e|] eqn:He; inv_st; [|by destruct c].
  apply clone_descriptor_Ret in Hm as Hps. destruct Hps as [ps ->].
  destruct r0 as [err|[]]; inv_st; [by destruct c|].
  eapply (uses_table X F c t a (MkFd (descriptor e) fl) ps) in Hc as Hc'; [done|done|].
  intros f Hf. by eapply (proj2 (proj1 Hc)).
Qed.

Lemma change_flags_keeps X F fd f : keeps (uses X F) (change_flags (D := D) (M := M) h fd f).
Proof.
  intros c r c' Hc (r1 & c1 & [-> (t & Ht & ->)]%table_of_Ret & H)%fbind_Ret. unfold get_flags, set_flags in H. inv_st.
  destruct (t !! fd) as [e|] eqn:He; inv_st; [|done]. apply zoom_Ret in Hm as (st & H1 & ->). unfold put_table in H1. inv_st.
  eapply (uses_table X F _ t fd (MkFd (descriptor e) _) (pipes (c_fds _))) in Hc as Hc'; [exact Hc'|done|].
  intros g Hg. by eapply (proj2 (proj1 Hc)).
Qed.

(** Splits a call along its structure. *)
Local Ltac call_step :=
  first
    [ apply keeps_ok | apply keeps_fail | apply keeps_lift | apply keeps_from | apply keeps_gets
    | apply write_user_keeps | apply read_user_keeps | apply read_cstring_keeps | apply read_path_keeps
    | apply table_of_keeps | apply file_of_keeps | apply node_keeps | apply type_of_keeps | apply change_flags_keeps
    | apply dup_from_uses
    | eapply keeps_finds; [apply resolve_finds|intros ?] | eapply keeps_finds; [apply parent_finds|intros [? ?]]
    | eapply keeps_finds; [apply lookup_child_finds|intros ?] | eapply keeps_finds; [apply from_dirfd_finds|intros ?]
    | eapply keeps_finds; [apply open_file_finds|intros ?] | eapply keeps_finds; [apply dirfd_finds|intros [? ?]]
    | eapply keeps_finds; [apply base_finds|intros [? ?]] | eapply keeps_finds; [apply create_finds|intros ?]
    | apply keeps_relative; [set_solver|intros ?] | apply relative_keeps; set_solver
    | eapply finds_keeps; first [apply resolve_finds | apply lookup_child_finds | apply from_dirfd_finds
                                 | apply create_finds | apply parent_finds]
    | apply on_fs_keeps; [first [apply node_truncate_keeps | apply set_mode_keeps | apply set_owner_keeps
         | apply unlink_keeps | apply inc_nlink_keeps | apply seek_keeps | apply read_vfs_file_keeps
         | apply write_vfs_file_keeps | apply is_directory_keeps | apply file_read_keeps | apply keeps_reads
         | apply node_read_keeps | apply node_write_keeps | apply link_keeps; set_solver ]
       | first [apply node_truncate_frames | apply set_mode_frames | apply set_owner_frames
         | apply unlink_frames | apply inc_nlink_frames | apply seek_frames | apply read_vfs_file_frames
         | apply write_vfs_file_frames | apply file_read_frames | apply node_read_frames | apply node_write_frames
         | apply link_frames | unfold is_directory; frames_tac ] ]
    | apply keeps_fbind; [|intros ?]
    | match goal with |- keeps _ (if ?x then _ else _) => destruct x end
    | match goal with |- keeps _ (match ?x with _ => _ end) => destruct x end ].

Lemma reads_frames {A} (f : FS D → outcome (result A)) : frames (reads f).
Proof. intros s r s' H. by inv_st. Qed.

Lemma on_reads_keeps {A} X F (f : FS D → outcome (result A)) : keeps (uses X F) (on_fs (M := M) (reads f)).
Proof. apply on_fs_keeps; [apply keeps_reads|apply reads_frames]. Qed.

Local Ltac call_tac := repeat first [apply on_reads_keeps | call_step].

Lemma do_fstat_keeps X F fd a : keeps (uses X F) (do_fstat (D := D) (M := M) h fd a).
Proof. unfold do_fstat, stat_from_node. call_tac. Qed.
Lemma stat_from_node_keeps X F n : keeps (uses X F) (stat_from_node (D := D) (M := M) n).
Proof. unfold stat_from_node. call_tac. Qed.
Lemma resolve_stat_keeps X F d a fl : keeps (uses X F) (resolve_stat_node (D := D) (M := M) h d a fl).
Proof. unfold resolve_stat_node. call_tac. Qed.
Lemma do_mkdirat_keeps X F d a : keeps (uses X F) (do_mkdirat (D := D) (M := M) d a).
Proof. unfold do_mkdirat. call_tac. Qed.
Lemma do_linkat_keeps X F a a' : keeps (uses X F) (do_linkat (D := D) (M := M) a a').
Proof. unfold do_linkat. call_tac. Qed.

Lemma modify_keeps X F g : (∀ c, c_fs (g c) = c_fs c ∧ c_fds (g c) = c_fds c) →
  keeps (uses X F) (modify (S := Call D M) g).
Proof.
  intros Hg c r c' Hc [= <- <-]. destruct (Hg c) as [H1 H2]. destruct Hc as ([Hok Hd] & HX & HF).
  unfold uses, call_ok. by rewrite H1, H2.
Qed.

Lemma creation_finds X F base abs path : base ∈ X →
  ∀ c r c', uses X F c → creation_parent base abs path c = Ret (r, c') →
  uses X F c' ∧ match r with inr p => is_Some (nodes (c_fs c') !! p.1) | inl _ => True end.
Proof.
  intros Hb c r c' Hc. unfold creation_parent. destruct (starts_with_slash _); [by apply parent_finds|].
  destruct (rfind_slash _) as [i|].
  - intros (r1 & c1 & H1 & H2)%fbind_Ret. destruct (relative_finds X F _ _ _ _ _ _ Hb Hc H1) as [Hc1 Hr].
    destruct r1 as [e|a]; [by destruct H2 as [-> ->]|]. by inv_st.
  - intros H. inv_st. split; [done|]. by apply Hc.
Qed.

Lemma resolve_from_finds X F base abs path : base ∈ X →
  ∀ c r c', uses X F c → resolve_from base abs path c = Ret (r, c') →
  uses X F c' ∧ match r with inr n => is_Some (nodes (c_fs c') !! n) | inl _ => True end.
Proof.
  intros Hb c r c' Hc. unfold resolve_from. destruct (starts_with_slash _); [by apply resolve_finds|].
  intros H. by eapply relative_finds.
Qed.

Lemma open_node_finds X F base abs path fl : base ∈ X →
  ∀ c r c', uses X F c → open_node base abs path fl c = Ret (r, c') →
  uses X F c' ∧ match r with inr n => is_Some (nodes (c_fs c') !! n) | inl _ => True end.
Proof.
  intros Hb c r c' Hc (r1 & c1 & (r2 & H1 & ->)%try_Ret & H2)%fbind_Ret.
  destruct (resolve_from_finds X F base abs path Hb c r2 c1 Hc H1) as [Hc1 Hr]. destruct r2 as [e|n].
  - assert (∀ e', fail e' c1 = Ret (r, c') → uses X F c' ∧
      match r with inr n => is_Some (nodes (c_fs c') !! n) | inl _ => True end) as Hfail by (intros e' Hf; by inv_st).
    destruct e; try (by eapply Hfail). destruct (has fl O_CREAT); [|by eapply Hfail].
    apply fbind_Ret in H2 as (r3 & c2 & H2 & H3).
    destruct (creation_finds X F base abs path Hb _ _ _ Hc1 H2) as [Hc2 Hr3].
    destruct r3 as [e|[p nm]]; [by destruct H3 as [-> ->]|]. by eapply create_finds.
  - destruct (has fl O_EXCL && has fl O_CREAT); [by inv_st|]. destruct (has fl O_TRUNC); [|by inv_st].
    apply fbind_Ret in H2 as (r3 & c2 & H2 & H3).
    assert (uses ({[n]} ∪ X) F c2) as Hc2.
    { eapply on_fs_keeps; [apply node_truncate_keeps|apply node_truncate_frames|by apply uses_node|exact H2]. }
    assert (uses X F c2) by (eapply uses_mono; [| |exact Hc2]; set_solver).
    destruct r3 as [e|[]]; [by destruct H3 as [-> ->]|]. inv_st. split; [done|]. apply Hc2. set_solver.
Qed.

Lemma open_then_allocate X F n fl abs : n ∈ X → keeps (uses X F)
  (d ←? (f ←? on_fs (open (D := D) n fl abs); ok (VfsFile f)); on_fds (M := M) (allocate h d)).
Proof.
  intros Hn c r c' Hc (r1 & c1 & H1 & H2)%fbind_Ret. apply fbind_Ret in H1 as (r2 & c2 & H0 & H1).
  destruct (open_keeps X F n fl abs _ _ _ Hn Hc H0) as [Hc2 Hr].
  destruct r2 as [e|f]; [destruct H1 as [-> ->]; by destruct H2 as [_ ->]|]. inv_st.
  eapply uses_mono; [| |eapply (allocate_uses X ({[f]} ∪ F)); [|by apply uses_file|exact H2]]; [set_solver..|].
  intros g [= <-]. set_solver.
Qed.

(** As [keeps_finds], for a search that depends on nodes in use. *)
Lemma keeps_finds_in {A B} X F (m : callM A) (n : A → nat) (k : A → callM B) :
  (∀ c r c', uses X F c → m c = Ret (r, c') → uses X F c' ∧
    match r with inr a => is_Some (nodes (c_fs c') !! n a) | inl _ => True end) →
  (∀ a, keeps (uses ({[n a]} ∪ X) F) (k a)) → keeps (uses X F) (fbind m k).
Proof.
  intros Hm Hk c r c' Hc (r1 & c1 & H1 & H2)%fbind_Ret. destruct (Hm c r1 c1 Hc H1) as [Hc1 Hr].
  destruct r1 as [e|a]; [by destruct H2 as [_ ->]|].
  eapply uses_mono; [| |eapply Hk; [by apply uses_node|exact H2]]; set_solver.
Qed.

Lemma do_openat_keeps X F dirfd a fl : keeps (uses X F) (do_openat (D := D) (M := M) h pgid dirfd a fl).
Proof.
  unfold do_openat. apply keeps_fbind; [apply read_cstring_keeps|intros path].
  eapply keeps_finds; [apply base_finds|intros [base abs]].
  eapply (keeps_finds_in _ _ _ id); [intros c r c' Hc H; eapply open_node_finds; [|exact Hc|exact H]; set_solver|intros n].
  apply keeps_fbind; [apply node_keeps|intros v]. destruct (has _ _ && _); [apply keeps_fail|].
  destruct (char_device (kind v)) as [d|]; [destruct (is_tty d)|]; try (apply open_then_allocate; set_solver).
  intros c r c' Hc (r1 & c1 & H1 & H2)%fbind_Ret.
  assert (uses ({[id n]} ∪ ({[(base, abs).1]} ∪ X)) F c1 ∧ r1 = Okay Tty) as [Hc1 ->].
  { apply fbind_Ret in H1 as (r2 & c2 & Hm & H1). inv_st. split; [|done].
    by eapply (modify_keeps _ _ (λ c, MkCall (c_fs c) (c_fds c) (c_mem c) (c_cwd c) pgid)). }
  eapply allocate_uses; [|exact Hc1|exact H2]. done.
Qed.

Lemma do_getdents64_keeps X F fd a n : keeps (uses X F) (do_getdents64 (D := D) (M := M) h fd a n).
Proof.
  unfold do_getdents64. call_tac.
Qed.

Lemma do_unlinkat_keeps X F d a fl : keeps (uses X F) (do_unlinkat (D := D) (M := M) h d a fl).
Proof. unfold do_unlinkat. call_tac. Qed.

Lemma do_symlinkat_keeps X F a a' : keeps (uses X F) (do_symlinkat (D := D) (M := M) a a').
Proof.
  unfold do_symlinkat. apply keeps_fbind; [apply read_cstring_keeps|intros tg].
  apply keeps_fbind; [apply read_path_keeps|intros lp]. eapply keeps_finds; [apply parent_finds|intros [p nm]].
  eapply (keeps_finds_in _ _ _ id); [|intros m; call_tac].
  intros c r c' Hc (s & H & ->)%zoom_Ret. 
  destruct (live_new _ (c_fs c) (TmpfsSymlink tg) r s (uses_live _ _ _ Hc)) as (-> & Hl & _ & Hm & _); [done|exact H|].
  split; [|simpl; apply Hl; set_solver]. apply uses_fs; [done|eapply live_mono; [|exact Hl]; set_solver|].
  by eapply frames_new_node.
Qed.

Lemma rename_entries_keeps X o on n nn : keeps (live X) (rename_entries (D := D) o on n nn).
Proof.
  intros s r s' Hl (r1 & s1 & H1 & H2)%fbind_Ret. destruct (remove_child_keeps X o on s r1 s1 Hl H1) as [Hl1 Hr].
  destruct r1 as [e|f]; [by destruct H2 as [_ ->]|]. apply fbind_Ret in H2 as (r2 & s2 & (r3 & H2 & ->)%try_Ret & H3).
  destruct (remove_child_keeps ({[f]} ∪ X) n nn s1 r3 s2) as [Hl2 _]; [by apply live_add|done|].
  eapply live_mono; [|eapply (link_keeps ({[f]} ∪ X)); [|exact Hl2|exact H3]]; set_solver.
Qed.
Lemma rename_entries_frames o on n nn : frames (D := D) (rename_entries o on n nn).
Proof. unfold rename_entries. frames_tac. Qed.

Lemma do_renameat2_keeps X F a a' fl : keeps (uses X F) (do_renameat2 (D := D) (M := M) a a' fl).
Proof.
  unfold do_renameat2. do 2 (apply keeps_fbind; [apply read_path_keeps|intros ?]).
  do 2 (eapply keeps_finds; [apply parent_finds|intros [? ?]]). apply keeps_fbind; [apply keeps_try, (finds_keeps _ _ _ id), lookup_child_finds|].
  intros there. destruct (has fl 1 && _); [apply keeps_fail|]. apply keeps_fbind; [|intros; apply keeps_ok].
  apply on_fs_keeps; [apply rename_entries_keeps|apply rename_entries_frames].
Qed.

Lemma chdir_keeps X F a : keeps (uses X F) (chdir (D := D) (M := M) a).
Proof.
  unfold chdir. apply keeps_fbind; [apply read_path_keeps|intros p]. eapply keeps_finds; [apply resolve_finds|intros n].
  apply keeps_fbind; [apply type_of_keeps|intros ty]. destruct (negb _); [apply keeps_fail|].
  apply keeps_fbind; [by apply modify_keeps|intros; apply keeps_ok].
Qed.

Lemma file_pread_keeps X F f o n : keeps (uses X F) (on_fs (M := M) (file_pread (D := D) f o n)).
Proof.
  apply on_fs_keeps; unfold file_pread.
  - apply keeps_fbind; [apply get_file_keeps|intros; apply node_read_keeps].
  - apply frames_fbind; [apply frames_get_file|intros; apply node_read_frames].
Qed.
Lemma file_pwrite_keeps X F f o d : keeps (uses X F) (on_fs (M := M) (file_pwrite (D := D) f o d)).
Proof.
  apply on_fs_keeps; unfold file_pwrite.
  - apply keeps_fbind; [apply get_file_keeps|intros; apply node_write_keeps].
  - apply frames_fbind; [apply frames_get_file|intros; apply node_write_frames].
Qed.

(** ** Reading and writing descriptors *)
Lemma streams_keeps {A} X F (m : callM A) : streams_only m → keeps (uses X F) m.
Proof.
  intros Hm c r c' (H1 & H2 & H3) H. destruct (Hm _ _ _ H) as [E1 E2]. unfold uses, call_ok. rewrite E1, E2. auto.
Qed.

Lemma entry_of_keeps X F fd : keeps (uses X F) (entry_of (D := D) (M := M) h fd).
Proof. unfold entry_of. call_tac. Qed.
Lemma descriptor_read_keeps X F d n : keeps (uses X F) (descriptor_read (D := D) (M := M) d n).
Proof. unfold descriptor_read. destruct d; call_tac; apply streams_keeps, stream_read_only. Qed.
Lemma try_read_keeps X F d n : keeps (uses X F) (try_read (D := D) (M := M) d n).
Proof. unfold try_read. destruct d; call_tac; apply streams_keeps, stream_try_read_only. Qed.
Lemma descriptor_write_keeps X F d l : keeps (uses X F) (descriptor_write (D := D) (M := M) d l).
Proof. unfold descriptor_write. destruct d; call_tac; apply streams_keeps, stream_write_only. Qed.

Lemma read_entry_keeps X F e n : keeps (uses X F) (read_entry (D := D) (M := M) e n).
Proof. unfold read_entry. destruct (is_nonblocking _); [apply try_read_keeps|apply descriptor_read_keeps]. Qed.

Local Ltac io_tac := repeat first [apply entry_of_keeps | apply descriptor_write_keeps | apply read_entry_keeps
  | apply file_pread_keeps | call_step].

Lemma do_read_keeps X F fd a n : keeps (uses X F) (do_read (D := D) (M := M) h fd a n).
Proof. unfold do_read. io_tac. Qed.
Lemma do_write_keeps X F fd a n : keeps (uses X F) (do_write (D := D) (M := M) h fd a n).
Proof. unfold do_write. io_tac. Qed.
Lemma readv_loop_keeps X F e l : ∀ n, keeps (uses X F) (readv_loop (D := D) (M := M) e l n).
Proof. induction l as [|[] l IH]; intros n; simpl; io_tac. apply IH. Qed.
Lemma gather_keeps X F l : keeps (uses X F) (gather (D := D) (M := M) l).
Proof. induction l as [|[] l IH]; simpl; io_tac; apply IH. Qed.
Lemma do_readv_keeps X F fd a n : keeps (uses X F) (do_readv (D := D) (M := M) h fd a n).
Proof. unfold do_readv, read_iov. io_tac. apply readv_loop_keeps. Qed.
Lemma do_writev_keeps X F fd a n : keeps (uses X F) (do_writev (D := D) (M := M) h fd a n).
Proof. unfold do_writev, read_iov. io_tac. apply gather_keeps. Qed.
Lemma sendfile_loop_keeps X F o f bs fuel : ∀ left off total, keeps (uses X F) (sendfile_loop (D := D) (M := M) fuel o f bs left off total).
Proof.
  induction fuel as [|fuel IH]; intros; simpl; destruct (left <=? 0); [io_tac..|io_tac|].
  apply keeps_fbind.
  - destruct off; [apply file_pread_keeps|io_tac].
  - intros data. destruct (bool_decide _); [io_tac|]. io_tac. apply IH.
Qed.
Lemma do_sendfile_keeps X F o i a n : keeps (uses X F) (do_sendfile (D := D) (M := M) h o i a n).
Proof. unfold do_sendfile. io_tac; apply sendfile_loop_keeps. Qed.

(** ** All calls *)
Inductive fs_call :=
  | Openat (dirfd path fl : Z) | Fstat (fd buf : Z) | Newfstatat (dirfd path buf fl : Z)
  | Statx (dirfd path fl buf : Z) | Getdents64 (fd buf count : Z) | Faccessat (dirfd path : Z)
  | Mkdirat (dirfd path : Z) | Unlinkat (dirfd path fl : Z) | Getcwd (buf size : Z) | Chdir (path : Z)
  | Statfs (path buf : Z) | Fstatfs (fd buf : Z) | Truncate (path len : Z) | Ftruncate (fd len : Z)
  | Fchmod (fd md : Z) | Fchmodat (dirfd path md : Z) | Fchown (fd u g : Z) | Fchownat (dirfd path u g : Z)
  | Readlinkat (path buf size : Z) | Symlinkat (target path : Z) | Linkat (old new : Z)
  | Renameat2 (old new fl : Z) | Lseek (fd o w : Z) | Read (fd buf count : Z) | Write (fd buf count : Z)
  | Readv (fd iov n : Z) | Writev (fd iov n : Z) | Sendfile (o i offset count : Z)
  | Pread64 (fd buf count o : Z) | Pwrite64 (fd buf count o : Z) | Fcntl (fd cmd arg : Z).

Definition run_call (k : fs_call) : callM Z :=
  match k with
  | Openat d p f => do_openat h pgid d p f | Fstat d a => do_fstat h d a | Newfstatat d p a f => do_newfstatat h d p a f
  | Statx d p f a => do_statx h d p f a | Getdents64 d a n => do_getdents64 h d a n | Faccessat d p => do_faccessat h d p
  | Mkdirat d p => do_mkdirat d p | Unlinkat d p f => do_unlinkat h d p f | Getcwd a n => do_getcwd a n
  | Chdir p => chdir p | Statfs p a => do_statfs p a | Fstatfs d a => do_fstatfs h d a | Truncate p l => do_truncate p l
  | Ftruncate d l => do_ftruncate h d l | Fchmod d m => do_fchmod h d m | Fchmodat d p m => do_fchmodat h d p m
  | Fchown d u g => do_fchown h d u g | Fchownat d p u g => do_fchownat h d p u g | Readlinkat p a n => do_readlinkat p a n
  | Symlinkat t p => do_symlinkat t p | Linkat o n => do_linkat o n | Renameat2 o n f => do_renameat2 o n f
  | Lseek d o w => lseek h d o w | Read d a n => do_read h d a n | Write d a n => do_write h d a n
  | Readv d a n => do_readv h d a n | Writev d a n => do_writev h d a n | Sendfile o i a n => do_sendfile h o i a n
  | Pread64 d a n o => do_pread64 h d a n o | Pwrite64 d a n o => do_pwrite64 h d a n o
  | Fcntl d c a => do_fcntl h d c a 3 4
  end.

End calls_wf.

(** ** Rename *)
Section rename.
Context `{FH : FsHeaders} {D : Type} `{DV : Devices D}.
Implicit Types s : FS D.

(** Node [n] is a tmpfs directory with entries [c]. *)
Definition dir_at s (n : nat) (c : gmap str nat) : Prop := ∃ i m, nodes s !! n = Some (MkNode i (TmpfsDir c m)).

Lemma remove_child_eq s n i c m name f : nodes s !! n = Some (MkNode i (TmpfsDir c m)) → c !! name = Some f →
  remove_child n name s = Ret (Okay f, set_nodes s (<[n := MkNode i (TmpfsDir (delete name c) m)]> (nodes s))).
Proof. intros Hn Hc. unfold remove_child, get_node, set_kind, fbind. rewrite Hn. bstep. cbn [kind]. rewrite Hc. simpl. by rewrite Hn. Qed.

Lemma remove_child_none s n i c m name : nodes s !! n = Some (MkNode i (TmpfsDir c m)) → c !! name = None →
  remove_child n name s = Ret (Err ENOENT, s).
Proof. intros Hn Hc. unfold remove_child, get_node, fbind. rewrite Hn. bstep. cbn [kind]. by rewrite Hc. Qed.

Lemma link_eq s n i c m name f : nodes s !! n = Some (MkNode i (TmpfsDir c m)) → c !! name = None →
  link n name f s = Ret (Okay tt, set_nodes s (<[n := MkNode i (TmpfsDir (<[name := f]> c) m)]> (nodes s))).
Proof.
  intros Hn Hc. unfold link, get_node, set_kind, fbind. rewrite Hn. bstep. cbn [kind]. rewrite Hc.
  rewrite bool_decide_false by (by intros []). by rewrite Hn.
Qed.

(** Replacing an entry: the old one, if any, goes. *)
Lemma replace_entry s n i c m name f : nodes s !! n = Some (MkNode i (TmpfsDir c m)) →
  (try (remove_child n name);;? link n name f)%stM s =
    Ret (Okay tt, set_nodes s (<[n := MkNode i (TmpfsDir (<[name := f]> c) m)]> (nodes s))).
Proof.
  intros Hn. destruct (c !! name) as [g|] eqn:Hc.
  - pose proof (remove_child_eq _ _ _ _ _ _ _ Hn Hc) as Hr.
    erewrite (fbind_ok (try _)); [|unfold try; by rewrite Hr].
    rewrite (link_eq _ _ i (delete name c) m); [|simpl; by rewrite lookup_insert_eq|by rewrite lookup_delete_eq].
    cbn [nodes set_nodes]. by rewrite insert_insert_eq, insert_delete_eq.
  - pose proof (remove_child_none _ _ _ _ _ _ Hn Hc) as Hr.
    erewrite (fbind_ok (try _)); [|unfold try; by rewrite Hr]. by apply link_eq.
Qed.

(** rename moves an entry. Between two tmpfs directories (or within one) it
    succeeds whenever the old name exists: the new name leads to the node afterwards,
    in place of what it led to before, the old name is gone, and every other entry of
    every directory, and every file's contents, stay as they were. *)
Theorem rename_moves s o co on n cn nn f : dir_at s o co → dir_at s n cn → co !! on = Some f →
  ∃ s', rename_entries o on n nn s = Ret (Okay tt, s') ∧
    dir_at s' n (<[nn := f]> (if decide (o = n) then delete on cn else cn)) ∧
    (o ≠ n → dir_at s' o (delete on co)) ∧
    ∀ k, k ≠ o → k ≠ n → nodes s' !! k = nodes s !! k.
Proof.
  intros (io & mo & Ho) (i & m & Hn) Hf. unfold rename_entries.
  rewrite (fbind_ok _ _ _ _ _ (remove_child_eq _ _ _ _ _ _ _ Ho Hf)). case_decide as E.
  - subst n. rewrite Ho in Hn. simplify_eq.
    rewrite (replace_entry _ o i (delete on cn) m) by (simpl; apply lookup_insert_eq).
    eexists. split; [reflexivity|]. split; [exists i, m; simpl; by rewrite lookup_insert_eq|]. split; [done|].
    intros k Hk _. simpl. by rewrite !lookup_insert_ne.
  - rewrite (replace_entry _ n i cn m) by (simpl; by rewrite lookup_insert_ne).
    eexists. split; [reflexivity|]. split; [exists i, m; simpl; by rewrite lookup_insert_eq|].
    split; [intros _; exists io, mo; simpl; by rewrite lookup_insert_ne, lookup_insert_eq|].
    intros k H1 H2. simpl. by rewrite !lookup_insert_ne.
Qed.

(** A rename into a directory that is no tmpfs directory loses the file: the call
    fails with ENOTDIR, but the old name is gone. *)
Lemma rename_loses_file s o co on n v nn f : dir_at s o co → co !! on = Some f →
  nodes s !! n = Some v → (∀ c m, kind v ≠ TmpfsDir c m) →
  ∃ s', rename_entries o on n nn s = Ret (Err ENOTDIR, s') ∧ dir_at s' o (delete on co).
Proof.
  intros (io & mo & Ho) Hf Hn Hv. assert (o ≠ n) as Hne.
  { intros ->. rewrite Ho in Hn. simplify_eq. by eapply Hv. }
  unfold rename_entries. rewrite (fbind_ok _ _ _ _ _ (remove_child_eq _ _ _ _ _ _ _ Ho Hf)). set (s1 := set_nodes _ _).
  assert (nodes s1 !! n = Some v) as Hn1 by (simpl; by rewrite lookup_insert_ne).
  assert (remove_child n nn s1 = Ret (Err ENOTDIR, s1)) as H1.
  { unfold remove_child, get_node, fbind. rewrite Hn1. bstep. destruct (kind v) eqn:E; try done. by destruct (Hv children m). }
  erewrite (fbind_ok (try _)); [|unfold try; by rewrite H1].
  assert (link n nn f s1 = Ret (Err ENOTDIR, s1)) as ->.
  { unfold link, get_node, fbind. rewrite Hn1. bstep. destruct (kind v) eqn:E; try done. by destruct (Hv children m). }
  eexists. split; [reflexivity|]. exists io, mo. simpl. by rewrite lookup_insert_eq.
Qed.
End rename.

(** ** Calls of a process *)
#[local] Instance wit_fs : FsHeaders := linux_fs.
#[local] Instance wit_layout : FsLayout := {| stat_slice := λ _, replicate 128 0; statx_slice := λ _, replicate 256 0;
  statfs_slice := λ _, replicate 120 0; DIRENT_SIZE := 24 |}.
#[local] Instance wit_memory : UserMemory flat_memory := flat_ops.
#[local] Instance wit_streams : Streams unit flat_memory :=
  {| stream_read := λ _ _, fail EIO; stream_try_read := λ _ _, fail EAGAIN; stream_write := λ _ _, fail EIO |}.
#[local] Instance wit_streams_ok : StreamsLaws unit flat_memory.
Proof. by split; intros d n c r c' [= <- <-]. Qed.

(** [/tmp/a] is at 0x1000 and [/a] at 0x2000. *)
Definition path_memory : flat_memory := λ a,
  if (0x1000 <=? a) && (a <? 0x1100) then nth (Z.to_nat (a - 0x1000)) (b "/tmp/a") 0
  else if (0x2000 <=? a) && (a <? 0x2100) then nth (Z.to_nat (a - 0x2000)) (b "/a") 0
  else 0.

Definition call1 : Call unit flat_memory := MkCall fs1 (MkFds {[0%nat := ∅]} ∅ 0 []) path_memory (b "/") 1.

Lemma call1_ok : call_ok call1.
Proof.
  split; [exact fs1_ok|]. intros h t fd e f Ht. change (({[0%nat := ∅]} : gmap nat FdTable) !! h = Some t) in Ht.
  apply lookup_singleton_Some in Ht as [_ <-]. by rewrite lookup_empty.
Qed.

Fixpoint run_calls (l : list fs_call) : stM (Call unit flat_memory) (list Z) :=
  (match l with
   | [] => ok []
   | k :: l => r ←? run_call 0 1 k; rs ←? run_calls l; ok (r :: rs)
   end)%stM.

Lemma open_runs : fst <$> run_call 0 1 (Openat (-100) 0x1000 0x40) call1 = Ret (Okay 0).
Proof. by vm_compute. Qed.


(** Three times a directory is made in [/tmp], moved to [/] and removed. The rename
    leaves the link counts as they are and the removal decrements that of [/]: the
    third removal underflows and panics. *)
Definition move_and_remove : list fs_call := [Mkdirat (-100) 0x1000; Renameat2 0x1000 0x2000 0; Unlinkat (-100) 0x2000 0x200].

Lemma rename_rmdir_panics : fst <$> run_calls (move_and_remove ++ move_and_remove) call1 = Ret (Okay (replicate 6 0)) ∧
  run_calls (move_and_remove ++ move_and_remove ++ move_and_remove) call1 = Panic.
Proof. split; by vm_compute. Qed.

(** The null pointer as a path panics: the bound on the length overflows. *)
Lemma null_path_panics `{FH : FsHeaders, UM : UserMemory M} {D : Type} (c : Call D M) : read_path 0 c = Panic.
Proof. reflexivity. Qed.

Lemma rename_moves_witness : ∃ s', rename_entries 1 (b "a") 0 (b "c") fs2 = Ret (Okay tt, s') ∧
  dir_at s' 0 {[b "c" := 7%nat]} ∧ dir_at s' 1 ∅ ∧ nodes s' !! 7%nat = nodes fs2 !! 7%nat.
Proof.
  destruct (rename_moves fs2 1 {[b "a" := 7%nat]} (b "a") 0 ∅ (b "c") 7) as (s' & H1 & H2 & H3 & H4);
    [by vm_compute; eexists _, _|by vm_compute; eexists _, _|by vm_compute|].
  exists s'. split; [exact H1|]. split; [exact H2|]. split; [exact (H3 ltac:(done))|]. by apply H4.
Defined.
