(* ===== verification/Tty.v ===== *)
(** The terminal: crates/kernel/src/io/tty_device.rs (the line discipline and
    [ReadTty]) and the interrupt handler of io/uart.rs. *)
From S2P Require Import Prelude Headers Bytes Signal Thread ProcessTable.

(** Constants of the termios headers. *)
Class TtyHeaders := {
  ISIG : Z; ICANON : Z; ECHO : Z; ECHOE : Z; ICRNL : Z; OPOST : Z; ONLCR : Z; CS8 : Z; CREAD : Z; CLOCAL : Z;
  NCCS : nat; VINTR : nat; VQUIT : nat; VERASE : nat; VKILL : nat; VEOF : nat; VTIME : nat; VMIN : nat; VSUSP : nat;
}.

Class TtyHeadersOk (H : TtyHeaders) : Prop := {
  lflag_values : ISIG = 1 ∧ ICANON = 2 ∧ ECHO = 8 ∧ ECHOE = 16;
  ioflag_values : ICRNL = 0x100 ∧ OPOST = 1 ∧ ONLCR = 4;
  cflag_values : CS8 = 0x30 ∧ CREAD = 0x80 ∧ CLOCAL = 0x800;
  cc_values : NCCS = 19%nat ∧ [VINTR; VQUIT; VERASE; VKILL; VEOF; VTIME; VMIN] = seq 0 7 ∧ VSUSP = 10%nat;
}.

Definition linux_tty : TtyHeaders := {|
  ISIG := 1; ICANON := 2; ECHO := 8; ECHOE := 16; ICRNL := 0x100; OPOST := 1; ONLCR := 4; CS8 := 0x30; CREAD := 0x80;
  CLOCAL := 0x800; NCCS := 19; VINTR := 0; VQUIT := 1; VERASE := 2; VKILL := 3; VEOF := 4; VTIME := 5; VMIN := 6; VSUSP := 10;
|}.

Lemma linux_tty_ok : TtyHeadersOk linux_tty.
Proof. by split. Qed.

Record termios := Termios { c_iflag : Z; c_oflag : Z; c_cflag : Z; c_lflag : Z; c_line : Z; c_cc : list Z }.

(** A waker is the identity of the reader it wakes. *)
Record TtyDeviceInner := Tty {
  settings : termios;
  line_buf : list Z;
  input_buf : list Z;
  wakeup_queue : list nat;
  fg_pgid : Z;
  eof_pending : bool;
  last_tty_signal : option (Z * Z);
}.

Definition set_bufs (d : TtyDeviceInner) (line input : list Z) (eof : bool) : TtyDeviceInner :=
  Tty (settings d) line input (wakeup_queue d) (fg_pgid d) eof (last_tty_signal d).
Definition set_queue (d : TtyDeviceInner) (q : list nat) : TtyDeviceInner :=
  Tty (settings d) (line_buf d) (input_buf d) q (fg_pgid d) (eof_pending d) (last_tty_signal d).
Definition set_last_signal (d : TtyDeviceInner) (s : option (Z * Z)) : TtyDeviceInner :=
  Tty (settings d) (line_buf d) (input_buf d) (wakeup_queue d) (fg_pgid d) (eof_pending d) s.

Definition NL : Z := 10.
Definition CR : Z := 13.
Definition BS : Z := 8.
Definition SPACE : Z := 32.
Definition CARET : Z := 94.

(** The signal for the foreground group, if the byte makes one, and what to echo. *)
Record InputResult := Input { action : option Z; echo : list Z }.

(** [ArrayVec<u8, 192>::push], its failure ignored. *)
Definition echo_push (e : list Z) (b : Z) : list Z := if bool_decide (length e = 192%nat) then e else e ++ [b].
Definition echo_pushes (e l : list Z) : list Z := foldl echo_push e l.

Section tty.
Context `{TH : TtyHeaders} `{SH : SigHeaders}.
Implicit Types d : TtyDeviceInner.

Definition tty_new : TtyDeviceInner :=
  let c_cc :=
    <[VTIME := 0]> (<[VMIN := 1]> (<[VSUSP := 26]> (<[VEOF := 4]> (<[VKILL := 21]>
      (<[VERASE := 127]> (<[VQUIT := 28]> (<[VINTR := 3]> (replicate NCCS 0)))))))) in
  Tty (Termios ICRNL (Z.lor OPOST ONLCR) (Z.lor (Z.lor CS8 CREAD) CLOCAL)
         (Z.lor (Z.lor (Z.lor ISIG ICANON) ECHO) ECHOE) 0 c_cc)
    [] [] [] 1 false None.

Definition set_termios d (new : termios) : TtyDeviceInner :=
  Tty new (line_buf d) (input_buf d) (wakeup_queue d) (fg_pgid d) (eof_pending d) (last_tty_signal d).
Definition set_fg_pgid d (pgid : Z) : TtyDeviceInner :=
  Tty (settings d) (line_buf d) (input_buf d) (wakeup_queue d) pgid (eof_pending d) (last_tty_signal d).
Definition record_tty_signal d (sig target_pgid : Z) : TtyDeviceInner := set_last_signal d (Some (sig, target_pgid)).

Definition take_signal_for_new_fg d (caller_pgid : Z) : option Z * TtyDeviceInner :=
  (match last_tty_signal d with
   | Some (sig, _) => if fg_pgid d =? caller_pgid then Some sig else None
   | None => None
   end, set_last_signal d None).

Definition has_lflag d (fl : Z) : bool := negb (Z.land (c_lflag (settings d)) fl =? 0).
Definition has_iflag d (fl : Z) : bool := negb (Z.land (c_iflag (settings d)) fl =? 0).
Definition has_oflag d (fl : Z) : bool := negb (Z.land (c_oflag (settings d)) fl =? 0).
Definition cc d (i : nat) : Z := nth i (c_cc (settings d)) 0.

Definition echo_newline d (e : list Z) : list Z :=
  let e := if has_oflag d OPOST && has_oflag d ONLCR then echo_push e CR else e in
  echo_push e NL.

Definition process_output d (l : list Z) : list Z :=
  if negb (has_oflag d OPOST && has_oflag d ONLCR) then l
  else mjoin ((λ b, if b =? NL then [CR; b] else [b]) <$> l).

(** [wake_all] pops the wakers from the end. *)
Definition wake_all d : TtyDeviceInner * list nat := (set_queue d [], rev (wakeup_queue d)).

Definition flush_line_buf d : TtyDeviceInner * list nat :=
  wake_all (set_bufs d [] (input_buf d ++ line_buf d) false).

Definition push_input d (byte : Z) : TtyDeviceInner * list nat :=
  wake_all (set_bufs d (line_buf d) (input_buf d ++ [byte]) (eof_pending d)).

(** The branch of a signal character, shown as [^c]. *)
Definition signal_byte d (sig c : Z) : TtyDeviceInner * list nat * InputResult :=
  let e := if has_lflag d ECHO then echo_newline d (echo_pushes [] [CARET; c]) else [] in
  (set_bufs d [] [] false, [], Input (Some sig) e).

Definition canonical_byte d (byte : Z) : TtyDeviceInner * list nat * InputResult :=
  if byte =? NL then
    let e := if has_lflag d ECHO then echo_newline d [] else [] in
    (flush_line_buf (set_bufs d (line_buf d ++ [byte]) (input_buf d) (eof_pending d)), Input None e)
  else if byte =? cc d VERASE then
    match line_buf d with
    | [] => (d, [], Input None [])
    | _ => (set_bufs d (removelast (line_buf d)) (input_buf d) (eof_pending d), [],
            Input None (if has_lflag d ECHOE then echo_pushes [] [BS; SPACE; BS] else []))
    end
  else if byte =? cc d VEOF then
    match line_buf d with
    | [] => (wake_all (set_bufs d [] (input_buf d) true), Input None [])
    | _ => (flush_line_buf d, Input None [])
    end
  else if byte =? cc d VKILL then
    let e := if has_lflag d ECHOE then
               echo_pushes [] (mjoin (replicate (length (line_buf d)) [BS; SPACE; BS])) else [] in
    (set_bufs d [] (input_buf d) (eof_pending d), [], Input None e)
  else
    (set_bufs d (line_buf d ++ [byte]) (input_buf d) (eof_pending d), [],
     Input None (if has_lflag d ECHO then echo_push [] byte else [])).

(** The new state, the wakers woken, and the result. *)
Definition process_input_byte d (byte : Z) : TtyDeviceInner * list nat * InputResult :=
  let d := set_last_signal d None in
  let byte := if has_iflag d ICRNL && (byte =? CR) then NL else byte in
  if has_lflag d ISIG && (byte =? cc d VINTR) then signal_byte d SIGINT 67
  else if has_lflag d ISIG && (byte =? cc d VSUSP) then signal_byte d SIGTSTP 90
  else if has_lflag d ISIG && (byte =? cc d VQUIT) then signal_byte d SIGQUIT 92
  else if has_lflag d ICANON then canonical_byte d byte
  else (push_input d byte, Input None (if has_lflag d ECHO then echo_push [] byte else [])).

Definition get_input d (count : nat) : list Z * TtyDeviceInner :=
  (take count (input_buf d), set_bufs d (line_buf d) (drop count (input_buf d)) (eof_pending d)).

Definition is_input_empty d : bool := bool_decide (input_buf d = []).
Definition vmin d : Z := cc d VMIN.

(** *** [ReadTty::poll] *)
(** By a reader of the foreground group: what the read returns, or nothing. *)
Definition poll_fg d (max_count : nat) (me : nat) : option (list Z) * TtyDeviceInner :=
  let is_canonical := has_lflag d ICANON in
  let len := length (input_buf d) in
  let min_needed := if is_canonical then 1%nat else Z.to_nat (Z.max (vmin d) 1) in
  if negb (is_input_empty d) && (bool_decide (min_needed ≤ len)%nat || bool_decide (max_count ≤ len)%nat) then
    let '(data, d) := get_input d max_count in (Some data, d)
  else if is_canonical && eof_pending d then (Some [], set_bufs d (line_buf d) (input_buf d) false)
  else if negb is_canonical && (vmin d =? 0) then
    let '(data, d) := get_input d max_count in (Some data, d)
  else (None, set_queue d (wakeup_queue d ++ [me])).

(** Whether SIGTTIN cannot stop the reader, so that its read fails. *)
Definition should_eio (pt : ProcessTable) (tid : Z) : outcome bool :=
  match threads pt !! tid with
  | None => Ret true
  | Some t =>
      sa ← get_sigaction_raw t SIGTTIN;
      Ret (negb (Z.land (sigmask (signal_state t)) (Z.shiftl 1 SIGTTIN) =? 0) || bool_decide (sa_handler sa = Some 1))
  end.

Definition poll_read_tty d (pt : ProcessTable) (max_count : nat) (pgid tid : Z) (me : nat)
    : outcome (option (result (list Z)) * TtyDeviceInner * ProcessTable) :=
  if negb (pgid =? fg_pgid d) then
    eio ← should_eio pt tid;
    if eio : bool then Ret (Some (Err EIO), d, pt)
    else pt ← send_signal_to_pgid pt pgid SIGTTIN; Ret (None, d, pt)
  else let '(r, d) := poll_fg d max_count me in Ret (option_map (λ l, Okay l) r, d, pt).

(** ** The interrupt handler of the UART *)
Definition REBOOT_MAGIC : list Z := [0xDE; 0xAD; 0xBE; 0xEF].

(** The new index, and whether the sequence is complete. *)
Definition check_reboot_magic (idx : nat) (byte : Z) : bool * nat :=
  if byte =? nth idx REBOOT_MAGIC 0 then
    if bool_decide (S idx = length REBOOT_MAGIC) then (true, idx) else (false, S idx)
  else (false, O).

Fixpoint check_reboot (idx : nat) (bytes : list Z) : bool * nat :=
  match bytes with
  | [] => (false, idx)
  | byte :: bytes =>
      let '(hit, idx) := check_reboot_magic idx byte in
      if hit then (true, idx) else check_reboot idx bytes
  end.

(** The loop over the bytes: the wakers woken, the bytes echoed and the last signal. *)
Fixpoint feed d (bytes : list Z) (sig : option Z) : TtyDeviceInner * list nat * list Z * option Z :=
  match bytes with
  | [] => (d, [], [], sig)
  | byte :: bytes =>
      let '(d, woken, r) := process_input_byte d byte in
      let '(d, woken', e, sig) := feed d bytes (match action r with Some s => Some s | None => sig end) in
      (d, woken ++ woken', echo r ++ e, sig)
  end.

(** What the handler does for the bytes that [uart.read] returns: [None] is a
    reset of the machine; the signal goes to the foreground group. *)
Definition handle_uart_interrupt d (idx : nat) (received : list Z)
    : option (TtyDeviceInner * nat * list nat * list Z * option (Z * Z)) :=
  let raw_bytes := take 64 received in
  let '(reboot, idx) := check_reboot idx raw_bytes in
  if reboot then None
  else
    let '(d, woken, e, sig) := feed d raw_bytes None in
    match sig with
    | None => Some (d, idx, woken, e, None)
    | Some sig => Some (record_tty_signal d sig (fg_pgid d), idx, woken, e, Some (sig, fg_pgid d))
    end.
End tty.

(** ** Runs: keys are typed and readers poll *)
Record TtyWorld := {
  tty : TtyDeviceInner;
  asleep : gmap nat nat;               (* sleeping readers with the size they asked for *)
  got : list Z;                        (* the bytes read so far, by anyone *)
}.

Inductive tty_event :=
  | Key (byte : Z)
  | Poll (me count : nat)              (* a read starts, or a woken reader runs again *)
  | TryRead (count : nat)              (* a read of a nonblocking descriptor, or of the device file *)
  | SetFg (pgid : Z)
  | TakeSignal (pgid : Z).

Section runs.
Context `{TH : TtyHeaders} `{SH : SigHeaders}.
Implicit Types w : TtyWorld.

Definition wake_readers (a : gmap nat nat) (woken : list nat) : gmap nat nat :=
  filter (λ p, p.1 ∉ woken) a.

Definition tty_exec w (ev : tty_event) : TtyWorld :=
  match ev with
  | Key byte =>
      let '(d, woken, _) := process_input_byte (tty w) byte in
      {| tty := d; asleep := wake_readers (asleep w) woken; got := got w |}
  | Poll me count =>
      if bool_decide (is_Some (asleep w !! me)) then w
      else match poll_fg (tty w) count me with
           | (Some l, d) => {| tty := d; asleep := asleep w; got := got w ++ l |}
           | (None, d) => {| tty := d; asleep := <[me := count]> (asleep w); got := got w |}
           end
  | TryRead count =>
      let '(l, d) := get_input (tty w) count in {| tty := d; asleep := asleep w; got := got w ++ l |}
  | SetFg pgid => {| tty := set_fg_pgid (tty w) pgid; asleep := asleep w; got := got w |}
  | TakeSignal pgid => {| tty := (take_signal_for_new_fg (tty w) pgid).2; asleep := asleep w; got := got w |}
  end.

Definition tty_run (evs : list tty_event) w : TtyWorld := foldl tty_exec w evs.

(** ** No wake-up is lost *)
(** A read of [count] bytes has nothing to return. *)
Definition waits (d : TtyDeviceInner) (count : nat) : Prop :=
  if has_lflag d ICANON then input_buf d = [] ∧ eof_pending d = false
  else vmin d ≠ 0 ∧ (input_buf d = [] ∨
    (length (input_buf d) < Z.to_nat (Z.max (vmin d) 1))%nat ∧ (length (input_buf d) < count)%nat).

Lemma poll_fg_None d count me : (poll_fg d count me).1 = None ↔ waits d count.
Proof.
  unfold poll_fg, waits, is_input_empty, get_input. destruct (has_lflag d ICANON); cbn [negb andb].
  - destruct (input_buf d) as [|x l]; simpl; [|naive_solver].
    destruct (eof_pending d); simpl; naive_solver.
  - destruct (Z.eqb_spec (vmin d) 0) as [E|E].
    + destruct (_ && _); simpl; naive_solver.
    + destruct (input_buf d) as [|x l] eqn:Ei; simpl; [naive_solver|].
      repeat case_bool_decide; simpl in *; split; try done; naive_solver lia.
Qed.

(** The settings stay, and a read that had nothing to return has nothing now. *)
Definition no_more (d d' : TtyDeviceInner) : Prop :=
  settings d' = settings d ∧ (length (input_buf d') ≤ length (input_buf d))%nat ∧
  (eof_pending d' = true → eof_pending d = true).

Lemma waits_no_more d d' count : no_more d d' → waits d count → waits d' count.
Proof.
  intros (Hs & Hl & He). unfold waits, has_lflag, vmin, cc. rewrite Hs.
  destruct (negb _).
  - intros [Hi Hp]. rewrite Hi in Hl. destruct (input_buf d'); [|simpl in Hl; lia]. split; [done|].
    by destruct (eof_pending d'); [rewrite He in Hp|].
  - intros [? [Hi|?]]; (split; [done|]); [|right; lia]. left. rewrite Hi in Hl. by destruct (input_buf d'); [|simpl in Hl; lia].
Qed.

(** A key wakes every registered reader, or brings nothing to read. *)
Lemma key_wakes d byte d' woken r : process_input_byte d byte = (d', woken, r) →
  (∀ me, me ∈ wakeup_queue d → me ∈ woken) ∨ (no_more d d' ∧ wakeup_queue d' = wakeup_queue d).
Proof.
  assert (∀ e i, (wake_all e, i) = (d', woken, r) → wakeup_queue e = wakeup_queue d →
    ∀ me, me ∈ wakeup_queue d → me ∈ woken) as Hw.
  { intros e i [= <- <- <-] He me Hme. rewrite He, list_elem_of_In, <-in_rev. by apply list_elem_of_In. }
  unfold process_input_byte. set (b := if _ : bool then NL else byte).
  unfold signal_byte, canonical_byte, flush_line_buf, push_input.
  repeat (case_match; try (intros Hr; left; by eapply Hw; [exact Hr|]);
    try (intros [= <- <- <-]; right; split; [|done]; (split; [done|]); simpl; (split; [lia || done|done]))).
Qed.

Lemma wake_readers_Some a woken me count : wake_readers a woken !! me = Some count → a !! me = Some count ∧ me ∉ woken.
Proof. unfold wake_readers. by rewrite map_lookup_filter_Some. Qed.

(** Every sleeping reader is registered and has nothing to return. *)
Definition sleepers_ok w : Prop := ∀ me count, asleep w !! me = Some count →
  me ∈ wakeup_queue (tty w) ∧ waits (tty w) count.

Lemma sleepers_quiet w d g : sleepers_ok w → no_more (tty w) d → wakeup_queue d = wakeup_queue (tty w) →
  sleepers_ok {| tty := d; asleep := asleep w; got := g |}.
Proof. intros Hw Hd Hq me count H. simpl. rewrite Hq. destruct (Hw _ _ H). eauto using waits_no_more. Qed.

Lemma get_input_no_more d count l d' : get_input d count = (l, d') → no_more d d' ∧ wakeup_queue d' = wakeup_queue d.
Proof. intros [= <- <-]. split; [|done]. split; [done|]. simpl. rewrite length_drop. split; [lia|done]. Qed.

Lemma poll_fg_no_more d count me l d' : poll_fg d count me = (Some l, d') → no_more d d' ∧ wakeup_queue d' = wakeup_queue d.
Proof.
  unfold poll_fg. repeat case_match; intros [= <- <-]; try (eapply get_input_no_more; eassumption).
  all: by split.
Qed.

Lemma poll_fg_sleeps d count me d' : poll_fg d count me = (None, d') → d' = set_queue d (wakeup_queue d ++ [me]).
Proof. unfold poll_fg. repeat case_match; by intros [= <-]. Qed.

Lemma tty_exec_sleepers w ev : sleepers_ok w → sleepers_ok (tty_exec w ev).
Proof.
  intros Hw. destruct ev as [byte|me count|count|pgid|pgid]; simpl.
  - destruct (process_input_byte (tty w) byte) as [[d woken] r] eqn:E. intros me count [Ha Hn]%wake_readers_Some. simpl.
    destruct (Hw _ _ Ha) as [Hq Hp]. destruct (key_wakes _ _ _ _ _ E) as [H|[H1 H2]]; [by destruct Hn; apply H|].
    rewrite H2. eauto using waits_no_more.
  - case_bool_decide; [done|]. destruct (poll_fg (tty w) count me) as [[l|] d] eqn:E.
    + apply poll_fg_no_more in E as [? ?]. by apply sleepers_quiet.
    + pose proof (proj1 (poll_fg_None (tty w) count me)) as Hp. rewrite E in Hp. apply poll_fg_sleeps in E as ->.
      intros me' count'. simpl. intros [[<- <-]|[Hne Ha]]%lookup_insert_Some.
      * split; [set_solver|]. apply Hp. done.
      * destruct (Hw _ _ Ha) as [? ?]. split; [set_solver|done].
  - eapply sleepers_quiet; [done|apply (get_input_no_more _ count _ _ eq_refl)|done].
  - by apply sleepers_quiet.
  - by apply sleepers_quiet.
Qed.

(** the terminal loses no wake-up. However keys, reads and changes of the
    foreground group interleave, in canonical and in raw mode, a reader of the
    foreground group that sleeps is registered to be woken, and a read of the size it
    asked for would find nothing: no complete line and no end of file, or less input
    than it must return. *)
Theorem tty_reader_not_lost evs d me count : asleep (tty_run evs {| tty := d; asleep := ∅; got := [] |}) !! me = Some count →
  let d' := tty (tty_run evs {| tty := d; asleep := ∅; got := [] |}) in
  me ∈ wakeup_queue d' ∧ ∀ who, (poll_fg d' count who).1 = None.
Proof.
  set (w := tty_run evs _). assert (sleepers_ok w) as Hw.
  { unfold w, tty_run. set (w0 := {| tty := d; asleep := ∅; got := [] |}).
    assert (sleepers_ok w0) as H0 by (intros ? ?; simpl; by rewrite lookup_empty). clearbody w0. clear w. revert w0 H0.
    induction evs as [|ev evs IH]; intros w0 H0; simpl; [done|]. by apply IH, tty_exec_sleepers. }
  intros Ha. destruct (Hw _ _ Ha) as [? ?]. split; [done|]. intros who. by apply poll_fg_None.
Qed.

(** ** What is read *)
(** The key as the line discipline takes it. *)
Definition mapped (d : TtyDeviceInner) (k : Z) : Z := if has_iflag d ICRNL && (k =? CR) then NL else k.

Definition is_signal_key (d : TtyDeviceInner) (k : Z) : Prop :=
  has_lflag d ISIG = true ∧ mapped d k ∈ [cc d VINTR; cc d VSUSP; cc d VQUIT].

(** The bytes of the finished lines that typing [keys] behind [line] makes. *)
Fixpoint cook (d : TtyDeviceInner) (line : list Z) (keys : list Z) : list Z :=
  match keys with
  | [] => []
  | k :: keys =>
      let k := mapped d k in
      if k =? NL then line ++ NL :: cook d [] keys
      else if k =? cc d VERASE then cook d (removelast line) keys
      else if k =? cc d VEOF then line ++ cook d [] keys
      else if k =? cc d VKILL then cook d [] keys
      else cook d (line ++ [k]) keys
  end.

Definition keys_of (evs : list tty_event) : list Z := omap (λ ev, match ev with Key k => Some k | _ => None end) evs.

Definition readable w : list Z := got w ++ input_buf (tty w).

Lemma cook_settings d d' line keys : settings d' = settings d → cook d' line keys = cook d line keys.
Proof.
  intros Hs. revert line. induction keys as [|k keys IH]; intros line; [done|]. simpl.
  unfold mapped, has_iflag, cc. rewrite Hs. by repeat case_match; rewrite ?IH.
Qed.

(** A key that is no signal, in canonical mode. *)
Lemma key_cooks d k d' woken r keys : has_lflag d ICANON = true → ¬ is_signal_key d k →
  process_input_byte d k = (d', woken, r) →
  settings d' = settings d ∧ input_buf d' ++ cook d (line_buf d') keys = input_buf d ++ cook d (line_buf d) (k :: keys).
Proof.
  intros Hc Hn. unfold process_input_byte. change (has_iflag (set_last_signal d None) ICRNL) with (has_iflag d ICRNL).
  change (if _ : bool then NL else k) with (mapped d k).
  assert (∀ i, i ∈ [VINTR; VSUSP; VQUIT] → has_lflag (set_last_signal d None) ISIG && (mapped d k =? cc (set_last_signal d None) i) = false) as Hs.
  { intros i Hi. apply not_true_is_false. intros [H1 H2%Z.eqb_eq]%andb_true_iff. apply Hn. split; [done|].
    rewrite H2. apply (list_elem_of_fmap_2 (cc d) _ _ Hi). }
  rewrite !Hs by set_solver. change (has_lflag (set_last_signal d None) ICANON) with (has_lflag d ICANON). rewrite Hc.
  unfold canonical_byte. cbn [cook]. cbn [line_buf set_last_signal].
  change (cc (set_last_signal d None) ?i) with (cc d i). set (b := mapped d k).
  destruct (b =? NL) eqn:E1; [|destruct (b =? cc d VERASE) eqn:E2; [|destruct (b =? cc d VEOF) eqn:E3; [|destruct (b =? cc d VKILL) eqn:E4]]].
  - intros [= <- <- <-]. split; [done|]. simpl. apply Z.eqb_eq in E1 as ->. by rewrite <-!(assoc_L (++)).
  - destruct (line_buf d) eqn:El; intros [= <- <- <-]; (split; [done|]); simpl; by rewrite ?El.
  - destruct (line_buf d) eqn:El; intros [= <- <- <-]; (split; [done|]); simpl; [done|]. by rewrite El, <-(assoc_L (++)).
  - by intros [= <- <- <-].
  - by intros [= <- <- <-].
Qed.

Lemma poll_fg_data d count me r d' : poll_fg d count me = (r, d') →
  settings d' = settings d ∧ line_buf d' = line_buf d ∧ input_buf d = default [] r ++ input_buf d'.
Proof.
  unfold poll_fg, get_input. repeat case_match; simplify_eq; intros [= <- <-]; simpl; by rewrite ?take_drop.
Qed.

Lemma signal_key_settings d d' k : settings d' = settings d → is_signal_key d' k → is_signal_key d k.
Proof. intros Hs. unfold is_signal_key, mapped, has_lflag, has_iflag, cc. by rewrite Hs. Qed.

(** One step in canonical mode. *)
Lemma tty_exec_cooks w ev keys d0 : has_lflag d0 ICANON = true → settings (tty w) = settings d0 →
  (∀ k, ev = Key k → ¬ is_signal_key d0 k) →
  settings (tty (tty_exec w ev)) = settings d0 ∧
  readable (tty_exec w ev) ++ cook d0 (line_buf (tty (tty_exec w ev))) keys =
  readable w ++ cook d0 (line_buf (tty w)) (keys_of [ev] ++ keys).
Proof.
  intros Hc Hs Hk. unfold readable. destruct ev as [k|me count|count|pgid|pgid]; simpl; [| | |done..].
  - destruct (process_input_byte (tty w) k) as [[d woken] r] eqn:E.
    destruct (key_cooks (tty w) k d woken r keys) as [H1 H2]; [unfold has_lflag in *; by rewrite Hs| |done|].
    { intros Hx. by eapply (Hk k eq_refl), signal_key_settings. }
    split; [simpl; congruence|]. rewrite !(cook_settings d0 (tty w)) in H2 by done.
    rewrite <-!(assoc_L (++)). f_equal. exact H2.
  - case_bool_decide; [done|]. destruct (poll_fg (tty w) count me) as [r d] eqn:E.
    apply poll_fg_data in E as (H1 & H2 & H3). rewrite H3.
    destruct r as [l|]; simpl in *; rewrite H2; (split; [congruence|]); by rewrite <-?(assoc_L (++)).
  - split; [done|]. by rewrite <-!(assoc_L (++)), (assoc_L (++) (take _ _)), take_drop.
Qed.

Lemma tty_run_cooks d0 evs : has_lflag d0 ICANON = true → (∀ k, k ∈ keys_of evs → ¬ is_signal_key d0 k) → ∀ w,
  settings (tty w) = settings d0 → readable (tty_run evs w) = readable w ++ cook d0 (line_buf (tty w)) (keys_of evs).
Proof.
  intros Hc. induction evs as [|ev evs IH]; intros Hk w Hs; [by rewrite app_nil_r|]. unfold tty_run. simpl foldl.
  destruct (tty_exec_cooks w ev (keys_of evs) d0 Hc Hs) as [H1 H2].
  { intros k ->. apply Hk. left. }
  fold (tty_run evs (tty_exec w ev)). rewrite IH; [|intros k Hin; apply Hk; unfold keys_of in *; destruct ev; simpl; set_solver|done].
  rewrite H2. f_equal. by destruct ev.
Qed.

(** Ordinary characters: no newline and no editing key. *)
Definition ordinary (d : TtyDeviceInner) (k : Z) : Prop :=
  mapped d k = k ∧ k ∉ [NL; cc d VERASE; cc d VEOF; cc d VKILL].

Lemma cook_ordinary d line k keys : ordinary d k → cook d line (k :: keys) = cook d (line ++ [k]) keys.
Proof.
  intros [Hm Hk]. cbn [cook]. rewrite Hm. by rewrite !(proj2 (Z.eqb_neq k _)) by set_solver.
Qed.

Lemma cook_erase d line k keys : ordinary d k → mapped d (cc d VERASE) = cc d VERASE → cc d VERASE ≠ NL →
  cook d line (k :: cc d VERASE :: keys) = cook d line keys.
Proof.
  intros Hk Hm Hn. rewrite cook_ordinary by done. cbn [cook]. rewrite Hm, (proj2 (Z.eqb_neq _ _)) by done.
  rewrite Z.eqb_refl. by rewrite removelast_last.
Qed.

Lemma cook_line d line l keys : Forall (ordinary d) l → mapped d NL = NL →
  cook d line (l ++ NL :: keys) = line ++ l ++ NL :: cook d [] keys.
Proof.
  intros Hl Hm. revert line. induction Hl as [|k l Hk Hl IH]; intros line.
  - simpl. by rewrite Hm.
  - simpl app. rewrite cook_ordinary, IH by done. by rewrite <-(assoc_L (++)).
Qed.

(** C29: what is typed is what is read. In canonical mode, in every interleaving of
    keys that are no signals with reads of any size by any readers, the bytes read so
    far followed by those still readable are exactly the finished lines of what was
    typed, in order, each byte once. Lines of ordinary characters are finished as
    they are, and erasing removes the character typed before. *)
Theorem tty_reads_lines d evs : line_buf d = [] → input_buf d = [] → has_lflag d ICANON = true →
  (∀ k, k ∈ keys_of evs → ¬ is_signal_key d k) →
  readable (tty_run evs {| tty := d; asleep := ∅; got := [] |}) = cook d [] (keys_of evs) ∧
  (∀ ls, Forall (Forall (ordinary d)) ls → mapped d NL = NL →
    let typed := mjoin ((λ l, l ++ [NL]) <$> ls) in cook d [] typed = typed) ∧
  (∀ ks k ks', ordinary d k → mapped d (cc d VERASE) = cc d VERASE → cc d VERASE ≠ NL →
    cook d [] (ks ++ k :: cc d VERASE :: ks') = cook d [] (ks ++ ks')).
Proof.
  intros Hl Hi Hc Hk. split; [|split].
  - rewrite (tty_run_cooks d) by done. unfold readable. simpl. by rewrite Hl, Hi.
  - intros ls Hls Hm. induction Hls as [|l ls Hll Hls IH]; [done|]. cbn zeta in *. rewrite fmap_cons.
    change (mjoin ((?a ++ [NL]) :: ?r)) with ((a ++ [NL]) ++ mjoin r). rewrite <-(assoc_L (++)). simpl app.
    rewrite cook_line by done. by rewrite IH.
  - intros ks k ks' Ho Hm Hn. generalize (@nil Z). induction ks as [|x ks IH]; intros line.
    + by apply cook_erase.
    + simpl app. cbn [cook]. by repeat case_match; rewrite ?IH.
Qed.
End runs.

(** The reboot sequence is missed when its first byte comes twice: a byte that does
    not continue the sequence is not taken as its start. *)
Lemma reboot_magic_missed : check_reboot 0 (0xDE :: REBOOT_MAGIC) = (false, 0%nat).
Proof. reflexivity. Qed.

#[local] Instance wit_tty : TtyHeaders := linux_tty.
#[local] Instance wit_signals : SigHeaders := linux_signals.

(** A line with an erased character, read in two pieces. *)
Lemma tty_reads_lines_witness : ∃ w, w = tty_run [Poll 1 2; Key 104; Key 120; Key 127; Key 105; Key 13; Poll 1 2; Poll 2 9]
    {| tty := tty_new; asleep := ∅; got := [] |} ∧ readable w = [104; 105; 10].
Proof.
  eexists. split; [reflexivity|].
  destruct (tty_reads_lines tty_new [Poll 1 2; Key 104; Key 120; Key 127; Key 105; Key 13; Poll 1 2; Poll 2 9])
    as (H & _); [done..| |].
  - intros k Hk [_ Hs]. simpl in Hk.
    repeat (apply elem_of_cons in Hk as [->|Hk]; [apply (bool_decide_eq_true_2 _) in Hs; by vm_compute in Hs|]).
    by apply not_elem_of_nil in Hk.
  - by rewrite H.
Defined.

(** Two readers wait; a line wakes both, and the second waits again. *)
Lemma tty_reader_not_lost_witness : ∃ d' : TtyDeviceInner,
  d' = tty (tty_run [Poll 1 9; Poll 2 9; Key 104; Key 13; Poll 1 9; Poll 2 9] {| tty := tty_new; asleep := ∅; got := [] |}) ∧
  2%nat ∈ wakeup_queue d' ∧ ∀ who, (poll_fg d' 9 who).1 = None.
Proof.
  eexists. split; [reflexivity|].
  apply (tty_reader_not_lost [Poll 1 9; Poll 2 9; Key 104; Key 13; Poll 1 9; Poll 2 9] tty_new 2 9). by vm_compute.
Defined.
