(* ===== verification/Virtqueue.v ===== *)
(** Virtio queues: crates/drivers/src/virtio/virtqueue.rs, with the device's side of
    the protocol as a step relation.

    The driver owns the descriptor table and the available ring, the device the used
    ring; both keep free-running 16-bit indices. A [DmaBuffer] is its physical
    address and length. *)
From S2P Require Import Prelude KUtil.

Record DmaBuffer := Dma { dma_addr : Z; dma_len : Z }.
Inductive BufferDirection := DriverWritable | DeviceWritable.

(** [NonEmptyVec<(DmaBuffer, BufferDirection)>]; chains are not empty. *)
Abbreviation chain := (list (DmaBuffer * BufferDirection)).

Record virtq_desc := Desc { d_addr : Z; d_len : Z; d_flags : Z; d_next : nat }.
Definition desc_zero : virtq_desc := Desc 0 0 0 0.

Definition VIRTQ_DESC_F_NEXT : Z := 1.
Definition VIRTQ_DESC_F_WRITE : Z := 2.
Definition VIRTQ_AVAIL_F_NO_INTERRUPT : Z := 1.

Record VirtQueue := VQ {
  descriptors : list virtq_desc;
  free_descriptor_indices : list nat;
  outstanding_buffers : gmap nat DmaBuffer;
  last_used_ring_index : Z;
  avail_flags : Z;
  avail_idx : Z;
  avail_ring : list nat;
  used_idx : Z;
  used_ring : list (Z * Z);
}.

Definition set_free (q : VirtQueue) (l : list nat) : VirtQueue :=
  VQ (descriptors q) l (outstanding_buffers q) (last_used_ring_index q) (avail_flags q) (avail_idx q) (avail_ring q)
    (used_idx q) (used_ring q).
Definition set_desc (q : VirtQueue) (i : nat) (d : virtq_desc) (o : gmap nat DmaBuffer) : VirtQueue :=
  VQ (<[i := d]> (descriptors q)) (free_descriptor_indices q) o (last_used_ring_index q) (avail_flags q) (avail_idx q)
    (avail_ring q) (used_idx q) (used_ring q).
Definition set_avail (q : VirtQueue) (idx : Z) (ring : list nat) : VirtQueue :=
  VQ (descriptors q) (free_descriptor_indices q) (outstanding_buffers q) (last_used_ring_index q) (avail_flags q) idx ring
    (used_idx q) (used_ring q).
Definition set_last_used (q : VirtQueue) (i : Z) : VirtQueue :=
  VQ (descriptors q) (free_descriptor_indices q) (outstanding_buffers q) i (avail_flags q) (avail_idx q) (avail_ring q)
    (used_idx q) (used_ring q).
Definition set_used (q : VirtQueue) (idx : Z) (ring : list (Z * Z)) : VirtQueue :=
  VQ (descriptors q) (free_descriptor_indices q) (outstanding_buffers q) (last_used_ring_index q) (avail_flags q)
    (avail_idx q) (avail_ring q) idx ring.
Definition enable_interrupts (q : VirtQueue) : VirtQueue :=
  VQ (descriptors q) (free_descriptor_indices q) (outstanding_buffers q) (last_used_ring_index q) 0 (avail_idx q)
    (avail_ring q) (used_idx q) (used_ring q).

Record UsedBufferEntry := UsedEntry { dma : DmaBuffer; written_len : Z }.
Record UsedBuffer := Used { index : nat; buffers : list UsedBufferEntry }.

Section queue.
Variable QUEUE_SIZE : nat.
Abbreviation QS := (Z.of_nat QUEUE_SIZE).
Implicit Types q : VirtQueue.

(** [desc], [driver] and [device] are the addresses of the three areas. *)
Definition virtqueue_new (queue_size desc driver device : Z) : outcome VirtQueue :=
  rassert (QS <? 2 ^ 16);;
  rassert (queue_size =? QS);;
  rassert (is_power_of_two queue_size);;
  rassert (desc mod 16 =? 0);;
  rassert (driver mod 2 =? 0);;
  rassert (device mod 4 =? 0);;
  Ret (VQ (replicate QUEUE_SIZE desc_zero) (seq 0 QUEUE_SIZE) ∅ 0 VIRTQ_AVAIL_F_NO_INTERRUPT 0 (replicate QUEUE_SIZE 0%nat)
         0 (replicate QUEUE_SIZE (0, 0))).

(** [n] times [free_descriptor_indices.pop()]. *)
Fixpoint pop_indices (n : nat) (free : list nat) : outcome (list nat * list nat) :=
  match n with
  | O => Ret ([], free)
  | S n =>
      match last free with
      | None => Panic
      | Some i => '(l, free) ← pop_indices n (removelast free); Ret (i :: l, free)
      end
  end.

Definition desc_of (buf : DmaBuffer) (dir : BufferDirection) (next : option nat) : virtq_desc :=
  let fl := match dir with DeviceWritable => VIRTQ_DESC_F_WRITE | DriverWritable => 0 end in
  match next with
  | Some n => Desc (dma_addr buf) (dma_len buf) (Z.lor fl VIRTQ_DESC_F_NEXT) n
  | None => Desc (dma_addr buf) (dma_len buf) fl 0
  end.

(** The loop that writes the descriptors; [indices] are those not used yet. *)
Fixpoint fill_chain q (indices : list nat) (bufs : chain) : outcome VirtQueue :=
  match bufs with
  | [] => Ret q
  | (buf, dir) :: bufs =>
      match indices with
      | [] => Panic
      | i :: indices =>
          rassert (bool_decide (i < length (descriptors q))%nat);;
          rassert (dma_len buf <? 2 ^ 32);;
          next ← match bufs with
                 | [] => Ret None
                 | _ :: _ => n ← expect (head indices); Ret (Some n)
                 end;
          rassert (bool_decide (outstanding_buffers q !! i = None));;
          fill_chain (set_desc q i (desc_of buf dir next) (<[i := buf]> (outstanding_buffers q))) indices bufs
      end
  end.

(** [None] is [NoFreeDescriptors]. *)
Definition put_buffer_chain q (bufs : chain) : outcome (option nat * VirtQueue) :=
  if bool_decide (length (free_descriptor_indices q) < length bufs)%nat then Ret (None, q)
  else
    '(indices, free) ← pop_indices (length bufs) (free_descriptor_indices q);
    q ← fill_chain (set_free q free) indices bufs;
    h ← expect (head indices);
    Ret (Some h, set_avail q (wrapping_add 16 (avail_idx q) 1)
                   (<[Z.to_nat (avail_idx q mod QS) := h]> (avail_ring q))).

Definition put_buffer q (buf : DmaBuffer) (dir : BufferDirection) : outcome (option nat * VirtQueue) :=
  put_buffer_chain q [(buf, dir)].

(** The loop over a finished chain. A turn takes an outstanding buffer or panics, so
    as many turns as descriptors are enough. *)
Fixpoint collect_chain (fuel : nat) q (current_idx : nat) (remaining : Z) : outcome (list UsedBufferEntry * VirtQueue) :=
  match fuel with
  | O => Panic
  | S fuel =>
      d ← expect (descriptors q !! current_idx);
      stored ← expect (outstanding_buffers q !! current_idx);
      let writable := negb (Z.land (d_flags d) VIRTQ_DESC_F_WRITE =? 0) in
      let written := if writable then Z.min remaining (dma_len stored) else dma_len stored in
      let remaining := if writable then Z.max 0 (remaining - dma_len stored) else remaining in
      let q := set_desc q current_idx desc_zero (delete current_idx (outstanding_buffers q)) in
      let q := set_free q (free_descriptor_indices q ++ [current_idx]) in
      if negb (Z.land (d_flags d) VIRTQ_DESC_F_NEXT =? 0) then
        '(rest, q) ← collect_chain fuel q (d_next d) remaining;
        Ret (UsedEntry stored written :: rest, q)
      else Ret ([UsedEntry stored written], q)
  end.

(** The loop over the used ring, up to the index read at the start. *)
Fixpoint receive_loop (fuel : nat) q (current_device_index : Z) : outcome (list UsedBuffer * VirtQueue) :=
  if last_used_ring_index q =? current_device_index then Ret ([], q)
  else match fuel with
       | O => Panic
       | S fuel =>
           '(result_id, result_len) ← expect (used_ring q !! Z.to_nat (last_used_ring_index q mod QS));
           rassert (result_id <? QS);;
           let head_index := Z.to_nat result_id in
           '(entries, q) ← collect_chain (S QUEUE_SIZE) q head_index result_len;
           let q := set_last_used q (wrapping_add 16 (last_used_ring_index q) 1) in
           '(rest, q) ← receive_loop fuel q current_device_index;
           Ret (Used head_index entries :: rest, q)
       end.

Definition receive_buffer q : outcome (list UsedBuffer * VirtQueue) :=
  receive_loop (Z.to_nat ((used_idx q - last_used_ring_index q) mod 2 ^ 16)) q (used_idx q).

(** ** The device's side *)
(** The next entry of the available ring it will take, and the chains it works on. *)
Record World := { vq : VirtQueue; dev_avail : Z; dev_inflight : list nat }.

Inductive vq_event :=
  | Put (c : chain)
  | Take
  | Complete (k : nat) (len : Z)
  | Receive.

Inductive vq_output := PutOut (h : option nat) | NoOut | ReceiveOut (l : list UsedBuffer).

(** A device that follows the protocol takes entries in order, and finishes the
    chains it works on in any order. *)
Definition vq_exec (w : World) (ev : vq_event) : outcome (vq_output * World) :=
  match ev with
  | Put c =>
      '(h, q) ← put_buffer_chain (vq w) c;
      Ret (PutOut h, {| vq := q; dev_avail := dev_avail w; dev_inflight := dev_inflight w |})
  | Take =>
      if dev_avail w =? avail_idx (vq w) then Ret (NoOut, w)
      else
        h ← expect (avail_ring (vq w) !! Z.to_nat (dev_avail w mod QS));
        Ret (NoOut, {| vq := vq w; dev_avail := wrapping_add 16 (dev_avail w) 1; dev_inflight := dev_inflight w ++ [h] |})
  | Complete k len =>
      match dev_inflight w !! k with
      | None => Ret (NoOut, w)
      | Some h =>
          let q := vq w in
          Ret (NoOut, {| vq := set_used q (wrapping_add 16 (used_idx q) 1)
                                 (<[Z.to_nat (used_idx q mod QS) := (Z.of_nat h, len)]> (used_ring q));
                         dev_avail := dev_avail w; dev_inflight := delete k (dev_inflight w) |})
      end
  | Receive =>
      '(l, q) ← receive_buffer (vq w);
      Ret (ReceiveOut l, {| vq := q; dev_avail := dev_avail w; dev_inflight := dev_inflight w |})
  end.

Fixpoint vq_run (w : World) (evs : list vq_event) : outcome (list vq_output * World) :=
  match evs with
  | [] => Ret ([], w)
  | ev :: evs => '(o, w) ← vq_exec w ev; '(os, w) ← vq_run w evs; Ret (o :: os, w)
  end.

(** ** The abstract queue *)
(** Requests with the name the driver knows them by: waiting, worked on, and done
    with the number of bytes the device wrote. *)
Record Requests := {
  waiting : list (nat * chain);
  working : list (nat * chain);
  finished : list (nat * chain * Z);
}.

Definition names (a : Requests) : list nat := (waiting a).*1 ++ (working a).*1 ++ (finished a).*1.*1.
Definition chains_of (a : Requests) : list chain := (waiting a).*2 ++ (working a).*2 ++ (finished a).*1.*2.

(** Descriptors in use. *)
Definition in_use (a : Requests) : nat := length (mjoin (chains_of a)).

(** The device's count of written bytes distributed over the writable buffers. *)
Fixpoint used_entries (c : chain) (remaining : Z) : list UsedBufferEntry :=
  match c with
  | [] => []
  | (buf, DeviceWritable) :: c =>
      UsedEntry buf (Z.min remaining (dma_len buf)) :: used_entries c (Z.max 0 (remaining - dma_len buf))
  | (buf, DriverWritable) :: c => UsedEntry buf (dma_len buf) :: used_entries c remaining
  end.

Inductive request_step : Requests → vq_event → vq_output → Requests → Prop :=
  | step_full a c : (QUEUE_SIZE < in_use a + length c)%nat → request_step a (Put c) (PutOut None) a
  | step_put a c h : (in_use a + length c ≤ QUEUE_SIZE)%nat → h ∉ names a →
      request_step a (Put c) (PutOut (Some h))
        {| waiting := waiting a ++ [(h, c)]; working := working a; finished := finished a |}
  | step_take a h c l : waiting a = (h, c) :: l →
      request_step a Take NoOut {| waiting := l; working := working a ++ [(h, c)]; finished := finished a |}
  | step_take_none a : waiting a = [] → request_step a Take NoOut a
  | step_complete a k len h c : working a !! k = Some (h, c) →
      request_step a (Complete k len) NoOut
        {| waiting := waiting a; working := delete k (working a); finished := finished a ++ [(h, c, len)] |}
  | step_complete_none a k len : working a !! k = None → request_step a (Complete k len) NoOut a
  | step_receive a : request_step a Receive (ReceiveOut ((λ f, Used f.1.1 (used_entries f.1.2 f.2)) <$> finished a))
        {| waiting := waiting a; working := working a; finished := [] |}.

Inductive request_run : Requests → list vq_event → list vq_output → Requests → Prop :=
  | run_nil a : request_run a [] [] a
  | run_cons a ev o a1 evs os a2 : request_step a ev o a1 → request_run a1 evs os a2 →
      request_run a (ev :: evs) (o :: os) a2.
End queue.
