(* ===== verification/VirtqueueTheorems.v ===== *)
(** The virtio queue implements a queue of requests: each is handed to the device
    once, and comes back once, with its own buffers. *)
From S2P Require Import Prelude KUtil Virtqueue.

(** ** Rings indexed by free-running counters *)
Section ring.
Variable QUEUE_SIZE : nat.
Hypothesis HQ : ∃ k, 0 ≤ k ≤ 15 ∧ Z.of_nat QUEUE_SIZE = 2 ^ k.
Abbreviation QS := (Z.of_nat QUEUE_SIZE).

Definition slot (x : Z) : nat := Z.to_nat (x mod QS).

Lemma QS_pos : 0 < QS ≤ 2 ^ 15.
Proof.
  destruct HQ as (k & ? & ->). split; [by apply Z.pow_pos_nonneg; lia|]. by apply Z.pow_le_mono_r; lia.
Qed.

Lemma QS_divide : (QS | 2 ^ 16).
Proof.
  destruct HQ as (k & Hk & ->). exists (2 ^ (16 - k)). rewrite <-Z.pow_add_r by lia. f_equal. lia.
Qed.

Lemma slot_wrap x : slot (x mod 2 ^ 16) = slot x.
Proof. unfold slot. by rewrite Z.mod_mod_divide by apply QS_divide. Qed.

Lemma slot_lt x : (slot x < QUEUE_SIZE)%nat.
Proof. unfold slot. pose proof QS_pos. pose proof (Z.mod_pos_bound x QS). lia. Qed.

Lemma slot_inj x y : slot x = slot y → - QS < x - y < QS → x = y.
Proof.
  unfold slot. pose proof QS_pos as Hq. intros H Hd. apply Z2Nat.inj in H; [|apply Z.mod_pos_bound; lia..].
  assert ((x - y) mod QS = 0) as H0 by (rewrite Zminus_mod, H, Z.sub_diag; apply Z.mod_0_l; lia).
  apply (proj1 (Z.mod_divide (x - y) QS ltac:(lia))) in H0 as [z Hz].
  destruct (Z.lt_trichotomy z 0) as [?|[->|?]]; [nia|lia|nia].
Qed.

(** The elements [l] are in the ring from index [start] on. *)
Definition ring_ok {A} (ring : list A) (start : Z) (l : list A) : Prop :=
  length ring = QUEUE_SIZE ∧ (length l ≤ QUEUE_SIZE)%nat ∧
  ∀ j x, l !! j = Some x → ring !! slot (start + Z.of_nat j) = Some x.

Lemma ring_push {A} (ring : list A) start l x : ring_ok ring start l → (length l < QUEUE_SIZE)%nat →
  ring_ok (<[slot (start + Z.of_nat (length l)) := x]> ring) start (l ++ [x]).
Proof.
  intros (Hr & Hl & H) Hlt. split; [by rewrite length_insert|]. split; [rewrite length_app; simpl; lia|].
  intros j y [Hy|[Hj Hy]]%lookup_app_Some.
  - rewrite list_lookup_insert_ne; [by apply H|]. intros E%slot_inj.
    + apply lookup_lt_Some in Hy. lia.
    + apply lookup_lt_Some in Hy. lia.
  - apply list_lookup_singleton_Some in Hy as [Hj' ->]. replace j with (length l) by lia.
    apply list_lookup_insert_eq. rewrite Hr. apply slot_lt.
Qed.

Lemma ring_pop {A} (ring : list A) start x l : ring_ok ring start (x :: l) →
  ring !! slot start = Some x ∧ ring_ok ring (start + 1) l.
Proof.
  intros (Hr & Hl & H). split; [rewrite <-(H O x eq_refl); do 2 f_equal; lia|]. split; [done|]. split; [simpl in Hl; lia|].
  intros j y Hy. rewrite <-(H (S j) y Hy). do 2 f_equal. lia.
Qed.

Lemma ring_wrap {A} (ring : list A) start l : ring_ok ring (start mod 2 ^ 16) l ↔ ring_ok ring start l.
Proof.
  assert (∀ j, slot (start mod 2 ^ 16 + j) = slot (start + j)) as E.
  { intros j. by rewrite <-(slot_wrap (start mod 2 ^ 16 + j)), Z.add_mod_idemp_l, slot_wrap by lia. }
  unfold ring_ok. by setoid_rewrite E.
Qed.

(** A counter [n] steps ahead of another. *)
Definition ahead (lo hi : Z) (n : nat) : Prop := 0 ≤ lo < 2 ^ 16 ∧ hi = (lo + Z.of_nat n) mod 2 ^ 16.

Lemma ahead_zero lo hi n : ahead lo hi n → (n ≤ QUEUE_SIZE)%nat → lo = hi ↔ n = O.
Proof.
  intros [Hlo ->] Hn. pose proof QS_pos. split; [|intros ->; rewrite Z.add_0_r, Z.mod_small; lia].
  intros E. destruct (Z.lt_ge_cases (lo + Z.of_nat n) (2 ^ 16)).
  - rewrite Z.mod_small in E by lia. lia.
  - replace (lo + Z.of_nat n) with (lo + Z.of_nat n - 2 ^ 16 + 1 * 2 ^ 16) in E by lia.
    rewrite Z.mod_add, Z.mod_small in E by lia. lia.
Qed.

Lemma ahead_push lo hi n : ahead lo hi n → ahead lo (wrapping_add 16 hi 1) (S n).
Proof. intros [Hlo ->]. split; [done|]. unfold wrapping_add. rewrite Z.add_mod_idemp_l by lia. f_equal. lia. Qed.

Lemma ahead_pop lo hi n : ahead lo hi (S n) → ahead (wrapping_add 16 lo 1) hi n.
Proof.
  intros [Hlo ->]. split; [apply Z.mod_pos_bound; lia|]. unfold wrapping_add. rewrite Z.add_mod_idemp_l by lia. f_equal. lia.
Qed.

Lemma ahead_dist lo hi n : ahead lo hi n → (n ≤ QUEUE_SIZE)%nat → Z.to_nat ((hi - lo) mod 2 ^ 16) = n.
Proof.
  intros [Hlo ->] Hn. pose proof QS_pos. rewrite Zminus_mod_idemp_l. replace (lo + Z.of_nat n - lo) with (Z.of_nat n) by lia.
  rewrite Z.mod_small by lia. lia.
Qed.

Lemma slot_ahead lo hi n : ahead lo hi n → slot hi = slot (lo + Z.of_nat n).
Proof. intros [_ ->]. apply slot_wrap. Qed.
End ring.

(** ** Chains in the descriptor table *)
(** The descriptors [ix] hold the buffers of [c], each linked to the next. *)
Definition links (q : VirtQueue) (ix : list nat) (c : chain) : Prop :=
  length ix = length c ∧
  ∀ j i buf dir, ix !! j = Some i → c !! j = Some (buf, dir) →
    descriptors q !! i = Some (desc_of buf dir (ix !! S j)) ∧ outstanding_buffers q !! i = Some buf.

(** The queues agree but for the descriptors [ix]. *)
Definition same_off (ix : list nat) (q q' : VirtQueue) : Prop :=
  length (descriptors q') = length (descriptors q) ∧
  ∀ i, i ∉ ix → descriptors q' !! i = descriptors q !! i ∧ outstanding_buffers q' !! i = outstanding_buffers q !! i.

(** What the driver does not touch while it handles descriptors. *)
Definition same_rings (q q' : VirtQueue) : Prop :=
  last_used_ring_index q' = last_used_ring_index q ∧ avail_idx q' = avail_idx q ∧ avail_ring q' = avail_ring q ∧
  used_idx q' = used_idx q ∧ used_ring q' = used_ring q.

Lemma links_cons q i ix buf dir c : links q (i :: ix) ((buf, dir) :: c) ↔
  (descriptors q !! i = Some (desc_of buf dir (head ix)) ∧ outstanding_buffers q !! i = Some buf) ∧ links q ix c.
Proof.
  unfold links. split.
  - intros [Hl H]. split; [by destruct (H O i buf dir eq_refl eq_refl) as [H1 H2]; destruct ix|].
    split; [by simplify_eq/=|]. intros j k b d Hj Hc. by apply (H (S j)).
  - intros [[H1 H2] [Hl H]]. split; [simpl; lia|]. intros [|j] k b d Hj Hc; simplify_eq/=; [by destruct ix|by apply H].
Qed.

Lemma links_off q q' ix ix' c : same_off ix' q q' → (∀ i, i ∈ ix → i ∉ ix') → links q ix c → links q' ix c.
Proof.
  intros [_ Hs] Hd [Hl H]. split; [done|]. intros j i buf dir Hj Hc.
  destruct (Hs i) as [-> ->]; [by eapply Hd, list_elem_of_lookup_2|]. by apply (H j).
Qed.

Lemma same_off_trans ix q1 q2 q3 : same_off ix q1 q2 → same_off ix q2 q3 → same_off ix q1 q3.
Proof. intros [? H1] [? H2]. split; [congruence|]. intros i Hi. destruct (H1 i Hi), (H2 i Hi). by split; congruence. Qed.
Lemma same_off_mono ix ix' q q' : same_off ix q q' → ix ⊆ ix' → same_off ix' q q'.
Proof. intros [? H] Hs. split; [done|]. intros i Hi. apply H. set_solver. Qed.

Lemma desc_write buf dir n : negb (Z.land (d_flags (desc_of buf dir n)) VIRTQ_DESC_F_WRITE =? 0) =
  match dir with DeviceWritable => true | DriverWritable => false end.
Proof. by destruct dir, n. Qed.
Lemma desc_has_next buf dir n : negb (Z.land (d_flags (desc_of buf dir n)) VIRTQ_DESC_F_NEXT =? 0) = bool_decide (is_Some n).
Proof. by destruct dir, n. Qed.

(** Popping free descriptors. *)
Lemma pop_indices_Ret n free : (n ≤ length free)%nat → ∃ ix free', pop_indices n free = Ret (ix, free') ∧
  length ix = n ∧ ix ++ free' ≡ₚ free.
Proof.
  revert free. induction n as [|n IH]; intros free Hn; simpl; [by exists [], free|].
  destruct free as [|x free _] using rev_ind; [simpl in Hn; lia|]. rewrite last_snoc, removelast_last.
  rewrite length_app in Hn. simpl in Hn. destruct (IH free) as (ix & free' & -> & Hl & Hp); [lia|]. bstep.
  exists (x :: ix), free'. split; [done|]. split; [simpl; lia|]. rewrite <-Permutation_cons_append. simpl. by rewrite Hp.
Qed.

(** Writing a chain. *)
Lemma fill_chain_Ret c : ∀ q ix, length ix = length c → NoDup ix →
  Forall (λ i, (i < length (descriptors q))%nat ∧ outstanding_buffers q !! i = None) ix →
  Forall (λ b, dma_len b.1 < 2 ^ 32) c →
  ∃ q', fill_chain q ix c = Ret q' ∧ links q' ix c ∧ same_off ix q q' ∧ same_rings q q' ∧
    free_descriptor_indices q' = free_descriptor_indices q.
Proof.
  induction c as [|[buf dir] c IH]; intros q ix Hl Hd Hf Hb.
  { destruct ix; [|done]. exists q. split; [done|]. by repeat split. }
  destruct ix as [|i ix]; [done|]. apply Forall_cons in Hf as [[Hi Ho] Hf]. apply Forall_cons in Hb as [Hb1 Hb]. apply NoDup_cons in Hd as [Hn Hd].
  simpl. rewrite bool_decide_true by done. bstep. rewrite (proj2 (Z.ltb_lt _ _)) by done. bstep.
  assert (∀ B (k : option nat → outcome B), (next ← match c with [] => Ret None | _ :: _ => n ← expect (head ix); Ret (Some n) end; k next)
    = k (head ix)) as Hk.
  { intros B k. destruct c, ix; by simplify_eq/=. }
  rewrite Hk, bool_decide_true by done. bstep. set (q1 := set_desc q i _ _).
  destruct (IH q1 ix) as (q' & -> & Hlk & Hs & Hr & Hfr); [by simplify_eq/=|done| |done|].
  { eapply Forall_impl; [apply Forall_and; split; [exact Hf|]|].
    - apply Forall_forall. intros j Hj. exact (λ E : j = i, Hn (eq_ind _ (λ x, x ∈ ix) Hj _ E)).
    - intros j [[? ?] ?]. simpl. rewrite length_insert, lookup_insert_ne by congruence. done. }
  exists q'. split; [done|]. split.
  - apply links_cons. split; [|done]. destruct Hs as [_ Hs]. destruct (Hs i Hn) as [-> ->]. simpl.
    by rewrite list_lookup_insert_eq, lookup_insert_eq.
  - split; [|done]. eapply same_off_trans; [|eapply same_off_mono; [exact Hs|set_solver]]. split; [apply length_insert|].
    intros j Hj. simpl. by rewrite list_lookup_insert_ne, lookup_insert_ne by set_solver.
Qed.

(** Taking a finished chain apart. *)
Lemma collect_chain_Ret c : ∀ fuel q i ix rem, links q (i :: ix) c → NoDup (i :: ix) → (length ix < fuel)%nat →
  ∃ q', collect_chain fuel q i rem = Ret (used_entries c rem, q') ∧ same_off (i :: ix) q q' ∧ same_rings q q' ∧
    free_descriptor_indices q' = free_descriptor_indices q ++ i :: ix ∧
    ∀ j, j ∈ i :: ix → outstanding_buffers q' !! j = None.
Proof.
  induction c as [|[buf dir] c IH]; intros [|fuel] q i ix rem Hlk Hd Hf; try lia; [by destruct Hlk|].
  apply links_cons in Hlk as [[H1 H2] Hlk]. cbn [collect_chain]. rewrite H1, H2. bstep.
  rewrite desc_write, desc_has_next. set (q1 := set_free (set_desc q i desc_zero _) _).
  assert (same_off [i] q q1) as Hs1.
  { split; [apply length_insert|]. intros j Hj. simpl. by rewrite list_lookup_insert_ne, lookup_delete_ne by set_solver. }
  assert (outstanding_buffers q1 !! i = None) as Hn1 by (simpl; apply lookup_delete_eq).
  apply NoDup_cons in Hd as [Hni Hd].
  destruct ix as [|i2 ix]; cbn [head].
  - destruct c; [|by destruct Hlk]. rewrite bool_decide_false by (by intros []). exists q1. split; [by destruct dir|].
    split; [done|]. split; [done|]. split; [done|]. intros j Hj. by replace j with i by set_solver.
  - rewrite bool_decide_true by done.
    replace (d_next (desc_of buf dir (Some i2))) with i2 by by destruct dir.
    destruct (IH fuel q1 i2 ix (if match dir with DeviceWritable => true | DriverWritable => false end
      then Z.max 0 (rem - dma_len buf) else rem)) as (q' & Hc & Hs & Hr & Hfr & Hn).
    { eapply links_off; [exact Hs1| |done]. set_solver. }
    { done. }
    { simpl in Hf. lia. }
    exists q'. split; [destruct dir; simpl in Hc |- *; by rewrite Hc|].
    split; [eapply same_off_trans; [eapply same_off_mono|eapply same_off_mono]; [exact Hs1|set_solver|exact Hs|set_solver]|].
    split; [done|]. split; [rewrite Hfr; simpl; by rewrite <-(assoc_L (++))|].
    intros j [->|Hj]%elem_of_cons; [|by apply Hn]. destruct Hs as [_ Hs]. destruct (Hs i Hni) as [_ ->]. done.
Qed.

(** ** The simulation *)
Section simulation.
Variable QUEUE_SIZE : nat.
Hypothesis HQ : ∃ k, 0 ≤ k ≤ 15 ∧ Z.of_nat QUEUE_SIZE = 2 ^ k.
Abbreviation QS := (Z.of_nat QUEUE_SIZE).

(** A request with the descriptors that hold it; the first is its name. *)
Abbreviation entry := (list nat * chain)%type.
Definition name_of (e : entry) : nat := hd O e.1.
Definition request_of (e : entry) : nat * chain := (name_of e, e.2).

Record sim (w : World) (a : Requests) (W I : list entry) (F : list (entry * Z)) : Prop := {
  sim_waiting : waiting a = request_of <$> W;
  sim_working : working a = request_of <$> I;
  sim_finished : finished a = (λ f, (request_of f.1, f.2)) <$> F;
  sim_links : Forall (λ e, e.2 ≠ [] ∧ links (vq w) e.1 e.2) (W ++ I ++ F.*1);
  sim_perm : free_descriptor_indices (vq w) ++ mjoin (W ++ I ++ F.*1).*1 ≡ₚ seq 0 QUEUE_SIZE;
  sim_free : ∀ i, i ∈ free_descriptor_indices (vq w) → outstanding_buffers (vq w) !! i = None;
  sim_table : length (descriptors (vq w)) = QUEUE_SIZE;
  sim_inflight : dev_inflight w = name_of <$> I;
  sim_avail : ahead (dev_avail w) (avail_idx (vq w)) (length W);
  sim_avail_ring : ring_ok QUEUE_SIZE (avail_ring (vq w)) (dev_avail w) (name_of <$> W);
  sim_used : ahead (last_used_ring_index (vq w)) (used_idx (vq w)) (length F);
  sim_used_ring : ring_ok QUEUE_SIZE (used_ring (vq w)) (last_used_ring_index (vq w))
    ((λ f, (Z.of_nat (name_of f.1), f.2)) <$> F);
}.

Definition simulates w a : Prop := ∃ W I F, sim w a W I F.

Implicit Types (w : World) (a : Requests) (W I : list entry) (F : list (entry * Z)).

Lemma join_length (l : list entry) q : Forall (λ e, e.2 ≠ [] ∧ links q e.1 e.2) l →
  length (mjoin l.*1) = length (mjoin l.*2) ∧ (length l ≤ length (mjoin l.*1))%nat.
Proof.
  induction 1 as [|[ix c] l [Hc [Hl _]] _ [IH1 IH2]]; [done|]. rewrite !fmap_cons. cbn [fst snd length] in *.
  change (mjoin (?x :: ?r)) with (x ++ mjoin r). rewrite !length_app. destruct c; [done|]. simpl in *. lia.
Qed.

Lemma sim_lengths w a W I F : sim w a W I F →
  (length (free_descriptor_indices (vq w)) + in_use a = QUEUE_SIZE)%nat ∧
  (length W + length I + length F ≤ in_use a)%nat.
Proof.
  intros HS. destruct (join_length _ _ (sim_links _ _ _ _ _ HS)) as [H1 H2].
  pose proof (Permutation_length (sim_perm _ _ _ _ _ HS)) as Hp. rewrite length_app, length_seq in Hp.
  rewrite !length_app, !length_fmap in H2. unfold in_use, chains_of.
  rewrite (sim_waiting _ _ _ _ _ HS), (sim_working _ _ _ _ _ HS), (sim_finished _ _ _ _ _ HS).
  assert ((request_of <$> W).*2 ++ (request_of <$> I).*2 ++ ((λ f, (request_of f.1, f.2)) <$> F).*1.*2
    = (W ++ I ++ F.*1).*2) as ->; [|split; lia].
  rewrite !fmap_app, <-!list_fmap_compose. done.
Qed.

(** The names are distinct descriptors, and none is free. *)
Lemma sim_names w a W I F i : sim w a W I F → i ∈ names a → i ∈ mjoin (W ++ I ++ F.*1).*1.
Proof.
  intros HS. unfold names. rewrite (sim_waiting _ _ _ _ _ HS), (sim_working _ _ _ _ _ HS), (sim_finished _ _ _ _ _ HS).
  assert ((request_of <$> W).*1 ++ (request_of <$> I).*1 ++ ((λ f, (request_of f.1, f.2)) <$> F).*1.*1
    = name_of <$> (W ++ I ++ F.*1)) as ->.
  { rewrite !fmap_app, <-!list_fmap_compose. done. }
  intros ([ix c] & -> & He)%list_elem_of_fmap. pose proof (sim_links _ _ _ _ _ HS) as Hl.
  rewrite Forall_forall in Hl. destruct (Hl _ He) as [Hc [Hlen _]]. simpl in *.
  apply list_elem_of_join. exists ix. split; [|by apply (list_elem_of_fmap_2 fst) in He].
  destruct ix; [by destruct c|left].
Qed.

Lemma sim_NoDup w a W I F : sim w a W I F → NoDup (free_descriptor_indices (vq w) ++ mjoin (W ++ I ++ F.*1).*1).
Proof. intros HS. rewrite (sim_perm _ _ _ _ _ HS). apply NoDup_seq. Qed.

Lemma elem_of_snoc_mid (l r : list entry) x e : e ∈ (l ++ [x]) ++ r → e = x ∨ e ∈ l ++ r.
Proof. set_solver. Qed.

(** *** Put *)
Definition event_ok (ev : vq_event) : Prop :=
  match ev with Put c => c ≠ [] ∧ Forall (λ b, dma_len b.1 < 2 ^ 32) c | _ => True end.

Lemma sim_put w a c : simulates w a → event_ok (Put c) → ∃ o w' a',
  vq_exec QUEUE_SIZE w (Put c) = Ret (o, w') ∧ request_step QUEUE_SIZE a (Put c) o a' ∧ simulates w' a'.
Proof.
  intros (W & I & F & HS) [Hc Hb]. destruct (sim_lengths _ _ _ _ _ HS) as [Hn1 Hn2]. cbn [vq_exec]. unfold put_buffer_chain.
  case_bool_decide as Hlt.
  { bstep. eexists _, _, a. split; [reflexivity|]. split; [constructor; lia|]. exists W, I, F. by destruct w. }
  destruct (pop_indices_Ret (length c) (free_descriptor_indices (vq w))) as (ix & free & -> & Hl & Hp); [lia|]. bstep.
  pose proof (sim_NoDup _ _ _ _ _ HS) as Hd. rewrite <-Hp in Hd. rewrite <-(assoc_L (++)) in Hd.
  pose proof Hd as (Hd1 & Hd2 & Hd3)%NoDup_app.
  destruct (fill_chain_Ret c (set_free (vq w) free) ix) as (q' & -> & Hlk & Hs & (R1 & R2 & R3 & R4 & R5) & Hf); [done|done| |done|].
  { apply Forall_forall. intros i Hi. simpl. rewrite (sim_table _ _ _ _ _ HS).
    assert (i ∈ free_descriptor_indices (vq w)) as Hif by (rewrite <-Hp; set_solver). split; [|by apply (sim_free _ _ _ _ _ HS)].
    assert (i ∈ seq 0 QUEUE_SIZE) as Hseq by (rewrite <-(sim_perm _ _ _ _ _ HS); set_solver).
    apply elem_of_seq in Hseq. lia. }
  bstep. destruct ix as [|h ix]; [by destruct c|]. simpl expect. bstep.
  eexists _, _, _. split; [reflexivity|]. split; [apply (step_put _ _ _ h); [lia|]|].
  { intros Hin%(sim_names _ _ _ _ _ _ HS). apply (Hd2 h); [left|]. set_solver. }
  exists (W ++ [(h :: ix, c)]), I, F. split; simpl.
  - rewrite fmap_app, (sim_waiting _ _ _ _ _ HS). done.
  - apply (sim_working _ _ _ _ _ HS).
  - apply (sim_finished _ _ _ _ _ HS).
  - apply Forall_forall. intros e [->|He]%(elem_of_snoc_mid W (I ++ F.*1)); [by split|].
    destruct (proj1 (Forall_forall _ _) (sim_links _ _ _ _ _ HS) e He) as [He1 He2]. split; [done|].
    eapply (links_off (vq w)); [exact Hs| |done]. intros i Hi Hin. apply (Hd2 i Hin). apply elem_of_app. right.
    apply list_elem_of_join. exists e.1. split; [done|]. by apply (list_elem_of_fmap_2 fst).
  - rewrite Hf. simpl. rewrite <-(sim_perm _ _ _ _ _ HS), <-Hp. rewrite <-!(assoc_L (++)), !fmap_app, !join_app. simpl.
    rewrite app_nil_r. solve_Permutation.
  - rewrite Hf. simpl. intros i Hi. destruct Hs as [_ Hs]. destruct (Hs i) as [_ ->].
    + intros Hin. apply (Hd2 i Hin). set_solver.
    + apply (sim_free _ _ _ _ _ HS). rewrite <-Hp. set_solver.
  - destruct Hs as [-> _]. apply (sim_table _ _ _ _ _ HS).
  - apply (sim_inflight _ _ _ _ _ HS).
  - rewrite R2, length_app, Nat.add_1_r. apply ahead_push. apply (sim_avail _ _ _ _ _ HS).
  - rewrite R2, R3, fmap_app. pose proof (sim_avail _ _ _ _ _ HS) as Ha. apply (slot_ahead _ HQ) in Ha.
    change (Z.to_nat (avail_idx (set_free (vq w) free) mod QS)) with (slot QUEUE_SIZE (avail_idx (vq w))).
    rewrite Ha, <-(length_fmap name_of W). apply ring_push; [done|apply (sim_avail_ring _ _ _ _ _ HS)|].
    rewrite length_fmap. destruct c; [done|]. simpl in Hlt. lia.
  - rewrite R1, R4. apply (sim_used _ _ _ _ _ HS).
  - rewrite R1, R5. apply (sim_used_ring _ _ _ _ _ HS).
Qed.

(** *** Take and complete *)
Lemma join_perm (l l' : list entry) : l ≡ₚ l' → mjoin l.*1 ≡ₚ mjoin l'.*1.
Proof.
  induction 1 as [|x l l' _ IH|x y l|l l2 l' _ IH1 _ IH2]; [done| | |by etrans].
  - simpl. by rewrite IH.
  - simpl. change (mjoin (?x :: ?r)) with (x ++ mjoin r). solve_Permutation.
Qed.

(** Requests that change places keep their descriptors. *)
Lemma links_perm q (l l' : list entry) : l ≡ₚ l' → Forall (λ e, e.2 ≠ [] ∧ links q e.1 e.2) l →
  Forall (λ e, e.2 ≠ [] ∧ links q e.1 e.2) l'.
Proof. by intros ->. Qed.

Lemma sim_take w a : simulates w a → ∃ o w' a',
  vq_exec QUEUE_SIZE w Take = Ret (o, w') ∧ request_step QUEUE_SIZE a Take o a' ∧ simulates w' a'.
Proof.
  intros (W & I & F & HS). destruct (sim_lengths _ _ _ _ _ HS) as [Hn1 Hn2]. cbn [vq_exec].
  pose proof (ahead_zero _ HQ _ _ _ (sim_avail _ _ _ _ _ HS)) as Hz. destruct W as [|e W].
  { rewrite (proj2 (Z.eqb_eq _ _)) by (apply Hz; simpl; lia). eexists _, _, a. split; [reflexivity|].
    split; [apply step_take_none, (sim_waiting _ _ _ _ _ HS)|]. by exists [], I, F. }
  rewrite (proj2 (Z.eqb_neq _ _)) by (rewrite Hz by (simpl in *; lia); done).
  destruct (ring_pop _ _ _ _ _ (sim_avail_ring _ _ _ _ _ HS)) as [Hr1 Hr2].
  change (Z.to_nat (dev_avail w mod QS)) with (slot QUEUE_SIZE (dev_avail w)). rewrite Hr1. bstep.
  assert ((e :: W) ++ I ++ F.*1 ≡ₚ W ++ (I ++ [e]) ++ F.*1) as Hp by solve_Permutation.
  eexists _, _, _. split; [reflexivity|]. split.
  { eapply (step_take _ a (name_of e) e.2). apply (sim_waiting _ _ _ _ _ HS). }
  exists W, (I ++ [e]), F. split; simpl.
  - done.
  - rewrite fmap_app, (sim_working _ _ _ _ _ HS). done.
  - apply (sim_finished _ _ _ _ _ HS).
  - eapply links_perm; [exact Hp|apply (sim_links _ _ _ _ _ HS)].
  - rewrite <-(join_perm _ _ Hp). apply (sim_perm _ _ _ _ _ HS).
  - apply (sim_free _ _ _ _ _ HS).
  - apply (sim_table _ _ _ _ _ HS).
  - rewrite fmap_app, (sim_inflight _ _ _ _ _ HS). done.
  - apply ahead_pop, (sim_avail _ _ _ _ _ HS).
  - by apply ring_wrap.
  - apply (sim_used _ _ _ _ _ HS).
  - apply (sim_used_ring _ _ _ _ _ HS).
Qed.

Lemma sim_complete w a k len : simulates w a → ∃ o w' a',
  vq_exec QUEUE_SIZE w (Complete k len) = Ret (o, w') ∧ request_step QUEUE_SIZE a (Complete k len) o a' ∧ simulates w' a'.
Proof.
  intros (W & I & F & HS). destruct (sim_lengths _ _ _ _ _ HS) as [Hn1 Hn2]. cbn [vq_exec].
  rewrite (sim_inflight _ _ _ _ _ HS), list_lookup_fmap. destruct (I !! k) as [e|] eqn:Ek; simpl.
  2:{ eexists _, _, a. split; [reflexivity|]. split; [|by exists W, I, F].
      apply step_complete_none. by rewrite (sim_working _ _ _ _ _ HS), list_lookup_fmap, Ek. }
  assert (W ++ I ++ F.*1 ≡ₚ W ++ delete k I ++ (F ++ [(e, len)]).*1) as Hp.
  { rewrite (delete_Permutation _ _ _ Ek) at 1. rewrite fmap_app. simpl. solve_Permutation. }
  pose proof (lookup_lt_Some _ _ _ Ek) as Hk.
  eexists _, _, _. split; [reflexivity|]. split.
  { apply (step_complete _ a k len (name_of e) e.2). by rewrite (sim_working _ _ _ _ _ HS), list_lookup_fmap, Ek. }
  exists W, (delete k I), (F ++ [(e, len)]). split; simpl.
  - apply (sim_waiting _ _ _ _ _ HS).
  - rewrite (sim_working _ _ _ _ _ HS). by rewrite list_fmap_delete.
  - rewrite fmap_app, (sim_finished _ _ _ _ _ HS). done.
  - eapply links_perm; [exact Hp|]. apply (sim_links _ _ _ _ _ HS).
  - rewrite <-(join_perm _ _ Hp). apply (sim_perm _ _ _ _ _ HS).
  - apply (sim_free _ _ _ _ _ HS).
  - apply (sim_table _ _ _ _ _ HS).
  - by rewrite list_fmap_delete.
  - apply (sim_avail _ _ _ _ _ HS).
  - apply (sim_avail_ring _ _ _ _ _ HS).
  - rewrite length_app, Nat.add_1_r. apply ahead_push, (sim_used _ _ _ _ _ HS).
  - rewrite fmap_app. pose proof (sim_used _ _ _ _ _ HS) as Hu. apply (slot_ahead _ HQ) in Hu.
    change (Z.to_nat (used_idx (vq w) mod QS)) with (slot QUEUE_SIZE (used_idx (vq w))). rewrite Hu.
    rewrite <-(length_fmap (λ f : entry * Z, (Z.of_nat (name_of f.1), f.2)) F).
    apply ring_push; [done|apply (sim_used_ring _ _ _ _ _ HS)|]. rewrite length_fmap. lia.
Qed.

(** *** Receive *)
Definition with_finished a (l : list (nat * chain * Z)) : Requests :=
  {| waiting := waiting a; working := working a; finished := l |}.
Definition with_vq w (q : VirtQueue) : World := {| vq := q; dev_avail := dev_avail w; dev_inflight := dev_inflight w |}.

(** One finished chain is taken apart. *)
Lemma sim_receive_one w a W I e len F : sim w a W I ((e, len) :: F) →
  used_ring (vq w) !! slot QUEUE_SIZE (last_used_ring_index (vq w)) = Some (Z.of_nat (name_of e), len) ∧
  (name_of e < QUEUE_SIZE)%nat ∧
  ∃ q, collect_chain (S QUEUE_SIZE) (vq w) (name_of e) len = Ret (used_entries e.2 len, q) ∧ used_idx q = used_idx (vq w) ∧
    sim (with_vq w (set_last_used q (wrapping_add 16 (last_used_ring_index q) 1))) (with_finished a ((λ f, (request_of f.1, f.2)) <$> F)) W I F.
Proof.
  intros HS. destruct (ring_pop _ _ _ _ _ (sim_used_ring _ _ _ _ _ HS)) as [Hr1 Hr2]. split; [exact Hr1|].
  assert (W ++ I ++ ((e, len) :: F).*1 ≡ₚ e :: W ++ I ++ F.*1) as Hp by (simpl; solve_Permutation).
  pose proof (links_perm _ _ _ Hp (sim_links _ _ _ _ _ HS)) as [[He1 He2] Hls]%Forall_cons.
  pose proof (sim_perm _ _ _ _ _ HS) as HP. rewrite (join_perm _ _ Hp) in HP. rewrite fmap_cons in HP.
  change (mjoin (?x :: ?r)) with (x ++ mjoin r) in HP.
  destruct e as [[|h ix] c]; [by destruct c, He2|]. cbn [fst snd name_of hd] in *. change (name_of (h :: ix, c)) with h.
  assert (NoDup (free_descriptor_indices (vq w) ++ (h :: ix) ++ mjoin (W ++ I ++ F.*1).*1)) as Hd by (rewrite HP; apply NoDup_seq).
  apply NoDup_app in Hd as (Hd1 & Hd2 & Hd3). apply NoDup_app in Hd3 as (Hd3 & Hd4 & Hd5).
  assert (∀ i, i ∈ h :: ix → (i < QUEUE_SIZE)%nat) as Hlt.
  { intros i Hi. assert (i ∈ seq 0 QUEUE_SIZE) as Hs by (rewrite <-HP; set_solver). apply elem_of_seq in Hs. lia. }
  split; [apply Hlt; left|].
  destruct (collect_chain_Ret c (S QUEUE_SIZE) (vq w) h ix len He2 Hd3) as (q & Hc & Hs & (R1 & R2 & R3 & R4 & R5) & Hf & Hn).
  { pose proof (Permutation_length HP) as Hl. rewrite !length_app, length_seq in Hl. simpl in Hl. lia. }
  exists q. split; [exact Hc|]. split; [done|]. split; simpl.
  - apply (sim_waiting _ _ _ _ _ HS).
  - apply (sim_working _ _ _ _ _ HS).
  - done.
  - apply Forall_forall. intros e He. destruct (proj1 (Forall_forall _ _) Hls e He) as [Hx1 Hx2]. split; [done|].
    eapply (links_off (vq w)); [exact Hs| |done]. intros i Hi Hin. apply (Hd4 i Hin).
    apply list_elem_of_join. exists e.1. split; [done|]. by apply (list_elem_of_fmap_2 fst).
  - rewrite Hf, <-HP. solve_Permutation.
  - rewrite Hf. intros i [Hi|Hi]%elem_of_app; [|by apply Hn]. destruct Hs as [_ Hs]. destruct (Hs i) as [_ ->].
    + intros Hin. apply (Hd2 i Hi). set_solver.
    + by apply (sim_free _ _ _ _ _ HS).
  - destruct Hs as [-> _]. apply (sim_table _ _ _ _ _ HS).
  - apply (sim_inflight _ _ _ _ _ HS).
  - rewrite R2. apply (sim_avail _ _ _ _ _ HS).
  - rewrite R3. apply (sim_avail_ring _ _ _ _ _ HS).
  - rewrite R1, R4. apply ahead_pop, (sim_used _ _ _ _ _ HS).
  - rewrite R1, R5. by apply ring_wrap.
Qed.

Lemma sim_receive_loop F : ∀ w a W I, sim w a W I F → ∃ q,
  receive_loop QUEUE_SIZE (length F) (vq w) (used_idx (vq w)) =
    Ret ((λ f, Used f.1.1 (used_entries f.1.2 f.2)) <$> finished a, q) ∧
  sim (with_vq w q) (with_finished a []) W I [].
Proof.
  induction F as [|[e len] F IH]; intros w a W I HS; destruct (sim_lengths _ _ _ _ _ HS) as [Hn1 Hn2];
    pose proof (proj2 (ahead_zero _ HQ _ _ _ (sim_used _ _ _ _ _ HS) ltac:(simpl in *; lia))) as Hz.
  - exists (vq w). rewrite (sim_finished _ _ _ _ _ HS). split; [|by destruct w, a, HS; split]. simpl. by rewrite (proj2 (Z.eqb_eq _ _)) by auto.
  - destruct (sim_receive_one _ _ _ _ _ _ _ HS) as (H1 & H2 & q & H3 & H4 & S').
    cbn [receive_loop length]. rewrite (proj2 (Z.eqb_neq _ _)).
    2:{ intros E. apply (ahead_zero _ HQ _ _ _ (sim_used _ _ _ _ _ HS)) in E; [done|]. simpl in *. lia. }
    change (Z.to_nat (last_used_ring_index (vq w) mod QS)) with (slot QUEUE_SIZE (last_used_ring_index (vq w))). rewrite H1. bstep.
    rewrite (proj2 (Z.ltb_lt _ _)) by lia. bstep. rewrite Nat2Z.id. cbn zeta in H3 |- *. rewrite H3. bstep.
    destruct (IH _ _ _ _ S') as (q' & Hq & S''). cbn [vq with_vq set_last_used used_idx] in Hq. rewrite H4 in Hq.
    rewrite Hq. bstep. exists q'. split; [|exact S'']. rewrite (sim_finished _ _ _ _ _ HS). done.
Qed.

Lemma sim_receive w a : simulates w a → ∃ o w' a',
  vq_exec QUEUE_SIZE w Receive = Ret (o, w') ∧ request_step QUEUE_SIZE a Receive o a' ∧ simulates w' a'.
Proof.
  intros (W & I & F & HS). destruct (sim_lengths _ _ _ _ _ HS) as [Hn1 Hn2]. cbn [vq_exec]. unfold receive_buffer.
  rewrite (ahead_dist _ HQ _ _ _ (sim_used _ _ _ _ _ HS)) by lia. destruct (sim_receive_loop F w a W I HS) as (q & -> & S').
  bstep. eexists _, _, _. split; [reflexivity|]. split; [apply step_receive|]. by exists W, I, [].
Qed.

Lemma sim_step w a ev : simulates w a → event_ok ev → ∃ o w' a',
  vq_exec QUEUE_SIZE w ev = Ret (o, w') ∧ request_step QUEUE_SIZE a ev o a' ∧ simulates w' a'.
Proof. destruct ev; intros HS H; [by apply sim_put|by apply sim_take|by apply sim_complete|by apply sim_receive]. Qed.

Lemma sim_run evs : ∀ w a, simulates w a → Forall event_ok evs → ∃ os w' a',
  vq_run QUEUE_SIZE w evs = Ret (os, w') ∧ request_run QUEUE_SIZE a evs os a' ∧ simulates w' a'.
Proof.
  induction evs as [|ev evs IH]; intros w a HS Hev.
  { eexists [], w, a. split; [done|]. by split; [constructor|]. }
  apply Forall_cons in Hev as [H1 H2]. destruct (sim_step w a ev HS H1) as (o & w1 & a1 & E1 & St & S1).
  destruct (IH w1 a1 S1 H2) as (os & w2 & a2 & E2 & Rn & S2). exists (o :: os), w2, a2. cbn [vq_run]. rewrite E1. bstep.
  rewrite E2. bstep. split; [done|]. split; [by econstructor|done].
Qed.
End simulation.

Definition no_requests : Requests := {| waiting := []; working := []; finished := [] |}.

(** C27: a virtio queue implements a queue of requests. From a new queue, for every
    sequence of submissions of chains with buffers below 4 GiB, of steps of a device
    that takes and finishes chains in any order, and of receptions, the driver never
    panics, and every result is one of the abstract queue: a submission is refused
    exactly when there are too few descriptors, a name handed out is not in use, and
    a reception returns exactly the finished requests, once, in the order they were
    finished, each with its own buffers in order and the bytes the device reported
    distributed over the writable ones. All indices wrap at 16 bits. *)
Theorem virtqueue_refines QUEUE_SIZE n desc driver device q evs :
  virtqueue_new QUEUE_SIZE n desc driver device = Ret q → Forall event_ok evs →
  ∃ os w a, vq_run QUEUE_SIZE {| vq := q; dev_avail := 0; dev_inflight := [] |} evs = Ret (os, w) ∧
    request_run QUEUE_SIZE no_requests evs os a.
Proof.
  unfold virtqueue_new. intros (_ & H1%rassert_Ret & H)%bind_Ret Hev.
  apply bind_Ret in H as (_ & H2%rassert_Ret & H). apply bind_Ret in H as (_ & H3%rassert_Ret & H).
  do 3 apply bind_Ret in H as (_ & _ & H). injection H as <-.
  assert (∃ k, 0 ≤ k ≤ 15 ∧ Z.of_nat QUEUE_SIZE = 2 ^ k) as HQ.
  { unfold is_power_of_two in H3. exists (Z.log2 n). pose proof (Z.log2_nonneg n).
    assert (n = Z.of_nat QUEUE_SIZE) as Hn by lia. split; [|lia].
    assert (Z.log2 n < 16); [|lia]. apply Z.log2_lt_pow2; lia. }
  edestruct (sim_run _ HQ evs) as (os & w & a & E & Hr & _); [|exact Hev|by exists os, w, a].
  exists [], [], []. pose proof (QS_pos _ HQ). split; simpl; try done.
  - by rewrite app_nil_r.
  - apply length_replicate.
  - split; [apply length_replicate|]. split; [simpl; lia|done].
  - split; [apply length_replicate|]. split; [simpl; lia|done].
Qed.

(** Two requests, finished in the other order. *)
Definition example_run : list vq_event :=
  [Put [(Dma 4096 16, DriverWritable); (Dma 8192 512, DeviceWritable); (Dma 12288 1, DeviceWritable)];
   Put [(Dma 16384 100, DeviceWritable)]; Take; Take; Complete 1 60; Complete 0 513; Receive].

Lemma virtqueue_refines_witness : ∃ q os w a, virtqueue_new 8 8 4096 8192 12288 = Ret q ∧
  vq_run 8 {| vq := q; dev_avail := 0; dev_inflight := [] |} example_run = Ret (os, w) ∧
  request_run 8 no_requests example_run os a ∧
  last os = Some (ReceiveOut [Used 4 [UsedEntry (Dma 16384 100) 60];
    Used 7 [UsedEntry (Dma 4096 16) 16; UsedEntry (Dma 8192 512) 512; UsedEntry (Dma 12288 1) 1]]).
Proof.
  eexists. destruct (virtqueue_refines 8 8 4096 8192 12288 _ example_run eq_refl) as (os & w & a & H1 & H2).
  { by repeat constructor. }
  exists os, w, a. split; [reflexivity|]. split; [exact H1|]. split; [exact H2|]. vm_compute in H1. by simplify_eq/=.
Defined.
