(* ===== verification/Block.v ===== *)
(** The virtio block driver: crates/drivers/src/virtio/block.rs.

    [read] and [write] cut a byte range into sectors and submit requests; the device
    that carries them out is the class [BlkDevice], with the laws of the virtio
    specification. The second half is how tasks wait for their completions. *)
From S2P Require Import Prelude Headers KUtil Bytes Virtqueue.

Definition SECTOR_SIZE : Z := 512.
Definition VIRTIO_BLK_T_IN : Z := 0.
Definition VIRTIO_BLK_T_OUT : Z := 1.
Definition VIRTIO_BLK_S_OK : Z := 0.

(** [VirtioBlkReqHeader] as bytes. *)
Definition blk_header (request_type sector : Z) : list Z := le_bytes 4 request_type ++ le_bytes 4 0 ++ le_bytes 8 sector.

(** A device: its medium, and what it does with a request, given the header and the
    contents of the data buffer. It leaves the data buffer with new contents and
    writes the status byte. *)
Class BlkDevice (S : Type) := {
  medium : S → list Z;
  perform : S → list Z → list Z → S * list Z * Z;
}.

(** [data] in place of the bytes of [l] from [offset] on. *)
Definition splice (l : list Z) (offset : nat) (data : list Z) : list Z :=
  take offset l ++ data ++ drop (offset + length data) l.

(** A request within the medium succeeds (virtio 1.2, 5.2.6). *)
Class BlkDeviceLaws (S : Type) `{BlkDevice S} : Prop := {
  perform_in s sector data : 0 ≤ sector < 2 ^ 64 → (512 | Z.of_nat (length data)) →
    512 * sector + Z.of_nat (length data) ≤ Z.of_nat (length (medium s)) →
    perform s (blk_header VIRTIO_BLK_T_IN sector) data =
      (s, take (length data) (drop (Z.to_nat (512 * sector)) (medium s)), VIRTIO_BLK_S_OK);
  perform_out s sector data : 0 ≤ sector < 2 ^ 64 → (512 | Z.of_nat (length data)) →
    512 * sector + Z.of_nat (length data) ≤ Z.of_nat (length (medium s)) →
    ∃ s', perform s (blk_header VIRTIO_BLK_T_OUT sector) data = (s', data, VIRTIO_BLK_S_OK) ∧
      medium s' = splice (medium s) (Z.to_nat (512 * sector)) data;
}.

(** ** Requests *)
Section requests.
Context {S : Type} `{BD : BlkDevice S}.
Variable capacity_sectors : Z.

Definition capacity_bytes : outcome Z := mul 64 capacity_sectors SECTOR_SIZE.

(** [DmaBuffer::new_coherent]: zeroed pages. *)
Definition new_coherent (len : Z) : outcome (list Z) := rassert (0 <? len);; Ret (replicate (Z.to_nat len) 0).

(** The request: header, data and the direction of the data buffer. *)
Record BlkRequest := { req_header : list Z; req_data : list Z; req_dir : BufferDirection }.

Definition check_range (start_sector len : Z) : outcome unit :=
  rassert (len mod SECTOR_SIZE =? 0);;
  e ← add 64 start_sector (len / SECTOR_SIZE);
  rassert (e <=? capacity_sectors).

Definition submit_read (start_sector buf_len : Z) : outcome BlkRequest :=
  check_range start_sector buf_len;;
  data ← new_coherent buf_len;
  Ret {| req_header := blk_header VIRTIO_BLK_T_IN start_sector; req_data := data; req_dir := DeviceWritable |}.

Definition submit_write (start_sector : Z) (data : list Z) : outcome BlkRequest :=
  check_range start_sector (Z.of_nat (length data));;
  new_coherent (Z.of_nat (length data));;
  Ret {| req_header := blk_header VIRTIO_BLK_T_OUT start_sector; req_data := data; req_dir := DriverWritable |}.

(** Submitting, waiting for the completion and checking the status. *)
Definition transfer (s : S) (r : BlkRequest) : outcome (list Z * S) :=
  let '(s, data, status) := perform s (req_header r) (req_data r) in
  rassert (status =? VIRTIO_BLK_S_OK);;
  Ret (data, s).

(** The sectors that hold the bytes from [offset] to [offset + len]. *)
Definition sectors (offset len : Z) : outcome (Z * Z * Z) :=
  let start_sector := offset / SECTOR_SIZE in
  e ← add 64 offset len;
  let end_sector := (e + SECTOR_SIZE - 1) / SECTOR_SIZE in
  num_sectors ← sub end_sector start_sector;
  n ← mul 64 num_sectors SECTOR_SIZE;
  Ret (start_sector, n, e).

(** The bytes read; the length is that of the list. *)
Definition read (s : S) (offset : Z) (buf_len : nat) : outcome (list Z * S) :=
  cap ← capacity_bytes;
  if cap <=? offset then Ret ([], s)
  else
    let read_len := Z.min (Z.of_nat buf_len) (cap - offset) in
    if read_len =? 0 then Ret ([], s)
    else
      '(start_sector, sector_buf_len, _) ← sectors offset read_len;
      r ← submit_read start_sector sector_buf_len;
      '(data, s) ← transfer s r;
      let first := Z.to_nat (offset mod SECTOR_SIZE) in
      rassert (bool_decide (first + Z.to_nat read_len ≤ length data)%nat);;
      Ret (take (Z.to_nat read_len) (drop first data), s).

(** The number of bytes written. *)
Definition write (s : S) (offset : Z) (data : list Z) : outcome (Z * S) :=
  cap ← capacity_bytes;
  if cap <=? offset then Ret (0, s)
  else
    let write_len := Z.min (Z.of_nat (length data)) (cap - offset) in
    if write_len =? 0 then Ret (0, s)
    else
      '(start_sector, n, e) ← sectors offset write_len;
      let first := Z.to_nat (offset mod SECTOR_SIZE) in
      '(sector_buf, s) ←
        (if negb (offset mod SECTOR_SIZE =? 0) || negb (e mod SECTOR_SIZE =? 0) then
           r ← submit_read start_sector n;
           '(old, s) ← transfer s r;
           rassert (bool_decide (length old = Z.to_nat n));;
           Ret (old, s)
         else Ret (replicate (Z.to_nat n) 0, s));
      rassert (bool_decide (first + Z.to_nat write_len ≤ length sector_buf)%nat);;
      r ← submit_write start_sector (splice sector_buf first (take (Z.to_nat write_len) data));
      '(_, s) ← transfer s r;
      Ret (write_len, s).
End requests.

(** ** Reading and writing the medium *)
Section medium.
Context {S : Type} `{BD : BlkDevice S} `{BL : !BlkDeviceLaws S}.
Variable capacity_sectors : Z.
Hypothesis Hcap : 0 ≤ capacity_sectors < 2 ^ 54.
Implicit Types s : S.

(** The device has the capacity it reports. *)
Definition sized s : Prop := Z.of_nat (length (medium s)) = 512 * capacity_sectors.

Lemma capacity_Ret : capacity_bytes capacity_sectors = Ret (512 * capacity_sectors).
Proof. unfold capacity_bytes, SECTOR_SIZE. apply mul_Ret. split; lia. Qed.

(** The sectors of a range cover it, and are within the medium. *)
Lemma sectors_Ret offset len : 0 ≤ offset → 0 < len → offset + len ≤ 512 * capacity_sectors → ∃ n,
  sectors offset len = Ret (offset / 512, n, offset + len) ∧
  n mod 512 = 0 ∧ 0 < n ∧ offset mod 512 + len ≤ n ∧ 512 * (offset / 512) + n ≤ 512 * capacity_sectors ∧
  ((offset + len) mod 512 = 0 → n = offset mod 512 + len).
Proof.
  intros Ho Hl Hc. unfold sectors, SECTOR_SIZE. rewrite (proj2 (add_Ret 64 offset len (offset + len))) by lia. bstep.
  pose proof (Z.div_mod offset 512 ltac:(lia)). pose proof (Z.mod_pos_bound offset 512 ltac:(lia)).
  set (q := offset / 512) in *. set (r := offset mod 512) in *.
  set (e := (offset + len + 512 - 1) / 512).
  assert (512 * e < offset + len + 512 ∧ offset + len ≤ 512 * e) as [He1 He2].
  { unfold e. pose proof (Z.div_mod (offset + len + 512 - 1) 512 ltac:(lia)).
    pose proof (Z.mod_pos_bound (offset + len + 512 - 1) 512 ltac:(lia)). lia. }
  rewrite (proj2 (sub_Ret e q (e - q))) by lia. bstep.
  rewrite (proj2 (mul_Ret 64 (e - q) 512 ((e - q) * 512))) by lia. bstep.
  exists ((e - q) * 512). split; [done|]. split; [by rewrite Z.mod_mul|]. split; [lia|]. split; [lia|]. split; [lia|].
  intros Hm. apply Z.mod_divide in Hm as [z Hz]; lia.
Qed.

Lemma check_range_Ret start n : 0 ≤ start → 0 ≤ n → n mod 512 = 0 → 512 * start + n ≤ 512 * capacity_sectors →
  check_range capacity_sectors start n = Ret tt.
Proof.
  intros H1 H2 Hm H3. unfold check_range, SECTOR_SIZE. rewrite Hm. bstep.
  pose proof (Z.div_mod n 512 ltac:(lia)). rewrite (proj2 (add_Ret 64 start (n / 512) (start + n / 512))) by lia. bstep.
  rewrite (proj2 (Z.leb_le _ _)) by lia. done.
Qed.

(** Reading whole sectors. *)
Lemma read_sectors s start n : sized s → 0 ≤ start → 0 < n → n mod 512 = 0 → 512 * start + n ≤ 512 * capacity_sectors →
  ∃ r, submit_read capacity_sectors start n = Ret r ∧
    transfer s r = Ret (take (Z.to_nat n) (drop (Z.to_nat (512 * start)) (medium s)), s).
Proof.
  intros Hs H1 H2 Hm H3. unfold submit_read. rewrite check_range_Ret by lia. bstep.
  unfold new_coherent. rewrite (proj2 (Z.ltb_lt _ _)) by lia. bstep. eexists. split; [reflexivity|]. unfold transfer. cbn [req_header req_data].
  rewrite perform_in; rewrite ?length_replicate; [done|lia| |unfold sized in Hs; lia].
  rewrite Z2Nat.id by lia. by apply Z.mod_divide.
Qed.

(** Writing whole sectors. *)
Lemma write_sectors s start data : sized s → 0 ≤ start → data ≠ [] → Z.of_nat (length data) mod 512 = 0 →
  512 * start + Z.of_nat (length data) ≤ 512 * capacity_sectors →
  ∃ r s', submit_write capacity_sectors start data = Ret r ∧ transfer s r = Ret (data, s') ∧
    medium s' = splice (medium s) (Z.to_nat (512 * start)) data.
Proof.
  intros Hs H1 H2 Hm H3. unfold submit_write. rewrite check_range_Ret by lia. bstep.
  assert (0 < Z.of_nat (length data)) by (destruct data; [done|]; simpl; lia).
  unfold new_coherent. rewrite (proj2 (Z.ltb_lt _ _)) by lia. bstep.
  destruct (perform_out s start data) as (s' & Hp & Hm'); [lia|by apply Z.mod_divide|unfold sized in Hs; lia|].
  eexists _, s'. split; [reflexivity|]. split; [|exact Hm']. unfold transfer. cbn [req_header req_data]. by rewrite Hp.
Qed.

Lemma splice_lookup l o d i : (o + length d ≤ length l)%nat →
  splice l o d !! i = if decide (o ≤ i < o + length d)%nat then d !! (i - o)%nat else l !! i.
Proof.
  intros Hl. unfold splice. destruct (decide (i < o)%nat).
  { rewrite decide_False, lookup_app_l, lookup_take_lt by (rewrite ?length_take; lia). done. }
  rewrite lookup_app_r by (rewrite length_take; lia). rewrite length_take, Nat.min_l by lia. case_decide.
  - rewrite lookup_app_l by lia. done.
  - rewrite lookup_app_r, lookup_drop by lia. f_equal. lia.
Qed.

Lemma splice_length l o d : (o + length d ≤ length l)%nat → length (splice l o d) = length l.
Proof. intros ?. unfold splice. rewrite !length_app, length_take, length_drop. lia. Qed.

(** Replacing part of some sectors, and then the sectors. *)
Lemma splice_splice l a n first d : (first + length d ≤ n)%nat → (a + n ≤ length l)%nat →
  splice l a (splice (take n (drop a l)) first d) = splice l (a + first) d.
Proof.
  intros H1 H2. assert (length (take n (drop a l)) = n) as Hn by (rewrite length_take, length_drop; lia).
  apply list_eq. intros i. rewrite (splice_lookup l (a + first)) by lia.
  rewrite splice_lookup, splice_length by (rewrite ?splice_length; lia). rewrite Hn. repeat case_decide; try lia.
  - rewrite splice_lookup, decide_True by lia. f_equal. lia.
  - rewrite splice_lookup, decide_False by lia. rewrite lookup_take_lt, lookup_drop by lia. f_equal. lia.
  - done.
Qed.

(** the block driver reads what is on the medium. For every offset and size, a
    read returns, without panicking and leaving the medium alone, exactly the bytes
    from the offset on, up to the size or the end of the medium. *)
Theorem block_read_correct s offset n : sized s → 0 ≤ offset →
  read capacity_sectors s offset n = Ret (take n (drop (Z.to_nat offset) (medium s)), s).
Proof.
  intros Hs Ho. unfold read. rewrite capacity_Ret. bstep. unfold sized in Hs.
  destruct (Z.leb_spec (512 * capacity_sectors) offset) as [E|E].
  { rewrite drop_ge by lia. by rewrite take_nil. }
  set (len := Z.min _ _). destruct (Z.eqb_spec len 0) as [E0|E0].
  { replace n with O by lia. by rewrite take_0. }
  destruct (sectors_Ret offset len) as (N & -> & Hm & HN & Hc & Hc2 & _); [lia..|]. bstep.
  destruct (read_sectors s (offset / 512) N) as (r & -> & Ht); [done|by apply Z.div_pos; lia|done..|]. bstep. rewrite Ht. bstep.
  unfold SECTOR_SIZE. pose proof (Z.mod_pos_bound offset 512 ltac:(lia)). pose proof (Z.div_mod offset 512 ltac:(lia)).
  rewrite bool_decide_true by (rewrite length_take, length_drop; lia). bstep. do 2 f_equal.
  apply list_eq. intros i. destruct (decide (i < Z.to_nat len)%nat) as [Hi|Hi].
  - rewrite !lookup_take_lt, !lookup_drop, lookup_take_lt, lookup_drop by lia. f_equal. lia.
  - rewrite lookup_take_ge by lia. destruct (decide (i < n)%nat).
    + rewrite lookup_take_lt, lookup_drop, lookup_ge_None_2 by lia. done.
    + by rewrite lookup_take_ge by lia.
Qed.

(** C28: the block driver writes where it should. For every offset and data, a write
    returns, without panicking, the number of bytes that fit the medium; afterwards
    exactly those bytes of the medium are replaced, whether or not the range begins
    and ends at sector boundaries. *)
Theorem block_write_correct s offset data : sized s → 0 ≤ offset →
  let w := take (Z.to_nat (512 * capacity_sectors - offset)) data in
  ∃ s', write capacity_sectors s offset data = Ret (Z.of_nat (length w), s') ∧
    medium s' = splice (medium s) (Z.to_nat offset) w ∧ sized s'.
Proof.
  intros Hs Ho w. unfold write. rewrite capacity_Ret. bstep. unfold sized in *.
  assert (∀ o, splice (medium s) o [] = medium s) as Hnil by (intros o; unfold splice; simpl; by rewrite Nat.add_0_r, take_drop).
  destruct (Z.leb_spec (512 * capacity_sectors) offset) as [E|E].
  { exists s. replace w with (@nil Z) by (subst w; by rewrite Z2Nat.nonpos by lia). by rewrite Hnil. }
  set (len := Z.min _ _). assert (Z.of_nat (length w) = len) as Hw by (subst w len; rewrite length_take; lia).
  destruct (Z.eqb_spec len 0) as [E0|E0].
  { exists s. replace w with (@nil Z) by (destruct w; [done|simpl in Hw; lia]). by rewrite Hnil. }
  destruct (sectors_Ret offset len) as (N & -> & Hm & HN & Hc & Hc2 & Hal); [lia..|]. bstep.
  unfold SECTOR_SIZE. pose proof (Z.mod_pos_bound offset 512 ltac:(lia)). pose proof (Z.div_mod offset 512 ltac:(lia)).
  assert (0 ≤ offset / 512) as Hq by (apply Z.div_pos; lia).
  set (first := Z.to_nat (offset mod 512)).
  replace (take (Z.to_nat len) data) with w.
  2:{ rewrite <-Hw, Nat2Z.id. subst w. rewrite length_take. destruct (Nat.min_spec (Z.to_nat (512 * capacity_sectors - offset)) (length data))
        as [[? ->]|[? ->]]; [done|]. by rewrite !take_ge by lia. }
  assert (∃ old, (if negb (offset mod 512 =? 0) || negb ((offset + len) mod 512 =? 0) then
      r ← submit_read capacity_sectors (offset / 512) N; '(old, s) ← transfer s r;
      rassert (bool_decide (length old = Z.to_nat N));; Ret (old, s) else Ret (replicate (Z.to_nat N) 0, s)) = Ret (old, s) ∧
    length old = Z.to_nat N ∧
    splice (medium s) (Z.to_nat (512 * (offset / 512))) (splice old first w) = splice (medium s) (Z.to_nat offset) w)
    as (old & -> & Hold & Hsp).
  { destruct (_ || _) eqn:Ea.
    - destruct (read_sectors s (offset / 512) N) as (r & -> & Ht); [done..|]. bstep. rewrite Ht. bstep.
      assert (length (take (Z.to_nat N) (drop (Z.to_nat (512 * (offset / 512))) (medium s))) = Z.to_nat N) as HN2
        by (rewrite length_take, length_drop; lia).
      rewrite bool_decide_true by done. bstep. eexists. split; [done|]. split; [done|].
      rewrite splice_splice by lia. f_equal. lia.
    - apply orb_false_iff in Ea as [Ea1%negb_false_iff%Z.eqb_eq Ea2%negb_false_iff%Z.eqb_eq].
      eexists. split; [done|]. rewrite length_replicate. split; [done|]. subst first. rewrite Ea1 in *. specialize (Hal Ea2).
      replace (splice (replicate (Z.to_nat N) 0) (Z.to_nat 0) w) with w; [f_equal; lia|].
      unfold splice. simpl. rewrite drop_ge by (rewrite length_replicate; lia). by rewrite app_nil_r. }
  bstep. rewrite bool_decide_true by lia. bstep.
  assert (length (splice old first w) = Z.to_nat N) as HlN by (rewrite splice_length; lia).
  destruct (write_sectors s (offset / 512) (splice old first w)) as (r & s' & -> & Ht & Hmed); [done|done| |rewrite HlN, Z2Nat.id by lia; done|lia|].
  { intros Hx. rewrite Hx in HlN. simpl in HlN. lia. }
  bstep. rewrite Ht. bstep. exists s'. split; [by rewrite Hw|]. rewrite Hmed, Hsp. split; [done|]. rewrite splice_length by lia. done.
Qed.
End medium.

(** ** A device: a memory that follows the specification *)
Definition le_field (n off : nat) (l : list Z) : Z := le_combine (take n (drop off l)).

#[local] Instance ram_disk : BlkDevice (list Z) := {|
  medium := λ s, s;
  perform := λ s h data,
    let o := Z.to_nat (512 * le_field 8 8 h) in
    if bool_decide (o + length data ≤ length s)%nat then
      if le_field 4 0 h =? VIRTIO_BLK_T_IN then (s, take (length data) (drop o s), VIRTIO_BLK_S_OK)
      else (splice s o data, data, VIRTIO_BLK_S_OK)
    else (s, data, 1) |}.

Lemma header_fields ty sector : 0 ≤ ty < 2 ^ 32 → 0 ≤ sector < 2 ^ 64 →
  le_field 4 0 (blk_header ty sector) = ty ∧ le_field 8 8 (blk_header ty sector) = sector.
Proof.
  intros H1 H2. unfold le_field, blk_header. split.
  - rewrite drop_0, take_app_length' by by rewrite le_bytes_length. by apply le_combine_bytes.
  - rewrite (assoc_L (++)), drop_app_length' by by rewrite length_app, !le_bytes_length.
    rewrite take_ge by by rewrite le_bytes_length. by apply le_combine_bytes.
Qed.

#[local] Instance ram_disk_laws : BlkDeviceLaws (list Z).
Proof.
  split; intros s sector data Hs Hd Hb; unfold perform, medium, ram_disk in *; cbn zeta.
  - destruct (header_fields VIRTIO_BLK_T_IN sector) as [-> ->]; [done|done|]. rewrite bool_decide_true by lia. done.
  - destruct (header_fields VIRTIO_BLK_T_OUT sector) as [-> ->]; [done|done|]. rewrite bool_decide_true by lia. by eexists.
Qed.

Lemma block_read_correct_witness :
  read 4 (seqZ 0 2048) 510 5 = Ret ([510; 511; 512; 513; 514], seqZ 0 2048).
Proof. rewrite (block_read_correct 4 ltac:(lia) (seqZ 0 2048) 510 5); [by vm_compute|done|lia]. Defined.

(** The last byte of a sector and the first of the next. *)
Lemma block_write_correct_witness : ∃ s', write 4 (replicate 2048 7) 511 [1; 2] = Ret (2, s') ∧
  s' = splice (replicate 2048 7) 511 [1; 2].
Proof.
  destruct (block_write_correct 4 ltac:(lia) (replicate 2048 7) 511 [1; 2]) as (s' & H1 & H2 & _); [done|lia|].
  exists s'. split; [exact H1|exact H2].
Defined.

(** ** Waiting for completions *)
(** Tasks wait for a completion under the head index of their request. A finished
    buffer is known by the device and the number of the request. The interrupt
    counter is a 64-bit counter that does not overflow in practice; it is not wrapped
    here. *)
Inductive Pc :=
  | LoadSeen
  | Harvest (seen : nat)                                  (* before [receive_buffer] *)
  | Insert (seen : nat) (received : list (nat * (nat * nat)))
  | Lookup (seen : nat)
  | Poll (seen : nat) (registered : bool)
  | Asleep (seen : nat) (registered : bool)
  | Done (b : nat * nat).

Record WaitTask := { t_device : nat; t_head : nat; t_pc : Pc }.

Record BlkWorld := {
  BLOCK_INTERRUPT_COUNTER : nat;
  BLOCK_INTERRUPT_WAKERS : list nat;
  BLOCK_COMPLETIONS : gmap nat (nat * nat);
  posted : gmap nat (list (nat * (nat * nat)));          (* used rings, by device *)
  tasks : gmap nat WaitTask;
}.

Definition set_task (w : BlkWorld) (i : nat) (t : WaitTask) (pc : Pc) : BlkWorld :=
  {| BLOCK_INTERRUPT_COUNTER := BLOCK_INTERRUPT_COUNTER w; BLOCK_INTERRUPT_WAKERS := BLOCK_INTERRUPT_WAKERS w;
     BLOCK_COMPLETIONS := BLOCK_COMPLETIONS w; posted := posted w;
     tasks := <[i := {| t_device := t_device t; t_head := t_head t; t_pc := pc |}]> (tasks w) |}.
Definition set_completions (w : BlkWorld) (c : gmap nat (nat * nat)) (p : gmap nat (list (nat * (nat * nat)))) : BlkWorld :=
  {| BLOCK_INTERRUPT_COUNTER := BLOCK_INTERRUPT_COUNTER w; BLOCK_INTERRUPT_WAKERS := BLOCK_INTERRUPT_WAKERS w;
     BLOCK_COMPLETIONS := c; posted := p; tasks := tasks w |}.
Definition set_wakers (w : BlkWorld) (l : list nat) : BlkWorld :=
  {| BLOCK_INTERRUPT_COUNTER := BLOCK_INTERRUPT_COUNTER w; BLOCK_INTERRUPT_WAKERS := l;
     BLOCK_COMPLETIONS := BLOCK_COMPLETIONS w; posted := posted w; tasks := tasks w |}.

(** [BlockInterruptWait::poll] *)
Definition poll_wait (w : BlkWorld) (i : nat) (t : WaitTask) (seen : nat) (registered : bool) : BlkWorld :=
  if bool_decide (BLOCK_INTERRUPT_COUNTER w = seen) then
    set_task (if registered then w else set_wakers w (BLOCK_INTERRUPT_WAKERS w ++ [i])) i t (Asleep seen true)
  else set_task w i t LoadSeen.

(** One step of [wait_for_completion] between two lock operations. *)
Definition task_step (w : BlkWorld) (i : nat) : BlkWorld :=
  match tasks w !! i with
  | None => w
  | Some t =>
      match t_pc t with
      | LoadSeen => set_task w i t (Harvest (BLOCK_INTERRUPT_COUNTER w))
      | Harvest seen =>
          let received := default [] (posted w !! t_device t) in
          set_task (set_completions w (BLOCK_COMPLETIONS w) (<[t_device t := []]> (posted w))) i t (Insert seen received)
      | Insert seen received =>
          set_task (set_completions w (foldl (λ c b, <[b.1 := b.2]> c) (BLOCK_COMPLETIONS w) received) (posted w)) i t (Lookup seen)
      | Lookup seen =>
          match BLOCK_COMPLETIONS w !! t_head t with
          | Some b => set_task (set_completions w (delete (t_head t) (BLOCK_COMPLETIONS w)) (posted w)) i t (Done b)
          | None => set_task w i t (Poll seen false)
          end
      | Poll seen registered => poll_wait w i t seen registered
      | Asleep _ _ | Done _ => w
      end
  end.

Inductive blk_event :=
  | Submit (i device head : nat)
  | Step (i : nat)
  | DeviceDone (device head request : nat)
  | IrqCount                              (* the handler counts the interrupt *)
  | IrqWake.                              (* and wakes the tasks *)

Definition wake_task (ts : gmap nat WaitTask) (i : nat) : gmap nat WaitTask :=
  match ts !! i with
  | Some t => match t_pc t with
              | Asleep seen registered => <[i := {| t_device := t_device t; t_head := t_head t; t_pc := Poll seen registered |}]> ts
              | _ => ts
              end
  | None => ts
  end.

Definition blk_exec (w : BlkWorld) (ev : blk_event) : BlkWorld :=
  match ev with
  | Submit i device head => set_task w i {| t_device := device; t_head := head; t_pc := LoadSeen |} LoadSeen
  | Step i => task_step w i
  | DeviceDone device head request =>
      set_completions w (BLOCK_COMPLETIONS w) (<[device := default [] (posted w !! device) ++ [(head, (device, request))]]> (posted w))
  | IrqCount =>
      {| BLOCK_INTERRUPT_COUNTER := S (BLOCK_INTERRUPT_COUNTER w); BLOCK_INTERRUPT_WAKERS := BLOCK_INTERRUPT_WAKERS w;
         BLOCK_COMPLETIONS := BLOCK_COMPLETIONS w; posted := posted w; tasks := tasks w |}
  | IrqWake =>
      {| BLOCK_INTERRUPT_COUNTER := BLOCK_INTERRUPT_COUNTER w; BLOCK_INTERRUPT_WAKERS := [];
         BLOCK_COMPLETIONS := BLOCK_COMPLETIONS w; posted := posted w;
         tasks := foldl wake_task (tasks w) (BLOCK_INTERRUPT_WAKERS w) |}
  end.

Definition blk_start : BlkWorld :=
  {| BLOCK_INTERRUPT_COUNTER := 0; BLOCK_INTERRUPT_WAKERS := []; BLOCK_COMPLETIONS := ∅; posted := ∅; tasks := ∅ |}.
Definition blk_run (evs : list blk_event) : BlkWorld := foldl blk_exec blk_start evs.

Definition pc_of (w : BlkWorld) (i : nat) : option Pc := t_pc <$> tasks w !! i.

(** Two disks: completions are kept by head index only, and both disks give their
    first request the same index. The reader of disk 0 gets the buffer of the request
    to disk 1. *)
Lemma completion_of_other_device :
  pc_of (blk_run [Submit 1 0 255; Submit 2 1 255; DeviceDone 1 255 1; IrqCount; IrqWake;
    Step 2; Step 2; Step 2; Step 1; Step 1; Step 1; Step 1]) 1 = Some (Done (1, 1)%nat).
Proof. reflexivity. Qed.

(** One disk, two tasks. Task 1 takes the completion of task 2 from the used ring but
    has not entered it in the table yet when task 2 looks. Task 2 goes to sleep, and
    stays asleep although its completion is in the table and every interrupt has been
    handled. *)
Lemma completion_lost :
  let w := blk_run [Submit 1 0 255; Submit 2 0 252; DeviceDone 0 252 2; IrqCount; IrqWake;
    Step 1; Step 1; Step 2; Step 2; Step 2; Step 2; Step 2; Step 1; Step 1; Step 1] in
  pc_of w 2 = Some (Asleep 1 true) ∧ BLOCK_COMPLETIONS w !! 252%nat = Some (0, 2)%nat ∧ pc_of w 1 = Some (Asleep 1 true).
Proof. by vm_compute. Qed.
