(* ===== verification/ForkMemory.v ===== *)
(** The memory of processes across fork: crates/kernel/src/processes/process.rs
    (mappings, mmap, munmap, fork and copy-on-write), syscalls/mm_ops.rs (anonymous
    mmap without a hint, mprotect) and the store page fault of interrupts/trap.rs.

    A page table is what it translates: AddressSpaceOps.v shows that mapping,
    unmapping and changing pages do exactly that to the translation. The signal
    trampoline, which every process maps read-only, is left out. Runs of pages come
    from a page source that hands out fresh addresses; a run is freed when the last
    mapping that refers to it is gone. Memory is not exhausted, addresses do not reach
    the end of the address space. *)
From S2P Require Import Prelude Headers KUtil PTE ProcessTable.

Abbreviation PAGE := 4096%Z.

Record CowPageInfo := CowInfo { phys_addr : Z; original_perm : XWRMode; backing : nat }.

(** Runs of pages are behind handles ([Arc<PinnedHeapPages>] for [Cow]). *)
Inductive Mapping :=
  | Allocated (pages : nat)
  | Mmap (pages : nat)
  | Cow (c : CowPageInfo).

Record MemProc := MP {
  page_table : gmap Z (Z * XWRMode);
  mappings : gmap Z Mapping;
  free_mmap_address : Z;
}.

Definition FREE_MMAP_START_ADDRESS : Z := 0x2000000000.

(** The processes, the runs of pages in use (address and number of pages) and the
    contents of memory by page. *)
Record Machine := MkMachine {
  procs : gmap nat MemProc;
  runs : gmap nat (Z * nat);
  ram : gmap Z (list Z);
}.

Definition zero_page : list Z := replicate 4096 0.

(** The page allocator. *)
Class PageSource := { new_pages : gmap nat (Z * nat) → nat → Z }.

(** What it hands out does not overlap a run in use; [PageAllocator.alloc_refines]. *)
Class PageSourceOk (S : PageSource) : Prop := {
  new_pages_fresh R n b a m i j : R !! b = Some (a, m) → (i < m)%nat → (j < n)%nat →
    a + PAGE * Z.of_nat i ≠ new_pages R n + PAGE * Z.of_nat j;
}.

(** ** Page tables *)
(** The entries [l] on consecutive pages from [va]; panics where there is one already. *)
Fixpoint put_range {A} (m : gmap Z A) (va : Z) (l : list A) : outcome (gmap Z A) :=
  match l with
  | [] => Ret m
  | x :: l => rassert (bool_decide (m !! va = None));; put_range (<[va := x]> m) (va + PAGE) l
  end.

Fixpoint delete_range {A} (m : gmap Z A) (va : Z) (n : nat) : gmap Z A :=
  match n with O => m | S n => delete_range (delete va m) (va + PAGE) n end.

(** [map_userspace]. *)
Definition map_pages (pt : gmap Z (Z * XWRMode)) (va pa : Z) (n : nat) (perm : XWRMode) : outcome (gmap Z (Z * XWRMode)) :=
  put_range pt va ((λ i, (pa + PAGE * Z.of_nat i, perm)) <$> seq 0 n).

Definition unmap_pages (pt : gmap Z (Z * XWRMode)) (va : Z) (n : nat) : gmap Z (Z * XWRMode) := delete_range pt va n.

Definition remap (pt : gmap Z (Z * XWRMode)) (va pa : Z) (perm : XWRMode) : outcome (gmap Z (Z * XWRMode)) :=
  expect (pt !! va);; Ret (<[va := (pa, perm)]> pt).

Fixpoint zero_pages (ram : gmap Z (list Z)) (pa : Z) (n : nat) : gmap Z (list Z) :=
  match n with O => ram | S n => zero_pages (<[pa := zero_page]> ram) (pa + PAGE) n end.

Section memory.
Context `{HH : Headers} `{PS : PageSource}.
Implicit Types M : Machine.

(** *** Runs of pages *)
Definition alloc_run M (n : nat) : nat * Z * Machine :=
  let b := fresh (dom (runs M)) in
  let a := new_pages (runs M) n in
  (b, a, MkMachine (procs M) (<[b := (a, n)]> (runs M)) (zero_pages (ram M) a n)).

Definition run_of (m : Mapping) : nat := match m with Allocated b | Mmap b => b | Cow c => backing c end.

Definition refers (P : MemProc) (b : nat) : bool := existsb (λ m, bool_decide (run_of m = b)) (snd <$> map_to_list (mappings P)).

(** The drop of the last reference frees a run. *)
Definition collect M : Machine :=
  MkMachine (procs M)
    (filter (λ r, existsb (λ P, refers P r.1) (snd <$> map_to_list (procs M)) = true) (runs M)) (ram M).

Definition put_proc M (p : nat) (P : MemProc) : Machine := MkMachine (<[p := P]> (procs M)) (runs M) (ram M).

(** *** mmap and munmap *)
Definition mmap_pages M (p : nat) (P : MemProc) (num_pages : nat) (perm : XWRMode) : outcome (Z * Machine) :=
  let length := PAGE * Z.of_nat num_pages in
  let '(b, a, M) := alloc_run M num_pages in
  let addr := free_mmap_address P in
  pt ← map_pages (page_table P) addr a num_pages perm;
  Ret (addr, put_proc M p (MP pt (<[addr := Mmap b]> (mappings P)) (addr + length))).

Definition munmap_pages M (p : nat) (P : MemProc) (addr length : Z) : outcome (result unit * Machine) :=
  match mappings P !! addr with
  | Some (Mmap b) =>
      '(_, n) ← expect (runs M !! b);
      if negb (PAGE * Z.of_nat n =? length) then Ret (Err EINVAL, M)
      else Ret (Okay tt, collect (put_proc M p
        (MP (unmap_pages (page_table P) addr n) (delete addr (mappings P)) (free_mmap_address P))))
  | _ => Ret (Err EINVAL, M)
  end.

(** [do_mmap] for an anonymous private mapping without an address. *)
Definition do_mmap M (p : nat) (P : MemProc) (length prot : Z) : outcome (result Z * Machine) :=
  if length =? 0 then Ret (Err EINVAL, M)
  else
    match from_prot prot with
    | inl e => Ret (Err e, M)
    | inr perm => '(a, M) ← mmap_pages M p P (Z.to_nat ((length + (PAGE - 1)) / PAGE)) perm; Ret (Okay a, M)
    end.

(** [RootPageTableHolder::mprotect]: the rights of [n] pages; nobody looks at the mappings. *)
Fixpoint mprotect_pages (pt : gmap Z (Z * XWRMode)) (va : Z) (n : nat) (perm : XWRMode) : outcome (gmap Z (Z * XWRMode)) :=
  match n with
  | O => Ret pt
  | S n => '(pa, _) ← expect (pt !! va); mprotect_pages (<[va := (pa, perm)]> pt) (va + PAGE) n perm
  end.

Definition do_mprotect M (p : nat) (P : MemProc) (addr len prot : Z) : outcome (result unit * Machine) :=
  if negb (addr mod PAGE =? 0) || (len =? 0) then Ret (Err EINVAL, M)
  else
    match from_prot prot with
    | inl e => Ret (Err e, M)
    | inr perm =>
        pt ← mprotect_pages (page_table P) addr (Z.to_nat ((len + (PAGE - 1)) / PAGE)) perm;
        Ret (Okay tt, put_proc M p (MP pt (mappings P) (free_mmap_address P)))
    end.

(** *** fork *)
(** The tables of parent and child, and the copy-on-write pages of both (the source
    builds two equal maps). *)
Record Forking := FK { parent_pt : gmap Z (Z * XWRMode); child_pt : gmap Z (Z * XWRMode); cow : gmap Z CowPageInfo }.

(** One page of a run that the parent owned. *)
Definition fork_page (va a : Z) (b : nat) (s : Forking) (i : nat) : outcome Forking :=
  let page_va := va + PAGE * Z.of_nat i in
  match parent_pt s !! page_va with
  | None => Ret s
  | Some (_, perm) =>
      let phys := a + PAGE * Z.of_nat i in
      ppt ← (if is_writable perm then remap (parent_pt s) page_va phys (as_readonly perm) else Ret (parent_pt s));
      let child_perm := if is_writable perm then as_readonly perm else perm in
      cpt ← map_pages (child_pt s) page_va phys 1 child_perm;
      Ret (FK ppt cpt (<[page_va := CowInfo phys perm b]> (cow s)))
  end.

Definition fork_mapping (R : gmap nat (Z * nat)) (s : Forking) (e : Z * Mapping) : outcome Forking :=
  let '(va, m) := e in
  match m with
  | Allocated b | Mmap b =>
      '(a, n) ← expect (R !! b);
      foldM (fork_page va a b) (seq 0 n) s
  | Cow c =>
      '(_, perm) ← expect (parent_pt s !! va);
      cpt ← map_pages (child_pt s) va (phys_addr c) 1 perm;
      Ret (FK (parent_pt s) cpt (<[va := c]> (cow s)))
  end.

(** In the order of the addresses. *)
Definition sorted_mappings (P : MemProc) : list (Z * Mapping) :=
  omap (λ va, (va,.) <$> mappings P !! va) (sorted_keys (mappings P)).

Definition fork_address_space M (p : nat) (P : MemProc) (child : nat) : outcome Machine :=
  s ← foldM (fork_mapping (runs M)) (sorted_mappings P) (FK (page_table P) ∅ ∅);
  let maps := Cow <$> cow s in
  let M := put_proc M p (MP (parent_pt s) maps (free_mmap_address P)) in
  Ret (collect (put_proc M child (MP (child_pt s) maps (free_mmap_address P)))).

(** *** Copy on write *)
Definition resolve_cow_page M (p : nat) (P : MemProc) (faulting_va : Z) : outcome (bool * Machine) :=
  let page_va := faulting_va - faulting_va mod PAGE in
  match mappings P !! page_va with
  | Some (Cow c) =>
      let '(b, a, M) := alloc_run M 1 in
      src ← expect (ram M !! phys_addr c);
      pt ← remap (page_table P) page_va a (original_perm c);
      let P := MP pt (<[page_va := Allocated b]> (mappings P)) (free_mmap_address P) in
      Ret (true, collect (put_proc (MkMachine (procs M) (runs M) (<[a := src]> (ram M))) p P))
  | _ => Ret (false, M)
  end.

(** [ensure_cow_resolved_for_write] for an access within one page. *)
Definition ensure_cow_resolved_for_write M (p : nat) (P : MemProc) (addr : Z) : outcome Machine :=
  match mappings P !! (addr - addr mod PAGE) with
  | Some (Cow c) => if is_writable (original_perm c) then '(_, M) ← resolve_cow_page M p P addr; Ret M else Ret M
  | _ => Ret M
  end.

(** ** What user programs do *)
Inductive mem_event :=
  | Load (p : nat) (va : Z)
  | Store (p : nat) (va byte : Z)
  | KernelWrite (p : nat) (va byte : Z)     (* a system call writes to user memory *)
  | MmapCall (p : nat) (length prot : Z)
  | MunmapCall (p : nat) (addr length : Z)
  | MprotectCall (p : nat) (addr length prot : Z)
  | Fork (p child : nat)
  | Exit (p : nat).

Inductive mem_result :=
  | Byte (b : Z)
  | Address (a : Z)
  | Error (e : errno)
  | Killed                                   (* SIGSEGV *)
  | Nothing.

Definition load M (P : MemProc) (va : Z) : outcome mem_result :=
  match page_table P !! (va - va mod PAGE) with
  | None => Ret Killed
  | Some (pa, perm) =>
      if bool_decide (perm = ExecuteOnly) then Ret Killed
      else
        c ← expect (ram M !! pa);
        b ← expect (c !! Z.to_nat (va mod PAGE));
        Ret (Byte b)
  end.

(** A store through a writable entry; [None] is a page fault. *)
Definition hw_store M (P : MemProc) (va byte : Z) : outcome (option Machine) :=
  match page_table P !! (va - va mod PAGE) with
  | Some (pa, perm) =>
      if is_writable perm then
        c ← expect (ram M !! pa);
        Ret (Some (MkMachine (procs M) (runs M) (<[pa := <[Z.to_nat (va mod PAGE) := byte]> c]> (ram M))))
      else Ret None
  | None => Ret None
  end.

(** The store, with [handle_store_page_fault] and the retry. *)
Definition store M (p : nat) (P : MemProc) (va byte : Z) : outcome (mem_result * Machine) :=
  r ← hw_store M P va byte;
  match r with
  | Some M => Ret (Nothing, M)
  | None =>
      '(resolved, M) ← resolve_cow_page M p P va;
      if negb resolved then Ret (Killed, M)
      else
        P ← expect (procs M !! p);
        r ← hw_store M P va byte;
        match r with
        | Some M => Ret (Nothing, M)
        | None => Ret (Killed, M)
        end
  end.

Definition kernel_write M (p : nat) (P : MemProc) (va byte : Z) : outcome (mem_result * Machine) :=
  M ← ensure_cow_resolved_for_write M p P va;
  P ← expect (procs M !! p);
  r ← hw_store M P va byte;
  match r with
  | Some M => Ret (Nothing, M)
  | None => Ret (Error EFAULT, M)
  end.

(** An event of a process that does not exist, or a fork to one that does, is none. *)
Definition mem_exec M (ev : mem_event) : outcome (mem_result * Machine) :=
  let on p (k : MemProc → outcome (mem_result * Machine)) :=
    match procs M !! p with Some P => k P | None => Ret (Nothing, M) end in
  match ev with
  | Load p va => on p (λ P, r ← load M P va; Ret (r, M))
  | Store p va byte => on p (λ P, store M p P va byte)
  | KernelWrite p va byte => on p (λ P, kernel_write M p P va byte)
  | MmapCall p length prot => on p (λ P,
      '(r, M) ← do_mmap M p P length prot; Ret (match r with inl e => Error e | inr a => Address a end, M))
  | MunmapCall p addr len => on p (λ P,
      '(r, M) ← munmap_pages M p P addr len; Ret (match r with inl e => Error e | inr _ => Nothing end, M))
  | MprotectCall p addr len prot => on p (λ P,
      '(r, M) ← do_mprotect M p P addr len prot; Ret (match r with inl e => Error e | inr _ => Nothing end, M))
  | Fork p child => on p (λ P,
      if bool_decide (is_Some (procs M !! child)) then Ret (Nothing, M)
      else M ← fork_address_space M p P child; Ret (Nothing, M))
  | Exit p => on p (λ _, Ret (Nothing, collect (MkMachine (delete p (procs M)) (runs M) (ram M))))
  end.

Fixpoint mem_run M (evs : list mem_event) : outcome (list mem_result * Machine) :=
  match evs with
  | [] => Ret ([], M)
  | ev :: evs => '(r, M) ← mem_exec M ev; '(rs, M) ← mem_run M evs; Ret (r :: rs, M)
  end.
End memory.

(** ** The abstract machine: every process has its own memory *)
Record AProc := AP {
  a_mem : gmap Z (list Z * XWRMode);      (* contents and rights by page *)
  a_areas : gmap Z nat;                   (* what munmap accepts: address and pages *)
  a_next : Z;
}.
Abbreviation amachine := (gmap nat AProc).

Fixpoint a_mprotect (m : gmap Z (list Z * XWRMode)) (va : Z) (n : nat) (perm : XWRMode) : outcome (gmap Z (list Z * XWRMode)) :=
  match n with
  | O => Ret m
  | S n => '(c, _) ← expect (m !! va); a_mprotect (<[va := (c, perm)]> m) (va + PAGE) n perm
  end.

Definition a_write (A : AProc) (va byte : Z) : option AProc :=
  match a_mem A !! (va - va mod PAGE) with
  | Some (c, perm) =>
      if is_writable perm then
        Some (AP (<[va - va mod PAGE := (<[Z.to_nat (va mod PAGE) := byte]> c, perm)]> (a_mem A)) (a_areas A) (a_next A))
      else None
  | None => None
  end.

Section abstract.
Context `{HH : Headers}.

Definition a_exec (S : amachine) (ev : mem_event) : outcome (mem_result * amachine) :=
  let on p (k : AProc → outcome (mem_result * amachine)) := match S !! p with Some A => k A | None => Ret (Nothing, S) end in
  match ev with
  | Load p va => on p (λ A,
      match a_mem A !! (va - va mod PAGE) with
      | Some (c, perm) =>
          if bool_decide (perm = ExecuteOnly) then Ret (Killed, S)
          else b ← expect (c !! Z.to_nat (va mod PAGE)); Ret (Byte b, S)
      | None => Ret (Killed, S)
      end)
  | Store p va byte => on p (λ A,
      match a_write A va byte with Some A => Ret (Nothing, <[p := A]> S) | None => Ret (Killed, S) end)
  | KernelWrite p va byte => on p (λ A,
      match a_write A va byte with Some A => Ret (Nothing, <[p := A]> S) | None => Ret (Error EFAULT, S) end)
  | MmapCall p length prot => on p (λ A,
      if length =? 0 then Ret (Error EINVAL, S)
      else
        match from_prot prot with
        | inl e => Ret (Error e, S)
        | inr perm =>
            let n := Z.to_nat ((length + (PAGE - 1)) / PAGE) in
            m ← put_range (a_mem A) (a_next A) (replicate n (zero_page, perm));
            Ret (Address (a_next A), <[p := AP m (<[a_next A := n]> (a_areas A)) (a_next A + PAGE * Z.of_nat n)]> S)
        end)
  | MunmapCall p addr len => on p (λ A,
      match a_areas A !! addr with
      | Some n =>
          if PAGE * Z.of_nat n =? len then
            Ret (Nothing, <[p := AP (delete_range (a_mem A) addr n) (delete addr (a_areas A)) (a_next A)]> S)
          else Ret (Error EINVAL, S)
      | None => Ret (Error EINVAL, S)
      end)
  | Fork p child => on p (λ A,
      if bool_decide (is_Some (S !! child)) then Ret (Nothing, S)
      else let A := AP (a_mem A) ∅ (a_next A) in Ret (Nothing, <[child := A]> (<[p := A]> S)))
  | MprotectCall p addr len prot => on p (λ A,
      if negb (addr mod PAGE =? 0) || (len =? 0) then Ret (Error EINVAL, S)
      else
        match from_prot prot with
        | inl e => Ret (Error e, S)
        | inr perm =>
            m ← a_mprotect (a_mem A) addr (Z.to_nat ((len + (PAGE - 1)) / PAGE)) perm;
            Ret (Nothing, <[p := AP m (a_areas A) (a_next A)]> S)
        end)
  | Exit p => on p (λ _, Ret (Nothing, delete p S))
  end.

Fixpoint a_run (S : amachine) (evs : list mem_event) : outcome (list mem_result * amachine) :=
  match evs with
  | [] => Ret ([], S)
  | ev :: evs => '(r, S) ← a_exec S ev; '(rs, S) ← a_run S evs; Ret (r :: rs, S)
  end.
End abstract.
