(* ===== verification/ForkTheorems.v ===== *)
(** Fork with copy on write implements private memories: whatever the processes do,
    each sees its own memory only, and a fork copies it. *)
From S2P Require Import Prelude Headers KUtil PTE ProcessTable ForkMemory.

(** ** The abstraction *)
Definition rights (P : MemProc) (va : Z) (perm : XWRMode) : XWRMode :=
  match mappings P !! va with Some (Cow c) => original_perm c | _ => perm end.

(** What process [P] sees. *)
Definition abs_mem (M : Machine) (P : MemProc) : gmap Z (list Z * XWRMode) :=
  map_imap (λ va e, (λ c, (c, rights P va e.2)) <$> ram M !! e.1) (page_table P).
Definition abs_areas (M : Machine) (P : MemProc) : gmap Z nat :=
  omap (λ m, match m with Mmap b => snd <$> runs M !! b | _ => None end) (mappings P).
Definition abs_proc (M : Machine) (P : MemProc) : AProc := AP (abs_mem M P) (abs_areas M P) (free_mmap_address P).
Definition abs (M : Machine) : amachine := abs_proc M <$> procs M.

(** ** The invariant *)
(** Mapping [m] at [base] puts page [pa] at [va]. *)
Definition covers (R : gmap nat (Z * nat)) (base : Z) (m : Mapping) (va pa : Z) : Prop :=
  match m with
  | Allocated b | Mmap b => ∃ a n i, R !! b = Some (a, n) ∧ (i < n)%nat ∧ va = base + PAGE * Z.of_nat i ∧ pa = a + PAGE * Z.of_nat i
  | Cow c => va = base ∧ pa = phys_addr c
  end.

Definition excl (m : Mapping) : Prop := match m with Cow _ => False | _ => True end.

(** Page [pa] is one of run [b]. *)
Definition in_run (R : gmap nat (Z * nat)) (b : nat) (pa : Z) : Prop :=
  ∃ a n i, R !! b = Some (a, n) ∧ (i < n)%nat ∧ pa = a + PAGE * Z.of_nat i.

Record proc_ok (R : gmap nat (Z * nat)) (P : MemProc) : Prop := {
  ok_mapped : ∀ base m va pa, mappings P !! base = Some m → covers R base m va pa → ∃ perm,
    page_table P !! va = Some (pa, perm) ∧ match m with Cow c => perm = as_readonly (original_perm c) | _ => True end;
  ok_covered : ∀ va pa perm, page_table P !! va = Some (pa, perm) → ∃ base m, mappings P !! base = Some m ∧ covers R base m va pa;
  ok_once : ∀ base m base' m' va pa pa', mappings P !! base = Some m → mappings P !! base' = Some m' →
    covers R base m va pa → covers R base' m' va pa' → base = base';
  ok_run : ∀ base m, mappings P !! base = Some m → is_Some (R !! run_of m);
  ok_cow : ∀ base c, mappings P !! base = Some (Cow c) → in_run R (backing c) (phys_addr c);
}.

Record ok (M : Machine) : Prop := {
  ok_procs : ∀ p P, procs M !! p = Some P → proc_ok (runs M) P;
  ok_owner : ∀ p P base m p' P' base' m', procs M !! p = Some P → mappings P !! base = Some m →
    excl m → procs M !! p' = Some P' → mappings P' !! base' = Some m' → run_of m' = run_of m → p' = p ∧ base' = base;
  ok_disjoint : ∀ b b' pa, in_run (runs M) b pa → in_run (runs M) b' pa → b = b';
  ok_ram : ∀ b pa, in_run (runs M) b pa → ∃ c, ram M !! pa = Some c ∧ length c = 4096%nat;
  ok_size : ∀ b a n, runs M !! b = Some (a, n) → (0 < n)%nat;
}.

Lemma readonly_not_writable m : is_writable (as_readonly m) = false.
Proof. by destruct m. Qed.

Lemma covers_in_run R P base m va pa : proc_ok R P → mappings P !! base = Some m → covers R base m va pa → in_run R (run_of m) pa.
Proof.
  intros Hok Hm. destruct m as [b|b|c]; simpl.
  1,2: intros (a & n & i & ? & ? & _ & ->); by exists a, n, i.
  intros [_ ->]. by eapply ok_cow.
Qed.

(** A run has its pages at distinct places. *)
Lemma covers_inj R base m va va' pa : covers R base m va pa → covers R base m va' pa → va = va'.
Proof.
  destruct m; simpl; [| |by intros [-> _] [-> _]];
    intros (a & n & i & H1 & _ & -> & ->) (a' & n' & i' & H2 & _ & -> & E); simplify_eq; lia.
Qed.

(** ** Ranges of pages *)
Lemma range_dec (v va : Z) (n : nat) :
  (∃ i, (i < n)%nat ∧ v = va + PAGE * Z.of_nat i) ∨ (∀ i, (i < n)%nat → v ≠ va + PAGE * Z.of_nat i).
Proof.
  induction n as [|n IH]; [right; lia|]. destruct IH as [(i & ? & ?)|IH]; [left; exists i; split; [lia|done]|].
  destruct (decide (v = va + PAGE * Z.of_nat n)) as [->|]; [left; exists n; split; [lia|done]|].
  right. intros i Hi. destruct (decide (i = n)) as [->|]; [done|]. apply IH. lia.
Qed.

Lemma put_range_spec {A} (l : list A) : ∀ m va, match put_range m va l with
  | Ret m' => (∀ i x, l !! i = Some x → m !! (va + PAGE * Z.of_nat i) = None ∧ m' !! (va + PAGE * Z.of_nat i) = Some x) ∧
      (∀ v, (∀ i, (i < length l)%nat → v ≠ va + PAGE * Z.of_nat i) → m' !! v = m !! v)
  | Panic => ∃ i, (i < length l)%nat ∧ is_Some (m !! (va + PAGE * Z.of_nat i))
  end.
Proof.
  induction l as [|x l IH]; intros m va; simpl; [done|]. unfold rassert. case_bool_decide as E; simpl.
  2: { exists 0%nat. split; [lia|]. replace (va + _) with va by lia. by destruct (m !! va). }
  specialize (IH (<[va := x]> m) (va + PAGE)). destruct (put_range _ _ l) as [m'|].
  - destruct IH as [H1 H2]. split.
    + intros [|i] y Hy; simpl in Hy.
      * simplify_eq. replace (va + _) with va by lia. split; [done|]. rewrite H2; [apply lookup_insert_eq|]. intros; lia.
      * destruct (H1 i y Hy) as [H3 H4]. replace (va + PAGE * Z.of_nat (S i)) with (va + PAGE + PAGE * Z.of_nat i) by lia.
        split; [|done]. by rewrite lookup_insert_ne in H3 by lia.
    + intros v Hv. rewrite H2.
      * rewrite lookup_insert_ne; [done|]. specialize (Hv 0%nat). lia.
      * intros i Hi. specialize (Hv (S i)). lia.
  - destruct IH as (i & Hi & Hs). exists (S i). split; [lia|].
    replace (va + PAGE * Z.of_nat (S i)) with (va + PAGE + PAGE * Z.of_nat i) by lia. by rewrite lookup_insert_ne in Hs by lia.
Qed.

Lemma put_range_one {A} (m : gmap Z A) va x : m !! va = None → put_range m va [x] = Ret (<[va := x]> m).
Proof. intros H. simpl. by rewrite bool_decide_eq_true_2. Qed.

Lemma delete_range_spec {A} n : ∀ (m : gmap Z A) va, (∀ i, (i < n)%nat → delete_range m va n !! (va + PAGE * Z.of_nat i) = None) ∧
  (∀ v, (∀ i, (i < n)%nat → v ≠ va + PAGE * Z.of_nat i) → delete_range m va n !! v = m !! v).
Proof.
  induction n as [|n IH]; intros m va; simpl; [split; [lia|done]|]. destruct (IH (delete va m) (va + PAGE)) as [H1 H2]. split.
  - intros [|i] Hi.
    + rewrite H2; [|intros; lia]. replace (va + _) with va by lia. apply lookup_delete_eq.
    + replace (va + PAGE * Z.of_nat (S i)) with (va + PAGE + PAGE * Z.of_nat i) by lia. apply H1. lia.
  - intros v Hv. rewrite H2.
    + rewrite lookup_delete_ne; [done|]. specialize (Hv 0%nat). lia.
    + intros i Hi. specialize (Hv (S i)). lia.
Qed.

Lemma zero_pages_spec n : ∀ ram pa, (∀ i, (i < n)%nat → zero_pages ram pa n !! (pa + PAGE * Z.of_nat i) = Some zero_page) ∧
  (∀ v, (∀ i, (i < n)%nat → v ≠ pa + PAGE * Z.of_nat i) → zero_pages ram pa n !! v = ram !! v).
Proof.
  induction n as [|n IH]; intros ram pa; simpl; [split; [lia|done]|]. destruct (IH (<[pa := zero_page]> ram) (pa + PAGE)) as [H1 H2]. split.
  - intros [|i] Hi.
    + rewrite H2; [|intros; lia]. replace (pa + _) with pa by lia. apply lookup_insert_eq.
    + replace (pa + PAGE * Z.of_nat (S i)) with (pa + PAGE + PAGE * Z.of_nat i) by lia. apply H1. lia.
  - intros v Hv. rewrite H2.
    + rewrite lookup_insert_ne; [done|]. specialize (Hv 0%nat). lia.
    + intros i Hi. specialize (Hv (S i)). lia.
Qed.

Section fork.
Context `{HH : Headers} `{PS : PageSource} `{PO : !PageSourceOk PS}.
Implicit Types (M : Machine) (P : MemProc).

(** A writable page is seen by one process at one place. *)
Lemma writable_private M p P va pa perm p' P' va' perm' : ok M →
  procs M !! p = Some P → page_table P !! va = Some (pa, perm) → is_writable perm = true →
  procs M !! p' = Some P' → page_table P' !! va' = Some (pa, perm') → p' = p ∧ va' = va.
Proof.
  intros Hok Hp Hv Hw Hp' Hv'. pose proof (ok_procs _ Hok _ _ Hp) as HP. pose proof (ok_procs _ Hok _ _ Hp') as HP'.
  destruct (ok_covered _ _ HP _ _ _ Hv) as (base & m & Hm & Hc). destruct (ok_covered _ _ HP' _ _ _ Hv') as (base' & m' & Hm' & Hc').
  destruct (ok_mapped _ _ HP _ _ _ _ Hm Hc) as (perm2 & E & Hr). simplify_eq.
  assert (run_of m' = run_of m) as Er.
  { eapply (ok_disjoint _ Hok); [by eapply (covers_in_run _ P')|by eapply (covers_in_run _ P)]. }
  assert (excl m) as Hx.
  { destruct m; [done..|]. simplify_eq. by rewrite readonly_not_writable in Hw. }
  destruct (ok_owner _ Hok _ _ _ _ _ _ _ _ Hp Hm Hx Hp' Hm' Er) as [-> ->]. simplify_eq. split; [done|]. by eapply covers_inj.
Qed.

Lemma abs_mem_lookup M P va : abs_mem M P !! va =
  match page_table P !! va with Some (pa, perm) => (λ c, (c, rights P va perm)) <$> ram M !! pa | None => None end.
Proof. unfold abs_mem. rewrite map_lookup_imap. by destruct (page_table P !! va) as [[pa perm]|]. Qed.

Lemma page_in_ram M p P va pa perm : ok M → procs M !! p = Some P → page_table P !! va = Some (pa, perm) →
  ∃ c, ram M !! pa = Some c ∧ length c = 4096%nat ∧ abs_mem M P !! va = Some (c, rights P va perm).
Proof.
  intros Hok Hp Hv. pose proof (ok_procs _ Hok _ _ Hp) as HP. destruct (ok_covered _ _ HP _ _ _ Hv) as (base & m & Hm & Hc).
  destruct (ok_ram _ Hok (run_of m) pa) as (c & Hr & Hl); [by eapply covers_in_run|].
  exists c. split; [done|]. split; [done|]. by rewrite abs_mem_lookup, Hv, Hr.
Qed.

Lemma abs_lookup M p : abs M !! p = abs_proc M <$> procs M !! p.
Proof. apply lookup_fmap. Qed.

Lemma abs_proc_eq M M' p P P' : abs M' = abs M → procs M' !! p = Some P' → procs M !! p = Some P → abs_proc M' P' = abs_proc M P.
Proof. intros E H' H. apply (f_equal (.!! p)) in E. rewrite !abs_lookup, H, H' in E. by apply (inj Some) in E. Qed.

(** ** Runs that nothing refers to *)
Definition agree (R R' : gmap nat (Z * nat)) (P : MemProc) : Prop :=
  ∀ base m, mappings P !! base = Some m → R' !! run_of m = R !! run_of m.

Lemma covers_agree R R' base m va pa : R' !! run_of m = R !! run_of m → covers R' base m va pa → covers R base m va pa.
Proof. destruct m; simpl; [| |done]; intros ->; done. Qed.

Lemma proc_ok_agree R R' P : agree R R' P → proc_ok R P → proc_ok R' P.
Proof.
  intros Ha H. split.
  - intros base m va pa Hm Hc. eapply (ok_mapped _ _ H); [done|]. eapply covers_agree; [|done]. by rewrite (Ha _ _ Hm).
  - intros va pa perm Hv. destruct (ok_covered _ _ H _ _ _ Hv) as (base & m & Hm & Hc). exists base, m. split; [done|].
    eapply covers_agree; [|done]. by rewrite (Ha _ _ Hm).
  - intros base m base' m' va pa pa' Hm Hm' Hc Hc'. eapply (ok_once _ _ H); [done|done| |].
    + eapply covers_agree; [|exact Hc]. by rewrite (Ha _ _ Hm).
    + eapply covers_agree; [|exact Hc']. by rewrite (Ha _ _ Hm').
  - intros base m Hm. rewrite (Ha _ _ Hm). by eapply ok_run.
  - intros base c Hm. destruct (ok_cow _ _ H _ _ Hm) as (a & n & i & Hr & ?). exists a, n, i.
    split; [|done]. pose proof (Ha _ _ Hm) as E. simpl in E. by rewrite E.
Qed.

Lemma abs_proc_agree M M' P : agree (runs M) (runs M') P →
  (∀ va pa perm, page_table P !! va = Some (pa, perm) → ram M' !! pa = ram M !! pa) → abs_proc M' P = abs_proc M P.
Proof.
  intros Ha Hr. unfold abs_proc. f_equal.
  - apply map_eq. intros va. rewrite !abs_mem_lookup. destruct (page_table P !! va) as [[pa perm]|] eqn:E; [|done]. by rewrite (Hr _ _ _ E).
  - unfold abs_areas. apply map_eq. intros v. rewrite !lookup_omap. destruct (mappings P !! v) as [[]|] eqn:E; simpl; try done.
    specialize (Ha _ _ E). simpl in Ha. by rewrite Ha.
Qed.

Lemma abs_agree M M' : procs M' = procs M → (∀ p P, procs M !! p = Some P → abs_proc M' P = abs_proc M P) → abs M' = abs M.
Proof.
  intros E H. apply map_eq. intros p. rewrite !abs_lookup, E. destruct (procs M !! p) eqn:Ep; simpl; [|done]. by rewrite (H _ _ Ep).
Qed.

Lemma refers_true P base m : mappings P !! base = Some m → refers P (run_of m) = true.
Proof.
  intros H. unfold refers. apply existsb_exists. exists m. split; [|by apply bool_decide_eq_true_2].
  apply list_elem_of_In, list_elem_of_fmap. exists (base, m). split; [done|]. by apply elem_of_map_to_list.
Qed.

Lemma collect_runs M p P base m : procs M !! p = Some P → mappings P !! base = Some m →
  runs (collect M) !! run_of m = runs M !! run_of m.
Proof.
  intros Hp Hm. unfold collect. simpl. destruct (runs M !! run_of m) eqn:E.
  - apply map_lookup_filter_Some. split; [done|]. simpl. apply existsb_exists. exists P. split; [|by eapply refers_true].
    apply list_elem_of_In, list_elem_of_fmap. exists (p, P). split; [done|]. by apply elem_of_map_to_list.
  - apply map_lookup_filter_None. by left.
Qed.

Lemma collect_sub M b r : runs (collect M) !! b = Some r → runs M !! b = Some r.
Proof. unfold collect. simpl. by intros [? _]%map_lookup_filter_Some. Qed.

Lemma collect_ok M : ok M → ok (collect M) ∧ abs (collect M) = abs M.
Proof.
  intros H. assert (∀ p P, procs M !! p = Some P → agree (runs M) (runs (collect M)) P) as Ha.
  { intros p P Hp base m Hm. by eapply collect_runs. }
  assert (∀ b pa, in_run (runs (collect M)) b pa → in_run (runs M) b pa) as Hi.
  { intros b pa (a & n & i & Hr & ?). exists a, n, i. split; [by apply collect_sub|done]. }
  split.
  - split.
    + intros p P Hp. eapply proc_ok_agree; [by eapply Ha|by eapply ok_procs].
    + apply (ok_owner _ H).
    + intros b b' pa H1 H2. eapply (ok_disjoint _ H); by apply Hi.
    + intros b pa H1. by eapply (ok_ram _ H), Hi.
    + intros b a n Hr. by eapply (ok_size _ H), collect_sub.
  - apply abs_agree; [done|]. intros p P Hp. apply abs_proc_agree; [by eapply Ha|done].
Qed.

(** ** A new run *)
Lemma alloc_run_spec M n b a M' : ok M → (0 < n)%nat → alloc_run M n = (b, a, M') →
  ok M' ∧ abs M' = abs M ∧ procs M' = procs M ∧ runs M !! b = None ∧ runs M' = <[b := (a, n)]> (runs M) ∧
  (∀ i, (i < n)%nat → ram M' !! (a + PAGE * Z.of_nat i) = Some zero_page) ∧
  (∀ p P, procs M !! p = Some P → agree (runs M) (runs M') P) ∧
  (∀ p P va pa perm, procs M !! p = Some P → page_table P !! va = Some (pa, perm) → ∀ i, (i < n)%nat → pa ≠ a + PAGE * Z.of_nat i).
Proof.
  intros H Hn E. unfold alloc_run in E. simplify_eq/=. set (b := fresh _). set (a := new_pages _ _).
  assert (runs M !! b = None) as Hb by (apply not_elem_of_dom; apply is_fresh).
  destruct (zero_pages_spec n (ram M) a) as [Hz1 Hz2].
  assert (∀ b' pa, in_run (runs M) b' pa → ∀ i, (i < n)%nat → pa ≠ a + PAGE * Z.of_nat i) as Hf.
  { intros b' pa (a' & n' & j & Hr & Hj & ->) i Hi. by eapply new_pages_fresh. }
  assert (∀ b' pa, in_run (<[b := (a, n)]> (runs M)) b' pa →
    b' = b ∧ (∃ i, (i < n)%nat ∧ pa = a + PAGE * Z.of_nat i) ∨ in_run (runs M) b' pa) as Hi.
  { intros b' pa (a' & n' & j & Hr & Hj & ->). apply lookup_insert_Some in Hr as [[? ?]|[? ?]]; simplify_eq.
    - left. split; [done|]. by exists j.
    - right. by exists a', n', j. }
  assert (∀ p P, procs M !! p = Some P → agree (runs M) (<[b := (a, n)]> (runs M)) P) as Ha.
  { intros p P Hp base m Hm. apply lookup_insert_ne. intros Eb. destruct (ok_run _ _ (ok_procs _ H _ _ Hp) _ _ Hm) as [x Hx]. congruence. }
  assert (∀ p P va pa perm, procs M !! p = Some P → page_table P !! va = Some (pa, perm) → ∀ i, (i < n)%nat → pa ≠ a + PAGE * Z.of_nat i) as Hv.
  { intros p P va pa perm Hp Hv. pose proof (ok_procs _ H _ _ Hp) as HP. destruct (ok_covered _ _ HP _ _ _ Hv) as (base & m & Hm & Hc).
    eapply Hf. by eapply covers_in_run. }
  split_and!; try done.
  - split; simpl.
    + intros p P Hp. eapply proc_ok_agree; [by eapply Ha|by eapply ok_procs].
    + apply (ok_owner _ H).
    + intros b1 b2 pa [[-> (i & ? & E1)]|H1]%Hi [[-> (j & ? & E2)]|H2]%Hi; [done| | |by eapply ok_disjoint]; exfalso; by eapply Hf.
    + intros b' pa [[-> (i & ? & ->)]|H1]%Hi; [exists zero_page; split; [by apply Hz1|apply length_replicate]|].
      rewrite Hz2; [by eapply ok_ram|]. by eapply Hf.
    + intros b' a' n' [[? ?]|[? ?]]%lookup_insert_Some; simplify_eq; [done|by eapply ok_size].
  - apply abs_agree; [done|]. intros p P Hp. apply abs_proc_agree; [by eapply Ha|]. intros va pa perm E. apply Hz2. by eapply Hv.
Qed.

(** ** A changed process *)
Lemma put_proc_ok M p P' : ok M → proc_ok (runs M) P' →
  (∀ base m base' m', mappings P' !! base = Some m → excl m → mappings P' !! base' = Some m' → run_of m' = run_of m → base' = base) →
  (∀ base m p2 P2 base2 m2, mappings P' !! base = Some m → p2 ≠ p → procs M !! p2 = Some P2 → mappings P2 !! base2 = Some m2 →
    run_of m2 = run_of m → ¬ excl m ∧ ¬ excl m2) →
  ok (put_proc M p P') ∧ abs (put_proc M p P') = <[p := abs_proc M P']> (abs M).
Proof.
  intros H HP H1 H2. split; [|apply (fmap_insert (abs_proc M))].
  split; simpl; [| |apply (ok_disjoint _ H)|apply (ok_ram _ H)|apply (ok_size _ H)].
  - intros q Q [[? ?]|[? ?]]%lookup_insert_Some; simplify_eq; [done|by eapply ok_procs].
  - intros q Q base m q' Q' base' m' [[? ?]|[? HQ]]%lookup_insert_Some Hm Hx [[? ?]|[? HQ']]%lookup_insert_Some Hm' Er; simplify_eq.
    + split; [done|]. by eapply H1.
    + by destruct (H2 base m q' Q' base' m').
    + by destruct (H2 base' m' q Q base m).
    + by eapply (ok_owner _ H q Q base m q' Q').
Qed.

Lemma put_same M p P : ok M → procs M !! p = Some P → put_proc M p P = M.
Proof. intros _ E. destruct M. unfold put_proc. simpl in *. by rewrite insert_id. Qed.

(** Mappings that a process keeps. *)
Lemma kept_owner M p P base m p2 P2 base2 m2 : ok M → procs M !! p = Some P → mappings P !! base = Some m →
  p2 ≠ p → procs M !! p2 = Some P2 → mappings P2 !! base2 = Some m2 → run_of m2 = run_of m → ¬ excl m ∧ ¬ excl m2.
Proof.
  intros H Hp Hm Hne Hp2 Hm2 Er. split; intros Hx.
  - by destruct (ok_owner _ H _ _ _ _ _ _ _ _ Hp Hm Hx Hp2 Hm2 Er).
  - by destruct (ok_owner _ H _ _ _ _ _ _ _ _ Hp2 Hm2 Hx Hp Hm (eq_sym Er)).
Qed.

Lemma base_mapped M p P base m : ok M → procs M !! p = Some P → mappings P !! base = Some m →
  ∃ pa, covers (runs M) base m base pa ∧ is_Some (page_table P !! base).
Proof.
  intros H Hp Hm. pose proof (ok_procs _ H _ _ Hp) as HP. assert (∃ pa, covers (runs M) base m base pa) as [pa Hc].
  { destruct (ok_run _ _ HP _ _ Hm) as [[a n] Hr]. pose proof (ok_size _ H _ _ _ Hr).
    destruct m; simpl in *; [exists a, a, n, 0%nat; repeat split; [done|lia|lia|lia]..|by eexists]. }
  exists pa. split; [done|]. destruct (ok_mapped _ _ HP _ _ _ _ Hm Hc) as (? & -> & _). by eexists.
Qed.

Lemma abs_mem_none M p P v : ok M → procs M !! p = Some P → abs_mem M P !! v = None ↔ page_table P !! v = None.
Proof.
  intros H Hp. rewrite abs_mem_lookup. destruct (page_table P !! v) as [[pa perm]|] eqn:E; [|done].
  destruct (page_in_ram _ _ _ _ _ _ H Hp E) as (c & -> & _). done.
Qed.

(** A mapping of a run that nothing refers to yet. *)
Lemma insert_ok M p P pt addr m0 next : ok M → procs M !! p = Some P → excl m0 →
  (∀ q Q base m, procs M !! q = Some Q → mappings Q !! base = Some m → run_of m ≠ run_of m0) →
  let P' := MP pt (<[addr := m0]> (mappings P)) next in
  proc_ok (runs M) P' → ok (put_proc M p P') ∧ abs (put_proc M p P') = <[p := abs_proc M P']> (abs M).
Proof.
  intros H Hp Hx Hf P' HP. apply put_proc_ok; [done|done| |]; simpl.
  - intros base m base' m' [[? ?]|[? Hm]]%lookup_insert_Some Hxm [[? ?]|[? Hm']]%lookup_insert_Some Er; simplify_eq; [done| | |].
    + by destruct (Hf _ _ _ _ Hp Hm').
    + by destruct (Hf _ _ _ _ Hp Hm).
    + by destruct (ok_owner _ H _ _ _ _ _ _ _ _ Hp Hm Hxm Hp Hm' Er).
  - intros base m p2 P2 base2 m2 [[? ?]|[? Hm]]%lookup_insert_Some Hne Hp2 Hm2 Er; simplify_eq; [by destruct (Hf _ _ _ _ Hp2 Hm2)|].
    by eapply (kept_owner M p P base m p2 P2 base2 m2).
Qed.

(** ** mmap *)
Lemma map_proc_ok M p P m0 b a n pt addr perm next : m0 = Allocated b ∨ m0 = Mmap b →
  ok M → procs M !! p = Some P → runs M !! b = Some (a, n) →
  (∀ i, (i < n)%nat → page_table P !! (addr + PAGE * Z.of_nat i) = None ∧ pt !! (addr + PAGE * Z.of_nat i) = Some (a + PAGE * Z.of_nat i, perm)) →
  (∀ v, (∀ i, (i < n)%nat → v ≠ addr + PAGE * Z.of_nat i) → pt !! v = page_table P !! v) →
  proc_ok (runs M) (MP pt (<[addr := m0]> (mappings P)) next).
Proof.
  intros Hm0 H Hp Hr S1 S2. pose proof (ok_procs _ H _ _ Hp) as HP. pose proof (ok_size _ H _ _ _ Hr) as Hn.
  assert (mappings P !! addr = None) as Hadr.
  { destruct (mappings P !! addr) eqn:E; [|done]. destruct (base_mapped _ _ _ _ _ H Hp E) as (pa & _ & [x Hx]).
    destruct (S1 0%nat Hn) as [S3 _]. replace (addr + _) with addr in S3 by lia. congruence. }
  assert (∀ base m va pa, mappings P !! base = Some m → covers (runs M) base m va pa → ∀ i, (i < n)%nat → va ≠ addr + PAGE * Z.of_nat i) as Hold.
  { intros base m va pa Hm Hc i Hi ->. destruct (ok_mapped _ _ HP _ _ _ _ Hm Hc) as (? & E & _). destruct (S1 i Hi). congruence. }
  assert (∀ va pa, covers (runs M) addr m0 va pa ↔ ∃ i, (i < n)%nat ∧ va = addr + PAGE * Z.of_nat i ∧ pa = a + PAGE * Z.of_nat i) as Hcov.
  { intros va pa. destruct Hm0 as [-> | ->]; simpl; (split; [intros (a' & n' & i & ? & ?); simplify_eq; by exists i|intros (i & ?); by exists a, n, i]). }
  split; simpl.
  - intros base m va pa [[? ?]|[? Hm]]%lookup_insert_Some Hc; simplify_eq.
    + apply Hcov in Hc as (i & Hi & -> & ->). exists perm. split; [by apply S1|by destruct Hm0 as [-> | ->]].
    + rewrite S2; [by eapply ok_mapped|]. by eapply Hold.
  - intros va pa perm' Hv. destruct (range_dec va addr n) as [(i & Hi & ->)|Hn'].
    + exists addr, m0. split; [apply lookup_insert_eq|]. destruct (S1 i Hi). simplify_eq. apply Hcov. by exists i.
    + rewrite S2 in Hv by done. destruct (ok_covered _ _ HP _ _ _ Hv) as (base & m & Hm & Hc). exists base, m.
      split; [|done]. rewrite lookup_insert_ne; [done|congruence].
  - intros base m base' m' va pa pa' [[? ?]|[? Hm]]%lookup_insert_Some [[? ?]|[? Hm']]%lookup_insert_Some Hc Hc'; simplify_eq.
    + done.
    + apply Hcov in Hc as (i & Hi & -> & ->). by destruct (Hold _ _ _ _ Hm' Hc' i).
    + apply Hcov in Hc' as (i & Hi & -> & ->). by destruct (Hold _ _ _ _ Hm Hc i).
    + by eapply (ok_once _ _ HP base m base' m').
  - intros base m [[? ?]|[? Hm]]%lookup_insert_Some; simplify_eq; [by destruct Hm0 as [-> | ->]; eexists|by eapply ok_run].
  - intros base c [[? ?]|[? Hm]]%lookup_insert_Some; simplify_eq; [by destruct Hm0|by eapply ok_cow].
Qed.

(** What the process sees of a range it has just mapped, page [i] with contents [f i]. *)
Lemma map_abs_mem M p P m0 a n pt addr perm next f : excl m0 → ok M → procs M !! p = Some P → (0 < n)%nat →
  (∀ i, (i < n)%nat → ram M !! (a + PAGE * Z.of_nat i) = Some (f i)) →
  (∀ i, (i < n)%nat → page_table P !! (addr + PAGE * Z.of_nat i) = None ∧ pt !! (addr + PAGE * Z.of_nat i) = Some (a + PAGE * Z.of_nat i, perm)) →
  (∀ v, (∀ i, (i < n)%nat → v ≠ addr + PAGE * Z.of_nat i) → pt !! v = page_table P !! v) →
  let P' := MP pt (<[addr := m0]> (mappings P)) next in
  (∀ i, (i < n)%nat → abs_mem M P' !! (addr + PAGE * Z.of_nat i) = Some (f i, perm)) ∧
  (∀ v, (∀ i, (i < n)%nat → v ≠ addr + PAGE * Z.of_nat i) → abs_mem M P' !! v = abs_mem M P !! v).
Proof.
  intros Hx H Hp Hn Hz S1 S2 P'. split.
  - intros i Hi. rewrite abs_mem_lookup. simpl. unfold rights. simpl. destruct (S1 i Hi) as [E ->]. rewrite Hz by done. simpl. do 2 f_equal.
    destruct (decide (i = 0%nat)) as [->|]; [replace (addr + _) with addr by lia; rewrite lookup_insert_eq; by destruct m0|].
    rewrite lookup_insert_ne by lia. destruct (mappings P !! _) as [m'|] eqn:Em; [|done].
    destruct (base_mapped _ _ _ _ _ H Hp Em) as (_ & _ & [x Hx']). congruence.
  - intros v Hv. rewrite !abs_mem_lookup. simpl. rewrite S2 by done. unfold rights. simpl. rewrite lookup_insert_ne; [done|]. specialize (Hv 0%nat Hn). lia.
Qed.

Lemma map_abs M p P b a n pt addr perm next m : ok M → procs M !! p = Some P → runs M !! b = Some (a, n) →
  (∀ i, (i < n)%nat → ram M !! (a + PAGE * Z.of_nat i) = Some zero_page) →
  (∀ i, (i < n)%nat → page_table P !! (addr + PAGE * Z.of_nat i) = None ∧ pt !! (addr + PAGE * Z.of_nat i) = Some (a + PAGE * Z.of_nat i, perm)) →
  (∀ v, (∀ i, (i < n)%nat → v ≠ addr + PAGE * Z.of_nat i) → pt !! v = page_table P !! v) →
  (∀ i, (i < n)%nat → m !! (addr + PAGE * Z.of_nat i) = Some (zero_page, perm)) →
  (∀ v, (∀ i, (i < n)%nat → v ≠ addr + PAGE * Z.of_nat i) → m !! v = abs_mem M P !! v) →
  abs_proc M (MP pt (<[addr := Mmap b]> (mappings P)) next) = AP m (<[addr := n]> (abs_areas M P)) next.
Proof.
  intros H Hp Hr Hz S1 S2 S3 S4. pose proof (ok_size _ H _ _ _ Hr) as Hn. unfold abs_proc. simpl. f_equal.
  - destruct (map_abs_mem M p P (Mmap b) a n pt addr perm next (λ _, zero_page)) as [A1 A2]; [done..|].
    apply map_eq. intros v. destruct (range_dec v addr n) as [(i & Hi & ->)|Hv]; [by rewrite A1, S3|by rewrite A2, S4].
  - unfold abs_areas. simpl. apply map_eq. intros v. rewrite lookup_omap. destruct (decide (v = addr)) as [->|].
    + rewrite !lookup_insert_eq. simpl. by rewrite Hr.
    + rewrite !lookup_insert_ne by done. by rewrite lookup_omap.
Qed.

(** What two page maps with the same domain make of a range. *)
Lemma put_range_same {A B} (m : gmap Z A) (m' : gmap Z B) va (l : list A) (l' : list B) : length l = length l' →
  (∀ v, m !! v = None ↔ m' !! v = None) → put_range m va l = Panic → put_range m' va l' = Panic.
Proof.
  intros Hl Hd E. pose proof (put_range_spec l m va) as S1. pose proof (put_range_spec l' m' va) as S2. rewrite E in S1.
  destruct S1 as (i & Hi & Hs). destruct (put_range m' va l') as [x|]; [|done]. exfalso. destruct S2 as [S2 _].
  destruct (lookup_lt_is_Some_2 l' i) as [y Hy]; [lia|]. destruct (S2 _ _ Hy) as [S3 _]. apply Hd in S3. rewrite S3 in Hs. by destruct Hs.
Qed.

Lemma mmap_spec M p P n perm : ok M → procs M !! p = Some P → (0 < n)%nat →
  match mmap_pages M p P n perm with
  | Ret (addr, M') => ok M' ∧ addr = free_mmap_address P ∧ ∃ m, put_range (abs_mem M P) addr (replicate n (zero_page, perm)) = Ret m ∧
      abs M' = <[p := AP m (<[addr := n]> (abs_areas M P)) (addr + PAGE * Z.of_nat n)]> (abs M)
  | Panic => put_range (abs_mem M P) (free_mmap_address P) (replicate n (zero_page, perm)) = Panic
  end.
Proof.
  intros H Hp Hn. unfold mmap_pages. destruct (alloc_run M n) as [[b a] M1] eqn:Ea. simpl. set (addr := free_mmap_address P).
  destruct (alloc_run_spec _ _ _ _ _ H Hn Ea) as (H1 & A1 & P1 & Hb & R1 & Z1 & G1 & V1).
  assert (procs M1 !! p = Some P) as Hp1 by by rewrite P1. assert (runs M1 !! b = Some (a, n)) as Hr1 by (rewrite R1; apply lookup_insert_eq).
  pose proof (abs_proc_eq _ _ _ _ _ A1 Hp1 Hp) as AP1.
  apply (f_equal a_mem) in AP1 as AM. apply (f_equal a_areas) in AP1 as AA. simpl in AM, AA. clear AP1.
  unfold map_pages. set (l := _ <$> seq 0 n). assert (length l = n) as Hl by (unfold l; by rewrite length_fmap, length_seq).
  pose proof (put_range_spec l (page_table P) addr) as S1. pose proof (put_range_spec (replicate n (zero_page, perm)) (abs_mem M P) addr) as S2.
  pose proof (put_range_same (page_table P) (abs_mem M P) addr l (replicate n (zero_page, perm))) as D1.
  pose proof (put_range_same (abs_mem M P) (page_table P) addr (replicate n (zero_page, perm)) l) as D2.
  rewrite length_replicate in S2, D1, D2. rewrite Hl in S1, D1, D2. pose proof (λ v, abs_mem_none M p P v H Hp) as N.
  destruct (put_range (page_table P) _ _) as [pt|]; simpl; [|by apply D1].
  destruct (put_range (abs_mem M P) _ _) as [m|]; [|by discriminate D2].
  destruct S1 as [S1 S1'], S2 as [S2 S2']. assert (∀ i, (i < n)%nat → page_table P !! (addr + PAGE * Z.of_nat i) = None ∧
    pt !! (addr + PAGE * Z.of_nat i) = Some (a + PAGE * Z.of_nat i, perm)) as S.
  { intros i Hi. apply S1. unfold l. rewrite list_lookup_fmap, lookup_seq_lt by done. done. }
  destruct (insert_ok M1 p P pt addr (Mmap b) (addr + PAGE * Z.of_nat n) H1 Hp1) as [Hok Habs]; [done| |by eapply (map_proc_ok M1 p P (Mmap b)); [right|..]|].
  - rewrite P1. intros q Q base m' Hq Hm' Er. destruct (ok_run _ _ (ok_procs _ H _ _ Hq) _ _ Hm') as [x Hx]. simpl in Er. congruence.
  - split; [done|]. split; [done|]. exists m. split; [done|]. rewrite Habs, A1. f_equal. rewrite <- AA.
    eapply map_abs; try done.
    + intros i Hi. by apply S2, lookup_replicate.
    + by rewrite AM.
Qed.

(** ** munmap *)
Lemma unmap_proc M p P b a n addr next : ok M → procs M !! p = Some P → runs M !! b = Some (a, n) → mappings P !! addr = Some (Mmap b) →
  let P' := MP (delete_range (page_table P) addr n) (delete addr (mappings P)) next in
  proc_ok (runs M) P' ∧ abs_proc M P' = AP (delete_range (abs_mem M P) addr n) (delete addr (abs_areas M P)) next.
Proof.
  intros H Hp Hr Hm P'. pose proof (ok_procs _ H _ _ Hp) as HP. pose proof (ok_size _ H _ _ _ Hr) as Hn.
  destruct (delete_range_spec n (page_table P) addr) as [D1 D2]. destruct (delete_range_spec n (abs_mem M P) addr) as [E1 E2].
  assert (∀ i, (i < n)%nat → covers (runs M) addr (Mmap b) (addr + PAGE * Z.of_nat i) (a + PAGE * Z.of_nat i)) as Hc0.
  { intros i Hi. by exists a, n, i. }
  split; [split; simpl|].
  - intros base m va pa [? Hm']%lookup_delete_Some Hc. rewrite D2; [by eapply ok_mapped|]. intros i Hi ->.
    by destruct (ok_once _ _ HP _ _ _ _ _ _ _ Hm Hm' (Hc0 i Hi) Hc).
  - intros va pa perm Hv. destruct (range_dec va addr n) as [(i & Hi & ->)|Hv']; [by rewrite D1 in Hv|]. rewrite D2 in Hv by done.
    destruct (ok_covered _ _ HP _ _ _ Hv) as (base & m & Hm' & Hc). exists base, m. split; [|done]. rewrite lookup_delete_ne; [done|].
    intros <-. simplify_eq. destruct Hc as (a' & n' & i & ? & Hi & -> & ->). simplify_eq. by destruct (Hv' i).
  - intros base m base' m' va pa pa' [? Hm1]%lookup_delete_Some [? Hm2]%lookup_delete_Some. by eapply (ok_once _ _ HP).
  - intros base m [? Hm']%lookup_delete_Some. by eapply ok_run.
  - intros base c [? Hm']%lookup_delete_Some. by eapply ok_cow.
  - unfold abs_proc. simpl. f_equal; [|apply omap_delete]. apply map_eq. intros v. rewrite abs_mem_lookup. simpl.
    destruct (range_dec v addr n) as [(i & Hi & ->)|Hv]; [by rewrite D1, E1|]. rewrite D2, E2, abs_mem_lookup by done.
    unfold rights. simpl. rewrite lookup_delete_ne; [done|]. specialize (Hv 0%nat Hn). lia.
Qed.

Lemma munmap_spec M p P addr len : ok M → procs M !! p = Some P → ∃ r M', munmap_pages M p P addr len = Ret (r, M') ∧ ok M' ∧
  match abs_areas M P !! addr with
  | Some n => if PAGE * Z.of_nat n =? len
      then r = Okay tt ∧ abs M' = <[p := AP (delete_range (abs_mem M P) addr n) (delete addr (abs_areas M P)) (free_mmap_address P)]> (abs M)
      else r = Err EINVAL ∧ M' = M
  | None => r = Err EINVAL ∧ M' = M
  end.
Proof.
  intros H Hp. pose proof (ok_procs _ H _ _ Hp) as HP. unfold munmap_pages, unmap_pages, abs_areas. rewrite lookup_omap.
  destruct (mappings P !! addr) as [[b|b|c]|] eqn:Em; simpl; try by do 2 eexists.
  destruct (ok_run _ _ HP _ _ Em) as [[a n] Hr]. simpl in Hr. rewrite Hr. simpl.
  destruct (_ =? len); simpl; [|by do 2 eexists]. do 2 eexists. split; [done|].
  destruct (unmap_proc M p P b a n addr (free_mmap_address P) H Hp Hr Em) as [HP' HA].
  destruct (put_proc_ok M p _ H HP') as [Hok Habs]; simpl.
  - intros base m base' m' [? Hm]%lookup_delete_Some Hx [? Hm']%lookup_delete_Some Er.
    by destruct (ok_owner _ H _ _ _ _ _ _ _ _ Hp Hm Hx Hp Hm' Er).
  - intros base m p2 P2 base2 m2 [? Hm]%lookup_delete_Some. by eapply (kept_owner M p P).
  - destruct (collect_ok _ Hok) as [Hok' Hc]. split; [done|]. split; [done|]. by rewrite Hc, Habs, HA.
Qed.

(** ** Stores *)
Lemma rights_writable M p P va pa perm : ok M → procs M !! p = Some P → page_table P !! va = Some (pa, perm) →
  is_writable perm = true → rights P va perm = perm.
Proof.
  intros H Hp Hv Hw. unfold rights. destruct (mappings P !! va) as [[]|] eqn:Em; [done..| |done].
  destruct (ok_mapped _ _ (ok_procs _ H _ _ Hp) _ _ va (phys_addr c) Em) as (perm' & E & Hr); [done|]. simplify_eq.
  by rewrite readonly_not_writable in Hw.
Qed.

(** Writing to a page that one process sees at one place. *)
Lemma write_ram M p P va pa perm c c' : ok M → procs M !! p = Some P → page_table P !! va = Some (pa, perm) → is_writable perm = true →
  ram M !! pa = Some c → length c' = length c → let M' := MkMachine (procs M) (runs M) (<[pa := c']> (ram M)) in
  ok M' ∧ abs M' = <[p := AP (<[va := (c', perm)]> (abs_mem M P)) (abs_areas M P) (free_mmap_address P)]> (abs M).
Proof.
  intros H Hp Hv Hw Hc Hl M'. split.
  - destruct H as [h1 h2 h3 h4 h5]. split; simpl; try done. intros b pa' Hin. destruct (h4 _ _ Hin) as (x & Hx & Hlx).
    destruct (decide (pa' = pa)) as [->|]; [rewrite lookup_insert_eq; exists c'; split; [done|]; simplify_eq; lia|].
    rewrite lookup_insert_ne by done. by exists x.
  - apply map_eq. intros q. rewrite abs_lookup. simpl. destruct (decide (q = p)) as [->|Hq].
    + rewrite lookup_insert_eq, Hp. simpl. f_equal. unfold abs_proc. f_equal. apply map_eq. intros v. rewrite abs_mem_lookup. simpl.
      destruct (decide (v = va)) as [->|]; [rewrite Hv, lookup_insert_eq, lookup_insert_eq; simpl; by erewrite rights_writable|].
      rewrite (lookup_insert_ne (abs_mem M P)), abs_mem_lookup by done. destruct (page_table P !! v) as [[pa' perm']|] eqn:Ev; [|done].
      rewrite lookup_insert_ne; [done|]. intros ->. by destruct (writable_private M p P va pa' perm p P v perm') as [_ ?].
    + rewrite lookup_insert_ne, abs_lookup by done. destruct (procs M !! q) as [Q|] eqn:Eq; simpl; [|done]. f_equal.
      apply abs_proc_agree; [done|]. intros v pa' perm' Ev. simpl. apply lookup_insert_ne. intros ->.
      by destruct (writable_private M p P va pa' perm q Q v perm').
Qed.

Lemma hw_store_spec M p P va byte : ok M → procs M !! p = Some P →
  match hw_store M P va byte with
  | Ret (Some M') => ok M' ∧ ∃ A, a_write (abs_proc M P) va byte = Some A ∧ abs M' = <[p := A]> (abs M)
  | Ret None => match mappings P !! (va - va mod PAGE) with Some (Cow _) => True | _ => a_write (abs_proc M P) va byte = None end
  | Panic => False
  end.
Proof.
  intros H Hp. unfold hw_store, a_write. simpl. set (pg := va - va mod PAGE).
  destruct (page_table P !! pg) as [[pa perm]|] eqn:Ev.
  2: { rewrite abs_mem_lookup, Ev. by destruct (mappings P !! pg) as [[]|]. }
  destruct (page_in_ram _ _ _ _ _ _ H Hp Ev) as (c & Hc & Hl & ->). destruct (is_writable perm) eqn:Ew.
  - rewrite Hc. simpl. erewrite (rights_writable M p P) by done. rewrite Ew.
    destruct (write_ram M p P pg pa perm c (<[Z.to_nat (va mod PAGE) := byte]> c)) as [? ?]; [done..|apply length_insert|]. split; [done|].
    by eexists.
  - unfold rights. destruct (mappings P !! pg) as [[]|]; try done; by rewrite Ew.
Qed.

(** ** Resolving copy on write *)
Lemma fill_fresh M b a src : ok M → in_run (runs M) b a → (∀ p P va pa perm, procs M !! p = Some P → page_table P !! va = Some (pa, perm) → pa ≠ a) →
  length src = 4096%nat → let M' := MkMachine (procs M) (runs M) (<[a := src]> (ram M)) in ok M' ∧ abs M' = abs M.
Proof.
  intros H Hin Hf Hl M'. split.
  - destruct H as [h1 h2 h3 h4 h5]. split; simpl; try done. intros b' pa Hi. destruct (decide (pa = a)) as [->|].
    + rewrite lookup_insert_eq. by exists src.
    + rewrite lookup_insert_ne by done. by eapply h4.
  - apply abs_agree; [done|]. intros p P Hp. apply abs_proc_agree; [done|]. intros va pa perm Hv. simpl. apply lookup_insert_ne.
    intros E. by destruct (Hf _ _ _ _ _ Hp Hv).
Qed.

(** The private copy at [pg] in place of the shared page. *)
Lemma resolve_proc M p P pg c b a : ok M → procs M !! p = Some P → mappings P !! pg = Some (Cow c) → runs M !! b = Some (a, 1%nat) →
  ram M !! a = ram M !! phys_addr c →
  let P' := MP (<[pg := (a, original_perm c)]> (page_table P)) (<[pg := Allocated b]> (mappings P)) (free_mmap_address P) in
  proc_ok (runs M) P' ∧ abs_proc M P' = abs_proc M P.
Proof.
  intros H Hp Hm Hr Hcp P'. pose proof (ok_procs _ H _ _ Hp) as HP.
  destruct (ok_mapped _ _ HP _ _ pg (phys_addr c) Hm) as (perm & Hv & Hro); [done|].
  assert (∀ va pa, covers (runs M) pg (Allocated b) va pa → va = pg ∧ pa = a) as Hnew.
  { intros va pa (a' & n' & i & ? & ? & -> & ->). simplify_eq. assert (i = 0%nat) as -> by lia. lia. }
  assert (∀ base m pa, mappings P !! base = Some m → covers (runs M) base m pg pa → base = pg) as Honce.
  { intros base m pa Hm' Hc. eapply (ok_once _ _ HP base m pg (Cow c) pg pa); done. }
  split; [split; simpl|].
  - intros base m va pa [[? ?]|[? Hm']]%lookup_insert_Some Hc; simplify_eq.
    + apply Hnew in Hc as [-> ->]. rewrite lookup_insert_eq. by eexists.
    + rewrite lookup_insert_ne; [by eapply ok_mapped|]. intros ->. by destruct (Honce base m pa).
  - intros va pa perm' [[? ?]|[? Hv']]%lookup_insert_Some; simplify_eq.
    + exists va, (Allocated b). rewrite lookup_insert_eq. split; [done|]. exists pa, 1%nat, 0%nat. split; [done|]. lia.
    + destruct (ok_covered _ _ HP _ _ _ Hv') as (base & m & Hm' & Hc). exists base, m. split; [|done]. rewrite lookup_insert_ne; [done|].
      intros ->. simplify_eq. by destruct Hc.
  - intros base m base' m' va pa pa' [[? ?]|[? Hm1]]%lookup_insert_Some [[? ?]|[? Hm2]]%lookup_insert_Some Hc Hc'; simplify_eq; [done| | |].
    + apply Hnew in Hc as [-> ->]. by symmetry; eapply Honce.
    + apply Hnew in Hc' as [-> ->]. by eapply Honce.
    + by eapply (ok_once _ _ HP base m base' m').
  - intros base m [[? ?]|[? Hm']]%lookup_insert_Some; simplify_eq; [by eexists|by eapply ok_run].
  - intros base c' [[? ?]|[? Hm']]%lookup_insert_Some; simplify_eq; by eapply ok_cow.
  - unfold abs_proc. simpl. f_equal; apply map_eq; intros v.
    + rewrite !abs_mem_lookup. unfold rights. simpl. destruct (decide (v = pg)) as [->|]; [|by rewrite !lookup_insert_ne].
      rewrite !lookup_insert_eq, Hv, Hm. by rewrite Hcp.
    + unfold abs_areas. rewrite !lookup_omap. simpl. destruct (decide (v = pg)) as [->|]; [|by rewrite lookup_insert_ne].
      by rewrite lookup_insert_eq, Hm.
Qed.

Lemma resolve_spec M p P va c : ok M → procs M !! p = Some P → mappings P !! (va - va mod PAGE) = Some (Cow c) →
  ∃ M' P' b, resolve_cow_page M p P va = Ret (true, M') ∧ ok M' ∧ abs M' = abs M ∧ procs M' !! p = Some P' ∧
    mappings P' !! (va - va mod PAGE) = Some (Allocated b).
Proof.
  intros H Hp Hm. unfold resolve_cow_page. set (pg := va - va mod PAGE) in *. rewrite Hm.
  destruct (alloc_run M 1) as [[b a] M1] eqn:Ea. simpl.
  destruct (alloc_run_spec M 1 b a M1 H Nat.lt_0_1 Ea) as (H1 & A1 & P1 & Hb & R1 & Z1 & G1 & V1).
  assert (procs M1 !! p = Some P) as Hp1 by by rewrite P1. assert (runs M1 !! b = Some (a, 1%nat)) as Hr1 by (rewrite R1; apply lookup_insert_eq).
  pose proof (ok_procs _ H1 _ _ Hp1) as HP1. destruct (ok_mapped _ _ HP1 _ _ pg (phys_addr c) Hm) as (perm & Hv & _); [done|].
  destruct (page_in_ram _ _ _ _ _ _ H1 Hp1 Hv) as (src & Hs & Hl & _). rewrite Hs. simpl. unfold remap. rewrite Hv. simpl.
  assert (∀ q Q v pa pm, procs M1 !! q = Some Q → page_table Q !! v = Some (pa, pm) → pa ≠ a) as Hfr.
  { rewrite P1. intros q Q v pa pm Hq Hv'. pose proof (V1 _ _ _ _ _ Hq Hv' 0%nat ltac:(lia)). lia. }
  assert (in_run (runs M1) b a) as Hin by (exists a, 1%nat, 0%nat; split; [done|lia]).
  destruct (fill_fresh M1 b a src H1 Hin Hfr Hl) as [H2 A2]. set (M2 := MkMachine _ _ _) in *.
  destruct (resolve_proc M2 p P pg c b a H2 Hp1 Hm Hr1) as [HP' HA].
  { simpl. rewrite lookup_insert_eq, lookup_insert_ne; [done|]. intros E. by destruct (Hfr _ _ _ _ _ Hp1 Hv). }
  destruct (insert_ok M2 p P (<[pg := (a, original_perm c)]> (page_table P)) pg (Allocated b) (free_mmap_address P) H2 Hp1) as [H3 A3]; [done| |done|].
  { simpl. rewrite P1. intros q Q base m' Hq Hm' Er. destruct (ok_run _ _ (ok_procs _ H _ _ Hq) _ _ Hm') as [x Hx]. congruence. }
  destruct (collect_ok _ H3) as [H4 A4]. eexists _, _, b. split; [done|]. split; [done|].
  split; [|split; [apply lookup_insert_eq|apply lookup_insert_eq]].
  rewrite A4, A3, HA, insert_id; [congruence|]. rewrite abs_lookup. simpl. by rewrite Hp1.
Qed.

(** A store or a system call's write to a page. *)
Lemma store_spec M p P va byte : ok M → procs M !! p = Some P → ∃ r M', store M p P va byte = Ret (r, M') ∧ ok M' ∧
  match a_write (abs_proc M P) va byte with Some A => r = Nothing ∧ abs M' = <[p := A]> (abs M) | None => r = Killed ∧ abs M' = abs M end.
Proof.
  intros H Hp. unfold store. pose proof (hw_store_spec M p P va byte H Hp) as S1.
  destruct (hw_store M P va byte) as [[M1|]|]; simpl; [| |done].
  { destruct S1 as [H1 (A & -> & ?)]. by do 2 eexists. }
  destruct (mappings P !! (va - va mod PAGE)) as [[b|b|c]|] eqn:Em; [| | |]; try (unfold resolve_cow_page; rewrite Em; simpl; rewrite S1; by do 2 eexists).
  destruct (resolve_spec M p P va c H Hp Em) as (M1 & P1 & b & -> & H1 & A1 & Hp1 & Em1). simpl. rewrite Hp1. simpl.
  pose proof (abs_proc_eq _ _ _ _ _ A1 Hp1 Hp) as AP1.
  pose proof (hw_store_spec M1 p P1 va byte H1 Hp1) as S2. rewrite AP1, A1, Em1 in S2.
  destruct (hw_store M1 P1 va byte) as [[M2|]|]; simpl; [| |done].
  - destruct S2 as [H2 (A & -> & ?)]. by do 2 eexists.
  - rewrite S2. by do 2 eexists.
Qed.

Lemma kernel_write_spec M p P va byte : ok M → procs M !! p = Some P → ∃ r M', kernel_write M p P va byte = Ret (r, M') ∧ ok M' ∧
  match a_write (abs_proc M P) va byte with Some A => r = Nothing ∧ abs M' = <[p := A]> (abs M) | None => r = Error EFAULT ∧ abs M' = abs M end.
Proof.
  intros H Hp. unfold kernel_write. assert (∃ M1 P1, ensure_cow_resolved_for_write M p P va = Ret M1 ∧ ok M1 ∧ abs M1 = abs M ∧ procs M1 !! p = Some P1 ∧
    match mappings P1 !! (va - va mod PAGE) with Some (Cow c) => is_writable (original_perm c) = false | _ => True end)
    as (M1 & P1 & -> & H1 & A1 & Hp1 & Hc).
  { unfold ensure_cow_resolved_for_write. destruct (mappings P !! (va - va mod PAGE)) as [[b|b|c]|] eqn:Em; try by (exists M, P; rewrite Em).
    destruct (is_writable (original_perm c)) eqn:Ew; [|by (exists M, P; rewrite Em)].
    destruct (resolve_spec M p P va c H Hp Em) as (M1 & P1 & b & -> & H1 & A1 & Hp1 & Em1). simpl. exists M1, P1. by rewrite Em1. }
  simpl. rewrite Hp1. simpl.
  pose proof (abs_proc_eq _ _ _ _ _ A1 Hp1 Hp) as AP1.
  pose proof (hw_store_spec M1 p P1 va byte H1 Hp1) as S2. rewrite AP1, A1 in S2.
  destruct (hw_store M1 P1 va byte) as [[M2|]|]; simpl; [| |done].
  - destruct S2 as [H2 (A & -> & ?)]. by do 2 eexists.
  - assert (a_write (abs_proc M P) va byte = None) as ->; [|by do 2 eexists]. destruct (mappings P1 !! _) as [[b|b|c]|] eqn:Em; try done.
    rewrite <- AP1. unfold a_write. simpl. rewrite abs_mem_lookup. destruct (page_table P1 !! _) as [[pa perm]|]; [|done].
    destruct (ram M1 !! pa); simpl; [|done]. unfold rights. by rewrite Em, Hc.
Qed.

(** ** mprotect of pages that are not shared *)
Definition no_cow (P : MemProc) (va : Z) (n : nat) : bool :=
  forallb (λ i, match mappings P !! (va + PAGE * Z.of_nat i) with Some (Cow _) => false | _ => true end) (seq 0 n).

Lemma no_cow_spec P va n : no_cow P va n = true ↔
  ∀ i, (i < n)%nat → match mappings P !! (va + PAGE * Z.of_nat i) with Some (Cow _) => False | _ => True end.
Proof.
  unfold no_cow. rewrite forallb_forall. split.
  - intros H i Hi. specialize (H i ltac:(apply in_seq; lia)). by destruct (mappings P !! _) as [[]|].
  - intros H i Hi%in_seq. specialize (H i ltac:(lia)). by destruct (mappings P !! _) as [[]|].
Qed.

Lemma reprotect M p P va pa pm perm : ok M → procs M !! p = Some P → page_table P !! va = Some (pa, pm) →
  match mappings P !! va with Some (Cow _) => False | _ => True end →
  let P' := MP (<[va := (pa, perm)]> (page_table P)) (mappings P) (free_mmap_address P) in
  ok (put_proc M p P') ∧ ∃ c, abs_mem M P !! va = Some (c, rights P va pm) ∧
    abs_proc M P' = AP (<[va := (c, perm)]> (abs_mem M P)) (abs_areas M P) (free_mmap_address P).
Proof.
  intros H Hp Hv Hn P'. pose proof (ok_procs _ H _ _ Hp) as HP. destruct (page_in_ram _ _ _ _ _ _ H Hp Hv) as (c & Hc & _ & Hm). split.
  - apply put_proc_ok; simpl; [done| | |].
    + destruct HP as [h1 h2 h3 h4 h5]. split; simpl; try done.
      * intros base m v pa' Hm' Hcv. destruct (h1 _ _ _ _ Hm' Hcv) as (pm' & E & Hr). destruct (decide (v = va)) as [->|].
        -- rewrite lookup_insert_eq. simplify_eq. exists perm. split; [done|]. destruct m; try done. destruct Hcv as [-> _]. by rewrite Hm' in Hn.
        -- rewrite lookup_insert_ne by done. by exists pm'.
      * intros v pa' pm' [[? ?]|[? ?]]%lookup_insert_Some; simplify_eq; by eapply h2.
    + intros base m base' m' Hm1 Hx Hm2 Er. by destruct (ok_owner _ H _ _ _ _ _ _ _ _ Hp Hm1 Hx Hp Hm2 Er).
    + intros base m p2 P2 base2 m2 Hm1. by eapply (kept_owner M p P).
  - exists c. split; [done|]. unfold abs_proc. simpl. f_equal. apply map_eq. intros v. rewrite abs_mem_lookup. simpl. unfold rights. simpl.
    destruct (decide (v = va)) as [->|].
    + rewrite !lookup_insert_eq, Hc. simpl. by destruct (mappings P !! va) as [[]|].
    + rewrite !lookup_insert_ne, abs_mem_lookup by done. done.
Qed.

Lemma put_put M p P P' : put_proc (put_proc M p P) p P' = put_proc M p P'.
Proof. unfold put_proc. simpl. by rewrite insert_insert_eq. Qed.

Lemma mprotect_spec n perm : ∀ M p P va, ok M → procs M !! p = Some P → no_cow P va n = true →
  match mprotect_pages (page_table P) va n perm with
  | Ret pt => let P' := MP pt (mappings P) (free_mmap_address P) in ok (put_proc M p P') ∧ ∃ m, a_mprotect (abs_mem M P) va n perm = Ret m ∧
      abs_proc M P' = AP m (abs_areas M P) (free_mmap_address P)
  | Panic => a_mprotect (abs_mem M P) va n perm = Panic
  end.
Proof.
  induction n as [|n IH]; intros M p P va H Hp Hc; simpl.
  { destruct P as [pt maps nx]. rewrite put_same by done. split; [done|]. by exists (abs_mem M (MP pt maps nx)). }
  destruct (page_table P !! va) as [[pa pm]|] eqn:Hv; simpl.
  2: { apply (abs_mem_none _ _ _ _ H Hp) in Hv. by rewrite Hv. }
  assert (match mappings P !! va with Some (Cow _) => False | _ => True end) as Hn.
  { pose proof (proj1 (no_cow_spec _ _ _) Hc 0%nat ltac:(lia)) as E. by replace (va + _) with va in E by lia. }
  destruct (reprotect M p P va pa pm perm H Hp Hv Hn) as (H1 & c & Ec & A1). rewrite Ec. simpl.
  set (P1 := MP _ _ _) in *. assert (procs (put_proc M p P1) !! p = Some P1) as Hp1 by apply lookup_insert_eq.
  assert (no_cow P1 (va + PAGE) n = true) as Hc1.
  { apply no_cow_spec. intros i Hi. simpl. pose proof (proj1 (no_cow_spec _ _ _) Hc (S i) ltac:(lia)) as E.
    by replace (va + PAGE + PAGE * Z.of_nat i) with (va + PAGE * Z.of_nat (S i)) by lia. }
  specialize (IH _ _ _ (va + PAGE) H1 Hp1 Hc1). apply (f_equal a_mem) in A1 as A1m. simpl in A1m.
  change (abs_mem (put_proc M p P1) P1) with (abs_mem M P1) in IH. rewrite A1m in IH. simpl in IH.
  destruct (mprotect_pages _ _ n perm) as [pt|]; [|done]. rewrite put_put in IH. exact IH.
Qed.
End fork.
