(* ===== verification/ForkRefinement.v ===== *)
(** Fork and the theorem: the processes of a machine have the memories of the abstract
    machine, in which every process has its own and fork copies it. *)
From stdpp Require Import sorting.
From S2P Require Import Prelude Headers KUtil PTE ProcessTable ForkMemory ForkTheorems.

(** ** What fork makes of a mapping *)
Definition perm_at (pt : gmap Z (Z * XWRMode)) (va : Z) : XWRMode := match pt !! va with Some (_, perm) => perm | None => ReadOnly end.

Definition cow_pages (R : gmap nat (Z * nat)) (pt : gmap Z (Z * XWRMode)) (e : Z * Mapping) : list (Z * CowPageInfo) :=
  match e.2 with
  | Allocated b | Mmap b =>
      match R !! b with
      | Some (a, n) => (λ i, let va := e.1 + PAGE * Z.of_nat i in (va, CowInfo (a + PAGE * Z.of_nat i) (perm_at pt va) b)) <$> seq 0 n
      | None => []
      end
  | Cow c => [(e.1, c)]
  end.

Definition shared (c : CowPageInfo) : Z * XWRMode := (phys_addr c, as_readonly (original_perm c)).

Definition fstep (s : Forking) (e : Z * CowPageInfo) : Forking :=
  FK (<[e.1 := shared e.2]> (parent_pt s)) (<[e.1 := shared e.2]> (child_pt s)) (<[e.1 := e.2]> (cow s)).

Lemma foldl_fstep_other l : ∀ s va, va ∉ l.*1 → parent_pt (foldl fstep s l) !! va = parent_pt s !! va ∧
  child_pt (foldl fstep s l) !! va = child_pt s !! va ∧ cow (foldl fstep s l) !! va = cow s !! va.
Proof.
  induction l as [|e l IH]; intros s va Hn; simpl; [done|]. rewrite fmap_cons, not_elem_of_cons in Hn. destruct Hn as [Hne Hn].
  destruct (IH (fstep s e) va Hn) as (-> & -> & ->). simpl. by rewrite !lookup_insert_ne by done.
Qed.

Lemma foldl_fstep_in l : ∀ s va c, NoDup l.*1 → (va, c) ∈ l → parent_pt (foldl fstep s l) !! va = Some (shared c) ∧
  child_pt (foldl fstep s l) !! va = Some (shared c) ∧ cow (foldl fstep s l) !! va = Some c.
Proof.
  induction l as [|e l IH]; intros s va c Hd Hin; simpl; [by apply elem_of_nil in Hin|]. rewrite fmap_cons, NoDup_cons in Hd. destruct Hd as [Hn Hd].
  apply elem_of_cons in Hin as [<-|Hin]; [|by apply IH].
  destruct (foldl_fstep_other l (fstep s (va, c)) va Hn) as (-> & -> & ->). simpl. by rewrite !lookup_insert_eq.
Qed.

(** The pages of [l] are still as they were in the parent, and not in the child. *)
Definition todo (pt : gmap Z (Z * XWRMode)) (s : Forking) (l : list (Z * CowPageInfo)) : Prop :=
  ∀ va, va ∈ l.*1 → parent_pt s !! va = pt !! va ∧ child_pt s !! va = None.

Lemma todo_app pt s l l' : NoDup (l ++ l').*1 → todo pt s (l ++ l') → todo pt (foldl fstep s l) l'.
Proof.
  rewrite fmap_app. intros (_ & Hd & _)%NoDup_app Ht va Hva. destruct (foldl_fstep_other l s va) as (-> & -> & _); [by intros ?; eapply Hd|].
  apply Ht. rewrite fmap_app. apply elem_of_app. by right.
Qed.

Lemma todo_weaken pt s l l' : todo pt s (l ++ l') → todo pt s l.
Proof. intros Ht va Hva. apply Ht. rewrite fmap_app. apply elem_of_app. by left. Qed.

Section refinement.
Context `{HH : Headers} `{PS : PageSource} `{PO : !PageSourceOk PS}.
Implicit Types (M : Machine) (P : MemProc).

Lemma fork_page_step (pt : gmap Z (Z * XWRMode)) base a b s i perm : pt !! (base + PAGE * Z.of_nat i) = Some (a + PAGE * Z.of_nat i, perm) →
  parent_pt s !! (base + PAGE * Z.of_nat i) = pt !! (base + PAGE * Z.of_nat i) → child_pt s !! (base + PAGE * Z.of_nat i) = None →
  fork_page base a b s i = Ret (fstep s (base + PAGE * Z.of_nat i, CowInfo (a + PAGE * Z.of_nat i) perm b)).
Proof.
  intros Hv Hp Hc. unfold fork_page. rewrite Hp, Hv. unfold remap, map_pages. rewrite Hp, Hv. set (va := base + _) in *.
  simpl. replace (a + PAGE * Z.of_nat i + PAGE * Z.of_nat 0) with (a + PAGE * Z.of_nat i) by lia. rewrite (bool_decide_eq_true_2 _ Hc). simpl.
  unfold fstep, shared. simpl. rewrite Hv in Hp. destruct (is_writable perm) eqn:Ew; simpl; [done|].
  assert (as_readonly perm = perm) as -> by by destruct perm. rewrite (insert_id (parent_pt s)) by done. done.
Qed.

Lemma fork_run_steps (pt : gmap Z (Z * XWRMode)) base a b n : (∀ i, (i < n)%nat → ∃ perm, pt !! (base + PAGE * Z.of_nat i) = Some (a + PAGE * Z.of_nat i, perm)) →
  ∀ l s, (∀ i, i ∈ l → (i < n)%nat) →
  let f := λ i, let va := base + PAGE * Z.of_nat i in (va, CowInfo (a + PAGE * Z.of_nat i) (perm_at pt va) b) in
  NoDup (f <$> l).*1 → todo pt s (f <$> l) → foldM (fork_page base a b) l s = Ret (foldl fstep s (f <$> l)).
Proof.
  intros Hpt l. induction l as [|i l IH]; intros s Hl f Hd Ht; simpl; [done|].
  destruct (Hpt i) as [perm Hv]; [apply Hl, elem_of_cons; by left|].
  destruct (Ht (base + PAGE * Z.of_nat i)) as [Hp Hc]; [simpl; apply elem_of_cons; by left|].
  rewrite (fork_page_step pt base a b s i perm Hv Hp Hc). simpl.
  assert (f i = (base + PAGE * Z.of_nat i, CowInfo (a + PAGE * Z.of_nat i) perm b)) as <- by (unfold f, perm_at; by rewrite Hv). apply IH.
  - intros j Hj. apply Hl, elem_of_cons. by right.
  - by inversion Hd.
  - by apply (todo_app pt s [f i]).
Qed.

Lemma fork_mapping_steps R P base m s : proc_ok R P → mappings P !! base = Some m → NoDup (cow_pages R (page_table P) (base, m)).*1 →
  todo (page_table P) s (cow_pages R (page_table P) (base, m)) →
  fork_mapping R s (base, m) = Ret (foldl fstep s (cow_pages R (page_table P) (base, m))).
Proof.
  intros HP Hm Hd Ht. unfold fork_mapping, cow_pages in *. simpl in *. destruct m as [b|b|c].
  1,2: destruct (ok_run _ _ HP _ _ Hm) as [[a n] Hr]; simpl in Hr; rewrite Hr in *; simpl; eapply (fork_run_steps _ _ _ _ n); [|by intros i ?%elem_of_seq; lia|done|done];
    intros i Hi; destruct (ok_mapped _ _ HP _ _ (base + PAGE * Z.of_nat i) (a + PAGE * Z.of_nat i) Hm) as (perm & ? & _); [by exists a, n, i|by exists perm].
  destruct (ok_mapped _ _ HP _ _ base (phys_addr c) Hm) as (perm & Hv & ->); [done|]. destruct (Ht base) as [Hp Hc]; [simpl; apply elem_of_cons; by left|].
  rewrite Hp, Hv. simpl. unfold map_pages. simpl. replace (phys_addr c + PAGE * Z.of_nat 0) with (phys_addr c) by lia. rewrite (bool_decide_eq_true_2 _ Hc). simpl.
  unfold fstep, shared. simpl. by rewrite (insert_id (parent_pt s)) by by rewrite Hp.
Qed.

Lemma fork_fold_steps R P l : ∀ s, proc_ok R P → (∀ e, e ∈ l → mappings P !! e.1 = Some e.2) →
  let L := mjoin (cow_pages R (page_table P) <$> l) in NoDup L.*1 → todo (page_table P) s L →
  foldM (fork_mapping R) l s = Ret (foldl fstep s L).
Proof.
  induction l as [|[base m] l IH]; intros s HP Hl L Hd Ht; [done|]. unfold L in *. clear L. cbn [foldM].
  change (mjoin (cow_pages R (page_table P) <$> (base, m) :: l)) with
    (cow_pages R (page_table P) (base, m) ++ mjoin (cow_pages R (page_table P) <$> l)) in *.
  rewrite (fork_mapping_steps R P base m s HP); [simpl| |by rewrite fmap_app in Hd; apply NoDup_app in Hd as [? _]|by eapply todo_weaken].
  2: { apply (Hl (base, m)), elem_of_cons. by left. }
  rewrite IH; [by rewrite foldl_app|done| | |by apply todo_app].
  - intros e He. apply Hl, elem_of_cons. by right.
  - rewrite fmap_app in Hd. by apply NoDup_app in Hd as (_ & _ & ?).
Qed.

(** ** All pages of a process *)
Lemma elem_of_sorted_mappings P base m : (base, m) ∈ sorted_mappings P ↔ mappings P !! base = Some m.
Proof.
  unfold sorted_mappings. rewrite list_elem_of_omap. split.
  - intros (v & _ & E). destruct (mappings P !! v) eqn:Ev; simpl in E; by simplify_eq.
  - intros E. exists base. rewrite E. split; [|done]. apply elem_of_sorted_keys. by eexists.
Qed.

Lemma sorted_mappings_nodup P : NoDup (sorted_mappings P).*1.
Proof.
  unfold sorted_mappings. assert (NoDup (sorted_keys (mappings P))) as Hd.
  { unfold sorted_keys. rewrite (merge_sort_Permutation Z.le). apply NoDup_elements. }
  revert Hd. induction (sorted_keys (mappings P)) as [|v l IH]; intros Hd; simpl; [constructor|]. inversion Hd; subst.
  destruct (mappings P !! v) eqn:Ev; simpl; [|by apply IH]. constructor; [|by apply IH].
  intros ((k & m') & -> & Hin)%list_elem_of_fmap. apply list_elem_of_omap in Hin as (w & Hw & E).
  destruct (mappings P !! w); simpl in E; by simplify_eq.
Qed.

(** Where a copy-on-write page comes from. *)
Definition page_from (R : gmap nat (Z * nat)) P (base : Z) (m : Mapping) (va : Z) (c : CowPageInfo) : Prop :=
  covers R base m va (phys_addr c) ∧ run_of m = backing c ∧
  ∃ perm, page_table P !! va = Some (phys_addr c, perm) ∧ original_perm c = rights P va perm.

Lemma elem_of_cow_pages R P base m va c : proc_ok R P → mappings P !! base = Some m →
  (va, c) ∈ cow_pages R (page_table P) (base, m) → page_from R P base m va c.
Proof.
  intros HP Hm. unfold cow_pages, page_from. simpl. destruct m as [b|b|c']; simpl.
  1,2: destruct (R !! b) as [[a n]|] eqn:Hr; [|by intros ?%elem_of_nil]; intros (i & E & Hi%elem_of_seq)%list_elem_of_fmap; simplify_eq; simpl;
    (destruct (ok_mapped _ _ HP _ _ (base + PAGE * Z.of_nat i) (a + PAGE * Z.of_nat i) Hm) as (perm & Hv & _); [exists a, n, i; split; [done|lia]|]);
    split; [exists a, n, i; split; [done|lia]|]; split; [done|]; exists perm; split; [done|]; unfold perm_at, rights; rewrite Hv;
    destruct (mappings P !! (base + PAGE * Z.of_nat i)) as [[| |c']|] eqn:Ec; [done..| |done]; exfalso;
    assert (base = base + PAGE * Z.of_nat i) as Eb
      by (eapply (ok_once _ _ HP base _ _ (Cow c') (base + PAGE * Z.of_nat i) (a + PAGE * Z.of_nat i)); [done|done|exists a, n, i; split; [done|lia]|done]);
    rewrite <- Eb, Hm in Ec; discriminate.
  rewrite list_elem_of_singleton. intros [= -> ->]. split; [done|]. split; [done|].
  destruct (ok_mapped _ _ HP _ _ base (phys_addr c') Hm) as (perm & Hv & _); [done|]. exists perm. unfold rights. by rewrite Hm.
Qed.

Lemma cow_pages_complete R P base m va pa : mappings P !! base = Some m → covers R base m va pa →
  va ∈ (cow_pages R (page_table P) (base, m)).*1.
Proof.
  intros Hm. unfold cow_pages. simpl. destruct m as [b|b|c]; simpl; [| |intros [-> _]; by apply list_elem_of_singleton].
  all: intros (a & n & i & -> & Hi & -> & _); rewrite <- list_fmap_compose; apply list_elem_of_fmap; exists i; split; [done|]; apply elem_of_seq; lia.
Qed.

Lemma cow_pages_nodup R P e : NoDup (cow_pages R (page_table P) e).*1.
Proof.
  unfold cow_pages. destruct (e.2) as [b|b|c]; simpl; [| |apply NoDup_singleton].
  all: destruct (R !! b) as [[a n]|]; [|constructor]; rewrite <- list_fmap_compose; apply NoDup_fmap_2; [intros i j; simpl; lia|apply NoDup_seq].
Qed.

Definition all_pages R P : list (Z * CowPageInfo) := mjoin (cow_pages R (page_table P) <$> sorted_mappings P).

Lemma elem_of_all_pages R P va c : proc_ok R P → (va, c) ∈ all_pages R P → ∃ base m, mappings P !! base = Some m ∧ page_from R P base m va c.
Proof.
  intros HP. unfold all_pages. rewrite list_elem_of_join. intros (l & Hc & ((base & m) & -> & Hm%elem_of_sorted_mappings)%list_elem_of_fmap).
  exists base, m. split; [done|]. by apply elem_of_cow_pages.
Qed.

Lemma all_pages_complete R P va pa perm : proc_ok R P → page_table P !! va = Some (pa, perm) → va ∈ (all_pages R P).*1.
Proof.
  intros HP Hv. destruct (ok_covered _ _ HP _ _ _ Hv) as (base & m & Hm & Hc).
  destruct (proj1 (list_elem_of_fmap _ _ _) (cow_pages_complete _ _ _ _ _ _ Hm Hc)) as ((v & c) & E & Hin). simpl in E. subst v.
  apply list_elem_of_fmap. exists (va, c). split; [done|]. unfold all_pages. apply list_elem_of_join. eexists. split; [exact Hin|].
  apply list_elem_of_fmap. exists (base, m). split; [done|]. by apply elem_of_sorted_mappings.
Qed.

Lemma all_pages_nodup R P : proc_ok R P → NoDup (all_pages R P).*1.
Proof.
  intros HP. unfold all_pages. assert (∀ e, e ∈ sorted_mappings P → mappings P !! e.1 = Some e.2) as Hl.
  { intros [base m] H. by apply elem_of_sorted_mappings in H. }
  pose proof (sorted_mappings_nodup P) as Hd. revert Hl Hd. induction (sorted_mappings P) as [|e l IH]; intros Hl Hd; [constructor|].
  change (mjoin (cow_pages R (page_table P) <$> e :: l)) with (cow_pages R (page_table P) e ++ mjoin (cow_pages R (page_table P) <$> l)).
  rewrite fmap_app, NoDup_app. inversion Hd as [|? ? Hn Hd']; subst. split; [apply cow_pages_nodup|]. split; [|apply IH; [|done]].
  - intros va ((v & c) & -> & Hin)%list_elem_of_fmap ((v' & c') & E & Hin')%list_elem_of_fmap. simpl in E. subst v'.
    apply list_elem_of_join in Hin' as (l' & Hin' & (e' & -> & He')%list_elem_of_fmap).
    pose proof (Hl e (list_elem_of_here _ _)) as Hm. pose proof (Hl e' (list_elem_of_further _ _ _ He')) as Hm'.
    destruct e as [base m], e' as [base' m']. simpl in *.
    destruct (elem_of_cow_pages _ _ _ _ _ _ HP Hm Hin) as [Hc _]. destruct (elem_of_cow_pages _ _ _ _ _ _ HP Hm' Hin') as [Hc' _].
    pose proof (ok_once _ _ HP _ _ _ _ _ _ _ Hm Hm' Hc Hc') as ->. apply Hn. apply list_elem_of_fmap. by exists (base', m').
  - intros e' He'. apply Hl. by apply list_elem_of_further.
Qed.

(** ** fork *)
Definition fork_proc (C : gmap Z CowPageInfo) (next : Z) : MemProc := MP (shared <$> C) (Cow <$> C) next.

Lemma fork_closed M p P child : ok M → procs M !! p = Some P → ∃ C,
  fork_address_space M p P child =
    Ret (collect (put_proc (put_proc M p (fork_proc C (free_mmap_address P))) child (fork_proc C (free_mmap_address P)))) ∧
  (∀ va c, C !! va = Some c → ∃ base m, mappings P !! base = Some m ∧ page_from (runs M) P base m va c) ∧
  (∀ va, C !! va = None → page_table P !! va = None).
Proof.
  intros H Hp. pose proof (ok_procs _ H _ _ Hp) as HP. pose proof (all_pages_nodup _ _ HP) as Hd. set (L := all_pages (runs M) P) in *.
  set (s := foldl fstep (FK (page_table P) ∅ ∅) L). exists (cow s).
  assert (∀ va, va ∈ L.*1 ∨ va ∉ L.*1) as Hdec by (intros va; destruct (decide (va ∈ L.*1)); tauto).
  assert (∀ va, va ∉ L.*1 → page_table P !! va = None) as Hno.
  { intros va Hn. destruct (page_table P !! va) as [[pa perm]|] eqn:E; [|done]. destruct Hn. by eapply all_pages_complete. }
  assert (∀ va, parent_pt s !! va = shared <$> cow s !! va ∧ child_pt s !! va = shared <$> cow s !! va ∧
    match cow s !! va with Some c => (va, c) ∈ L | None => page_table P !! va = None end) as Hs.
  { intros va. unfold s. destruct (Hdec va) as [((v & c) & -> & Hin)%list_elem_of_fmap|Hn].
    - cbn [fst]. by destruct (foldl_fstep_in L (FK (page_table P) ∅ ∅) v c Hd Hin) as (-> & -> & ->).
    - destruct (foldl_fstep_other L (FK (page_table P) ∅ ∅) va Hn) as (-> & -> & ->). simpl. rewrite !lookup_empty. simpl. split_and!; auto. }
  split_and!.
  - unfold fork_address_space. rewrite (fork_fold_steps _ P); [| done |by intros [base m] ?%elem_of_sorted_mappings|done|by intros va _].
    fold (all_pages (runs M) P). fold L. fold s. simpl. unfold fork_proc. assert (parent_pt s = shared <$> cow s) as -> by (apply map_eq; intros va; rewrite lookup_fmap; apply Hs).
    by assert (child_pt s = shared <$> cow s) as -> by (apply map_eq; intros va; rewrite lookup_fmap; apply Hs).
  - intros va c E. destruct (Hs va) as (_ & _ & Hin). rewrite E in Hin. by apply elem_of_all_pages.
  - intros va E. destruct (Hs va) as (_ & _ & Hin). by rewrite E in Hin.
Qed.

Lemma fork_proc_spec M p P C : ok M → procs M !! p = Some P →
  (∀ va c, C !! va = Some c → ∃ base m, mappings P !! base = Some m ∧ page_from (runs M) P base m va c) →
  (∀ va, C !! va = None → page_table P !! va = None) →
  proc_ok (runs M) (fork_proc C (free_mmap_address P)) ∧
  abs_proc M (fork_proc C (free_mmap_address P)) = AP (abs_mem M P) ∅ (free_mmap_address P).
Proof.
  intros H Hp H1 H2. pose proof (ok_procs _ H _ _ Hp) as HP.
  assert (∀ va c, C !! va = Some c → in_run (runs M) (backing c) (phys_addr c)) as Hin.
  { intros va c E. destruct (H1 _ _ E) as (base & m & Hm & Hc & <- & _). by eapply covers_in_run. }
  assert (∀ base m, (Cow <$> C) !! base = Some m → ∃ c, C !! base = Some c ∧ m = Cow c) as HC.
  { intros base m. rewrite lookup_fmap. destruct (C !! base) eqn:E; simpl; [|done]. intros ?. simplify_eq. by eexists. }
  split; [split; simpl|].
  - intros base m va pa (c & Hc & ->)%HC [-> ->]. exists (as_readonly (original_perm c)). by rewrite lookup_fmap, Hc.
  - intros va pa perm. rewrite lookup_fmap. destruct (C !! va) as [c|] eqn:E; simpl; [|done]. intros [= <- <-].
    exists va, (Cow c). rewrite lookup_fmap, E. done.
  - intros base m base' m' va pa pa' (c & Hc & ->)%HC (c' & Hc' & ->)%HC [-> _] [-> _]. done.
  - intros base m (c & Hc & ->)%HC. destruct (Hin _ _ Hc) as (a & n & i & Hr & _). by eexists.
  - intros base c (c' & Hc & E)%HC. simplify_eq. by eapply Hin.
  - unfold abs_proc. simpl. f_equal; apply map_eq; intros va.
    + rewrite !abs_mem_lookup. unfold rights at 1. simpl. rewrite !lookup_fmap. destruct (C !! va) as [c|] eqn:E; simpl; [|by rewrite H2].
      destruct (H1 _ _ E) as (base & m & _ & _ & _ & perm & -> & ->). done.
    + unfold abs_areas. rewrite lookup_omap. simpl. rewrite lookup_fmap, lookup_empty. by destruct (C !! va).
Qed.

Lemma fork_spec M p P child : ok M → procs M !! p = Some P → procs M !! child = None → ∃ M', fork_address_space M p P child = Ret M' ∧ ok M' ∧
  abs M' = <[child := AP (abs_mem M P) ∅ (free_mmap_address P)]> (<[p := AP (abs_mem M P) ∅ (free_mmap_address P)]> (abs M)).
Proof.
  intros H Hp Hch. destruct (fork_closed M p P child H Hp) as (C & -> & H1 & H2). eexists. split; [done|].
  destruct (fork_proc_spec M p P C H Hp H1 H2) as [HP' HA]. set (P' := fork_proc C _) in *.
  assert (∀ base m, mappings P' !! base = Some m → ¬ excl m ∧ ∃ base' m', mappings P !! base' = Some m' ∧ run_of m' = run_of m) as Hx.
  { intros base m. simpl. rewrite lookup_fmap. destruct (C !! base) as [c|] eqn:E; simpl; [|done]. intros ?. simplify_eq. split; [naive_solver|].
    destruct (H1 _ _ E) as (base' & m' & Hm & _ & Er & _). by exists base', m'. }
  destruct (put_proc_ok M p P' H HP') as [H3 A3].
  - intros base m base' m' Hm Hxm. by destruct (Hx _ _ Hm).
  - intros base m p2 P2 base2 m2 Hm Hne Hp2 Hm2 Er. destruct (Hx _ _ Hm) as (Hm' & base' & m' & Hm'' & Er'). split; [done|].
    apply (kept_owner M p P base' m' p2 P2 base2 m2); congruence.
  - destruct (put_proc_ok (put_proc M p P') child P' H3 HP') as [H4 A4].
    + intros base m base' m' Hm Hxm. by destruct (Hx _ _ Hm).
    + intros base m p2 P2 base2 m2 Hm Hne Hp2 Hm2 Er. simpl in Hp2. apply lookup_insert_Some in Hp2 as [[? ?]|[? Hp2]]; simplify_eq.
      * split; [by destruct (Hx _ _ Hm)|by destruct (Hx _ _ Hm2)].
      * destruct (Hx _ _ Hm) as (Hm' & base' & m' & Hm'' & Er'). split; [done|]. apply (kept_owner M p P base' m' p2 P2 base2 m2); congruence.
    + destruct (collect_ok _ H4) as [H5 A5]. split; [done|]. rewrite A5, A4, A3. change (abs_proc (put_proc M p P') P') with (abs_proc M P'). by rewrite HA.
Qed.

(** ** Every event *)
(** A length is a [usize]; there is no mprotect of pages that are shared since a fork. *)
Definition event_ok M (ev : mem_event) : bool :=
  match ev with
  | MmapCall _ length _ => 0 <=? length
  | MprotectCall p addr len _ =>
      match procs M !! p with Some P => no_cow P addr (Z.to_nat ((len + (PAGE - 1)) / PAGE)) | None => true end
  | _ => true
  end.

Fixpoint run_ok M (evs : list mem_event) : bool :=
  match evs with
  | [] => true
  | ev :: evs => event_ok M ev && match mem_exec M ev with Ret (_, M) => run_ok M evs | Panic => true end
  end.

Lemma load_spec M p P va : ok M → procs M !! p = Some P → ∃ r, load M P va = Ret r ∧ a_exec (abs M) (Load p va) = Ret (r, abs M).
Proof.
  intros H Hp. unfold load. simpl. rewrite abs_lookup, Hp. simpl. set (pg := va - va mod PAGE).
  destruct (page_table P !! pg) as [[pa perm]|] eqn:Hv.
  2: { apply (abs_mem_none _ _ _ _ H Hp) in Hv. rewrite Hv. by eexists. }
  destruct (page_in_ram _ _ _ _ _ _ H Hp Hv) as (c & Hc & Hl & ->).
  assert (rights P pg perm = ExecuteOnly ↔ perm = ExecuteOnly) as Hr.
  { unfold rights. destruct (mappings P !! pg) as [[]|] eqn:Em; try done.
    destruct (ok_mapped _ _ (ok_procs _ H _ _ Hp) _ _ pg (phys_addr c0) Em) as (pm & E & Hro); [done|]. simplify_eq. by destruct (original_perm c0). }
  rewrite (bool_decide_ext _ _ Hr). case_bool_decide; [by eexists|]. rewrite Hc. simpl.
  destruct (lookup_lt_is_Some_2 c (Z.to_nat (va mod PAGE))) as [b ->]; [|by eexists].
  pose proof (Z.mod_pos_bound va PAGE). lia.
Qed.

Lemma mmap_event_spec M p P length prot : ok M → procs M !! p = Some P → 0 ≤ length →
  match mem_exec M (MmapCall p length prot) with
  | Ret (r, M') => a_exec (abs M) (MmapCall p length prot) = Ret (r, abs M') ∧ ok M'
  | Panic => a_exec (abs M) (MmapCall p length prot) = Panic
  end.
Proof.
  intros H Hp Hl. simpl. rewrite abs_lookup, Hp. simpl. unfold do_mmap. destruct (Z.eqb_spec length 0) as [|El]; [done|].
  destruct (from_prot prot) as [e|perm]; [done|]. set (n := Z.to_nat _).
  assert (0 < n)%nat as Hn by (unfold n; pose proof (Z.div_le_mono PAGE (length + (PAGE - 1)) PAGE); rewrite Z.div_same in *; lia).
  pose proof (mmap_spec M p P n perm H Hp Hn) as S1. destruct (mmap_pages M p P n perm) as [[a M']|]; simpl; [|by rewrite S1].
  destruct S1 as (Hok & -> & m & -> & ->). done.
Qed.

Lemma mprotect_event_spec M p P addr len prot : ok M → procs M !! p = Some P →
  no_cow P addr (Z.to_nat ((len + (PAGE - 1)) / PAGE)) = true →
  match mem_exec M (MprotectCall p addr len prot) with
  | Ret (r, M') => a_exec (abs M) (MprotectCall p addr len prot) = Ret (r, abs M') ∧ ok M'
  | Panic => a_exec (abs M) (MprotectCall p addr len prot) = Panic
  end.
Proof.
  intros H Hp Hc. cbn -[Z.div]. rewrite abs_lookup, Hp. cbn -[Z.div]. unfold do_mprotect. destruct (negb _ || _); [done|].
  destruct (from_prot prot) as [e|perm]; [done|]. pose proof (mprotect_spec _ perm _ _ _ addr H Hp Hc) as S1.
  destruct (mprotect_pages _ _ _ _) as [pt|]; cbn -[Z.div]; [|by rewrite S1]. destruct S1 as (Hok & m & Hm & HA). rewrite Hm. split; [|done].
  cbn -[Z.div]. do 2 f_equal. rewrite <- HA. symmetry. apply (fmap_insert (abs_proc M)).
Qed.

Lemma exit_spec M p P : ok M → procs M !! p = Some P → let M' := MkMachine (delete p (procs M)) (runs M) (ram M) in
  ok M' ∧ abs M' = delete p (abs M).
Proof.
  intros H Hp M'. split; [|apply (fmap_delete (abs_proc M))]. destruct H as [h1 h2 h3 h4 h5]. split; simpl; try done.
  - intros q Q [_ Hq]%lookup_delete_Some. by eapply h1.
  - intros q Q base m q' Q' base' m' [_ Hq]%lookup_delete_Some Hm Hx [_ Hq']%lookup_delete_Some. by eapply h2.
Qed.

Lemma mem_exec_spec M ev : ok M → event_ok M ev = true →
  match mem_exec M ev with
  | Ret (r, M') => a_exec (abs M) ev = Ret (r, abs M') ∧ ok M'
  | Panic => a_exec (abs M) ev = Panic
  end.
Proof.
  intros H He. destruct ev as [p va|p va byte|p va byte|p length prot|p addr len|p addr len prot|p child|p];
    (destruct (procs M !! p) as [P|] eqn:Hp; [|by simpl; rewrite abs_lookup, Hp]).
  - destruct (load_spec M p P va H Hp) as (r & Hl & Ha). cbn [mem_exec]. by rewrite Hp, Hl.
  - destruct (store_spec M p P va byte H Hp) as (r & M' & Hs & Hok & Ha). cbn [mem_exec a_exec]. rewrite Hp, Hs, abs_lookup, Hp. simpl. split; [|done].
    destruct (a_write _ va byte); destruct Ha as [-> ->]; done.
  - destruct (kernel_write_spec M p P va byte H Hp) as (r & M' & Hs & Hok & Ha). cbn [mem_exec a_exec]. rewrite Hp, Hs, abs_lookup, Hp. simpl. split; [|done].
    destruct (a_write _ va byte); destruct Ha as [-> ->]; done.
  - apply (mmap_event_spec M p P); [done|done|]. simpl in He. lia.
  - destruct (munmap_spec M p P addr len H Hp) as (r & M' & Hs & Hok & Ha). cbn [mem_exec a_exec]. rewrite Hp, Hs, abs_lookup, Hp. simpl. split; [|done].
    destruct (abs_areas M P !! addr) as [n|]; [destruct (_ =? len)|]; destruct Ha as [-> ->]; done.
  - apply (mprotect_event_spec M p P); [done|done|]. cbn -[Z.div no_cow] in He. by rewrite Hp in He.
  - cbn [mem_exec a_exec]. rewrite abs_lookup, Hp. simpl. rewrite abs_lookup. destruct (procs M !! child) as [Q|] eqn:Hch; simpl; [done|].
    destruct (fork_spec M p P child H Hp Hch) as (M' & -> & Hok & Ha). simpl. split; [|done]. by rewrite Ha.
  - cbn [mem_exec a_exec]. rewrite abs_lookup, Hp. simpl. destruct (exit_spec M p P H Hp) as [Hok Ha]. destruct (collect_ok _ Hok) as [Hok' ->].
    by rewrite Ha.
Qed.

End refinement.

(** *** A machine *)
#[local] Existing Instance linux_headers.

(** Pages above all in use. *)
#[export] Instance bump_pages : PageSource := {|
  new_pages R _ := PAGE * (1 + map_fold (λ _ r m, Z.max m (r.1 / PAGE + Z.of_nat r.2)) 0 R) |}.

Lemma bump_above (R : gmap nat (Z * nat)) b a n : R !! b = Some (a, n) → a / PAGE + Z.of_nat n ≤ map_fold (λ _ (r : Z * nat) m, Z.max m (r.1 / PAGE + Z.of_nat r.2)) 0 R.
Proof.
  revert b a n. apply (map_fold_weak_ind (λ r R, ∀ b a n, R !! b = Some (a, n) → a / PAGE + Z.of_nat n ≤ r)); [by intros b a n; rewrite lookup_empty|].
  intros i x R' r Hn IH b a n [[? ?]|[? Hb]]%lookup_insert_Some; simplify_eq; simpl; [lia|]. specialize (IH _ _ _ Hb). lia.
Qed.

#[export] Instance bump_pages_ok : PageSourceOk bump_pages.
Proof.
  split. intros R n b a m i j Hr Hi Hj. pose proof (bump_above R b a m Hr). simpl.
  pose proof (Z.div_mod a PAGE). pose proof (Z.mod_pos_bound a PAGE). lia.
Qed.

Definition mem_init : Machine := MkMachine {[1%nat := MP ∅ ∅ FREE_MMAP_START_ADDRESS]} ∅ ∅.

Lemma mem_init_ok : ok mem_init.
Proof.
  split; simpl.
  - intros p P [<- <-]%lookup_singleton_Some. split; simpl; intros *; by rewrite ?lookup_empty.
  - intros p P base m p' P' base' m' [<- <-]%lookup_singleton_Some. simpl. by rewrite lookup_empty.
  - intros b b' pa (a & n & i & Hr & _). by rewrite lookup_empty in Hr.
  - intros b pa (a & n & i & Hr & _). by rewrite lookup_empty in Hr.
  - intros b a n. by rewrite lookup_empty.
Qed.

(** Parent and child write to the same page after a fork and each reads its own. *)
Definition fork_scenario : list mem_event :=
  [MmapCall 1 4096 3; Store 1 FREE_MMAP_START_ADDRESS 7; Fork 1 2; Store 2 FREE_MMAP_START_ADDRESS 8;
   Load 1 FREE_MMAP_START_ADDRESS; Load 2 FREE_MMAP_START_ADDRESS; MunmapCall 1 FREE_MMAP_START_ADDRESS 4096; Exit 1; Load 2 FREE_MMAP_START_ADDRESS].


(** mprotect of a page shared since a fork makes it writable for both: the parent
    reads what the child wrote. *)
Lemma mprotect_shares : fst <$> mem_run mem_init
    [MmapCall 1 4096 3; Store 1 FREE_MMAP_START_ADDRESS 7; Fork 1 2; MprotectCall 2 FREE_MMAP_START_ADDRESS 4096 3;
     Store 2 FREE_MMAP_START_ADDRESS 8; Load 1 FREE_MMAP_START_ADDRESS] =
  Ret [Address FREE_MMAP_START_ADDRESS; Nothing; Nothing; Nothing; Nothing; Byte 8].
Proof. by vm_compute. Qed.

(** After a fork neither process can unmap what was mapped before. *)
Lemma munmap_after_fork : fst <$> mem_run mem_init
    [MmapCall 1 4096 3; Fork 1 2; MunmapCall 1 FREE_MMAP_START_ADDRESS 4096; MunmapCall 2 FREE_MMAP_START_ADDRESS 4096] =
  Ret [Address FREE_MMAP_START_ADDRESS; Nothing; Error EINVAL; Error EINVAL].
Proof. by vm_compute. Qed.
