(* ===== verification/Elf.v ===== *)
(** ELF files: crates/kernel/src/processes/elf.rs.

    The file is a list of bytes and the structures laid over it are records of
    unsigned numbers. The enumerations of the source are the numbers they stand for;
    the alignment of the file in memory, which byte lists do not have, is left out. *)
From S2P Require Import Prelude KUtil Bytes Parser PTE.

Definition ELF_MAGIC_NUMBER : Z := 0x7f454c46.
Definition Bit64 : Z := 2.
Definition Little : Z := 1.
Definition SystemV : Z := 0.
Definition Linux : Z := 3.
Definition ExecutableFile : Z := 2.
Definition RISC_V : Z := 0xF3.
Definition PT_LOAD : Z := 1.
Definition SHT_SYMTAB : Z := 2.
Definition STT_FUNC : Z := 2.

Record ElfHeader := {
  magic_number : BigEndian;
  bit_format : Z;
  endianness : Z;
  version : Z;
  os_abi : Z;
  object_file_type : Z;
  machine : Z;
  version2 : Z;
  entry_point : Z;
  start_program_header : Z;
  start_of_section_header : Z;
  size_program_header_entry : Z;
  number_of_entries_in_program_header : Z;
  size_section_header_entry : Z;
  number_of_entries_section_header : Z;
  index_of_section_names_in_section_header_table : Z;
}.

Record ElfProgramHeaderEntry := {
  header_type : Z;
  access_flags : Z;
  offset_in_file : Z;
  virtual_address : Z;
  physical_address : Z;
  file_size : Z;
  memory_size : Z;
  alignment : Z;
}.

Record ElfSectionHeader := {
  sh_name : Z; sh_type : Z; sh_flags : Z; sh_addr : Z; sh_offset : Z;
  sh_size : Z; sh_link : Z; sh_info : Z; sh_addralign : Z; sh_entsize : Z;
}.

Record Elf64Sym := { st_name : Z; st_info : Z; st_other : Z; st_shndx : Z; st_value : Z; st_size : Z }.

Inductive ElfParseErrors :=
  | FileTooShort | MagicNumberWrong | Bit32IsNotSupported | BigEndianIsNotSupported
  | UnsupportedElfVersionNumber | UnsupportedOsABI | NotAnExecutableFile | NotAnRISCVExecutable.

(** ** Structures over bytes *)
(** The number of [n] bytes at [off]. *)
Definition le_at (n off : nat) (d : list Z) : Z := le_combine (take n (drop off d)).

(** [&data[start..start + size]] *)
Definition slice (data : list Z) (start size : Z) : outcome (list Z) :=
  e ← add 64 start size;
  rassert (e <=? Z.of_nat (length data));;
  Ret (take (Z.to_nat size) (drop (Z.to_nat start) data)).

(** [data.get(start..start + size)] *)
Definition get_slice (data : list Z) (start size : Z) : outcome (option (list Z)) :=
  e ← add 64 start size;
  Ret (if e <=? Z.of_nat (length data) then Some (take (Z.to_nat size) (drop (Z.to_nat start) data)) else None).

(** [slice_from_bytes]: [count] structures of [size] bytes. *)
Definition slice_from_bytes {A} (size : nat) (read : list Z → A) (data : list Z) (offset count : Z) : outcome (list A) :=
  total ← mul 64 (Z.of_nat size) count;
  d ← slice data offset total;
  Ret ((λ i, read (take size (drop (size * i) d))) <$> seq 0 (Z.to_nat count)).

Definition read_header (d : list Z) : ElfHeader := {|
  magic_number := field 4 0 d;
  bit_format := le_at 1 4 d; endianness := le_at 1 5 d; version := le_at 1 6 d; os_abi := le_at 1 7 d;
  object_file_type := le_at 2 16 d; machine := le_at 2 18 d; version2 := le_at 4 20 d;
  entry_point := le_at 8 24 d; start_program_header := le_at 8 32 d; start_of_section_header := le_at 8 40 d;
  size_program_header_entry := le_at 2 54 d; number_of_entries_in_program_header := le_at 2 56 d;
  size_section_header_entry := le_at 2 58 d; number_of_entries_section_header := le_at 2 60 d;
  index_of_section_names_in_section_header_table := le_at 2 62 d |}.

Definition read_program_header (d : list Z) : ElfProgramHeaderEntry := {|
  header_type := le_at 4 0 d; access_flags := le_at 4 4 d; offset_in_file := le_at 8 8 d;
  virtual_address := le_at 8 16 d; physical_address := le_at 8 24 d; file_size := le_at 8 32 d;
  memory_size := le_at 8 40 d; alignment := le_at 8 48 d |}.

Definition read_section_header (d : list Z) : ElfSectionHeader := {|
  sh_name := le_at 4 0 d; sh_type := le_at 4 4 d; sh_flags := le_at 8 8 d; sh_addr := le_at 8 16 d;
  sh_offset := le_at 8 24 d; sh_size := le_at 8 32 d; sh_link := le_at 4 40 d; sh_info := le_at 4 44 d;
  sh_addralign := le_at 8 48 d; sh_entsize := le_at 8 56 d |}.

Definition read_sym (d : list Z) : Elf64Sym := {|
  st_name := le_at 4 0 d; st_info := le_at 1 4 d; st_other := le_at 1 5 d; st_shndx := le_at 2 6 d;
  st_value := le_at 8 8 d; st_size := le_at 8 16 d |}.

(** ** [ElfFile] *)
Definition get_header (data : list Z) : outcome ElfHeader :=
  rassert (bool_decide (64 ≤ length data)%nat);; Ret (read_header data).

(** The product of two 16-bit numbers is computed in 16 bits. *)
Definition check_validity (data : list Z) : outcome (option ElfParseErrors) :=
  if bool_decide (length data < 64)%nat then Ret (Some FileTooShort)
  else
    h ← get_header data;
    if negb (get 4 (magic_number h) =? ELF_MAGIC_NUMBER) then Ret (Some MagicNumberWrong)
    else if negb (bit_format h =? Bit64) then Ret (Some Bit32IsNotSupported)
    else if negb (endianness h =? Little) then Ret (Some BigEndianIsNotSupported)
    else if negb (version h =? 1) then Ret (Some UnsupportedElfVersionNumber)
    else if negb ((os_abi h =? SystemV) || (os_abi h =? Linux)) then Ret (Some UnsupportedOsABI)
    else if negb (object_file_type h =? ExecutableFile) then Ret (Some NotAnExecutableFile)
    else if negb (machine h =? RISC_V) then Ret (Some NotAnRISCVExecutable)
    else if negb (version2 h =? 1) then Ret (Some UnsupportedElfVersionNumber)
    else
      size_of_program_header ← mul 16 (size_program_header_entry h) (number_of_entries_in_program_header h);
      end_of_program_header ← add 64 (start_program_header h) size_of_program_header;
      if Z.of_nat (length data) <? end_of_program_header then Ret (Some FileTooShort) else Ret None.

Definition elf_parse (data : list Z) : outcome (ElfParseErrors + list Z) :=
  e ← check_validity data;
  Ret (match e with Some e => inl e | None => inr data end).

Definition get_program_headers (data : list Z) : outcome (list ElfProgramHeaderEntry) :=
  h ← get_header data;
  rassert (size_program_header_entry h =? 56);;
  total ← mul 64 (size_program_header_entry h) (number_of_entries_in_program_header h);
  e ← add 64 (start_program_header h) total;
  rassert (e <=? Z.of_nat (length data));;
  slice_from_bytes 56 read_program_header data (start_program_header h) (number_of_entries_in_program_header h).

Definition get_program_header_data (data : list Z) (h : ElfProgramHeaderEntry) : outcome (list Z) :=
  slice data (offset_in_file h) (file_size h).

Definition get_section_headers (data : list Z) : outcome (list ElfSectionHeader) :=
  h ← get_header data;
  let count := number_of_entries_section_header h in
  let offset := start_of_section_header h in
  if (count =? 0) || (offset =? 0) then Ret []
  else
    rassert (size_section_header_entry h =? 64);;
    slice_from_bytes 64 read_section_header data offset count.

Definition get_section_name (data : list Z) (section : ElfSectionHeader) : outcome (option (list Z)) :=
  h ← get_header data;
  sections ← get_section_headers data;
  match sections !! Z.to_nat (index_of_section_names_in_section_header_table h) with
  | None => Ret None
  | Some shstrtab =>
      strtab ← get_slice data (sh_offset shstrtab) (sh_size shstrtab);
      Ret (match strtab with
           | None => None
           | Some strtab =>
               if bool_decide (length strtab < Z.to_nat (sh_name section))%nat then None
               else
                 let name_bytes := drop (Z.to_nat (sh_name section)) strtab in
                 match c_strlen name_bytes with Some len => from_utf8 (take len name_bytes) | None => None end
           end)
  end.

(** The loop over the sections. *)
Fixpoint find_section (data name : list Z) (sections : list ElfSectionHeader) : outcome (option (list Z * Z)) :=
  match sections with
  | [] => Ret None
  | s :: rest =>
      n ← get_section_name data s;
      if bool_decide (n = Some name) then
        d ← get_slice data (sh_offset s) (sh_size s);
        Ret (option_map (λ d, (d, sh_addr s)) d)
      else find_section data name rest
  end.

Definition find_section_data_by_name (data name : list Z) : outcome (option (list Z * Z)) :=
  sections ← get_section_headers data; find_section data name sections.

(** The function symbol with the smallest distance to [address], so far [best]. *)
Definition better_symbol (address : Z) (best : option (Elf64Sym * Z)) (sym : Elf64Sym) : option (Elf64Sym * Z) :=
  if negb (Z.land (st_info sym) 0xf =? STT_FUNC) then best
  else if (st_value sym =? 0) || (address <? st_value sym) then best
  else
    let offset := address - st_value sym in
    match best with
    | Some (_, best_offset) => if offset <? best_offset then Some (sym, offset) else best
    | None => Some (sym, offset)
    end.

Definition find_symbol (data : list Z) (address : Z) : outcome (option (list Z * Z)) :=
  sections ← get_section_headers data;
  match List.find (λ s, sh_type s =? SHT_SYMTAB) sections with
  | None => Ret None
  | Some symtab =>
      match sections !! Z.to_nat (sh_link symtab) with
      | None => Ret None
      | Some strtab_section =>
          strtab ← slice data (sh_offset strtab_section) (sh_size strtab_section);
          symbols ← slice_from_bytes 24 read_sym data (sh_offset symtab) (sh_size symtab / 24);
          match foldl (better_symbol address) None symbols with
          | None => Ret None
          | Some (sym, offset) =>
              rassert (bool_decide (Z.to_nat (st_name sym) ≤ length strtab)%nat);;
              let rest := drop (Z.to_nat (st_name sym)) strtab in
              let name := match c_strlen rest with Some n => take n rest | None => rest end in
              Ret (option_map (λ name, (name, offset)) (from_utf8 name))
          end
      end
  end.

(** [From<ProgramHeaderFlags> for XWRMode] (memory/page_table_entry.rs). The source
    lays an enumeration without 0 over the file; a value outside it, which is
    undefined there, is a panic here. *)
Definition xwr_of_flags (flags : Z) : outcome XWRMode :=
  match flags with
  | 6 => Ret ReadWrite
  | 7 => Ret ReadWriteExecute
  | 5 => Ret ReadExecute
  | 1 => Ret ExecuteOnly
  | 4 => Ret ReadOnly
  | _ => Panic
  end.

(** ** Facts *)
(** A function symbol that [address] may belong to. *)
Definition candidate (address : Z) (sym : Elf64Sym) : Prop :=
  Z.land (st_info sym) 0xf = STT_FUNC ∧ st_value sym ≠ 0 ∧ st_value sym ≤ address.

Lemma better_symbol_spec address best sym : match better_symbol address best sym with
  | None => best = None ∧ ¬ candidate address sym
  | Some (s, o) => (best = Some (s, o) ∨ s = sym ∧ o = address - st_value sym ∧ candidate address sym) ∧
      (candidate address sym → o ≤ address - st_value sym) ∧ (∀ s' o', best = Some (s', o') → o ≤ o')
  end.
Proof.
  unfold better_symbol, candidate. destruct (Z.eqb_spec (Z.land (st_info sym) 0xf) STT_FUNC) as [E1|E1]; simpl.
  2: { destruct best as [[s o]|]; [split; [by left|]; split; [by intros []|intros ? ? [= -> ->]; lia]|naive_solver]. }
  destruct (Z.eqb_spec (st_value sym) 0) as [E2|E2]; simpl.
  { destruct best as [[s o]|]; [split; [by left|]; split; [by intros (_ & [] & _)|intros ? ? [= -> ->]; lia]|naive_solver]. }
  destruct (Z.ltb_spec address (st_value sym)) as [E3|E3].
  { destruct best as [[s o]|]; [split; [by left|]; split; [intros (_ & _ & ?); lia|intros ? ? [= -> ->]; lia]|naive_solver lia]. }
  destruct best as [[s o]|].
  - destruct (Z.ltb_spec (address - st_value sym) o); split.
    + by right.
    + split; [lia|]. intros ? ? [= -> ->]. lia.
    + by left.
    + split; [lia|]. intros ? ? [= -> ->]. lia.
  - split; [by right|]. split; [lia|done].
Qed.

(** The fold keeps the nearest function symbol at or below the address. *)
Lemma nearest_symbol address symbols : match foldl (better_symbol address) None symbols with
  | None => ∀ s, s ∈ symbols → ¬ candidate address s
  | Some (s, o) => s ∈ symbols ∧ candidate address s ∧ o = address - st_value s ∧
      ∀ s', s' ∈ symbols → candidate address s' → st_value s' ≤ st_value s
  end.
Proof.
  induction symbols as [|x l IH] using rev_ind; [by intros s ?%elem_of_nil|]. rewrite foldl_app. simpl.
  pose proof (better_symbol_spec address (foldl (better_symbol address) None l) x) as Hb.
  destruct (better_symbol address _ x) as [[s o]|].
  - destruct Hb as ([E|(-> & -> & Hc)] & Hx & Ho).
    + rewrite E in IH. destruct IH as (Hin & Hc & -> & Hmax). split; [apply elem_of_app; by left|]. split; [done|]. split; [done|].
      intros s' [Hs'|Hs'%list_elem_of_singleton]%elem_of_app Hc'; [by apply Hmax|]. subst s'. specialize (Hx Hc'). lia.
    + split; [apply elem_of_app; right; by apply list_elem_of_singleton|]. split; [done|]. split; [done|].
      intros s' [Hs'|Hs'%list_elem_of_singleton]%elem_of_app Hc'; [|subst; lia].
      destruct (foldl (better_symbol address) None l) as [[s0 o0]|]; [|by destruct (IH s' Hs')].
      destruct IH as (_ & _ & -> & Hmax). specialize (Hmax _ Hs' Hc'). specialize (Ho _ _ eq_refl). lia.
  - destruct Hb as [E Hn]. rewrite E in IH. intros s [Hs|Hs%list_elem_of_singleton]%elem_of_app; [by apply IH|by subst].
Qed.

(** What the checks of [elf_parse] leave for the program headers. *)
Lemma slice_Ret data start size d : 0 ≤ start → 0 ≤ size → slice data start size = Ret d →
  start + size ≤ Z.of_nat (length data) ∧ d = take (Z.to_nat size) (drop (Z.to_nat start) data) ∧ Z.of_nat (length d) = size.
Proof.
  intros H1 H2. unfold slice. intros (e & [-> _]%add_Ret & (u & Hb%rassert_Ret & [= <-])%bind_Ret)%bind_Ret.
  apply Z.leb_le in Hb. split; [done|]. split; [done|]. rewrite length_take, length_drop. lia.
Qed.

Lemma slice_ok data start size : 0 ≤ start → 0 ≤ size → start + size ≤ Z.of_nat (length data) → Z.of_nat (length data) < 2 ^ 64 →
  slice data start size = Ret (take (Z.to_nat size) (drop (Z.to_nat start) data)).
Proof.
  intros H1 H2 H3 H4. unfold slice. rewrite (proj2 (add_Ret 64 start size (start + size))) by lia. bstep.
  by rewrite (proj2 (Z.leb_le _ _)) by done.
Qed.

(** A file whose program headers fill 64 KiB makes the 16-bit product overflow. *)
Definition phdr_overflow_file : list Z :=
  [0x7f; 0x45; 0x4c; 0x46; 2; 1; 1; 0] ++ replicate 8 0 ++ le_bytes 2 2 ++ le_bytes 2 0xF3 ++ le_bytes 4 1 ++
  le_bytes 8 0x10000 ++ le_bytes 8 64 ++ le_bytes 8 0 ++ le_bytes 4 0 ++ le_bytes 2 64 ++ le_bytes 2 56 ++ le_bytes 2 1171 ++
  le_bytes 2 64 ++ le_bytes 2 0 ++ le_bytes 2 0.

Lemma phdr_overflow_panics : elf_parse phdr_overflow_file = Panic.
Proof. reflexivity. Qed.
