(* ===== verification/Loader.v ===== *)
(** Loading a program: crates/kernel/src/processes/loader.rs, brk.rs and
    writable_buffer.rs.

    Memory is that of ForkMemory.v. The new process is built outside the table, as in
    the source; the random bytes are a parameter. *)
From S2P Require Import Prelude Headers KUtil Bytes PTE Elf ForkMemory.

Definition STACK_START : Z := 2 ^ 64 - 1.
Definition STACK_SIZE_PAGES : nat := 32.
Definition STACK_SIZE : Z := PAGE * Z.of_nat STACK_SIZE_PAGES.
Definition STACK_END : Z := STACK_START - STACK_SIZE + 1.
Definition AT_RANDOM_SIZE : nat := 16.
(** The page of the signal trampoline ([signal::TRAMPOLINE_VADDR]). *)
Definition TRAMPOLINE : Z := 0x1000.

(** Keys of the auxiliary vector, from the Linux headers. *)
Class AuxHeaders := {
  AT_NULL : Z; AT_PHDR : Z; AT_PHENT : Z; AT_PHNUM : Z; AT_PAGESZ : Z; AT_RANDOM : Z; AT_EXECFN : Z;
}.
Class AuxHeadersOk (H : AuxHeaders) : Prop := {
  at_values : AT_NULL = 0 ∧ AT_PHDR = 3 ∧ AT_PHENT = 4 ∧ AT_PHNUM = 5 ∧ AT_PAGESZ = 6 ∧ AT_RANDOM = 25 ∧ AT_EXECFN = 31;
}.
Definition linux_aux : AuxHeaders :=
  {| AT_NULL := 0; AT_PHDR := 3; AT_PHENT := 4; AT_PHNUM := 5; AT_PAGESZ := 6; AT_RANDOM := 25; AT_EXECFN := 31 |}.
Lemma linux_aux_ok : AuxHeadersOk linux_aux.
Proof. by split. Qed.

Inductive LoaderError := StackToSmall.

Record AuxvInfo := { phdr_vaddr : Z; phent : Z; phnum : Z }.

(** ** [WritableBuffer] *)
Record WritableBuffer := WB { wb_buf : list Z; wb_offset : nat }.

Definition write_slice (w : WritableBuffer) (value : list Z) : option WritableBuffer :=
  if bool_decide (length (drop (wb_offset w) (wb_buf w)) < length value)%nat then None
  else Some (WB (take (wb_offset w) (wb_buf w) ++ value ++ drop (wb_offset w + length value) (wb_buf w))
                (wb_offset w + length value)).

Definition write_usize (w : WritableBuffer) (value : Z) : option WritableBuffer := write_slice w (le_bytes 8 value).

Fixpoint write_usizes (w : WritableBuffer) (l : list Z) : option WritableBuffer :=
  match l with
  | [] => Some w
  | v :: l => w ← write_usize w v; write_usizes w l
  end.

(** [usize]s in memory. *)
Definition words (l : list Z) : list Z := mjoin (le_bytes 8 <$> l).

(** ** The arguments *)
Section arguments.
Context `{AH : AuxHeaders}.

(** The addresses of zero-terminated strings from [addr] on, and the address behind. *)
Fixpoint string_addrs (addr : Z) (l : list (list Z)) : list Z * Z :=
  match l with
  | [] => ([], addr)
  | s :: l => let '(a, e) := string_addrs (wrapping_add 64 addr (Z.of_nat (length s) + 1)) l in (addr :: a, e)
  end.

Definition c_strings (l : list (list Z)) : list Z := mjoin ((λ s, s ++ [0]) <$> l).

(** The first pair with the key gets the value. *)
Fixpoint patch_auxv (key value : Z) (auxv : list (Z * Z)) : outcome (list (Z * Z)) :=
  match auxv with
  | [] => Panic
  | (k, v) :: l => if k =? key then Ret ((k, value) :: l) else l ← patch_auxv key value l; Ret ((k, v) :: l)
  end.

Definition flatten_auxv (auxv : list (Z * Z)) : list Z := mjoin ((λ kv, [kv.1; kv.2]) <$> auxv).

(** Returns the stack, the address of the arguments and the auxiliary vector. *)
Definition set_up_arguments (stack random_bytes name : list Z) (args env : list (list Z)) (info : AuxvInfo)
    : outcome (LoaderError + (list Z * Z * list Z)) :=
  let argc := 1 + Z.of_nat (length args) in
  let auxv := [(AT_PAGESZ, PAGE); (AT_PHDR, phdr_vaddr info); (AT_PHENT, phent info); (AT_PHNUM, phnum info);
               (AT_RANDOM, 0); (AT_EXECFN, 0); (AT_NULL, 0)] in
  let strings := c_strings (name :: args ++ env) in
  let start_of_strings_offset :=
    8 + 8 * (Z.of_nat (length args) + 2) + 8 * (Z.of_nat (length env) + 1) + 8 * 14 in
  let random_bytes_offset := start_of_strings_offset + Z.of_nat (length strings) in
  total_length ← align_up (random_bytes_offset + Z.of_nat AT_RANDOM_SIZE) 8;
  if Z.of_nat (length stack) <=? total_length then Ret (inl StackToSmall)
  else
    a ← addr_sub STACK_START total_length;
    real_start ← addr_add a 1;
    random_addr ← addr_add real_start random_bytes_offset;
    auxv ← patch_auxv AT_RANDOM random_addr auxv;
    execfn_addr ← addr_add real_start start_of_strings_offset;
    auxv ← patch_auxv AT_EXECFN execfn_addr auxv;
    let '(argv, behind) := string_addrs execfn_addr (name :: args) in
    let '(envp, _) := string_addrs behind env in
    let offset := (length stack - Z.to_nat total_length)%nat in
    Ret (match
      w ← write_usize (WB (drop offset stack) 0) argc;
      w ← write_usizes w (argv ++ [0]);
      w ← write_usizes w (envp ++ [0]);
      w ← write_usizes w (flatten_auxv auxv);
      w ← write_slice w strings;
      write_slice w random_bytes
    with
    | None => inl StackToSmall
    | Some w => inr (take offset stack ++ wb_buf w, real_start, words (flatten_auxv auxv))
    end).
End arguments.

(** ** [Brk] *)
Definition BRK_SIZE : nat := 4.
Record Brk := MkBrk { brk_start : Z; brk_current : Z; brk_end : Z }.
Definition brk_empty : Brk := MkBrk 0 0 1.
Definition brk (b : Brk) (addr : Z) : Z * Brk :=
  let b := if (brk_start b <=? addr) && (addr <? brk_end b) then MkBrk (brk_start b) addr (brk_end b) else b in
  (brk_current b, b).

(** ** Loading *)
Record LoadedElf := { entry_address : Z; args_start : Z; loaded_brk : Brk; auxv_bytes : list Z }.

Fixpoint fill_pages (ram : gmap Z (list Z)) (pa : Z) (bytes : list Z) (n : nat) : gmap Z (list Z) :=
  match n with
  | O => ram
  | S n => fill_pages (<[pa := take 4096 bytes]> ram) (pa + PAGE) (drop 4096 bytes) n
  end.

(** The new pages of the stack and of the heap. *)
Definition empty_stack : list Z := replicate (STACK_SIZE_PAGES * 4096) 0.
Definition empty_brk : list Z := replicate (BRK_SIZE * 4096) 0.

Section load.
Context `{AH : AuxHeaders} `{PS : PageSource}.
Implicit Types (M : Machine) (P : MemProc).

(** [map_userspace] with the assertions of [map]; the trampoline is mapped. *)
Definition map_user (pt : gmap Z (Z * XWRMode)) (va pa : Z) (n : nat) (perm : XWRMode) : outcome (gmap Z (Z * XWRMode)) :=
  rassert (va mod PAGE =? 0);;
  rassert (negb (va =? 0));;
  addr_add va (PAGE * Z.of_nat n - 1);;
  rassert (negb ((va <=? TRAMPOLINE) && (TRAMPOLINE <? va + PAGE * Z.of_nat n)));;
  map_pages pt va pa n perm.

(** A run of pages with contents [bytes], owned by the process and mapped at [va]. *)
Definition place M P (va : Z) (n : nat) (bytes : list Z) (perm : XWRMode) : outcome (Machine * MemProc) :=
  rassert (bool_decide (0 < n)%nat);;
  let '(b, a, M) := alloc_run M n in
  rassert (bool_decide (mappings P !! va = None));;
  pt ← map_user (page_table P) va a n perm;
  Ret (MkMachine (procs M) (runs M) (fill_pages (ram M) a bytes n),
       MP pt (<[va := Allocated b]> (mappings P)) (free_mmap_address P)).

Definition is_load (h : ElfProgramHeaderEntry) : bool := header_type h =? PT_LOAD.

(** The pages of a segment and their contents. *)
Definition segment_pages (data : list Z) (h : ElfProgramHeaderEntry) : outcome (Z * nat * list Z) :=
  d ← get_program_header_data data h;
  rassert (Z.of_nat (length d) <=? memory_size h);;
  let offset := virtual_address h mod PAGE in
  size_in_pages ← minimum_amount_of_pages (memory_size h);
  e ← add 64 offset (memory_size h);
  more ← minimum_amount_of_pages e;
  diff ← sub more size_in_pages;
  size_in_pages ← add 64 size_in_pages diff;
  rassert (offset + Z.of_nat (length d) <=? PAGE * size_in_pages);;
  let zeros := PAGE * size_in_pages - offset - Z.of_nat (length d) in
  Ret (virtual_address h - offset, Z.to_nat size_in_pages, replicate (Z.to_nat offset) 0 ++ d ++ replicate (Z.to_nat zeros) 0).

Definition load_segment (data : list Z) (s : Machine * MemProc) (h : ElfProgramHeaderEntry) : outcome (Machine * MemProc) :=
  '(va, n, bytes) ← segment_pages data h;
  perm ← xwr_of_flags (access_flags h);
  place s.1 s.2 va n bytes perm.

Definition bss_end (loads : list ElfProgramHeaderEntry) : outcome (option Z) :=
  ends ← foldM (λ l h, e ← add 64 (virtual_address h) (memory_size h); Ret (e :: l)) loads [];
  Ret (match ends with [] => None | _ => Some (foldr Z.max 0 ends) end).

Definition brk_new M P (bss_end : Z) : outcome (Machine * MemProc * Brk) :=
  start ← align_up_page_size bss_end;
  '(M, P) ← place M P start BRK_SIZE empty_brk ReadWrite;
  e ← addr_add start (PAGE * Z.of_nat BRK_SIZE);
  Ret (M, P, MkBrk start start e).

Definition load_elf M (data random_bytes name : list Z) (args env : list (list Z))
    : outcome (LoaderError + (LoadedElf * MemProc * Machine)) :=
  h ← get_header data;
  headers ← get_program_headers data;
  first_load ← expect (List.find is_load headers);
  rassert (offset_in_file first_load =? 0);;
  phdr ← add 64 (virtual_address first_load) (start_program_header h);
  let info := {| phdr_vaddr := phdr; phent := size_program_header_entry h; phnum := number_of_entries_in_program_header h |} in
  r ← set_up_arguments empty_stack random_bytes name args env info;
  match r with
  | inl e => Ret (inl e)
  | inr (stack, args_start, auxv_bytes) =>
      s ← place M (MP ∅ ∅ FREE_MMAP_START_ADDRESS) STACK_END STACK_SIZE_PAGES stack ReadWrite;
      let loads := List.filter is_load headers in
      s ← foldM (load_segment data) loads s;
      e ← bss_end loads;
      '(M, P, b) ← (match e with
                    | Some e => brk_new s.1 s.2 e
                    | None => Ret (s.1, s.2, brk_empty)
                    end);
      Ret (inr ({| entry_address := entry_point h; args_start := args_start; loaded_brk := b; auxv_bytes := auxv_bytes |}, P, M))
  end.
End load.
