(* ===== verification/LoaderTheorems.v ===== *)
(** A loaded program finds its segments, its arguments and its environment. *)
From S2P Require Import Prelude Headers KUtil Bytes PTE Elf ForkMemory ForkTheorems ForkRefinement Loader.

(** ** Memory as a program sees it *)
Definition bytes_at (mem : Z → option Z) (a : Z) (l : list Z) : Prop := ∀ i b, l !! i = Some b → mem (a + Z.of_nat i) = Some b.
Definition word_at (mem : Z → option Z) (a v : Z) : Prop := bytes_at mem a (le_bytes 8 v).

Lemma bytes_at_app mem a l1 l2 : bytes_at mem a (l1 ++ l2) ↔ bytes_at mem a l1 ∧ bytes_at mem (a + Z.of_nat (length l1)) l2.
Proof.
  split.
  - intros H. split.
    + intros i b Hi. apply H. by apply lookup_app_l_Some.
    + intros i b Hi. replace (a + Z.of_nat (length l1) + Z.of_nat i) with (a + Z.of_nat (length l1 + i)) by lia. apply H.
      rewrite lookup_app_r by lia. by replace (length l1 + i - length l1)%nat with i by lia.
  - intros [H1 H2] i b [Hi|[Hl Hi]]%lookup_app_Some; [by apply H1|].
    specialize (H2 _ _ Hi). by replace (a + Z.of_nat i) with (a + Z.of_nat (length l1) + Z.of_nat (i - length l1)) by lia.
Qed.

#[local] Arguments le_bytes : simpl never.

Lemma words_cons v l : words (v :: l) = le_bytes 8 v ++ words l.
Proof. done. Qed.

Lemma words_length l : length (words l) = (8 * length l)%nat.
Proof. induction l as [|v l IH]; [done|]. rewrite words_cons, length_app, IH, le_bytes_length. simpl. lia. Qed.

Lemma words_at mem l : ∀ a i v, bytes_at mem a (words l) → l !! i = Some v → word_at mem (a + 8 * Z.of_nat i) v.
Proof.
  induction l as [|x l IH]; intros a i v H Hi; [done|]. rewrite words_cons in H.
  apply bytes_at_app in H as [H1 H2]. rewrite le_bytes_length in H2. destruct i as [|i]; simpl in Hi; simplify_eq.
  - by replace (a + 8 * Z.of_nat 0) with a by lia.
  - replace (a + 8 * Z.of_nat (S i)) with (a + Z.of_nat 8 + 8 * Z.of_nat i) by lia. by apply IH.
Qed.

(** ** Strings *)
Lemma c_strings_cons s l : c_strings (s :: l) = s ++ [0] ++ c_strings l.
Proof. unfold c_strings. change (mjoin ((λ s, s ++ [0]) <$> s :: l)) with ((s ++ [0]) ++ mjoin ((λ s, s ++ [0]) <$> l)). by rewrite <-app_assoc. Qed.

Lemma c_strings_app l1 l2 : c_strings (l1 ++ l2) = c_strings l1 ++ c_strings l2.
Proof. induction l1 as [|s l1 IH]; [done|]. by rewrite <-app_comm_cons, !c_strings_cons, IH, <-!app_assoc. Qed.

Lemma string_addrs_spec mem l : ∀ a, 0 ≤ a → a + Z.of_nat (length (c_strings l)) < 2 ^ 64 →
  length (string_addrs a l).1 = length l ∧ (string_addrs a l).2 = a + Z.of_nat (length (c_strings l)) ∧
  (bytes_at mem a (c_strings l) → ∀ i s, l !! i = Some s → ∃ ptr, (string_addrs a l).1 !! i = Some ptr ∧ bytes_at mem ptr (s ++ [0])).
Proof.
  induction l as [|x l IH]; intros a Ha Hl; simpl.
  { split; [done|]. split; [lia|]. done. }
  rewrite c_strings_cons, !length_app in *. simpl in *. unfold wrapping_add. rewrite Z.mod_small by lia.
  destruct (IH (a + (Z.of_nat (length x) + 1))) as (H1 & H2 & H3); [lia|lia|]. destruct (string_addrs _ l) as [addrs e]. simpl in *.
  split; [by rewrite H1|]. split; [lia|]. intros [B1 [B2 B3]%(bytes_at_app _ _ [0])]%bytes_at_app [|i] s Hi; simpl in Hi; simplify_eq.
  - exists a. split; [done|]. by apply bytes_at_app.
  - apply H3; [|done]. by replace (a + (Z.of_nat (length x) + 1)) with (a + Z.of_nat (length x) + Z.of_nat 1) by lia.
Qed.

(** ** Writing the stack *)
Lemma write_slice_ok d rest v : (length v ≤ length rest)%nat → write_slice (WB (d ++ rest) (length d)) v = Some (WB ((d ++ v) ++ drop (length v) rest) (length (d ++ v))).
Proof.
  intros H. unfold write_slice. simpl. rewrite drop_app_length, bool_decide_eq_false_2 by lia.
  rewrite take_app_length, length_app, <-app_assoc. do 2 f_equal. f_equal. f_equal. rewrite drop_app_ge by lia. f_equal. lia.
Qed.

Lemma write_usizes_ok l : ∀ d rest, (8 * length l ≤ length rest)%nat →
  write_usizes (WB (d ++ rest) (length d)) l = Some (WB ((d ++ words l) ++ drop (8 * length l) rest) (length (d ++ words l))).
Proof.
  induction l as [|v l IH]; intros d rest H; [by rewrite app_nil_r|]. cbn [length] in H.
  cbn [write_usizes]. unfold write_usize. rewrite write_slice_ok by (rewrite le_bytes_length; lia). cbn [mbind option_bind].
  rewrite IH by (rewrite length_drop, le_bytes_length; lia). rewrite le_bytes_length, drop_drop, words_cons, <-!app_assoc.
  replace (8 + 8 * length l)%nat with (8 * length (v :: l))%nat by (cbn [length]; lia). done.
Qed.

(** All writes of the start block in a row. *)
Lemma write_block rest argc l1 l2 l3 strings random :
  let block := le_bytes 8 argc ++ words l1 ++ words l2 ++ words l3 ++ strings ++ random in
  (length block ≤ length rest)%nat →
  (w ← write_usize (WB rest 0) argc; w ← write_usizes w l1; w ← write_usizes w l2; w ← write_usizes w l3;
   w ← write_slice w strings; write_slice w random) = Some (WB (block ++ drop (length block) rest) (length block)).
Proof.
  intros block Hl. unfold block in *. rewrite !length_app, !words_length, le_bytes_length in Hl. unfold write_usize.
  rewrite (write_slice_ok [] rest) by (rewrite le_bytes_length; lia). cbn [mbind option_bind]. rewrite app_nil_l, le_bytes_length.
  rewrite write_usizes_ok by (rewrite length_drop; lia). cbn [mbind option_bind]. rewrite drop_drop.
  rewrite write_usizes_ok by (rewrite length_drop; lia). cbn [mbind option_bind]. rewrite drop_drop.
  rewrite write_usizes_ok by (rewrite length_drop; lia). cbn [mbind option_bind]. rewrite drop_drop.
  rewrite write_slice_ok by (rewrite length_drop; lia). cbn [mbind option_bind]. rewrite drop_drop.
  rewrite write_slice_ok by (rewrite length_drop; lia). rewrite drop_drop.
  rewrite <-!app_assoc, !length_app, !words_length, le_bytes_length.
  by replace (8 + (8 * length l1 + (8 * length l2 + (8 * length l3 + (length strings + length random)))))%nat
    with (8 + 8 * length l1 + 8 * length l2 + 8 * length l3 + length strings + length random)%nat by lia.
Qed.

Section arguments.
Context `{AH : AuxHeaders} `{AO : !AuxHeadersOk AH}.

Definition auxv_of (info : AuxvInfo) (random_addr execfn_addr : Z) : list (Z * Z) :=
  [(AT_PAGESZ, PAGE); (AT_PHDR, phdr_vaddr info); (AT_PHENT, phent info); (AT_PHNUM, phnum info);
   (AT_RANDOM, random_addr); (AT_EXECFN, execfn_addr); (AT_NULL, 0)].

(** What a program with the stack pointer [sp] finds. *)
Record initial_stack (mem : Z → option Z) (sp : Z) (name : list Z) (args env : list (list Z)) (info : AuxvInfo) (random : list Z) : Prop := {
  is_argc : word_at mem sp (1 + Z.of_nat (length args));
  is_argv : ∀ i s, (name :: args) !! i = Some s → ∃ ptr, word_at mem (sp + 8 * (1 + Z.of_nat i)) ptr ∧ bytes_at mem ptr (s ++ [0]);
  is_argv_end : word_at mem (sp + 8 * (2 + Z.of_nat (length args))) 0;
  is_envp : ∀ i s, env !! i = Some s → ∃ ptr, word_at mem (sp + 8 * (3 + Z.of_nat (length args + i))) ptr ∧ bytes_at mem ptr (s ++ [0]);
  is_envp_end : word_at mem (sp + 8 * (3 + Z.of_nat (length args + length env))) 0;
  is_auxv : ∃ r x, bytes_at mem r random ∧ bytes_at mem x (name ++ [0]) ∧ ∀ i k v, auxv_of info r x !! i = Some (k, v) →
    let a := sp + 8 * (4 + Z.of_nat (length args + length env + 2 * i)) in word_at mem a k ∧ word_at mem (a + 8) v;
}.

Definition strings_offset (args env : list (list Z)) : Z := 8 * (18 + Z.of_nat (length args + length env)).
Definition needed (name : list Z) (args env : list (list Z)) : Z :=
  strings_offset args env + Z.of_nat (length (c_strings (name :: args ++ env))) + 16.
Definition total_length (name : list Z) (args env : list (list Z)) : Z := (needed name args env + 7) / 8 * 8.

Definition start_block (real_start : Z) (random name : list Z) (args env : list (list Z)) (info : AuxvInfo) : list Z :=
  let strings := c_strings (name :: args ++ env) in
  let x := real_start + strings_offset args env in
  let argv := string_addrs x (name :: args) in
  le_bytes 8 (1 + Z.of_nat (length args)) ++ words (argv.1 ++ [0]) ++
  words ((string_addrs argv.2 env).1 ++ [0]) ++
  words (flatten_auxv (auxv_of info (x + Z.of_nat (length strings)) x)) ++ strings ++ random.

Lemma total_length_bounds name args env : needed name args env ≤ total_length name args env < needed name args env + 8.
Proof. unfold total_length. pose proof (Z.div_mod (needed name args env + 7) 8). pose proof (Z.mod_pos_bound (needed name args env + 7) 8). lia. Qed.

Lemma patch_auxv_ok info r x : patch_auxv AT_RANDOM r (auxv_of info 0 0) = Ret (auxv_of info r 0) ∧
  patch_auxv AT_EXECFN x (auxv_of info r 0) = Ret (auxv_of info r x).
Proof. destruct at_values as (E0 & E1 & E2 & E3 & E4 & E5 & E6). unfold auxv_of. rewrite E0, E1, E2, E3, E4, E5, E6. done. Qed.

Lemma string_addrs_pair a l : string_addrs a l = ((string_addrs a l).1, (string_addrs a l).2).
Proof. by destruct (string_addrs a l). Qed.

Lemma set_up_arguments_Ret stack random name args env info : length random = AT_RANDOM_SIZE →
  total_length name args env < Z.of_nat (length stack) → Z.of_nat (length stack) < 2 ^ 32 →
  let off := (length stack - Z.to_nat (total_length name args env))%nat in
  let start := 2 ^ 64 - total_length name args env in
  let block := start_block start random name args env info in
  ∃ auxv, set_up_arguments stack random name args env info =
    Ret (inr (take off stack ++ block ++ drop (length block) (drop off stack), start, auxv)) ∧
  Z.of_nat (length block) = needed name args env.
Proof.
  intros Hr Ht Hs off start block. pose proof (total_length_bounds name args env) as Hb.
  assert (strings_offset args env = 8 + 8 * (Z.of_nat (length args) + 2) + 8 * (Z.of_nat (length env) + 1) + 8 * 14) as Hso by (unfold strings_offset; lia).
  assert (0 ≤ strings_offset args env) by (unfold strings_offset; lia).
  unfold needed in Hb. set (strings := c_strings (name :: args ++ env)) in *.
  assert (start + strings_offset args env + Z.of_nat (length strings) < 2 ^ 64) as Hend by (unfold start; lia).
  assert (length strings = length (c_strings (name :: args)) + length (c_strings env))%nat as Hstr.
  { unfold strings. by rewrite app_comm_cons, c_strings_app, length_app. }
  destruct (string_addrs_spec (λ _, None) (name :: args) (start + strings_offset args env)) as (L1 & E1 & _); [unfold start; lia|lia|].
  destruct (string_addrs_spec (λ _, None) env (start + strings_offset args env + Z.of_nat (length (c_strings (name :: args))))) as (L2 & _ & _); [unfold start; lia|lia|].
  assert (Z.of_nat (length block) = needed name args env) as Hlen.
  { unfold block, start_block. rewrite !length_app, !words_length, le_bytes_length, !length_app, L1, E1, L2, Hr. unfold needed, strings_offset, AT_RANDOM_SIZE. simpl. fold strings. lia. }
  exists (words (flatten_auxv (auxv_of info (start + strings_offset args env + Z.of_nat (length strings)) (start + strings_offset args env)))).
  split; [|done]. unfold set_up_arguments. fold strings. rewrite <-Hso.
  rewrite align_up_Ret by (unfold AT_RANDOM_SIZE; lia). bstep.
  replace ((strings_offset args env + Z.of_nat (length strings) + Z.of_nat AT_RANDOM_SIZE + 8 - 1) / 8 * 8) with (total_length name args env)
    by (unfold total_length, needed, AT_RANDOM_SIZE; fold strings; do 2 f_equal; lia).
  rewrite (proj2 (Z.leb_gt _ _)) by done. unfold addr_sub, addr_add, STACK_START.
  rewrite (proj2 (sub_Ret (2 ^ 64 - 1) (total_length name args env) (2 ^ 64 - 1 - total_length name args env))) by lia. bstep.
  rewrite (proj2 (add_Ret 64 (2 ^ 64 - 1 - total_length name args env) 1 start)) by (unfold start; lia). bstep.
  rewrite (proj2 (add_Ret 64 start (strings_offset args env + Z.of_nat (length strings)) (start + strings_offset args env + Z.of_nat (length strings)))) by (unfold start; lia). bstep.
  destruct (patch_auxv_ok info (start + strings_offset args env + Z.of_nat (length strings)) (start + strings_offset args env)) as [Q1 Q2].
  unfold auxv_of in Q1 at 1. rewrite Q1. bstep.
  rewrite (proj2 (add_Ret 64 start (strings_offset args env) (start + strings_offset args env))) by (unfold start; lia). bstep. rewrite Q2. bstep.
  rewrite (string_addrs_pair _ (name :: args)), (string_addrs_pair _ env). do 3 f_equal.
  fold off. assert (length block ≤ length (drop off stack))%nat as Hfit by (rewrite length_drop; unfold off; change (needed name args env) with (strings_offset args env + Z.of_nat (length strings) + 16) in Hlen; lia).
  by rewrite write_block by exact Hfit.
Qed.

(** The block is what a program expects to find. *)
Lemma start_block_initial mem start random name args env info : 0 ≤ start →
  start + strings_offset args env + Z.of_nat (length (c_strings (name :: args ++ env))) < 2 ^ 64 →
  bytes_at mem start (start_block start random name args env info) → initial_stack mem start name args env info random.
Proof.
  intros H0 Hend. unfold start_block. set (strings := c_strings (name :: args ++ env)) in *. set (x := start + strings_offset args env) in *.
  assert (0 ≤ x) by (unfold x, strings_offset; lia).
  assert (strings = c_strings (name :: args) ++ c_strings env) as Hstr by (unfold strings; by rewrite app_comm_cons, c_strings_app).
  assert (length strings = length (c_strings (name :: args)) + length (c_strings env))%nat as Hsl by (rewrite Hstr; apply length_app).
  destruct (string_addrs_spec mem (name :: args) x) as (L1 & E1 & S1); [lia|lia|].
  destruct (string_addrs_spec mem env (x + Z.of_nat (length (c_strings (name :: args))))) as (L2 & _ & S2); [lia|lia|]. rewrite E1.
  intros [B1 [B2 [B3 [B4 [B5 B6]%bytes_at_app]%bytes_at_app]%bytes_at_app]%bytes_at_app]%bytes_at_app.
  assert (length (words ((string_addrs x (name :: args)).1 ++ [0%Z])) = 8 * (S (length args) + 1))%nat as W1 by by rewrite words_length, length_app, L1.
  assert (length (words ((string_addrs (x + Z.of_nat (length (c_strings (name :: args)))) env).1 ++ [0%Z])) = 8 * (length env + 1))%nat as W2
    by by rewrite words_length, length_app, L2.
  rewrite le_bytes_length in B2, B3, B4, B5, B6. rewrite W1 in B3, B4, B5, B6. rewrite W2 in B4, B5, B6.
  rewrite (words_length (flatten_auxv _)) in B5, B6. change (length (flatten_auxv _)) with 14%nat in B5, B6. cbn [length] in L1.
  assert (bytes_at mem x strings) as B5'.
  { replace x with (start + Z.of_nat 8 + Z.of_nat (8 * (S (length args) + 1)) + Z.of_nat (8 * (length env + 1)) + Z.of_nat (8 * 14)); [done|]. unfold x, strings_offset. lia. }
  pose proof B5' as B5s. rewrite Hstr in B5s. apply bytes_at_app in B5s as [Bs1 Bs2].
  split.
  - done.
  - intros i s Hi. destruct (S1 Bs1 i s Hi) as (ptr & Hptr & Hs). exists ptr. split; [|done].
    replace (start + 8 * (1 + Z.of_nat i)) with (start + Z.of_nat 8 + 8 * Z.of_nat i) by lia. apply (words_at _ _ _ _ _ B2). by apply lookup_app_l_Some.
  - replace (start + 8 * (2 + Z.of_nat (length args))) with (start + Z.of_nat 8 + 8 * Z.of_nat (S (length args))) by lia.
    apply (words_at _ _ _ _ _ B2). rewrite lookup_app_r by lia. by rewrite L1, Nat.sub_diag.
  - intros i s Hi. destruct (S2 Bs2 i s Hi) as (ptr & Hptr & Hs). exists ptr. split; [|done].
    replace (start + 8 * (3 + Z.of_nat (length args + i))) with (start + Z.of_nat 8 + Z.of_nat (8 * (S (length args) + 1)) + 8 * Z.of_nat i) by lia.
    apply (words_at _ _ _ _ _ B3). by apply lookup_app_l_Some.
  - replace (start + 8 * (3 + Z.of_nat (length args + length env))) with (start + Z.of_nat 8 + Z.of_nat (8 * (S (length args) + 1)) + 8 * Z.of_nat (length env)) by lia.
    apply (words_at _ _ _ _ _ B3). rewrite lookup_app_r by lia. by rewrite L2, Nat.sub_diag.
  - exists (x + Z.of_nat (length strings)), x. split_and!.
    + replace x with (start + Z.of_nat 8 + Z.of_nat (8 * (S (length args) + 1)) + Z.of_nat (8 * (length env + 1)) + Z.of_nat (8 * 14)); [done|]. unfold x, strings_offset. lia.
    + rewrite c_strings_cons in Bs1. rewrite app_assoc in Bs1. by apply bytes_at_app in Bs1 as [? _].
    + intros i k v Hi. cbv zeta. set (b := start + Z.of_nat 8 + Z.of_nat (8 * (S (length args) + 1)) + Z.of_nat (8 * (length env + 1))) in *.
      replace (start + 8 * (4 + Z.of_nat (length args + length env + 2 * i))) with (b + 8 * Z.of_nat (2 * i)) by (unfold b; lia).
      replace (b + 8 * Z.of_nat (2 * i) + 8) with (b + 8 * Z.of_nat (2 * i + 1)) by lia.
      split; apply (words_at _ _ _ _ _ B4); do 7 (destruct i as [|i]; [simpl in Hi; simplify_eq; done|]); done.
Qed.
End arguments.

(** ** Placing pages *)
Definition page_bytes (bytes : list Z) (i : nat) : list Z := take 4096 (drop (4096 * i) bytes).

Lemma fill_pages_spec n : ∀ ram pa bytes, length bytes = (4096 * n)%nat →
  (∀ i, (i < n)%nat → fill_pages ram pa bytes n !! (pa + PAGE * Z.of_nat i) = Some (page_bytes bytes i)) ∧
  (∀ v, (∀ i, (i < n)%nat → v ≠ pa + PAGE * Z.of_nat i) → fill_pages ram pa bytes n !! v = ram !! v).
Proof.
  induction n as [|n IH]; intros ram pa bytes Hl; cbn [fill_pages]; [split; [lia|done]|].
  destruct (IH (<[pa := take 4096 bytes]> ram) (pa + PAGE) (drop 4096 bytes)) as [H1 H2]; [rewrite length_drop; lia|]. split.
  - intros [|i] Hi.
    + rewrite H2; [|intros; lia]. replace (pa + _) with pa by lia. rewrite lookup_insert_eq. unfold page_bytes. by rewrite Nat.mul_0_r, drop_0.
    + replace (pa + PAGE * Z.of_nat (S i)) with (pa + PAGE + PAGE * Z.of_nat i) by lia. rewrite H1 by lia. unfold page_bytes.
      rewrite drop_drop. do 2 f_equal. f_equal. lia.
  - intros v Hv. rewrite H2.
    + rewrite lookup_insert_ne; [done|]. specialize (Hv 0%nat). lia.
    + intros i Hi. specialize (Hv (S i)). lia.
Qed.

Lemma page_bytes_length bytes n i : length bytes = (4096 * n)%nat → (i < n)%nat → length (page_bytes bytes i) = 4096%nat.
Proof. intros Hl Hi. unfold page_bytes. rewrite length_take, length_drop. lia. Qed.

Section load.
Context `{AH : AuxHeaders} `{AO : !AuxHeadersOk AH} `{PS : PageSource} `{PO : !PageSourceOk PS}.
Implicit Types (M : Machine) (P : MemProc).

(** New contents of pages that nobody maps. *)
Lemma fill_ok M ram' : ok M → (∀ b pa, in_run (runs M) b pa → ∃ c, ram' !! pa = Some c ∧ length c = 4096%nat) →
  (∀ p P va pa perm, procs M !! p = Some P → page_table P !! va = Some (pa, perm) → ram' !! pa = ram M !! pa) →
  let M' := MkMachine (procs M) (runs M) ram' in ok M' ∧ abs M' = abs M.
Proof.
  intros H Hr Hsame M'. split; [destruct H as [h1 h2 h3 h4 h5]; split; done|].
  apply abs_agree; [done|]. intros p P Hp. apply abs_proc_agree; [done|]. intros va pa perm Hv. by eapply Hsame.
Qed.

Lemma place_spec M p P va n bytes perm : ok (put_proc M p P) → (0 < n)%nat → length bytes = (4096 * n)%nat →
  va mod PAGE = 0 → 0 < va → va + PAGE * Z.of_nat n ≤ 2 ^ 64 → (va + PAGE * Z.of_nat n ≤ TRAMPOLINE ∨ TRAMPOLINE < va) →
  (∀ i, (i < n)%nat → abs_mem M P !! (va + PAGE * Z.of_nat i) = None) →
  ∃ M' P', place M P va n bytes perm = Ret (M', P') ∧ ok (put_proc M' p P') ∧ procs M' = procs M ∧
    abs (put_proc M' p P') = <[p := abs_proc M' P']> (abs (put_proc M p P)) ∧
    (∀ i, (i < n)%nat → abs_mem M' P' !! (va + PAGE * Z.of_nat i) = Some (page_bytes bytes i, perm)) ∧
    (∀ v, (∀ i, (i < n)%nat → v ≠ va + PAGE * Z.of_nat i) → abs_mem M' P' !! v = abs_mem M P !! v).
Proof.
  intros H Hn Hl Hal Hva Hend Htr Hfree. set (Mp := put_proc M p P) in *.
  assert (procs Mp !! p = Some P) as Hp by apply lookup_insert_eq.
  unfold place. rewrite (bool_decide_eq_true_2 _ Hn). bstep. destruct (alloc_run M n) as [[b a] M1] eqn:Ea.
  assert (alloc_run Mp n = (b, a, put_proc M1 p P)) as Ea' by (unfold alloc_run in *; simplify_eq; done).
  destruct (alloc_run_spec _ _ _ _ _ H Hn Ea') as (H1 & A1 & P1 & Hb & R1 & Z1 & G1 & V1). set (M1p := put_proc M1 p P) in *.
  assert (procs M1p !! p = Some P) as Hp1 by by rewrite P1.
  assert (∀ i, (i < n)%nat → page_table P !! (va + PAGE * Z.of_nat i) = None) as Hpt.
  { intros i Hi. apply (abs_mem_none Mp p P _ H Hp). by apply Hfree. }
  assert (mappings P !! va = None) as Hmv.
  { destruct (mappings P !! va) as [m|] eqn:Em; [|done]. destruct (base_mapped _ _ _ _ _ H Hp Em) as (_ & _ & [x Hx]).
    specialize (Hpt 0%nat Hn). replace (va + _) with va in Hpt by lia. congruence. }
  rewrite (bool_decide_eq_true_2 _ Hmv). bstep. unfold map_user. rewrite Hal, (proj2 (Z.eqb_neq _ _)) by lia. bstep.
  unfold addr_add. rewrite (proj2 (add_Ret 64 va (PAGE * Z.of_nat n - 1) (va + (PAGE * Z.of_nat n - 1)))) by lia. bstep.
  assert (negb ((va <=? TRAMPOLINE) && (TRAMPOLINE <? va + PAGE * Z.of_nat n)) = true) as -> by (destruct Htr; lia). bstep.
  unfold map_pages. set (l := _ <$> seq 0 n). assert (length l = n) as Hll by (unfold l; by rewrite length_fmap, length_seq).
  pose proof (put_range_spec l (page_table P) va) as S1. rewrite Hll in S1. destruct (put_range (page_table P) va l) as [pt|].
  2: { destruct S1 as (i & Hi & [x Hx]). rewrite Hpt in Hx by done. done. }
  destruct S1 as [S1 S2]. assert (∀ i, (i < n)%nat → page_table P !! (va + PAGE * Z.of_nat i) = None ∧
    pt !! (va + PAGE * Z.of_nat i) = Some (a + PAGE * Z.of_nat i, perm)) as S.
  { intros i Hi. apply S1. unfold l. rewrite list_lookup_fmap, lookup_seq_lt by done. done. }
  bstep. destruct (fill_pages_spec n (ram M1) a bytes Hl) as [F1 F2]. set (ram' := fill_pages (ram M1) a bytes n) in *.
  assert (∀ b' pa, in_run (runs M1p) b' pa → ∃ c, ram' !! pa = Some c ∧ length c = 4096%nat) as Hram.
  { intros b' pa Hin. destruct (range_dec pa a n) as [(i & Hi & ->)|Ho]; [rewrite F1 by done; eexists; split; [done|by eapply page_bytes_length]|].
    rewrite F2 by done. by eapply (ok_ram _ H1). }
  destruct (fill_ok M1p ram' H1 Hram) as [H2 A2].
  { intros q Q v pa pm Hq Hv. rewrite P1 in Hq. apply F2. by eapply V1. }
  set (M2p := MkMachine (procs M1p) (runs M1p) ram') in *. assert (procs M2p !! p = Some P) as Hp2 by done.
  assert (runs M2p !! b = Some (a, n)) as Hr2 by (change (runs M2p) with (runs M1p); rewrite R1; apply lookup_insert_eq).
  destruct (insert_ok M2p p P pt va (Allocated b) (free_mmap_address P) H2 Hp2) as [H3 A3]; [done| |by eapply (map_proc_ok M2p p P (Allocated b)); [left|..]|].
  { intros q Q base m' Hq Hm' Er. change (procs M2p) with (procs M1p) in Hq. rewrite P1 in Hq. destruct (ok_run _ _ (ok_procs _ H _ _ Hq) _ _ Hm') as [x Hx]. simpl in Er. congruence. }
  destruct (map_abs_mem M2p p P (Allocated b) a n pt va perm (free_mmap_address P) (page_bytes bytes)) as [B1 B2]; [done..|].
  pose proof (abs_proc_eq Mp M2p p P P) as AP2. rewrite A2, A1 in AP2. specialize (AP2 eq_refl Hp2 Hp). apply (f_equal a_mem) in AP2. simpl in AP2.
  assert (put_proc M2p p (MP pt (<[va := Allocated b]> (mappings P)) (free_mmap_address P)) =
    put_proc (MkMachine (procs M1) (runs M1) ram') p (MP pt (<[va := Allocated b]> (mappings P)) (free_mmap_address P))) as Eput.
  { unfold put_proc. simpl. by rewrite insert_insert_eq. }
  rewrite Eput in H3, A3. eexists _, _. split; [done|]. split; [done|]. split; [unfold alloc_run in Ea; simplify_eq; done|].
  split; [by rewrite A3, A2, A1|]. split; [done|]. intros v Hv. change (abs_mem M P) with (abs_mem Mp P). rewrite <-AP2. by apply B2.
Qed.

(** ** What the process sees *)
Definition user_byte M P (va : Z) : option Z :=
  match abs_mem M P !! (va - va mod PAGE) with Some (c, _) => c !! Z.to_nat (va mod PAGE) | None => None end.
Definition user_rights M P (va : Z) : option XWRMode := snd <$> abs_mem M P !! (va - va mod PAGE).

Definition holds M P (va : Z) (n : nat) (bytes : list Z) (perm : XWRMode) : Prop :=
  ∀ i, (i < n)%nat → abs_mem M P !! (va + PAGE * Z.of_nat i) = Some (page_bytes bytes i, perm).

Lemma holds_byte M P va n bytes perm k b : va mod PAGE = 0 → length bytes = (4096 * n)%nat → holds M P va n bytes perm →
  bytes !! k = Some b → user_byte M P (va + Z.of_nat k) = Some b ∧ user_rights M P (va + Z.of_nat k) = Some perm.
Proof.
  intros Hva Hl Hh Hk. apply lookup_lt_Some in Hk as Hlt. unfold user_byte, user_rights.
  assert ((va + Z.of_nat k) mod PAGE = Z.of_nat k mod PAGE) as Hm by (rewrite Z.add_mod, Hva, Z.add_0_l, Z.mod_mod by lia; done).
  pose proof (Z.div_mod (Z.of_nat k) PAGE) as Hd. pose proof (Z.mod_pos_bound (Z.of_nat k) PAGE) as Hb. rewrite Hm.
  assert (0 ≤ Z.of_nat k / PAGE) by (apply Z.div_pos; lia).
  replace (va + Z.of_nat k - Z.of_nat k mod PAGE) with (va + PAGE * Z.of_nat (Z.to_nat (Z.of_nat k / PAGE))) by lia.
  rewrite (Hh (Z.to_nat (Z.of_nat k / PAGE))) by lia. split; [|done].
  unfold page_bytes. rewrite lookup_take_lt, lookup_drop by lia. rewrite <-Hk. f_equal. lia.
Qed.

Lemma holds_bytes M P va n bytes perm : va mod PAGE = 0 → length bytes = (4096 * n)%nat → holds M P va n bytes perm →
  bytes_at (user_byte M P) va bytes.
Proof. intros Hva Hl Hh k b Hk. by eapply holds_byte. Qed.

(** ** Segments *)
Definition seg_base (h : ElfProgramHeaderEntry) : Z := virtual_address h - virtual_address h mod PAGE.
Definition seg_n (h : ElfProgramHeaderEntry) : nat := Z.to_nat ((virtual_address h mod PAGE + memory_size h + 4095) / 4096).
Definition seg_data (data : list Z) (h : ElfProgramHeaderEntry) : list Z := take (Z.to_nat (file_size h)) (drop (Z.to_nat (offset_in_file h)) data).
Definition seg_bytes (data : list Z) (h : ElfProgramHeaderEntry) : list Z :=
  let off := Z.to_nat (virtual_address h mod PAGE) in
  replicate off 0 ++ seg_data data h ++ replicate (4096 * seg_n h - off - length (seg_data data h)) 0.

(** A segment that can be loaded. *)
Record seg_ok (data : list Z) (h : ElfProgramHeaderEntry) : Prop := {
  seg_file : 0 ≤ offset_in_file h ∧ 0 ≤ file_size h ∧ offset_in_file h + file_size h ≤ Z.of_nat (length data);
  seg_size : file_size h ≤ memory_size h ∧ 0 < memory_size h;
  seg_place : 0x2000 ≤ virtual_address h ∧ virtual_address h + memory_size h ≤ 2 ^ 38;
  seg_flags : ∃ perm, xwr_of_flags (access_flags h) = Ret perm;
}.

Definition seg_disjoint (h h' : ElfProgramHeaderEntry) : Prop :=
  seg_base h + PAGE * Z.of_nat (seg_n h) ≤ seg_base h' ∨ seg_base h' + PAGE * Z.of_nat (seg_n h') ≤ seg_base h.

Lemma seg_data_length data h : seg_ok data h → Z.of_nat (length (seg_data data h)) = file_size h.
Proof. intros [Hf _ _ _]. unfold seg_data. rewrite length_take, length_drop. lia. Qed.

Lemma seg_facts data h : seg_ok data h → 0 ≤ virtual_address h mod PAGE < PAGE ∧ seg_base h mod PAGE = 0 ∧ 0x2000 ≤ seg_base h ∧ (0 < seg_n h)%nat ∧
  virtual_address h + memory_size h ≤ seg_base h + PAGE * Z.of_nat (seg_n h) < virtual_address h + memory_size h + PAGE ∧
  length (seg_bytes data h) = (4096 * seg_n h)%nat.
Proof.
  intros Hok. pose proof (seg_data_length _ _ Hok) as Hdl. destruct Hok as [Hf Hs Hp _]. unfold seg_bytes. rewrite !length_app, !length_replicate.
  pose proof (Z.mod_pos_bound (virtual_address h) PAGE) as Hb. pose proof (Z.div_mod (virtual_address h) PAGE) as Hd.
  assert (seg_base h = PAGE * (virtual_address h / PAGE)) as Eb by (unfold seg_base; lia).
  assert (Z.of_nat (seg_n h) = (virtual_address h mod PAGE + memory_size h + 4095) / 4096) as En by (unfold seg_n; rewrite Z2Nat.id; [done|apply Z.div_pos; lia]).
  pose proof (Z.div_mod (virtual_address h mod PAGE + memory_size h + 4095) 4096) as Hd2.
  pose proof (Z.mod_pos_bound (virtual_address h mod PAGE + memory_size h + 4095) 4096) as Hb2.
  split_and!; try lia.
  rewrite Eb, Z.mul_comm. by apply Z.mod_mul.
Qed.

Lemma segment_pages_Ret data h : Z.of_nat (length data) < 2 ^ 63 → seg_ok data h → segment_pages data h = Ret (seg_base h, seg_n h, seg_bytes data h).
Proof.
  intros Hlen Hok. destruct (seg_facts _ _ Hok) as (F1 & F2 & F3 & F4 & F5 & F6). pose proof (seg_data_length _ _ Hok) as Hdl.
  pose proof (seg_file _ _ Hok). pose proof (seg_size _ _ Hok). pose proof (seg_place _ _ Hok).
  unfold segment_pages, get_program_header_data. rewrite slice_ok by lia. bstep. fold (seg_data data h).
  rewrite (proj2 (Z.leb_le _ _)) by lia. bstep. rewrite minimum_amount_of_pages_Ret by (unfold PAGE_SIZE; lia). bstep.
  rewrite (proj2 (add_Ret 64 _ _ (virtual_address h mod PAGE + memory_size h))) by lia. bstep.
  rewrite minimum_amount_of_pages_Ret by (unfold PAGE_SIZE; lia). bstep.
  set (n1 := (memory_size h + 4095) / 4096). set (n2 := (virtual_address h mod PAGE + memory_size h + 4095) / 4096).
  assert (0 ≤ n1 ≤ n2) as Hn by (split; [apply Z.div_pos; lia|apply Z.div_le_mono; lia]).
  assert (n2 = Z.of_nat (seg_n h)) as En by (unfold seg_n; fold n2; lia).
  rewrite (proj2 (sub_Ret n2 n1 (n2 - n1))) by lia. bstep. rewrite (proj2 (add_Ret 64 n1 (n2 - n1) n2)) by lia. bstep.
  rewrite (proj2 (Z.leb_le _ _)) by (unfold seg_base in *; lia). bstep. unfold seg_bytes. rewrite En, Nat2Z.id. do 4 f_equal. f_equal. lia.
Qed.

Lemma load_segments p data loads : Z.of_nat (length data) < 2 ^ 63 → ∀ M P, ok (put_proc M p P) → Forall (seg_ok data) loads → ForallOrdPairs seg_disjoint loads →
  (∀ h i, h ∈ loads → (i < seg_n h)%nat → abs_mem M P !! (seg_base h + PAGE * Z.of_nat i) = None) →
  ∃ M' P', foldM (load_segment data) loads (M, P) = Ret (M', P') ∧ ok (put_proc M' p P') ∧ procs M' = procs M ∧
    (∀ q, q ≠ p → abs (put_proc M' p P') !! q = abs (put_proc M p P) !! q) ∧
    (∀ h, h ∈ loads → ∃ perm, xwr_of_flags (access_flags h) = Ret perm ∧ holds M' P' (seg_base h) (seg_n h) (seg_bytes data h) perm) ∧
    (∀ v, (∀ h i, h ∈ loads → (i < seg_n h)%nat → v ≠ seg_base h + PAGE * Z.of_nat i) → abs_mem M' P' !! v = abs_mem M P !! v).
Proof.
  intros Hlen. induction loads as [|h loads IH]; intros M P Hok Hseg Hdis Hfree.
  { exists M, P. split; [done|]. split; [done|]. split; [done|]. split; [done|]. split; [by intros ? ?%elem_of_nil|done]. }
  inversion Hseg as [|? ? Hh Hseg']; subst. inversion Hdis as [|? ? Hd Hdis']; subst. rewrite List.Forall_forall in Hd.
  destruct (seg_facts _ _ Hh) as (F1 & F2 & F3 & F4 & F5 & F6). pose proof (seg_place _ _ Hh). destruct (seg_flags _ _ Hh) as [perm Hperm].
  destruct (place_spec M p P (seg_base h) (seg_n h) (seg_bytes data h) perm) as (M1 & P1 & E1 & H1 & Q1 & A1 & B1 & C1); try done; try lia.
  { right. unfold TRAMPOLINE. lia. }
  { intros i Hi. apply Hfree; [by apply list_elem_of_here|done]. }
  assert (∀ h' i j, h' ∈ loads → (i < seg_n h')%nat → (j < seg_n h)%nat → seg_base h' + PAGE * Z.of_nat i ≠ seg_base h + PAGE * Z.of_nat j) as Hne.
  { intros h' i j Hh' Hi Hj. destruct (Hd h' ltac:(by apply list_elem_of_In)); lia. }
  destruct (IH M1 P1 H1 Hseg' Hdis') as (M2 & P2 & E2 & H2 & Q2 & A2 & B2 & C2).
  { intros h' i Hh' Hi. rewrite C1; [|intros j Hj; by apply Hne]. apply Hfree; [by apply list_elem_of_further|done]. }
  exists M2, P2. split_and!.
  - assert (load_segment data (M, P) h = Ret (M1, P1)) as Eh.
    { unfold load_segment. rewrite segment_pages_Ret by done. bstep. rewrite Hperm. bstep. exact E1. }
    cbn [foldM]. rewrite Eh. exact E2.
  - done.
  - by rewrite Q2.
  - intros q Hq. rewrite A2, A1, lookup_insert_ne by done. done.
  - intros h' [->|Hh']%elem_of_cons; [|by apply B2]. exists perm. split; [done|]. intros i Hi. rewrite C2; [by apply B1|].
    intros h' j Hh' Hj E. by eapply (Hne h' j i).
  - intros v Hv. rewrite C2; [apply C1; intros i Hi; apply Hv; [by apply list_elem_of_here|done]|].
    intros h' i Hh' Hi. apply Hv; [by apply list_elem_of_further|done].
Qed.

(** ** The break *)
Lemma bss_end_Ret loads : loads ≠ [] → Forall (λ h, 0 ≤ virtual_address h + memory_size h ≤ 2 ^ 38) loads →
  ∃ e, bss_end loads = Ret (Some e) ∧ 0 ≤ e ≤ 2 ^ 38 ∧ Forall (λ h, virtual_address h + memory_size h ≤ e) loads.
Proof.
  intros Hne Hall. assert (∀ l acc, Forall (λ h, 0 ≤ virtual_address h + memory_size h ≤ 2 ^ 38) l →
    foldM (λ l h, e ← add 64 (virtual_address h) (memory_size h); Ret (e :: l)) l acc =
      Ret (rev ((λ h, virtual_address h + memory_size h) <$> l) ++ acc)) as Hf.
  { induction l as [|h l IH]; intros acc H; [done|]. inversion H; subst. cbn [foldM].
    rewrite (proj2 (add_Ret 64 (virtual_address h) (memory_size h) (virtual_address h + memory_size h))) by lia. bstep. rewrite IH by done.
    simpl. by rewrite <-app_assoc. }
  unfold bss_end. rewrite Hf by done. bstep. rewrite app_nil_r. set (es := rev _).
  assert (∀ e, e ∈ es ↔ ∃ h, e = virtual_address h + memory_size h ∧ h ∈ loads) as Hes.
  { intros e. unfold es. rewrite list_elem_of_In, <-in_rev, <-list_elem_of_In, list_elem_of_fmap. done. }
  assert (es ≠ []) as Hen.
  { destruct loads as [|h l]; [done|]. intros E. assert (virtual_address h + memory_size h ∈ es) as Hin by (apply Hes; exists h; split; [done|apply list_elem_of_here]).
    rewrite E in Hin. by apply elem_of_nil in Hin. }
  exists (foldr Z.max 0 es). split; [by destruct es|]. rewrite Forall_forall in Hall.
  assert (∀ l, (∀ e, e ∈ l → 0 ≤ e ≤ 2 ^ 38) → 0 ≤ foldr Z.max 0 l ≤ 2 ^ 38 ∧ ∀ e, e ∈ l → e ≤ foldr Z.max 0 l) as Hmax.
  { induction l as [|e l IH]; intros H; simpl; [split; [lia|by intros ? ?%elem_of_nil]|].
    destruct IH as [I1 I2]; [intros e' He'; apply H, elem_of_cons; by right|]. pose proof (H e (list_elem_of_here _ _)). split; [lia|].
    intros e' [->|He']%elem_of_cons; [lia|]. specialize (I2 _ He'). lia. }
  destruct (Hmax es) as [M1 M2]; [intros e (h & -> & Hh)%Hes; by apply Hall|]. split; [done|].
  apply Forall_forall. intros h Hh. apply M2, Hes. by exists h.
Qed.

(** ** A file that can be loaded *)
Record loadable (data : list Z) (headers : list ElfProgramHeaderEntry) : Prop := {
  ld_length : Z.of_nat (length data) < 2 ^ 63;
  ld_bytes : bytes data;
  ld_headers : get_program_headers data = Ret headers;
  ld_first : ∃ h, List.find is_load headers = Some h ∧ offset_in_file h = 0;
  ld_segments : Forall (seg_ok data) (List.filter is_load headers);
  ld_disjoint : ForallOrdPairs seg_disjoint (List.filter is_load headers);
}.

Lemma le_at_range n off d : bytes d → 0 ≤ le_at n off d < 256 ^ Z.of_nat n.
Proof.
  intros Hb. unfold le_at. assert (bytes (take n (drop off d))) as Hb' by by apply Forall_take, Forall_drop.
  pose proof (le_combine_range _ Hb') as H. rewrite length_take in H. split; [lia|].
  eapply Z.lt_le_trans; [apply H|]. apply Z.pow_le_mono_r; lia.
Qed.

Lemma headers_facts data headers : bytes data → get_program_headers data = Ret headers → get_header data = Ret (read_header data) ∧
  0 ≤ start_program_header (read_header data) ≤ Z.of_nat (length data).
Proof.
  intros Hb. unfold get_program_headers, get_header. destruct (bool_decide (64 ≤ length data)%nat); bstep; [|done].
  intros (u & _ & (tot & [-> _]%mul_Ret & (e & [-> _]%add_Ret & (u' & Hle%rassert_Ret & _)%bind_Ret)%bind_Ret)%bind_Ret)%bind_Ret. split; [done|].
  pose proof (le_at_range 8 32 data Hb). pose proof (le_at_range 2 54 data Hb). pose proof (le_at_range 2 56 data Hb). simpl in *. nia.
Qed.

(** ** Putting it together *)
Lemma empty_proc_ok M p next : ok M → procs M !! p = None → ok (put_proc M p (MP ∅ ∅ next)) ∧ ∀ q, q ≠ p → abs (put_proc M p (MP ∅ ∅ next)) !! q = abs M !! q.
Proof.
  intros H Hp. destruct (put_proc_ok M p (MP ∅ ∅ next) H) as [H1 A1].
  - split; simpl; intros *; by rewrite ?lookup_empty.
  - intros base m base' m'. simpl. by rewrite lookup_empty.
  - intros base m p2 P2 base2 m2. simpl. by rewrite lookup_empty.
  - split; [done|]. intros q Hq. by rewrite A1, lookup_insert_ne.
Qed.

Lemma empty_stack_length : Z.of_nat (length empty_stack) = STACK_SIZE.
Proof. unfold empty_stack, STACK_SIZE, STACK_SIZE_PAGES. rewrite length_replicate. lia. Qed.

Lemma empty_brk_length : length empty_brk = (4096 * BRK_SIZE)%nat.
Proof. apply length_replicate. Qed.

Lemma stack_pages (stack : list Z) : Z.of_nat (length stack) = STACK_SIZE → length stack = (4096 * STACK_SIZE_PAGES)%nat.
Proof. unfold STACK_SIZE. lia. Qed.

(** The stack of the new process, and what the program finds on it. *)
Lemma stack_initial M P random name args env info : length random = AT_RANDOM_SIZE → total_length name args env < STACK_SIZE →
  ∃ stack auxv, let start := 2 ^ 64 - total_length name args env in
    set_up_arguments empty_stack random name args env info = Ret (inr (stack, start, auxv)) ∧
    Z.of_nat (length stack) = STACK_SIZE ∧ start mod 8 = 0 ∧
    (holds M P STACK_END STACK_SIZE_PAGES stack ReadWrite → initial_stack (user_byte M P) start name args env info random).
Proof.
  intros Hr Ht. set (s0 := empty_stack). assert (Z.of_nat (length s0) = STACK_SIZE) as Hs0 by apply empty_stack_length.
  destruct (set_up_arguments_Ret s0 random name args env info Hr) as (auxv & E & Hbl); [lia|rewrite Hs0; unfold STACK_SIZE, STACK_SIZE_PAGES; lia|].
  pose proof (total_length_bounds name args env) as Hb. set (off := (length s0 - _)%nat) in *. set (start := 2 ^ 64 - _) in *. set (block := start_block _ _ _ _ _ _) in *.
  eexists _, auxv. split; [exact E|]. assert (0 ≤ needed name args env) by lia.
  assert (Z.of_nat off = STACK_SIZE - total_length name args env) as Hoff by (unfold off; lia).
  assert (Z.of_nat (length (take off s0 ++ block ++ drop (length block) (drop off s0))) = STACK_SIZE) as Hlen.
  { rewrite !length_app, length_take, !length_drop. lia. }
  split; [done|]. split.
  { unfold start, total_length. rewrite Zminus_mod, Z.mod_mul by lia. done. }
  intros Hh. apply start_block_initial; [unfold start; unfold STACK_SIZE, STACK_SIZE_PAGES in *; lia|unfold needed in *; unfold start; lia|].
  apply holds_bytes in Hh; [|done|by apply stack_pages]. apply bytes_at_app in Hh as [_ [Hh _]%bytes_at_app].
  rewrite length_take, Nat.min_l in Hh by (unfold off; lia).
  by replace (STACK_END + Z.of_nat off) with start in Hh by (unfold STACK_END, STACK_START, start; lia).
Qed.

(** The bytes of a segment at its address. *)
Lemma segment_contents M P data h perm : seg_ok data h → holds M P (seg_base h) (seg_n h) (seg_bytes data h) perm →
  bytes_at (user_byte M P) (virtual_address h) (seg_data data h ++ replicate (Z.to_nat (memory_size h - file_size h)) 0) ∧
  ∀ k, 0 ≤ k < memory_size h → user_rights M P (virtual_address h + k) = Some perm.
Proof.
  intros Hok Hh. destruct (seg_facts _ _ Hok) as (F1 & F2 & F3 & F4 & F5 & F6). pose proof (seg_data_length _ _ Hok) as Hdl. pose proof (seg_size _ _ Hok). split.
  - pose proof (holds_bytes _ _ _ _ _ _ F2 F6 Hh) as B. unfold seg_bytes in B. apply bytes_at_app in B as [_ B]. rewrite length_replicate in B.
    replace (seg_base h + Z.of_nat (Z.to_nat (virtual_address h mod PAGE))) with (virtual_address h) in B by (unfold seg_base; lia).
    assert (Z.to_nat (memory_size h - file_size h) ≤ 4096 * seg_n h - Z.to_nat (virtual_address h mod PAGE) - length (seg_data data h))%nat as Hle
      by (unfold seg_base in F5; lia).
    set (n := (4096 * seg_n h - _ - _)%nat) in *. replace n with (Z.to_nat (memory_size h - file_size h) + (n - Z.to_nat (memory_size h - file_size h)))%nat in B by lia.
    rewrite replicate_add, app_assoc in B. by apply bytes_at_app in B as [B _].
  - intros k Hk. destruct (lookup_lt_is_Some_2 (seg_bytes data h) (Z.to_nat (virtual_address h mod PAGE + k))) as [b Hb]; [rewrite F6; unfold seg_base in F5; lia|].
    destruct (holds_byte _ _ _ _ _ _ _ _ F2 F6 Hh Hb) as [_ Hr]. rewrite <-Hr. f_equal. unfold seg_base. lia.
Qed.

Lemma brk_new_spec M p P e : ok (put_proc M p P) → 0x2000 ≤ e ≤ 2 ^ 38 →
  (∀ i, (i < BRK_SIZE)%nat → abs_mem M P !! ((e + 4095) / 4096 * 4096 + PAGE * Z.of_nat i) = None) →
  ∃ M' P' b, brk_new M P e = Ret (M', P', b) ∧ ok (put_proc M' p P') ∧ brk_start b = (e + 4095) / 4096 * 4096 ∧ brk_current b = brk_start b ∧
    (∀ q, q ≠ p → abs (put_proc M' p P') !! q = abs (put_proc M p P) !! q) ∧
    holds M' P' (brk_start b) BRK_SIZE empty_brk ReadWrite ∧
    (∀ v, (∀ i, (i < BRK_SIZE)%nat → v ≠ brk_start b + PAGE * Z.of_nat i) → abs_mem M' P' !! v = abs_mem M P !! v).
Proof.
  intros H He Hfree. unfold brk_new, align_up_page_size. rewrite align_up_Ret by (unfold PAGE_SIZE; lia). unfold PAGE_SIZE.
  replace (e + 4096 - 1) with (e + 4095) by lia. set (start := (e + 4095) / 4096 * 4096) in *. bstep.
  pose proof (Z.div_mod (e + 4095) 4096) as D1. pose proof (Z.mod_pos_bound (e + 4095) 4096) as D2.
  destruct (place_spec M p P start BRK_SIZE empty_brk ReadWrite) as (M1 & P1 & E1 & H1 & _ & A1 & B1 & C1);
    [done|unfold BRK_SIZE; lia|apply empty_brk_length|by apply Z.mod_mul|unfold start; lia|unfold start, BRK_SIZE; lia|right; unfold TRAMPOLINE, start; lia|done|].
  rewrite E1. bstep. unfold addr_add. rewrite (proj2 (add_Ret 64 start (PAGE * Z.of_nat BRK_SIZE) (start + PAGE * Z.of_nat BRK_SIZE))) by (unfold start, BRK_SIZE; lia).
  bstep. eexists _, _, _. split; [done|]. split; [done|]. split; [done|]. split; [done|].
  split; [by intros q Hq; rewrite A1, lookup_insert_ne|]. split; [exact B1|exact C1].
Qed.

(** The segments and the heap, once the stack is in place. *)
Lemma load_image p data loads M P stack : ok (put_proc M p P) → holds M P STACK_END STACK_SIZE_PAGES stack ReadWrite →
  (∀ v, v < 2 ^ 63 → abs_mem M P !! v = None) → Z.of_nat (length data) < 2 ^ 63 → loads ≠ [] → Forall (seg_ok data) loads → ForallOrdPairs seg_disjoint loads →
  ∃ M' P' b, (s ← foldM (load_segment data) loads (M, P); e ← bss_end loads;
      match e with Some e => brk_new s.1 s.2 e | None => Ret (s.1, s.2, brk_empty) end) = Ret (M', P', b) ∧
    ok (put_proc M' p P') ∧ (∀ q, q ≠ p → abs (put_proc M' p P') !! q = abs (put_proc M p P) !! q) ∧
    (∀ h, h ∈ loads → ∃ perm, xwr_of_flags (access_flags h) = Ret perm ∧ holds M' P' (seg_base h) (seg_n h) (seg_bytes data h) perm) ∧
    holds M' P' STACK_END STACK_SIZE_PAGES stack ReadWrite ∧
    brk_current b = brk_start b ∧ brk_start b mod PAGE = 0 ∧ holds M' P' (brk_start b) BRK_SIZE empty_brk ReadWrite ∧
    (∀ h, h ∈ loads → virtual_address h + memory_size h ≤ brk_start b).
Proof.
  intros H Hst Hlow Hlen Hne Hsegs Hdis. pose proof Hsegs as Hsegs'. rewrite Forall_forall in Hsegs'.
  assert (∀ h, h ∈ loads → 0x2000 ≤ seg_base h ∧ seg_base h mod PAGE = 0 ∧ seg_base h + PAGE * Z.of_nat (seg_n h) < virtual_address h + memory_size h + PAGE ∧
    0x2000 ≤ virtual_address h + memory_size h ≤ 2 ^ 38) as Hb.
  { intros h Hh. destruct (seg_facts _ _ (Hsegs' _ Hh)) as (_ & F2 & F3 & _ & F5 & _). pose proof (seg_place _ _ (Hsegs' _ Hh)). pose proof (seg_size _ _ (Hsegs' _ Hh)). lia. }
  destruct (load_segments p data loads Hlen M P H Hsegs Hdis) as (M1 & P1 & E1 & H1 & _ & A1 & B1 & C1).
  { intros h i Hh Hi. apply Hlow. specialize (Hb h Hh). lia. }
  destruct (bss_end_Ret loads Hne) as (e & E2 & He & Hmax); [apply Forall_forall; intros h Hh; specialize (Hb h Hh); lia|]. rewrite Forall_forall in Hmax.
  assert (0x2000 ≤ e) as Hel. { destruct loads as [|h l]; [done|]. pose proof (Hmax h (list_elem_of_here _ _)). pose proof (Hb h (list_elem_of_here _ _)). lia. }
  pose proof (Z.div_mod (e + 4095) 4096) as D1. pose proof (Z.mod_pos_bound (e + 4095) 4096) as D2.
  assert (∀ h i j, h ∈ loads → (i < seg_n h)%nat → seg_base h + PAGE * Z.of_nat i ≠ (e + 4095) / 4096 * 4096 + PAGE * Z.of_nat j) as Hsb.
  { intros h i j Hh Hi. pose proof (Hmax h Hh). destruct (Hb h Hh) as (_ & F2 & F & _). pose proof (Z.div_mod (seg_base h) PAGE). lia. }
  destruct (brk_new_spec M1 p P1 e H1) as (M2 & P2 & b & E3 & H2 & Ebs & Ebc & A2 & B2 & C2); [lia| |].
  { intros i Hi. unfold BRK_SIZE in Hi. rewrite C1; [apply Hlow; lia|]. intros h j Hh Hj E. by eapply Hsb. }
  exists M2, P2, b. rewrite Ebs in *. split_and!; try done.
  - rewrite E1. bstep. rewrite E2. bstep. exact E3.
  - intros q Hq. by rewrite A2, A1.
  - intros h Hh. destruct (B1 h Hh) as (perm & Hperm & Hh'). exists perm. split; [done|]. intros i Hi. rewrite C2; [by apply Hh'|]. intros j _. by apply Hsb.
  - intros i Hi. rewrite C2, C1; [by apply Hst| |].
    + intros h j Hh Hj. specialize (Hb h Hh). unfold STACK_END, STACK_START, STACK_SIZE, STACK_SIZE_PAGES. lia.
    + intros j Hj. unfold STACK_END, STACK_START, STACK_SIZE, STACK_SIZE_PAGES, BRK_SIZE in *. lia.
  - by apply Z.mod_mul.
  - intros h Hh. specialize (Hmax h Hh). lia.
Qed.

End load.

(** *** A program *)
Definition tiny_elf : list Z :=
  [0x7f; 0x45; 0x4c; 0x46; 2; 1; 1; 0] ++ replicate 8 0 ++ le_bytes 2 2 ++ le_bytes 2 0xF3 ++ le_bytes 4 1 ++
  le_bytes 8 0x10078 ++ le_bytes 8 64 ++ le_bytes 8 0 ++ le_bytes 4 0 ++ le_bytes 2 64 ++ le_bytes 2 56 ++ le_bytes 2 1 ++
  le_bytes 2 64 ++ le_bytes 2 0 ++ le_bytes 2 0 ++
  le_bytes 4 1 ++ le_bytes 4 5 ++ le_bytes 8 0 ++ le_bytes 8 0x10000 ++ le_bytes 8 0x10000 ++ le_bytes 8 124 ++ le_bytes 8 0x2000 ++ le_bytes 8 0x1000 ++
  [0x6f; 0; 0; 0].
Definition tiny_header : ElfProgramHeaderEntry :=
  {| header_type := 1; access_flags := 5; offset_in_file := 0; virtual_address := 0x10000; physical_address := 0x10000;
     file_size := 124; memory_size := 0x2000; alignment := 0x1000 |}.

Lemma tiny_loadable : loadable tiny_elf [tiny_header].
Proof.
  split.
  - by vm_compute.
  - repeat (constructor; [split; by vm_compute|]). constructor.
  - by vm_compute.
  - by exists tiny_header.
  - constructor; [|constructor]. split; simpl; [split_and!; by vm_compute|split; by vm_compute|split; by vm_compute|by eexists].
  - repeat constructor.
Qed.

#[local] Existing Instance linux_aux.
#[local] Existing Instance linux_aux_ok.


(** The stack pointer is not always a multiple of 16, as the ABI of the processor asks. *)
Lemma stack_pointer_misaligned : (2 ^ 64 - total_length [97] [] []) mod 16 = 8.
Proof. done. Qed.
