(* ===== verification/Exec.v ===== *)
(** execve: crates/kernel/src/syscalls/exec_ops.rs, from the arguments in user memory
    over scripts and their interpreters to the image of the new program. *)
From S2P Require Import Prelude Headers Bytes Parser SignalDelivery ResultM Paths Vfs FdTable FsOps Elf ForkMemory Loader.

(** ** Scripts *)
Definition MAX_SHEBANG_DEPTH : nat := 4.
Definition SHEBANG_MAX_LINE : nat := 257.
Definition is_blank (c : Z) : bool := (c =? 32) || (c =? 9).

Definition parse_shebang (bytes : list Z) : outcome (result (str * option str)) :=
  match list_position (Z.eqb 10) (take SHEBANG_MAX_LINE bytes) with
  | None => Ret (Err ENOEXEC)
  | Some line_end =>
      rassert (bool_decide (2 ≤ line_end)%nat);;
      let after_bang := drop 2 (take line_end bytes) in
      match list_position (λ c, negb (is_blank c)) after_bang with
      | None => Ret (Err ENOEXEC)
      | Some start =>
          let rest := drop start after_bang in
          let interp_end := default (length rest) (list_position is_blank rest) in
          if bool_decide (interp_end = 0%nat) then Ret (Err ENOEXEC)
          else
            match from_utf8 (take interp_end rest) with
            | None => Ret (Err ENOEXEC)
            | Some interpreter =>
                let arg_region := drop interp_end rest in
                let arg_start := default (length arg_region) (list_position (λ c, negb (is_blank c)) arg_region) in
                let trimmed := drop arg_start arg_region in
                match list_rposition (λ c, negb (is_blank c)) trimmed with
                | None => Ret (Okay (interpreter, None))
                | Some p =>
                    match from_utf8 (take (p + 1) trimmed) with
                    | None => Ret (Err ENOEXEC)
                    | Some a => Ret (Okay (interpreter, Some a))
                    end
                end
            end
      end
  end.

Section exec.
Context `{FH : FsHeaders} {D : Type} `{DV : Devices D}.
Open Scope stM_scope.

Definition resolve_against_cwd (filename cwd : str) : fsM D nat :=
  reads (λ s, resolve_path s
    (if starts_with_slash filename then filename
     else if ends_with_slash cwd then cwd ++ filename
     else cwd ++ slash :: filename)).

Definition size_of (n : nat) : fsM D Z := v ←? get_node n; lift (node_size (kind v)).

Definition read_full_node (n : nat) : fsM D (list Z) :=
  size ←? size_of n;
  if 64 * 1024 * 1024 <? size then fail E2BIG
  else node_read n 0 (Z.to_nat size).

(** The start of the file, enough for the first line of a script. *)
Definition peek_file (path cwd : str) : fsM D (nat * Z * list Z) :=
  node ←? resolve_against_cwd path cwd;
  size ←? size_of node;
  peek ←? node_read node 0 (Nat.min (Z.to_nat size) SHEBANG_MAX_LINE);
  ok (node, size, peek).

Definition is_script (peek : list Z) : bool := bool_decide (take 2 peek = [35; 33]).

(** The binary behind a file that is no script. *)
Definition binary_of (node : nat) (size : Z) (peek : list Z) : fsM D (list Z) :=
  if Z.of_nat (length peek) =? size then ok peek else read_full_node node.

(** The loop of [resolve_shebang]: the binary, its path and the layers, outermost
    first. *)
Fixpoint shebang_loop (fuel : nat) (cwd current_path : str) (layers : list (option str * str))
    : fsM D (list Z * str * list (option str * str)) :=
  match fuel with
  | O => lift Panic
  | S fuel =>
      '(node, size, peek) ←? peek_file current_path cwd;
      if negb (is_script peek) then
        bytes ←? binary_of node size peek;
        ok (bytes, current_path, layers)
      else if bool_decide (MAX_SHEBANG_DEPTH ≤ length layers)%nat then fail ELOOP
      else
        r ←? lift (parse_shebang peek);
        '(interpreter, optional_arg) ←? from r;
        shebang_loop fuel cwd interpreter (layers ++ [(optional_arg, current_path)])
  end.

(** The arguments that a layer puts in front. *)
Definition layer_args (layer : option str * str) : list str :=
  match layer.1 with Some a => [a; layer.2] | None => [layer.2] end.

Definition resolve_shebang (filename : str) (trailing_args : list str) (cwd : str) : fsM D (list Z * list str) :=
  '(bytes, current_path, layers) ←? shebang_loop (S MAX_SHEBANG_DEPTH) cwd filename [];
  ok (bytes, [current_path] ++ mjoin (layer_args <$> rev layers) ++ trailing_args).
End exec.

(** ** execve *)
Record ExecImage := { x_bytes : list Z; x_name : str; x_args : list str; x_env : list str }.

Section execve.
Context `{FH : FsHeaders} {D M : Type} `{DV : Devices D} `{UM : UserMemory M}.
Open Scope stM_scope.
Abbreviation callM := (stM (Call D M)).

(** The loop of [read_string_array]. An array without end fills the kernel's heap. *)
Fixpoint read_string_array (fuel : nat) (current : Z) : callM (list (list Z)) :=
  match fuel with
  | O => lift Panic
  | S fuel =>
      w ←? read_user current 8;
      let ptr_val := le_combine w in
      if ptr_val =? 0 then ok []
      else
        bytes ←? read_user ptr_val (Z.to_nat (Z.min (wrapping_add 64 (wrapping_sub 64 (2 ^ 64 - 1) ptr_val) 1) 256));
        rest ←? read_string_array fuel (wrapping_add 64 current 8);
        ok (bytes :: rest)
  end.

(** The strings among the buffers; what is no string is left out. *)
Definition strings_of (l : list (list Z)) : list str := omap (λ bytes, fst (consume_str (cb_new bytes))) l.

(** [do_execve] up to the program that is to be loaded. *)
Definition exec_image (fuel : nat) (filename argv envp : Z) : callM ExecImage :=
  filename_bytes ←? read_user filename 256;
  filename_str ←? ok_or (fst (consume_str (cb_new filename_bytes))) EFAULT;
  argv_buffers ←? read_string_array fuel argv;
  envp_buffers ←? (if negb (envp =? 0) then read_string_array fuel envp else ok []);
  cwd ←? gets c_cwd;
  '(bytes, final_argv) ←? on_fs (resolve_shebang filename_str (strings_of (drop 1 argv_buffers)) cwd);
  resolved_path ←? lift (expect (head final_argv));
  ok {| x_bytes := bytes; x_name := default resolved_path (last (split_slash resolved_path)); x_args := drop 1 final_argv;
        x_env := strings_of envp_buffers |}.

(** The rest: the new address space, and where the thread goes on. *)
Definition exec_load `{AH : AuxHeaders} `{PS : PageSource} (Mm : Machine) (random : list Z) (im : ExecImage)
    : outcome (result (LoadedElf * MemProc * Machine)) :=
  e ← elf_parse (x_bytes im);
  match e with
  | inl _ => Ret (Err ENOEXEC)
  | inr data =>
      r ← load_elf Mm data random (x_name im) (x_args im) (x_env im);
      Ret (match r with inl _ => Err ENOEXEC | inr x => Okay x end)
  end.
End execve.

(** ** Scripts resolve as the manual says *)
Section shebang.
Context `{FH : FsHeaders} {D : Type} `{DV : Devices D}.
Open Scope stM_scope.

(** To execute a script is to execute its interpreter, with the optional argument and
    the script's path in front of the arguments; [depth] scripts deep at most. *)
Fixpoint exec_spec (depth : nat) (cwd path : str) (args : list str) : fsM D (list Z * list str) :=
  '(node, size, peek) ←? peek_file path cwd;
  if negb (is_script peek) then bytes ←? binary_of node size peek; ok (bytes, path :: args)
  else match depth with
       | O => fail ELOOP
       | S depth =>
           r ←? lift (parse_shebang peek);
           '(interpreter, optional_arg) ←? from r;
           exec_spec depth cwd interpreter (match optional_arg with Some a => a :: path :: args | None => path :: args end)
       end.

Lemma fbind_assoc {S A B C} (m : stM S A) (k : A → stM S B) (k' : B → stM S C) s : fbind (fbind m k) k' s = fbind m (λ a, fbind (k a) k') s.
Proof. unfold fbind. destruct (m s) as [[[e|a] s']|]; [done| |done]. simpl. by destruct (k a s') as [[[e|b] s'']|]. Qed.

Lemma fbind_ext {S A B} (m : stM S A) (k k' : A → stM S B) s : (∀ a s', k a s' = k' a s') → fbind m k s = fbind m k' s.
Proof. intros H. unfold fbind. destruct (m s) as [[[e|a] s']|]; [done| |done]. apply H. Qed.

Lemma shebang_loop_spec cwd args depth : ∀ path layers s, (length layers + depth = MAX_SHEBANG_DEPTH)%nat →
  fbind (shebang_loop (S depth) cwd path layers)
    (λ x, match x with (bytes, current_path, layers) => ok (bytes, [current_path] ++ mjoin (layer_args <$> rev layers) ++ args) end) s =
  exec_spec depth cwd path (mjoin (layer_args <$> rev layers) ++ args) s.
Proof.
  induction depth as [|depth IH]; intros path layers s Hl; cbn [exec_spec]; [|remember (S depth) as k]; cbn [shebang_loop]; rewrite fbind_assoc; apply fbind_ext; intros [[node size] peek] s1.
  - destruct (is_script peek); cbn [negb].
    + rewrite bool_decide_eq_true_2 by lia. done.
    + rewrite fbind_assoc. by apply fbind_ext.
  - destruct (is_script peek); cbn [negb].
    + rewrite bool_decide_eq_false_2 by lia. rewrite fbind_assoc. apply fbind_ext. intros r s2. rewrite fbind_assoc. apply fbind_ext. intros [interpreter optional_arg] s3.
      subst k. rewrite IH by (rewrite length_app; simpl; lia). rewrite rev_app_distr. by destruct optional_arg.
    + rewrite fbind_assoc. by apply fbind_ext.
Qed.

(** C31: Executing a file follows scripts as Linux documents it: for every file system
    and file, [resolve_shebang] gives what the recursive definition gives, in which a
    script is executed by executing its interpreter with the optional argument and
    the script's path inserted before the arguments; it returns after at most four
    scripts, and fails with ELOOP for a fifth. *)
Theorem resolve_shebang_correct filename args cwd s : resolve_shebang filename args cwd s = exec_spec MAX_SHEBANG_DEPTH cwd filename args s.
Proof. unfold resolve_shebang. by rewrite (shebang_loop_spec cwd args MAX_SHEBANG_DEPTH filename []). Qed.
End shebang.

(** ** The first line of a script *)
(** A word of the line: no blanks, no newline. *)
Definition line_word (w : str) : Prop := w ≠ [] ∧ Forall (λ c, is_blank c = false ∧ c ≠ 10) w.

(** A line with an interpreter and an argument, which may have blanks inside. *)
Lemma parse_shebang_arg sp1 interp sp2 first mid last sp3 rest : let arg := first :: mid ++ [last] in
  Forall (λ c, is_blank c = true) sp1 → line_word interp → Forall (λ c, is_blank c = true) sp2 → sp2 ≠ [] → Forall (λ c, is_blank c = true) sp3 →
  is_blank first = false → is_blank last = false → Forall (λ c, c ≠ 10) arg → utf8_valid interp = true → utf8_valid arg = true →
  let line := sp1 ++ interp ++ sp2 ++ arg ++ sp3 in (length line < 255)%nat →
  parse_shebang ([35; 33] ++ line ++ 10 :: rest) = Ret (Okay (interp, Some arg)).
Proof.
  intros arg H1 [Hne Hw] H2 H2ne H3 Hf Hl Hnl Hu1 Hu2 line Hlen.
  assert (∀ c, is_blank c = true → c ≠ 10) as Hb10 by (intros c Hc ->; done).
  assert (Forall (λ c, (10 =? c) = false) ([35; 33] ++ line)) as Hnl'.
  { apply Forall_app. split; [by repeat constructor|]. unfold line. rewrite !Forall_app. split_and!; (eapply Forall_impl; [eassumption|]); cbv beta; intros c Hc; apply Z.eqb_neq; naive_solver. }
  unfold parse_shebang. rewrite app_assoc, take_app_ge by (rewrite length_app; unfold SHEBANG_MAX_LINE; simpl; lia).
  destruct (SHEBANG_MAX_LINE - length ([35; 33]%Z ++ line))%nat as [|k] eqn:Ek; [rewrite length_app in Ek; unfold SHEBANG_MAX_LINE in Ek; simpl in Ek; lia|].
  cbn [take]. rewrite position_app by done. rewrite bool_decide_eq_true_2 by (rewrite length_app; simpl; lia). bstep.
  rewrite take_app_length. change (drop 2 ([35; 33] ++ line)) with line. unfold line. destruct interp as [|i0 interp]; [done|].
  apply Forall_cons in Hw as Hw'. destruct Hw' as [[Hi0 _] Hw']. rewrite <-app_comm_cons.
  rewrite position_app; [|eapply Forall_impl; [exact H1|]; simpl; by intros c ->|by rewrite Hi0]. rewrite drop_app_length.
  destruct sp2 as [|s0 sp2]; [done|]. apply Forall_cons in H2 as [Hs0 H2]. rewrite app_comm_cons, <-(app_comm_cons sp2).
  rewrite position_app; [|eapply Forall_impl; [exact Hw|]; by intros c [? _]|done]. cbn [default length]. rewrite bool_decide_eq_false_2 by done.
  rewrite (take_app_length (i0 :: interp)). unfold from_utf8 at 1. rewrite Hu1. rewrite (drop_app_length (i0 :: interp)). unfold arg.
  rewrite app_comm_cons. rewrite <-(app_comm_cons (mid ++ [last])).
  rewrite position_app; [|constructor; [by rewrite Hs0|eapply Forall_impl; [exact H2|]; simpl; by intros c ->]|by rewrite Hf]. cbn [default id].
  rewrite drop_app_length. rewrite app_comm_cons. change (first :: mid ++ [last]) with ((first :: mid) ++ [last]). rewrite <-app_assoc. simpl ([last] ++ _).
  rewrite rposition_last; [|by rewrite Hl|eapply Forall_impl; [exact H3|]; simpl; by intros c ->].
  rewrite cons_middle, app_assoc. rewrite take_app_length' by (rewrite length_app; simpl; lia).
  unfold from_utf8. change ((first :: mid) ++ [last]) with arg. by rewrite Hu2.
Qed.
