(* ===== verification/Cpio.v ===== *)
(** cpio archives: crates/kernel/src/initramfs/cpio.rs, the reader of the newc format,
    with the format itself as a writer of records.

    The iterator over an archive gives back the records that were written; on any
    bytes at all it stops without a panic, and what it yields fits in the archive. *)
From S2P Require Import Prelude Parser Paths.

(** ** Fallible computations with an error of their own *)
Abbreviation eM E A := (outcome (E + A)).
Definition ebind {E A B} (m : eM E A) (k : A → eM E B) : eM E B :=
  r ← m; match r with inl e => Ret (inl e) | inr a => k a end.
Definition eok {E A} (a : A) : eM E A := Ret (inr a).
Definition eerr {E A} (e : E) : eM E A := Ret (inl e).
(** [o.ok_or(e)?] *)
Definition eok_or {E A} (o : option A) (e : E) : eM E A := match o with Some a => eok a | None => eerr e end.
Notation "x ←! m ; k" := (ebind m (λ x, k)) (at level 20, m at level 100, k at level 200, only parsing).
Notation "' p ←! m ; k" := (ebind m (λ x, match x with p => k end)) (at level 20, p pattern, m at level 100, k at level 200, only parsing).

Lemma ebind_inv {E A B} (m : eM E A) (k : A → eM E B) b : ebind m k = Ret (inr b) → ∃ a, m = Ret (inr a) ∧ k a = Ret (inr b).
Proof. unfold ebind. intros ([e|a] & H1 & H2)%bind_Ret; [done|]. by exists a. Qed.

Lemma ebind_eok {E A B} (a : A) (k : A → eM E B) : ebind (eok a) k = k a.
Proof. done. Qed.

Lemma eok_or_inv {E A} (o : option A) (e : E) a : eok_or o e = Ret (inr a) → o = Some a.
Proof. destruct o; simpl; [intros [= ->]|]; done. Qed.

(** [m] returns, with a value or an error. *)
Definition returns {E A} (m : eM E A) : Prop := ∃ r, m = Ret r.

Lemma returns_bind {E A B} (m : eM E A) (k : A → eM E B) : returns m → (∀ a, m = Ret (inr a) → returns (k a)) → returns (ebind m k).
Proof. intros [[e|a] Hm] Hk; unfold ebind; rewrite Hm; bstep; [by eexists|by apply Hk]. Qed.

Lemma returns_ok_or {E A} (o : option A) (e : E) : returns (eok_or o e).
Proof. destruct o; by eexists. Qed.

(** ** The source *)
Definition MAGIC : str := b "070701".
Definition HEADER_SIZE : Z := 110.
Definition TRAILER : str := b "TRAILER!!!".

Inductive CpioError := Truncated | BadMagic | BadHex | InvalidName.

Record Entry := MkCpio { c_ino : Z; c_mode : Z; c_nlink : Z; c_name : str; c_data : list Z }.

Definition hex_value (c : Z) : option Z :=
  if (48 <=? c) && (c <=? 57) then Some (c - 48)
  else if (97 <=? c) && (c <=? 102) then Some (c - 97 + 10)
  else if (65 <=? c) && (c <=? 70) then Some (c - 65 + 10)
  else None.

Fixpoint hex_loop (acc : Z) (bytes : list Z) : CpioError + Z :=
  match bytes with
  | [] => inr acc
  | c :: bytes =>
      match hex_value c with
      | None => inl BadHex
      | Some nibble => hex_loop (Z.lor (Z.shiftl acc 4 mod 2 ^ 32) nibble) bytes
      end
  end.

Definition parse_hex (bytes : list Z) : eM CpioError Z :=
  _ ← rassert (bool_decide (length bytes = 8%nat)); Ret (hex_loop 0 bytes).

Definition align4 (x : Z) : outcome Z := y ← add 64 x 3; Ret (Z.ldiff y 3).

(** [buf.get(first..last)] *)
Definition get_range (buf : list Z) (first last : Z) : option (list Z) :=
  if (first <=? last) && (last <=? Z.of_nat (length buf)) then Some (take (Z.to_nat (last - first)) (drop (Z.to_nat first) buf))
  else None.

Definition read_one (buf : list Z) (pos : Z) : eM CpioError (Entry * Z) :=
  header_end ← add 64 pos HEADER_SIZE;
  header ←! eok_or (get_range buf pos header_end) Truncated;
  if negb (bool_decide (take 6 header = MAGIC)) then eerr BadMagic
  else
    ino ←! parse_hex (take 8 (drop 6 header));
    mode ←! parse_hex (take 8 (drop 14 header));
    nlink ←! parse_hex (take 8 (drop 38 header));
    filesize ←! parse_hex (take 8 (drop 54 header));
    namesize ←! parse_hex (take 8 (drop 94 header));
    name_start ← add 64 pos HEADER_SIZE;
    name_end ←! eok_or (checked_add 64 name_start namesize) Truncated;
    name_bytes ←! eok_or (get_range buf name_start name_end) Truncated;
    bad ←! (if namesize =? 0 then eok true else l ←! eok_or (last name_bytes) InvalidName; eok (negb (l =? 0)));
    if bad : bool then eerr InvalidName
    else
      name ←! eok_or (from_utf8 (take (Z.to_nat (namesize - 1)) name_bytes)) InvalidName;
      data_start ← align4 name_end;
      data_end ←! eok_or (checked_add 64 data_start filesize) Truncated;
      data ←! eok_or (get_range buf data_start data_end) Truncated;
      next_pos ← align4 data_end;
      eok (MkCpio ino mode nlink name data, next_pos).

Record CpioIter := MkIter { it_buf : list Z; it_pos : Z; it_done : bool }.

Definition iter (archive : list Z) : CpioIter := MkIter archive 0 false.

(** [Iterator::next] *)
Definition next (it : CpioIter) : outcome (option (CpioError + Entry) * CpioIter) :=
  if it_done it || (Z.of_nat (length (it_buf it)) <=? it_pos it) then Ret (None, it)
  else
    r ← read_one (it_buf it) (it_pos it);
    match r with
    | inl e => Ret (Some (inl e), MkIter (it_buf it) (it_pos it) true)
    | inr (entry, new_pos) =>
        if bool_decide (c_name entry = TRAILER) then Ret (None, MkIter (it_buf it) (it_pos it) true)
        else Ret (Some (inr entry), MkIter (it_buf it) new_pos false)
    end.

(** [collect]: the items of the iterator, with [fuel] calls of [next]. *)
Fixpoint collect (fuel : nat) (it : CpioIter) : outcome (list (CpioError + Entry)) :=
  match fuel with
  | O => Panic
  | S fuel =>
      '(r, it) ← next it;
      match r with
      | None => Ret []
      | Some x => rest ← collect fuel it; Ret (x :: rest)
      end
  end.

(** ** The format *)
Definition hex_digit (d : Z) : Z := if d <? 10 then 48 + d else 97 + (d - 10).

Fixpoint hex_digits (n : nat) (v : Z) : list Z :=
  match n with O => [] | S n => hex_digits n (v / 16) ++ [hex_digit (v mod 16)] end.

(** A record: the entry, and the fields the reader skips: uid and gid, mtime, the four
    device numbers, and the checksum. *)
Record NewcRecord := MkRecord { r_entry : Entry; r_owner : list Z; r_mtime : list Z; r_devices : list Z; r_check : list Z }.

Definition record_header (r : NewcRecord) : list Z :=
  let e := r_entry r in
  MAGIC ++ hex_digits 8 (c_ino e) ++ hex_digits 8 (c_mode e) ++ r_owner r ++ hex_digits 8 (c_nlink e) ++ r_mtime r ++
  hex_digits 8 (Z.of_nat (length (c_data e))) ++ r_devices r ++ hex_digits 8 (Z.of_nat (length (c_name e)) + 1) ++ r_check r.

(** A record takes a multiple of four bytes, so that the padding is the same in front of
    whatever precedes it in an archive. *)
Definition record_bytes (r : NewcRecord) : list Z :=
  let e := r_entry r in
  record_header r ++ c_name e ++ [0] ++ pad4 (110 + length (c_name e) + 1) ++ c_data e ++ pad4 (length (c_data e)).

Definition field_ok (v : Z) : Prop := 0 ≤ v < 2 ^ 32.

Record record_ok (r : NewcRecord) : Prop := {
  ro_fields : field_ok (c_ino (r_entry r)) ∧ field_ok (c_mode (r_entry r)) ∧ field_ok (c_nlink (r_entry r));
  ro_sizes : field_ok (Z.of_nat (length (c_data (r_entry r)))) ∧ field_ok (Z.of_nat (length (c_name (r_entry r))) + 1);
  ro_name : utf8_valid (c_name (r_entry r)) = true;
  ro_skipped : length (r_owner r) = 16%nat ∧ length (r_mtime r) = 8%nat ∧ length (r_devices r) = 32%nat ∧ length (r_check r) = 8%nat;
}.

(** ** Numbers *)
Lemma hex_value_digit d : 0 ≤ d < 16 → hex_value (hex_digit d) = Some d.
Proof.
  intros Hd. unfold hex_value, hex_digit. destruct (Z.ltb_spec d 10).
  - rewrite (proj2 (Z.leb_le 48 _)), (proj2 (Z.leb_le _ 57)) by lia. simpl. f_equal. lia.
  - rewrite (proj2 (Z.leb_gt _ 57)), (proj2 (Z.leb_le 97 _)), (proj2 (Z.leb_le _ 102)) by lia. rewrite andb_false_r. simpl. f_equal. lia.
Qed.

Lemma hex_loop_app l l' : ∀ acc v, hex_loop acc l = inr v → hex_loop acc (l ++ l') = hex_loop v l'.
Proof. induction l as [|c l IH]; simpl; intros acc v; [by intros [= ->]|]. destruct (hex_value c); [apply IH|done]. Qed.

Lemma hex_digits_length n : ∀ v, length (hex_digits n v) = n.
Proof. induction n as [|n IH]; intros v; simpl; [done|]. rewrite length_app, IH. simpl. lia. Qed.

Lemma shift_nibble v d : 0 ≤ v → 0 ≤ d < 16 → v * 16 + d < 2 ^ 32 → Z.lor (Z.shiftl v 4 mod 2 ^ 32) d = v * 16 + d.
Proof.
  intros Hv Hd Hb. rewrite Z.shiftl_mul_pow2 by lia. change (2 ^ 4) with 16. rewrite Z.mod_small by lia.
  change 16 with (2 ^ 4) at 1. rewrite <-Z.shiftl_mul_pow2 by lia.
  assert (Z.land (Z.shiftl v 4) d = 0) as Hz.
  { apply Z.bits_inj'. intros i Hi. rewrite Z.land_spec, Z.bits_0. destruct (decide (i < 4)); [by rewrite Z.shiftl_spec_low|].
    rewrite (testbit_out 4 d i) by (unfold in_width; lia). apply andb_false_r. }
  rewrite <-Z.lxor_lor, <-Z.add_nocarry_lxor by done. by rewrite Z.shiftl_mul_pow2 by lia.
Qed.

Lemma parse_hex_digits v : field_ok v → parse_hex (hex_digits 8 v) = eok v.
Proof.
  intros Hv. unfold parse_hex. rewrite hex_digits_length, (bool_decide_eq_true_2 _ eq_refl). bstep. unfold eok. f_equal.
  assert (∀ n v, 0 ≤ v < 16 ^ Z.of_nat n → (n ≤ 8)%nat → hex_loop 0 (hex_digits n v) = inr v) as H; [|by apply H; [|lia]].
  clear v Hv. intros n. induction n as [|n IH]; intros v Hv Hn; [simpl in *; f_equal; lia|].
  assert (0 ≤ v mod 16 < 16) by (apply Z.mod_pos_bound; lia). pose proof (Z.div_mod v 16 ltac:(lia)).
  rewrite Nat2Z.inj_succ, Z.pow_succ_r in Hv by lia.
  assert (v < 2 ^ 32). { apply Z.lt_le_trans with (16 * 16 ^ Z.of_nat n); [lia|]. rewrite <-Z.pow_succ_r by lia. change (2 ^ 32) with (16 ^ 8). apply Z.pow_le_mono_r; lia. }
  assert (0 ≤ v / 16 < 16 ^ Z.of_nat n) as Hd by (split; [apply Z.div_pos; lia|apply Z.div_lt_upper_bound; lia]).
  cbn [hex_digits]. rewrite (hex_loop_app _ _ _ (v / 16)) by (apply IH; [done|lia]). cbn [hex_loop]. rewrite hex_value_digit by done.
  rewrite shift_nibble by lia. f_equal. lia.
Qed.

Lemma align4_eq x : 0 ≤ x → x + 3 < 2 ^ 64 → align4 x = Ret (4 * ((x + 3) / 4)).
Proof.
  intros H1 H2. unfold align4. rewrite (proj2 (add_Ret 64 x 3 (x + 3))) by lia. bstep. f_equal.
  change 3 with (Z.ones 2) at 2. rewrite Z.ldiff_ones_r, Z.shiftl_mul_pow2, Z.shiftr_div_pow2 by lia. change (2 ^ 2) with 4. lia.
Qed.

Lemma get_range_app pre l post first last : first = Z.of_nat (length pre) → last = first + Z.of_nat (length l) →
  get_range (pre ++ l ++ post) first last = Some l.
Proof.
  intros -> ->. unfold get_range. rewrite !length_app, (proj2 (Z.leb_le _ _)), (proj2 (Z.leb_le _ _)) by lia. simpl.
  rewrite Nat2Z.id, drop_app_length. rewrite take_app_length' by lia. done.
Qed.

(** ** A record is read back *)
Lemma field_at (pre x post h : list Z) n k : h = pre ++ x ++ post → length pre = n → length x = k → take k (drop n h) = x.
Proof. intros -> <- <-. by rewrite drop_app_length, take_app_length. Qed.

Record header_reads (h : list Z) (r : NewcRecord) : Prop := {
  hr_length : length h = 110%nat;
  hr_magic : take 6 h = MAGIC;
  hr_ino : take 8 (drop 6 h) = hex_digits 8 (c_ino (r_entry r));
  hr_mode : take 8 (drop 14 h) = hex_digits 8 (c_mode (r_entry r));
  hr_nlink : take 8 (drop 38 h) = hex_digits 8 (c_nlink (r_entry r));
  hr_filesize : take 8 (drop 54 h) = hex_digits 8 (Z.of_nat (length (c_data (r_entry r))));
  hr_namesize : take 8 (drop 94 h) = hex_digits 8 (Z.of_nat (length (c_name (r_entry r))) + 1);
}.

Lemma record_header_reads r : record_ok r → header_reads (record_header r) r.
Proof.
  intros [_ _ _ (H1 & H2 & H3 & H4)]. assert (length MAGIC = 6%nat) as Hm by done. unfold record_header.
  remember (r_entry r) as e eqn:He. set (x1 := hex_digits 8 (c_ino e)). set (x2 := hex_digits 8 (c_mode e)).
  set (x3 := hex_digits 8 (c_nlink e)). set (x4 := hex_digits 8 (Z.of_nat (length (c_data e)))). set (x5 := hex_digits 8 (Z.of_nat (length (c_name e)) + 1)).
  assert (length x1 = 8 ∧ length x2 = 8 ∧ length x3 = 8 ∧ length x4 = 8 ∧ length x5 = 8)%nat as (L1 & L2 & L3 & L4 & L5) by (split_and!; apply hex_digits_length).
  split; subst e; try (rewrite !length_app; lia); fold x1 x2 x3 x4 x5.
  - by rewrite take_app_length' by lia.
  - by apply (field_at MAGIC x1 (x2 ++ r_owner r ++ x3 ++ r_mtime r ++ x4 ++ r_devices r ++ x5 ++ r_check r)).
  - apply (field_at (MAGIC ++ x1) x2 (r_owner r ++ x3 ++ r_mtime r ++ x4 ++ r_devices r ++ x5 ++ r_check r)); [by rewrite <-!app_assoc|rewrite !length_app; lia|done].
  - apply (field_at (MAGIC ++ x1 ++ x2 ++ r_owner r) x3 (r_mtime r ++ x4 ++ r_devices r ++ x5 ++ r_check r)); [by rewrite <-!app_assoc|rewrite !length_app; lia|done].
  - apply (field_at (MAGIC ++ x1 ++ x2 ++ r_owner r ++ x3 ++ r_mtime r) x4 (r_devices r ++ x5 ++ r_check r)); [by rewrite <-!app_assoc|rewrite !length_app; lia|done].
  - apply (field_at (MAGIC ++ x1 ++ x2 ++ r_owner r ++ x3 ++ r_mtime r ++ x4 ++ r_devices r) x5 (r_check r)); [by rewrite <-!app_assoc|rewrite !length_app; lia|done].
Qed.

Lemma record_bytes_length r : record_ok r → Z.of_nat (length (record_bytes r)) =
  4 * ((111 + Z.of_nat (length (c_name (r_entry r))) + 3) / 4) + 4 * ((Z.of_nat (length (c_data (r_entry r))) + 3) / 4).
Proof.
  intros Hr. unfold record_bytes. pose proof (hr_length _ _ (record_header_reads r Hr)) as Hl.
  pose proof (pad4_length (110 + length (c_name (r_entry r)) + 1)) as H1. pose proof (pad4_length (length (c_data (r_entry r)))) as H2.
  rewrite !length_app, Hl. simpl (length [_]). rewrite <-H2. replace (111 + Z.of_nat (length (c_name (r_entry r)))) with (Z.of_nat (110 + length (c_name (r_entry r)) + 1)) by lia.
  rewrite <-H1. lia.
Qed.

Lemma align4_add p x : p mod 4 = 0 → 0 ≤ p → 0 ≤ x → p + x + 3 < 2 ^ 64 → align4 (p + x) = Ret (p + 4 * ((x + 3) / 4)).
Proof.
  intros Hp H1 H2 H3. rewrite align4_eq by lia. f_equal. pose proof (Z.div_mod p 4 ltac:(lia)).
  replace (p + x + 3) with ((x + 3) + (p / 4) * 4) by lia. rewrite Z.div_add by lia. lia.
Qed.

Lemma read_one_record pre r post : record_ok r → Z.of_nat (length pre) mod 4 = 0 → Z.of_nat (length (pre ++ record_bytes r ++ post)) < 2 ^ 63 →
  read_one (pre ++ record_bytes r ++ post) (Z.of_nat (length pre)) = eok (r_entry r, Z.of_nat (length (pre ++ record_bytes r))).
Proof.
  intros Hr Hp Hlen. pose proof (record_bytes_length r Hr) as Hlb. rewrite !length_app in Hlen. destruct (record_header_reads r Hr) as [h1 h2 h3 h4 h5 h6 h7].
  destruct Hr as [(f1 & f2 & f3) [f4 f5] Hu _]. pose proof f4 as f4'. pose proof f5 as f5'. unfold field_ok in f4', f5'. rewrite length_app, Nat2Z.inj_add.
  remember (r_entry r) as e eqn:He. set (p := Z.of_nat (length pre)) in *.
  set (N := Z.of_nat (length (c_name e))) in *. set (L := Z.of_nat (length (c_data e))) in *.
  assert (p = Z.of_nat (length pre) ∧ N = Z.of_nat (length (c_name e)) ∧ L = Z.of_nat (length (c_data e))) as (Ep & EN & EL) by done.
  set (hd := record_header r) in *. set (pd := pad4 (110 + length (c_name e) + 1)). set (pd2 := pad4 (length (c_data e))).
  assert (record_bytes r = hd ++ c_name e ++ [0] ++ pd ++ c_data e ++ pd2) as Hb by (unfold record_bytes; by rewrite <-He).
  assert (Z.of_nat (length pd) = 4 * ((111 + N + 3) / 4) - (111 + N)) as Hpd.
  { pose proof (pad4_length (110 + length (c_name e) + 1)) as H. fold pd in H. replace (Z.of_nat (110 + length (c_name e) + 1)) with (111 + N) in H by lia. lia. }
  assert (0 ≤ 4 * ((111 + N + 3) / 4) - (111 + N)) by lia.
  clearbody hd pd pd2 N L p.
  unfold read_one, HEADER_SIZE. rewrite (proj2 (add_Ret 64 p 110 (p + 110))) by lia. bstep. rewrite Hb, <-app_assoc.
  rewrite (get_range_app pre hd) by lia. cbn [eok_or]. rewrite ebind_eok. rewrite (bool_decide_eq_true_2 _ h2). cbn [negb].
  rewrite h3, h4, h5, h6, h7, !parse_hex_digits by done. rewrite !ebind_eok. bstep.
  unfold checked_add. rewrite (proj2 (Z.ltb_lt (p + 110 + _) _)) by lia. cbn [eok_or]. rewrite ebind_eok.
  replace (pre ++ hd ++ _) with ((pre ++ hd) ++ (c_name e ++ [0]) ++ pd ++ c_data e ++ pd2 ++ post) by (rewrite <-!app_assoc; done).
  rewrite (get_range_app (pre ++ hd) (c_name e ++ [0])) by (rewrite ?length_app; simpl; lia). cbn [eok_or]. rewrite ebind_eok.
  rewrite (proj2 (Z.eqb_neq (N + 1) 0)) by lia. rewrite last_snoc. cbn [eok_or]. rewrite !ebind_eok. cbn [negb Z.eqb].
  replace (Z.to_nat (N + 1 - 1)) with (length (c_name e)) by lia. rewrite take_app_length. unfold from_utf8. rewrite Hu. cbn [eok_or]. rewrite ebind_eok.
  replace (p + 110 + (N + 1)) with (p + (111 + N)) by lia. rewrite align4_add by lia. bstep. set (q := 4 * ((111 + N + 3) / 4)) in *.
  assert ((p + q) mod 4 = 0) as Hq by (subst q; rewrite Z.add_mod, Hp, (Z.mul_comm 4), Z.mod_mul by lia; done). clearbody q.
  assert (p + q + 4 * ((L + 3) / 4) < 2 ^ 63) by lia. assert (L ≤ 4 * ((L + 3) / 4)) by (clear; Z.div_mod_to_equations; lia).
  rewrite (proj2 (Z.ltb_lt (p + q + L) _)) by lia. cbn [eok_or]. rewrite ebind_eok.
  replace (((pre ++ hd) ++ _)) with ((pre ++ hd ++ c_name e ++ [0] ++ pd) ++ c_data e ++ pd2 ++ post) by (rewrite <-!app_assoc; done).
  rewrite (get_range_app _ (c_data e)) by (rewrite ?length_app; simpl; lia). cbn [eok_or]. rewrite ebind_eok.
  rewrite align4_add by lia. bstep. rewrite <-Hb, Hlb.
  rewrite Z.add_assoc. by destruct e.
Qed.

(** The archive of a list of records. *)
Definition archive_bytes (rs : list NewcRecord) : list Z := mjoin (record_bytes <$> rs).

Lemma next_record pre r post : record_ok r → c_name (r_entry r) ≠ TRAILER → Z.of_nat (length pre) mod 4 = 0 → Z.of_nat (length (pre ++ record_bytes r ++ post)) < 2 ^ 63 →
  next (MkIter (pre ++ record_bytes r ++ post) (Z.of_nat (length pre)) false) =
  Ret (Some (inr (r_entry r)), MkIter ((pre ++ record_bytes r) ++ post) (Z.of_nat (length (pre ++ record_bytes r))) false).
Proof.
  intros Hr Hn Hp Hl. unfold next. cbn [it_done it_buf it_pos orb]. assert (0 < length (record_bytes r))%nat by (unfold record_bytes, record_header; rewrite !length_app; simpl; lia).
  rewrite (proj2 (Z.leb_gt _ _)) by (rewrite !length_app; lia). rewrite read_one_record by done. unfold eok. bstep. rewrite bool_decide_eq_false_2 by done. by rewrite app_assoc.
Qed.

Lemma collect_records rs tr : ∀ pre post, Forall (λ r, record_ok r ∧ c_name (r_entry r) ≠ TRAILER) rs → record_ok tr → c_name (r_entry tr) = TRAILER →
  Z.of_nat (length pre) mod 4 = 0 → Z.of_nat (length (pre ++ archive_bytes rs ++ record_bytes tr ++ post)) < 2 ^ 63 →
  collect (S (length rs)) (MkIter (pre ++ archive_bytes rs ++ record_bytes tr ++ post) (Z.of_nat (length pre)) false) = Ret (inr <$> (r_entry <$> rs)).
Proof.
  induction rs as [|r rs IH]; intros pre post Hrs Htr Hn Hp Hl.
  - cbn [archive_bytes fmap list_fmap mjoin list_join app length collect] in *. unfold next. cbn [it_done it_buf it_pos orb].
    assert (0 < length (record_bytes tr))%nat by (unfold record_bytes, record_header; rewrite !length_app; simpl; lia).
    rewrite (proj2 (Z.leb_gt _ _)) by (rewrite !length_app; lia). rewrite read_one_record by done. unfold eok. bstep. by rewrite bool_decide_eq_true_2 by done.
  - apply Forall_cons in Hrs as [[Hr Hne] Hrs]. change (archive_bytes (r :: rs)) with (record_bytes r ++ archive_bytes rs) in *. rewrite <-app_assoc in Hl |- *.
    change (length (r :: rs)) with (S (length rs)). remember (S (length rs)) as k. cbn [collect]. rewrite next_record by done. bstep. subst k.
    rewrite IH; [done|done|done|done|..|by rewrite <-app_assoc].
    rewrite length_app, Nat2Z.inj_add, record_bytes_length by done. rewrite !(Z.mul_comm 4), Z.add_mod, (Z.add_mod (_ * 4)), !Z.mod_mul, Hp by lia. done.
Qed.

(** Reading an archive gives what was written: for all records with fields of 32
    bits and names in UTF-8 other than that of the trailer, the iterator over their
    newc encoding, a trailer and any bytes after it yields exactly the records' entries,
    in order, and ends. *)
Theorem cpio_roundtrip rs tr rest : Forall (λ r, record_ok r ∧ c_name (r_entry r) ≠ TRAILER) rs → record_ok tr → c_name (r_entry tr) = TRAILER →
  let archive := archive_bytes rs ++ record_bytes tr ++ rest in Z.of_nat (length archive) < 2 ^ 63 →
  collect (S (length rs)) (iter archive) = Ret (inr <$> (r_entry <$> rs)).
Proof. intros. by apply (collect_records rs tr []). Qed.

(** ** Any bytes *)
Lemma returns_parse_hex h n : (n + 8 ≤ length h)%nat → returns (parse_hex (take 8 (drop n h))).
Proof. intros H. unfold parse_hex. rewrite bool_decide_eq_true_2 by (rewrite length_take, length_drop; lia). by eexists. Qed.

Lemma get_range_Some buf first last l : get_range buf first last = Some l → 0 ≤ first →
  first ≤ last ≤ Z.of_nat (length buf) ∧ l = take (Z.to_nat (last - first)) (drop (Z.to_nat first) buf) ∧ Z.of_nat (length l) = last - first.
Proof.
  unfold get_range. destruct (Z.leb_spec first last), (Z.leb_spec last (Z.of_nat (length buf))); simpl; try done.
  intros [= <-] H1. split_and!; [lia..|done|]. rewrite length_take, length_drop. lia.
Qed.

Lemma checked_add_Some a c v : checked_add 64 a c = Some v → v = a + c ∧ v < 2 ^ 64.
Proof. unfold checked_add. case_match eqn:E; [|done]. intros [= <-]. apply Z.ltb_lt in E. lia. Qed.

Lemma hex_loop_nonneg l : ∀ acc v, 0 ≤ acc → hex_loop acc l = inr v → 0 ≤ v.
Proof.
  induction l as [|c l IH]; simpl; intros acc v Ha; [by intros [= <-]|]. destruct (hex_value c) as [d|] eqn:E; [|done]. apply IH.
  apply Z.lor_nonneg. split; [apply Z.mod_pos_bound; lia|]. unfold hex_value in E. repeat case_match; simplify_eq; lia.
Qed.

Lemma parse_hex_nonneg l v : parse_hex l = Ret (inr v) → 0 ≤ v.
Proof. unfold parse_hex. intros (? & _ & [= H])%bind_Ret. by eapply hex_loop_nonneg in H. Qed.

(** What [read_one] gives lies in the buffer, and the next record after it. *)
Lemma read_one_inside buf pos e p' : 0 ≤ pos → Z.of_nat (length buf) < 2 ^ 63 → read_one buf pos = Ret (inr (e, p')) →
  pos + 111 + Z.of_nat (length (c_name e)) + Z.of_nat (length (c_data e)) ≤ p' ∧ p' < Z.of_nat (length buf) + 4 ∧
  pos + 111 + Z.of_nat (length (c_name e)) + Z.of_nat (length (c_data e)) ≤ Z.of_nat (length buf).
Proof.
  intros Hp Hl. unfold read_one, HEADER_SIZE. intros (he & [-> _]%add_Ret & H)%bind_Ret. apply ebind_inv in H as (h & _ & H). destruct (negb _); [done|].
  apply ebind_inv in H as (ino & _ & H). apply ebind_inv in H as (mode & _ & H). apply ebind_inv in H as (nlink & _ & H).
  apply ebind_inv in H as (fsz & Hfsz%parse_hex_nonneg & H). apply ebind_inv in H as (nsz & Hnsz%parse_hex_nonneg & H). apply bind_Ret in H as (ns & [-> _]%add_Ret & H).
  apply ebind_inv in H as (ne & [-> _]%eok_or_inv%checked_add_Some & H). apply ebind_inv in H as (nb & Hnb%eok_or_inv & H).
  apply get_range_Some in Hnb as (Hnb1 & _ & Hnb2); [|lia]. apply ebind_inv in H as (bad & Hbad & H). destruct bad; [done|]. assert (nsz ≠ 0) by (intros ->; done). clear Hbad.
  apply ebind_inv in H as (name & Hname%eok_or_inv & H). assert (name = take (Z.to_nat (nsz - 1)) nb) as -> by (unfold from_utf8 in Hname; case_match; naive_solver).
  rewrite align4_eq in H by lia. bstep in H. set (ds := 4 * ((pos + 110 + nsz + 3) / 4)) in *.
  assert (pos + 110 + nsz ≤ ds ≤ pos + 110 + nsz + 3) by (subst ds; clear; Z.div_mod_to_equations; lia). clearbody ds.
  apply ebind_inv in H as (de & [-> _]%eok_or_inv%checked_add_Some & H). apply ebind_inv in H as (data & Hd%eok_or_inv & H).
  apply get_range_Some in Hd as (Hd1 & _ & Hd2); [|lia]. rewrite align4_eq in H by lia. bstep in H. injection H as <- <-. cbn [c_name c_data].
  assert (ds + fsz ≤ 4 * ((ds + fsz + 3) / 4) ≤ ds + fsz + 3) by (clear; Z.div_mod_to_equations; lia). rewrite length_take. lia.
Qed.

Lemma returns_read_one buf pos : 0 ≤ pos < Z.of_nat (length buf) → Z.of_nat (length buf) < 2 ^ 63 → returns (read_one buf pos).
Proof.
  intros Hp Hl. unfold read_one, HEADER_SIZE. rewrite (proj2 (add_Ret 64 pos 110 (pos + 110))) by lia. bstep.
  apply returns_bind; [apply returns_ok_or|intros h Hh%eok_or_inv]. apply get_range_Some in Hh as (_ & _ & Hh); [|lia]. destruct (negb _); [by eexists|].
  do 5 (apply returns_bind; [apply returns_parse_hex; lia|intros ? ?%parse_hex_nonneg]).
  apply returns_bind; [apply returns_ok_or|intros ne [-> _]%eok_or_inv%checked_add_Some].
  apply returns_bind; [apply returns_ok_or|intros nb Hnb%eok_or_inv]. apply get_range_Some in Hnb as (Hnb & _ & _); [|lia].
  apply returns_bind; [case_match; [by eexists|apply returns_bind; [apply returns_ok_or|by eexists]]|intros bad _]. destruct bad; [by eexists|].
  apply returns_bind; [apply returns_ok_or|intros name _]. rewrite align4_eq by lia. bstep.
  apply returns_bind; [apply returns_ok_or|intros de [-> _]%eok_or_inv%checked_add_Some].
  apply returns_bind; [apply returns_ok_or|intros data Hd%eok_or_inv]. apply get_range_Some in Hd as (Hd & _ & _); [|apply Z.mul_nonneg_nonneg, Z.div_pos; lia].
  rewrite align4_eq; [by eexists| |lia]. apply Z.le_trans with (4 * ((pos + 110 + a3 + 3) / 4)); [|lia]. apply Z.mul_nonneg_nonneg, Z.div_pos; lia.
Qed.

(** The bytes that an item takes at least. *)
Definition item_size (x : CpioError + Entry) : nat :=
  match x with inl _ => 0 | inr e => 111 + length (c_name e) + length (c_data e) end.

Lemma collect_bounded fuel : ∀ buf pos, 0 ≤ pos → Z.of_nat (length buf) < 2 ^ 63 → Z.of_nat (length buf) - pos < 111 * (Z.of_nat fuel - 1) → (1 ≤ fuel)%nat →
  ∃ l, collect fuel (MkIter buf pos false) = Ret l ∧ Z.of_nat (sum_list_with item_size l) ≤ Z.max 0 (Z.of_nat (length buf) - pos) ∧
    ∀ i e, l !! i = Some (inl e) → S i = length l.
Proof.
  induction fuel as [|fuel IH]; intros buf pos Hp Hl Hf Hf1; [lia|]. cbn [collect]. unfold next. cbn [it_done it_buf it_pos orb].
  destruct (Z.leb_spec (Z.of_nat (length buf)) pos); [bstep; exists []; simpl; split_and!; [done|lia|done]|].
  destruct (returns_read_one buf pos) as [[e|[e p']] Hr]; [lia|done|..]; rewrite Hr; bstep.
  - destruct fuel as [|fuel]; [lia|]. cbn [collect]. unfold next. cbn [it_done orb]. bstep. exists [inl e]. simpl. split_and!; [done|lia|]. by intros [|i] e'.
  - apply read_one_inside in Hr as (H1 & H2 & H3); [|done..]. case_bool_decide; bstep; [exists []; simpl; split_and!; [done|lia|done]|].
    destruct (IH buf p') as (l & Hc & Hs & He); [lia..|]. rewrite Hc. bstep. exists (inr e :: l). split_and!; [done|simpl; lia|].
    intros [|i] e'; [done|]. intros ?%He. simpl. lia.
Qed.

Lemma collect_returns buf : Z.of_nat (length buf) < 2 ^ 63 →
  ∃ l, collect (Z.to_nat (Z.of_nat (length buf) / 111 + 2)) (iter buf) = Ret l ∧ (sum_list_with item_size l ≤ length buf)%nat ∧
    ∀ i e, l !! i = Some (inl e) → S i = length l.
Proof.
  intros Hl. pose proof (Z.div_mod (Z.of_nat (length buf)) 111 ltac:(lia)). pose proof (Z.mod_pos_bound (Z.of_nat (length buf)) 111 ltac:(lia)).
  destruct (collect_bounded (Z.to_nat (Z.of_nat (length buf) / 111 + 2)) buf 0) as (l & H1 & H2 & H3); [lia..|]. exists l. split_and!; [done|lia|done].
Qed.

(** C33: The reader of archives is safe on any bytes: whatever they are, the iterator ends
    without a panic after at most one item for every 111 bytes, the headers, names and
    contents it yields fit in the archive together, and only its last item can be an
    error. *)
Theorem cpio_bounded buf : Z.of_nat (length buf) < 2 ^ 63 →
  ∃ l, collect (Z.to_nat (Z.of_nat (length buf) / 111 + 2)) (iter buf) = Ret l ∧ (sum_list_with item_size l ≤ length buf)%nat ∧
    ∀ i e, l !! i = Some (inl e) → S i = length l.
Proof. apply collect_returns. Qed.

(** An archive with one file, and one that is cut off. *)
Definition some_record (name : str) (data : list Z) : NewcRecord :=
  MkRecord (MkCpio 1 0x81A4 1 name data) (replicate 16 48) (replicate 8 48) (replicate 32 48) (replicate 8 48).

Lemma cpio_roundtrip_witness : collect 2 (iter (archive_bytes [some_record (b "a") [104; 105]] ++ record_bytes (some_record TRAILER []) ++ [0; 0])) =
  Ret [inr (MkCpio 1 0x81A4 1 (b "a") [104; 105])].
Proof.
  apply (cpio_roundtrip [some_record (b "a") [104; 105]] (some_record TRAILER []) [0; 0]).
  - repeat constructor; vm_compute; done.
  - repeat constructor; vm_compute; done.
  - done.
  - vm_compute. done.
Defined.

Lemma cpio_bounded_witness : ∃ l, collect 3 (iter (take 120 (record_bytes (some_record (b "a") (replicate 30 7))))) = Ret l ∧
  l = [inl Truncated] ∧ (sum_list_with item_size l ≤ 120)%nat.
Proof.
  destruct (cpio_bounded (take 120 (record_bytes (some_record (b "a") (replicate 30 7))))) as (l & H1 & H2 & _); [vm_compute; done|].
  exists l. change (Z.to_nat _) with 3%nat in H1. split_and!; [exact H1| |exact H2]. vm_compute in H1. by injection H1 as <-.
Defined.
