(* ===== verification/Initramfs.v ===== *)
(** The initial file system: crates/kernel/src/initramfs/mod.rs, which unpacks the cpio
    archive that the boot loader leaves in memory.

    Unpacking an archive of a tree, written in the order of [find], makes exactly that
    tree below the root: [extract_correct]. *)
From S2P Require Import Prelude Headers ResultM Paths Parser Vfs VfsTheorems Cpio.

Inductive ExtractError := CpioErr (e : CpioError) | VfsErr (e : errno) | InvalidSymlinkTarget.

Section extract.
Context `{FH : FsHeaders} {D : Type} `{DV : Devices D}.

(** The file system as the state, [ExtractError] for the errors. *)
Definition xM (A : Type) : Type := FS D → outcome ((ExtractError + A) * FS D).
Definition xok {A} (a : A) : xM A := λ s, Ret (inr a, s).
Definition xfail {A} (e : ExtractError) : xM A := λ s, Ret (inl e, s).
Definition xbind {A B} (m : xM A) (k : A → xM B) : xM B := λ s,
  '(r, s) ← m s;
  match r with inl e => Ret (inl e, s) | inr a => k a s end.
(** [m.map_err(ExtractError::Vfs)] *)
Definition map_vfs {A} (m : fsM D A) : xM A := λ s,
  '(r, s) ← m s;
  Ret (match r with inl e => inl (VfsErr e) | inr a => inr a end, s).
(** The result of [m] as a value. *)
Definition xtry {A} (m : fsM D A) : xM (result A) := λ s, '(r, s) ← m s; Ret (inr r, s).

Notation "x ←> m ; k" := (xbind m (λ x, k)) (at level 20, m at level 100, k at level 200, only parsing).
Notation "m ;;> k" := (xbind m (λ _, k)) (at level 100, k at level 200, right associativity).

Definition look (n : nat) (name : str) : fsM D nat := reads (λ s, lookup s n name).

Fixpoint ensure_components (cur : nat) (components : list str) : xM nat :=
  match components with
  | [] => xok cur
  | component :: components =>
      if bool_decide (component = []) then ensure_components cur components
      else
        r ←> xtry (look cur component);
        next ←> match r with inr n => xok n | inl _ => map_vfs (create cur component Directory) end;
        ensure_components next components
  end.

Definition ensure_dir (root : nat) (path : str) : xM nat :=
  if bool_decide (path = []) then xok root else ensure_components root (split_slash path).

(** The node of a directory entry: an existing directory, or a new one. *)
Definition make_dir (parent : nat) (name : str) : xM nat :=
  r ←> xtry (look parent name);
  match r with
  | inr n =>
      t ←> map_vfs (fbind (get_node n) (λ v, ok (node_type (kind v))));
      if bool_decide (t = Directory) then xok n else map_vfs (create parent name Directory)
  | inl _ => map_vfs (create parent name Directory)
  end.

(** The node of an entry; [None] for the types that are skipped. *)
Definition make_node (parent : nat) (name : str) (entry : Entry) : xM (option nat) :=
  let file_type := Z.land (c_mode entry) S_IFMT in
  if file_type =? S_IFDIR then n ←> make_dir parent name; xok (Some n)
  else if file_type =? S_IFLNK then
    match from_utf8 (c_data entry) with
    | None => xfail InvalidSymlinkTarget
    | Some target => n ←> map_vfs (create_symlink parent name target); xok (Some n)
    end
  else if file_type =? S_IFREG then
    file ←> map_vfs (create parent name File);
    (if bool_decide (c_data entry = []) then xok 0 else map_vfs (node_write file 0 (c_data entry)));;>
    xok (Some file)
  else xok None.

Definition is_skipped (file_type : Z) : bool :=
  (file_type =? S_IFBLK) || (file_type =? S_IFCHR) || (file_type =? S_IFIFO) || (file_type =? S_IFSOCK).

(** A turn of the loop of [extract_into], with [by_ino] and [count]. *)
Definition extract_entry (root : nat) (by_ino : gmap Z nat) (count : Z) (entry : Entry) : xM (gmap Z nat * Z) :=
  let path := normalize (c_name entry) in
  let file_type := Z.land (c_mode entry) S_IFMT in
  if bool_decide (path = []) || is_skipped file_type then xok (by_ino, count)
  else
    match
      (if (1 <? c_nlink entry) && (file_type =? S_IFREG) && bool_decide (c_data entry = []) then by_ino !! c_ino entry else None)
    with
    | Some existing =>
        let '(parent_path, name) := split_parent path in
        parent ←> ensure_dir root parent_path;
        map_vfs (link parent name existing);;>
        map_vfs (inc_nlink existing);;>
        count ←> map_vfs (lift (add 64 count 1));
        xok (by_ino, count)
    | None =>
        let '(parent_path, name) := split_parent path in
        parent ←> ensure_dir root parent_path;
        r ←> make_node parent name entry;
        match r with
        | None => xok (by_ino, count)
        | Some node =>
            _ ←> xtry (set_mode node (c_mode entry));
            let by_ino := if (1 <? c_nlink entry) && (file_type =? S_IFREG) then <[c_ino entry := node]> by_ino else by_ino in
            count ←> map_vfs (lift (add 64 count 1));
            xok (by_ino, count)
        end
    end.

Fixpoint extract_loop (fuel : nat) (root : nat) (it : CpioIter) (by_ino : gmap Z nat) (count : Z) : xM Z :=
  match fuel with
  | O => λ _, Panic
  | S fuel => λ s,
      '(item, it) ← next it;
      match item with
      | None => Ret (inr count, s)
      | Some (inl e) => Ret (inl (CpioErr e), s)
      | Some (inr entry) =>
          xbind (extract_entry root by_ino count entry) (λ '(by_ino, count), extract_loop fuel root it by_ino count) s
      end
  end.

(** [cpio_bounded] gives the number of turns. *)
Definition extract_into (archive : list Z) (root : nat) : xM Z :=
  extract_loop (Z.to_nat (Z.of_nat (length archive) / 111 + 2)) root (iter archive) ∅ 0.

(** *** The loop over the entries that the iterator yields *)
Fixpoint extract_items (root : nat) (items : list (CpioError + Entry)) (by_ino : gmap Z nat) (count : Z) : xM Z :=
  match items with
  | [] => xok count
  | inl e :: _ => xfail (CpioErr e)
  | inr entry :: items => xbind (extract_entry root by_ino count entry) (λ '(by_ino, count), extract_items root items by_ino count)
  end.

Lemma extract_loop_items fuel root : ∀ it by_ino count items s, collect fuel it = Ret items →
  extract_loop fuel root it by_ino count s = extract_items root items by_ino count s.
Proof.
  induction fuel as [|fuel IH]; intros it by_ino count items s; simpl; [done|]. intros ([r it'] & Hn & H)%bind_Ret. rewrite Hn. bstep.
  destruct r as [x|]; [|by injection H as <-]. apply bind_Ret in H as (rest & Hr & [= <-]). destruct x as [e|e]; simpl; [done|].
  unfold xbind. destruct (extract_entry root by_ino count e s) as [[[e'|[b' c']] s']|]; [done| |done]. bstep. by apply IH.
Qed.
End extract.

(** ** Paths of an archive *)
(** The names joined by separators, as [find] prints a path below the starting point. *)
Definition rel_path (ns : list str) : str :=
  match ns with [] => [] | n :: ns => n ++ concat (map (cons slash) ns) end.

Lemma rel_path_abs ns : ns ≠ [] → abs_path ns = slash :: rel_path ns.
Proof. by destruct ns. Qed.

Lemma rel_path_nil ns : Forall is_name ns → rel_path ns = [] → ns = [].
Proof. destruct ns as [|n ns]; [done|]. intros [(Hn & _) _]%Forall_cons. simpl. destruct n; [done|]. simpl. done. Qed.

Lemma split_rel_path ns : Forall is_name ns → ns ≠ [] → split_slash (rel_path ns) = ns.
Proof.
  intros H Hne. pose proof (split_abs_path ns H Hne) as Hs. rewrite rel_path_abs in Hs by done. cbn [split_slash] in Hs. rewrite Z.eqb_refl in Hs. by injection Hs.
Qed.

Lemma split_parent_rel ns n : is_name n → split_parent (rel_path (ns ++ [n])) = (rel_path ns, n).
Proof.
  intros (Hne & _ & _ & Hs). unfold split_parent. destruct ns as [|m ns]; cbn [app rel_path map concat].
  - rewrite app_nil_r. assert (rfind_slash n = None) as ->; [|done].
    clear Hne. induction n as [|d n IH]; simpl; [done|]. apply not_elem_of_cons in Hs as [Hd Hn]. rewrite IH by done. by rewrite (proj2 (Z.eqb_neq _ _)).
  - rewrite map_app, concat_app. cbn [map concat]. rewrite app_nil_r, app_assoc, rfind_slash_app by done. rewrite take_app_length.
    rewrite (drop_app_ge _ _ (S _)) by lia. by replace (S _ - _)%nat with 1%nat by lia.
Qed.

(** Names as archives write them: the path, perhaps below [./] or [/]. *)
Definition written_as (name : str) (ns : list str) : Prop := name = rel_path ns ∨ name = b "./" ++ rel_path ns ∨ name = slash :: rel_path ns.

Lemma normalize_written name ns : Forall is_name ns → ns ≠ [] → written_as name ns → normalize name = rel_path ns.
Proof.
  intros Hns Hne Hw. destruct ns as [|n ns]; [done|]. pose proof Hns as [(H1 & H2 & H3 & H4) _]%Forall_cons.
  unfold written_as in Hw. set (q := rel_path (n :: ns)) in *.
  assert (∃ c q', q = c :: q' ∧ c ≠ slash) as (c & q' & Hq & Hc).
  { subst q. cbn [rel_path]. destruct n as [|c n]; [done|]. exists c. eexists. split; [done|]. intros ->. apply H4. left. }
  assert (starts_with (b "./") q = false) as Hdot.
  { destruct (starts_with (b "./") q) eqn:E; [|done]. exfalso. apply starts_with_app in E as [r E]. apply (f_equal split_slash) in E. subst q. rewrite split_rel_path in E by done.
    change (b "./" ++ r) with (dot ++ slash :: r) in E. rewrite split_slash_name in E; [by injection E|]. unfold dot. rewrite list_elem_of_singleton. done. }
  assert (q ≠ dot) as Hqd.
  { intros E. apply (f_equal split_slash) in E. subst q. rewrite split_rel_path in E by done. by injection E. }
  assert (∀ p, p = q ∨ p = slash :: q → normalize p = q) as Hplain.
  { intros p Hp. unfold normalize. assert (trim_start_slash p = q) as ->.
    { destruct Hp as [->| ->]; rewrite Hq; simpl; by rewrite (proj2 (Z.eqb_neq c slash)) by done. }
    rewrite Hdot. by rewrite bool_decide_eq_false_2. }
  destruct Hw as [->|[->| ->]]; [by apply Hplain; left| |by apply Hplain; right].
  assert (normalize (b "./" ++ q) = if bool_decide (q = dot) then [] else q) as -> by reflexivity. by rewrite bool_decide_eq_false_2.
Qed.

(** ** Trees *)
Inductive content := CDir | CFile (data : list Z) | CLink (target : str).

(** A tree: what each path holds, with its mode. The root is the empty path. *)
Abbreviation tree := (gmap (list str) (content * Z)).

(** The entry for a path: a regular file has one link. *)
Section represents.
Context `{FH : FsHeaders} {D : Type} `{DV : Devices D}.

Record entry_for (ns : list str) (c : content) (m : Z) (e : Entry) : Prop := {
  ef_name : written_as (c_name e) ns;
  ef_mode : c_mode e = m;
  ef_type : Z.land m S_IFMT = match c with CDir => S_IFDIR | CFile _ => S_IFREG | CLink _ => S_IFLNK end;
  ef_data : match c with CDir => True | CFile d => c_data e = d ∧ c_nlink e ≤ 1 | CLink t => c_data e = t ∧ utf8_valid t = true end;
}.

(** Entries that add to a tree in order: a parent before its children, as [find] lists
    them; the starting point itself is listed as a dot. *)
Inductive grows : tree → list Entry → tree → Prop :=
  | grows_nil T : grows T [] T
  | grows_dot T e es T' : c_name e = dot → grows T es T' → grows T (e :: es) T'
  | grows_entry T ns n c m pm e es T' : Forall is_name (ns ++ [n]) → T !! ns = Some (CDir, pm) → T !! (ns ++ [n]) = None →
      entry_for (ns ++ [n]) c m e → grows (<[ns ++ [n] := (c, m)]> T) es T' → grows T (e :: es) T'.

(** Node [n] holds [c] with mode [m]; its children, if it is a directory, are [children]. *)
Definition node_holds (s : FS D) (n : nat) (children : str → option nat) (c : content) (m : Z) (links : Z) : Prop :=
  match c with
  | CDir => ∃ i ch mt, nodes s !! n = Some (MkNode i (TmpfsDir ch mt)) ∧ mode mt = m ∧ nlink mt ≤ links ∧ 0 ≤ nlink mt ∧ ∀ name, ch !! name = children name
  | CFile d => ∃ i mt, nodes s !! n = Some (MkNode i (TmpfsFile d mt)) ∧ mode mt = m
  | CLink t => ∃ i, nodes s !! n = Some (MkNode i (TmpfsSymlink t))
  end.

(** The nodes [N] hold the tree [T]. *)
Record represents (s : FS D) (root : nat) (N : gmap (list str) nat) (T : tree) (links : Z) : Prop := {
  rp_root : N !! [] = Some root;
  rp_dom : ∀ p, is_Some (N !! p) ↔ is_Some (T !! p);
  rp_inj : ∀ p q n, N !! p = Some n → N !! q = Some n → p = q;
  rp_old : ∀ p n, N !! p = Some n → (n < next_node s)%nat;
  rp_parent : ∀ p x, is_Some (T !! (p ++ [x])) → ∃ m, T !! p = Some (CDir, m);
  rp_node : ∀ p n c m, N !! p = Some n → T !! p = Some (c, m) → node_holds s n (λ name, N !! (p ++ [name])) c m links;
}.

Section one.
Context (s : FS D) (root : nat) (N : gmap (list str) nat) (T : tree) (links : Z) (R : represents s root N T links).

Lemma rp_dir p m : T !! p = Some (CDir, m) → ∃ n i ch mt, N !! p = Some n ∧ nodes s !! n = Some (MkNode i (TmpfsDir ch mt)) ∧
  mode mt = m ∧ nlink mt ≤ links ∧ 0 ≤ nlink mt ∧ ∀ name, ch !! name = N !! (p ++ [name]).
Proof.
  intros HT. destruct (proj2 (rp_dom _ _ _ _ _ R p)) as [n Hn]; [by rewrite HT|]. destruct (rp_node _ _ _ _ _ R p n CDir m Hn HT) as (i & ch & mt & H).
  by exists n, i, ch, mt.
Qed.

(** The directories on the way to a known one are found. *)
Lemma ensure_components_known q : ∀ p n, Forall is_name q → (∃ m, T !! (p ++ q) = Some (CDir, m)) → N !! p = Some n →
  ∃ n', N !! (p ++ q) = Some n' ∧ ensure_components n q s = Ret (inr n', s).
Proof.
  induction q as [|x q IH]; intros p n Hq Hd Hn; simpl; [exists n; by rewrite app_nil_r|]. apply Forall_cons in Hq as [(Hx & _) Hq]. rewrite bool_decide_eq_false_2 by done.
  assert (is_Some (T !! (p ++ [x]))) as Hs.
  { clear -R Hd. replace (p ++ x :: q) with ((p ++ [x]) ++ q) in Hd by (by rewrite <-app_assoc). revert Hd. generalize (p ++ [x]) as p'. intros p'.
    induction q as [|y q IHq] using rev_ind; intros [m Hm]; [rewrite app_nil_r in Hm; by rewrite Hm|]. apply IHq. apply (rp_parent _ _ _ _ _ R _ y). rewrite <-app_assoc, Hm. done. }
  destruct (rp_parent _ _ _ _ _ R p x Hs) as [m Hm]. destruct (rp_dir p m Hm) as (n0 & i & ch & mt & Hn0 & Hnode & _ & _ & _ & Hch). assert (n0 = n) as -> by congruence.
  destruct (proj2 (rp_dom _ _ _ _ _ R _) Hs) as [n1 Hn1].
  unfold xbind at 1, xtry, look, reads, lookup. rewrite Hnode. bstep. cbn [kind entries_of]. rewrite Hch, Hn1. bstep. unfold xbind at 1, xok at 1. bstep.
  replace (p ++ x :: q) with ((p ++ [x]) ++ q) in Hd |- * by (by rewrite <-app_assoc). by apply IH.
Qed.

Lemma ensure_dir_known ns m : Forall is_name ns → T !! ns = Some (CDir, m) → ∃ n, N !! ns = Some n ∧ ensure_dir root (rel_path ns) s = Ret (inr n, s).
Proof.
  intros Hns Hd. unfold ensure_dir. case_bool_decide as E.
  - apply rel_path_nil in E; [|done]. subst. exists root. split; [apply R|done].
  - rewrite split_rel_path by (done || (intros ->; done)). apply (ensure_components_known ns [] root); [done|by exists m|apply R].
Qed.

(** A new child [k] of the directory [ns]. *)
Lemma represents_add s' ns n c m pm pn i ch mt mt' k : Forall is_name (ns ++ [n]) → T !! ns = Some (CDir, pm) → T !! (ns ++ [n]) = None →
  N !! ns = Some pn → nodes s !! pn = Some (MkNode i (TmpfsDir ch mt)) → k = next_node s → next_node s' = S k →
  nodes s' !! pn = Some (MkNode i (TmpfsDir (<[n := k]> ch) mt')) → mode mt' = mode mt → 0 ≤ nlink mt' ≤ links + 1 →
  (∀ j, j ≠ k → j ≠ pn → nodes s' !! j = nodes s !! j) → node_holds s' k (λ _, None) c m (links + 1) →
  represents s' root (<[ns ++ [n] := k]> N) (<[ns ++ [n] := (c, m)]> T) (links + 1).
Proof.
  intros Hnames HT HTn HN Hpn -> Hnext Hpn' Hmode Hlinks Hother Hk.
  assert (N !! (ns ++ [n]) = None) as HNn. { apply eq_None_not_Some. intros H%(rp_dom _ _ _ _ _ R). rewrite HTn in H. by destruct H. }
  assert (∀ p q, N !! p = Some q → (q < next_node s)%nat) as Hold by apply R.
  assert (ns ++ [n] ≠ ns) as Hne by (intros E%(f_equal length); rewrite length_app in E; simpl in E; lia).
  split.
  - rewrite lookup_insert_ne by (by destruct ns). apply R.
  - intros p. destruct (decide (p = ns ++ [n])) as [->|]; [rewrite !lookup_insert_eq; split; by eexists|]. rewrite !lookup_insert_ne by done. apply R.
  - intros p q j [[<- <-]|[? Hp]]%lookup_insert_Some [[<- E]|[? Hq]]%lookup_insert_Some; [done|..].
    + apply Hold in Hq. lia.
    + apply Hold in Hp. lia.
    + by eapply (rp_inj _ _ _ _ _ R).
  - intros p j [[<- <-]|[_ Hp%Hold]]%lookup_insert_Some; lia.
  - intros p x Hx. destruct (decide (p ++ [x] = ns ++ [n])) as [E|Hd].
    + apply app_inj_tail in E as [-> ->]. exists pm. by rewrite lookup_insert_ne.
    + rewrite lookup_insert_ne in Hx by done. destruct (rp_parent _ _ _ _ _ R p x Hx) as [m' Hm']. exists m'. rewrite lookup_insert_ne; [done|]. intros <-. congruence.
  - intros p j c' m' [[<- <-]|[Hd Hp]]%lookup_insert_Some HT'.
    + rewrite lookup_insert_eq in HT'. injection HT' as <- <-. destruct c; simpl in *; [|done..]. destruct Hk as (i' & ch' & mt0 & H1 & H2 & H3 & H4 & H5). exists i', ch', mt0. split_and!; [done..|].
      intros name. rewrite H5, lookup_insert_ne by (intros E%(f_equal length); rewrite !length_app in E; simpl in E; lia). symmetry. apply eq_None_not_Some. intros H%(rp_dom _ _ _ _ _ R).
      apply (rp_parent _ _ _ _ _ R) in H as [? ?]. congruence.
    + rewrite lookup_insert_ne in HT' by done. pose proof (Hold _ _ Hp). destruct (decide (j = pn)) as [->|Hj].
      * assert (p = ns) as -> by (by eapply (rp_inj _ _ _ _ _ R)). rewrite HT in HT'. injection HT' as <- <-. destruct (rp_node _ _ _ _ _ R ns pn CDir pm HN HT) as (i0 & ch0 & mt0 & E & Hm & Hl & Hl0 & Hch).
        rewrite Hpn in E. injection E as <- <- <-. exists i, (<[n := next_node s]> ch), mt'. split_and!; [done|congruence|lia|lia|].
        intros name. destruct (decide (name = n)) as [->|]; [by rewrite !lookup_insert_eq|]. rewrite !lookup_insert_ne; [apply Hch|by intros [_ ?]%app_inj_tail|done].
      * pose proof (rp_node _ _ _ _ _ R p j c' m' Hp HT') as H'. destruct c'; simpl in *; rewrite Hother by (lia || done); [|done..].
        destruct H' as (i' & ch' & mt0 & H1 & H2 & H3 & H4 & H5). exists i', ch', mt0. split_and!; [done..|lia|lia|].
        intros name. rewrite H5, lookup_insert_ne; [done|]. intros [-> ->]%app_inj_tail. congruence.
Qed.
End one.

(** *** The calls of the file system *)
Lemma create_dir_eq (s : FS D) pn i ch mt name : nodes s !! pn = Some (MkNode i (TmpfsDir ch mt)) → ch !! name = None → 0 ≤ nlink mt → nlink mt + 1 < 2 ^ 32 → pn ≠ next_node s →
  create pn name Directory s = Ret (Okay (next_node s), MkFS
    (<[pn := MkNode i (TmpfsDir (<[name := next_node s]> ch) (set_nlink mt (nlink mt + 1)))]> (<[next_node s := MkNode (next_ino s) tmpfs_dir]> (nodes s)))
    (S (next_node s)) (wrapping_add 64 (next_ino s) 1) (MOUNT_TABLE s) (DEVFS s) (files s) (next_file s) (devices s)).
Proof.
  intros Hpn Hn H0 Hl Hne. unfold create, fbind, get_node. rewrite Hpn. bstep. cbn [kind]. rewrite bool_decide_eq_false_2 by (rewrite Hn; by intros []).
  unfold lift. rewrite (proj2 (add_Ret 32 (nlink mt) 1 (nlink mt + 1))) by lia. bstep. unfold new_node. bstep. unfold set_kind. cbn [nodes].
  rewrite lookup_insert_ne by done. rewrite Hpn. bstep. done.
Qed.

Lemma create_file_eq (s : FS D) pn i ch mt name : nodes s !! pn = Some (MkNode i (TmpfsDir ch mt)) → ch !! name = None → pn ≠ next_node s →
  create pn name File s = Ret (Okay (next_node s), MkFS
    (<[pn := MkNode i (TmpfsDir (<[name := next_node s]> ch) mt)]> (<[next_node s := MkNode (next_ino s) tmpfs_file]> (nodes s)))
    (S (next_node s)) (wrapping_add 64 (next_ino s) 1) (MOUNT_TABLE s) (DEVFS s) (files s) (next_file s) (devices s)).
Proof.
  intros Hpn Hn Hne. unfold create, fbind, get_node. rewrite Hpn. bstep. cbn [kind]. rewrite bool_decide_eq_false_2 by (rewrite Hn; by intros []).
  unfold new_node. bstep. unfold set_kind. cbn [nodes]. rewrite lookup_insert_ne by done. rewrite Hpn. bstep. done.
Qed.

Lemma create_symlink_eq (s : FS D) pn i ch mt name t : nodes s !! pn = Some (MkNode i (TmpfsDir ch mt)) → ch !! name = None → pn ≠ next_node s →
  create_symlink pn name t s = Ret (Okay (next_node s), MkFS
    (<[pn := MkNode i (TmpfsDir (<[name := next_node s]> ch) mt)]> (<[next_node s := MkNode (next_ino s) (TmpfsSymlink t)]> (nodes s)))
    (S (next_node s)) (wrapping_add 64 (next_ino s) 1) (MOUNT_TABLE s) (DEVFS s) (files s) (next_file s) (devices s)).
Proof.
  intros Hpn Hn Hne. unfold create_symlink, fbind, get_node. rewrite Hpn. bstep. cbn [kind]. rewrite bool_decide_eq_false_2 by (rewrite Hn; by intros []).
  unfold new_node. bstep. unfold set_kind. cbn [nodes]. rewrite lookup_insert_ne by done. rewrite Hpn. bstep. done.
Qed.

Lemma write_new_file (s : FS D) n i mt data : nodes s !! n = Some (MkNode i (TmpfsFile [] mt)) → Z.of_nat (length data) < 2 ^ 63 →
  node_write n 0 data s = Ret (Okay (Z.of_nat (length data)), set_nodes s (<[n := MkNode i (TmpfsFile data mt)]> (nodes s))) ∨ data = [].
Proof.
  intros Hn Hl. destruct data as [|x data]; [by right|left]. set (d := x :: data) in *. unfold node_write, fbind, get_node. rewrite Hn. bstep. cbn [kind].
  unfold lift. rewrite (proj2 (add_Ret 64 0 (Z.of_nat (length d)) (Z.of_nat (length d)))) by lia. bstep. rewrite (proj2 (Z.ltb_lt _ _)) by (simpl; lia).
  unfold vec_resize. rewrite (proj2 (Z.ltb_lt _ _)) by lia. bstep. unfold set_kind. rewrite Hn. bstep. unfold ok. do 4 f_equal. unfold overwrite, resize0. simpl. do 2 f_equal.
  rewrite Nat2Z.id, take_nil, Nat.sub_0_r. simpl. rewrite drop_ge by (rewrite length_replicate; simpl; lia). by rewrite app_nil_r.
Qed.

Lemma xbind_eq {A B} (m : xM A) (k : A → xM B) (s : FS D) a s1 : m s = Ret (inr a, s1) → xbind m k s = k a s1.
Proof. unfold xbind. by intros ->. Qed.

Lemma map_vfs_eq {A} (m : fsM D A) s a s1 : m s = Ret (Okay a, s1) → map_vfs m s = Ret (inr a, s1).
Proof. unfold map_vfs. by intros ->. Qed.

Section entry.
Context {HOK : FsHeadersOk FH} (s : FS D) (root : nat) (N : gmap (list str) nat) (T : tree) (links : Z) (R : represents s root N T links).
Context (ns : list str) (n : str) (m pm : Z) (e : Entry) (pn : nat) (i : Z) (ch : gmap str nat) (mt : TmpfsMetadata).
Context (Hnames : Forall is_name (ns ++ [n])) (HT : T !! ns = Some (CDir, pm)) (HTn : T !! (ns ++ [n]) = None).
Context (HN : N !! ns = Some pn) (Hpn : nodes s !! pn = Some (MkNode i (TmpfsDir ch mt))) (Hch : ch !! n = None) (Hl0 : 0 ≤ nlink mt ≤ links) (Hl2 : 2 ≤ links) (Hl : links + 1 < 2 ^ 32).

(** The state afterwards, whatever was made: the parent with a new child. *)
Lemma represents_new c s' v mt' : nodes s' = <[pn := MkNode i (TmpfsDir (<[n := next_node s]> ch) mt')]> (<[next_node s := v]> (nodes s)) →
  next_node s' = S (next_node s) → mode mt' = mode mt → 0 ≤ nlink mt' ≤ links + 1 →
  (∀ s'', nodes s'' !! next_node s = Some v → node_holds s'' (next_node s) (λ _, None) c m (links + 1)) →
  represents s' root (<[ns ++ [n] := next_node s]> N) (<[ns ++ [n] := (c, m)]> T) (links + 1).
Proof.
  intros Hs' Hnext Hmode Hlinks Hv. pose proof (rp_old _ _ _ _ _ R _ _ HN).
  eapply (represents_add s root N T links R s' ns n c m pm pn i ch mt mt'); try done.
  - by rewrite Hs', lookup_insert_eq.
  - intros j Hj1 Hj2. by rewrite Hs', !lookup_insert_ne.
  - apply Hv. rewrite Hs', lookup_insert_ne by lia. by rewrite lookup_insert_eq.
Qed.

Lemma swap_new (M : gmap nat VfsNode) v v' w : (pn < next_node s)%nat → <[next_node s := v']> (<[pn := w]> (<[next_node s := v]> M)) = <[pn := w]> (<[next_node s := v']> M).
Proof. intros H. rewrite (insert_insert_ne _ (next_node s) pn) by lia. by rewrite insert_insert_eq. Qed.

(** A new node for [c], with the mode set or refused. *)
Definition made (c : content) : Prop := ∃ s1 r s2,
  make_node pn n e s = Ret (inr (Some (next_node s)), s1) ∧ xtry (set_mode (next_node s) (c_mode e)) s1 = Ret (inr r, s2) ∧
  represents s2 root (<[ns ++ [n] := next_node s]> N) (<[ns ++ [n] := (c, m)]> T) (links + 1) ∧ MOUNT_TABLE s2 = MOUNT_TABLE s.

Lemma dir_made : entry_for (ns ++ [n]) CDir m e → made CDir.
Proof.
  intros [_ Hm Ht Hd]. pose proof (rp_old _ _ _ _ _ R _ _ HN) as Hlt. unfold made, make_node. rewrite Hm, Ht, Z.eqb_refl.
  unfold xbind, make_dir, xbind, xtry, look, reads, lookup. rewrite Hpn. bstep. cbn [kind entries_of]. rewrite Hch. bstep. unfold map_vfs.
  rewrite (create_dir_eq s pn i ch mt n) by (done || lia). bstep. unfold xok.
  eexists _, _, _. split; [done|]. unfold set_mode, fbind, get_node. cbn [nodes]. rewrite lookup_insert_ne, lookup_insert_eq by lia. bstep. cbn [kind tmpfs_dir].
  unfold set_kind. cbn [nodes]. rewrite lookup_insert_ne, lookup_insert_eq by lia. bstep. split; [done|]. split; [|done].
  eapply represents_new; [cbn [nodes set_nodes]; by apply swap_new|done|done|simpl; lia|]. intros s'' Hv. unfold node_holds. rewrite Hv. do 3 eexists. split; [done|]. simpl. split_and!; [done|lia|lia|done].
Qed.

Lemma link_made t : entry_for (ns ++ [n]) (CLink t) m e → made (CLink t).
Proof.
  intros [_ Hm Ht [Hd Hu]]. pose proof (rp_old _ _ _ _ _ R _ _ HN) as Hlt. destruct (@s_values FH HOK) as (S1 & S2 & S3 & S4 & _).
  unfold made, make_node. rewrite Hm, Ht, (proj2 (Z.eqb_neq S_IFLNK S_IFDIR)), Z.eqb_refl by lia. unfold from_utf8. rewrite Hd, Hu. unfold xbind, map_vfs.
  rewrite (create_symlink_eq s pn i ch mt n) by (done || lia). bstep. unfold xok.
  eexists _, _, _. split; [done|]. unfold xtry, set_mode, fbind, get_node. cbn [nodes]. rewrite lookup_insert_ne, lookup_insert_eq by lia. bstep. cbn [kind].
  split; [done|]. split; [|done]. eapply represents_new; [done..|simpl; lia|]. intros s'' Hv. unfold node_holds. rewrite Hv. by eexists.
Qed.

Lemma file_made d : entry_for (ns ++ [n]) (CFile d) m e → Z.of_nat (length d) < 2 ^ 63 → made (CFile d).
Proof.
  intros [_ Hm Ht [Hd _]] Hdata. pose proof (rp_old _ _ _ _ _ R _ _ HN) as Hlt. destruct (@s_values FH HOK) as (S1 & S2 & S3 & S4 & _).
  unfold made, make_node. rewrite Hm, Ht, (proj2 (Z.eqb_neq S_IFREG S_IFDIR)), (proj2 (Z.eqb_neq S_IFREG S_IFLNK)), Z.eqb_refl by lia.
  rewrite (xbind_eq _ _ _ _ _ (map_vfs_eq _ _ _ _ (create_file_eq s pn i ch mt n Hpn Hch ltac:(lia)))). set (s1 := MkFS _ _ _ _ _ _ _ _).
  assert (nodes s1 !! next_node s = Some (MkNode (next_ino s) tmpfs_file)) as Hs1 by (simpl; rewrite lookup_insert_ne, lookup_insert_eq by lia; done).
  assert (∃ z s2, (if bool_decide (c_data e = []) then xok 0 else map_vfs (node_write (next_node s) 0 (c_data e))) s1 = Ret (inr z, s2) ∧
    nodes s2 = <[next_node s := MkNode (next_ino s) (TmpfsFile d (Meta (Z.lor S_IFREG 0x1A4) 0 0 1))]> (nodes s1) ∧ next_node s2 = S (next_node s) ∧ MOUNT_TABLE s2 = MOUNT_TABLE s) as (z & s2 & Hw & Hn2 & Hx2 & Hm2).
  { rewrite Hd. clear Hd. destruct (write_new_file s1 (next_node s) _ _ d Hs1 Hdata) as [Hw| ->].
    - case_bool_decide as E; [subst d; eexists _, _; split; [done|]; split; [symmetry; by apply insert_id|done]|]. unfold map_vfs. rewrite Hw. bstep. eexists _, _. split; [done|]. by subst s1.
    - rewrite bool_decide_eq_true_2 by done. eexists _, _. split; [done|]. split; [symmetry; by apply insert_id|done]. }
  rewrite (xbind_eq _ _ _ _ _ Hw). unfold xok. eexists _, _, _. split; [done|]. unfold xtry, set_mode, fbind, get_node. rewrite Hn2, lookup_insert_eq. bstep. cbn [kind].
  unfold set_kind. rewrite Hn2, lookup_insert_eq. bstep. split; [done|]. split; [|done].
  eapply represents_new; [cbn [nodes set_nodes]; rewrite insert_insert_eq; subst s1; cbn [nodes]; by apply swap_new|done|done|lia|]. intros s'' Hv. unfold node_holds. rewrite Hv. by do 2 eexists.
Qed.
End entry.

(** An entry of the archive makes the next node of the tree. *)
Lemma extract_entry_ok {HOK : FsHeadersOk FH} s root N T links ns n c m pm e by_ino count : represents s root N T links → 2 ≤ links → links + 1 < 2 ^ 32 → 0 ≤ count → count + 1 < 2 ^ 64 →
  Forall is_name (ns ++ [n]) → T !! ns = Some (CDir, pm) → T !! (ns ++ [n]) = None → entry_for (ns ++ [n]) c m e → Z.of_nat (length (c_data e)) < 2 ^ 63 →
  ∃ s', extract_entry root by_ino count e s = Ret (inr (by_ino, count + 1), s') ∧ MOUNT_TABLE s' = MOUNT_TABLE s ∧
    represents s' root (<[ns ++ [n] := next_node s]> N) (<[ns ++ [n] := (c, m)]> T) (links + 1).
Proof.
  intros R Hl2 Hl Hc0 Hc Hnames HT HTn He Hdata. pose proof Hnames as [Hns [Hn _]%Forall_cons]%Forall_app.
  destruct (rp_dir s root N T links R ns pm HT) as (pn & i & ch & mt & HN & Hpn & _ & Hl1 & Hl0 & Hch).
  assert (ch !! n = None) as Hchn. { rewrite Hch. apply eq_None_not_Some. intros H%(rp_dom _ _ _ _ _ R). rewrite HTn in H. by destruct H. }
  assert (made s root N T links ns n m e pn c) as (s1 & r & s2 & Hmake & Hmode & R2 & Hmt).
  { destruct c as [|d|t]; [eapply dir_made|eapply file_made|eapply link_made]; try done. by destruct He as [_ _ _ [<- _]]. }
  destruct (ensure_dir_known s root N T links R ns pm Hns HT) as (pn' & HN' & Hens). assert (pn' = pn) as -> by congruence.
  pose proof (ef_name _ _ _ _ He) as Hw. apply normalize_written in Hw; [|done|by destruct ns].
  destruct (@s_values FH HOK) as (S1 & S2 & S3 & S4 & S5 & S6 & S7 & S8).
  unfold extract_entry. rewrite Hw, bool_decide_eq_false_2 by (intros E%rel_path_nil; [by destruct ns|done]). rewrite split_parent_rel by done.
  assert (is_skipped (Z.land (c_mode e) S_IFMT) = false) as ->.
  { rewrite (ef_mode _ _ _ _ He), (ef_type _ _ _ _ He). unfold is_skipped. rewrite S2, S3, S4, S5, S6, S7, S8. by destruct c. }
  assert ((1 <? c_nlink e) && (Z.land (c_mode e) S_IFMT =? S_IFREG) = false) as ->.
  { rewrite (ef_mode _ _ _ _ He), (ef_type _ _ _ _ He). destruct c; rewrite ?S2, ?S3, ?S4; [apply andb_false_r| |apply andb_false_r]. destruct He as [_ _ _ [_ Hn1]]. by rewrite (proj2 (Z.ltb_ge _ _)). }
  cbn [andb orb]. unfold xbind. rewrite Hens. bstep. rewrite Hmake. bstep. rewrite Hmode. bstep. unfold map_vfs, lift.
  rewrite (proj2 (add_Ret 64 count 1 (count + 1))) by lia. bstep. eexists. split; [done|]. done.
Qed.

(** ** What is found below a node *)
Definition child_of (s : FS D) (n : nat) (name : str) : option nat :=
  match lookup s n name with Ret (inr m) => Some m | _ => None end.

(** The names from [n] on, with no link followed. *)
Fixpoint find (s : FS D) (n : nat) (names : list str) : option nat :=
  match names with
  | [] => Some n
  | x :: names => match child_of s n x with Some m => find s m names | None => None end
  end.

(** The content and, but for a symbolic link, which has none, the mode of a node. *)
Definition holds (s : FS D) (n : nat) (c : content) (m : Z) : Prop :=
  match c with
  | CDir => ∃ i ch mt, nodes s !! n = Some (MkNode i (TmpfsDir ch mt)) ∧ mode mt = m
  | CFile d => ∃ i mt, nodes s !! n = Some (MkNode i (TmpfsFile d mt)) ∧ mode mt = m
  | CLink t => ∃ i, nodes s !! n = Some (MkNode i (TmpfsSymlink t))
  end.

(** Exactly the tree [T] lies below [root]. *)
Definition tree_below (s : FS D) (root : nat) (T : tree) : Prop := ∀ p,
  match T !! p with
  | Some (c, m) => ∃ n, find s root p = Some n ∧ holds s n c m
  | None => find s root p = None
  end.

Lemma find_snoc s names x : ∀ n, find s n (names ++ [x]) = match find s n names with Some m => child_of s m x | None => None end.
Proof.
  induction names as [|y names IH]; intros n; simpl; [by destruct (child_of s n x)|]. destruct (child_of s n y); [apply IH|done].
Qed.

Lemma find_represents s root N T links p : represents s root N T links → find s root p = N !! p.
Proof.
  intros R. induction p as [|x p IH] using rev_ind; [symmetry; apply R|]. rewrite find_snoc, IH. destruct (N !! p) as [n|] eqn:Hn.
  - destruct (proj1 (rp_dom _ _ _ _ _ R p)) as [[c m] HT]; [by rewrite Hn|]. pose proof (rp_node _ _ _ _ _ R p n c m Hn HT) as H. unfold child_of, lookup.
    assert (c ≠ CDir → None = N !! (p ++ [x])) as Hnone.
    { intros Hc. symmetry. apply eq_None_not_Some. intros Hx%(rp_dom _ _ _ _ _ R)%(rp_parent _ _ _ _ _ R). destruct Hx as [? ?]. congruence. }
    destruct c; simpl in H.
    + destruct H as (i & ch & mt & -> & _ & _ & _ & Hch). bstep. cbn [kind entries_of]. rewrite Hch. by destruct (N !! (p ++ [x])).
    + destruct H as (i & mt & -> & _). by apply Hnone.
    + destruct H as (i & ->). by apply Hnone.
  - symmetry. apply eq_None_not_Some. intros Hx%(rp_dom _ _ _ _ _ R)%(rp_parent _ _ _ _ _ R). destruct Hx as [m Hx].
    destruct (proj2 (rp_dom _ _ _ _ _ R p)) as [? ?]; [by rewrite Hx|]. congruence.
Qed.

Lemma represents_tree s root N T links : represents s root N T links → tree_below s root T.
Proof.
  intros R p. rewrite (find_represents s root N T links p R). destruct (T !! p) as [[c m]|] eqn:HT.
  - destruct (proj2 (rp_dom _ _ _ _ _ R p)) as [n Hn]; [by rewrite HT|]. exists n. split; [done|]. pose proof (rp_node _ _ _ _ _ R p n c m Hn HT) as H.
    destruct c; simpl in *; [naive_solver|done..].
  - apply eq_None_not_Some. intros H%(rp_dom _ _ _ _ _ R). rewrite HT in H. by destruct H.
Qed.

(** ** The archive of a tree makes the tree *)
Lemma extract_items_ok {HOK : FsHeadersOk FH} root T es T' : grows T es T' → ∀ s N links by_ino count, represents s root N T links → 2 ≤ links → links + Z.of_nat (length es) < 2 ^ 32 →
  0 ≤ count → count + Z.of_nat (length es) < 2 ^ 63 → Forall (λ e, Z.of_nat (length (c_data e)) < 2 ^ 63) es →
  ∃ s' N', extract_items root (inr <$> es) by_ino count s = Ret (inr (count + Z.of_nat (size T') - Z.of_nat (size T)), s') ∧ MOUNT_TABLE s' = MOUNT_TABLE s ∧
    represents s' root N' T' (links + Z.of_nat (size T') - Z.of_nat (size T)).
Proof.
  induction 1 as [T|T e es T' Hdot _ IH|T ns n c m pm e es T' Hnames HT HTn He _ IH]; intros s N links by_ino count R Hl2 Hl Hc0 Hc Hdata.
  - exists s, N. replace (count + _ - _) with count by lia. replace (links + _ - _) with links by lia. done.
  - apply Forall_cons in Hdata as [_ Hdata]. cbn [length] in *. cbn [fmap list_fmap extract_items]. unfold xbind, extract_entry. rewrite Hdot. change (normalize dot) with (@nil Z).
    rewrite bool_decide_eq_true_2 by done. cbn [orb]. unfold xok at 1. bstep. apply (IH s N); [done|lia..|done].
  - apply Forall_cons in Hdata as [Hd Hdata]. cbn [length] in *. cbn [fmap list_fmap extract_items].
    destruct (extract_entry_ok s root N T links ns n c m pm e by_ino count) as (s1 & H1 & Hm1 & R1); [done|lia..|done|done|done|done|done|].
    rewrite (xbind_eq _ _ _ _ _ H1). cbv beta iota.
    destruct (IH s1 (<[ns ++ [n] := next_node s]> N) (links + 1) by_ino (count + 1)) as (s2 & N2 & H2 & Hm2 & R2); [done|lia..|done|].
    rewrite map_size_insert_None in H2, R2 by done. exists s2, N2.
    replace (count + Z.of_nat (size T') - Z.of_nat (size T)) with (count + 1 + Z.of_nat (size T') - Z.of_nat (S (size T))) by lia. split_and!; [done|congruence|].
    replace (links + Z.of_nat (size T') - Z.of_nat (size T)) with (links + 1 + Z.of_nat (size T') - Z.of_nat (S (size T))) by lia. done.
Qed.

Lemma represents_empty (s : FS D) root i mt : nodes s !! root = Some (MkNode i (TmpfsDir ∅ mt)) → (root < next_node s)%nat → 0 ≤ nlink mt ≤ 2 →
  represents s root {[ [] := root ]} {[ [] := (CDir, mode mt) ]} 2.
Proof.
  intros Hn Hr Hl. split.
  - by rewrite lookup_singleton_eq.
  - intros p. destruct (decide (p = [])) as [->|]; [rewrite !lookup_singleton_eq; split; by eexists|]. by rewrite !lookup_singleton_ne.
  - by intros p q n [<- _]%lookup_singleton_Some [<- _]%lookup_singleton_Some.
  - by intros p n [_ <-]%lookup_singleton_Some.
  - intros p x [? [H _]%lookup_singleton_Some]. by destruct p.
  - intros p n c m [<- <-]%lookup_singleton_Some [_ [= <- <-]]%lookup_singleton_Some. exists i, ∅, mt. split_and!; [done..|lia|lia|].
    intros name. rewrite lookup_empty, lookup_singleton_ne; done.
Qed.

Lemma collect_more fuel : ∀ k it l, collect fuel it = Ret l → collect (fuel + k) it = Ret l.
Proof.
  induction fuel as [|fuel IH]; intros k it l; simpl; [done|]. intros ([r it'] & -> & H)%bind_Ret. bstep. destruct r; [|done].
  apply bind_Ret in H as (rest & Hr%(IH k) & H). by rewrite Hr.
Qed.

Lemma collect_det f1 f2 it l1 l2 : collect f1 it = Ret l1 → collect f2 it = Ret l2 → l1 = l2.
Proof.
  intros H1 H2. apply (collect_more _ f2) in H1. apply (collect_more _ f1) in H2. rewrite Nat.add_comm in H2. congruence.
Qed.

(** C32: Unpacking the archive of a tree makes the tree: if the records of a newc archive
    list the directories, regular files (of one link) and symbolic links of a tree, a
    directory before what is in it, then [extract_into] with an empty root directory
    returns the number of paths, and below the root there is exactly that tree, with the
    contents and the modes of the archive; the mounts are as before. *)
Theorem extract_correct {HOK : FsHeadersOk FH} rs tr rest (s : FS D) root i mt T :
  Forall record_ok rs → Forall (λ r, c_name (r_entry r) ≠ TRAILER) rs → record_ok tr → c_name (r_entry tr) = TRAILER →
  let archive := archive_bytes rs ++ record_bytes tr ++ rest in Z.of_nat (length archive) < 2 ^ 63 → Z.of_nat (length rs) < 2 ^ 32 - 2 →
  nodes s !! root = Some (MkNode i (TmpfsDir ∅ mt)) → (root < next_node s)%nat → 0 ≤ nlink mt ≤ 2 →
  grows {[ [] := (CDir, mode mt) ]} (r_entry <$> rs) T →
  ∃ s', extract_into archive root s = Ret (inr (Z.of_nat (size T) - 1), s') ∧ tree_below s' root T ∧ MOUNT_TABLE s' = MOUNT_TABLE s.
Proof.
  intros Hrs Hnt Htr Htn archive Hl Hn Hroot Hlt Hlinks Hg. destruct (collect_returns archive Hl) as (l & Hc & _).
  assert (collect (S (length rs)) (iter archive) = Ret (inr <$> (r_entry <$> rs))) as Hc'.
  { apply (collect_records rs tr []); [rewrite Forall_and|..]; done. }
  pose proof (collect_det _ _ _ _ _ Hc Hc') as ->.
  destruct (extract_items_ok root _ _ T Hg s {[ [] := root ]} 2 ∅ 0) as (s' & N' & H1 & H2 & H3).
  - by apply (represents_empty s root i mt).
  - lia.
  - rewrite length_fmap. lia.
  - lia.
  - rewrite length_fmap. lia.
  - apply Forall_fmap. eapply Forall_impl; [exact Hrs|]. intros r [_ [[_ Hf] _] _ _]. simpl. lia.
  - exists s'. rewrite map_size_singleton in H1. unfold extract_into. rewrite (extract_loop_items _ _ _ _ _ _ _ Hc). rewrite H1. split_and!; [done|by eapply represents_tree|done].
Qed.
End represents.

(** ** An archive *)
Section example.
#[local] Existing Instance linux_fs.
#[local] Existing Instance linux_fs_ok.

Definition record_of (ino mode nlink : Z) (name : str) (data : list Z) : NewcRecord :=
  MkRecord (MkCpio ino mode nlink name data) (replicate 16 48) (replicate 8 48) (replicate 32 48) (replicate 8 48).

Definition trailer : NewcRecord := record_of 0 0 1 TRAILER [].

Definition small_archive : list NewcRecord :=
  [record_of 1 0x41ED 3 (b ".") []; record_of 2 0x41ED 2 (b "./bin") []; record_of 3 0x81ED 1 (b "./bin/init") [127; 69]; record_of 4 0xA1FF 1 (b "./init") (b "bin/init")].

Definition small_tree : tree :=
  <[ [b "init"] := (CLink (b "bin/init"), 0xA1FF) ]> (<[ [b "bin"; b "init"] := (CFile [127; 69], 0x81ED) ]> (<[ [b "bin"] := (CDir, 0x41ED) ]> {[ [] := (CDir, 0x41ED) ]})).

Lemma small_grows : grows {[ [] := (CDir, 0x41ED) ]} (r_entry <$> small_archive) small_tree.
Proof.
  apply grows_dot; [done|].
  eapply (grows_entry _ [] (b "bin") CDir); [by apply (bool_decide_unpack _); vm_compute|by vm_compute|by vm_compute| |]; [split; [right; by left|done..]|].
  eapply (grows_entry _ [b "bin"] (b "init") (CFile [127; 69])); [by apply (bool_decide_unpack _); vm_compute|by vm_compute|by vm_compute| |]; [split; [right; by left|done..|by split]|].
  eapply (grows_entry _ [] (b "init") (CLink (b "bin/init"))); [by apply (bool_decide_unpack _); vm_compute|by vm_compute|by vm_compute| |]; [split; [right; by left|done..|by split]|].
  apply grows_nil.
Qed.

Lemma extract_correct_witness : ∃ s', extract_into (archive_bytes small_archive ++ record_bytes trailer ++ replicate 36 0) 0 fs1 = Ret (inr 3, s') ∧
  tree_below s' 0 small_tree ∧ MOUNT_TABLE s' = MOUNT_TABLE fs1.
Proof.
  apply (extract_correct small_archive trailer (replicate 36 0) fs1 0 1 (Meta 0x41ED 0 0 2) small_tree).
  - repeat constructor; vm_compute; done.
  - apply (bool_decide_unpack _). vm_compute. done.
  - repeat constructor; vm_compute; done.
  - done.
  - vm_compute. done.
  - vm_compute. done.
  - vm_compute. done.
  - vm_compute. lia.
  - vm_compute. done.
  - apply small_grows.
Defined.

(** Two names of one file, as cpio writes them: the data comes with the last name. *)
Definition linked_archive (first last : list Z) : list Z :=
  archive_bytes [record_of 5 0x81A4 2 (b "a") first; record_of 5 0x81A4 2 (b "b") last] ++ record_bytes trailer.

(** The kind of the node with the given name in the root directory after unpacking. *)
Definition unpacked (archive : list Z) (name : str) : option (nat * NodeKind) :=
  match extract_into archive 0 fs1 with
  | Ret (inr _, s) => n ← find s 0 [name]; v ← nodes s !! n; Some (n, kind v)
  | _ => None
  end.

(** With the data at the first name, both names are one file; with the data at the last
    name, the first one stays empty and the two are different files. *)
Lemma hard_links_by_first_data :
  fst <$> unpacked (linked_archive [104; 105] []) (b "a") = fst <$> unpacked (linked_archive [104; 105] []) (b "b") ∧
  fst <$> unpacked (linked_archive [] [104; 105]) (b "a") ≠ fst <$> unpacked (linked_archive [] [104; 105]) (b "b") ∧
  snd <$> unpacked (linked_archive [] [104; 105]) (b "a") = Some (TmpfsFile [] (Meta 0x81A4 0 0 1)).
Proof. vm_compute. split_and!; congruence. Qed.
End example.
