(* ===== verification/DeviceTree.v ===== *)
(** The device tree: crates/kernel/src/device_tree/mod.rs, the reader of the flattened
    device tree that the boot loader passes, and bus_context.rs, what a driver asks of
    its node.

    [DeviceTree] holds the blob and its address; a [Node] is a position in the structure
    block behind the node's name. Loops have fuel: the size of the block, since every
    token takes four bytes at least. *)
From S2P Require Import Prelude KUtil Bytes Parser Paths Cpio.

Definition FDT_MAGIC : Z := 0xd00dfeed.
Definition FDT_VERSION : Z := 17.

Record DeviceTree := MkTree { dt_addr : Z; dt_data : list Z }.

(** ** The header *)
(** [ref_from_bytes] of [size] bytes at [offset], aligned to [align]. *)
Definition ref_from_bytes (dt : DeviceTree) (offset : Z) (size : nat) (align : Z) : outcome (list Z) :=
  let d := drop (Z.to_nat offset) (dt_data dt) in
  _ ← rassert (bool_decide (size ≤ length d)%nat);
  _ ← rassert ((dt_addr dt + offset) mod align =? 0);
  Ret (take size d).

(** A field of [Header], by its offset. *)
Definition header_field (dt : DeviceTree) (offset : nat) : outcome Z :=
  h ← ref_from_bytes dt 0 40 4; Ret (be_combine (take 4 (drop offset h))).
Definition magic := λ dt, header_field dt 0.
Definition totalsize := λ dt, header_field dt 4.
Definition off_dt_struct := λ dt, header_field dt 8.
Definition off_dt_strings := λ dt, header_field dt 12.
Definition off_mem_rsvmap := λ dt, header_field dt 16.
Definition version := λ dt, header_field dt 20.
Definition size_dt_strings := λ dt, header_field dt 32.
Definition size_dt_struct := λ dt, header_field dt 36.

(** [as_static_slice]: [n] bytes of memory from [p] on. *)
Definition memory_slice (memory : Z → Z) (p : Z) (n : nat) : list Z := (λ i, memory (p + Z.of_nat i)) <$> seq 0 n.

Definition dt_new (memory : Z → Z) (pointer : Z) : outcome DeviceTree :=
  _ ← rassert (negb (pointer =? 0));
  _ ← rassert (pointer mod 4 =? 0);
  let header := MkTree pointer (memory_slice memory pointer 40) in
  m ← magic header;
  _ ← rassert (m =? FDT_MAGIC);
  v ← version header;
  _ ← rassert (v =? FDT_VERSION);
  total_size ← totalsize header;
  Ret (MkTree pointer (memory_slice memory pointer (Z.to_nat total_size))).

(** [&data[first..first + size]] *)
Definition data_slice (dt : DeviceTree) (first size : Z) : outcome (list Z) := expect (get_range (dt_data dt) first (first + size)).

(** The entries of the reservation block before the empty one: how many. *)
Fixpoint reserved_loop (fuel : nat) (dt : DeviceTree) (offset : Z) (len max_entries : Z) : outcome Z :=
  match fuel with
  | O => Panic
  | S fuel =>
      if max_entries <=? len then Ret len
      else
        entry ← ref_from_bytes dt (offset + len * 16) 16 8;
        if (le_combine (take 8 entry) =? 0) && (le_combine (drop 8 entry) =? 0) then Ret len
        else reserved_loop fuel dt offset (len + 1) max_entries
  end.

Definition get_reserved_areas (dt : DeviceTree) : outcome (list (Z * Z)) :=
  offset ← off_mem_rsvmap dt;
  _ ← rassert (offset <=? Z.of_nat (length (dt_data dt)));
  let max_entries := (Z.of_nat (length (dt_data dt)) - offset) / 16 in
  len ← reserved_loop (S (Z.to_nat max_entries)) dt offset 0 max_entries;
  _ ← rassert ((dt_addr dt + offset) mod 8 =? 0);
  Ret ((λ i, let e := drop (Z.to_nat offset + 16 * i) (dt_data dt) in (le_combine (take 8 e), le_combine (take 8 (drop 8 e)))) <$> seq 0 (Z.to_nat len)).

Definition get_string (dt : DeviceTree) (offset : Z) : outcome (option str) :=
  strings_offset ← off_dt_strings dt;
  strings_size ← size_dt_strings dt;
  if strings_size <=? offset then Ret None
  else
    strings_data ← data_slice dt strings_offset strings_size;
    Ret (fst (consume_str (cb_new (drop (Z.to_nat offset) strings_data)))).

(** ** Tokens *)
Definition FDT_BEGIN_NODE : Z := 1.
Definition FDT_END_NODE : Z := 2.
Definition FDT_PROP : Z := 3.
Definition FDT_NOP : Z := 4.
Definition FDT_END : Z := 9.

Inductive FdtToken := BeginNode (name : str) | EndNode | PropToken (name : str) (data : list Z) | Nop | EndToken.

Record Node := MkDtNode {
  n_name : str;
  address_cells : option Z; size_cells : option Z;
  parent_address_cells : option Z; parent_size_cells : option Z;
  structure_block : ConsumableBuffer;
}.

Definition set_block (n : Node) (c : ConsumableBuffer) : Node :=
  MkDtNode (n_name n) (address_cells n) (size_cells n) (parent_address_cells n) (parent_size_cells n) c.
Definition set_parent_cells (n : Node) (a s : option Z) : Node :=
  MkDtNode (n_name n) (address_cells n) (size_cells n) a s (structure_block n).

Section tree.
Context (dt : DeviceTree).

(** [Iterator::next] of a node, on its structure block. *)
Definition next_token (sb : ConsumableBuffer) : outcome (option FdtToken * ConsumableBuffer) :=
  if cb_empty sb then Ret (None, sb)
  else
    '(v, sb) ← consume_be sb 4;
    match v with
    | None => Ret (None, sb)
    | Some v =>
        if v =? FDT_BEGIN_NODE then
          let '(name, sb) := consume_str sb in
          match name with
          | None => Ret (None, sb)
          | Some name => '(_, sb) ← consume_alignment sb 4; Ret (Some (BeginNode name), sb)
          end
        else if v =? FDT_END_NODE then Ret (Some EndNode, sb)
        else if v =? FDT_PROP then
          '(len, sb) ← consume_be sb 4;
          match len with
          | None => Ret (None, sb)
          | Some len =>
              '(string_offset, sb) ← consume_be sb 4;
              match string_offset with
              | None => Ret (None, sb)
              | Some string_offset =>
                  '(data, sb) ← consume_slice sb len;
                  match data with
                  | None => Ret (None, sb)
                  | Some data =>
                      '(_, sb) ← consume_alignment sb 4;
                      string ← get_string dt string_offset;
                      Ret (option_map (λ s, PropToken s data) string, sb)
                  end
              end
          end
        else if v =? FDT_NOP then Ret (Some Nop, sb)
        else if v =? FDT_END then _ ← rassert (cb_empty sb); Ret (Some EndToken, sb)
        else Panic
    end.

(** Enough turns for any loop over the tokens of a block. *)
Definition token_fuel (sb : ConsumableBuffer) : nat := S (length (buffer sb)).

Fixpoint property_loop (fuel : nat) (sb : ConsumableBuffer) (name : str) : outcome (option (list Z)) :=
  match fuel with
  | O => Panic
  | S fuel =>
      '(token, sb) ← next_token sb;
      match token with
      | Some (PropToken prop_name data) => if bool_decide (prop_name = name) then Ret (Some data) else property_loop fuel sb name
      | Some Nop => property_loop fuel sb name
      | _ => Ret None
      end
  end.

(** The data of the property; the buffer over it starts at its front. *)
Definition get_property (n : Node) (name : str) : outcome (option (list Z)) :=
  property_loop (token_fuel (structure_block n)) (structure_block n) name.

(** [consume_sized_type::<BigEndian<u32>>] at the front of a property. *)
Definition be_u32 (data : option (list Z)) : outcome (option Z) :=
  match data with
  | None => Ret None
  | Some d => '(v, _) ← consume_be (cb_new d) 4; Ret v
  end.

Definition node_new (name : str) (sb : ConsumableBuffer) : outcome Node :=
  let self := MkDtNode name None None None None sb in
  a ← get_property self (b "#address-cells"); a ← be_u32 a;
  s ← get_property self (b "#size-cells"); s ← be_u32 s;
  Ret (MkDtNode name a s None None sb).

(** [name.split('@').next()] *)
Fixpoint base_name (name : str) : str :=
  match name with [] => [] | c :: name => if c =? 64 then [] else c :: base_name name end.

(** The cells that a [Prop] token changes; [None] when its data is too short. *)
Definition cells_step (prop : str) (data : list Z) (cells : option Z * option Z) : outcome (option (option Z * option Z)) :=
  if bool_decide (prop = b "#address-cells") then v ← be_u32 (Some data); Ret (option_map (λ x, (Some x, snd cells)) v)
  else if bool_decide (prop = b "#size-cells") then v ← be_u32 (Some data); Ret (option_map (λ x, (fst cells, Some x)) v)
  else Ret (Some cells).

(** The loop of [find_node_recursive] and that of [find_node_by_phandle_recursive]:
    [found] tells the node that is looked for, [cells] the cells of this node so far,
    and [start] the cells with which the loop of a child starts. Returns what was found
    and the node with its block advanced. *)
Fixpoint search_loop (found : Node → outcome bool) (start : Node → option Z * option Z) (fuel : nat) (self : Node) (cells : option Z * option Z)
    : outcome (option Node * Node) :=
  match fuel with
  | O => Panic
  | S fuel =>
      '(token, sb) ← next_token (structure_block self);
      let self := set_block self sb in
      match token with
      | None => Ret (None, self)
      | Some (BeginNode node_name) =>
          node ← node_new node_name sb;
          let node := set_parent_cells node (fst cells) (snd cells) in
          here ← found node;
          '(r, node) ← (if here : bool then Ret (Some node, node) else search_loop found start fuel node (start node));
          match r with
          | Some target => Ret (Some target, self)
          | None => search_loop found start fuel (set_block self (structure_block node)) cells
          end
      | Some (PropToken prop data) =>
          c ← cells_step prop data cells;
          match c with
          | None => Ret (None, self)
          | Some cells => search_loop found start fuel self cells
          end
      | Some Nop => search_loop found start fuel self cells
      | Some EndNode | Some EndToken => Ret (None, self)
      end
  end.

Definition search (found : Node → outcome bool) (start : Node → option Z * option Z) (self : Node) : outcome (option Node) :=
  here ← found self;
  if here : bool then Ret (Some self)
  else '(r, _) ← search_loop found start (token_fuel (structure_block self)) self (start self); Ret r.

Definition is_named (needle name : str) : bool := bool_decide (base_name name = needle).

Definition find_node (self : Node) (needle : str) : outcome (option Node) :=
  search (λ n, Ret (is_named needle (n_name n))) (λ _, (None, None)) self.

Definition find_node_by_phandle (self : Node) (target_phandle : Z) : outcome (option Node) :=
  search (λ n, p ← get_property n (b "phandle"); v ← be_u32 p; Ret (bool_decide (v = Some target_phandle)))
    (λ n, (address_cells n, size_cells n)) self.

Definition root_node : outcome Node :=
  offset ← off_dt_struct dt;
  size ← size_dt_struct dt;
  data ← data_slice dt offset size;
  fake_node ← node_new (b "fake_node") (cb_new data);
  r ← find_node fake_node [];
  expect r.

(** ** Children *)
(** The inner loop of [ChildrenIterator::next]: past the end of a child. *)
Fixpoint skip_child (fuel : nat) (sb : ConsumableBuffer) (depth : Z) : outcome (bool * ConsumableBuffer) :=
  match fuel with
  | O => Panic
  | S fuel =>
      '(token, sb) ← next_token sb;
      match token with
      | None | Some EndToken => Ret (false, sb)
      | Some (BeginNode _) => d ← add 32 depth 1; skip_child fuel sb d
      | Some EndNode => if depth =? 0 then Ret (true, sb) else d ← sub depth 1; skip_child fuel sb d
      | Some _ => skip_child fuel sb depth
      end
  end.

Fixpoint next_child (fuel : nat) (parent : Node) : outcome (option Node * Node) :=
  match fuel with
  | O => Panic
  | S fuel =>
      '(token, sb) ← next_token (structure_block parent);
      let parent := set_block parent sb in
      match token with
      | Some (BeginNode name) =>
          child ← node_new name sb;
          let child := set_parent_cells child (address_cells parent) (size_cells parent) in
          '(complete, sb) ← skip_child (token_fuel sb) sb 0;
          Ret (if complete : bool then Some child else None, set_block parent sb)
      | Some (PropToken _ _) | Some Nop => next_child fuel parent
      | _ => Ret (None, parent)
      end
  end.

(** The children, as a [for] loop over the iterator gets them. *)
Fixpoint children_loop (fuel : nat) (parent : Node) : outcome (list Node) :=
  match fuel with
  | O => Panic
  | S fuel =>
      '(c, parent) ← next_child (token_fuel (structure_block parent)) parent;
      match c with
      | None => Ret []
      | Some child => rest ← children_loop fuel parent; Ret (child :: rest)
      end
  end.

Definition children (n : Node) : outcome (list Node) := children_loop (token_fuel (structure_block n)) n.

(** ** The [reg] property *)
Record Reg := MkReg { r_address : Z; r_size : Z }.

(** A number of one or two cells. *)
Definition consume_cells (cells : Z) (buf : ConsumableBuffer) : outcome (option Z * ConsumableBuffer) :=
  if cells =? 1 then consume_be buf 4 else if cells =? 2 then consume_be buf 8 else Panic.

Definition parse_one_reg (n : Node) (buf : ConsumableBuffer) : outcome (option Reg * ConsumableBuffer) :=
  match parent_address_cells n with
  | None => Ret (None, buf)
  | Some ac =>
      '(address, buf) ← consume_cells ac buf;
      match address, parent_size_cells n with
      | Some address, Some sc =>
          '(size, buf) ← consume_cells sc buf;
          Ret (option_map (MkReg address) size, buf)
      | _, _ => Ret (None, buf)
      end
  end.

Definition parse_reg_property (n : Node) : outcome (option Reg) :=
  p ← get_property n (b "reg");
  match p with
  | None => Ret None
  | Some d => '(r, _) ← parse_one_reg n (cb_new d); Ret r
  end.

Fixpoint regs_loop (fuel : nat) (n : Node) (buf : ConsumableBuffer) : outcome (list Reg) :=
  match fuel with
  | O => Panic
  | S fuel =>
      '(r, buf) ← parse_one_reg n buf;
      match r with
      | None => Ret []
      | Some reg => rest ← regs_loop fuel n buf; Ret (reg :: rest)
      end
  end.

Definition parse_all_reg_properties (n : Node) : outcome (list Reg) :=
  p ← get_property n (b "reg");
  match p with
  | None => Ret []
  | Some d => regs_loop (S (length d)) n (cb_new d)
  end.

(** [[first, last)] lies in [reg]. *)
Definition in_reg (first last : Z) (reg : Reg) : bool :=
  (r_address reg <=? first) && (last <=? Z.min (r_address reg + r_size reg) (2 ^ 64 - 1)).

Fixpoint in_memory_nodes (first last : Z) (nodes : list Node) : outcome bool :=
  match nodes with
  | [] => Ret false
  | child :: nodes =>
      if negb (is_named (b "memory") (n_name child)) then in_memory_nodes first last nodes
      else
        regs ← parse_all_reg_properties child;
        if existsb (in_reg first last) regs then Ret true else in_memory_nodes first last nodes
  end.

Definition range_in_ram (first last : Z) : outcome bool :=
  if last <=? first then Ret false
  else root ← root_node; cs ← children root; in_memory_nodes first last cs.

(** ** What drivers ask of their node: [DtBusContextExt] *)
Definition compatible (n : Node) : outcome (option str) :=
  p ← get_property n (b "compatible"); Ret (match p with None => None | Some d => fst (consume_str (cb_new d)) end).

Definition first_interrupt (n : Node) : outcome (option Z) := p ← get_property n (b "interrupts"); be_u32 p.

Definition property_bytes (n : Node) (name : str) : outcome (option (list Z)) := get_property n name.

(** ** The initial ram disk, from initramfs/mod.rs *)
Definition read_initrd_addr (data : list Z) : outcome (option Z) :=
  if bool_decide (length data = 4%nat) then '(v, _) ← consume_be (cb_new data) 4; Ret v
  else if bool_decide (length data = 8%nat) then '(v, _) ← consume_be (cb_new data) 8; Ret v
  else Ret None.

Definition initrd_addr (chosen : Node) (name : str) : outcome (option Z) :=
  p ← get_property chosen name;
  match p with None => Ret None | Some d => read_initrd_addr d end.

Definition find_initrd_range : outcome (option (Z * Z)) :=
  root ← root_node;
  chosen ← find_node root (b "chosen");
  match chosen with
  | None => Ret None
  | Some chosen =>
      first ← initrd_addr chosen (b "linux,initrd-start");
      match first with
      | None => Ret None
      | Some first =>
          last ← initrd_addr chosen (b "linux,initrd-end");
          Ret (match last with
               | None => None
               | Some last => if last <=? first then None else Some (first, last)
               end)
      end
  end.

Definition find_initrd (memory : Z → Z) : outcome (option (list Z)) :=
  r ← find_initrd_range;
  match r with
  | None => Ret None
  | Some (first, last) =>
      let len := Z.max 0 (last - first) in
      if len =? 0 then Ret None
      else
        ram ← range_in_ram first last;
        _ ← rassert ram;
        Ret (Some (memory_slice memory first (Z.to_nat len)))
  end.
End tree.
