(* ===== verification/DeviceTreeTheorems.v ===== *)
(** The reader of device trees finds what a tree has: trees as data, their flattening as
    the devicetree specification gives it, and what [find_node], [get_property] and
    [range_in_ram] return on the flattening. *)
From S2P Require Import Prelude KUtil Bytes PacketTheorems Parser Paths Cpio DeviceTree.

(** ** Tokens as bytes *)
Section encoding.
Context (dt : DeviceTree) (offset_of : str → Z).

Definition be4 (v : Z) : list Z := be_bytes 4 v.

Definition token_bytes (t : FdtToken) : list Z :=
  match t with
  | BeginNode name => be4 FDT_BEGIN_NODE ++ name ++ [0] ++ pad4 (length name + 1)
  | EndNode => be4 FDT_END_NODE
  | PropToken name data => be4 FDT_PROP ++ be4 (Z.of_nat (length data)) ++ be4 (offset_of name) ++ data ++ pad4 (length data)
  | Nop => be4 FDT_NOP
  | EndToken => be4 FDT_END
  end.

(** Names are strings; the name of a property lies in the strings block. *)
Definition token_ok (t : FdtToken) : Prop :=
  match t with
  | BeginNode name => (0 ∉ name) ∧ utf8_valid name = true
  | PropToken name data => Z.of_nat (length data) < 2 ^ 32 ∧ 0 ≤ offset_of name < 2 ^ 32 ∧ get_string dt (offset_of name) = Ret (Some name)
  | _ => True
  end.

(** The tokens [l] follow in the block. *)
Definition yields (c : ConsumableBuffer) (l : list FdtToken) : Prop :=
  (∃ pre, c = CB (pre ++ mjoin (token_bytes <$> l)) (length pre) ∧ Z.of_nat (length pre) mod 4 = 0) ∧
  Z.of_nat (length (buffer c)) < 2 ^ 32 ∧ Forall token_ok l ∧ (∀ i, l !! i = Some EndToken → S i = length l).

Lemma be4_length v : length (be4 v) = 4%nat.
Proof. apply be_bytes_length. Qed.

Lemma consume_be_app pre n v rest : 0 ≤ v < 256 ^ Z.of_nat n → Z.of_nat (length (pre ++ be_bytes n v ++ rest)) < 2 ^ 63 →
  consume_be (CB (pre ++ be_bytes n v ++ rest) (length pre)) n = Ret (Some v, CB (pre ++ be_bytes n v ++ rest) (length (pre ++ be_bytes n v))).
Proof.
  intros Hv Hl. unfold consume_be. pose proof (consume_slice_app pre (be_bytes n v) rest Hl) as H. rewrite be_bytes_length in H. rewrite H. bstep. simpl. do 3 f_equal.
  unfold be_combine, be_bytes. rewrite rev_involutive. by apply le_combine_bytes.
Qed.

Lemma consume_u32_app pre v rest : 0 ≤ v < 2 ^ 32 → Z.of_nat (length (pre ++ be4 v ++ rest)) < 2 ^ 62 →
  consume_be (CB (pre ++ be4 v ++ rest) (length pre)) 4 = Ret (Some v, CB (pre ++ be4 v ++ rest) (length (pre ++ be4 v))).
Proof. intros. apply (consume_be_app pre 4); [done|]. unfold be4 in *. lia. Qed.

Lemma consume_alignment_app pre d rest : Z.of_nat (length pre) mod 4 = 0 → Z.of_nat (length (pre ++ d ++ pad4 (length d) ++ rest)) < 2 ^ 62 →
  consume_alignment (CB (pre ++ d ++ pad4 (length d) ++ rest) (length (pre ++ d))) 4 =
  Ret (Some tt, CB (pre ++ d ++ pad4 (length d) ++ rest) (length (pre ++ d ++ pad4 (length d)))).
Proof.
  intros Hp Hl. unfold consume_alignment. cbn [position]. pose proof (pad4_length (length d)) as Hpad. rewrite !length_app in Hl.
  rewrite align_up_Ret by (rewrite ?length_app; lia). bstep.
  assert (Z.of_nat (length (pre ++ d)) + 4 - 1 = (Z.of_nat (length d) + 3) + Z.of_nat (length pre) / 4 * 4) as ->.
  { rewrite length_app. pose proof (Z.div_mod (Z.of_nat (length pre)) 4 ltac:(lia)). lia. }
  rewrite Z.div_add, Z.mul_add_distr_r by lia. pose proof (Z.div_mod (Z.of_nat (length pre)) 4 ltac:(lia)).
  rewrite (proj2 (sub_Ret _ _ (Z.of_nat (length (pad4 (length d)))))) by (rewrite length_app; lia). bstep.
  pose proof (consume_slice_app (pre ++ d) (pad4 (length d)) rest) as Hc. rewrite <-!app_assoc in Hc. rewrite Hc by (rewrite !length_app; lia). done.
Qed.

Lemma token_bytes_mod4 t : Z.of_nat (length (token_bytes t)) mod 4 = 0.
Proof.
  destruct t as [name| |name data| |]; cbn [token_bytes]; rewrite ?length_app, ?be4_length; try done.
  - cbn [length]. pose proof (pad4_length (length name + 1)). apply Z.mod_divide; [lia|]. exists (1 + (Z.of_nat (length name + 1) + 3) / 4). lia.
  - pose proof (pad4_length (length data)). apply Z.mod_divide; [lia|]. exists (3 + (Z.of_nat (length data) + 3) / 4). lia.
Qed.

Lemma token_bytes_length t : (4 ≤ length (token_bytes t))%nat.
Proof. destruct t; cbn [token_bytes]; rewrite ?length_app, ?be4_length; lia. Qed.

Lemma cb_empty_app pre (d : list Z) : d ≠ [] → cb_empty (CB (pre ++ d) (length pre)) = false.
Proof. intros H. unfold cb_empty. simpl. rewrite bool_decide_eq_false_2; [done|]. rewrite length_app. destruct d; [done|]. simpl. lia. Qed.

(** The parts of a token, one after the other. *)
Lemma next_begin pre name rest : 0 ∉ name → utf8_valid name = true → Z.of_nat (length pre) mod 4 = 0 →
  let t := token_bytes (BeginNode name) in Z.of_nat (length (pre ++ t ++ rest)) < 2 ^ 62 →
  next_token dt (CB (pre ++ t ++ rest) (length pre)) = Ret (Some (BeginNode name), CB (pre ++ t ++ rest) (length (pre ++ t))).
Proof.
  intros H0 Hu Hp t Hl. unfold next_token. rewrite cb_empty_app by (pose proof (token_bytes_length (BeginNode name)); subst t; destruct (token_bytes _); [simpl in *; lia|done]).
  subst t. cbn [token_bytes] in *. rewrite <-!app_assoc in *. rewrite (consume_u32_app pre) by (done || lia). bstep. change (FDT_BEGIN_NODE =? FDT_BEGIN_NODE) with true. cbv iota.
  pose proof (be4_length FDT_BEGIN_NODE) as H4. set (t0 := be4 FDT_BEGIN_NODE) in *. clearbody t0.
  pose proof (consume_str_app (pre ++ t0) name (pad4 (length name + 1) ++ rest) H0 Hu) as Hs. rewrite <-!app_assoc in Hs. cbn [app] in Hs |- *. rewrite Hs.
  pose proof (consume_alignment_app (pre ++ t0) (name ++ [0]) rest) as Ha. rewrite <-!app_assoc in Ha. rewrite (length_app name) in Ha. cbn [app length] in Ha.
  replace (length (pre ++ t0) + length name + 1)%nat with (length (pre ++ t0 ++ name ++ [0])) by (rewrite !length_app; cbn [length]; lia).
  rewrite Ha; [|rewrite length_app, H4, Nat2Z.inj_add, Z.add_mod, Hp by lia; done|done]. by bstep.
Qed.

Lemma next_prop pre name data rest : token_ok (PropToken name data) → Z.of_nat (length pre) mod 4 = 0 →
  let t := token_bytes (PropToken name data) in Z.of_nat (length (pre ++ t ++ rest)) < 2 ^ 62 →
  next_token dt (CB (pre ++ t ++ rest) (length pre)) = Ret (Some (PropToken name data), CB (pre ++ t ++ rest) (length (pre ++ t))).
Proof.
  intros (Hd & Ho & Hs) Hp t Hl. unfold next_token. rewrite cb_empty_app by (pose proof (token_bytes_length (PropToken name data)); subst t; destruct (token_bytes _); [simpl in *; lia|done]).
  subst t. cbn [token_bytes] in *. rewrite <-!app_assoc in *.
  pose proof (be4_length FDT_PROP) as H1. pose proof (be4_length (Z.of_nat (length data))) as H2. pose proof (be4_length (offset_of name)) as H3.
  rewrite (consume_u32_app pre) by (done || lia). bstep. change (FDT_PROP =? FDT_BEGIN_NODE) with false. change (FDT_PROP =? FDT_END_NODE) with false. change (FDT_PROP =? FDT_PROP) with true. cbv iota.
  pose proof (consume_u32_app (pre ++ be4 FDT_PROP) (Z.of_nat (length data))) as E. specialize (E (be4 (offset_of name) ++ data ++ pad4 (length data) ++ rest)). rewrite <-!app_assoc in E. rewrite E by (done || lia). clear E. bstep.
  pose proof (consume_u32_app (pre ++ be4 FDT_PROP ++ be4 (Z.of_nat (length data))) (offset_of name)) as E. specialize (E (data ++ pad4 (length data) ++ rest)). rewrite <-!app_assoc in E. rewrite E by (done || lia). clear E. bstep.
  pose proof (consume_slice_app (pre ++ be4 FDT_PROP ++ be4 (Z.of_nat (length data)) ++ be4 (offset_of name)) data (pad4 (length data) ++ rest)) as E. rewrite <-!app_assoc in E. rewrite E by lia. clear E. bstep.
  pose proof (consume_alignment_app (pre ++ be4 FDT_PROP ++ be4 (Z.of_nat (length data)) ++ be4 (offset_of name)) data rest) as E. rewrite <-!app_assoc in E.
  rewrite E; [|rewrite !length_app, H1, H2, H3, Nat2Z.inj_add, Z.add_mod, Hp by lia; done|done]. bstep. rewrite Hs. by bstep.
Qed.

(** The next token is read, and the others follow. *)
Lemma next_token_yields c t l : yields c (t :: l) → ∃ c', next_token dt c = Ret (Some t, c') ∧ yields c' l ∧ buffer c' = buffer c.
Proof.
  intros ((pre & -> & Hp) & Hlen & Hok & Hend). cbn [buffer] in Hlen. apply Forall_cons in Hok as [Ht Hok]. cbn [fmap list_fmap mjoin list_join] in *.
  set (rest := mjoin (token_bytes <$> l)) in *.
  assert (yields (CB (pre ++ token_bytes t ++ rest) (length (pre ++ token_bytes t))) l) as Hy.
  { split; [exists (pre ++ token_bytes t); split; [by rewrite <-app_assoc|]|].
    - rewrite length_app, Nat2Z.inj_add, Z.add_mod, Hp, token_bytes_mod4 by lia. done.
    - split_and!; [done|done|]. intros i Hi. apply (Hend (S i)) in Hi. simpl in Hi. lia. }
  exists (CB (pre ++ token_bytes t ++ rest) (length (pre ++ token_bytes t))). split; [|done].
  assert (Z.of_nat (length (pre ++ token_bytes t ++ rest)) < 2 ^ 62) by lia.
  destruct t as [name| |name data| |]; [destruct Ht; by apply next_begin| |by apply next_prop|..];
    unfold next_token; (rewrite cb_empty_app by done); cbn [token_bytes] in *; (rewrite (consume_u32_app pre) by (done || lia)); bstep; [done..|].
  assert (l = []) as ->. { specialize (Hend 0%nat eq_refl). simpl in Hend. destruct l; [done|simpl in Hend; lia]. }
  unfold cb_empty. cbn [buffer position]. subst rest. simpl (mjoin _). rewrite app_nil_r. rewrite bool_decide_eq_true_2 by done. done.
Qed.
End encoding.

(** ** Trees *)
(** A node with its properties and children; overwritten parts are [DNop]s. *)
Inductive dtree := DNop | DNode (name : str) (props : list (option (str * list Z))) (children : list dtree).

Lemma dtree_rect' (P : dtree → Prop) : P DNop → (∀ name props cs, Forall P cs → P (DNode name props cs)) → ∀ t, P t.
Proof.
  intros H1 H2. fix IH 1. intros [|name props cs]; [done|]. apply H2. induction cs as [|c cs IHcs]; constructor; [apply IH|done].
Qed.

Definition prop_token (p : option (str * list Z)) : FdtToken :=
  match p with None => Nop | Some (name, data) => PropToken name data end.

Fixpoint tokens (t : dtree) : list FdtToken :=
  match t with
  | DNop => [Nop]
  | DNode name props cs => BeginNode name :: (prop_token <$> props) ++ concat (map tokens cs) ++ [EndNode]
  end.

(** The tokens behind the name, to the end of the node. *)
Definition body (props : list (option (str * list Z))) (cs : list dtree) : list FdtToken :=
  (prop_token <$> props) ++ concat (map tokens cs) ++ [EndNode].

(** A property by its name. *)
Fixpoint prop_of (name : str) (props : list (option (str * list Z))) : option (list Z) :=
  match props with
  | [] => None
  | None :: props => prop_of name props
  | Some (n, d) :: props => if bool_decide (n = name) then Some d else prop_of name props
  end.

(** The first cell of a property. *)
Definition cell (d : list Z) : option Z := if bool_decide (4 ≤ length d)%nat then Some (be_combine (take 4 d)) else None.
Definition cell_of (name : str) (props : list (option (str * list Z))) : option Z := d ← prop_of name props; cell d.
Definition cells_of (props : list (option (str * list Z))) : option Z * option Z := (cell_of (b "#address-cells") props, cell_of (b "#size-cells") props).

(** Properties have different names; those that count cells have a cell. *)
Definition prop_names (props : list (option (str * list Z))) : list str := omap (option_map fst) props.
Definition props_ok (props : list (option (str * list Z))) : Prop :=
  NoDup (prop_names props) ∧ ∀ name d, Some (name, d) ∈ props → name = b "#address-cells" ∨ name = b "#size-cells" → (4 ≤ length d)%nat.

Fixpoint dtree_ok (t : dtree) : Prop :=
  match t with DNop => True | DNode _ props cs => props_ok props ∧ foldr and True (map dtree_ok cs) end.

(** What a search finds: the node, with the cells of its parent. *)
Fixpoint search_tree (wanted : str → list (option (str * list Z)) → bool) (pc : option Z * option Z) (t : dtree) : option (dtree * (option Z * option Z)) :=
  match t with
  | DNop => None
  | DNode name props cs =>
      if wanted name props then Some (t, pc)
      else foldr (λ c r, match search_tree wanted (cells_of props) c with Some f => Some f | None => r end) None cs
  end.

Definition search_list (wanted : str → list (option (str * list Z)) → bool) (pc : option Z * option Z) (cs : list dtree) : option (dtree * (option Z * option Z)) :=
  foldr (λ c r, match search_tree wanted pc c with Some f => Some f | None => r end) None cs.

Section reader.
Context (dt : DeviceTree) (offset_of : str → Z).
Abbreviation yields := (yields dt offset_of).

(** [n] is the node [t], in a parent with the cells [pc]. *)
Definition node_is (n : Node) (t : dtree) (pc : option Z * option Z) : Prop :=
  match t with
  | DNop => False
  | DNode name props cs => n_name n = name ∧ (address_cells n, size_cells n) = cells_of props ∧ (parent_address_cells n, parent_size_cells n) = pc ∧
      ∃ rest, yields (structure_block n) (body props cs ++ rest)
  end.

Lemma yields_length c l : yields c l → (length l ≤ length (buffer c))%nat.
Proof.
  intros ((pre & -> & _) & _). simpl. rewrite length_app. enough (length l ≤ length (mjoin (token_bytes offset_of <$> l)))%nat by lia.
  induction l as [|t l IH]; [simpl; lia|]. change (mjoin (token_bytes offset_of <$> t :: l)) with (token_bytes offset_of t ++ mjoin (token_bytes offset_of <$> l)).
  rewrite length_app. pose proof (token_bytes_length offset_of t). cbn [length]. lia.
Qed.

(** The first property of a stream of tokens. *)
Fixpoint first_prop (name : str) (l : list FdtToken) : option (list Z) :=
  match l with
  | PropToken n d :: l => if bool_decide (n = name) then Some d else first_prop name l
  | Nop :: l => first_prop name l
  | _ => None
  end.

Lemma next_token_end c : yields c [] → next_token dt c = Ret (None, c).
Proof. intros ((pre & -> & _) & _). unfold next_token, cb_empty. cbn [buffer position fmap list_fmap mjoin list_join]. rewrite app_nil_r. by rewrite bool_decide_eq_true_2. Qed.

Lemma property_loop_yields name l : ∀ fuel c, yields c l → (length l < fuel)%nat → property_loop dt fuel c name = Ret (first_prop name l).
Proof.
  induction l as [|t l IH]; intros fuel c Hy Hf; (destruct fuel as [|fuel]; [lia|]); cbn [property_loop first_prop].
  - rewrite next_token_end by done. by bstep.
  - destruct (next_token_yields dt offset_of c t l Hy) as (c' & -> & Hy' & _). bstep. cbn [length] in Hf. destruct t as [| |n d| |]; try done; [|by apply IH; [|lia]].
    case_bool_decide; [done|]. by apply IH; [|lia].
Qed.

Lemma get_property_yields n name l : yields (structure_block n) l → get_property dt n name = Ret (first_prop name l).
Proof. intros Hy. unfold get_property. apply property_loop_yields; [done|]. apply yields_length in Hy. unfold token_fuel. lia. Qed.

Lemma first_prop_body name props cs rest : first_prop name (body props cs ++ rest) = prop_of name props.
Proof.
  unfold body. induction props as [|[[n d]|] props IH]; cbn [fmap list_fmap app prop_token first_prop prop_of]; [|by rewrite IH|done].
  induction cs as [|[|nm ps cs'] cs IHcs]; simpl; [done|apply IHcs|done].
Qed.

Lemma be_u32_cell d : Z.of_nat (length d) < 2 ^ 62 → be_u32 (Some d) = Ret (cell d).
Proof.
  intros Hl. unfold be_u32, cell, consume_be, consume_slice. simpl (position _). simpl (buffer _). rewrite (proj2 (add_Ret 64 _ _ 4)) by lia. bstep.
  destruct (Z.ltb_spec (Z.of_nat (length d)) 4); bstep; [by rewrite bool_decide_eq_false_2 by lia|]. by rewrite bool_decide_eq_true_2 by lia.
Qed.

Lemma yields_tail c l l' : yields c (l ++ l') → Forall (token_ok dt offset_of) l ∧ Forall (token_ok dt offset_of) l'.
Proof. intros (_ & _ & H & _). by apply Forall_app in H. Qed.

Lemma prop_of_ok props name d : Forall (token_ok dt offset_of) (prop_token <$> props) → prop_of name props = Some d → Z.of_nat (length d) < 2 ^ 32.
Proof.
  induction props as [|[[n d']|] props IH]; simpl; [done|..]; intros [Ht H]%Forall_cons; [|by apply IH].
  case_bool_decide; [intros [= <-]; by destruct Ht|by apply IH].
Qed.

Lemma cell_of_eq props cs rest name sb nd : yields sb (body props cs ++ rest) → structure_block nd = sb →
  (p ← get_property dt nd name; be_u32 p) = Ret (cell_of name props).
Proof.
  intros Hy <-. rewrite (get_property_yields nd name _ Hy), first_prop_body. bstep. unfold cell_of. destruct (prop_of name props) as [d|] eqn:E; [|done].
  rewrite be_u32_cell; [done|]. unfold body in Hy. rewrite <-app_assoc in Hy. apply yields_tail in Hy as [Hy _]. eapply prop_of_ok in E; [|done]. lia.
Qed.

(** A node is made with the cells that its properties tell. *)
Lemma node_new_is name props cs rest sb : yields sb (body props cs ++ rest) →
  node_new dt name sb = Ret (MkDtNode name (cell_of (b "#address-cells") props) (cell_of (b "#size-cells") props) None None sb).
Proof.
  intros Hy. unfold node_new. set (self := MkDtNode name None None None None sb).
  pose proof (cell_of_eq props cs rest (b "#address-cells") sb self Hy eq_refl) as H1. pose proof (cell_of_eq props cs rest (b "#size-cells") sb self Hy eq_refl) as H2.
  destruct (get_property dt self (b "#address-cells")) as [p1|]; [|done]. bstep in H1. bstep. rewrite H1. bstep.
  destruct (get_property dt self (b "#size-cells")) as [p2|]; [|done]. bstep in H2. bstep. by rewrite H2.
Qed.

(** *** Searching *)
(** The cells after the properties of a node. *)
Definition cells_put (cells : option Z * option Z) (p : option (str * list Z)) : option Z * option Z :=
  match p with
  | Some (name, d) => if bool_decide (name = b "#address-cells") then (cell d, cells.2) else if bool_decide (name = b "#size-cells") then (cells.1, cell d) else cells
  | None => cells
  end.
Definition cells_fold (props : list (option (str * list Z))) (cells : option Z * option Z) : option Z * option Z := foldl cells_put cells props.

Definition or_else (o : option (list Z)) (c : option Z) : option Z := match o with Some d => cell d | None => c end.

Lemma cells_fold_eq props : ∀ cells, NoDup (prop_names props) →
  cells_fold props cells = (or_else (prop_of (b "#address-cells") props) cells.1, or_else (prop_of (b "#size-cells") props) cells.2).
Proof.
  assert (∀ name ps, name ∉ prop_names ps → prop_of name ps = None) as Hnone.
  { intros name ps. induction ps as [|[[n d]|] ps IH]; simpl; [done|..]; [|done]. intros [H1 H2]%not_elem_of_cons. rewrite bool_decide_eq_false_2 by done. auto. }
  induction props as [|[[n d]|] props IH]; intros cells Hnd; [by destruct cells| |by apply IH].
  apply NoDup_cons in Hnd as [Hn Hnd]. cbn [fst] in Hn. change (cells_fold (Some (n, d) :: props) cells) with (cells_fold props (cells_put cells (Some (n, d)))).
  rewrite IH by done. cbn [prop_of cells_put].
  destruct (decide (n = b "#address-cells")) as [->|H1]; [|destruct (decide (n = b "#size-cells")) as [->|H2]].
  - rewrite (bool_decide_eq_true_2 (_ = b "#address-cells")), (bool_decide_eq_false_2 (_ = b "#size-cells")) by done. cbn [fst snd]. by rewrite (Hnone _ _ Hn).
  - rewrite (bool_decide_eq_false_2 (_ = b "#address-cells")), (bool_decide_eq_true_2 (_ = b "#size-cells")) by done. cbn [fst snd]. by rewrite (Hnone _ _ Hn).
  - by rewrite !bool_decide_eq_false_2 by done.
Qed.

Lemma cells_fold_of props cells : NoDup (prop_names props) → cells = (None, None) ∨ cells = cells_of props → cells_fold props cells = cells_of props.
Proof.
  intros Hnd Hc. rewrite cells_fold_eq by done. unfold cells_of, cell_of.
  destruct Hc as [->| ->]; unfold cells_of, cell_of; cbn [fst snd]; by destruct (prop_of (b "#address-cells") props), (prop_of (b "#size-cells") props).
Qed.

Section searching.
Context (found : Node → outcome bool) (start : Node → option Z * option Z) (wanted : str → list (option (str * list Z)) → bool).
Context (Hfound : ∀ n name props cs pc, node_is n (DNode name props cs) pc → found n = Ret (wanted name props)).
Context (Hstart : ∀ n, start n = (None, None) ∨ start n = (address_cells n, size_cells n)).
Abbreviation loop := (search_loop dt found start).

Lemma search_props props : ∀ fuel nd cells l, props_ok props → yields (structure_block nd) ((prop_token <$> props) ++ l) →
  ∃ sb', loop (length props + fuel)%nat nd cells = loop fuel (set_block nd sb') (cells_fold props cells) ∧ yields sb' l.
Proof.
  induction props as [|p props IH]; intros fuel nd cells l [Hnd Hcells] Hy; [exists (structure_block nd); by destruct nd|].
  assert (props_ok props) as Hok. { split; [by destruct p as [[n d]|]; [apply NoDup_cons in Hnd as [_ ?]|]|]. intros name d Hin. apply (Hcells name d). by right. }
  cbn [fmap list_fmap app] in Hy. pose proof (Forall_inv (proj1 (yields_tail _ [prop_token p] _ Hy))) as Htok.
  destruct (next_token_yields dt offset_of _ _ _ Hy) as (c' & Hn & Hy' & _). cbn [length Nat.add search_loop]. rewrite Hn. bstep.
  assert (∃ cells', match prop_token p with PropToken prop data => cells_step prop data cells = Ret (Some cells') | _ => cells' = cells end ∧ cells_fold (p :: props) cells = cells_fold props cells') as (cells' & Hs & Hf).
  { exists (cells_put cells p). split; [|done]. destruct p as [[n d]|]; [|done]. destruct Htok as [Hd _]. cbn [prop_token cells_put]. unfold cells_step.
    rewrite be_u32_cell by lia. bstep. specialize (Hcells n d ltac:(left)).
    case_bool_decide; [|case_bool_decide; [|done]]; unfold cell; rewrite bool_decide_eq_true_2 by (apply Hcells; auto); done. }
  destruct (IH fuel (set_block nd c') cells' l Hok Hy') as (sb' & He & Hy'').
  exists sb'. split; [|done]. rewrite Hf. destruct p as [[n d]|]; cbn [prop_token] in Hs |- *; [rewrite Hs; bstep|subst]; rewrite He; done.
Qed.

(** A tree is passed, or what it has is found. *)
Definition passes (t : dtree) : Prop := ∀ fuel nd cells rest, dtree_ok t → yields (structure_block nd) (tokens t ++ rest) → (length (tokens t) ≤ fuel)%nat →
  match search_tree wanted cells t with
  | Some (t', pc) => ∃ node nd', loop fuel nd cells = Ret (Some node, nd') ∧ node_is node t' pc
  | None => ∃ sb', loop fuel nd cells = loop (pred fuel) (set_block nd sb') cells ∧ yields sb' rest
  end.

Definition returns_search (r : option (dtree * (option Z * option Z))) (o : outcome (option Node * Node)) (rest : list FdtToken) : Prop :=
  match r with
  | Some (t, pc) => ∃ node nd', o = Ret (Some node, nd') ∧ node_is node t pc
  | None => ∃ nd', o = Ret (None, nd') ∧ yields (structure_block nd') rest
  end.

Lemma search_children cs : Forall passes cs → ∀ fuel nd cells rest, foldr and True (map dtree_ok cs) → yields (structure_block nd) (concat (map tokens cs) ++ EndNode :: rest) →
  (length (concat (map tokens cs)) < fuel)%nat → returns_search (search_list wanted cells cs) (loop fuel nd cells) rest.
Proof.
  induction 1 as [|t cs Ht _ IH]; intros fuel nd cells rest Hok Hy Hf.
  - destruct fuel as [|fuel]; [simpl in Hf; lia|]. destruct (next_token_yields dt offset_of _ _ _ Hy) as (c' & Hn & Hy' & _). cbn [search_loop]. rewrite Hn. bstep. simpl. by eexists.
  - cbn [map concat foldr] in *. destruct Hok as [Hok1 Hok2]. rewrite <-app_assoc in Hy. rewrite length_app in Hf. specialize (Ht fuel nd cells _ Hok1 Hy ltac:(lia)).
    unfold search_list. cbn [foldr]. fold (search_list wanted cells cs). destruct (search_tree wanted cells t) as [[t' pc]|]; [done|].
    destruct Ht as (sb' & -> & Hy'). assert (1 ≤ length (tokens t))%nat by (destruct t; simpl; lia). by apply (IH _ (set_block nd sb')); [| |lia].
Qed.

Lemma search_body props cs fuel nd rest : Forall passes cs → props_ok props → foldr and True (map dtree_ok cs) → (address_cells nd, size_cells nd) = cells_of props →
  yields (structure_block nd) (body props cs ++ rest) → (length (body props cs) ≤ fuel)%nat → returns_search (search_list wanted (cells_of props) cs) (loop fuel nd (start nd)) rest.
Proof.
  intros Hcs Hp Hok Hc Hy Hf. unfold body in Hy, Hf. rewrite !length_app, length_fmap in Hf. cbn [length] in Hf. rewrite <-!app_assoc in Hy. cbn [app] in Hy.
  destruct (search_props props (fuel - length props) nd (start nd) _ Hp Hy) as (sb' & He & Hy'). replace (length props + (fuel - length props))%nat with fuel in He by lia. rewrite He.
  rewrite cells_fold_of; [|apply Hp|rewrite <-Hc; apply Hstart]. apply search_children; [done|done|done|lia].
Qed.

Lemma all_pass t : passes t.
Proof.
  induction t as [|name props cs IH] using dtree_rect'; intros fuel nd cells rest Hok Hy Hf; (destruct fuel as [|fuel]; [simpl in Hf; lia|]).
  - destruct (next_token_yields dt offset_of _ _ _ Hy) as (c' & Hn & Hy' & _). simpl. rewrite Hn. bstep. by eexists.
  - cbn [dtree_ok] in Hok. destruct Hok as [Hp Hok]. cbn [tokens app] in Hy. fold (body props cs) in Hy. destruct (next_token_yields dt offset_of _ _ _ Hy) as (c' & Hn & Hy' & _).
    cbn [search_tree search_loop pred]. rewrite Hn. bstep. rewrite (node_new_is name props cs rest c' Hy'). bstep. set (node := set_parent_cells _ _ _).
    assert (node_is node (DNode name props cs) cells) as Hnode by (split_and!; [done|done|by destruct cells|by exists rest]).
    rewrite (Hfound _ _ _ _ _ Hnode). bstep. destruct (wanted name props); [bstep; by exists node; eexists|].
    fold (search_list wanted (cells_of props) cs). pose proof (search_body props cs fuel node rest IH Hp Hok) as Hb. cbn [tokens length] in Hf. fold (body props cs) in Hf.
    specialize (Hb ltac:(apply Hnode) Hy' ltac:(lia)). destruct (search_list wanted (cells_of props) cs) as [[t' pc]|]; unfold returns_search in Hb.
    + destruct Hb as (n' & nd' & -> & Hn'). bstep. eauto.
    + destruct Hb as (nd' & -> & Hn'). bstep. by exists (structure_block nd').
Qed.

Lemma search_is self name props cs pc : dtree_ok (DNode name props cs) → node_is self (DNode name props cs) pc →
  ∃ r, search dt found start self = Ret r ∧
    match search_tree wanted pc (DNode name props cs) with
    | Some (t', pc') => ∃ n, r = Some n ∧ node_is n t' pc'
    | None => r = None
    end.
Proof.
  intros [Hp Hok] Hn. unfold search. rewrite (Hfound _ _ _ _ _ Hn). bstep. cbn [search_tree]. destruct (wanted name props); [by eauto|].
  destruct Hn as (_ & Hc & _ & rest & Hy). fold (search_list wanted (cells_of props) cs).
  assert (Forall passes cs) as Hcs by (apply Forall_forall; intros; apply all_pass).
  pose proof (search_body props cs (token_fuel (structure_block self)) self rest Hcs Hp Hok Hc Hy) as Hb.
  specialize (Hb ltac:(apply yields_length in Hy; rewrite length_app in Hy; unfold token_fuel; lia)). destruct (search_list wanted (cells_of props) cs) as [[t' pc']|]; unfold returns_search in Hb.
  - destruct Hb as (n' & nd' & -> & Hn'). bstep. eauto.
  - destruct Hb as (nd' & -> & _). bstep. eauto.
Qed.
End searching.

(** *** Children *)
Definition is_node (t : dtree) : bool := match t with DNop => false | _ => true end.

Lemma yields_cons c t l : yields c (t :: l) → ∃ c', next_token dt c = Ret (Some t, c') ∧ yields c' l.
Proof. intros Hy. destruct (next_token_yields dt offset_of c t l Hy) as (c' & H1 & H2 & _). by exists c'. Qed.

Lemma skip_props props : ∀ fuel c depth l, yields c ((prop_token <$> props) ++ l) →
  ∃ c', skip_child dt (length props + fuel) c depth = skip_child dt fuel c' depth ∧ yields c' l.
Proof.
  induction props as [|p props IH]; intros fuel c depth l Hy; [by exists c|]. cbn [fmap list_fmap app] in Hy. destruct (yields_cons _ _ _ Hy) as (c' & Hn & Hy').
  cbn [length Nat.add skip_child]. rewrite Hn. bstep. destruct (IH fuel c' depth l Hy') as (c'' & He & Hy''). exists c''. split; [|done]. by destruct p as [[n d]|].
Qed.

Definition skipped (l : list FdtToken) : Prop := ∀ fuel c depth rest, 0 ≤ depth → depth + Z.of_nat (length l) < 2 ^ 32 → yields c (l ++ rest) →
  ∃ c', skip_child dt (length l + fuel) c depth = skip_child dt fuel c' depth ∧ yields c' rest.

Lemma skipped_app l l' : skipped l → skipped l' → skipped (l ++ l').
Proof.
  intros H1 H2 fuel c depth rest Hd Hl Hy. rewrite length_app in Hl |- *. rewrite <-app_assoc in Hy. destruct (H1 (length l' + fuel)%nat c depth _ Hd ltac:(lia) Hy) as (c1 & E1 & Hy1).
  destruct (H2 fuel c1 depth _ Hd ltac:(lia) Hy1) as (c2 & E2 & Hy2). exists c2. split; [|done]. by rewrite <-Nat.add_assoc, E1, E2.
Qed.

Lemma skipped_concat cs : Forall (λ t, skipped (tokens t)) cs → skipped (concat (map tokens cs)).
Proof. induction 1; [|by apply skipped_app]. intros fuel c depth rest _ _ Hy. by exists c. Qed.

Lemma skipped_tokens t : skipped (tokens t).
Proof.
  induction t as [|name props cs IH] using dtree_rect'; intros fuel c depth rest Hd Hl Hy.
  - destruct (yields_cons _ _ _ Hy) as (c' & Hn & Hy'). simpl. rewrite Hn. bstep. by exists c'.
  - apply skipped_concat in IH as Hcs.
    cbn [tokens app length] in *. rewrite <-app_assoc in Hy. destruct (yields_cons _ _ _ Hy) as (c1 & Hn1 & Hy1). rewrite !length_app, length_fmap in Hl |- *. cbn [length] in Hl |- *.
    cbn [Nat.add skip_child]. rewrite Hn1. bstep. rewrite (proj2 (add_Ret 32 depth 1 (depth + 1))) by lia. bstep. rewrite <-Nat.add_assoc.
    destruct (skip_props props (length (concat (map tokens cs)) + 1 + fuel) c1 (depth + 1) _ Hy1) as (c2 & -> & Hy2). rewrite <-app_assoc in Hy2. rewrite <-Nat.add_assoc.
    destruct (Hcs (1 + fuel)%nat c2 (depth + 1) _ ltac:(lia) ltac:(lia) Hy2) as (c3 & -> & Hy3). destruct (yields_cons _ _ _ Hy3) as (c4 & Hn4 & Hy4).
    cbn [Nat.add skip_child]. rewrite Hn4. bstep. rewrite (proj2 (Z.eqb_neq _ _)) by lia. rewrite (proj2 (sub_Ret (depth + 1) 1 depth)) by lia. bstep. by exists c4.
Qed.

Lemma skip_body props cs fuel c rest : yields c (body props cs ++ rest) → (length (body props cs) ≤ fuel)%nat →
  ∃ c', skip_child dt fuel c 0 = Ret (true, c') ∧ yields c' rest.
Proof.
  intros Hy Hf. pose proof (yields_length _ _ Hy) as Hlen. pose proof (proj1 (proj2 Hy)) as Hy1. unfold body in *. rewrite <-!app_assoc in Hy. rewrite !length_app, length_fmap in Hf. rewrite !length_app, length_fmap in Hlen. cbn [length] in Hf, Hlen.
  replace fuel with (length props + (length (concat (map tokens cs)) + S (fuel - length props - length (concat (map tokens cs)) - 1)))%nat by lia.
  destruct (skip_props props (length (concat (map tokens cs)) + S (fuel - length props - length (concat (map tokens cs)) - 1)) c 0 _ Hy) as (c2 & -> & Hy2).
  assert (skipped (concat (map tokens cs))) as Hcs by (apply skipped_concat, Forall_forall; intros; apply skipped_tokens).
  destruct (Hcs (S (fuel - length props - length (concat (map tokens cs)) - 1)) c2 0 _ ltac:(lia) ltac:(lia) Hy2) as (c3 & -> & Hy3). destruct (yields_cons _ _ _ Hy3) as (c4 & Hn4 & Hy4).
  cbn [skip_child]. rewrite Hn4. bstep. by exists c4.
Qed.

(** The tokens before the end of [parent]. *)
Definition stands_at (parent : Node) (props : list (option (str * list Z))) (cs : list dtree) : Prop :=
  ∃ rest, yields (structure_block parent) ((prop_token <$> props) ++ concat (map tokens cs) ++ EndNode :: rest).

Definition parent_cells (n : Node) : option Z * option Z := (address_cells n, size_cells n).

Lemma next_child_is cs : ∀ props fuel parent, stands_at parent props cs → (length props + length cs < fuel)%nat →
  match filter is_node cs with
  | [] => ∃ p', next_child dt fuel parent = Ret (None, p')
  | t :: ts => ∃ child p' cs', next_child dt fuel parent = Ret (Some child, p') ∧ node_is child t (parent_cells parent) ∧
      filter is_node cs' = ts ∧ stands_at p' [] cs' ∧ parent_cells p' = parent_cells parent
  end.
Proof.
  assert (∀ props fuel parent cs, stands_at parent props cs → ∃ p', next_child dt (length props + fuel) parent = next_child dt fuel p' ∧ stands_at p' [] cs ∧ parent_cells p' = parent_cells parent) as Hprops.
  { induction props as [|p props IH]; intros fuel parent cs0 [rest Hy]; [by exists parent; split_and!; [done|exists rest|done]|]. destruct (yields_cons _ _ _ Hy) as (c' & Hn & Hy').
    destruct (IH fuel (set_block parent c') cs0 ltac:(by exists rest)) as (p' & He & Hp' & Hc). exists p'. split_and!; [|done|done]. cbn [length Nat.add next_child]. rewrite Hn. bstep. by destruct p as [[n d]|]. }
  induction cs as [|t cs IH]; intros props fuel parent Hs Hf; replace fuel with (length props + (fuel - length props))%nat by lia;
    destruct (Hprops props (fuel - length props)%nat parent _ Hs) as (p1 & -> & [rest Hy] & Hc); (destruct (fuel - length props)%nat as [|f] eqn:Ef; [simpl in Hf; lia|]).
  - destruct (yields_cons _ _ _ Hy) as (c' & Hn & Hy'). simpl. rewrite Hn. bstep. by eexists.
  - cbn [map concat fmap list_fmap app] in Hy. rewrite <-app_assoc in Hy. destruct t as [|name ps cs'].
    + destruct (yields_cons _ _ _ Hy) as (c' & Hn & Hy'). cbn [next_child]. rewrite Hn. bstep. cbn [length] in Hf.
      specialize (IH [] f (set_block p1 c') ltac:(by exists rest) ltac:(simpl; lia)). change (parent_cells (set_block p1 c')) with (parent_cells p1) in IH. rewrite Hc in IH. exact IH.
    + change (filter is_node (DNode name ps cs' :: cs)) with (DNode name ps cs' :: filter is_node cs). cbn [tokens app] in Hy. fold (body ps cs') in Hy. destruct (yields_cons _ _ _ Hy) as (c' & Hn & Hy').
      cbn [next_child]. rewrite Hn. bstep. rewrite (node_new_is name ps cs' _ c' Hy'). bstep.
      destruct (skip_body ps cs' (token_fuel c') c' _ Hy') as (c2 & -> & Hy2); [apply yields_length in Hy'; rewrite length_app in Hy'; unfold token_fuel; lia|]. bstep.
      eexists _, _, cs. split_and!; [done| |done|by exists rest|done]. split_and!; [done|done|exact Hc|by eexists].
Qed.

Lemma children_is fuel : ∀ parent props cs, stands_at parent props cs → (length (filter is_node cs) < fuel)%nat →
  ∃ nodes, children_loop dt fuel parent = Ret nodes ∧ Forall2 (λ n t, node_is n t (parent_cells parent)) nodes (filter is_node cs).
Proof.
  induction fuel as [|fuel IH]; intros parent props cs Hs Hf; [lia|]. cbn [children_loop].
  assert (length props + length cs < token_fuel (structure_block parent))%nat as Hfuel.
  { destruct Hs as [rest Hy%yields_length]. rewrite !length_app, length_fmap in Hy. unfold token_fuel. assert (length cs ≤ length (concat (map tokens cs)))%nat; [|lia].
    clear. induction cs as [|t cs IH]; simpl; [lia|]. rewrite length_app. destruct t; simpl; lia. }
  pose proof (next_child_is cs props _ parent Hs Hfuel) as Hn. destruct (filter is_node cs) as [|t ts] eqn:E.
  - destruct Hn as [p' ->]. bstep. by exists [].
  - destruct Hn as (child & p' & cs' & -> & Hc & E' & Hs' & Hpc). bstep. destruct (IH p' [] cs' Hs') as (nodes & -> & Hns); [rewrite E'; simpl in Hf; lia|]. bstep.
    exists (child :: nodes). split; [done|]. constructor; [done|]. by rewrite <-Hpc, <-E'.
Qed.

(** *** The root *)
(** The blob holds the tree: its structure block is the flattening of it. *)
Record holds_tree (t : dtree) : Prop := {
  ht_block : ∃ offset size data, off_dt_struct dt = Ret offset ∧ size_dt_struct dt = Ret size ∧ data_slice dt offset size = Ret data ∧
    data = mjoin (token_bytes offset_of <$> tokens t ++ [EndToken]) ∧ Z.of_nat (length data) < 2 ^ 32;
  ht_tokens : Forall (token_ok dt offset_of) (tokens t);
}.

Lemma no_end t : EndToken ∉ tokens t.
Proof.
  induction t as [|name props cs IH] using dtree_rect'; simpl; [set_solver|]. rewrite not_elem_of_cons, !not_elem_of_app. split_and!; [done|..].
  - intros ([[n d]|] & H & _)%list_elem_of_fmap; done.
  - induction IH; simpl; [set_solver|]. by rewrite not_elem_of_app.
  - set_solver.
Qed.

Lemma root_node_is props cs : holds_tree (DNode [] props cs) → dtree_ok (DNode [] props cs) → ∃ root, root_node dt = Ret root ∧ node_is root (DNode [] props cs) (None, None).
Proof.
  set (t := DNode [] props cs). intros [(offset & size & data & H1 & H2 & H3 & Hd & Hl) Hok] Htree.
  assert (yields (cb_new data) (tokens t ++ [EndToken])) as Hy.
  { split; [exists []; split; [by rewrite Hd|done]|]. split_and!; [done|apply Forall_app; split; [done|by repeat constructor]|].
    intros i Hi. apply lookup_app_Some in Hi as [Hi|[Hi1 Hi2]]; [exfalso; eapply (no_end t), list_elem_of_lookup_2; done|]. rewrite length_app. change (length [EndToken]) with 1%nat.
    apply list_lookup_singleton_Some in Hi2 as [Hi2 _]. lia. }
  unfold root_node. rewrite H1. bstep. rewrite H2. bstep. rewrite H3. bstep. unfold node_new.
  rewrite !(get_property_yields (MkDtNode (b "fake_node") None None None None (cb_new data)) _ _ Hy). bstep. cbn [tokens t app first_prop be_u32]. bstep.
  unfold find_node, search. bstep. change (is_named [] (b "fake_node")) with false. cbv iota.
  pose proof (all_pass (λ n, Ret (is_named [] (n_name n))) (λ _, (None, None)) (λ name _, is_named [] name)) as Hp.
  specialize (Hp ltac:(by intros n name ps cs0 pc (-> & _)) ltac:(by left) t (token_fuel (cb_new data)) (MkDtNode (b "fake_node") None None None None (cb_new data)) (None, None) [EndToken] Htree Hy).
  destruct Hp as (node & nd' & He & Hn); [apply yields_length in Hy; rewrite length_app in Hy; unfold token_fuel; lia|]. cbn [structure_block]. cbv beta. rewrite He. bstep. by exists node.
Qed.

(** ** [reg] properties *)
Definition reg_at (ac sc : Z) (d : list Z) (i : nat) : Reg :=
  let e := drop (i * Z.to_nat (4 * (ac + sc))) d in
  MkReg (be_combine (take (Z.to_nat (4 * ac)) e)) (be_combine (take (Z.to_nat (4 * sc)) (drop (Z.to_nat (4 * ac)) e))).

(** The address and size pairs of a property, in cells. *)
Definition regs_of (ac sc : Z) (d : list Z) : list Reg := reg_at ac sc d <$> seq 0 (length d / Z.to_nat (4 * (ac + sc))).

Definition one_or_two (c : Z) : Prop := c = 1 ∨ c = 2.

Lemma consume_cells_eq c d pos : one_or_two c → (pos ≤ length d)%nat → Z.of_nat (length d) < 2 ^ 62 →
  consume_cells c (CB d pos) = Ret (if bool_decide (pos + Z.to_nat (4 * c) ≤ length d)%nat then (Some (be_combine (take (Z.to_nat (4 * c)) (drop pos d))), CB d (pos + Z.to_nat (4 * c))) else (None, CB d pos)).
Proof.
  intros Hc Hp Hl. assert (consume_cells c (CB d pos) = consume_be (CB d pos) (Z.to_nat (4 * c))) as -> by (by destruct Hc as [->| ->]).
  assert (Z.of_nat (Z.to_nat (4 * c)) = 4 * c) as Hn by (destruct Hc; lia). unfold consume_be, consume_slice. cbn [position buffer].
  rewrite (proj2 (add_Ret 64 (Z.of_nat pos) (Z.of_nat (Z.to_nat (4 * c))) (Z.of_nat (pos + Z.to_nat (4 * c))))) by (rewrite Nat2Z.inj_add, Hn; destruct Hc; lia). bstep. rewrite Nat2Z.id.
  destruct (Z.ltb_spec (Z.of_nat (length d)) (Z.of_nat (pos + Z.to_nat (4 * c)))); bstep; [by rewrite bool_decide_eq_false_2 by lia|by rewrite bool_decide_eq_true_2 by lia].
Qed.

Lemma regs_loop_eq n ac sc d : one_or_two ac → one_or_two sc → parent_address_cells n = Some ac → parent_size_cells n = Some sc → Z.of_nat (length d) < 2 ^ 62 →
  let es := Z.to_nat (4 * (ac + sc)) in let k := (length d / es)%nat in
  ∀ fuel i, (i ≤ k)%nat → (k - i < fuel)%nat → regs_loop fuel n (CB d (i * es)) = Ret (reg_at ac sc d <$> seq i (k - i)).
Proof.
  intros Ha Hs Hpa Hps Hl es k. assert (es = Z.to_nat (4 * ac) + Z.to_nat (4 * sc) ∧ 0 < Z.to_nat (4 * ac) ∧ 0 < Z.to_nat (4 * sc))%nat as (Hes & Ha0 & Hs0) by (subst es; destruct Ha, Hs; subst; lia).
  pose proof (Nat.div_mod_eq (length d) es) as Hdiv. pose proof (Nat.mod_upper_bound (length d) es ltac:(lia)) as Hmod. fold k in Hdiv.
  induction fuel as [|fuel IH]; intros i Hi Hf; [lia|]. cbn [regs_loop]. unfold parse_one_reg. rewrite Hpa, Hps.
  assert (i * es ≤ k * es)%nat by (apply Nat.mul_le_mono_r; lia). rewrite consume_cells_eq by (done || lia). bstep. destruct (decide (i = k)) as [->|Hne].
  - rewrite Nat.sub_diag. simpl (seq _ 0). case_bool_decide; bstep; [|done]. rewrite consume_cells_eq by (done || lia). rewrite bool_decide_eq_false_2 by lia. by bstep.
  - assert (S i * es ≤ k * es)%nat by (apply Nat.mul_le_mono_r; lia). simpl in H0. rewrite bool_decide_eq_true_2 by lia. bstep. rewrite consume_cells_eq by (done || lia). rewrite bool_decide_eq_true_2 by lia. bstep. cbn [option_map].
    replace (i * es + Z.to_nat (4 * ac) + Z.to_nat (4 * sc))%nat with (S i * es)%nat by (simpl; lia). rewrite IH by lia. bstep.
    replace (k - i)%nat with (S (k - S i)) by lia. cbn [seq fmap list_fmap]. do 2 f_equal. unfold reg_at. fold es. by rewrite drop_drop.
Qed.

(** *** What is found *)
(** [n] shows the node [t] to its users: its name, its own and its parent's cells, and
    its properties. *)
Definition shows (n : Node) (t : dtree) (pc : option Z * option Z) : Prop :=
  match t with
  | DNop => False
  | DNode name props _ => n_name n = name ∧ (address_cells n, size_cells n) = cells_of props ∧ (parent_address_cells n, parent_size_cells n) = pc ∧
      ∀ prop, get_property dt n prop = Ret (prop_of prop props)
  end.

Lemma node_is_shows n t pc : node_is n t pc → shows n t pc.
Proof.
  destruct t as [|name props cs]; [done|]. intros (H1 & H2 & H3 & rest & Hy). split_and!; [done..|]. intros prop.
  by rewrite (get_property_yields n prop _ Hy), first_prop_body.
Qed.

(** C34: Looking up a node in a device tree finds the right one: in a blob that holds a
    tree, [find_node] from the root returns the first node, parents before children, whose
    name before the unit address is the one wanted, and nothing if there is none; the
    node it returns has the name, the properties and the cell counts of that node and the
    cell counts of its parent. *)
Theorem find_node_correct props cs needle : let t := DNode [] props cs in holds_tree t → dtree_ok t →
  ∃ root r, root_node dt = Ret root ∧ shows root t (None, None) ∧ find_node dt root needle = Ret r ∧
    match search_tree (λ name _, is_named needle name) (None, None) t with
    | Some (t', pc) => ∃ n, r = Some n ∧ shows n t' pc
    | None => r = None
    end.
Proof.
  intros t Hh Hok. destruct (root_node_is props cs Hh Hok) as (root & Hr & Hroot).
  destruct (search_is (λ n, Ret (is_named needle (n_name n))) (λ _, (None, None)) (λ name _, is_named needle name)) with (self := root) (name := @nil Z) (props := props) (cs := cs) (pc := (@None Z, @None Z)) as (r & H1 & H2);
    [by intros n name ps cs0 pc (-> & _)|by left|done|done|]. exists root, r. split_and!; [done|by apply node_is_shows|done|].
  fold t in H2. destruct (search_tree _ _ t) as [[t' pc]|]; [|done]. destruct H2 as (n & -> & Hn). exists n. split; [done|by apply node_is_shows].
Qed.

(** *** Memory *)
Lemma parse_all_regs n name props cs ac sc d : node_is n (DNode name props cs) (Some ac, Some sc) → one_or_two ac → one_or_two sc → prop_of (b "reg") props = Some d →
  parse_all_reg_properties dt n = Ret (regs_of ac sc d).
Proof.
  intros (_ & _ & [= Ha Hs] & rest & Hy) H1 H2 Hd. unfold parse_all_reg_properties. rewrite (get_property_yields n _ _ Hy), first_prop_body, Hd. bstep.
  assert (Z.of_nat (length d) < 2 ^ 62). { unfold body in Hy. rewrite <-app_assoc in Hy. apply yields_tail in Hy as [Hy _]. eapply prop_of_ok in Hd; [|done]. lia. }
  pose proof (regs_loop_eq n ac sc d H1 H2 Ha Hs ltac:(done) (S (length d)) 0 ltac:(lia)) as H'. simpl (0 * _)%nat in H'. unfold cb_new. rewrite H'; [by rewrite Nat.sub_0_r|].
  rewrite Nat.sub_0_r. apply Nat.lt_succ_r, Nat.Div0.div_le_upper_bound. destruct H1 as [->| ->], H2 as [->| ->]; simpl; lia.
Qed.

(** A range of memory that the tree declares: an entry of [reg] of a [memory] node. *)
Definition memory_entry (ac sc : Z) (cs : list dtree) (reg : Reg) : Prop := ∃ name props cs' d,
  DNode name props cs' ∈ cs ∧ is_named (b "memory") name = true ∧ prop_of (b "reg") props = Some d ∧ reg ∈ regs_of ac sc d.

Lemma in_memory_nodes_is first last ac sc nodes cs : one_or_two ac → one_or_two sc → Forall2 (λ n t, node_is n t (Some ac, Some sc)) nodes cs →
  ∃ v, in_memory_nodes dt first last nodes = Ret v ∧ (v = true ↔ ∃ reg, memory_entry ac sc cs reg ∧ in_reg first last reg = true).
Proof.
  intros Ha Hs. assert (∀ t cs reg, memory_entry ac sc (t :: cs) reg ↔ memory_entry ac sc [t] reg ∨ memory_entry ac sc cs reg) as Hsplit.
  { intros t cs0 reg. unfold memory_entry. split.
    - intros (name & ps & cs' & d & [He|Hin]%elem_of_cons & H); [left; exists name, ps, cs', d; split; [by rewrite He; left|done]|right; by exists name, ps, cs', d].
    - intros [(name & ps & cs' & d & He%list_elem_of_singleton & H)|(name & ps & cs' & d & Hin & H)]; exists name, ps, cs', d; (split; [|done]); [by subst; left|by right]. }
  induction 1 as [|n t nodes cs Hn _ (v & Hv & IH)]; cbn [in_memory_nodes].
  - exists false. split; [done|]. split; [done|]. intros (reg & (? & ? & ? & ? & H%elem_of_nil & _) & _). done.
  - destruct t as [|name props cs']; [done|]. pose proof Hn as (-> & _). setoid_rewrite Hsplit.
    destruct (is_named (b "memory") name) eqn:Em; cbn [negb].
    + destruct (prop_of (b "reg") props) as [d|] eqn:Ed.
      * rewrite (parse_all_regs n name props cs' ac sc d) by done. bstep. destruct (existsb (in_reg first last) (regs_of ac sc d)) eqn:Ee.
        -- exists true. split; [done|]. split; [|done]. intros _. apply existsb_exists in Ee as (reg & Hin & Hr). exists reg. split; [|done]. left. exists name, props, cs', d.
           split_and!; [by left|done|done|by apply list_elem_of_In].
        -- rewrite Hv. exists v. split; [done|]. rewrite IH. split; [intros (reg & H & H'); exists reg; auto|]. intros (reg & [(nm & ps & cs0 & d' & [= -> -> ->]%list_elem_of_singleton & _ & Hd' & Hin)|H] & H'); [|by exists reg].
           exfalso. assert (d' = d) as -> by congruence. apply not_true_iff_false in Ee. apply Ee, existsb_exists. exists reg. split; [by apply list_elem_of_In|done].
      * destruct Hn as (_ & _ & _ & rest & Hy). unfold parse_all_reg_properties. rewrite (get_property_yields n _ _ Hy), first_prop_body, Ed. bstep. cbn [existsb]. rewrite Hv. exists v. split; [done|]. rewrite IH.
        split; [intros (reg & H & H'); exists reg; auto|]. intros (reg & [(nm & ps & cs0 & d' & [= -> -> ->]%list_elem_of_singleton & _ & Hd' & Hin)|H] & H'); [congruence|by exists reg].
    + rewrite Hv. exists v. split; [done|]. rewrite IH. split; [intros (reg & H & H'); exists reg; auto|].
      intros (reg & [(nm & ps & cs0 & d' & [= -> -> ->]%list_elem_of_singleton & Hm & _)|H] & H'); [congruence|by exists reg].
Qed.

(** C35: What the kernel takes to be RAM is what the device tree declares: in a blob that
    holds a tree whose root counts addresses and sizes in one or two cells,
    [range_in_ram] answers, and says yes exactly if the range is not empty and lies in an
    address and size pair of the [reg] property of a [memory] child of the root. *)
Theorem range_in_ram_correct props cs ac sc first last : let t := DNode [] props cs in holds_tree t → dtree_ok t →
  cells_of props = (Some ac, Some sc) → one_or_two ac → one_or_two sc →
  ∃ v, range_in_ram dt first last = Ret v ∧
    (v = true ↔ first < last ∧ ∃ reg, memory_entry ac sc cs reg ∧ r_address reg ≤ first ∧ last ≤ Z.min (r_address reg + r_size reg) (2 ^ 64 - 1)).
Proof.
  intros t Hh Hok Hc Ha Hs. unfold range_in_ram. destruct (Z.leb_spec last first); [exists false; split; [done|]; split; [done|]; lia|].
  destruct (root_node_is props cs Hh Hok) as (root & -> & (_ & Hrc & _ & rest & Hy)). bstep. unfold children.
  assert (stands_at root props cs) as Hst by (exists rest; unfold body in Hy; by rewrite <-!app_assoc in Hy).
  destruct (children_is (token_fuel (structure_block root)) root props cs Hst) as (nodes & -> & Hns).
  { apply yields_length in Hy. unfold body in Hy. rewrite !length_app in Hy. unfold token_fuel. assert (length (filter is_node cs) ≤ length (concat (map tokens cs)))%nat; [|lia].
    clear. induction cs as [|[|nm ps cs'] cs IH]; simpl; [lia|..]; [change (filter is_node (DNop :: cs)) with (filter is_node cs); lia|].
    change (filter is_node (DNode nm ps cs' :: cs)) with (DNode nm ps cs' :: filter is_node cs). rewrite length_app. cbn [length]. lia. }
  bstep. unfold parent_cells in Hns. rewrite Hrc, Hc in Hns. destruct (in_memory_nodes_is first last ac sc nodes _ Ha Hs Hns) as (v & -> & Hv). exists v. split; [done|]. rewrite Hv. clear Hv.
  assert (∀ reg, memory_entry ac sc (filter is_node cs) reg ↔ memory_entry ac sc cs reg) as Hf.
  { intros reg. unfold memory_entry. split; intros (nm & ps & cs' & d & Hin & Hrest); exists nm, ps, cs', d; (split; [|done]); rewrite list_elem_of_filter in *; [apply Hin|by split]. }
  unfold in_reg. setoid_rewrite Hf. setoid_rewrite andb_true_iff. setoid_rewrite Z.leb_le. split; [intros H'; split; [lia|done]|by intros [_ ?]].
Qed.
End reader.

(** ** A blob *)
(** The header, the structure block and the strings block, one after the other. *)
Definition blob (strings : list Z) (offset_of : str → Z) (t : dtree) : DeviceTree :=
  let struct := mjoin (token_bytes offset_of <$> tokens t ++ [EndToken]) in
  let off_strings := 40 + Z.of_nat (length struct) in
  MkTree 0x80000000 (be4 FDT_MAGIC ++ be4 (off_strings + Z.of_nat (length strings)) ++ be4 40 ++ be4 off_strings ++ be4 40 ++ be4 FDT_VERSION ++ be4 16 ++ be4 0 ++
    be4 (Z.of_nat (length strings)) ++ be4 (Z.of_nat (length struct)) ++ struct ++ strings).

Definition small_strings : list Z := b "#address-cells" ++ [0] ++ b "#size-cells" ++ [0] ++ b "reg" ++ [0].
Definition small_offset (name : str) : Z := if bool_decide (name = b "#size-cells") then 15 else if bool_decide (name = b "reg") then 27 else 0.

Definition small_root : dtree :=
  DNode [] [Some (b "#address-cells", be4 2); Some (b "#size-cells", be4 1)]
    [DNode (b "chosen") [] []; DNop; DNode (b "memory@80000000") [Some (b "reg", be_bytes 8 0x80000000 ++ be4 0x8000000)] []].
Definition small_blob : DeviceTree := blob small_strings small_offset small_root.

Lemma small_holds : holds_tree small_blob small_offset small_root.
Proof.
  split.
  - eexists _, _, _. split_and!; [vm_compute; reflexivity|vm_compute; reflexivity|vm_compute; reflexivity|vm_compute; reflexivity|vm_compute; reflexivity].
  - repeat (constructor; [first [exact I|split_and!; [vm_compute; reflexivity|vm_compute; intros ?; discriminate|vm_compute; reflexivity|vm_compute; reflexivity]|split; [apply (bool_decide_unpack _); vm_compute; exact I|vm_compute; reflexivity]]|]). constructor.
Qed.

Lemma small_ok : dtree_ok small_root.
Proof.
  assert (props_ok []) by (split; [constructor|]; by intros name d Hin%elem_of_nil).
  simpl dtree_ok. split_and!; try done; (split; [by apply (bool_decide_unpack _); vm_compute|]); intros name d.
  - intros [[= -> ->]|[= -> ->]%list_elem_of_singleton]%elem_of_cons _; by vm_compute.
  - intros [= -> ->]%list_elem_of_singleton [E|E]; done.
Qed.

(** The memory node is found behind the others, and the range it has is RAM. *)
Lemma find_node_correct_witness : ∃ root n, root_node small_blob = Ret root ∧ find_node small_blob root (b "memory") = Ret (Some n) ∧
  n_name n = b "memory@80000000" ∧ parent_address_cells n = Some 2.
Proof.
  destruct (find_node_correct small_blob small_offset _ _ (b "memory") small_holds small_ok) as (root & r & H1 & _ & H2 & n & -> & Hn & _ & Hc & _).
  exists root, n. split_and!; [exact H1|exact H2|exact Hn|]. by injection Hc.
Defined.

Lemma range_in_ram_correct_witness : ∃ v, range_in_ram small_blob 0x80200000 0x80300000 = Ret v ∧ v = true.
Proof.
  destruct (range_in_ram_correct small_blob small_offset _ _ 2 1 0x80200000 0x80300000 small_holds small_ok) as (v & H1 & H2); [vm_compute; reflexivity|right; reflexivity|left; reflexivity|].
  exists v. split; [exact H1|]. apply H2. split; [lia|]. exists (MkReg 0x80000000 0x8000000). split; [|vm_compute; split; discriminate].
  exists (b "memory@80000000"), [Some (b "reg", be_bytes 8 0x80000000 ++ be4 0x8000000)], [], (be_bytes 8 0x80000000 ++ be4 0x8000000).
  split_and!; [right; right; left|vm_compute; reflexivity|vm_compute; reflexivity|]. apply list_elem_of_singleton. vm_compute. reflexivity.
Defined.
