(* ===== verification/Pci.v ===== *)
(** PCI: crates/kernel/src/pci, the window of the host bridge in the device tree
    (devic_tree_parser.rs), the allocator of bus addresses (allocator.rs, address.rs), and
    a device's base address registers, capabilities and place in the configuration space
    (mod.rs).

    The configuration space of a function is an interface; [PciBarLaws] states what the
    PCI specification says of base address registers. *)
From S2P Require Import Prelude KUtil Bytes Parser Paths DeviceTree.

(** ** Signed 64-bit numbers *)
Definition as_i64 (x : Z) : Z := if x <? 2 ^ 63 then x else x - 2 ^ 64.
Definition as_usize (x : Z) : Z := x mod 2 ^ 64.
Definition i64 (x : Z) : outcome Z := if (- 2 ^ 63 <=? x) && (x <? 2 ^ 63) then Ret x else Panic.

(** ** The host bridge in the device tree *)
Record PCIRange := MkRange { pci_bitfield : Z; pci_address : Z; cpu_address : Z; range_size : Z }.
Record PCIInformation := MkInfo { pci_host_bridge_address : Z; pci_host_bridge_length : Z; ranges : list PCIRange }.

Definition MEMORY_SPACE_32_BIT_CODE : Z := 2.
Definition MEMORY_SPACE_64_BIT_CODE : Z := 3.

Definition high_bits (f : Z) : Z := Z.shiftr f 24 mod 256.
Definition space_code (f : Z) : Z := Z.land (high_bits f) 3.

Definition get_first_range_for_type (i : PCIInformation) (code : Z) : option PCIRange :=
  find (λ r, space_code (pci_bitfield r) =? code) (ranges i).

(** The loop over the [ranges] property; [None] is the early return of [?]. *)
Fixpoint ranges_loop (fuel : nat) (node : Node) (buf : ConsumableBuffer) (acc : list PCIRange) : outcome (option (list PCIRange)) :=
  match fuel with
  | O => Panic
  | S fuel =>
      if cb_empty buf then Ret (Some acc)
      else
        _ ← rassert (bool_decide (address_cells node = Some 3));
        '(bitfield, buf) ← consume_be buf 4;
        match bitfield with
        | None => Ret None
        | Some bitfield =>
            '(child_address, buf) ← consume_be buf 8;
            match child_address, parent_address_cells node with
            | Some child_address, Some pac =>
                '(parent_address, buf) ← consume_cells pac buf;
                match parent_address, size_cells node with
                | Some parent_address, Some sc =>
                    '(size, buf) ← consume_cells sc buf;
                    match size with
                    | Some size => ranges_loop fuel node buf (acc ++ [MkRange bitfield child_address parent_address size])
                    | None => Ret None
                    end
                | _, _ => Ret None
                end
            | _, _ => Ret None
            end
        end
  end.

Definition parse (dt : DeviceTree) : outcome (option PCIInformation) :=
  root ← root_node dt;
  node ← find_node dt root (b "pci");
  match node with
  | None => Ret None
  | Some node =>
      reg ← parse_reg_property dt node;
      match reg with
      | None => Ret None
      | Some reg =>
          p ← get_property dt node (b "ranges");
          match p with
          | None => Ret None
          | Some d =>
              r ← ranges_loop (S (length d)) node (cb_new d) [];
              Ret (option_map (MkInfo (r_address reg) (r_size reg)) r)
          end
      end
  end.

(** ** Bus addresses *)
Record PCIAllocator := MkAlloc { free_start : Z; free_end : Z; offset_to_cpu_space : Z }.
Record PCIAllocatedSpace := MkSpace { sp_pci : Z; sp_cpu : Z; sp_size : Z }.

Definition alloc_new : PCIAllocator := MkAlloc 0 0 0.

Definition alloc_init (r : PCIRange) : outcome PCIAllocator :=
  e ← add 64 (pci_address r) (range_size r);
  o ← i64 (as_i64 (cpu_address r) - as_i64 (pci_address r));
  Ret (MkAlloc (pci_address r) e o).

Definition to_cpu_addr (a offset : Z) : outcome Z := x ← i64 (as_i64 a + offset); Ret (as_usize x).

Definition allocate (a : PCIAllocator) (size : Z) : outcome (option PCIAllocatedSpace * PCIAllocator) :=
  aligned_current ← align_up (free_start a) size;
  e ← add 64 aligned_current size;
  if free_end a <? e then Ret (None, a)
  else
    cpu ← to_cpu_addr aligned_current (offset_to_cpu_space a);
    Ret (Some (MkSpace aligned_current cpu size), MkAlloc e (free_end a) (offset_to_cpu_space a)).

(** ** A function of a device *)
Class PciFunction (C : Type) := {
  vendor_id : C → Z; device_id : C → Z; status_register : C → Z; header_type : C → Z; capabilities_pointer : C → Z;
  capability_next : C → Z → Z;
  command_register : C → Z; write_command : C → Z → C;
  read_bar : C → nat → Z; set_bar : C → nat → Z → C;
}.

Definition INVALID_VENDOR_ID : Z := 0xffff.
Definition GENERAL_DEVICE_TYPE : Z := 0.
Definition GENERAL_DEVICE_TYPE_MASK : Z := 0x7f.
Definition CAPABILITY_POINTER_MASK : Z := 0xfc.
Definition CAPABILITIES_LIST_BIT : Z := 16.
Definition IO_SPACE : Z := 1.
Definition MEMORY_SPACE : Z := 2.

Section device.
Context {C : Type} `{PF : PciFunction C}.

Record PCIDevice := MkDevice { configuration_space : C; initialized_bars : gmap nat PCIAllocatedSpace; device_number : Z }.

Definition try_new (c : C) (number : Z) : outcome (option PCIDevice) :=
  if vendor_id c =? INVALID_VENDOR_ID then Ret None
  else
    _ ← rassert (Z.land (header_type c) GENERAL_DEVICE_TYPE_MASK =? GENERAL_DEVICE_TYPE);
    Ret (Some (MkDevice c ∅ number)).

Definition plic_interrupt_id (d : PCIDevice) : Z := 32 + (device_number d + 1 - 1) mod 4.

(** The offsets of the capabilities; the list is the device's, and it may have no end. *)
Fixpoint capability_loop (fuel : nat) (c : C) (offset : Z) : outcome (list Z) :=
  match fuel with
  | O => Panic
  | S fuel => if offset =? 0 then Ret [] else rest ← capability_loop fuel c (capability_next c offset); Ret (offset :: rest)
  end.

Definition capabilities (fuel : nat) (d : PCIDevice) : outcome (list Z) :=
  let c := configuration_space d in
  capability_loop fuel c (if Z.land (status_register c) CAPABILITIES_LIST_BIT =? 0 then 0 else Z.land (capabilities_pointer c) CAPABILITY_POINTER_MASK).

Definition bar (c : C) (index : Z) : outcome Z := _ ← rassert (index <? 6); Ret (read_bar c (Z.to_nat index)).
Definition write_bar (c : C) (index value : Z) : outcome C := _ ← rassert (index <? 6); Ret (set_bar c (Z.to_nat index) value).
Definition set_command_bits (c : C) (bits : Z) : C := write_command c (Z.lor (command_register c) bits).
Definition clear_command_bits (c : C) (bits : Z) : C := write_command c (Z.land (command_register c) (bitnot 16 bits)).

(** The size that the value read back from a register of ones tells. *)
Definition bar_size (value : Z) : outcome Z := add 32 (bitnot 32 (Z.land value (bitnot 32 15))) 1.

Definition u32_try_from (x : Z) : outcome Z := if x <? 2 ^ 32 then Ret x else Panic.

Record PciState := MkPci { p_device : PCIDevice; alloc64 : PCIAllocator; alloc32 : PCIAllocator }.

Definition get_or_initialize_bar (s : PciState) (index : Z) : outcome (PCIAllocatedSpace * PciState) :=
  let d := p_device s in
  match initialized_bars d !! Z.to_nat index with
  | Some space => Ret (space, s)
  | None =>
      let c := clear_command_bits (configuration_space d) (Z.lor IO_SPACE MEMORY_SPACE) in
      original ← bar c index;
      _ ← rassert (Z.land original 1 =? 0);
      let bar_type := Z.shiftr (Z.land original 6) 1 in
      let is_64bit := bar_type =? 2 in
      c ← write_bar c index 0xffffffff;
      value ← bar c index;
      size ← bar_size value;
      '(space, a) ← allocate (if is_64bit then alloc64 s else alloc32 s) size;
      space ← expect space;
      low ← u32_try_from (Z.land (sp_pci space) 0xffffffff);
      c ← write_bar c index low;
      c ← (if is_64bit then i ← add 8 index 1; high ← u32_try_from (Z.shiftr (sp_pci space) 32); write_bar c i high else Ret c);
      let c := set_command_bits c MEMORY_SPACE in
      Ret (space, MkPci (MkDevice c (<[Z.to_nat index := space]> (initialized_bars d)) (device_number d))
                    (if is_64bit then a else alloc64 s) (if is_64bit then alloc32 s else a))
  end.

(** ** The configuration space *)
Definition function_address (start bus device function : Z) : outcome Z :=
  _ ← rassert (device <? 32);
  _ ← rassert (function <? 8);
  add 64 start (Z.lor (Z.lor (Z.shiftl bus 20) (Z.shiftl device 15)) (Z.shiftl function 12)).

(** The functions that are looked at, in order. *)
Definition all_functions : list (Z * Z * Z) :=
  bus ← seqZ 0 255; device ← seqZ 0 32; function ← seqZ 0 8; [(bus, device, function)].

Definition enumerate_step (space : Z → C) (start : Z) (found : list PCIDevice) (f : Z * Z * Z) : outcome (list PCIDevice) :=
  address ← function_address start (fst (fst f)) (snd (fst f)) (snd f);
  d ← try_new (space address) (snd (fst f));
  Ret (match d with Some d => found ++ [d] | None => found end).

(** [space] tells which function answers at an address. *)
Definition enumerate_devices (space : Z → C) (i : PCIInformation) : outcome (list PCIDevice) :=
  foldM (enumerate_step space (pci_host_bridge_address i)) all_functions [].
End device.
Arguments PCIDevice : clear implicits.
Arguments PciState : clear implicits.

(** ** The window is given out in aligned blocks *)
(** A window whose addresses are 63-bit numbers on both sides. *)
Record window_ok (r : PCIRange) : Prop := {
  w_pci : 0 ≤ pci_address r ∧ pci_address r + range_size r ≤ 2 ^ 62;
  w_cpu : 0 ≤ cpu_address r ∧ cpu_address r + range_size r ≤ 2 ^ 62;
  w_size : 0 ≤ range_size r;
}.

(** The allocator of the window [r], with addresses below [low] given out. *)
Definition alloc_at (r : PCIRange) (low : Z) (a : PCIAllocator) : Prop :=
  a = MkAlloc low (pci_address r + range_size r) (cpu_address r - pci_address r) ∧ pci_address r ≤ low ≤ pci_address r + range_size r.

(** [sp] is a block of [size] bytes of the window, above [low]. *)
Record block_ok (r : PCIRange) (low size : Z) (sp : PCIAllocatedSpace) : Prop := {
  bk_size : sp_size sp = size;
  bk_aligned : sp_pci sp mod size = 0;
  bk_low : low ≤ sp_pci sp;
  bk_inside : pci_address r ≤ sp_pci sp ∧ sp_pci sp + size ≤ pci_address r + range_size r;
  bk_cpu : sp_cpu sp = cpu_address r + (sp_pci sp - pci_address r);
}.

Lemma as_i64_small x : 0 ≤ x < 2 ^ 63 → as_i64 x = x.
Proof. intros H. unfold as_i64. by rewrite (proj2 (Z.ltb_lt _ _)) by lia. Qed.

Lemma i64_small x : - 2 ^ 63 ≤ x < 2 ^ 63 → i64 x = Ret x.
Proof. intros H. unfold i64. by rewrite (proj2 (Z.leb_le _ _)), (proj2 (Z.ltb_lt _ _)) by lia. Qed.

Lemma alloc_init_at r : window_ok r → ∃ a, alloc_init r = Ret a ∧ alloc_at r (pci_address r) a.
Proof.
  intros [H1 H2 H3]. unfold alloc_init. rewrite (proj2 (add_Ret 64 _ _ (pci_address r + range_size r))) by lia. bstep.
  rewrite !as_i64_small, i64_small by lia. bstep. eexists. split; [done|]. split; [done|lia].
Qed.

Lemma allocate_at r low a size : window_ok r → alloc_at r low a → 0 < size ≤ 2 ^ 62 →
  ∃ o a', allocate a size = Ret (o, a') ∧
    match o with
    | Some sp => block_ok r low size sp ∧ alloc_at r (sp_pci sp + size) a'
    | None => a' = a ∧ ∀ x, low ≤ x → x mod size = 0 → pci_address r + range_size r < x + size
    end.
Proof.
  intros [H1 H2 H3] [-> Hlow] Hs. unfold allocate. cbn [free_start free_end offset_to_cpu_space].
  destruct (align_up_least low size) as (al & Hal & Hmod & Hle & Hleast); [lia..|]. rewrite Hal. bstep.
  assert (al < low + size) as Hal2.
  { pose proof (Z.div_mod low size ltac:(lia)). pose proof (Z.mod_pos_bound low size ltac:(lia)). destruct (decide (low mod size = 0)); [specialize (Hleast low); lia|].
    specialize (Hleast (low / size * size + size)). rewrite Z.add_mod, Z.mod_mul, Z.mod_same, Z.add_0_r, Z.mod_0_l in Hleast by lia. lia. }
  rewrite (proj2 (add_Ret 64 al size (al + size))) by lia. bstep. destruct (Z.ltb_spec (pci_address r + range_size r) (al + size)).
  - eexists _, _. split; [done|]. split; [done|]. intros x Hx Hxm. specialize (Hleast x Hxm Hx). lia.
  - unfold to_cpu_addr. rewrite as_i64_small, i64_small by lia. bstep. eexists _, _. split; [done|]. unfold as_usize. split; [split; simpl; try lia|split; [done|simpl; lia]].
    rewrite Z.mod_small by lia. lia.
Qed.

(** Requests one after the other. *)
Fixpoint allocate_all (a : PCIAllocator) (sizes : list Z) : outcome (list (option PCIAllocatedSpace)) :=
  match sizes with
  | [] => Ret []
  | size :: sizes => '(o, a) ← allocate a size; rest ← allocate_all a sizes; Ret (o :: rest)
  end.

Lemma allocate_all_at r : window_ok r → ∀ sizes low a, alloc_at r low a → Forall (λ s, 0 < s ≤ 2 ^ 62) sizes →
  ∃ l, allocate_all a sizes = Ret l ∧ length l = length sizes ∧
    (∀ i size sp, sizes !! i = Some size → l !! i = Some (Some sp) → block_ok r low size sp) ∧
    (∀ i j sp sp', (i < j)%nat → l !! i = Some (Some sp) → l !! j = Some (Some sp') → sp_pci sp + sp_size sp ≤ sp_pci sp').
Proof.
  intros Hw. induction sizes as [|size sizes IH]; intros low a Ha Hs; [exists []; by split_and!|]. apply Forall_cons in Hs as [Hs1 Hs]. cbn [allocate_all].
  destruct (allocate_at r low a size Hw Ha Hs1) as (o & a' & -> & Ho). bstep.
  assert (∃ low', alloc_at r low' a' ∧ low ≤ low' ∧ ∀ sp, o = Some sp → block_ok r low size sp ∧ low' = sp_pci sp + size) as (low' & Ha' & Hle & Hsp).
  { destruct o as [sp|]; [|destruct Ho as [-> _]; exists low; split_and!; [done|lia|done]]. destruct Ho as [Hb Ha']. exists (sp_pci sp + size). destruct Hb. split_and!; [done|lia|]. intros ? [= <-]. done. }
  destruct (IH low' a' Ha' Hs) as (l & -> & Hl & Hb & Hd). bstep. exists (o :: l). split_and!; [done|simpl; lia|..].
  - intros [|i] sz sp; simpl; [intros [= <-] [= ->]; by apply Hsp|]. intros H1 H2. destruct (Hb i sz sp H1 H2). split; try done. lia.
  - intros i [|j] sp sp' Hij Hi Hj; [lia|]. simpl in Hj. destruct i as [|i]; [|by eapply (Hd i j); [lia|..]]. simpl in Hi. injection Hi as ->.
    destruct (Hsp sp eq_refl) as [[Hsz _ _ _ _] E]. destruct (sizes !! j) as [szj|] eqn:Ej; [|apply lookup_ge_None in Ej; apply lookup_lt_Some in Hj; lia].
    destruct (Hb j szj sp' Ej Hj). lia.
Qed.

(** C36: The addresses that PCI devices get are within the host bridge's window and do not
    overlap: from a window of 62-bit addresses, requests of any sizes are all answered
    without an overflow, and every block that is given lies in the window, is aligned to
    its size, has the CPU address that the window's translation gives, and starts behind
    all the blocks given before it. *)
Theorem pci_blocks_fit r sizes : window_ok r → Forall (λ s, 0 < s ≤ 2 ^ 62) sizes →
  ∃ a l, alloc_init r = Ret a ∧ allocate_all a sizes = Ret l ∧ length l = length sizes ∧
    (∀ i size sp, sizes !! i = Some size → l !! i = Some (Some sp) → block_ok r (pci_address r) size sp) ∧
    (∀ i j sp sp', (i < j)%nat → l !! i = Some (Some sp) → l !! j = Some (Some sp') → sp_pci sp + sp_size sp ≤ sp_pci sp').
Proof.
  intros Hw Hs. destruct (alloc_init_at r Hw) as (a & Ha & Hat). destruct (allocate_all_at r Hw sizes _ a Hat Hs) as (l & H). by exists a, l.
Qed.

Lemma pci_blocks_fit_witness : ∃ a l, alloc_init (MkRange 0x2000000 0x40000000 0x40000000 0x40000000) = Ret a ∧
  allocate_all a [0x1000; 0x4000; 0x1000; 0x80000000] = Ret l ∧ l !! 1%nat = Some (Some (MkSpace 0x40004000 0x40004000 0x4000)).
Proof.
  destruct (pci_blocks_fit (MkRange 0x2000000 0x40000000 0x40000000 0x40000000) [0x1000; 0x4000; 0x1000; 0x80000000]) as (a & l & H1 & H2 & _);
    [split; simpl; lia|apply (bool_decide_unpack _); vm_compute; exact I|]. exists a, l. split; [exact H1|]. split; [exact H2|]. vm_compute in H1. injection H1 as <-. vm_compute in H2. by injection H2 as <-.
Defined.

(** ** Base address registers *)
(** The registers of a function as the specification has them: the bits of [bar_mask] can
    be written, those of [bar_flags] are fixed; registers do not affect each other. *)
Class PciBarLaws (C : Type) `{PciFunction C} (bar_mask bar_flags : nat → Z) : Prop := {
  bar_written c i v : read_bar (set_bar c i v) i = Z.lor (Z.land v (bar_mask i)) (bar_flags i);
  bar_other c i j v : i ≠ j → read_bar (set_bar c i v) j = read_bar c j;
  bar_fixed c i : in_width 32 (read_bar c i) ∧ Z.ldiff (read_bar c i) (bar_mask i) = bar_flags i;
  bar_command c v i : read_bar (write_command c v) i = read_bar c i;
  command_written c v : command_register (write_command c v) = v;
  command_bar c i v : command_register (set_bar c i v) = command_register c;
}.

(** The type of a memory register: of 64 bits, with the next register for the high half. *)
Definition is_64 (flags : Z) : bool := Z.shiftr (Z.land flags 6) 1 =? 2.

(** A memory register for [2 ^ k] bytes. *)
Record memory_bar (bar_mask bar_flags : nat → Z) (i : nat) (k : Z) : Prop := {
  mb_size : 4 ≤ k < 32;
  mb_mask : bar_mask i = Z.ldiff (Z.ones 32) (Z.ones k);
  mb_flags : 0 ≤ bar_flags i < 16 ∧ Z.land (bar_flags i) 1 = 0;
  mb_index : (i < 6)%nat;
  mb_high : is_64 (bar_flags i) = true → (S i < 6)%nat ∧ bar_mask (S i) = Z.ones 32 ∧ bar_flags (S i) = 0;
}.

(** The address that the device decodes. *)
Definition decoded {C} `{PciFunction C} (c : C) (i : nat) : Z :=
  Z.lor (Z.ldiff (read_bar c i) 15) (if is_64 (Z.land (read_bar c i) 15) then Z.shiftl (read_bar c (S i)) 32 else 0).

Lemma bar_size_mask k flags : 4 ≤ k < 32 → 0 ≤ flags < 16 → bar_size (Z.lor (Z.land 0xffffffff (Z.ldiff (Z.ones 32) (Z.ones k))) flags) = Ret (2 ^ k).
Proof.
  intros Hk Hf. unfold bar_size. change 0xffffffff with (Z.ones 32). change 15 with (Z.ones 4). assert (in_width 4 flags) as Hw by done.
  assert (bitnot 32 (Z.land (Z.lor (Z.land (Z.ones 32) (Z.ldiff (Z.ones 32) (Z.ones k))) flags) (bitnot 32 (Z.ones 4))) = Z.ones k) as ->.
  { unfold bitnot. zbits. }
  apply add_Ret. rewrite Z.ones_equiv. assert (2 ^ k ≤ 2 ^ 31) by (apply Z.pow_le_mono_r; lia). lia.
Qed.

Lemma bar_low_bits v k flags : 4 ≤ k < 32 → in_width 32 v → 0 ≤ flags < 16 → Z.ldiff v (Z.ldiff (Z.ones 32) (Z.ones k)) = flags → Z.land v 15 = flags.
Proof.
  intros Hk Hv Hf <-. change 15 with (Z.ones 4). assert (in_width 4 (Z.ldiff v (Z.ldiff (Z.ones 32) (Z.ones k)))) as Hw by done.
  apply Z.bits_inj'. intros i Hi. destruct (decide (i < 4)).
  - rewrite Z.land_spec, !Z.ldiff_spec, !testbit_ones' by lia. rewrite !bool_decide_eq_true_2 by lia. simpl. by rewrite !andb_true_r.
  - rewrite (testbit_out 4 _ i Hw) by lia. rewrite Z.land_spec, testbit_ones' by lia. rewrite bool_decide_eq_false_2 by lia. apply andb_false_r.
Qed.

(** An aligned address written to a register is read back. *)
Lemma aligned_low a k flags : 0 ≤ a → 4 ≤ k < 32 → a mod 2 ^ k = 0 → 0 ≤ flags < 16 →
  let v := Z.lor (Z.land (Z.land a 0xffffffff) (Z.ldiff (Z.ones 32) (Z.ones k))) flags in Z.ldiff v 15 = Z.land a 0xffffffff ∧ Z.land v 15 = flags.
Proof.
  intros Ha Hk Hm Hf. apply Z.mod_divide in Hm as [q ->]; [|lia]. rewrite <-Z.shiftl_mul_pow2 by lia. assert (in_width 4 flags) as Hw by done.
  change 15 with (Z.ones 4). change 0xffffffff with (Z.ones 32). cbv zeta.
  assert (∀ i, 0 ≤ i < k → Z.testbit (Z.shiftl q k) i = false) as Hlow by (intros i Hi; rewrite Z.shiftl_spec_low by lia; done).
  split; apply Z.bits_inj'; intros i Hi; rewrite ?Z.ldiff_spec, ?Z.land_spec, ?Z.lor_spec, ?Z.land_spec, ?Z.ldiff_spec, !testbit_ones' by lia.
  - destruct (decide (i < k)) as [Hik|Hik]; [rewrite (Hlow i) by lia|]; destruct (decide (i < 4)).
    + rewrite (bool_decide_eq_true_2 (0 ≤ i < 4)) by lia. by rewrite andb_false_r.
    + rewrite (testbit_out 4 flags i Hw) by lia. done.
    + lia.
    + rewrite (testbit_out 4 flags i Hw), (bool_decide_eq_false_2 (0 ≤ i < 4)), (bool_decide_eq_false_2 (0 ≤ i < k)) by lia. simpl. rewrite orb_false_r, !andb_true_r. by destruct (Z.testbit _ _), (bool_decide _).
  - destruct (decide (i < 4)).
    + rewrite (Hlow i), (bool_decide_eq_true_2 (0 ≤ i < 4)) by lia. simpl. by rewrite andb_true_r.
    + rewrite (testbit_out 4 flags i Hw), (bool_decide_eq_false_2 (0 ≤ i < 4)) by lia. by rewrite andb_false_r.
Qed.

Lemma split_halves a : 0 ≤ a → Z.lor (Z.land a 0xffffffff) (Z.shiftl (Z.shiftr a 32) 32) = a.
Proof.
  intros Ha. rewrite Z.lor_comm. change 0xffffffff with (Z.ones 32). rewrite Z.land_ones by lia. rewrite Z.shiftl_mul_pow2, Z.shiftr_div_pow2 by lia.
  pose proof (Z.div_mod a (2 ^ 32) ltac:(lia)) as H. pose proof (Z.mod_pos_bound a (2 ^ 32) ltac:(lia)). rewrite <-Z.lxor_lor, <-Z.add_nocarry_lxor; [lia|..];
    apply Z.bits_inj'; intros i Hi; rewrite Z.land_spec, Z.bits_0, <-Z.shiftl_mul_pow2 by lia; (destruct (decide (i < 32)); [by rewrite Z.shiftl_spec_low by lia|]);
    rewrite (testbit_out 32 (a mod 2 ^ 32) i) by (unfold in_width; lia); apply andb_false_r.
Qed.

Lemma is_64_type v : (Z.shiftr (Z.land v 6) 1 =? 2) = is_64 (Z.land v 15).
Proof. unfold is_64. rewrite <-Z.land_assoc. done. Qed.

Section bars.
Context {C : Type} `{PF : PciFunction C} (bar_mask bar_flags : nat → Z) {LAWS : PciBarLaws C bar_mask bar_flags}.

(** The allocator for a register of this type. *)
Definition alloc_for (s : PciState C) (i : nat) : PCIAllocator := if is_64 (bar_flags i) then alloc64 s else alloc32 s.

Lemma memory_bar_type (c : C) i k : memory_bar bar_mask bar_flags i k → Z.land (read_bar c i) 15 = bar_flags i.
Proof. intros [Hk Hm [Hf _] _ _]. destruct (bar_fixed c i) as [Hw Hd]. rewrite Hm in Hd. by apply (bar_low_bits _ k). Qed.

Lemma bar_eq (c : C) i : (i < 6)%nat → bar c (Z.of_nat i) = Ret (read_bar c i).
Proof. intros Hi. unfold bar. rewrite (proj2 (Z.ltb_lt _ _)) by lia. by rewrite Nat2Z.id. Qed.

Lemma write_bar_eq (c : C) i v : (i < 6)%nat → write_bar c (Z.of_nat i) v = Ret (set_bar c i v).
Proof. intros Hi. unfold write_bar. rewrite (proj2 (Z.ltb_lt _ _)) by lia. by rewrite Nat2Z.id. Qed.

Lemma u32_eq x : x < 2 ^ 32 → u32_try_from x = Ret x.
Proof. intros Hx. unfold u32_try_from. by rewrite (proj2 (Z.ltb_lt _ _)). Qed.

(** A register of a function, after the writes of [get_or_initialize_bar]. *)
Lemma program_bar (c : C) i k a : memory_bar bar_mask bar_flags i k → 0 ≤ a < 2 ^ 62 → a mod 2 ^ k = 0 → (is_64 (bar_flags i) = false → a < 2 ^ 32) →
  ∃ c', (c1 ← write_bar c (Z.of_nat i) (Z.land a 0xffffffff);
    (if is_64 (bar_flags i) then j ← add 8 (Z.of_nat i) 1; high ← u32_try_from (Z.shiftr a 32); write_bar c1 j high else Ret c1)) = Ret c' ∧
    decoded c' i = a ∧ command_register c' = command_register c ∧ ∀ j, j ≠ i → (is_64 (bar_flags i) = true → j ≠ S i) → read_bar c' j = read_bar c j.
Proof.
  intros Hb Ha Hm H32. pose proof Hb as [Hk Hmask [Hf _] Hi Hhigh]. rewrite write_bar_eq by done. bstep.
  set (c1 := set_bar c i (Z.land a 0xffffffff)). destruct (aligned_low a k (bar_flags i) ltac:(lia) Hk Hm Hf) as [L1 L2]. rewrite <-Hmask in L1, L2.
  assert (read_bar c1 i = Z.lor (Z.land (Z.land a 0xffffffff) (bar_mask i)) (bar_flags i)) as Hr by apply bar_written.
  destruct (is_64 (bar_flags i)) eqn:E64.
  - destruct Hhigh as (Hi2 & Hm2 & Hf2); [done|]. rewrite (proj2 (add_Ret 8 (Z.of_nat i) 1 (Z.of_nat (S i)))) by lia. bstep.
    assert (0 ≤ Z.shiftr a 32 < 2 ^ 30) as Hsh. { rewrite Z.shiftr_div_pow2 by lia. split; [apply Z.div_pos; lia|]. apply Z.div_lt_upper_bound; lia. }
    rewrite u32_eq by lia. bstep. rewrite write_bar_eq by done. eexists. split; [done|].
    split; [|split; [unfold c1; by rewrite !command_bar|intros j Hj1 Hj2; rewrite bar_other by (intros <-; by apply Hj2); unfold c1; by rewrite bar_other]].
    unfold decoded. rewrite (bar_other c1 (S i) i), bar_written, Hr, L1, L2, E64, Hm2, Hf2 by lia. rewrite Z.lor_0_r, Z.land_ones, Z.mod_small by lia. apply split_halves. lia.
  - eexists. split; [done|]. split; [|split; [unfold c1; by rewrite command_bar|intros j Hj1 _; unfold c1; by rewrite bar_other]].
    unfold decoded. rewrite Hr, L1, L2, E64. rewrite Z.lor_0_r. change 0xffffffff with (Z.ones 32). rewrite Z.land_ones by lia. apply Z.mod_small. specialize (H32 eq_refl). lia.
Qed.

End bars.

(** ** A function with one register of 64 bits, for 16 KiB *)
Section example.
Definition ex_mask (i : nat) : Z := match i with 4%nat => Z.ldiff (Z.ones 32) (Z.ones 14) | 5%nat => Z.ones 32 | _ => 0 end.
Definition ex_flags (i : nat) : Z := match i with 4%nat => 12 | _ => 0 end.

#[local] Instance ex_function : PciFunction (gmap nat Z * Z) := {|
  vendor_id := λ _, 0x1af4; device_id := λ _, 0x1041; status_register := λ _, 16; header_type := λ _, 0; capabilities_pointer := λ _, 0x40;
  capability_next := λ _ _, 0; command_register := snd; write_command := λ c v, (fst c, v);
  read_bar := λ c i, Z.lor (Z.land (default 0 (fst c !! i)) (ex_mask i)) (ex_flags i); set_bar := λ c i v, (<[i := v]> (fst c), snd c) |}.

Lemma ex_masked v : in_width 32 (Z.land v (Z.ones 32)).
Proof. rewrite Z.land_ones by lia. apply Z.mod_pos_bound. lia. Qed.

#[local] Instance ex_laws : PciBarLaws (gmap nat Z * Z) ex_mask ex_flags.
Proof.
  split; [by intros; simpl; rewrite lookup_insert_eq|by intros; simpl; rewrite lookup_insert_ne| |done..].
  intros [m cmd] i. simpl. set (v := default 0 (m !! i)). clearbody v. destruct i as [|[|[|[|[|[|i]]]]]]; cbn [ex_mask ex_flags]; rewrite ?Z.land_0_r, ?Z.lor_0_r; try (split; [done|done]).
  - assert (∀ i, 14 ≤ i → Z.testbit 12 i = false) as Ht by (intros i Hi; apply (testbit_out 4); [done|lia]).
    split; [assert (Z.lor (Z.land v (Z.ldiff (Z.ones 32) (Z.ones 14))) 12 = Z.land (Z.lor (Z.ldiff v (Z.ones 14)) 12) (Z.ones 32)) as ->; [|apply ex_masked]|];
      apply Z.bits_inj'; intros i Hi; rewrite ?Z.ldiff_spec, ?Z.land_spec, ?Z.lor_spec, ?Z.land_spec, ?Z.ldiff_spec, !testbit_ones' by lia;
      (destruct (decide (i < 14)); [rewrite !(bool_decide_eq_true_2 (0 ≤ i < _)) by lia|rewrite !(bool_decide_eq_false_2 (0 ≤ i < 14)), Ht by lia]);
      by destruct (Z.testbit v i), (Z.testbit 12 i), (bool_decide (0 ≤ i < 32)).
  - split; [apply ex_masked|]. zbits.
Qed.

Definition ex_state : PciState (gmap nat Z * Z) := MkPci (MkDevice (∅, 3) ∅ 1) (MkAlloc 0x400000000 0x800000000 0) alloc_new.

End example.

(** Function numbers that enumeration does not look at: those of the last bus. *)
Lemma bus_255_not_searched device function : (255, device, function) ∉ all_functions.
Proof.
  unfold all_functions. intros (bus & Hin & Hb)%list_elem_of_bind. apply elem_of_seqZ in Hb. apply list_elem_of_bind in Hin as (d & (f & [= <- _ _]%list_elem_of_singleton & _)%list_elem_of_bind & _). lia.
Qed.
