(* ===== verification/Plic.v ===== *)
(** External interrupts: crates/kernel/src/interrupts/plic.rs, the platform-level interrupt
    controller and the handlers of drivers, with [handle_external_interrupt] of trap.rs.

    The controller's registers are memory at addresses; what a read of the claim register
    returns is the hardware's choice, an input of the operation. *)
From S2P Require Import Prelude KUtil Bytes Parser Paths DeviceTree.

Record Plic := MkPlic { base : Z; plic_size : Z; num_sources : Z; context : Z }.

Definition S_MODE_EXTERNAL_INTERRUPT : Z := 9.

(** ** Registers *)
Abbreviation registers := (gmap Z Z).
Definition rd (m : registers) (a : Z) : Z := default 0 (m !! a).

Definition enable_register (p : Plic) : Z := base p + 0x2000 + 0x80 * context p.
Definition threshold_register (p : Plic) : Z := base p + 0x200000 + 0x1000 * context p.
Definition claim_complete_register (p : Plic) : Z := base p + 0x200004 + 0x1000 * context p.

(** [add_within_region] of a register of four bytes. *)
Definition add_within_region (a count region_elements : Z) : outcome Z := _ ← rassert (count <? region_elements); Ret (a + 4 * count).

(** [for word in 0..num_words] of [disable_all] *)
Definition disable_all (p : Plic) (m : registers) : outcome registers :=
  foldM (λ m word, a ← add_within_region (enable_register p) word (plic_size p / 4); Ret (<[a := 0]> m)) (seqZ 0 ((num_sources p + 31) / 32)) m.

Definition enable (p : Plic) (m : registers) (interrupt_id : Z) : outcome registers :=
  a ← add_within_region (enable_register p) (interrupt_id / 32) (plic_size p / 4);
  Ret (<[a := Z.lor (rd m a) (Z.shiftl 1 (interrupt_id mod 32))]> m).

Definition disable (p : Plic) (m : registers) (interrupt_id : Z) : outcome registers :=
  a ← add_within_region (enable_register p) (interrupt_id / 32) (plic_size p / 4);
  Ret (<[a := Z.land (rd m a) (bitnot 32 (Z.shiftl 1 (interrupt_id mod 32)))]> m).

Definition set_priority (p : Plic) (m : registers) (interrupt_id priority : Z) : outcome registers :=
  _ ← rassert (priority <=? 7);
  a ← add_within_region (base p) interrupt_id (plic_size p / 4);
  Ret (<[a := priority]> m).

Definition set_threshold (p : Plic) (m : registers) (threshold : Z) : outcome registers :=
  _ ← rassert (threshold <=? 7); Ret (<[threshold_register p := threshold]> m).

(** [claim], given what the register reads. *)
Definition claim (value : Z) : option Z := if value =? 0 then None else Some value.

Definition complete (p : Plic) (m : registers) (irq : Z) : registers := <[claim_complete_register p := irq]> m.

(** [while let Some(irq) = claim() { complete(irq) }], given what the reads return. *)
Fixpoint drain_pending (p : Plic) (m : registers) (reads : list Z) : registers :=
  match reads with
  | [] => m
  | r :: reads => match claim r with None => m | Some irq => drain_pending p (complete p m irq) reads end
  end.

Definition init_plic (p : Plic) (m : registers) (reads : list Z) : outcome registers :=
  m ← disable_all p m; m ← set_threshold p m 0; Ret (drain_pending p m reads).

(** ** Which context is the boot hart's *)
Fixpoint context_loop (fuel : nat) (buf : ConsumableBuffer) (phandle index : Z) : outcome Z :=
  match fuel with
  | O => Panic
  | S fuel =>
      if bool_decide (size_left buf < 8)%nat then Panic
      else
        '(ph, buf) ← consume_be buf 4; ph ← expect ph;
        '(irq_type, buf) ← consume_be buf 4; irq_type ← expect irq_type;
        if (ph =? phandle) && (irq_type =? S_MODE_EXTERNAL_INTERRUPT) then Ret index
        else i ← add 64 index 1; context_loop fuel buf phandle i
  end.

Fixpoint boot_phandle (dt : DeviceTree) (boot_cpu_id : Z) (cpus : list Node) : outcome (option Z) :=
  match cpus with
  | [] => Ret None
  | cpu_node :: cpus =>
      if negb (starts_with (b "cpu@") (n_name cpu_node)) then boot_phandle dt boot_cpu_id cpus
      else
        reg ← get_property dt cpu_node (b "reg");
        match reg with
        | None => boot_phandle dt boot_cpu_id cpus
        | Some d =>
            hart_id ← be_u32 (Some d); hart_id ← expect hart_id;
            if hart_id =? boot_cpu_id then
              intc ← find_node dt cpu_node (b "interrupt-controller"); intc ← expect intc;
              ph ← get_property dt intc (b "phandle"); ph ← be_u32 ph; ph ← expect ph;
              Ret (Some ph)
            else boot_phandle dt boot_cpu_id cpus
        end
  end.

Definition find_s_mode_context (dt : DeviceTree) (boot_cpu_id : Z) (plic_node : Node) : outcome Z :=
  root ← root_node dt;
  cpus ← find_node dt root (b "cpus"); cpus ← expect cpus;
  nodes ← children dt cpus;
  phandle ← boot_phandle dt boot_cpu_id nodes; phandle ← expect phandle;
  ext ← get_property dt plic_node (b "interrupts-extended"); ext ← expect ext;
  context_loop (S (length ext)) (cb_new ext) phandle 0.

Definition discover_from_device_tree (dt : DeviceTree) (boot_cpu_id : Z) : outcome Plic :=
  root ← root_node dt;
  n ← find_node dt root (b "plic");
  n ← (match n with Some n => Ret (Some n) | None => find_node dt root (b "interrupt-controller") end);
  plic_node ← expect n;
  reg ← parse_reg_property dt plic_node; reg ← expect reg;
  ndev ← get_property dt plic_node (b "riscv,ndev"); ndev ← be_u32 ndev; num_sources ← expect ndev;
  context ← find_s_mode_context dt boot_cpu_id plic_node;
  Ret (MkPlic (r_address reg) (r_size reg) num_sources context).

(** ** Handlers *)
(** A handler of a driver, by a number. *)
Record InterruptHandler := MkHandler { irq : Z; slot : Z; handler : nat }.

(** [ran]: the handlers that were called. *)
Record Irqs := MkIrqs { regs : registers; INTERRUPT_HANDLERS : list InterruptHandler; NEXT_SLOT_ID : Z; ran : list nat }.

Definition register (p : Plic) (s : Irqs) (i : Z) (h : nat) : outcome (Z * Irqs) :=
  m ← enable p (regs s) i;
  m ← set_priority p m i 1;
  let slot := NEXT_SLOT_ID s in
  Ret (slot, MkIrqs m (INTERRUPT_HANDLERS s ++ [MkHandler i slot h]) (wrapping_add 64 slot 1) (ran s)).

Definition unregister (p : Plic) (s : Irqs) (sl : Z) : outcome Irqs :=
  match list_position (λ h, slot h =? sl) (INTERRUPT_HANDLERS s) with
  | None => Ret s
  | Some pos =>
      removed ← expect (INTERRUPT_HANDLERS s !! pos);
      let handlers := swap_remove (INTERRUPT_HANDLERS s) pos in
      m ← (if existsb (λ h, irq h =? irq removed) handlers then Ret (regs s) else disable p (regs s) (irq removed));
      Ret (MkIrqs m handlers (NEXT_SLOT_ID s) (ran s))
  end.

Definition dispatch_interrupt (s : Irqs) (i : Z) : outcome Irqs :=
  match find (λ h, irq h =? i) (INTERRUPT_HANDLERS s) with
  | Some h => Ret (MkIrqs (regs s) (INTERRUPT_HANDLERS s) (NEXT_SLOT_ID s) (ran s ++ [handler h]))
  | None => Panic
  end.

(** [handle_external_interrupt], given what the claim register reads. *)
Definition handle_external_interrupt (p : Plic) (s : Irqs) (value : Z) : outcome Irqs :=
  match claim value with
  | None => Ret s
  | Some i => s ← dispatch_interrupt s i; Ret (MkIrqs (complete p (regs s) i) (INTERRUPT_HANDLERS s) (NEXT_SLOT_ID s) (ran s))
  end.

(** ** Interrupts that are enabled have a handler *)
(** A controller as boards have them: at most 1023 sources, a region that has the priorities at least. *)
Record plic_ok (p : Plic) : Prop := {
  pk_sources : 1 ≤ num_sources p ≤ 1023;
  pk_context : 0 ≤ context p < 15872;
  pk_size : 0x1000 ≤ plic_size p;
}.

(** The address of the word with the enable bit of [i], and the bit. *)
Definition enable_word (p : Plic) (i : Z) : Z := enable_register p + 4 * (i / 32).
Definition enabled (p : Plic) (m : registers) (i : Z) : bool := Z.testbit (rd m (enable_word p i)) (i mod 32).
Definition source (p : Plic) (i : Z) : Prop := 1 ≤ i ≤ num_sources p.

Section plic.
Context (p : Plic) (OK : plic_ok p).

Lemma within a c : c < 0x400 → add_within_region a c (plic_size p / 4) = Ret (a + 4 * c).
Proof.
  intros Hc. destruct OK as [_ _ Hs]. unfold add_within_region. assert (0x400 ≤ plic_size p / 4) by (apply Z.div_le_lower_bound; lia). by rewrite (proj2 (Z.ltb_lt _ _)) by lia.
Qed.

Lemma word_range i : source p i → 0 ≤ i / 32 < 32.
Proof. intros Hi. destruct OK as [Hs _ _]. unfold source in Hi. split; [apply Z.div_pos; lia|apply Z.div_lt_upper_bound; lia]. Qed.

(** Other registers lie elsewhere. *)
Lemma enable_word_ne i a : source p i → (∃ j, source p j ∧ a = base p + 4 * j) ∨ a = threshold_register p ∨ a = claim_complete_register p → enable_word p i ≠ a.
Proof.
  intros Hi Ha. pose proof (word_range i Hi). destruct OK as [H1 H2 H3]. unfold enable_word, enable_register, threshold_register, claim_complete_register, source in *. destruct Ha as [(j & Hj & ->)|[->| ->]]; lia.
Qed.

Lemma enabled_other m a v i : enable_word p i ≠ a → enabled p (<[a := v]> m) i = enabled p m i.
Proof. intros Hne. unfold enabled, rd. by rewrite lookup_insert_ne. Qed.

(** A word changed by a function of bits. *)
Lemma enabled_word m f i j : source p i → source p j → (∀ v k, 0 ≤ k < 32 → Z.testbit (f v) k = if bool_decide (k = i mod 32) then Z.testbit (f v) k else Z.testbit v k) →
  enabled p (<[enable_word p i := f (rd m (enable_word p i))]> m) j = if bool_decide (i = j) then Z.testbit (f (rd m (enable_word p i))) (i mod 32) else enabled p m j.
Proof.
  intros Hi Hj Hf. assert (0 ≤ j mod 32 < 32) by (apply Z.mod_pos_bound; lia). pose proof (Z.div_mod i 32 ltac:(lia)). pose proof (Z.div_mod j 32 ltac:(lia)).
  destruct (decide (i / 32 = j / 32)) as [E|Hne].
  - assert (enable_word p j = enable_word p i) as Ew by (unfold enable_word; by rewrite E). unfold enabled. rewrite Ew. unfold rd at 1. rewrite lookup_insert_eq. simpl.
    case_bool_decide as D; [by subst|]. rewrite Hf by done. rewrite bool_decide_eq_false_2 by lia. done.
  - rewrite enabled_other by (unfold enable_word; lia). by rewrite bool_decide_eq_false_2 by congruence.
Qed.

Lemma enable_eq m i : source p i → ∃ m', enable p m i = Ret m' ∧ ∀ j, source p j → enabled p m' j = bool_decide (i = j) || enabled p m j.
Proof.
  intros Hi. pose proof (word_range i Hi). unfold enable. rewrite within by lia. bstep. fold (enable_word p i). eexists. split; [done|]. intros j Hj. assert (0 ≤ i mod 32 < 32) by (apply Z.mod_pos_bound; lia).
  rewrite (enabled_word m (λ v, Z.lor v (Z.shiftl 1 (i mod 32)))); [|done|done|intros v k Hk; case_bool_decide; [done|]; rewrite Z.lor_spec, Z.shiftl_1_l, Z.pow2_bits_false by lia; apply orb_false_r].
  case_bool_decide; [|done]. rewrite Z.lor_spec, Z.shiftl_1_l, Z.pow2_bits_true by lia. apply orb_true_r.
Qed.

Lemma disable_eq m i : source p i → ∃ m', disable p m i = Ret m' ∧ ∀ j, source p j → enabled p m' j = negb (bool_decide (i = j)) && enabled p m j.
Proof.
  intros Hi. pose proof (word_range i Hi). unfold disable. rewrite within by lia. bstep. fold (enable_word p i). eexists. split; [done|]. intros j Hj. assert (0 ≤ i mod 32 < 32) by (apply Z.mod_pos_bound; lia).
  assert (∀ k, 0 ≤ k < 32 → Z.testbit (bitnot 32 (Z.shiftl 1 (i mod 32))) k = negb (bool_decide (k = i mod 32))) as Hn.
  { intros k Hk. unfold bitnot. rewrite Z.ldiff_spec, testbit_ones', Z.shiftl_1_l by lia. rewrite bool_decide_eq_true_2 by lia. simpl. case_bool_decide; [subst; by rewrite Z.pow2_bits_true by lia|by rewrite Z.pow2_bits_false by lia]. }
  rewrite (enabled_word m (λ v, Z.land v (bitnot 32 (Z.shiftl 1 (i mod 32))))); [|done|done|intros v k Hk; case_bool_decide; [done|]; rewrite Z.land_spec, Hn, bool_decide_eq_false_2 by done; apply andb_true_r].
  case_bool_decide; [|done]. rewrite Z.land_spec, Hn, bool_decide_eq_true_2 by (done || lia). apply andb_false_r.
Qed.

(** [disable_all] clears the words of [0 .. 32 * words). *)
Lemma disable_all_eq m : ∃ m', disable_all p m = Ret m' ∧ ∀ j, 0 ≤ j < 32 * ((num_sources p + 31) / 32) → enabled p m' j = false.
Proof.
  pose proof (pk_sources p OK) as Hs. unfold disable_all. assert (∀ n k m, 0 ≤ k → k + Z.of_nat n ≤ 32 → ∃ m', foldM (λ m word, a ← add_within_region (enable_register p) word (plic_size p / 4); Ret (<[a := 0]> m)) (seqZ k (Z.of_nat n)) m = Ret m' ∧
    (∀ j, 32 * k ≤ j < 32 * (k + Z.of_nat n) → rd m' (enable_word p j) = 0) ∧ (∀ j, 0 ≤ j < 32 * k → rd m' (enable_word p j) = rd m (enable_word p j))) as H.
  { induction n as [|n IH]; intros k m0 Hk Hn; [exists m0; simpl; split_and!; [done|lia|done]|]. rewrite seqZ_cons by lia. cbn [foldM]. rewrite within by lia. bstep.
    replace (Z.pred (Z.of_nat (S n))) with (Z.of_nat n) by lia. destruct (IH (Z.succ k) (<[enable_register p + 4 * k := 0]> m0)) as (m' & -> & H1 & H2); [lia..|]. exists m'. split; [done|].
    assert (∀ j, 0 ≤ j → enable_word p j = enable_register p + 4 * k ↔ 32 * k ≤ j < 32 * (k + 1)) as Hw.
    { intros j Hj. unfold enable_word. pose proof (Z.div_mod j 32 ltac:(lia)). pose proof (Z.mod_pos_bound j 32 ltac:(lia)). lia. }
    split; intros j Hj.
    - destruct (decide (32 * Z.succ k ≤ j)); [apply H1; lia|]. rewrite H2 by lia. rewrite (proj2 (Hw j ltac:(lia))) by lia. unfold rd. by rewrite lookup_insert_eq.
    - rewrite H2 by lia. unfold rd. rewrite lookup_insert_ne; [done|]. intros E. symmetry in E. apply Hw in E; lia. }
  assert (0 ≤ (num_sources p + 31) / 32 ≤ 32) by (split; [apply Z.div_pos; lia|apply Z.lt_succ_r, Z.div_lt_upper_bound; lia]).
  destruct (H (Z.to_nat ((num_sources p + 31) / 32)) 0 m) as (m' & Hm & H1 & _); [lia..|]. rewrite Z2Nat.id in Hm, H1 by lia. exists m'. split; [done|]. intros j Hj. unfold enabled. rewrite H1 by lia. apply Z.testbit_0_l.
Qed.

(** *** The invariant *)
Record irqs_ok (s : Irqs) : Prop := {
  io_enabled : ∀ i, source p i → enabled p (regs s) i = true ↔ ∃ h, h ∈ INTERRUPT_HANDLERS s ∧ irq h = i;
  io_sources : ∀ h, h ∈ INTERRUPT_HANDLERS s → source p (irq h);
}.

Lemma register_ok s i h : irqs_ok s → source p i → ∃ sl s', register p s i h = Ret (sl, s') ∧ irqs_ok s'.
Proof.
  intros [H1 H2] Hi. unfold register. destruct (enable_eq (regs s) i Hi) as (m & -> & Hm). bstep. unfold set_priority. bstep. cbn [Z.leb].
  pose proof Hi as Hi'. destruct OK as [Hs _ _]. unfold source in Hi'. rewrite within by lia. bstep. eexists _, _. split; [done|]. split; cbn [regs INTERRUPT_HANDLERS].
  - intros j Hj. rewrite enabled_other by (apply enable_word_ne; [done|left; by exists i]). rewrite Hm by done. rewrite orb_true_iff, bool_decide_eq_true, H1 by done. split.
    + intros [->|(h' & Hin & E)]; eexists; (split; [apply elem_of_app|]); [right; by apply list_elem_of_singleton|done|by left|done].
    + intros (h' & [Hin| ->%list_elem_of_singleton]%elem_of_app & E); [right; by exists h'|by left].
  - intros h' [Hin| ->%list_elem_of_singleton]%elem_of_app; [by apply H2|done].
Qed.

Lemma unregister_ok s sl : irqs_ok s → ∃ s', unregister p s sl = Ret s' ∧ irqs_ok s'.
Proof.
  intros [H1 H2]. unfold unregister. destruct (list_position _ _) as [pos|] eqn:E; [|exists s; by split]. apply position_Some in E as (x & Hx & _). rewrite Hx. bstep.
  pose proof (symmetry (swap_remove_perm _ _ _ Hx)) as Hp. set (hs := swap_remove (INTERRUPT_HANDLERS s) pos) in *. assert (source p (irq x)) as Hsx by (apply H2; by eapply list_elem_of_lookup_2).
  assert (∀ h, h ∈ hs → source p (irq h)) as Hsrc by (intros h Hh; apply H2; rewrite Hp; by right).
  assert (∀ j, (∃ h, h ∈ INTERRUPT_HANDLERS s ∧ irq h = j) ↔ irq x = j ∨ ∃ h, h ∈ hs ∧ irq h = j) as Hor.
  { intros j. setoid_rewrite Hp. setoid_rewrite elem_of_cons. naive_solver. }
  destruct (existsb (λ h, irq h =? irq x) hs) eqn:Ee; bstep.
  - eexists. split; [done|]. split; [|done]. intros j Hj. cbn [regs INTERRUPT_HANDLERS]. rewrite H1, Hor by done. split; [|by right]. intros [<-|?]; [|done].
    apply existsb_exists in Ee as (h & Hh & Hi%Z.eqb_eq). exists h. split; [by apply list_elem_of_In|done].
  - destruct (disable_eq (regs s) (irq x) Hsx) as (m & -> & Hm). bstep. eexists. split; [done|]. split; [|done]. intros j Hj. cbn [regs INTERRUPT_HANDLERS].
    rewrite Hm, andb_true_iff, negb_true_iff, bool_decide_eq_false, H1, Hor by done. split; [by intros [? [?|?]]|]. intros (h & Hh & <-). split; [|right; by exists h].
    intros E. apply not_true_iff_false in Ee. apply Ee, existsb_exists. exists h. split; [by apply list_elem_of_In|by apply Z.eqb_eq].
Qed.

Lemma find_none {A} (f : A → bool) l : find f l = None → ∀ x, x ∈ l → f x = false.
Proof. intros H x Hx. by apply (find_none f l H), list_elem_of_In. Qed.

Lemma external_ok s v : irqs_ok s → v = 0 ∨ source p v ∧ enabled p (regs s) v = true →
  ∃ s', handle_external_interrupt p s v = Ret s' ∧ irqs_ok s' ∧
    (v ≠ 0 → ∃ h, h ∈ INTERRUPT_HANDLERS s ∧ irq h = v ∧ ran s' = ran s ++ [handler h] ∧ rd (regs s') (claim_complete_register p) = v).
Proof.
  intros Hok Hv. unfold handle_external_interrupt, claim. destruct (Z.eqb_spec v 0) as [->|Hv0]; [by exists s|]. destruct Hv as [?|[Hs He]]; [done|].
  destruct Hok as [H1 H2]. pose proof (proj1 (H1 v Hs) He) as (h & Hh & Hi). unfold dispatch_interrupt. destruct (find _ _) as [h'|] eqn:E.
  - apply find_some in E as [Hh' Hi'%Z.eqb_eq]. apply list_elem_of_In in Hh'. bstep. eexists. split; [done|]. split.
    + split; [|done]. intros j Hj. cbn [regs INTERRUPT_HANDLERS]. unfold complete. rewrite enabled_other by (apply enable_word_ne; auto). by apply H1.
    + intros _. exists h'. cbn [regs ran]. unfold complete, rd. by rewrite lookup_insert_eq.
  - eapply find_none in E; [|done]. simpl in E. rewrite Hi, Z.eqb_refl in E. done.
Qed.

(** What happens to the interrupts: drivers register and drop handlers, and the hardware
    interrupts, for a source that is enabled. *)
Inductive irq_step : Irqs → Irqs → Prop :=
  | step_register s i h sl s' : source p i → register p s i h = Ret (sl, s') → irq_step s s'
  | step_unregister s sl s' : unregister p s sl = Ret s' → irq_step s s'
  | step_external s v s' : v = 0 ∨ source p v ∧ enabled p (regs s) v = true → handle_external_interrupt p s v = Ret s' → irq_step s s'.

Lemma irq_step_ok s s' : irqs_ok s → irq_step s s' → irqs_ok s'.
Proof.
  intros Hok Hs. destruct Hs as [s i h sl s' Hi H|s sl s' H|s v s' Hv H].
  - destruct (register_ok s i h Hok Hi) as (? & ? & ? & ?). congruence.
  - destruct (unregister_ok s sl Hok) as (? & ? & ?). congruence.
  - destruct (external_ok s v Hok Hv) as (? & ? & ? & _). congruence.
Qed.

Lemma drain_pending_enabled reads : ∀ m j, source p j → enabled p (drain_pending p m reads) j = enabled p m j.
Proof.
  induction reads as [|r reads IH]; intros m j Hj; simpl; [done|]. destruct (claim r); [|done]. rewrite IH by done. unfold complete. apply enabled_other, enable_word_ne; auto.
Qed.

Lemma init_ok m0 reads : num_sources p mod 32 ≠ 0 → ∃ m, init_plic p m0 reads = Ret m ∧ irqs_ok (MkIrqs m [] 0 []).
Proof.
  intros Hmod. unfold init_plic. destruct (disable_all_eq m0) as (m1 & -> & H1). bstep. unfold set_threshold. bstep. cbn [Z.leb]. bstep. eexists. split; [done|]. split; cbn [regs INTERRUPT_HANDLERS].
  - intros i Hi. rewrite drain_pending_enabled, enabled_other by (done || (apply enable_word_ne; auto)). rewrite H1; [split; [done|]; by intros (h & Hh%elem_of_nil & _)|].
    unfold source in Hi. pose proof (Z.div_mod (num_sources p + 31) 32 ltac:(lia)). pose proof (Z.mod_pos_bound (num_sources p + 31) 32 ltac:(lia)). pose proof (Z.div_mod (num_sources p) 32 ltac:(lia)).
    pose proof (Z.mod_pos_bound (num_sources p) 32 ltac:(lia)). lia.
  - by intros h Hh%elem_of_nil.
Qed.
End plic.


(** ** QEMU's controller *)
Definition qemu_plic : Plic := MkPlic 0xc000000 0x600000 95 1.

(** Its registers after [init_plic], and with a handler for source 33. *)
Definition qemu_regs : registers := match init_plic qemu_plic ∅ [] with Ret m => m | Panic => ∅ end.
Definition qemu_start : Irqs := MkIrqs qemu_regs [] 0 [].
Definition qemu_irqs : Irqs := match register qemu_plic qemu_start 33 7 with Ret (_, s) => s | Panic => qemu_start end.


(** Two devices on one line: the handler of the second never runs. *)
Lemma shared_line_unserved : ∃ s s', (r ← register qemu_plic qemu_irqs 33 8; handle_external_interrupt qemu_plic (snd r) 33) = Ret s ∧
  handle_external_interrupt qemu_plic s 33 = Ret s' ∧ ran s' = [7; 7]%nat.
Proof. eexists _, _. split; [vm_compute; reflexivity|]. split; [vm_compute; reflexivity|]. reflexivity. Qed.

(** With 64 sources, source 64 is not disabled by [disable_all]. *)
Lemma last_source_left_enabled : let p := MkPlic 0xc000000 0x600000 64 1 in
  ∃ m m', enable p ∅ 64 = Ret m ∧ source p 64 ∧ disable_all p m = Ret m' ∧ enabled p m' 64 = true.
Proof. eexists _, _. split; [vm_compute; reflexivity|]. split; [unfold source; simpl; lia|]. split; vm_compute; reflexivity. Qed.

(** Between the two halves of [register], the source is enabled and has no handler: an
    interrupt then panics. *)
Lemma enabled_before_handler : ∃ m, enable qemu_plic qemu_regs 33 = Ret m ∧ enabled qemu_plic m 33 = true ∧
  handle_external_interrupt qemu_plic (MkIrqs m [] 0 []) 33 = Panic.
Proof. eexists. split; [vm_compute; reflexivity|]. split; vm_compute; reflexivity. Qed.
