(* ===== verification/Leb128.v ===== *)
(** The variable-length numbers of DWARF: crates/kernel/src/debugging/leb128.rs. *)
From S2P Require Import Prelude Bytes.

(** ** Parsing *)
(** The loop of [UnsignedLEB128::parse]: one turn per byte. The result is the value
    and the number of bytes. *)
Fixpoint uleb_loop (result shift size : Z) (buffer : list Z) : outcome (option (Z * Z)) :=
  match buffer with
  | [] => Ret None
  | next_byte :: buffer =>
      size ← add 64 size 1;
      v ← shl 64 (Z.land next_byte 127) shift;
      let result := Z.lor result v in
      if Z.land next_byte 128 =? 0 then Ret (Some (result, size))
      else
        shift ← add 8 shift 7;
        if 64 <=? shift then Ret None else uleb_loop result shift size buffer
  end.

Definition uleb_parse (buffer : list Z) : outcome (option (Z * Z)) := uleb_loop 0 0 0 buffer.

(** The loop of [SignedLEB128::parse], on the bit pattern of the result. *)
Fixpoint sleb_loop (result shift size : Z) (buffer : list Z) : outcome (option (Z * Z)) :=
  match buffer with
  | [] => Ret None
  | next_byte :: buffer =>
      size ← add 64 size 1;
      v ← shl 64 (Z.land next_byte 127) shift;
      let result := Z.lor result v in
      shift ← add 8 shift 7;
      if 64 <=? shift then Ret None
      else if Z.land next_byte 128 =? 0 then
        if (shift <? 64) && negb (Z.land next_byte 64 =? 0) then
          sign ← shl 64 (bitnot 64 0) shift;
          Ret (Some (signed 64 (Z.lor result sign), size))
        else Ret (Some (signed 64 result, size))
      else sleb_loop result shift size buffer
  end.

Definition sleb_parse (buffer : list Z) : outcome (option (Z * Z)) := sleb_loop 0 0 0 buffer.

(** ** The format *)
(** Groups of seven bits, the lowest first; all bytes but the last have bit 7 set. *)
Fixpoint uleb_bytes (n : nat) (v : Z) : list Z :=
  match n with
  | O => []
  | S n => if v <? 128 then [v] else (128 + v mod 128) :: uleb_bytes n (v / 128)
  end.
Definition uleb (v : Z) : list Z := uleb_bytes 10 v.

(** The last byte's bit 6 is the sign. *)
Fixpoint sleb_bytes (n : nat) (v : Z) : list Z :=
  match n with
  | O => []
  | S n => if (- 64 <=? v) && (v <? 64) then [v mod 128] else (128 + v mod 128) :: sleb_bytes n (v / 128)
  end.
Definition sleb (v : Z) : list Z := sleb_bytes 10 v.

(** ** Lemmas *)
Lemma land_127 x : Z.land x 127 = x mod 128.
Proof. change 127 with (Z.ones 7). by rewrite Z.land_ones by lia. Qed.

Lemma land_bit x n : 0 ≤ n → Z.land x (2 ^ n) = if Z.testbit x n then 2 ^ n else 0.
Proof.
  intros Hn. apply Z.bits_inj'. intros i Hi. rewrite Z.land_spec, Z.pow2_bits_eqb by done.
  destruct (Z.eqb_spec n i) as [->|]; [|destruct (Z.testbit x n); rewrite ?Z.testbit_0_l, ?Z.pow2_bits_eqb, andb_false_r by done; [by rewrite (proj2 (Z.eqb_neq _ _))|done]].
  destruct (Z.testbit x i) eqn:E; [rewrite Z.pow2_bits_eqb, Z.eqb_refl by done|rewrite Z.testbit_0_l]; done.
Qed.

(** A byte that is not the last: the seven bits it carries, and the mark. *)
Lemma leb_more x : 0 ≤ x < 128 → Z.land (128 + x) 127 = x ∧ (Z.land (128 + x) 128 =? 0) = false.
Proof.
  intros Hx. replace (128 + x) with (x + 1 * 128) by lia. split; [by rewrite land_127, Z.mod_add, Z.mod_small by lia|].
  change 128 with (2 ^ 7) at 2. rewrite land_bit by lia. rewrite (proj2 (Z.testbit_true _ 7 ltac:(lia))); [done|].
  change (2 ^ 7) with 128. by rewrite Z.div_add, Z.div_small by lia.
Qed.

Lemma leb_last x : 0 ≤ x < 128 → Z.land x 127 = x ∧ (Z.land x 128 =? 0) = true.
Proof.
  intros Hx. split; [by rewrite land_127, Z.mod_small by lia|]. change 128 with (2 ^ 7) at 1. rewrite land_bit by lia.
  by rewrite (testbit_out 7 x) by (unfold in_width; lia).
Qed.

(** The next seven bits of [v] go above the [shift] bits that are there. *)
Lemma gather_bits r shift x : 0 ≤ shift < 64 → 0 ≤ r < 2 ^ shift → 0 ≤ x → x * 2 ^ shift < 2 ^ 64 →
  ∃ y, shl 64 x shift = Ret y ∧ Z.lor r y = r + x * 2 ^ shift.
Proof. intros. rewrite shl_no_loss by done. eexists. split; [done|]. apply lor_disjoint; lia. Qed.

Lemma low_part v : v = v mod 128 + 128 * (v / 128) ∧ 0 ≤ v mod 128 < 128.
Proof. pose proof (Z.div_mod v 128 ltac:(lia)). pose proof (Z.mod_pos_bound v 128 ltac:(lia)). lia. Qed.

Lemma uleb_loop_bytes n : ∀ v r k size rest, 0 ≤ k → 7 * k < 64 → 0 ≤ r < 2 ^ (7 * k) → 0 ≤ v < 128 ^ Z.of_nat (S n) → v * 2 ^ (7 * k) < 2 ^ 64 →
  0 ≤ size → size + Z.of_nat (S n) < 2 ^ 64 →
  uleb_loop r (7 * k) size (uleb_bytes (S n) v ++ rest) = Ret (Some (r + v * 2 ^ (7 * k), size + Z.of_nat (length (uleb_bytes (S n) v)))).
Proof.
  induction n as [|n IH]; intros v r k size rest Hk Hs Hr Hv Hw Hz Hz'; (remember (S n) as n' eqn:En || set (n' := O)); cbn [uleb_bytes].
  all: destruct (Z.ltb_spec v 128) as [Hsm|Hbig]; cbn [uleb_loop app].
  all: rewrite (proj2 (add_Ret 64 size 1 (size + 1))) by lia; bstep.
  - destruct (leb_last v) as [-> ->]; [lia|]. destruct (gather_bits r (7 * k) v) as (y & -> & Hy); [lia..|]. bstep. by rewrite Hy.
  - change (128 ^ Z.of_nat 1) with 128 in Hv. lia.
  - destruct (leb_last v) as [-> ->]; [lia|]. destruct (gather_bits r (7 * k) v) as (y & -> & Hy); [lia..|]. bstep. by rewrite Hy.
  - destruct (low_part v) as [Hd Hm]. destruct (leb_more (v mod 128) Hm) as [-> ->].
    assert (0 < 2 ^ (7 * k)) as Hpos by (apply Z.pow_pos_nonneg; lia).
    assert (2 ^ (7 * (k + 1)) = 128 * 2 ^ (7 * k)) as Hp by (replace (7 * (k + 1)) with (7 + 7 * k) by lia; by rewrite Z.pow_add_r by lia).
    destruct (gather_bits r (7 * k) (v mod 128)) as (y & -> & Hy); [lia|lia|lia|nia|]. bstep. rewrite Hy.
    assert (7 * (k + 1) < 64) as Hs'.
    { destruct (decide (7 * (k + 1) < 64)) as [|Hn]; [done|]. assert (k = 9) as -> by lia. change (2 ^ (7 * 9)) with 9223372036854775808 in Hw. lia. }
    rewrite (proj2 (add_Ret 8 (7 * k) 7 (7 * (k + 1)))) by lia. bstep. rewrite (proj2 (Z.leb_gt _ _)) by lia.
    assert (0 ≤ v / 128) by (apply Z.div_pos; lia).
    rewrite En, Nat2Z.inj_succ, Z.pow_succ_r in Hv by lia. subst n'.
    rewrite IH; [|lia|lia|nia|split; [lia|apply Z.div_lt_upper_bound; lia]|nia|lia|lia]. do 2 f_equal. f_equal; [nia|cbn [length]; lia].
Qed.

(** An unsigned number of 64 bits is read as it was written. *)
Lemma uleb_parse_uleb v rest : in_width 64 v → uleb_parse (uleb v ++ rest) = Ret (Some (v, Z.of_nat (length (uleb v)))).
Proof.
  intros [H0 Hv]. unfold uleb_parse, uleb. pose proof (uleb_loop_bytes 9 v 0 0 0 rest) as H. change (7 * 0) with 0 in H.
  rewrite H; [|lia..|change (128 ^ Z.of_nat 10) with (2 ^ 70); lia|lia|lia|lia]. do 2 f_equal. f_equal; lia.
Qed.

Lemma shl_ones shift : 0 ≤ shift < 64 → shl 64 (bitnot 64 0) shift = Ret (Z.shiftl (2 ^ (64 - shift) - 1) shift).
Proof.
  intros Hs. unfold shl. rewrite (proj2 (Z.ltb_lt _ _)) by lia. f_equal.
  replace (2 ^ (64 - shift) - 1) with (Z.ones (64 - shift)) by (rewrite Z.ones_equiv; lia). zbits.
Qed.

(** The last byte of a signed number. *)
Lemma sign_bit v : - 64 ≤ v < 64 → negb (Z.land (v mod 128) 64 =? 0) = (v <? 0) ∧ v mod 128 = if v <? 0 then v + 128 else v.
Proof.
  intros Hv. assert (v mod 128 = if v <? 0 then v + 128 else v) as Hm.
  { destruct (Z.ltb_spec v 0); [|by apply Z.mod_small; lia]. replace v with ((v + 128) + (-1) * 128) at 1 by lia. by rewrite Z.mod_add, Z.mod_small by lia. }
  split; [|done]. rewrite Hm. change 64 with (2 ^ 6) at 1. rewrite land_bit by lia. destruct (Z.ltb_spec v 0).
  - rewrite (proj2 (Z.testbit_true _ 6 ltac:(lia))); [done|]. replace (v + 128) with ((v + 64) + 1 * 2 ^ 6) by lia. by rewrite Z.div_add, Z.div_small by lia.
  - by rewrite (testbit_out 6) by (unfold in_width; lia).
Qed.

Lemma sleb_loop_last v r shift size rest : - 64 ≤ v < 64 → 0 ≤ shift → shift + 7 < 64 → 0 ≤ r < 2 ^ shift → 0 ≤ size → size + 1 < 2 ^ 64 →
  sleb_loop r shift size (v mod 128 :: rest) = Ret (Some (r + v * 2 ^ shift, size + 1)).
Proof.
  intros Hv Hs0 Hs Hr Hz Hz'. cbn [sleb_loop]. rewrite (proj2 (add_Ret 64 size 1 (size + 1))) by lia. bstep.
  destruct (low_part v) as [_ Hm]. destruct (leb_last (v mod 128) Hm) as [-> ->]. destruct (sign_bit v Hv) as [-> Hmod].
  assert (0 < 2 ^ shift) as Hpos by (apply Z.pow_pos_nonneg; lia).
  assert (2 ^ (shift + 7) = 128 * 2 ^ shift) as Hp by (rewrite Z.pow_add_r by lia; lia).
  assert (2 ^ (shift + 7) ≤ 2 ^ 63) as Hle by (apply Z.pow_le_mono_r; lia).
  destruct (gather_bits r shift (v mod 128)) as (y & -> & Hy); [lia|lia|lia|nia|]. bstep. rewrite Hy.
  rewrite (proj2 (add_Ret 8 shift 7 (shift + 7))) by lia. bstep. rewrite (proj2 (Z.leb_gt _ _)) by lia. rewrite (proj2 (Z.ltb_lt (shift + 7) 64)) by lia. cbn [andb].
  unfold signed. change (64 - 1) with 63. rewrite Hmod in Hm |- *. destruct (Z.ltb_spec v 0).
  - rewrite shl_ones by lia. bstep. rewrite lor_disjoint by nia. rewrite Z.mul_sub_distr_r, <-Z.pow_add_r by lia.
    replace (64 - (shift + 7) + (shift + 7)) with 64 by lia. rewrite (proj2 (Z.ltb_ge _ _)) by nia. do 2 f_equal. f_equal. nia.
  - rewrite (proj2 (Z.ltb_lt _ _)) by nia. done.
Qed.

Lemma sleb_loop_bytes e n : ∀ v r k size rest, 0 ≤ k → 7 * k + 7 * Z.of_nat (S n) < 64 → 0 ≤ r < 2 ^ (7 * k) → - (64 * 128 ^ Z.of_nat n) ≤ v < 64 * 128 ^ Z.of_nat n →
  0 ≤ size → size + Z.of_nat (S n) < 2 ^ 64 →
  sleb_loop r (7 * k) size (sleb_bytes (S n + e) v ++ rest) = Ret (Some (r + v * 2 ^ (7 * k), size + Z.of_nat (length (sleb_bytes (S n + e) v)))).
Proof.
  induction n as [|n IH]; intros v r k size rest Hk Hs Hr Hv Hz Hz'; [change (1 + e)%nat with (S e)|change (S (S n) + e)%nat with (S (S n + e)); remember (S n + e)%nat as n' eqn:En]; cbn [sleb_bytes].
  all: destruct ((- 64 <=? v) && (v <? 64)) eqn:E; [apply andb_true_iff in E as [?%Z.leb_le ?%Z.ltb_lt]; cbn [app length]; apply sleb_loop_last; lia|].
  { change (128 ^ Z.of_nat 0) with 1 in Hv. apply andb_false_iff in E as [?%Z.leb_gt|?%Z.ltb_ge]; lia. }
  cbn [app sleb_loop length]. rewrite (proj2 (add_Ret 64 size 1 (size + 1))) by lia. bstep.
  destruct (low_part v) as [Hd Hm]. destruct (leb_more (v mod 128) Hm) as [-> ->].
  assert (0 < 2 ^ (7 * k)) as Hpos by (apply Z.pow_pos_nonneg; lia).
  assert (2 ^ (7 * (k + 1)) = 128 * 2 ^ (7 * k)) as Hp by (replace (7 * (k + 1)) with (7 + 7 * k) by lia; by rewrite Z.pow_add_r by lia).
  assert (2 ^ (7 * (k + 1)) ≤ 2 ^ 63) by (apply Z.pow_le_mono_r; lia).
  destruct (gather_bits r (7 * k) (v mod 128)) as (y & -> & Hy); [lia|lia|lia|nia|]. bstep. rewrite Hy.
  rewrite (proj2 (add_Ret 8 (7 * k) 7 (7 * (k + 1)))) by lia. bstep. rewrite (proj2 (Z.leb_gt _ _)) by lia.
  rewrite Nat2Z.inj_succ, Z.pow_succ_r in Hv by lia. subst n'.
  rewrite IH; [|lia|lia|nia|lia|lia|lia]. do 2 f_equal. f_equal; [nia|lia].
Qed.

(** A signed number of 63 bits is read as it was written. *)
Lemma sleb_parse_sleb v rest : - 2 ^ 62 ≤ v < 2 ^ 62 → sleb_parse (sleb v ++ rest) = Ret (Some (v, Z.of_nat (length (sleb v)))).
Proof.
  intros Hv. unfold sleb_parse, sleb. pose proof (sleb_loop_bytes 1 8 v 0 0 0 rest) as H. change (7 * 0) with 0 in H. cbn [Nat.add] in H.
  rewrite H; [|lia..|change (128 ^ Z.of_nat 8) with (2 ^ 56); lia|lia|lia]. do 2 f_equal. f_equal; lia.
Qed.

(** The ten bytes of a larger signed number are refused though it has 64 bits: the
    shift is checked before the end of the number. *)
Lemma sleb_of_64_bits_refused rest : length (sleb (2 ^ 62)) = 10%nat ∧ sleb_parse (sleb (2 ^ 62) ++ rest) = Ret None.
Proof. split; vm_compute; reflexivity. Qed.

(** The tenth byte of an unsigned number holds one bit; others in it are lost. *)
Lemma uleb_overflow_not_noticed : uleb_parse (replicate 9 128 ++ [2]) = Ret (Some (0, 10)).
Proof. vm_compute. reflexivity. Qed.
