(* ===== verification/EhFrame.v ===== *)
(** The call frame information of the kernel's own code:
    crates/kernel/src/debugging/eh_frame_parser.rs. *)
From S2P Require Import Prelude Bytes Parser Leb128.

(** ** Code that ends early with [?] *)
Definition oM (S A : Type) : Type := S → outcome (option A * S).
Definition obind {S A B} (m : oM S A) (k : A → oM S B) : oM S B := λ s,
  '(o, s) ← m s; match o with None => Ret (None, s) | Some a => k a s end.
Definition some {S A} (a : A) : oM S A := λ s, Ret (Some a, s).
Definition none {S A} : oM S A := λ s, Ret (None, s).
Definition run {S A} (m : outcome A) : oM S A := λ s, a ← m; Ret (Some a, s).
Definition ask {S A} (f : S → A) : oM S A := λ s, Ret (Some (f s), s).

Declare Scope oM_scope.
Notation "x ←| m ; k" := (obind m (λ x, k)) (at level 20, m at level 100, k at level 200, only parsing) : oM_scope.
Notation "m ;;| k" := (obind m (λ _, k)) (at level 100, k at level 200, right associativity, only parsing) : oM_scope.
#[local] Open Scope oM_scope.

(** ** Instructions *)
Inductive Instruction :=
  | AdvanceLoc (delta : Z)
  | Offset (register offset : Z)
  | Restore (register : Z)
  | DefCfa (register offset : Z)
  | DefCfaRegister (register : Z)
  | DefCfaOffset (offset : Z)
  | RemeberState
  | RestoreState
  | Nop.

Definition number (n : nat) : oM ConsumableBuffer Z := λ c, consume_number c n.
Definition slice (size : Z) : oM ConsumableBuffer (list Z) := λ c, consume_slice c size.

(** [consume_unsized_type], for a type that [parse] reads. *)
Definition consume_unsized {A} (parse : list Z → outcome (option (A * Z))) : oM ConsumableBuffer A := λ c,
  rassert (bool_decide (position c ≤ length (buffer c))%nat);;
  r ← parse (cb_rest c);
  match r with
  | None => Ret (None, c)
  | Some (a, size) =>
      e ← add 64 (Z.of_nat (position c)) size;
      if Z.of_nat (length (buffer c)) <? e then Ret (None, c)
      else Ret (Some a, CB (buffer c) (position c + Z.to_nat size))
  end.
Definition unsigned_leb128 : oM ConsumableBuffer Z := consume_unsized uleb_parse.
Definition signed_leb128 : oM ConsumableBuffer Z := consume_unsized sleb_parse.

(** [u16::try_from(..).expect(..)] of a register number *)
Definition register_number (n : Z) : oM ConsumableBuffer Z := run (u16_try_from n).

Definition HIGH_BITS_MASK : Z := 0xC0.
Definition LOW_BITS_MASK : Z := bitnot 8 HIGH_BITS_MASK.

(** The instructions with an opcode of their own. *)
Definition parse_extended (instruction : Z) : oM ConsumableBuffer Instruction :=
  if instruction =? 0x0c then
    n ←| unsigned_leb128; register ←| register_number n; offset ←| unsigned_leb128; some (DefCfa register offset)
  else if instruction =? 0x0d then n ←| unsigned_leb128; register ←| register_number n; some (DefCfaRegister register)
  else if instruction =? 0x0e then offset ←| unsigned_leb128; some (DefCfaOffset offset)
  else if instruction =? 0 then some Nop
  else if instruction =? 0x02 then delta ←| number 1; some (AdvanceLoc delta)
  else if instruction =? 0x03 then delta ←| number 2; some (AdvanceLoc delta)
  else if instruction =? 0x04 then delta ←| number 4; some (AdvanceLoc delta)
  else if instruction =? 0x0a then some RemeberState
  else if instruction =? 0x0b then some RestoreState
  else run Panic.

Definition parse_instruction : oM ConsumableBuffer Instruction :=
  is_empty ←| ask cb_empty;
  if is_empty : bool then none
  else
    instruction ←| number 1;
    let high_bits := Z.land instruction HIGH_BITS_MASK in
    let low_bits := Z.land instruction LOW_BITS_MASK in
    if high_bits =? 0x40 then some (AdvanceLoc low_bits)
    else if high_bits =? 0x80 then offset ←| unsigned_leb128; some (Offset low_bits offset)
    else if high_bits =? 0xC0 then some (Restore low_bits)
    else run (rassert (high_bits =? 0));;| parse_extended instruction.

(** The loop of [parse_instructions]; every instruction takes a byte at least. *)
Fixpoint instructions_loop (fuel : nat) (c : ConsumableBuffer) : outcome (list Instruction * ConsumableBuffer) :=
  match fuel with
  | O => Panic
  | S fuel =>
      '(i, c) ← parse_instruction c;
      match i with
      | None => Ret ([], c)
      | Some i => '(l, c) ← instructions_loop fuel c; Ret (i :: l, c)
      end
  end.

Definition parse_instructions (bytes : list Z) : outcome (list Instruction) :=
  '(l, c) ← instructions_loop (S (length bytes)) (cb_new bytes);
  rassert (cb_empty c);; Ret l.

(** ** Entries *)
Record ParsedCIE := MkCIE {
  version : Z; augmentation_string : list Z; address_size : Z; code_alignment_factor : Z; data_alignment_factor : Z;
  cie_augmentation_data : option (list Z); return_address_register : Z; initial_instructions : list Instruction;
}.

Record ParsedFDE := MkFDE {
  fde_cie : ParsedCIE; pc_begin : Z; address_range : Z; fde_augmentation_data : option (list Z); instructions : list Instruction;
}.

Definition end_address (f : ParsedFDE) : Z := wrapping_add 64 (pc_begin f) (address_range f).
Definition fde_contains (f : ParsedFDE) (address : Z) : bool := (pc_begin f <=? address) && (address <? end_address f).

Record EhFrameIterator := MkEh { base_address : Z; eh_data : ConsumableBuffer; parsed_cie : gmap nat ParsedCIE }.

(** A parser of the data, as a step of the iterator. *)
Definition on_data {A} (m : oM ConsumableBuffer A) : oM EhFrameIterator A := λ self,
  '(o, c) ← m (eh_data self); Ret (o, MkEh (base_address self) c (parsed_cie self)).
Definition data_position : oM EhFrameIterator nat := ask (λ self, position (eh_data self)).

(** [str::fde_contains] *)
Definition has_char (c : Z) (s : list Z) : bool := existsb (Z.eqb c) s.
Fixpoint has_str (p s : list Z) : bool :=
  bool_decide (take (length p) s = p) || match s with [] => false | _ :: s => has_str p s end.

(** Augmentation data comes with its length. *)
Definition counted_slice : oM EhFrameIterator (list Z) := length ←| on_data unsigned_leb128; on_data (slice length).
Definition augmentation_data (s : list Z) : oM EhFrameIterator (option (list Z)) :=
  if has_char 122 s then d ←| counted_slice; some (Some d) else some None.

(** The rest of an entry of [length] bytes that began at [begin]: its instructions. *)
Definition rest_instructions (length : Z) (begin_position : nat) : oM EhFrameIterator (list Instruction) :=
  current_position ←| data_position;
  size ←| run (sub (Z.of_nat current_position) (Z.of_nat begin_position));
  left ←| run (sub length size);
  bytes ←| on_data (slice left);
  run (parse_instructions bytes).

Definition parse_cie (length : Z) (offset_of_cie : nat) : oM EhFrameIterator unit :=
  begin_position ←| data_position;
  version ←| on_data (number 1);
  run (rassert ((version =? 1) || (version =? 3)));;|
  augmentation_string ←| on_data (λ c, Ret (consume_str c));
  run (rassert (bool_decide (head augmentation_string = Some 122) && has_char 82 augmentation_string));;|
  (if has_str [101; 104] augmentation_string then on_data (number 8) else some 0);;|
  code_alignment_factor ←| on_data unsigned_leb128;
  data_alignment_factor ←| on_data signed_leb128;
  return_address_register ←| on_data unsigned_leb128;
  aug ←| augmentation_data augmentation_string;
  initial_instructions ←| rest_instructions length begin_position;
  let cie := MkCIE version augmentation_string 8 code_alignment_factor data_alignment_factor aug return_address_register initial_instructions in
  already_exist ←| ask (λ self, parsed_cie self !! offset_of_cie);
  (λ self, Ret (Some tt, MkEh (base_address self) (eh_data self) (<[offset_of_cie := cie]> (parsed_cie self))));;|
  run (rassert (bool_decide (already_exist = None)));;|
  some tt.

(** [usize::checked_add_signed] *)
Definition usize_checked_add_signed (x y : Z) : option Z := if bool_decide (0 ≤ x + y < 2 ^ 64) then Some (x + y) else None.
Definition of_option {S A} (o : option A) : oM S A := λ s, Ret (o, s).

Definition parse_pc_begin (augmentation_byte : Z) : oM EhFrameIterator Z :=
  run (rassert (augmentation_byte =? Z.lor 0x10 0x0b));;|
  base ←| ask base_address;
  pos ←| data_position;
  current_offset ←| run (add 64 base (Z.of_nat pos));
  offset ←| on_data (number 4);
  of_option (usize_checked_add_signed current_offset (signed 32 offset)).

Definition parse_fde (cie_offset length : Z) : oM EhFrameIterator ParsedFDE :=
  fde_position ←| data_position;
  p ←| run (sub (Z.of_nat fde_position) cie_offset);
  target_cie_location ←| run (sub p 4);
  found ←| ask (λ self, parsed_cie self !! Z.to_nat target_cie_location);
  cie ←| run (expect found);
  pc_begin ←| (if has_char 82 (augmentation_string cie) then
                 aug_data ←| of_option (cie_augmentation_data cie);
                 augmentation_byte ←| of_option (last aug_data);
                 parse_pc_begin augmentation_byte
               else on_data (number 4));
  address_range ←| on_data (number 4);
  aug ←| augmentation_data (augmentation_string cie);
  instructions ←| rest_instructions length fde_position;
  some (MkFDE cie pc_begin address_range aug instructions).

Inductive Bitness := Bits64 | Bits32.
#[global] Instance Bitness_eq_dec : EqDecision Bitness.
Proof. solve_decision. Defined.

Definition parse_length_and_bitness : oM EhFrameIterator (Z * Bitness) :=
  length ←| on_data (number 4);
  if negb (length =? 0xffffffff) then some (length, Bits32)
  else length ←| on_data (number 8); some (length, Bits64).

(** [Iterator::next], which calls itself after each CIE. *)
Fixpoint eh_next (fuel : nat) : oM EhFrameIterator ParsedFDE :=
  match fuel with
  | O => λ _, Panic
  | S fuel =>
      offset_of_cie ←| data_position;
      lb ←| parse_length_and_bitness;
      run (rassert (bool_decide (snd lb = Bits32)));;|
      cie_offset_or_none ←| on_data (number 4);
      if fst lb =? 0 then none
      else
        length ←| run (sub (fst lb) 4);
        if cie_offset_or_none =? 0 then parse_cie length offset_of_cie;;| eh_next fuel
        else parse_fde cie_offset_or_none length
  end.

Definition eh_iter (data : list Z) (base : Z) : EhFrameIterator := MkEh base (cb_new data) ∅.

(** [for frame in eh_frames { .. }] *)
Fixpoint eh_collect (n fuel : nat) (self : EhFrameIterator) : outcome (list ParsedFDE) :=
  match n with
  | O => Panic
  | S n =>
      '(o, self) ← eh_next fuel self;
      match o with None => Ret [] | Some f => l ← eh_collect n fuel self; Ret (f :: l) end
  end.
