(* ===== verification/EhFrameTheorems.v ===== *)
(** Call frame information that is laid out as the Linux Standard Base says is read as
    the entries it describes. *)
From S2P Require Import Prelude Bytes Parser Leb128 EhFrame.
#[local] Open Scope oM_scope.

(** ** The format *)
(** The encodings of an instruction. *)
Inductive encodes : Instruction → list Z → Prop :=
  | e_advance d : 0 ≤ d < 64 → encodes (AdvanceLoc d) [0x40 + d]
  | e_advance1 d : 0 ≤ d < 256 ^ 1 → encodes (AdvanceLoc d) ([0x02] ++ le_bytes 1 d)
  | e_advance2 d : 0 ≤ d < 256 ^ 2 → encodes (AdvanceLoc d) ([0x03] ++ le_bytes 2 d)
  | e_advance4 d : 0 ≤ d < 256 ^ 4 → encodes (AdvanceLoc d) ([0x04] ++ le_bytes 4 d)
  | e_offset r o : 0 ≤ r < 64 → in_width 64 o → encodes (Offset r o) ([0x80 + r] ++ uleb o)
  | e_restore r : 0 ≤ r < 64 → encodes (Restore r) [0xC0 + r]
  | e_def_cfa r o : in_width 16 r → in_width 64 o → encodes (DefCfa r o) ([0x0c] ++ uleb r ++ uleb o)
  | e_def_cfa_register r : in_width 16 r → encodes (DefCfaRegister r) ([0x0d] ++ uleb r)
  | e_def_cfa_offset o : in_width 64 o → encodes (DefCfaOffset o) ([0x0e] ++ uleb o)
  | e_remember : encodes RemeberState [0x0a]
  | e_restore_state : encodes RestoreState [0x0b]
  | e_nop : encodes Nop [0].

(** A CIE after its length and its id. *)
Inductive cie_body : ParsedCIE → list Z → Prop :=
  | CieBody v s caf daf r aug il ibs : v = 1 ∨ v = 3 →
      head s = Some 122 → has_char 82 s = true → has_str [101; 104] s = false → 0 ∉ s → utf8_valid s = true →
      in_width 64 caf → - 2 ^ 62 ≤ daf < 2 ^ 62 → in_width 64 r → (v = 1 → r < 128) → last aug = Some 0x1b → Forall2 encodes il ibs →
      cie_body (MkCIE v s 8 caf daf (Some aug) r il)
        ([v] ++ (s ++ [0]) ++ uleb caf ++ sleb daf ++ (if v =? 1 then [r] else uleb r) ++ uleb (Z.of_nat (length aug)) ++ aug ++ mjoin ibs).

(** An FDE after its length and the pointer to its CIE; [at_] is the address of its
    first field, which is relative to itself. *)
Inductive fde_body (at_ : Z) (c : ParsedCIE) : ParsedFDE → list Z → Prop :=
  | FdeBody off range aug il ibs : in_width 32 off → in_width 32 range → in_width 64 (at_ + signed 32 off) → Forall2 encodes il ibs →
      fde_body at_ c (MkFDE c (at_ + signed 32 off) range (Some aug) il)
        (le_bytes 4 off ++ le_bytes 4 range ++ uleb (Z.of_nat (length aug)) ++ aug ++ mjoin ibs).

(** [describes base pos cies bytes fdes]: the section from position [pos] on, loaded at
    [base], where the CIEs at the positions [cies] come before. It ends with the
    section or with an entry of length zero. *)
Inductive describes (base : Z) : nat → gmap nat ParsedCIE → list Z → list ParsedFDE → Prop :=
  | d_end pos cies : describes base pos cies [] []
  | d_zero pos cies rest : describes base pos cies (le_bytes 4 0 ++ rest) []
  | d_cie pos cies c body rest fdes : cies !! pos = None → cie_body c body → 4 + Z.of_nat (length body) < 2 ^ 32 - 1 →
      describes base (pos + 8 + length body) (<[pos := c]> cies) rest fdes →
      describes base pos cies (le_bytes 4 (4 + Z.of_nat (length body)) ++ le_bytes 4 0 ++ body ++ rest) fdes
  | d_fde pos cies c p f body rest fdes : cies !! p = Some c → fde_body (base + Z.of_nat (pos + 8)) c f body → (p < pos)%nat →
      Z.of_nat (pos + 4 - p) < 2 ^ 32 → 4 + Z.of_nat (length body) < 2 ^ 32 - 1 → describes base (pos + 8 + length body) cies rest fdes →
      describes base pos cies (le_bytes 4 (4 + Z.of_nat (length body)) ++ le_bytes 4 (Z.of_nat (pos + 4 - p)) ++ body ++ rest) (f :: fdes).

(** ** Parsers that read given bytes *)
Definition reads {A} (m : oM ConsumableBuffer A) (bs : list Z) (a : A) : Prop := ∀ pre rest,
  Z.of_nat (length (pre ++ bs ++ rest)) < 2 ^ 63 →
  m (CB (pre ++ bs ++ rest) (length pre)) = Ret (Some a, CB (pre ++ bs ++ rest) (length (pre ++ bs))).

Lemma reads_some {A} (a : A) : reads (some a) [] a.
Proof. intros pre rest H. unfold some. simpl. by rewrite app_nil_r. Qed.

Lemma reads_bind {A B} (m : oM ConsumableBuffer A) (k : A → oM ConsumableBuffer B) b1 b2 a b :
  reads m b1 a → reads (k a) b2 b → reads (obind m k) (b1 ++ b2) b.
Proof.
  intros H1 H2 pre rest Hl. unfold obind. rewrite <-app_assoc in Hl |- *. rewrite H1 by done. bstep.
  specialize (H2 (pre ++ b1) rest). rewrite <-!app_assoc in H2. rewrite H2 by done. by rewrite <-?app_assoc.
Qed.

Lemma reads_run {A B} (m : outcome A) (k : A → oM ConsumableBuffer B) bs a b : m = Ret a → reads (k a) bs b → reads (obind (run m) k) bs b.
Proof. intros -> H pre rest Hl. unfold obind, run. bstep. by apply H. Qed.

Lemma reads_slice d : reads (slice (Z.of_nat (length d))) d d.
Proof. intros pre rest Hl. unfold slice. by apply consume_slice_app. Qed.

Lemma reads_number n v : 0 ≤ v < 256 ^ Z.of_nat n → reads (number n) (le_bytes n v) v.
Proof.
  intros Hv pre rest Hl. unfold number, consume_number. pose proof (consume_slice_app pre (le_bytes n v) rest Hl) as H.
  rewrite le_bytes_length in H. rewrite H. bstep. simpl. by rewrite le_combine_bytes.
Qed.

Lemma reads_str s : 0 ∉ s → utf8_valid s = true → reads (λ c, Ret (consume_str c)) (s ++ [0]) s.
Proof.
  intros H0 Hu pre rest Hl. rewrite <-(app_assoc s). simpl. rewrite consume_str_app by done. rewrite !length_app. simpl. do 3 f_equal. lia.
Qed.

Lemma reads_unsized {A} (parse : list Z → outcome (option (A * Z))) bs a :
  (∀ rest, parse (bs ++ rest) = Ret (Some (a, Z.of_nat (length bs)))) → reads (consume_unsized parse) bs a.
Proof.
  intros H pre rest Hl. unfold consume_unsized, cb_rest. simpl. rewrite !length_app in *. rewrite bool_decide_eq_true_2 by lia. bstep.
  rewrite drop_app_length, H. bstep. rewrite (proj2 (add_Ret 64 (Z.of_nat (length pre)) (Z.of_nat (length bs)) (Z.of_nat (length pre + length bs)))) by lia. bstep.
  rewrite (proj2 (Z.ltb_ge _ _)) by lia. by rewrite Nat2Z.id.
Qed.

Lemma reads_uleb v : in_width 64 v → reads unsigned_leb128 (uleb v) v.
Proof. intros Hv. apply reads_unsized. intros rest. by apply uleb_parse_uleb. Qed.
Lemma reads_sleb v : - 2 ^ 62 ≤ v < 2 ^ 62 → reads signed_leb128 (sleb v) v.
Proof. intros Hv. apply reads_unsized. intros rest. by apply sleb_parse_sleb. Qed.

Create HintDb eh.
#[export] Hint Resolve reads_some reads_slice reads_number reads_str reads_uleb reads_sleb : eh.

(** ** Instructions *)
Lemma opcode_bits h d : 0 ≤ h < 4 → 0 ≤ d < 64 → Z.land (64 * h + d) HIGH_BITS_MASK = 64 * h ∧ Z.land (64 * h + d) LOW_BITS_MASK = d.
Proof.
  assert (forallb (λ h, forallb (λ d, (Z.land (64 * h + d) HIGH_BITS_MASK =? 64 * h) && (Z.land (64 * h + d) LOW_BITS_MASK =? d)) (seqZ 0 64)) (seqZ 0 4) = true) as H
    by (vm_compute; reflexivity).
  intros Hh Hd. rewrite forallb_forall in H. specialize (H h). rewrite <-list_elem_of_In, elem_of_seqZ in H. specialize (H ltac:(lia)).
  rewrite forallb_forall in H. specialize (H d). rewrite <-list_elem_of_In, elem_of_seqZ in H. specialize (H ltac:(lia)). simpl in H.
  apply andb_true_iff in H as [?%Z.eqb_eq ?%Z.eqb_eq]. done.
Qed.

(** An instruction is read by what follows its first byte. *)
Lemma reads_opcode h d bs i : 0 ≤ h < 4 → 0 ≤ d < 64 →
  reads (if 64 * h =? 0x40 then some (AdvanceLoc d)
         else if 64 * h =? 0x80 then offset ←| unsigned_leb128; some (Offset d offset)
         else if 64 * h =? 0xC0 then some (Restore d)
         else run (rassert (64 * h =? 0));;| parse_extended (64 * h + d)) bs i →
  reads parse_instruction ((64 * h + d) :: bs) i.
Proof.
  intros Hh Hd H pre rest Hl. unfold parse_instruction.
  assert ((64 * h + d) :: bs = le_bytes 1 (64 * h + d) ++ bs) as E by (simpl; by rewrite Z.mod_small by lia).
  unfold obind at 1. unfold ask. bstep. unfold cb_empty at 1. cbn [position buffer].
  rewrite bool_decide_eq_false_2 by (rewrite !length_app; simpl; lia). rewrite E in *.
  eapply (reads_bind (number 1)); [apply reads_number; lia| |done]. cbv beta zeta.
  destruct (opcode_bits h d Hh Hd) as [-> ->]. exact H.
Qed.

Lemma reads_extended op bs i : 0 ≤ op < 64 → reads (parse_extended op) bs i → reads parse_instruction ([op] ++ bs) i.
Proof. intros Hop H. change ([op] ++ bs) with ((64 * 0 + op) :: bs). apply reads_opcode; [lia|done|]. eapply reads_run; [done|]. exact H. Qed.

Lemma reads_instruction i bs : encodes i bs → reads parse_instruction bs i.
Proof.
  destruct 1 as [d Hd|d Hd|d Hd|d Hd|r o Hr Ho|r Hr|r o Hr Ho|r Hr|o Ho| | |].
  1: apply (reads_opcode 1); [lia|done|]; apply reads_some.
  4: apply (reads_opcode 2); [lia|done|]; rewrite <-(app_nil_r (uleb o)); eapply (reads_bind unsigned_leb128); auto with eh.
  4: apply (reads_opcode 3); [lia|done|]; apply reads_some.
  all: apply reads_extended; [lia|].
  1-3: rewrite <-(app_nil_r (le_bytes _ _)); eapply (reads_bind (number _)); [by apply reads_number|apply reads_some].
  4-6: apply reads_some.
  - eapply (reads_bind unsigned_leb128); [apply reads_uleb; unfold in_width in *; lia|]. eapply reads_run; [by rewrite u16_try_from_Ret|]. rewrite <-(app_nil_r (uleb o)). eapply reads_bind; auto with eh.
  - rewrite <-(app_nil_r (uleb r)). eapply (reads_bind unsigned_leb128); [apply reads_uleb; unfold in_width in *; lia|]. eapply reads_run; [by rewrite u16_try_from_Ret|apply reads_some].
  - rewrite <-(app_nil_r (uleb o)). eapply (reads_bind unsigned_leb128); auto with eh.
Qed.

Lemma encodes_cons i bs : encodes i bs → (1 ≤ length bs)%nat.
Proof. destruct 1; simpl; lia. Qed.

Lemma parse_instruction_end pre : parse_instruction (CB pre (length pre)) = Ret (None, CB pre (length pre)).
Proof. unfold parse_instruction, obind, ask. bstep. unfold cb_empty. cbn [position buffer]. by rewrite bool_decide_eq_true_2. Qed.

Lemma instructions_loop_reads il ibs : Forall2 encodes il ibs → ∀ fuel pre, (length (mjoin ibs) < fuel)%nat → Z.of_nat (length (pre ++ mjoin ibs)) < 2 ^ 63 →
  instructions_loop fuel (CB (pre ++ mjoin ibs) (length pre)) = Ret (il, CB (pre ++ mjoin ibs) (length (pre ++ mjoin ibs))).
Proof.
  induction 1 as [|i bs il ibs Hi _ IH]; intros fuel pre Hf Hl; (destruct fuel as [|fuel]; [simpl in Hf; lia|]); cbn [instructions_loop].
  - change (mjoin []) with (@nil Z). rewrite app_nil_r, parse_instruction_end. done.
  - change (mjoin (bs :: ibs)) with (bs ++ mjoin ibs) in *. pose proof (encodes_cons _ _ Hi). rewrite length_app in Hf. rewrite (reads_instruction i bs Hi pre _ Hl). bstep.
    specialize (IH fuel (pre ++ bs)). rewrite <-app_assoc in IH. rewrite IH by (done || lia). done.
Qed.

Lemma parse_instructions_reads il ibs : Forall2 encodes il ibs → Z.of_nat (length (mjoin ibs)) < 2 ^ 63 → parse_instructions (mjoin ibs) = Ret il.
Proof.
  intros He Hl. unfold parse_instructions. pose proof (instructions_loop_reads il ibs He (S (length (mjoin ibs))) [] ltac:(lia) Hl) as H.
  simpl app in H. unfold cb_new. simpl length in H. rewrite H. bstep. unfold cb_empty. cbn [position buffer]. by rewrite bool_decide_eq_true_2.
Qed.

(** ** Entries *)
(** A step of the iterator that reads given bytes at a position. *)
Definition it_reads {A} (base : Z) (pos : nat) (cies : gmap nat ParsedCIE) (m : oM EhFrameIterator A) (bs : list Z) (a : A) (cies' : gmap nat ParsedCIE) : Prop :=
  ∀ pre rest, length pre = pos → Z.of_nat (length (pre ++ bs ++ rest)) < 2 ^ 63 →
  m (MkEh base (CB (pre ++ bs ++ rest) (length pre)) cies) = Ret (Some a, MkEh base (CB (pre ++ bs ++ rest) (length (pre ++ bs))) cies').

Lemma it_bind {A B} base pos cies (m : oM EhFrameIterator A) (k : A → oM EhFrameIterator B) b1 b2 a b cies' cies'' :
  it_reads base pos cies m b1 a cies' → it_reads base (pos + length b1) cies' (k a) b2 b cies'' → it_reads base pos cies (obind m k) (b1 ++ b2) b cies''.
Proof.
  intros H1 H2 pre rest Hp Hl. unfold obind. rewrite <-app_assoc in Hl |- *. rewrite H1 by done. bstep.
  specialize (H2 (pre ++ b1) rest). rewrite <-!app_assoc in H2. rewrite H2; [by rewrite <-?app_assoc|rewrite length_app; lia|done].
Qed.

Lemma it_on_data {A} base pos cies (m : oM ConsumableBuffer A) bs a : reads m bs a → it_reads base pos cies (on_data m) bs a cies.
Proof. intros H pre rest Hp Hl. unfold on_data. cbn [eh_data]. by rewrite H. Qed.

Lemma it_some {A} base pos cies (a : A) : it_reads base pos cies (some a) [] a cies.
Proof. intros pre rest Hp Hl. unfold some. simpl. by rewrite app_nil_r. Qed.

(** Steps that read nothing. *)
Lemma it_run {A B} base pos cies (m : outcome A) (k : A → oM EhFrameIterator B) bs a b cies' :
  m = Ret a → it_reads base pos cies (k a) bs b cies' → it_reads base pos cies (obind (run m) k) bs b cies'.
Proof. intros -> H pre rest Hp Hl. unfold obind, run. bstep. by apply H. Qed.

Lemma it_of_option {A B} base pos cies (o : option A) (k : A → oM EhFrameIterator B) bs a b cies' :
  o = Some a → it_reads base pos cies (k a) bs b cies' → it_reads base pos cies (obind (of_option o) k) bs b cies'.
Proof. intros -> H pre rest Hp Hl. unfold obind, of_option. bstep. by apply H. Qed.

Lemma it_position {B} base pos cies (k : nat → oM EhFrameIterator B) bs b cies' :
  it_reads base pos cies (k pos) bs b cies' → it_reads base pos cies (obind data_position k) bs b cies'.
Proof. intros H pre rest <- Hl. unfold obind, data_position, ask. bstep. by apply H. Qed.

Lemma it_ask_cie {B} base pos cies p (k : option ParsedCIE → oM EhFrameIterator B) bs b cies' :
  it_reads base pos cies (k (cies !! p)) bs b cies' → it_reads base pos cies (obind (ask (λ self, parsed_cie self !! p)) k) bs b cies'.
Proof. intros H pre rest Hp Hl. unfold obind, ask. bstep. by apply H. Qed.

Lemma it_nothing {A B} base pos cies (m : oM EhFrameIterator A) (k : A → oM EhFrameIterator B) bs a b cies' cies'' :
  (∀ c, m (MkEh base c cies) = Ret (Some a, MkEh base c cies')) → it_reads base pos cies' (k a) bs b cies'' → it_reads base pos cies (obind m k) bs b cies''.
Proof. intros H1 H2 pre rest Hp Hl. unfold obind. rewrite H1. bstep. by apply H2. Qed.

Lemma it_rest_instructions base pos cies begin_ len il ibs : (begin_ ≤ pos)%nat → len = Z.of_nat (pos - begin_ + length (mjoin ibs)) →
  Forall2 encodes il ibs → Z.of_nat (length (mjoin ibs)) < 2 ^ 63 → it_reads base pos cies (rest_instructions len begin_) (mjoin ibs) il cies.
Proof.
  intros Hb -> Hi Hl. unfold rest_instructions. apply it_position. eapply it_run; [apply sub_Ret; split; [done|lia]|]. eapply it_run; [apply sub_Ret; split; [done|lia]|].
  rewrite <-(app_nil_r (mjoin ibs)) at 2. replace (_ - (_ - _)) with (Z.of_nat (length (mjoin ibs))) by lia.
  eapply it_bind; [apply it_on_data, reads_slice|]. rewrite (parse_instructions_reads il ibs) by done. apply it_some.
Qed.

Lemma it_augmentation base pos cies s aug : has_char 122 s = true → Z.of_nat (length aug) < 2 ^ 63 →
  it_reads base pos cies (augmentation_data s) (uleb (Z.of_nat (length aug)) ++ aug) (Some aug) cies.
Proof.
  intros Hs Hl. unfold augmentation_data. rewrite Hs. rewrite <-(app_nil_r (_ ++ aug)). eapply it_bind; [|apply it_some].
  unfold counted_slice. eapply it_bind; apply it_on_data; [apply reads_uleb; unfold in_width; lia|apply reads_slice].
Qed.

Lemma reads_return_register v r : in_width 64 r → (v = 1 → r < 128) → reads unsigned_leb128 (if v =? 1 then [r] else uleb r) r.
Proof.
  intros Hr H. destruct (Z.eqb_spec v 1) as [Hv|_]; [|by apply reads_uleb]. replace [r] with (uleb r); [by apply reads_uleb|].
  unfold uleb. simpl. by rewrite (proj2 (Z.ltb_lt _ _)) by auto.
Qed.

Lemma head_char c s : head s = Some c → has_char c s = true.
Proof. destruct s as [|x s]; simpl; [done|]. intros [= ->]. by rewrite Z.eqb_refl. Qed.

Lemma it_parse_cie base pos cies off c body : cie_body c body → cies !! off = None → Z.of_nat (length body) < 2 ^ 63 →
  it_reads base pos cies (parse_cie (Z.of_nat (length body)) off) body tt (<[off := c]> cies).
Proof.
  intros Hb Hoff Hl. destruct Hb as [v s caf daf r aug il ibs Hv Hs HR Heh H0 Hu Hcaf Hdaf Hr Hr1 Haug Hi].
  remember (Z.of_nat (length _)) as n eqn:En in Hl |- * . unfold parse_cie. apply it_position.
  eapply it_bind; [replace [v] with (le_bytes 1 v) by (destruct Hv; by subst); apply it_on_data, reads_number; change (256 ^ Z.of_nat 1) with 256; lia|].
  eapply it_run; [destruct Hv; by subst|]. eapply it_bind; [by apply it_on_data, reads_str|].
  eapply it_run; [rewrite bool_decide_eq_true_2 by done; by rewrite HR|]. rewrite Heh. eapply it_nothing; [done|].
  rewrite !length_app in En. pose proof (le_bytes_length 1 v).
  eapply it_bind; [by apply it_on_data, reads_uleb|]. eapply it_bind; [by apply it_on_data, reads_sleb|]. eapply it_bind; [by apply it_on_data, reads_return_register|].
  rewrite (app_assoc (uleb _)). eapply it_bind; [apply it_augmentation; [by apply head_char|lia]|]. rewrite <-(app_nil_r (mjoin ibs)).
  eapply it_bind; [apply it_rest_instructions; [lia|rewrite En, !length_app; lia|done|lia]|].
  apply it_ask_cie. eapply it_nothing; [intros ?; cbn [base_address eh_data parsed_cie]; reflexivity|]. eapply it_run; [by rewrite Hoff|]. apply it_some.
Qed.

Lemma it_parse_pc_begin base pos cies off : in_width 32 off → base + Z.of_nat pos < 2 ^ 64 → in_width 64 (base + Z.of_nat pos + signed 32 off) →
  it_reads base pos cies (parse_pc_begin 0x1b) (le_bytes 4 off) (base + Z.of_nat pos + signed 32 off) cies.
Proof.
  intros Ho Hb Hw. unfold parse_pc_begin. eapply it_run; [done|]. eapply it_nothing; [intros ?; unfold ask; cbn [base_address]; reflexivity|].
  apply it_position. eapply it_run; [by apply add_Ret|]. rewrite <-(app_nil_r (le_bytes 4 off)).
  eapply it_bind; [by apply it_on_data, reads_number|]. unfold of_option, usize_checked_add_signed. rewrite bool_decide_eq_true_2 by done. apply it_some.
Qed.

(** The properties of a CIE that its FDEs rely on. *)
Definition cie_usable (c : ParsedCIE) : Prop :=
  has_char 82 (augmentation_string c) = true ∧ has_char 122 (augmentation_string c) = true ∧ ∃ aug, cie_augmentation_data c = Some aug ∧ last aug = Some 0x1b.

Lemma cie_body_usable c body : cie_body c body → cie_usable c.
Proof. destruct 1. split; [done|]. split; [by apply head_char|eauto]. Qed.

Lemma it_parse_fde base pos cies p c f body : cie_usable c → cies !! p = Some c → fde_body (base + Z.of_nat pos) c f body → (p + 4 ≤ pos)%nat →
  base + Z.of_nat pos < 2 ^ 64 → Z.of_nat (length body) < 2 ^ 63 →
  it_reads base pos cies (parse_fde (Z.of_nat (pos - 4 - p)) (Z.of_nat (length body))) body f cies.
Proof.
  intros (HR & Hz & aug' & Ha & Hlast) Hp Hb Hle Hpos Hl. destruct Hb as [off range aug il ibs Hoff Hrange Hw Hi].
  remember (Z.of_nat (length _)) as n eqn:En in Hl |- * . unfold parse_fde. apply it_position.
  eapply it_run; [apply sub_Ret; split; [done|lia]|]. eapply it_run; [apply sub_Ret; split; [done|lia]|]. apply it_ask_cie.
  replace (Z.to_nat _) with p by lia. rewrite Hp. eapply it_run; [done|]. rewrite HR, Ha, !length_app in *.
  eapply it_bind; [apply it_of_option with aug'; [done|]; eapply it_of_option; [done|]; by apply it_parse_pc_begin|].
  eapply it_bind; [by apply it_on_data, reads_number|]. rewrite (app_assoc (uleb _)).
  eapply it_bind; [apply it_augmentation; [done|lia]|]. rewrite <-(app_nil_r (mjoin ibs)).
  eapply it_bind; [apply it_rest_instructions; [lia|rewrite En, !length_app; lia|done|lia]|]. apply it_some.
Qed.

Lemma it_length base pos cies len : 0 ≤ len < 2 ^ 32 - 1 → it_reads base pos cies parse_length_and_bitness (le_bytes 4 len) (len, Bits32) cies.
Proof.
  intros Hl. unfold parse_length_and_bitness. rewrite <-(app_nil_r (le_bytes 4 len)). eapply it_bind; [apply it_on_data, reads_number; change (256 ^ Z.of_nat 4) with (2 ^ 32); lia|].
  rewrite (proj2 (Z.eqb_neq _ _)) by lia. apply it_some.
Qed.

(** ** The section *)
(** A step that reads given bytes, and the rest of a computation. *)
Lemma it_then {A B} base pos cies (m : oM EhFrameIterator A) (k : A → oM EhFrameIterator B) bs a cies' pre rest :
  it_reads base pos cies m bs a cies' → length pre = pos → Z.of_nat (length (pre ++ bs ++ rest)) < 2 ^ 63 →
  obind m k (MkEh base (CB (pre ++ bs ++ rest) (length pre)) cies) = k a (MkEh base (CB (pre ++ bs ++ rest) (length (pre ++ bs))) cies').
Proof. intros H Hp Hl. unfold obind. by rewrite H. Qed.

Lemma run_then {S A B} (m : outcome A) (k : A → oM S B) a s : m = Ret a → obind (run m) k s = k a s.
Proof. by intros ->. Qed.

(** The start of an entry. *)
Lemma eh_next_entry fuel base cies len id pre rest : 4 ≤ len < 2 ^ 32 - 1 → in_width 32 id →
  Z.of_nat (length (pre ++ (le_bytes 4 len ++ le_bytes 4 id) ++ rest)) < 2 ^ 63 →
  eh_next (S fuel) (MkEh base (CB (pre ++ (le_bytes 4 len ++ le_bytes 4 id) ++ rest) (length pre)) cies) =
  (if id =? 0 then parse_cie (len - 4) (length pre);;| eh_next fuel else parse_fde id (len - 4))
    (MkEh base (CB (pre ++ (le_bytes 4 len ++ le_bytes 4 id) ++ rest) (length pre + 8)) cies).
Proof.
  intros Hlen Hid Hl. cbn [eh_next]. unfold data_position at 1, ask at 1, obind at 1. bstep. cbn [position eh_data]. rewrite <-app_assoc in *.
  rewrite (it_then base (length pre) cies _ _ (le_bytes 4 len) (len, Bits32) cies); [|by apply it_length; lia|done|done].
  rewrite (run_then _ _ tt) by done. cbn [fst].
  rewrite (app_assoc pre (le_bytes 4 len)) in *.
  rewrite (it_then base (length (pre ++ le_bytes 4 len)) cies _ _ (le_bytes 4 id) id cies); [|by apply it_on_data, reads_number|done|done].
  rewrite (proj2 (Z.eqb_neq len 0)) by lia. rewrite (run_then _ _ (len - 4)) by (apply sub_Ret; lia).
  rewrite !length_app, !le_bytes_length. by replace (length pre + 4 + 4)%nat with (length pre + 8)%nat by lia.
Qed.

Lemma eh_next_cie fuel base cies c body pre rest : cie_body c body → 4 + Z.of_nat (length body) < 2 ^ 32 - 1 → cies !! length pre = None →
  let bs := le_bytes 4 (4 + Z.of_nat (length body)) ++ le_bytes 4 0 ++ body in Z.of_nat (length (pre ++ bs ++ rest)) < 2 ^ 63 →
  eh_next (S fuel) (MkEh base (CB (pre ++ bs ++ rest) (length pre)) cies) =
  eh_next fuel (MkEh base (CB (pre ++ bs ++ rest) (length (pre ++ bs))) (<[length pre := c]> cies)).
Proof.
  intros Hb Hlen Hc bs Hl. subst bs. rewrite (app_assoc (le_bytes 4 _)) in *. rewrite <-(app_assoc _ body) in *.
  rewrite eh_next_entry; [|lia|done|done]. simpl (0 =? 0). cbv iota. replace (4 + _ - 4) with (Z.of_nat (length body)) by lia.
  rewrite (app_assoc pre) in *. set (pre' := pre ++ _) in *. replace (length pre + 8)%nat with (length pre') by (subst pre'; by rewrite !length_app, !le_bytes_length).
  rewrite (it_then base (length pre') cies _ _ body tt (<[length pre := c]> cies)); [|apply it_parse_cie; [done|done|lia]|done|done]. subst pre'. by rewrite <-!app_assoc.
Qed.

Lemma eh_next_fde fuel base cies p c f body pre rest : cie_usable c → cies !! p = Some c → fde_body (base + Z.of_nat (length pre + 8)) c f body →
  (p < length pre)%nat → Z.of_nat (length pre + 4 - p) < 2 ^ 32 → 4 + Z.of_nat (length body) < 2 ^ 32 - 1 → 0 ≤ base →
  let bs := le_bytes 4 (4 + Z.of_nat (length body)) ++ le_bytes 4 (Z.of_nat (length pre + 4 - p)) ++ body in
  Z.of_nat (length (pre ++ bs ++ rest)) < 2 ^ 63 → base + Z.of_nat (length (pre ++ bs ++ rest)) < 2 ^ 64 →
  eh_next (S fuel) (MkEh base (CB (pre ++ bs ++ rest) (length pre)) cies) =
  Ret (Some f, MkEh base (CB (pre ++ bs ++ rest) (length (pre ++ bs))) cies).
Proof.
  intros Hu Hc Hb Hp Hd Hlen Hbase bs Hl Hend. subst bs. rewrite (app_assoc (le_bytes 4 _)) in *. rewrite <-(app_assoc _ body) in *.
  rewrite eh_next_entry; [|lia|unfold in_width; lia|done]. rewrite (proj2 (Z.eqb_neq _ 0)) by lia. replace (4 + _ - 4) with (Z.of_nat (length body)) by lia.
  rewrite (app_assoc pre) in *. set (pre' := pre ++ _) in *. assert (length pre' = (length pre + 8)%nat) as Hpre by (subst pre'; by rewrite !length_app, !le_bytes_length).
  rewrite <-Hpre. rewrite <-Hpre in Hb. rewrite length_app in Hend.
  pose proof (it_parse_fde base (length pre') cies p c f body Hu Hc Hb ltac:(lia) ltac:(lia) ltac:(lia)) as H.
  replace (length pre' - 4 - p)%nat with (length pre + 4 - p)%nat in H by lia. rewrite H by done. subst pre'. by rewrite <-!app_assoc.
Qed.

Lemma number_short pre rest n : Z.of_nat (length pre) < 2 ^ 63 → (length rest < n < 100)%nat → number n (CB (pre ++ rest) (length pre)) = Ret (None, CB (pre ++ rest) (length pre)).
Proof.
  intros Hl Hn. unfold number, consume_number, consume_slice. cbn [position buffer]. rewrite length_app.
  rewrite (proj2 (add_Ret 64 (Z.of_nat (length pre)) (Z.of_nat n) (Z.of_nat (length pre + n)))) by lia. bstep. by rewrite (proj2 (Z.ltb_lt _ _)) by lia.
Qed.

Lemma obind_none {S A B} (m : oM S A) (k : A → oM S B) s s' : m s = Ret (None, s') → obind m k s = Ret (None, s').
Proof. unfold obind. by intros ->. Qed.

Lemma eh_next_end fuel base cies pre : Z.of_nat (length pre) < 2 ^ 63 →
  eh_next (S fuel) (MkEh base (CB (pre ++ []) (length pre)) cies) = Ret (None, MkEh base (CB (pre ++ []) (length pre)) cies).
Proof.
  intros Hl. cbn [eh_next]. unfold data_position at 1, ask at 1, obind at 1. bstep. unfold parse_length_and_bitness. do 2 apply obind_none.
  unfold on_data. cbn [eh_data]. by rewrite number_short by (simpl; done || lia).
Qed.

Lemma eh_next_zero fuel base cies pre rest : Z.of_nat (length (pre ++ le_bytes 4 0 ++ rest)) < 2 ^ 63 →
  ∃ self, eh_next (S fuel) (MkEh base (CB (pre ++ le_bytes 4 0 ++ rest) (length pre)) cies) = Ret (None, self).
Proof.
  intros Hl. cbn [eh_next]. unfold data_position at 1, ask at 1, obind at 1. bstep.
  rewrite (it_then base (length pre) cies _ _ (le_bytes 4 0) (0, Bits32) cies); [|by apply it_length|done|done].
  rewrite (run_then _ _ tt) by done. cbn [fst]. unfold obind, on_data. cbn [eh_data]. unfold number, consume_number, consume_slice. cbn [position buffer].
  rewrite !length_app, le_bytes_length in *. rewrite (proj2 (add_Ret 64 (Z.of_nat (length pre + 4)) (Z.of_nat 4) (Z.of_nat (length pre + 8)))) by lia. bstep.
  destruct (_ <? _); bstep; eauto.
Qed.

(** What the loop does from any entry on. *)
Lemma collect_described base pos cies bytes fdes : describes base pos cies bytes fdes → ∀ pre f1 fuel n,
  length pre = pos → map_Forall (λ _, cie_usable) cies → 0 ≤ base → Z.of_nat (length (pre ++ bytes)) < 2 ^ 63 → base + Z.of_nat (length (pre ++ bytes)) < 2 ^ 64 →
  (length bytes < f1)%nat → (length bytes < fuel)%nat → (length fdes ≤ n)%nat →
  ('(o, self) ← eh_next f1 (MkEh base (CB (pre ++ bytes) (length pre)) cies);
   match o with None => Ret [] | Some f => l ← eh_collect n fuel self; Ret (f :: l) end) = Ret fdes.
Proof.
  induction 1 as [pos cies|pos cies rest|pos cies c body rest fdes Hc Hb Hlen _ IH|pos cies c p f body rest fdes Hc Hb Hp Hd Hlen _ IH];
    intros pre f1 fuel n Hpos Hu Hb0 Hl He H1 H2 Hn; (destruct f1 as [|f1]; [lia|]).
  - rewrite app_nil_r in Hl. by rewrite eh_next_end.
  - destruct (eh_next_zero f1 base cies pre rest Hl) as [self ->]. done.
  - subst pos. rewrite (app_assoc (le_bytes 4 0) body), (app_assoc (le_bytes 4 _)) in *. rewrite (eh_next_cie f1 base cies c) by done.
    set (bs := le_bytes 4 (4 + _) ++ le_bytes 4 _ ++ body) in *. rewrite (app_assoc pre bs) in *. apply IH; try done; [|by apply map_Forall_insert_2; [by eapply cie_body_usable|]|..].
    all: subst bs; rewrite !length_app, !le_bytes_length in *; lia.
  - subst pos. rewrite (app_assoc (le_bytes 4 (Z.of_nat (length pre + 4 - p))) body), (app_assoc (le_bytes 4 (4 + _))) in *.
    rewrite (eh_next_fde f1 base cies p c f body) by (done || by eapply Hu). bstep. set (bs := le_bytes 4 (4 + _) ++ le_bytes 4 _ ++ body) in *. rewrite (app_assoc pre bs) in *.
    destruct n as [|n]; simpl in Hn; [lia|]. cbn [eh_collect]. rewrite IH; [done|..]; try done; try lia.
    all: subst bs; rewrite !length_app, !le_bytes_length in *; lia.
Qed.

Lemma section_collected base data fdes : describes base 0 ∅ data fdes → 0 ≤ base → Z.of_nat (length data) < 2 ^ 63 → base + Z.of_nat (length data) < 2 ^ 64 →
  eh_collect (S (length data)) (S (length data)) (eh_iter data base) = Ret fdes.
Proof.
  intros Hd Hb Hl He. assert (length fdes ≤ length data)%nat as Hn.
  { clear Hl He. induction Hd; simpl; rewrite ?length_app, ?le_bytes_length in *; lia. }
  apply (collect_described base 0 ∅ data fdes Hd [] (S (length data)) (S (length data)) (length data)); try done; lia.
Qed.


(** ** An example: the section of one function *)
Definition cie0 : ParsedCIE := MkCIE 1 [122; 82] 8 1 (-8) (Some [0x1b]) 1 [DefCfa 2 0; Nop].
Definition cie0_bytes : list Z := [1] ++ ([122; 82] ++ [0]) ++ [1] ++ [120] ++ [1] ++ [1] ++ [0x1b] ++ [0x0c; 2; 0; 0].
(** The frame of 16 bytes is made by the first instruction, the return address is saved
    by the second; both are undone before the return. *)
Definition fde0 (pc : Z) : ParsedFDE :=
  MkFDE cie0 pc 0x40 (Some []) [AdvanceLoc 2; DefCfaOffset 16; AdvanceLoc 4; Offset 1 1; RemeberState; AdvanceLoc 0x34; Restore 1; DefCfaOffset 0; AdvanceLoc 4; RestoreState].
Definition fde0_bytes (off : Z) : list Z :=
  le_bytes 4 off ++ le_bytes 4 0x40 ++ [0] ++ [] ++ mjoin [[0x42]; [0x0e; 16]; [0x44]; [0x81; 1]; [0x0a]; [0x74]; [0xC1]; [0x0e; 0]; [0x44]; [0x0b]].
Definition section0 (off : Z) : list Z :=
  le_bytes 4 (4 + Z.of_nat (length cie0_bytes)) ++ le_bytes 4 0 ++ cie0_bytes ++
  le_bytes 4 (4 + Z.of_nat (length (fde0_bytes off))) ++ le_bytes 4 (Z.of_nat (21 + 4)) ++ fde0_bytes off ++ le_bytes 4 0 ++ [].

Lemma cie0_body : cie_body cie0 cie0_bytes.
Proof.
  apply (CieBody 1 [122; 82] 1 (-8) 1 [0x1b] [DefCfa 2 0; Nop] [[0x0c; 2; 0]; [0]]); try done; try lia; [set_solver|].
  constructor; [by apply (e_def_cfa 2 0)|]. constructor; [apply e_nop|constructor].
Qed.

Lemma section0_describes base off : in_width 32 off → in_width 64 (base + 29 + signed 32 off) → describes base 0 ∅ (section0 off) [fde0 (base + 29 + signed 32 off)].
Proof.
  intros Ho Hw. unfold section0. apply (d_cie base 0 ∅ cie0 cie0_bytes); [done|apply cie0_body|done|].
  apply (d_fde base 21 _ cie0 0); [done| |lia|done|done|apply (d_zero base)]. change (Z.of_nat (21 + 8)) with 29.
  apply (FdeBody (base + 29) cie0 off 0x40 []); [done|done|done|]. repeat (apply Forall2_cons; split); [..|constructor].
  all: first [by apply (e_advance 2)|by apply (e_advance 4)|by apply (e_advance 0x34)|by apply (e_def_cfa_offset 16)|by apply (e_def_cfa_offset 0)
    |by apply (e_offset 1 1)|by apply (e_restore 1)|constructor].
Qed.

(** The section at 0x80300000, the function at 0x80200000. *)
Definition data0 : list Z := section0 (2 ^ 32 - 0x10001d).

Lemma data0_describes : describes 0x80300000 0 ∅ data0 [fde0 0x80200000].
Proof. apply (section0_describes 0x80300000 (2 ^ 32 - 0x10001d)); split; vm_compute; done. Qed.

