(* ===== verification/Unwinder.v ===== *)
(** Unwinding the kernel's stack: crates/kernel/src/debugging/unwinder.rs, backtrace.rs
    and symbols.rs, klib/array_vec.rs and the saved registers of hal/src/riscv64. *)
From S2P Require Import Prelude Bytes KUtil Parser Leb128 EhFrame.

(** ** [ArrayVec]: the elements in use, of at most [LENGTH] *)
Definition av_push {T} (LENGTH : nat) (l : list T) (element : T) : T + list T :=
  if bool_decide (length l = LENGTH) then inl element else inr (l ++ [element]).

Definition av_pop {T} (l : list T) : option (T * list T) :=
  match last l with None => None | Some x => Some (x, take (length l - 1) l) end.

Definition expect_ok {E A} (r : E + A) : outcome A := match r with inl _ => Panic | inr a => Ret a end.

(** ** Rows *)
Inductive RegisterRule := RuleNone | RuleOffset (offset : Z).
#[global] Instance RegisterRule_eq_dec : EqDecision RegisterRule.
Proof. solve_decision. Defined.

Record Row := MkRow { start_address : Z; row_end : Z; cfa_register : Z; cfa_offset : Z; register_rules : list RegisterRule }.

Definition row_new (address : Z) : Row := MkRow address 0 0 0 (replicate 32 RuleNone).
Definition set_start (r : Row) (a : Z) : Row := MkRow a (row_end r) (cfa_register r) (cfa_offset r) (register_rules r).
Definition set_end (r : Row) (a : Z) : Row := MkRow (start_address r) a (cfa_register r) (cfa_offset r) (register_rules r).
Definition set_cfa (r : Row) (reg off : Z) : Row := MkRow (start_address r) (row_end r) reg off (register_rules r).
Definition set_rules (r : Row) (l : list RegisterRule) : Row := MkRow (start_address r) (row_end r) (cfa_register r) (cfa_offset r) l.

(** [rules[register] = rule]: the register must be below 32. *)
Definition set_rule (r : Row) (register : Z) (rule : RegisterRule) : outcome Row :=
  rassert (bool_decide (Z.to_nat register < length (register_rules r))%nat);;
  Ret (set_rules r (<[Z.to_nat register := rule]> (register_rules r))).

Definition i64_try_from (x : Z) : outcome Z := if x <? 2 ^ 63 then Ret x else Panic.
(** [i64::wrapping_mul] *)
Definition wrapping_mul_signed (a b : Z) : Z := signed 64 ((a * b) mod 2 ^ 64).

(** [rows] and [row_stack] of the unwinder. *)
Record Unwinder := MkUw { rows : list Row; row_stack : list Row }.

Definition last_row (u : Unwinder) : outcome Row := expect (last (rows u)).
Definition update_last_row (u : Unwinder) (row : Row) : outcome Unwinder :=
  rassert (bool_decide (rows u ≠ []));; Ret (MkUw (<[(length (rows u) - 1)%nat := row]> (rows u)) (row_stack u)).
Definition push_row (u : Unwinder) (row : Row) : outcome Unwinder := l ← expect_ok (av_push 128 (rows u) row); Ret (MkUw l (row_stack u)).

(** A turn of the loop of [evaluate_instructions], with [current_address] and
    [current_row]. *)
Definition evaluate_instruction (daf : Z) (s : Unwinder * Z * Row) (i : Instruction) : outcome (Unwinder * Z * Row) :=
  let '(self, current_address, current_row) := s in
  match i with
  | AdvanceLoc delta =>
      current_address ← add 64 current_address delta;
      let current_row := set_end current_row current_address in
      self ← update_last_row self current_row;
      let current_row := set_end (set_start current_row current_address) 0 in
      self ← push_row self current_row;
      Ret (self, current_address, current_row)
  | Offset register offset =>
      o ← i64_try_from offset;
      current_row ← set_rule current_row register (RuleOffset (wrapping_mul_signed o daf));
      Ret (self, current_address, current_row)
  | Restore register =>
      first ← expect (head (rows self));
      rule ← expect (register_rules first !! Z.to_nat register);
      current_row ← set_rule current_row register rule;
      Ret (self, current_address, current_row)
  | DefCfa register offset => o ← i64_try_from offset; Ret (self, current_address, set_cfa current_row register o)
  | DefCfaRegister register => Ret (self, current_address, set_cfa current_row register (cfa_offset current_row))
  | DefCfaOffset offset => o ← i64_try_from offset; Ret (self, current_address, set_cfa current_row (cfa_register current_row) o)
  | RemeberState => l ← expect_ok (av_push 16 (row_stack self) current_row); Ret (MkUw (rows self) l, current_address, current_row)
  | RestoreState =>
      '(row, l) ← expect (av_pop (row_stack self));
      let start := start_address row in
      Ret (MkUw (rows self) l, current_address, set_start row start)
  | Nop => Ret s
  end.

Definition evaluate_instructions (f : ParsedFDE) (self : Unwinder) (il : list Instruction) : outcome Unwinder :=
  current_row ← last_row self;
  '(self, _, current_row) ← foldM (evaluate_instruction (data_alignment_factor (fde_cie f))) il (self, pc_begin f, current_row);
  update_last_row self current_row.

Definition unwinder_new (f : ParsedFDE) : outcome Unwinder :=
  self ← push_row (MkUw [] []) (row_new (pc_begin f));
  self ← evaluate_instructions f self (initial_instructions (fde_cie f));
  self ← evaluate_instructions f self (instructions f);
  last ← last_row self;
  e ← add 64 (pc_begin f) (address_range f);
  update_last_row self (set_end last e).

Definition find_row_for_address (self : Unwinder) (address : Z) : outcome Row :=
  expect (List.find (λ row, (start_address row <=? address) && (address <=? row_end row)) (rows self)).

(** ** Registers *)
Record CalleeSavedRegs := MkRegs {
  x1 : Z; x2 : Z; x8 : Z; x9 : Z; x18 : Z; x19 : Z; x20 : Z; x21 : Z; x22 : Z; x23 : Z; x24 : Z; x25 : Z; x26 : Z; x27 : Z;
}.

Definition regs_list (r : CalleeSavedRegs) : list (Z * Z) :=
  [(1, x1 r); (2, x2 r); (8, x8 r); (9, x9 r); (18, x18 r); (19, x19 r); (20, x20 r); (21, x21 r); (22, x22 r); (23, x23 r);
   (24, x24 r); (25, x25 r); (26, x26 r); (27, x27 r)].

(** [regs[index]] *)
Definition regs_index (r : CalleeSavedRegs) (index : Z) : outcome Z := expect (snd <$> List.find (λ p, fst p =? index) (regs_list r)).

(** [regs[index] = value] *)
Definition regs_set (r : CalleeSavedRegs) (index value : Z) : outcome CalleeSavedRegs :=
  rassert (existsb (λ p, fst p =? index) (regs_list r));;
  let at_ (i old : Z) := if index =? i then value else old in
  Ret (MkRegs (at_ 1 (x1 r)) (at_ 2 (x2 r)) (at_ 8 (x8 r)) (at_ 9 (x9 r)) (at_ 18 (x18 r)) (at_ 19 (x19 r)) (at_ 20 (x20 r)) (at_ 21 (x21 r))
         (at_ 22 (x22 r)) (at_ 23 (x23 r)) (at_ 24 (x24 r)) (at_ 25 (x25 r)) (at_ 26 (x26 r)) (at_ 27 (x27 r))).

(** ** The backtrace *)
Inductive BacktraceNextError := RaIsZero | CouldNotGetFde (ra : Z) | RaOutsideText (ra : Z).

(** What the linker and the memory provide: where the code is, and the words of
    memory. *)
Class Image := { text_start : Z; text_end : Z; word_at : Z → Z }.

Section backtrace.
Context `{I : Image}.

Definition is_in_text_segment (address : Z) : bool := (text_start <=? address) && (address <? text_end).

(** The loop over the rules of the row. *)
Fixpoint load_saved_registers (cfa : Z) (index : Z) (rules : list RegisterRule) (new_regs : CalleeSavedRegs) : outcome CalleeSavedRegs :=
  match rules with
  | [] => Ret new_regs
  | RuleNone :: rules => load_saved_registers cfa (index + 1) rules new_regs
  | RuleOffset offset :: rules =>
      new_regs ← regs_set new_regs index (word_at (wrapping_add_signed cfa offset));
      load_saved_registers cfa (index + 1) rules new_regs
  end.

Definition backtrace_next (fdes : list ParsedFDE) (regs : CalleeSavedRegs) : outcome (BacktraceNextError + Z * CalleeSavedRegs) :=
  let ra := x1 regs in
  if ra =? 0 then Ret (inl RaIsZero)
  else if negb (is_in_text_segment ra) then Ret (inl (RaOutsideText ra))
  else
    match List.find (λ f, fde_contains f (ra - 1)) fdes with
    | None => Ret (inl (CouldNotGetFde ra))
    | Some f =>
        unwinder ← unwinder_new f;
        row ← find_row_for_address unwinder ra;
        base ← regs_index regs (cfa_register row);
        let cfa := wrapping_add_signed base (cfa_offset row) in
        new_regs ← regs_set regs 2 cfa;
        new_regs ← regs_set new_regs 1 0;
        new_regs ← load_saved_registers cfa 0 (register_rules row) new_regs;
        Ret (inr (ra, new_regs))
    end.

Definition KERNEL_STACK_SIZE : Z := 512 * 1024.
Definition MAX_STACK_SCAN_SLOTS : Z := 512.

(** [scan_stack_for_return_addresses]: the values that are printed. *)
Definition scan_stack (sp : Z) : list Z :=
  let stack_bottom := wrapping_sub 64 0 KERNEL_STACK_SIZE in
  if sp <? stack_bottom then []
  else
    let remaining_slots := wrapping_sub 64 0 sp / 8 in
    filter (λ value, is_in_text_segment value = true)
      ((λ i, word_at (wrapping_add 64 sp (i * 8))) <$> seqZ 0 (Z.min remaining_slots MAX_STACK_SCAN_SLOTS)).

(** [print]: the frames, with a mark on those found by the scan. The loop ends only
    where the stack does. *)
Fixpoint print (fuel : nat) (fdes : list ParsedFDE) (last_sp : Z) (regs : CalleeSavedRegs) : outcome (list (bool * Z)) :=
  match fuel with
  | O => Panic
  | S fuel =>
      r ← backtrace_next fdes regs;
      match r with
      | inr (address, regs) => l ← print fuel fdes (x2 regs) regs; Ret ((true, address) :: l)
      | inl RaIsZero => Ret [(true, 0)]
      | inl (CouldNotGetFde address) => Ret ((true, address) :: (pair false <$> scan_stack last_sp))
      | inl (RaOutsideText _) => Ret (pair false <$> scan_stack last_sp)
      end
  end.

(** [Backtrace::new]: every FDE of the section. *)
Definition backtrace_init (eh_frame : list Z) (eh_frame_start : Z) : outcome (list ParsedFDE) :=
  eh_collect (S (length eh_frame)) (S (length eh_frame)) (eh_iter eh_frame eh_frame_start).
End backtrace.
