(* ===== verification/UnwinderTheorems.v ===== *)
(** The rows of the unwinder are the rules of DWARF, and a backtrace is the chain of
    callers. *)
From S2P Require Import Prelude Bytes KUtil Parser Leb128 EhFrame EhFrameTheorems Unwinder.

(** ** What DWARF says *)
(** Where the caller's stack pointer is, and which registers are saved how far from
    it. *)
Record Rules := MkRules { cr_reg : Z; cr_off : Z; cr_saved : gmap Z Z }.

(** The rules at the location [t], by executing the instructions up to it. [init] are
    the registers saved after the instructions of the CIE. *)
Fixpoint dwarf_rules (daf : Z) (init : gmap Z Z) (t loc : Z) (r : Rules) (stack : list Rules) (il : list Instruction) : option Rules :=
  match il with
  | [] => Some r
  | AdvanceLoc d :: il => if t <? loc + d then Some r else dwarf_rules daf init t (loc + d) r stack il
  | Offset reg o :: il => dwarf_rules daf init t loc (MkRules (cr_reg r) (cr_off r) (<[reg := o * daf]> (cr_saved r))) stack il
  | Restore reg :: il =>
      dwarf_rules daf init t loc
        (MkRules (cr_reg r) (cr_off r) (match init !! reg with Some o => <[reg := o]> (cr_saved r) | None => delete reg (cr_saved r) end)) stack il
  | DefCfa reg o :: il => dwarf_rules daf init t loc (MkRules reg o (cr_saved r)) stack il
  | DefCfaRegister reg :: il => dwarf_rules daf init t loc (MkRules reg (cr_off r) (cr_saved r)) stack il
  | DefCfaOffset o :: il => dwarf_rules daf init t loc (MkRules (cr_reg r) o (cr_saved r)) stack il
  | RemeberState :: il => dwarf_rules daf init t loc r (r :: stack) il
  | RestoreState :: il => match stack with [] => None | r :: stack => dwarf_rules daf init t loc r stack il end
  | Nop :: il => dwarf_rules daf init t loc r stack il
  end.

(** The rules of a function at a location: those of its CIE, then its own. *)
Definition cie_rules (c : ParsedCIE) : option Rules :=
  dwarf_rules (data_alignment_factor c) ∅ 0 0 (MkRules 0 0 ∅) [] (initial_instructions c).
Definition fde_rules (f : ParsedFDE) (t : Z) : option Rules :=
  match cie_rules (fde_cie f) with
  | None => None
  | Some r => dwarf_rules (data_alignment_factor (fde_cie f)) (cr_saved r) t (pc_begin f) r [] (instructions f)
  end.

(** ** What the unwinder supports *)
(** Registers below 32, offsets of 63 bits, [adv] more locations, a stack of 16 rules;
    the locations are in the function. *)
Fixpoint instrs_ok (daf limit loc : Z) (adv depth : nat) (il : list Instruction) : bool :=
  match il with
  | [] => true
  | AdvanceLoc d :: il => (0 <=? d) && (loc + d <=? limit) && match adv with O => false | S adv => instrs_ok daf limit (loc + d) adv depth il end
  | Offset reg o :: il =>
      (0 <=? reg) && (reg <? 32) && (0 <=? o) && (o <? 2 ^ 63) && bool_decide (- 2 ^ 63 ≤ o * daf < 2 ^ 63) && instrs_ok daf limit loc adv depth il
  | Restore reg :: il => (0 <=? reg) && (reg <? 32) && instrs_ok daf limit loc adv depth il
  | DefCfa _ o :: il | DefCfaOffset o :: il => (o <? 2 ^ 63) && instrs_ok daf limit loc adv depth il
  | DefCfaRegister _ :: il | Nop :: il => instrs_ok daf limit loc adv depth il
  | RemeberState :: il => bool_decide (depth < 16)%nat && instrs_ok daf limit loc adv (S depth) il
  | RestoreState :: il => match depth with O => false | S depth => instrs_ok daf limit loc adv depth il end
  end.

(** No register is saved before the first new location. *)
Fixpoint saves_late (il : list Instruction) : bool :=
  match il with
  | [] | AdvanceLoc _ :: _ => true
  | Offset _ _ :: _ => false
  | _ :: il => saves_late il
  end.

(** The instructions of a CIE have no locations and keep no states. *)
Definition cie_simple (i : Instruction) : bool := match i with RemeberState | RestoreState | Restore _ => false | _ => true end.

Definition fde_ok (f : ParsedFDE) : bool :=
  let c := fde_cie f in
  (code_alignment_factor c =? 1) && (0 <=? pc_begin f) && (0 <=? address_range f) && (pc_begin f + address_range f <? 2 ^ 64) &&
  instrs_ok (data_alignment_factor c) (pc_begin f) (pc_begin f) 0 0 (initial_instructions c) &&
  forallb cie_simple (initial_instructions c) &&
  instrs_ok (data_alignment_factor c) (pc_begin f + address_range f) (pc_begin f) 127 0 (instructions f) && saves_late (instructions f).

(** ** Rows and rules *)
Definition rule_of (o : option Z) : RegisterRule := match o with Some o => RuleOffset o | None => RuleNone end.
Definition saves (l : list RegisterRule) (m : gmap Z Z) : Prop := length l = 32%nat ∧ ∀ i, (i < 32)%nat → l !! i = Some (rule_of (m !! Z.of_nat i)).
Definition means (row : Row) (r : Rules) : Prop := cfa_register row = cr_reg r ∧ cfa_offset row = cr_off r ∧ saves (register_rules row) (cr_saved r).

Lemma saves_insert l m i o : saves l m → 0 ≤ i < 32 → saves (<[Z.to_nat i := RuleOffset o]> l) (<[i := o]> m).
Proof.
  intros [Hl H] Hi. split; [by rewrite length_insert|]. intros j Hj. destruct (decide (j = Z.to_nat i)) as [->|Hne].
  - rewrite list_lookup_insert_eq by lia. rewrite Z2Nat.id by lia. by rewrite lookup_insert_eq.
  - rewrite list_lookup_insert_ne by done. rewrite lookup_insert_ne by lia. by apply H.
Qed.

Lemma saves_delete l m i : saves l m → 0 ≤ i < 32 → saves (<[Z.to_nat i := RuleNone]> l) (delete i m).
Proof.
  intros [Hl H] Hi. split; [by rewrite length_insert|]. intros j Hj. destruct (decide (j = Z.to_nat i)) as [->|Hne].
  - rewrite list_lookup_insert_eq by lia. rewrite Z2Nat.id by lia. by rewrite lookup_delete_eq.
  - rewrite list_lookup_insert_ne by done. rewrite lookup_delete_ne by lia. by apply H.
Qed.

Lemma saves_lookup l m i : saves l m → 0 ≤ i < 32 → l !! Z.to_nat i = Some (rule_of (m !! i)).
Proof. intros [_ H] Hi. rewrite H by lia. by rewrite Z2Nat.id by lia. Qed.

Lemma signed_small x : - 2 ^ 63 ≤ x < 2 ^ 63 → signed 64 (x mod 2 ^ 64) = x.
Proof.
  intros Hx. unfold signed. change (64 - 1) with 63. destruct (Z.lt_ge_cases x 0).
  - rewrite <-(Z.mod_unique x (2 ^ 64) (-1) (x + 2 ^ 64)) by lia. rewrite (proj2 (Z.ltb_ge _ _)) by lia. lia.
  - rewrite Z.mod_small by lia. by rewrite (proj2 (Z.ltb_lt _ _)) by lia.
Qed.

Lemma set_rule_Ret row i rule : length (register_rules row) = 32%nat → 0 ≤ i < 32 →
  set_rule row i rule = Ret (set_rules row (<[Z.to_nat i := rule]> (register_rules row))).
Proof. intros Hl Hi. unfold set_rule. by rewrite bool_decide_eq_true_2 by lia. Qed.

Lemma i64_try_from_Ret x : x < 2 ^ 63 → i64_try_from x = Ret x.
Proof. intros. unfold i64_try_from. by rewrite (proj2 (Z.ltb_lt _ _)). Qed.

Lemma update_last_row_app rows_ last st row : update_last_row (MkUw (rows_ ++ [last]) st) row = Ret (MkUw (rows_ ++ [row]) st).
Proof.
  unfold update_last_row. simpl. rewrite bool_decide_eq_true_2 by (by destruct rows_). bstep. rewrite length_app. simpl.
  replace (length rows_ + 1 - 1)%nat with (length rows_ + 0)%nat by lia. by rewrite insert_app_r.
Qed.

Lemma av_pop_app {T} (l : list T) x : av_pop (l ++ [x]) = Some (x, l).
Proof. unfold av_pop. rewrite last_snoc, length_app. simpl. rewrite Nat.add_sub. by rewrite take_app_length. Qed.

Lemma av_push_Ret {T} n (l : list T) x : (length l < n)%nat → expect_ok (av_push n l x) = Ret (l ++ [x]).
Proof. intros. unfold av_push. by rewrite bool_decide_eq_false_2 by lia. Qed.

(** ** An instruction that stays at its location *)
Definition is_advance (i : Instruction) : bool := match i with AdvanceLoc _ => true | _ => false end.

Section step.
Context (daf limit : Z) (init : gmap Z Z).

(** The unwinder's state, and the rules it stands for. *)
Definition stands (rows_ st : list Row) (cur : Row) (r : Rules) (stack : list Rules) : Prop :=
  (∃ first, head rows_ = Some first ∧ saves (register_rules first) init) ∧ means cur r ∧ Forall2 means (rev st) stack.

(** All rules are those of the CIE, and stay so until the next location. *)
Definition unchanged (r : Rules) (stack : list Rules) (il : list Instruction) : Prop :=
  saves_late il = true ∧ cr_saved r = init ∧ Forall (λ r, cr_saved r = init) stack.

Definition below (addr : Z) (cur : Row) (st : list Row) : Prop := start_address cur ≤ addr ∧ Forall (λ row, start_address row ≤ addr) st.

Lemma restore_init reg r : cr_saved r = init → (match init !! reg with Some o => <[reg := o]> (cr_saved r) | None => delete reg (cr_saved r) end) = init.
Proof. intros ->. destruct (init !! reg) eqn:E; [by apply insert_id|by apply delete_id]. Qed.

Ltac ok_split H := repeat (apply andb_true_iff in H as [H ?]); repeat match goal with
  | H : (_ <=? _) = true |- _ => apply Z.leb_le in H
  | H : (_ <? _) = true |- _ => apply Z.ltb_lt in H
  | H : bool_decide _ = true |- _ => apply bool_decide_eq_true in H
  end.

Ltac same_place := split; [split; [done|split; [|done]]|split; [done|split; [done|split; [done|]]]].

Lemma step_sim i il adv addr rows_ st cur r stack : is_advance i = false → stands rows_ st cur r stack → instrs_ok daf limit addr adv (length st) (i :: il) = true →
  ∃ st' cur' r' stack', evaluate_instruction daf (MkUw rows_ st, addr, cur) i = Ret (MkUw rows_ st', addr, cur') ∧ stands rows_ st' cur' r' stack' ∧
    instrs_ok daf limit addr adv (length st') il = true ∧ (∀ t, dwarf_rules daf init t addr r stack (i :: il) = dwarf_rules daf init t addr r' stack' il) ∧
    (below addr cur st → below addr cur' st') ∧ (unchanged r stack (i :: il) → unchanged r' stack' il).
Proof.
  intros Hi (Hfirst & Hc & Hst) Hok. pose proof Hc as (Hreg & Hoff & Hsv). pose proof Hsv as [Hlen _].
  destruct i as [d|reg o|reg|reg o|reg|o| | |]; [done|..]; cbn [instrs_ok evaluate_instruction rows row_stack] in *; ok_split Hok.
  - rewrite i64_try_from_Ret by done. bstep. rewrite set_rule_Ret by done. bstep.
    exists st, (set_rules cur (<[Z.to_nat reg := RuleOffset (wrapping_mul_signed o daf)]> (register_rules cur))), (MkRules (cr_reg r) (cr_off r) (<[reg := o * daf]> (cr_saved r))), stack.
    split; [done|]. unfold wrapping_mul_signed. rewrite signed_small by done. same_place; [|by intros [? _]]. split; [done|]. split; [done|]. by apply saves_insert.
  - destruct Hfirst as (first & Hf & Hs). rewrite Hf. bstep. rewrite (saves_lookup _ _ reg Hs) by done. bstep. rewrite set_rule_Ret by done. bstep.
    exists st, (set_rules cur (<[Z.to_nat reg := rule_of (init !! reg)]> (register_rules cur))),
      (MkRules (cr_reg r) (cr_off r) (match init !! reg with Some o => <[reg := o]> (cr_saved r) | None => delete reg (cr_saved r) end)), stack.
    split; [done|]. split; [split; [by exists first|split; [|done]]|split; [done|split; [done|split; [done|]]]].
    + split; [done|]. split; [done|]. cbn [set_rules register_rules cr_saved]. destruct (init !! reg); [by apply saves_insert|by apply saves_delete].
    + intros (? & ? & ?). split; [done|]. split; [by apply restore_init|done].
  - rewrite i64_try_from_Ret by done. bstep. exists st, (set_cfa cur reg o), (MkRules reg o (cr_saved r)), stack. split; [done|]. by same_place.
  - exists st, (set_cfa cur reg (cfa_offset cur)), (MkRules reg (cr_off r) (cr_saved r)), stack. split; [done|]. by same_place.
  - rewrite i64_try_from_Ret by done. bstep. exists st, (set_cfa cur (cfa_register cur) o), (MkRules (cr_reg r) o (cr_saved r)), stack. split; [done|]. by same_place.
  - rewrite av_push_Ret by done. bstep. exists (st ++ [cur]), cur, r, (r :: stack). split; [done|]. split; [|split; [|split; [done|split]]].
    + split; [done|]. split; [done|]. rewrite rev_app_distr. by constructor.
    + rewrite length_app, Nat.add_1_r. done.
    + intros [? ?]. split; [done|]. by apply Forall_app_2; [|constructor].
    + intros (? & ? & ?). split; [done|]. split; [done|]. by constructor.
  - destruct st as [|row st _] using rev_ind; [done|]. rewrite rev_app_distr in Hst. cbn [rev app] in Hst. destruct stack as [|r' stack]; [by inversion Hst|].
    apply Forall2_cons in Hst as [Hm Hst]. rewrite av_pop_app. bstep. exists st, (set_start row (start_address row)), r', stack. split; [done|].
    rewrite length_app, Nat.add_1_r in Hok. split; [done|]. split; [done|]. split; [done|]. split.
    + intros [? [? [? _]%Forall_cons]%Forall_app]. done.
    + intros (? & ? & [? ?]%Forall_cons). done.
  - exists st, cur, r, stack. split; [done|]. by same_place.
Qed.

(** The row for the return address [t + 1]. *)
Definition covers (t : Z) (row : Row) : bool := (start_address row <=? t + 1) && (t + 1 <=? row_end row).

(** A function's instructions: for each location in it, the first row that covers it
    has its rules. *)
Lemma eval_all il : ∀ closed last st addr cur r stack adv, stands (closed ++ [last]) st cur r stack → (closed = [] → unchanged r stack il) → below addr cur st →
  instrs_ok daf limit addr adv (length st) il = true → (length closed + 1 + adv ≤ 128)%nat → 0 ≤ addr → limit < 2 ^ 64 →
  ∃ more last' st' addr' cur', foldM (evaluate_instruction daf) il (MkUw (closed ++ [last]) st, addr, cur) = Ret (MkUw (closed ++ more ++ [last']) st', addr', cur') ∧
    ∀ t, addr ≤ t < limit → ∃ R row, dwarf_rules daf init t addr r stack il = Some R ∧
      List.find (covers t) (more ++ [set_end cur' limit]) = Some row ∧ means row R.
Proof.
  induction il as [|i il IH]; intros closed last st addr cur r stack adv Hs Hu Hb Hok Hn Ha Hlim.
  { exists [], last, st, addr, cur. split; [done|]. intros t Ht. exists r, (set_end cur limit). split; [done|]. destruct Hs as (_ & Hm & _), Hb as [Hb _].
    split; [|done]. simpl. unfold covers. cbn [set_end start_address row_end]. by rewrite !(proj2 (Z.leb_le _ _)) by lia. }
  destruct (is_advance i) eqn:Ei.
  - destruct i as [d| | | | | | | |]; try done. destruct Hs as ((first & Hf & Hsv) & Hm & Hst). destruct Hb as [Hb1 Hb2].
    cbn [instrs_ok] in Hok. apply andb_true_iff in Hok as [[Hd%Z.leb_le Hle%Z.leb_le]%andb_true_iff Hok]. destruct adv as [|adv]; [done|].
    cbn [foldM evaluate_instruction]. rewrite (proj2 (add_Ret 64 addr d (addr + d))) by lia. bstep. rewrite update_last_row_app. bstep.
    unfold push_row. cbn [rows row_stack]. rewrite av_push_Ret by (rewrite length_app; simpl; lia). bstep.
    set (row := set_end cur (addr + d)). set (cur2 := set_end (set_start row (addr + d)) 0).
    destruct (IH (closed ++ [row]) cur2 st (addr + d) cur2 r stack adv) as (more & last' & st' & addr' & cur' & -> & Hfind); try done; try lia.
    + split; [|done]. destruct closed as [|c closed]; [|by exists c; simplify_eq/=]. exists row. split; [done|]. destruct (Hu eq_refl) as (_ & Hi & _). rewrite <-Hi. apply Hm.
    + intros E. by destruct closed.
    + split; [done|]. eapply Forall_impl; [exact Hb2|]. simpl. lia.
    + rewrite length_app. simpl. lia.
    + exists (row :: more), last', st', addr', cur'. rewrite <-app_assoc. split; [done|]. intros t Ht. cbn [dwarf_rules app List.find].
      unfold covers at 1. subst row. cbn [set_end start_address row_end]. rewrite (proj2 (Z.leb_le (start_address cur) (t + 1))) by lia. cbn [andb].
      destruct (Z.ltb_spec t (addr + d)) as [Hlt|Hge]; [rewrite (proj2 (Z.leb_le _ _)) by lia; eauto|]. rewrite (proj2 (Z.leb_gt _ _)) by lia. apply Hfind. lia.
  - destruct (step_sim i il adv addr (closed ++ [last]) st cur r stack Ei Hs Hok) as (st2 & cur2 & r2 & stack2 & Heval & Hs2 & Hok2 & Hd & Hb2 & Hu2).
    cbn [foldM]. rewrite Heval. bstep. destruct (IH closed last st2 addr cur2 r2 stack2 adv) as (more & last' & st' & addr' & cur' & -> & Hfind); try done; auto.
    exists more, last', st', addr', cur'. split; [done|]. intros t Ht. rewrite Hd. by apply Hfind.
Qed.
End step.

Lemma eval_cie daf pc t il : ∀ last cur r, instrs_ok daf pc pc 0 0 il = true → forallb cie_simple il = true →
  saves (register_rules last) ∅ → means cur r → start_address cur ≤ pc → ∃ cur' R, dwarf_rules daf ∅ t pc r [] il = Some R ∧ means cur' R ∧ start_address cur' ≤ pc ∧
    foldM (evaluate_instruction daf) il (MkUw [last] [], pc, cur) = Ret (MkUw [last] [], pc, cur').
Proof.
  induction il as [|i il IH]; intros last cur r Hok Hsimple Hl Hm Hs; [exists cur, r; by split|].
  cbn [forallb] in Hsimple. apply andb_true_iff in Hsimple as [Hi Hsimple]. destruct (is_advance i) eqn:Ei.
  { destruct i; try done. cbn [instrs_ok] in Hok. by rewrite andb_false_r in Hok. }
  destruct (step_sim daf pc ∅ i il 0 pc [last] [] cur r [] Ei) as (st2 & cur2 & r2 & stack2 & Heval & (_ & Hm2 & Hst2) & Hok2 & Hd & Hb2 & _); [|done|].
  { split; [by exists last|]. split; [done|constructor]. }
  assert (st2 = []) as -> by (destruct i; try done; cbn [evaluate_instruction] in Heval; inv_outcome; congruence).
  inversion Hst2; subst. destruct Hb2 as [Hb2 _]; [split; [done|constructor]|]. cbn [foldM]. rewrite Heval, Hd. bstep. by apply IH.
Qed.

Lemma dwarf_no_location daf init t t' loc loc' il : ∀ r st limit depth, instrs_ok daf limit loc 0 depth il = true →
  dwarf_rules daf init t loc r st il = dwarf_rules daf init t' loc' r st il.
Proof.
  induction il as [|i il IH]; intros r st limit depth H; [done|].
  destruct i; cbn [instrs_ok dwarf_rules] in *; repeat (apply andb_true_iff in H as [H ?]); try done; try (by eapply IH).
  destruct depth; [done|]. destruct st; [done|]. by eapply IH.
Qed.

Lemma saves_nothing : saves (replicate 32 RuleNone) ∅.
Proof. split; [done|]. intros i Hi. rewrite lookup_replicate_2 by done. by rewrite lookup_empty. Qed.

(** The row that the unwinder finds for a return address in a function has the rules of
    the call before it. *)
Lemma unwinder_correct f t : fde_ok f = true → pc_begin f ≤ t < pc_begin f + address_range f →
  ∃ u row r, unwinder_new f = Ret u ∧ find_row_for_address u (t + 1) = Ret row ∧ fde_rules f t = Some r ∧ means row r.
Proof.
  unfold fde_ok. intros Hok Ht. repeat (apply andb_true_iff in Hok as [Hok ?]). rename select (saves_late _ = true) into Hlate.
  rename select (instrs_ok _ (pc_begin f + _) _ _ _ _ = true) into Hi. rename select (forallb _ _ = true) into Hsimple.
  rename select (instrs_ok _ (pc_begin f) _ _ _ _ = true) into Hc. rename select ((_ <? _) = true) into Hlim. rename select ((0 <=? address_range f) = true) into Hr.
  rename select ((0 <=? pc_begin f) = true) into Hpc. apply Z.ltb_lt in Hlim. apply Z.leb_le in Hr, Hpc. set (daf := data_alignment_factor (fde_cie f)) in *.
  unfold unwinder_new, push_row. cbn [rows row_stack]. rewrite (av_push_Ret 128 []) by (simpl; lia). bstep. unfold evaluate_instructions, last_row. cbn [rows app last]. bstep. fold daf.
  set (row0 := row_new (pc_begin f)). destruct (eval_cie daf (pc_begin f) t _ row0 row0 (MkRules 0 0 ∅) Hc Hsimple) as (cur & R & HR & Hm & Hs & ->).
  { apply saves_nothing. } { split; [done|]. split; [done|]. apply saves_nothing. } { done. }
  bstep. rewrite (update_last_row_app [] row0 [] cur : update_last_row (MkUw [row0] []) cur = _). bstep. cbn [rows app last]. bstep.
  assert (cie_rules (fde_cie f) = Some R) as Hcie by (rewrite <-HR; symmetry; exact (dwarf_no_location daf ∅ t 0 _ 0 _ _ _ _ _ Hc)).
  destruct (eval_all daf (pc_begin f + address_range f) (cr_saved R) (instructions f) [] cur [] (pc_begin f) cur R [] 127)
    as (more & last' & st' & addr' & cur' & Heval & Hfind); try done; try lia.
  { split; [exists cur; split; [done|apply Hm]|]. split; [done|constructor]. }
  cbn [app length] in Heval. rewrite Heval. bstep. rewrite update_last_row_app. bstep. cbn [rows]. rewrite last_snoc. bstep.
  rewrite (proj2 (add_Ret 64 (pc_begin f) (address_range f) (pc_begin f + address_range f))) by lia. bstep. rewrite update_last_row_app.
  destruct (Hfind t Ht) as (R' & row & Hd & Hrow & Hmean). eexists _, row, R'. split; [done|]. split; [|split; [|done]].
  - unfold find_row_for_address. cbn [rows]. unfold covers in Hrow. by rewrite Hrow.
  - unfold fde_rules. by rewrite Hcie.
Qed.

(** ** Registers *)
Definition saved_registers : list Z := [1; 2; 8; 9; 18; 19; 20; 21; 22; 23; 24; 25; 26; 27].
Definition regs_of (g : Z → Z) : CalleeSavedRegs :=
  MkRegs (g 1) (g 2) (g 8) (g 9) (g 18) (g 19) (g 20) (g 21) (g 22) (g 23) (g 24) (g 25) (g 26) (g 27).
Definition reg_at (r : CalleeSavedRegs) (i : Z) : Z := default 0 (snd <$> List.find (λ p, fst p =? i) (regs_list r)).

(** [regs[i]] for the registers there are. *)
Ltac each_register H := repeat (apply elem_of_cons in H as [->|H]; [try done|]); [..|by apply elem_of_nil in H].

Lemma regs_of_ext g h : (∀ i, i ∈ saved_registers → g i = h i) → regs_of g = regs_of h.
Proof. intros H. unfold regs_of. f_equal; apply H; unfold saved_registers; set_solver. Qed.

Lemma reg_at_of g i : i ∈ saved_registers → reg_at (regs_of g) i = g i.
Proof. intros H. each_register H. Qed.

Lemma regs_of_at r : regs_of (reg_at r) = r.
Proof. by destruct r. Qed.

Lemma regs_index_Ret r i : i ∈ saved_registers → regs_index r i = Ret (reg_at r i).
Proof. intros H. each_register H. Qed.

Lemma regs_set_Ret r i v : i ∈ saved_registers → regs_set r i v = Ret (regs_of (λ j, if i =? j then v else reg_at r j)).
Proof. intros H. each_register H. Qed.

Lemma wrapping_add_signed_mod base o : wrapping_add_signed base o = (base + o) mod 2 ^ 64.
Proof.
  unfold wrapping_add_signed, wrapping_add, wrapping_sub. destruct (Z.leb_spec 0 o); [by rewrite Z.abs_eq|].
  rewrite Z.abs_neq by lia. f_equal. lia.
Qed.

(** ** The callers *)
Section callers.
Context `{I : Image}.

(** The registers of the caller: the stack pointer as it was before the call, and the
    saved registers; without a saved return address there is no further caller. *)
Definition caller (r : Rules) (regs : CalleeSavedRegs) : CalleeSavedRegs :=
  let cfa := (reg_at regs (cr_reg r) + cr_off r) mod 2 ^ 64 in
  regs_of (λ i, match cr_saved r !! i with
                | Some o => word_at ((cfa + o) mod 2 ^ 64)
                | None => if i =? 2 then cfa else if i =? 1 then 0 else reg_at regs i
                end).

(** Only registers that a function must preserve are saved. *)
Definition preserving (r : Rules) : Prop := cr_reg r ∈ saved_registers ∧ map_Forall (λ i _, i ∈ saved_registers) (cr_saved r).

(** The return addresses, from the innermost call to the end of the stack. *)
Inductive call_chain (fdes : list ParsedFDE) : CalleeSavedRegs → list Z → Prop :=
  | chain_end regs : x1 regs = 0 → call_chain fdes regs [0]
  | chain_call f r regs l : x1 regs ≠ 0 → is_in_text_segment (x1 regs) = true →
      f ∈ fdes → pc_begin f ≤ x1 regs - 1 < pc_begin f + address_range f → fde_rules f (x1 regs - 1) = Some r → preserving r →
      call_chain fdes (caller r regs) l → call_chain fdes regs (x1 regs :: l).

Lemma load_saved_registers_Ret cfa l : ∀ index regs, (∀ k o, l !! k = Some (RuleOffset o) → index + Z.of_nat k ∈ saved_registers) → 0 ≤ index →
  load_saved_registers cfa index l regs =
  Ret (regs_of (λ i, match (if index <=? i then l !! Z.to_nat (i - index) else None) with
                     | Some (RuleOffset o) => word_at ((cfa + o) mod 2 ^ 64)
                     | _ => reg_at regs i
                     end)).
Proof.
  induction l as [|rule l IH]; intros index regs Hin H0; cbn [load_saved_registers].
  { f_equal. rewrite <-(regs_of_at regs) at 1. apply regs_of_ext. intros i _. rewrite lookup_nil. by destruct (_ <=? _). }
  assert (∀ k o, l !! k = Some (RuleOffset o) → index + 1 + Z.of_nat k ∈ saved_registers) as Hin'.
  { intros k o Hk. replace (index + 1 + Z.of_nat k) with (index + Z.of_nat (S k)) by lia. by apply (Hin (S k) o). }
  assert (∀ i, index + 1 ≤ i → (rule :: l) !! Z.to_nat (i - index) = l !! Z.to_nat (i - (index + 1))) as Hl.
  { intros i Hi. replace (Z.to_nat (i - index)) with (S (Z.to_nat (i - (index + 1)))) by lia. done. }
  destruct rule as [|o]; [|rewrite regs_set_Ret by (specialize (Hin O o eq_refl); by rewrite Z.add_0_r in Hin); bstep]; rewrite IH by (done || lia); f_equal; apply regs_of_ext; intros i Hi.
  all: destruct (Z.leb_spec (index + 1) i), (Z.leb_spec index i); try lia; rewrite ?Hl by done; try done.
  - replace i with index by lia. by rewrite Z.sub_diag.
  - destruct (l !! _) as [[|o']|]; try done; rewrite reg_at_of by done; by rewrite (proj2 (Z.eqb_neq _ _)) by lia.
  - rewrite reg_at_of by done. replace i with index by lia. rewrite Z.sub_diag, Z.eqb_refl. simpl. by rewrite wrapping_add_signed_mod.
  - rewrite reg_at_of by done. by rewrite (proj2 (Z.eqb_neq _ _)) by lia.
Qed.

(** A row finds the caller's registers. *)
Lemma load_caller row r regs : means row r → preserving r → let cfa := (reg_at regs (cr_reg r) + cr_off r) mod 2 ^ 64 in
  load_saved_registers cfa 0 (register_rules row) (regs_of (λ j, if 1 =? j then 0 else reg_at (regs_of (λ j, if 2 =? j then cfa else reg_at regs j)) j)) = Ret (caller r regs).
Proof.
  intros (_ & _ & Hlen & Hs) [_ Hp] cfa. rewrite load_saved_registers_Ret; [|intros k o Hk|lia].
  2: { rewrite Z.add_0_l. pose proof (lookup_lt_Some _ _ _ Hk). rewrite Hs in Hk by lia. destruct (cr_saved r !! Z.of_nat k) eqn:E; [|done]. by apply (Hp _ _ E). }
  f_equal. apply regs_of_ext. intros i Hi. assert (0 ≤ i < 32) as Hr by (revert Hi; clear; unfold saved_registers; intros H; each_register H; lia).
  rewrite (proj2 (Z.leb_le _ _)) by lia. rewrite Z.sub_0_r, Hs, Z2Nat.id by lia. destruct (cr_saved r !! i); [done|]. cbn [rule_of]. rewrite !reg_at_of by done.
  fold cfa. rewrite (Z.eqb_sym 1 i), (Z.eqb_sym 2 i). destruct (Z.eqb_spec i 1) as [->|]; [done|]. done.
Qed.

Lemma find_fde fdes f a : Forall (λ f, fde_ok f = true) fdes → (∀ f g, f ∈ fdes → g ∈ fdes → fde_contains f a = true → fde_contains g a = true → f = g) →
  f ∈ fdes → pc_begin f ≤ a < pc_begin f + address_range f → List.find (λ f, fde_contains f a) fdes = Some f.
Proof.
  intros Hok Hd Hf Ha. assert (fde_contains f a = true) as Hc.
  { rewrite Forall_forall in Hok. specialize (Hok f Hf). unfold fde_ok in Hok. repeat (apply andb_true_iff in Hok as [Hok ?]). rename select ((_ <? _) = true) into Hlim.
    apply Z.ltb_lt in Hlim. unfold fde_contains, end_address, wrapping_add. rewrite Z.mod_small by (rewrite <-?Z.leb_le in *; lia). by rewrite (proj2 (Z.leb_le _ _)), (proj2 (Z.ltb_lt _ _)) by lia. }
  destruct (List.find _ fdes) as [g|] eqn:E.
  - apply find_some in E as [Hg Hcg]. apply list_elem_of_In in Hg. f_equal. by apply Hd.
  - apply list_elem_of_In in Hf. pose proof (find_none _ _ E _ Hf) as Hn. simpl in Hn. congruence.
Qed.

Lemma backtrace_next_Ret fdes f r regs : Forall (λ f, fde_ok f = true) fdes → (∀ a f g, f ∈ fdes → g ∈ fdes → fde_contains f a = true → fde_contains g a = true → f = g) →
  x1 regs ≠ 0 → is_in_text_segment (x1 regs) = true → f ∈ fdes → pc_begin f ≤ x1 regs - 1 < pc_begin f + address_range f → fde_rules f (x1 regs - 1) = Some r → preserving r →
  backtrace_next fdes regs = Ret (inr (x1 regs, caller r regs)).
Proof.
  intros Hok Hd H0 Ht Hf Hpc Hr Hp. unfold backtrace_next. rewrite (proj2 (Z.eqb_neq _ _)) by done. rewrite Ht. cbn [negb].
  rewrite (find_fde fdes f) by (done || by apply Hd). rewrite Forall_forall in Hok. destruct (unwinder_correct f (x1 regs - 1) (Hok f Hf) Hpc) as (u & row & r' & -> & Hrow & Hr' & Hm).
  assert (r' = r) as -> by congruence. bstep. rewrite Z.sub_add in Hrow. rewrite Hrow. bstep. pose proof Hm as (Hreg & Hoff & _). pose proof Hp as [Hpr _]. rewrite Hreg, Hoff.
  rewrite regs_index_Ret by done. bstep. rewrite wrapping_add_signed_mod. rewrite regs_set_Ret by (unfold saved_registers; set_solver). bstep.
  rewrite regs_set_Ret by (unfold saved_registers; set_solver). bstep. by rewrite load_caller.
Qed.

End callers.

(** ** An example: a function that has called itself once *)
Definition image0 : Image :=
  {| text_start := 0x80200000; text_end := 0x80200040; word_at := λ a, if a =? 0x1008 then 0x80200010 else 0 |}.
Definition regs0 (ra sp : Z) : CalleeSavedRegs := MkRegs ra sp 0 0 0 0 0 0 0 0 0 0 0 0.

Lemma chain0 : call_chain (I := image0) [fde0 0x80200000] (regs0 0x80200010 0x1000) [0x80200010; 0x80200010; 0].
Proof.
  assert (∀ o, preserving (MkRules 2 o {[ 1 := -8 ]})) as Hp.
  { intros o. split; [unfold saved_registers; set_solver|]. intros i x H. cbn [cr_saved] in H. apply lookup_singleton_Some in H as [<- _]. unfold saved_registers. set_solver. }
  eapply (chain_call _ (fde0 0x80200000) (MkRules 2 16 {[ 1 := -8 ]})); [done|done|set_solver|done|vm_compute; reflexivity|apply Hp|].
  eapply (chain_call _ (fde0 0x80200000) (MkRules 2 16 {[ 1 := -8 ]})); [done|done|set_solver|done|vm_compute; reflexivity|apply Hp|].
  by apply chain_end.
Qed.


(** ** Where the unwinder differs from DWARF *)
(** [Restore] takes the rule of the first row, in which what the function itself saved
    at its first location is included. *)
Definition early_save : ParsedFDE := MkFDE cie0 0x1000 0x20 (Some []) [Offset 1 1; AdvanceLoc 4; Restore 1].
Lemma restore_of_early_save : (cr_saved <$> fde_rules early_save 0x1008) = Some ∅ ∧
  ∃ u row, unwinder_new early_save = Ret u ∧ find_row_for_address u 0x1009 = Ret row ∧ register_rules row !! 1%nat = Some (RuleOffset (-8)).
Proof. split; [vm_compute; reflexivity|]. do 2 eexists. split; [vm_compute; reflexivity|]. split; vm_compute; reflexivity. Qed.

(** A row after [RestoreState] starts where the remembered row did: the rows overlap,
    and only the order of the search hides it. *)
Lemma restored_row_overlaps : ∃ u a b, unwinder_new (fde0 0x80200000) = Ret u ∧ rows u !! 2%nat = Some a ∧ rows u !! 4%nat = Some b ∧
  start_address a = start_address b ∧ row_end a < row_end b.
Proof. do 3 eexists. split; [vm_compute; reflexivity|]. split; [vm_compute; reflexivity|]. split; [vm_compute; reflexivity|]. done. Qed.

(** The code alignment factor is not used: a location is advanced by the number as it
    is encoded. *)
Lemma code_alignment_ignored f c : let f' := MkFDE (MkCIE (version (fde_cie f)) (augmentation_string (fde_cie f)) (address_size (fde_cie f)) c
    (data_alignment_factor (fde_cie f)) (cie_augmentation_data (fde_cie f)) (return_address_register (fde_cie f)) (initial_instructions (fde_cie f)))
    (pc_begin f) (address_range f) (fde_augmentation_data f) (instructions f) in unwinder_new f' = unwinder_new f.
Proof. done. Qed.
