(* ===== verification/Ext2.v ===== *)
(** Mounting an ext2 file system: crates/kernel/src/fs/ext2/{mod,inode,structures}.rs.

    The whole tree is read at the mount and becomes read-only nodes. The block device
    is one of the interface [Devices]. Buffers are at least 4-aligned, as the heap
    returns them, so that of the alignment checks those on offsets remain. *)
From S2P Require Import Prelude Headers KUtil Bytes ResultM Parser Paths Vfs Block.

Definition EXT2_MAGIC : Z := 0xEF53.
Definition EXT2_ROOT_INODE : Z := 2.
Definition EXT2_FT_REG_FILE : Z := 1.
Definition EXT2_FT_DIR : Z := 2.

(** ** Structures *)
(** The fields that are used. *)
Record Ext2Superblock := MkSb {
  s_blocks_count : Z; s_log_block_size : Z; s_blocks_per_group : Z; s_inodes_per_group : Z; s_magic : Z; s_rev_level : Z; s_inode_size : Z;
}.
Record Ext2BlockGroupDescriptor := MkBgd { bg_block_bitmap : Z; bg_inode_bitmap : Z; bg_inode_table : Z }.
Record Ext2Inode := MkInode { i_mode : Z; i_size : Z; i_block : list Z }.
Record Ext2DirEntry := MkEntry { e_inode : Z; rec_len : Z; name_len : Z; file_type : Z }.

Definition sb_of_bytes (l : list Z) : Ext2Superblock :=
  MkSb (le_field 4 4 l) (le_field 4 24 l) (le_field 4 32 l) (le_field 4 40 l) (le_field 2 56 l) (le_field 4 76 l) (le_field 2 88 l).
Definition bgd_of_bytes (l : list Z) : Ext2BlockGroupDescriptor := MkBgd (le_field 4 0 l) (le_field 4 4 l) (le_field 4 8 l).
Definition inode_of_bytes (l : list Z) : Ext2Inode :=
  MkInode (le_field 2 0 l) (le_field 4 4 l) ((λ i, le_field 4 (40 + 4 * i) l) <$> seq 0 15).
Definition entry_of_bytes (l : list Z) : Ext2DirEntry := MkEntry (le_field 4 0 l) (le_field 2 4 l) (le_field 1 6 l) (le_field 1 7 l).

Definition SB_SIZE : nat := 92.
Definition BGD_SIZE : nat := 32.
Definition INODE_SIZE : nat := 128.
Definition DIR_ENTRY_SIZE : nat := 8.

Definition ext2_block_size (sb : Ext2Superblock) : outcome Z := shl 64 1024 (s_log_block_size sb).
Definition inode_size (sb : Ext2Superblock) : Z := if s_rev_level sb =? 0 then 128 else s_inode_size sb.
(** [u32::div_ceil] *)
Definition num_block_groups (sb : Ext2Superblock) : outcome Z :=
  q ← udiv (s_blocks_count sb) (s_blocks_per_group sb);
  r ← umod (s_blocks_count sb) (s_blocks_per_group sb);
  if 0 <? r then add 32 q 1 else Ret q.

Definition is_dir (i : Ext2Inode) : bool := Z.land (i_mode i) 0xF000 =? 0x4000.
Definition is_regular (i : Ext2Inode) : bool := Z.land (i_mode i) 0xF000 =? 0x8000.

(** ** Directory entries *)
Definition dot : str := b ".".
Definition dotdot : str := b "..".

(** The entry in use at [offset]; [.] and [..] are left out. *)
Definition named_entry (data : list Z) (offset : Z) (entry : Ext2DirEntry) : outcome (list (str * Z * Z)) :=
  if e_inode entry =? 0 then Ret []
  else
    name_start ← add 64 offset (Z.of_nat DIR_ENTRY_SIZE);
    name_end ← add 64 name_start (name_len entry);
    if name_end <=? Z.of_nat (length data) then
      name ← expect (from_utf8 (take (Z.to_nat (name_len entry)) (drop (Z.to_nat name_start) data)));
      Ret (if bool_decide (name = dot) || bool_decide (name = dotdot) then [] else [(name, e_inode entry, file_type entry)])
    else Ret [].

(** A loop; every entry takes a byte at least. *)
Fixpoint parse_dir_loop (fuel : nat) (data : list Z) (offset : Z) : outcome (list (str * Z * Z)) :=
  match fuel with
  | O => Panic
  | S fuel =>
      e ← add 64 offset (Z.of_nat DIR_ENTRY_SIZE);
      if negb (e <=? Z.of_nat (length data)) then Ret []
      else
        rassert (offset mod 4 =? 0);;
        let entry := entry_of_bytes (drop (Z.to_nat offset) data) in
        if rec_len entry =? 0 then Ret []
        else
          this ← named_entry data offset entry;
          next ← add 64 offset (rec_len entry);
          rest ← parse_dir_loop fuel data next;
          Ret (this ++ rest)
  end.

Definition parse_dir_entries (data : list Z) : outcome (list (str * Z * Z)) := parse_dir_loop (S (length data)) data 0.

Section ext2.
Context {D : Type} `{DV : Devices D}.
Variable dev : nat.
Open Scope stM_scope.

(** [dev.read(..).await.expect(..)] and the check for a short read. *)
Definition dev_read (offset : Z) (len : Z) : fsM D (list Z) :=
  r ←? try (device (λ d, block_read d dev offset (Z.to_nat len)));
  match r with
  | inl _ => lift Panic
  | inr data => lift (rassert (Z.of_nat (length data) =? len));;? ok data
  end.

Definition read_superblock : fsM D Ext2Superblock := buf ←? dev_read 1024 (Z.of_nat SB_SIZE); ok (sb_of_bytes buf).

Definition read_block_group_descriptors (sb : Ext2Superblock) : fsM D (list Ext2BlockGroupDescriptor) :=
  block_size ←? lift (ext2_block_size sb);
  num_groups ←? lift (num_block_groups sb);
  total_size ←? lift (mul 64 num_groups (Z.of_nat BGD_SIZE));
  let bgd_offset := if block_size =? 1024 then 2048 else block_size in
  buf ←? dev_read bgd_offset total_size;
  ok ((λ i, bgd_of_bytes (drop (i * BGD_SIZE) buf)) <$> seq 0 (Z.to_nat num_groups)).

Definition read_inode (sb : Ext2Superblock) (bgds : list Ext2BlockGroupDescriptor) (inode_number : Z) : fsM D Ext2Inode :=
  lift (rassert (1 <=? inode_number));;?
  group ←? lift (udiv (inode_number - 1) (s_inodes_per_group sb));
  index ←? lift (umod (inode_number - 1) (s_inodes_per_group sb));
  block_size ←? lift (ext2_block_size sb);
  bgd ←? lift (expect (bgds !! Z.to_nat group));
  table ←? lift (mul 64 (bg_inode_table bgd) block_size);
  i ←? lift (mul 64 index (inode_size sb));
  offset ←? lift (add 64 table i);
  buf ←? dev_read offset (inode_size sb);
  lift (rassert (bool_decide (INODE_SIZE ≤ length buf)%nat));;?
  ok (inode_of_bytes buf).

(** ** The data of a file *)
Definition read_block_data (block_num block_size remaining : Z) (data : list Z) : fsM D (list Z) :=
  offset ←? lift (mul 64 block_num block_size);
  let to_read := Z.min remaining block_size in
  bytes ←? dev_read offset to_read;
  ok (data ++ bytes).

Definition read_block_pointers (block_num block_size : Z) : fsM D (list Z) :=
  offset ←? lift (mul 64 block_num block_size);
  buf ←? dev_read offset block_size;
  ok ((λ i, le_field 4 (4 * i) buf) <$> seq 0 (Z.to_nat (block_size / 4))).

(** A loop over block numbers, which ends at a hole or when the file is complete. *)
Fixpoint pointer_loop (body : Z → list Z → fsM D (list Z)) (file_size : Z) (pointers : list Z) (data : list Z) : fsM D (list Z) :=
  match pointers with
  | [] => ok data
  | ptr :: pointers =>
      if (ptr =? 0) || (file_size <=? Z.of_nat (length data)) then ok data
      else data ←? body ptr data; pointer_loop body file_size pointers data
  end.

Definition read_direct (block_size file_size : Z) (ptr : Z) (data : list Z) : fsM D (list Z) :=
  remaining ←? lift (sub file_size (Z.of_nat (length data)));
  read_block_data ptr block_size remaining data.

Definition read_indirect (block_size file_size : Z) (indirect_block : Z) (data : list Z) : fsM D (list Z) :=
  pointers ←? read_block_pointers indirect_block block_size;
  pointer_loop (read_direct block_size file_size) file_size pointers data.

Definition read_doubly_indirect (block_size file_size : Z) (dind_block : Z) (data : list Z) : fsM D (list Z) :=
  l1_pointers ←? read_block_pointers dind_block block_size;
  pointer_loop (read_indirect block_size file_size) file_size l1_pointers data.

Definition read_triply_indirect (block_size file_size : Z) (tind_block : Z) (data : list Z) : fsM D (list Z) :=
  l1_pointers ←? read_block_pointers tind_block block_size;
  pointer_loop (read_doubly_indirect block_size file_size) file_size l1_pointers data.

(** [if remaining > 0 && inode.i_block[n] != 0] *)
Definition if_more (body : Z → list Z → fsM D (list Z)) (file_size : Z) (ptr : Z) (data : list Z) : fsM D (list Z) :=
  if (Z.of_nat (length data) <? file_size) && negb (ptr =? 0) then body ptr data else ok data.

Definition read_inode_data (sb : Ext2Superblock) (inode : Ext2Inode) : fsM D (list Z) :=
  let file_size := i_size inode in
  if file_size =? 0 then ok []
  else
    block_size ←? lift (ext2_block_size sb);
    data ←? pointer_loop (read_direct block_size file_size) file_size (take 12 (i_block inode)) [];
    ind ←? lift (expect (i_block inode !! 12%nat));
    data ←? if_more (read_indirect block_size file_size) file_size ind data;
    dind ←? lift (expect (i_block inode !! 13%nat));
    data ←? if_more (read_doubly_indirect block_size file_size) file_size dind data;
    tind ←? lift (expect (i_block inode !! 14%nat));
    data ←? if_more (read_triply_indirect block_size file_size) file_size tind data;
    ok (take (Z.to_nat file_size) data).

(** ** The tree *)
Definition ext2_file (inode : Ext2Inode) (data : list Z) : fsM D nat := new_node (Ext2File data (Z.to_nat (i_size inode))).

(** The loop over the entries of a directory; [sub] is the call for a directory. *)
Fixpoint children_loop (sub : Z → fsM D nat) (sb : Ext2Superblock) (bgds : list Ext2BlockGroupDescriptor) (entries : list (str * Z * Z)) (children : gmap str nat)
    : fsM D (gmap str nat) :=
  match entries with
  | [] => ok children
  | (name, child_ino, file_type) :: entries =>
      if file_type =? EXT2_FT_DIR then
        child ←? sub child_ino;
        children_loop sub sb bgds entries (<[name := child]> children)
      else if file_type =? EXT2_FT_REG_FILE then
        child_inode ←? read_inode sb bgds child_ino;
        data ←? read_inode_data sb child_inode;
        child ←? ext2_file child_inode data;
        children_loop sub sb bgds entries (<[name := child]> children)
      else children_loop sub sb bgds entries children
  end.

Fixpoint build_tree (fuel : nat) (sb : Ext2Superblock) (bgds : list Ext2BlockGroupDescriptor) (inode_number : Z) : fsM D nat :=
  match fuel with
  | O => lift Panic
  | S fuel =>
      inode ←? read_inode sb bgds inode_number;
      if is_dir inode then
        dir_data ←? read_inode_data sb inode;
        entries ←? lift (parse_dir_entries dir_data);
        children ←? children_loop (build_tree fuel sb bgds) sb bgds entries ∅;
        new_node (Ext2Dir children)
      else if is_regular inode then
        data ←? read_inode_data sb inode;
        ext2_file inode data
      else new_node (Ext2File [] 0)
  end.

Definition mount_ext2 (fuel : nat) : fsM D unit :=
  sb ←? read_superblock;
  if negb (s_magic sb =? EXT2_MAGIC) then ok tt
  else
    lift (ext2_block_size sb);;?
    bgds ←? read_block_group_descriptors sb;
    root ←? build_tree fuel sb bgds EXT2_ROOT_INODE;
    mount (b "/mnt") root.
End ext2.
