(* ===== verification/Ext2Theorems.v ===== *)
(** A mounted ext2 file system is the tree on the disk. *)
From S2P Require Import Prelude Headers KUtil Bytes ResultM Parser Paths Vfs VfsTheorems Block Ext2.

(** ** Lists of blocks *)
Lemma mjoin_length {A} (l : list (list A)) n : Forall (λ x, length x = n) l → length (mjoin l) = (length l * n)%nat.
Proof. induction 1 as [|x l Hx _ IH]; simpl; [done|]. change (mjoin (x :: l)) with (x ++ mjoin l). rewrite length_app, Hx, IH. lia. Qed.

Lemma mjoin_lookup {A} (l : list (list A)) n k r x : Forall (λ x, length x = n) l → l !! k = Some x → (r < n)%nat → mjoin l !! (k * n + r)%nat = x !! r.
Proof.
  intros H. revert k. induction H as [|y l Hy _ IH]; intros k Hk Hr; [done|]. change (mjoin (y :: l)) with (y ++ mjoin l).
  destruct k as [|k]; simplify_eq/=; [by rewrite lookup_app_l by lia|]. rewrite lookup_app_r by lia.
  replace (length y + k * length y + r - length y)%nat with (k * length y + r)%nat by lia. by apply IH.
Qed.

Lemma take_app_take {A} n (x y : list A) : take n (take n x ++ y) = take n (x ++ y).
Proof.
  destruct (decide (length x ≤ n)%nat); [by rewrite (take_ge x)|]. rewrite take_app_le, take_take, Nat.min_id by (rewrite length_take; lia).
  by rewrite take_app_le by lia.
Qed.

(** ** Directories *)
Record DirRec := MkRec { r_ino : Z; r_type : Z; r_name : str; r_pad : list Z }.
Definition rec_size (r : DirRec) : nat := (8 + length (r_name r) + length (r_pad r))%nat.
Definition rec_bytes (r : DirRec) : list Z :=
  (le_bytes 4 (r_ino r) ++ le_bytes 2 (Z.of_nat (rec_size r)) ++ [Z.of_nat (length (r_name r))] ++ [r_type r]) ++ r_name r ++ r_pad r.
Record rec_ok (r : DirRec) : Prop := {
  ro_ino : in_width 32 (r_ino r); ro_type : in_width 8 (r_type r); ro_name : (length (r_name r) < 256)%nat;
  ro_utf8 : utf8_valid (r_name r) = true; ro_size : Z.of_nat (rec_size r) < 2 ^ 16; ro_aligned : Z.of_nat (rec_size r) mod 4 = 0;
}.

(** What a record means: nothing if it is free or a way up. *)
Definition is_live (r : DirRec) : bool := negb (r_ino r =? 0) && negb (bool_decide (r_name r = dot) || bool_decide (r_name r = dotdot)).
Definition rec_entry (r : DirRec) : list (str * Z * Z) := if is_live r then [(r_name r, r_ino r, r_type r)] else [].

Lemma rec_bytes_length r : length (rec_bytes r) = rec_size r.
Proof. unfold rec_bytes, rec_size. rewrite !length_app, !le_bytes_length. simpl. lia. Qed.

Lemma le_field_app n off (pre x post : list Z) : length pre = off → length x = n → le_field n off (pre ++ x ++ post) = le_combine x.
Proof. intros <- <-. unfold le_field. by rewrite drop_app_length, take_app_length. Qed.

Lemma entry_of_rec r rest : rec_ok r → entry_of_bytes (rec_bytes r ++ rest) = MkEntry (r_ino r) (Z.of_nat (rec_size r)) (Z.of_nat (length (r_name r))) (r_type r).
Proof.
  intros [H1 H2 H3 _ H5 _]. unfold entry_of_bytes, rec_bytes. set (tail := r_name r ++ r_pad r). rewrite <-!app_assoc.
  assert (∀ x, le_combine [x] = x) as H1b by (intros x; simpl; lia). f_equal.
  - rewrite (le_field_app 4 0 [] (le_bytes 4 _) _ eq_refl (le_bytes_length 4 _) : le_field 4 0 (le_bytes 4 (r_ino r) ++ _) = _). by apply le_combine_bytes.
  - rewrite (le_field_app 2 4 (le_bytes 4 _)) by apply le_bytes_length. apply le_combine_bytes. change (256 ^ Z.of_nat 2) with (2 ^ 16). lia.
  - rewrite (app_assoc (le_bytes 4 _)). rewrite (le_field_app 1 6) by (rewrite ?length_app, ?le_bytes_length; done). apply H1b.
  - rewrite (app_assoc (le_bytes 4 _)), (app_assoc (_ ++ le_bytes 2 _)). rewrite (le_field_app 1 7) by (rewrite ?length_app, ?le_bytes_length; done). apply H1b.
Qed.

Lemma named_entry_rec pre r rest : rec_ok r → Z.of_nat (length (pre ++ rec_bytes r ++ rest)) < 2 ^ 63 →
  named_entry (pre ++ rec_bytes r ++ rest) (Z.of_nat (length pre)) (MkEntry (r_ino r) (Z.of_nat (rec_size r)) (Z.of_nat (length (r_name r))) (r_type r)) = Ret (rec_entry r).
Proof.
  intros Hr Hl. unfold named_entry, rec_entry, is_live, DIR_ENTRY_SIZE. cbn [e_inode name_len file_type]. destruct (r_ino r =? 0); [done|]. cbn [negb andb].
  pose proof (rec_bytes_length r) as Hrl. assert (8 + length (r_name r) ≤ rec_size r)%nat as Hsz by (unfold rec_size; lia). rewrite !length_app in Hl |- *.
  rewrite (proj2 (add_Ret 64 (Z.of_nat (length pre)) (Z.of_nat 8) (Z.of_nat (length pre) + 8))) by lia. bstep.
  rewrite (proj2 (add_Ret 64 (Z.of_nat (length pre) + 8) (Z.of_nat (length (r_name r))) (Z.of_nat (length pre) + 8 + Z.of_nat (length (r_name r))))) by lia. bstep.
  rewrite (proj2 (Z.leb_le _ _)) by lia. replace (take _ _) with (r_name r).
  - unfold from_utf8. rewrite (ro_utf8 r Hr). bstep. by destruct (bool_decide (r_name r = dot) || bool_decide (r_name r = dotdot)).
  - unfold rec_bytes. rewrite !Z2Nat.inj_add, !Nat2Z.id by lia. set (h := le_bytes 4 _ ++ _). rewrite <-!(app_assoc h), (app_assoc pre h).
    rewrite drop_app_length' by (subst h; rewrite !length_app, !le_bytes_length; done). rewrite <-app_assoc. by rewrite take_app_length.
Qed.

Lemma parse_dir_loop_recs recs : Forall rec_ok recs → ∀ fuel pre, Z.of_nat (length (pre ++ mjoin (rec_bytes <$> recs))) < 2 ^ 63 → Z.of_nat (length pre) mod 4 = 0 →
  (length recs < fuel)%nat → parse_dir_loop fuel (pre ++ mjoin (rec_bytes <$> recs)) (Z.of_nat (length pre)) = Ret (mjoin (rec_entry <$> recs)).
Proof.
  induction 1 as [|r recs Hr _ IH]; intros fuel pre Hl Hm Hf; (destruct fuel as [|fuel]; [lia|]); cbn [parse_dir_loop].
  { change (mjoin (rec_bytes <$> [])) with (@nil Z) in *. rewrite app_nil_r in *. unfold DIR_ENTRY_SIZE.
    rewrite (proj2 (add_Ret 64 (Z.of_nat (length pre)) (Z.of_nat 8) (Z.of_nat (length pre) + 8))) by lia. bstep. by rewrite (proj2 (Z.leb_gt _ _)) by lia. }
  change (mjoin (rec_bytes <$> (r :: recs))) with (rec_bytes r ++ mjoin (rec_bytes <$> recs)) in *. pose proof (rec_bytes_length r) as Hrl.
  assert (8 + length (r_name r) ≤ rec_size r)%nat as Hsz by (unfold rec_size; lia). rewrite !length_app in Hl |- *. unfold DIR_ENTRY_SIZE.
  rewrite (proj2 (add_Ret 64 (Z.of_nat (length pre)) (Z.of_nat 8) (Z.of_nat (length pre) + 8))) by lia. bstep.
  rewrite (proj2 (Z.leb_le _ _)) by lia. rewrite Hm. cbn [negb]. bstep. rewrite Nat2Z.id, drop_app_length, entry_of_rec by done. cbn [rec_len e_inode name_len file_type].
  rewrite (proj2 (Z.eqb_neq (Z.of_nat (rec_size r)) 0)) by lia.
  rewrite named_entry_rec by (done || rewrite !length_app; lia). bstep. rewrite (proj2 (add_Ret 64 (Z.of_nat (length pre)) (Z.of_nat (rec_size r)) (Z.of_nat (length (pre ++ rec_bytes r))))) by (rewrite length_app; lia). bstep.
  rewrite (app_assoc pre). rewrite IH; [done|rewrite !length_app; lia| |simpl in Hf; lia].
  rewrite length_app, Nat2Z.inj_add, Hrl. apply mod_add_0; [done|apply Hr].
Qed.

Lemma parse_dir_entries_recs recs : Forall rec_ok recs → Z.of_nat (length (mjoin (rec_bytes <$> recs))) < 2 ^ 63 →
  parse_dir_entries (mjoin (rec_bytes <$> recs)) = Ret (mjoin (rec_entry <$> recs)).
Proof.
  intros Hr Hl. apply (parse_dir_loop_recs recs Hr (S (length (mjoin (rec_bytes <$> recs)))) []); [done|done|].
  clear. induction recs as [|r recs IH]; [simpl; lia|]. change (mjoin (rec_bytes <$> (r :: recs))) with (rec_bytes r ++ mjoin (rec_bytes <$> recs)).
  rewrite length_app, rec_bytes_length. simpl. unfold rec_size. lia.
Qed.

Section reading.
Context {D : Type} `{DV : Devices D}.
Variables (dev : nat) (disk : list Z).
(** The device reads what is on the disk. *)
Hypothesis Hread : ∀ d offset n, block_read d dev offset n = (d, Okay (take n (drop (Z.to_nat offset) disk))).
Open Scope stM_scope.
Implicit Types s : FS D.

(** The bytes of the disk from [off] on. *)
Definition bytes_at (off n : Z) : list Z := take (Z.to_nat n) (drop (Z.to_nat off) disk).
Definition on_device (off n : Z) : Prop := 0 ≤ off ∧ 0 ≤ n ∧ off + n ≤ Z.of_nat (length disk).

Lemma bytes_at_length off n : on_device off n → Z.of_nat (length (bytes_at off n)) = n.
Proof. intros (? & ? & ?). unfold bytes_at. rewrite length_take, length_drop. lia. Qed.

Lemma dev_read_Ret off n s : on_device off n → dev_read dev off n s = Ret (Okay (bytes_at off n), s).
Proof.
  intros H. unfold dev_read, try, device, fbind. rewrite Hread. bstep. fold (bytes_at off n). pose proof (bytes_at_length off n H) as Hl.
  unfold lift. rewrite (proj2 (Z.eqb_eq _ _)) by done. bstep. unfold ok. do 2 f_equal. by destruct s.
Qed.

(** ** Block maps *)
Section file.
Variables (bs fs : Z).
Hypothesis Hbs : 1024 ≤ bs ∧ bs mod 4 = 0 ∧ bs < 2 ^ 31.

(** Block [b], padded to its size where the disk ends. *)
Definition block (b : Z) : list Z := let l := bytes_at (b * bs) bs in l ++ replicate (Z.to_nat bs - length l) 0.
Definition per_block : nat := Z.to_nat (bs / 4).
(** The block numbers in an indirect block, and those [n] levels below. *)
Definition pointers (b : Z) : list Z := (λ i, le_field 4 (4 * i) (block b)) <$> seq 0 per_block.
Fixpoint leaves (n : nat) (b : Z) : list Z :=
  match n with
  | O => [b]
  | S n => mjoin (leaves n <$> pointers b)
  end.
Definition bytes_of (n : nat) (b : Z) : list Z := mjoin (block <$> leaves n b).
Definition level_size (n : nat) : nat := (per_block ^ n * Z.to_nat bs)%nat.

(** The blocks that a file of [fs] bytes needs are there: they have a number and are on
    the disk. [off] is where the data of [b] begins in the file. *)
Fixpoint present (n : nat) (b : Z) (off : nat) : Prop :=
  (Z.of_nat off < fs → 0 < b ∧ on_device (b * bs) bs ∧ b * bs + bs < 2 ^ 64) ∧
  match n with
  | O => True
  | S n => Z.of_nat off < fs → ∀ j q, pointers b !! j = Some q → present n q (off + j * level_size n)
  end.

Lemma block_length b : length (block b) = Z.to_nat bs.
Proof. unfold block. cbv zeta. rewrite length_app, length_replicate. unfold bytes_at at 1. rewrite length_take. unfold bytes_at. rewrite length_take. lia. Qed.

Lemma block_on_device b : on_device (b * bs) bs → block b = bytes_at (b * bs) bs.
Proof. intros H. unfold block. cbv zeta. pose proof (bytes_at_length _ _ H). replace (_ - _)%nat with O by lia. by rewrite app_nil_r. Qed.

Lemma pointers_length b : length (pointers b) = per_block.
Proof. unfold pointers. by rewrite length_fmap, length_seq. Qed.

Lemma leaves_length n : ∀ b, length (leaves n b) = (per_block ^ n)%nat.
Proof.
  induction n as [|n IH]; intros b; simpl; [done|]. rewrite (mjoin_length _ (per_block ^ n)), length_fmap, pointers_length; [lia|].
  apply Forall_fmap, Forall_true. apply IH.
Qed.

Lemma bytes_of_length n b : length (bytes_of n b) = level_size n.
Proof. unfold bytes_of, level_size. rewrite (mjoin_length _ (Z.to_nat bs)), length_fmap, leaves_length; [done|]. apply Forall_fmap, Forall_true, block_length. Qed.

Lemma mjoin_mjoin {A B} (f : A → B) (l : list (list A)) : mjoin ((λ x, f <$> x) <$> l) = f <$> mjoin l.
Proof. induction l as [|x l IH]; [done|]. change (mjoin (x :: l)) with (x ++ mjoin l). rewrite fmap_app, <-IH. done. Qed.

Lemma mjoin_assoc {A} (l : list (list (list A))) : mjoin (mjoin l) = mjoin (mjoin <$> l).
Proof. induction l as [|x l IH]; [done|]. change (mjoin (x :: l)) with (x ++ mjoin l). change (mjoin (mjoin <$> (x :: l))) with (mjoin x ++ mjoin (mjoin <$> l)). by rewrite <-IH, join_app. Qed.

Lemma bytes_of_S n b : bytes_of (S n) b = mjoin (bytes_of n <$> pointers b).
Proof.
  unfold bytes_of. cbn [leaves]. rewrite <-mjoin_mjoin, mjoin_assoc, <-!list_fmap_compose. done.
Qed.

(** What reading [n] levels below a block adds to the data. *)
Definition reads_level (n : nat) (body : Z → list Z → fsM D (list Z)) : Prop := ∀ b data s, Z.of_nat (length data) < fs → present n b (length data) →
  body b data s = Ret (Okay (take (Z.to_nat fs) (data ++ bytes_of n b)), s).

Lemma read_direct_level : reads_level 0 (read_direct dev bs fs).
Proof.
  intros b data s Hlt [H _]. destruct (H Hlt) as (Hb & Hd & H64). pose proof Hd as (? & ? & ?). unfold read_direct, read_block_data, fbind, lift.
  rewrite (proj2 (sub_Ret fs (Z.of_nat (length data)) (fs - Z.of_nat (length data)))) by lia. bstep.
  rewrite (proj2 (mul_Ret 64 b bs (b * bs))) by lia. bstep. rewrite dev_read_Ret by (unfold on_device in *; lia). bstep. unfold ok. do 3 f_equal.
  unfold bytes_of. cbn [leaves fmap list_fmap mjoin list_join]. rewrite app_nil_r, block_on_device by done. rewrite take_app, (take_ge data) by lia. f_equal.
  unfold bytes_at. rewrite take_take. f_equal. lia.
Qed.

Lemma pointer_loop_level n body : reads_level n body → ∀ ptrs data s, Z.of_nat (length data) ≤ fs →
  (∀ j q, ptrs !! j = Some q → present n q (length data + j * level_size n)) →
  pointer_loop body fs ptrs data s = Ret (Okay (take (Z.to_nat fs) (data ++ mjoin (bytes_of n <$> ptrs))), s).
Proof.
  intros Hbody. induction ptrs as [|q ptrs IH]; intros data s Hle Hp; cbn [pointer_loop].
  { cbn [fmap list_fmap mjoin list_join]. rewrite app_nil_r, take_ge by lia. done. }
  change (mjoin (bytes_of n <$> (q :: ptrs))) with (bytes_of n q ++ mjoin (bytes_of n <$> ptrs)).
  destruct (Z.leb_spec fs (Z.of_nat (length data))) as [Hge|Hlt].
  { rewrite orb_true_r. unfold ok. do 3 f_equal. rewrite take_app_le by lia. by rewrite take_ge by lia. }
  assert (present n q (length data)) as Hq by (specialize (Hp O q eq_refl); by rewrite Nat.add_0_r in Hp).
  assert ((q =? 0) = false) as ->.
  { apply Z.eqb_neq. destruct n; destruct Hq as [Hq _]; destruct (Hq Hlt) as [? _]; lia. }
  cbn [orb]. rewrite (fbind_ok _ _ _ _ _ (Hbody q data s Hlt Hq)).
  destruct (decide (length (data ++ bytes_of n q) < Z.to_nat fs)%nat) as [Hsm|Hbig].
  - rewrite take_ge by lia. rewrite IH; [by rewrite <-app_assoc|lia|]. intros j q' Hj. specialize (Hp (S j) q' Hj).
    rewrite length_app, bytes_of_length. by replace (length data + level_size n + j * level_size n)%nat with (length data + S j * level_size n)%nat by lia.
  - destruct ptrs as [|q' ptrs]; cbn [pointer_loop].
    + cbn [fmap list_fmap mjoin list_join]. by rewrite app_nil_r.
    + rewrite length_take, Nat.min_l, (proj2 (Z.leb_le fs _)), orb_true_r by lia. unfold ok. do 3 f_equal. rewrite (app_assoc data). by rewrite (take_app_le (data ++ _)) by lia.
Qed.

Lemma read_pointers b s : on_device (b * bs) bs → 0 ≤ b → b * bs + bs < 2 ^ 64 → read_block_pointers dev b bs s = Ret (Okay (pointers b), s).
Proof.
  intros Hd Hb H64. unfold read_block_pointers, fbind, lift. rewrite (proj2 (mul_Ret 64 b bs (b * bs))) by lia. bstep. rewrite dev_read_Ret by done. bstep.
  unfold ok, pointers. by rewrite block_on_device.
Qed.

(** One more level. *)
Lemma indirect_level n body : reads_level n body → reads_level (S n) (λ b data, p ←? read_block_pointers dev b bs; pointer_loop body fs p data).
Proof.
  intros Hbody b data s Hlt [H1 H2]. destruct (H1 Hlt) as (Hb & Hd & H64). rewrite (fbind_ok _ _ _ _ _ (read_pointers b s Hd ltac:(lia) H64)).
  rewrite (pointer_loop_level n body Hbody) by (lia || by apply H2). by rewrite bytes_of_S.
Qed.

Lemma read_indirect_level : reads_level 1 (read_indirect dev bs fs).
Proof. apply indirect_level, read_direct_level. Qed.
Lemma read_doubly_level : reads_level 2 (read_doubly_indirect dev bs fs).
Proof. apply indirect_level, read_indirect_level. Qed.
Lemma read_triply_level : reads_level 3 (read_triply_indirect dev bs fs).
Proof. apply indirect_level, read_doubly_level. Qed.

Lemma if_more_level n body b data s : reads_level n body → Z.of_nat (length data) ≤ fs → (Z.of_nat (length data) < fs → present n b (length data)) →
  if_more body fs b data s = Ret (Okay (take (Z.to_nat fs) (data ++ bytes_of n b)), s).
Proof.
  intros Hb Hle Hp. unfold if_more. destruct (Z.ltb_spec (Z.of_nat (length data)) fs) as [Hlt|Hge]; cbn [andb].
  - pose proof (Hp Hlt) as Hq. assert (b ≠ 0) by (destruct n; destruct Hq as [Hq _]; destruct (Hq Hlt) as [? _]; lia).
    rewrite (proj2 (Z.eqb_neq _ _)) by done. by apply Hb.
  - unfold ok. do 3 f_equal. rewrite take_app_le by lia. by rewrite take_ge by lia.
Qed.

(** *** The block of every byte *)
(** The number of the block [k], found from the top of a tree of [n] levels. *)
Fixpoint walk (n : nat) (b : Z) (k : nat) : Z :=
  match n with
  | O => b
  | S n => walk n (le_field 4 (4 * (k / per_block ^ n)) (block b)) (k mod per_block ^ n)
  end.

Lemma per_block_pos : (0 < per_block)%nat.
Proof. unfold per_block. destruct Hbs as (? & Hm & _). apply Z.mod_divide in Hm as [z ->]; [|lia]. rewrite Z.div_mul by lia. lia. Qed.

Lemma pow_pos n : (per_block ^ n ≠ 0)%nat.
Proof. pose proof per_block_pos. apply Nat.pow_nonzero. lia. Qed.

Lemma pointers_lookup b j : (j < per_block)%nat → pointers b !! j = Some (le_field 4 (4 * j) (block b)).
Proof. intros Hj. unfold pointers. rewrite list_lookup_fmap, lookup_seq_lt by done. done. Qed.

Lemma index_split n k : (k < per_block ^ S n)%nat → (k / per_block ^ n < per_block)%nat ∧ (k mod per_block ^ n < per_block ^ n)%nat ∧ k = (k / per_block ^ n * per_block ^ n + k mod per_block ^ n)%nat.
Proof.
  intros Hk. pose proof (pow_pos n). cbn [Nat.pow] in Hk. split; [apply Nat.Div0.div_lt_upper_bound; lia|]. split; [by apply Nat.mod_upper_bound|].
  rewrite (Nat.div_mod_eq k (per_block ^ n)) at 1. lia.
Qed.

Lemma leaves_lookup n : ∀ b k, (k < per_block ^ n)%nat → leaves n b !! k = Some (walk n b k).
Proof.
  induction n as [|n IH]; intros b k Hk; [destruct k; [done|simpl in Hk; lia]|]. destruct (index_split n k Hk) as (H1 & H2 & H3). cbn [leaves walk].
  rewrite H3 at 1. rewrite (mjoin_lookup _ _ _ _ (leaves n (le_field 4 (4 * (k / per_block ^ n)) (block b)))); [by apply IH| | |done].
  - apply Forall_fmap, Forall_true. apply leaves_length.
  - by rewrite list_lookup_fmap, pointers_lookup.
Qed.

Lemma present_walk n : ∀ b off k, present n b off → (k < per_block ^ n)%nat → Z.of_nat (off + k * Z.to_nat bs) < fs → on_device (walk n b k * bs) bs ∧ 0 < walk n b k.
Proof.
  induction n as [|n IH]; intros b off k [H1 H2] Hk Hlt; cbn [walk]; [destruct (H1 ltac:(lia)) as (? & ? & _); done|].
  destruct (index_split n k Hk) as (Hi1 & Hi2 & Hi3). apply (IH _ (off + k / per_block ^ n * level_size n)%nat); [|done|].
  - apply H2; [lia|]. by apply pointers_lookup.
  - unfold level_size. rewrite Hi3 in Hlt at 1. rewrite Nat.mul_assoc. lia.
Qed.

(** The block [k] of a file, by the numbers in its inode. *)
Definition bmap (ib : list Z) (k : nat) : Z :=
  let number i := default 0 (ib !! i) in
  if decide (k < 12)%nat then number k
  else if decide (k - 12 < per_block)%nat then walk 1 (number 12%nat) (k - 12)
  else if decide (k - 12 - per_block < per_block ^ 2)%nat then walk 2 (number 13%nat) (k - 12 - per_block)
  else walk 3 (number 14%nat) (k - 12 - per_block - per_block ^ 2).

(** All its blocks are there. *)
Definition all_present (ib : list Z) : Prop :=
  length ib = 15%nat ∧ (∀ j q, (j < 12)%nat → ib !! j = Some q → present 0 q (j * Z.to_nat bs)) ∧
  (∀ q, ib !! 12%nat = Some q → present 1 q (12 * Z.to_nat bs)) ∧
  (∀ q, ib !! 13%nat = Some q → present 2 q ((12 + per_block) * Z.to_nat bs)) ∧
  (∀ q, ib !! 14%nat = Some q → present 3 q ((12 + per_block + per_block ^ 2) * Z.to_nat bs)).

Definition block_numbers (ib : list Z) : list Z :=
  take 12 ib ++ leaves 1 (default 0 (ib !! 12%nat)) ++ leaves 2 (default 0 (ib !! 13%nat)) ++ leaves 3 (default 0 (ib !! 14%nat)).
Definition file_bytes (ib : list Z) : list Z := take (Z.to_nat fs) (mjoin (block <$> block_numbers ib)).

Lemma bmap_present ib k : all_present ib → Z.of_nat (k * Z.to_nat bs) < fs → (k < 12 + per_block + per_block ^ 2 + per_block ^ 3)%nat →
  block_numbers ib !! k = Some (bmap ib k) ∧ on_device (bmap ib k * bs) bs.
Proof.
  intros (Hlen & H0 & H1 & H2 & H3) Hk Hmax. unfold block_numbers, bmap. assert (length (take 12 ib) = 12%nat) as Ht by (rewrite length_take; lia).
  assert (∀ i, (i < 15)%nat → ib !! i = Some (default 0 (ib !! i))) as Hib by (intros i Hi; destruct (lookup_lt_is_Some_2 ib i) as [x ->]; [lia|done]).
  cbv zeta. repeat case_decide.
  - rewrite lookup_app_l, lookup_take_lt by lia. split; [by apply Hib; lia|]. destruct (H0 k _ ltac:(done) (Hib k ltac:(lia))) as [Hp _]. by apply Hp.
  - rewrite lookup_app_r, lookup_app_l by (rewrite ?leaves_length, ?Ht, ?Nat.pow_1_r; lia). rewrite Ht, leaves_lookup by (rewrite Nat.pow_1_r; lia). split; [done|].
    eapply present_walk; [by apply H1, Hib; lia|rewrite Nat.pow_1_r; lia|]. rewrite <-Nat.mul_add_distr_r. by replace (12 + (k - 12))%nat with k by lia.
  - rewrite lookup_app_r, lookup_app_r, lookup_app_l by (rewrite ?leaves_length, ?Ht, ?Nat.pow_1_r; lia). rewrite Ht, leaves_length, Nat.pow_1_r, leaves_lookup by done. split; [done|].
    eapply present_walk; [by apply H2, Hib; lia|done|]. rewrite <-Nat.mul_add_distr_r. by replace (12 + per_block + (k - 12 - per_block))%nat with k by lia.
  - rewrite !lookup_app_r by (rewrite ?leaves_length, ?Ht, ?Nat.pow_1_r; lia). rewrite Ht, !leaves_length, Nat.pow_1_r, leaves_lookup by lia. split; [done|].
    eapply present_walk; [by apply H3, Hib; lia|lia|]. rewrite <-Nat.mul_add_distr_r.
    by replace (12 + per_block + per_block ^ 2 + (k - 12 - per_block - per_block ^ 2))%nat with k by lia.
Qed.
(** A file of 32-bit size does not run out of numbers. *)
Lemma capacity : fs < 2 ^ 32 → (Z.to_nat fs ≤ length (mjoin (block <$> leaves 3 0)))%nat.
Proof.
  intros Hfs. change (mjoin (block <$> leaves 3 0)) with (bytes_of 3 0). rewrite bytes_of_length. unfold level_size. apply Nat2Z.inj_le. rewrite Nat2Z.inj_mul, Nat2Z.inj_pow.
  assert (256 ≤ Z.of_nat per_block) as Hp by (unfold per_block; rewrite Z2Nat.id by (apply Z.div_pos; lia); apply Z.div_le_lower_bound; lia).
  assert (256 ^ 3 ≤ Z.of_nat per_block ^ Z.of_nat 3) by (change (Z.of_nat 3) with 3; apply Z.pow_le_mono_l; lia). change (256 ^ 3) with (2 ^ 24) in *.
  rewrite (Z2Nat.id bs) by lia. destruct (Z.le_gt_cases 0 fs); [rewrite Z2Nat.id by lia|rewrite Z2Nat.nonpos by lia]; nia.
Qed.

Lemma file_bytes_length ib : 0 ≤ fs < 2 ^ 32 → length (file_bytes ib) = Z.to_nat fs.
Proof.
  intros Hfs. unfold file_bytes, block_numbers. rewrite length_take, !fmap_app, !join_app, !length_app. apply Nat.min_l.
  pose proof (capacity ltac:(lia)) as Hc. change (mjoin (block <$> leaves 3 0)) with (bytes_of 3 0) in Hc. rewrite bytes_of_length in Hc.
  change (mjoin (block <$> leaves 3 _)) with (bytes_of 3 (default 0 (ib !! 14%nat))). rewrite bytes_of_length. lia.
Qed.

(** Byte [j] of the file is byte [j mod bs] of its block [j / bs]. *)
Lemma file_bytes_lookup ib j : all_present ib → 0 ≤ fs < 2 ^ 32 → (j < Z.to_nat fs)%nat →
  file_bytes ib !! j = disk !! (Z.to_nat (bmap ib (j / Z.to_nat bs) * bs) + j mod Z.to_nat bs)%nat.
Proof.
  intros Ha Hfs Hj. pose proof (file_bytes_length ib Hfs) as Hl. unfold file_bytes in *. rewrite lookup_take_lt by done. set (B := Z.to_nat bs) in *.
  assert (B ≠ 0)%nat as HB by lia. pose proof (Nat.div_mod_eq j B) as Hdm. pose proof (Nat.mod_upper_bound j B HB) as Hmod.
  assert (∀ l, Forall (λ x, length x = B) (block <$> l)) as HF by (intros l; apply Forall_fmap, Forall_true, block_length).
  rewrite length_take, (mjoin_length _ B), length_fmap in Hl by apply HF.
  assert (length (block_numbers ib) = 12 + per_block + per_block ^ 2 + per_block ^ 3)%nat as Hn.
  { unfold block_numbers. rewrite !length_app, !leaves_length, Nat.pow_1_r, length_take. destruct Ha as [-> _]. lia. }
  assert (j / B < length (block_numbers ib))%nat as Hlt by (apply Nat.Div0.div_lt_upper_bound; lia).
  destruct (bmap_present ib (j / B) Ha) as [Hb Hd]; [fold B; lia|lia|]. rewrite Hdm at 1. rewrite (Nat.mul_comm B).
  rewrite (mjoin_lookup _ B _ _ (block (bmap ib (j / B)))); [|apply HF|by rewrite list_lookup_fmap, Hb|done].
  rewrite block_on_device by done. unfold bytes_at. rewrite lookup_take_lt, lookup_drop by done. done.
Qed.

(** A further part of the file. *)
Lemma if_more_next n body b x s : 0 ≤ fs → reads_level n body → (Z.of_nat (length x) < fs → present n b (length x)) →
  if_more body fs b (take (Z.to_nat fs) x) s = Ret (Okay (take (Z.to_nat fs) (x ++ bytes_of n b)), s).
Proof.
  intros Hfs Hb Hp. rewrite (if_more_level n body); [by rewrite take_app_take|done|rewrite length_take; lia|].
  rewrite length_take. intros Hlt. replace (Z.to_nat fs `min` length x)%nat with (length x) in * by lia. by apply Hp.
Qed.

Lemma bytes_of_0 l : mjoin (bytes_of 0 <$> l) = mjoin (block <$> l).
Proof. f_equal. apply list_fmap_ext. intros i q _. unfold bytes_of. cbn [leaves fmap list_fmap mjoin list_join]. by rewrite app_nil_r. Qed.

Lemma read_inode_data_Ret sb inode s : ext2_block_size sb = Ret bs → i_size inode = fs → 0 ≤ fs < 2 ^ 32 → all_present (i_block inode) →
  read_inode_data dev sb inode s = Ret (Okay (file_bytes (i_block inode)), s).
Proof.
  intros Hsb Hi Hfs (Hlen & H0 & H1 & H2 & H3). unfold read_inode_data. rewrite Hi. destruct (Z.eqb_spec fs 0) as [E|E].
  { unfold file_bytes. by rewrite E, take_0. }
  set (ib := i_block inode) in *. assert (∀ i, (i < 15)%nat → ib !! i = Some (default 0 (ib !! i))) as Hib by (intros i Hi'; destruct (lookup_lt_is_Some_2 ib i) as [x ->]; [lia|done]).
  assert (∀ i s, (i < 15)%nat → lift (expect (ib !! i)) s = Ret (Okay (default 0 (ib !! i)), s)) as Hl by (intros i s' Hi'; unfold lift; by rewrite Hib).
  unfold lift at 1, fbind at 1. rewrite Hsb. bstep.
  rewrite (fbind_ok _ _ _ (take (Z.to_nat fs) (mjoin (block <$> take 12 ib))) s); [|rewrite (pointer_loop_level 0 _ read_direct_level); [by rewrite bytes_of_0|simpl; lia|]].
  2: { intros j q Hj. simpl. pose proof (lookup_lt_Some _ _ _ Hj) as Hj'. rewrite length_take in Hj'. rewrite lookup_take_lt in Hj by lia.
       unfold level_size. rewrite Nat.pow_0_r, Nat.mul_1_l. apply H0; [lia|done]. }
  set (d0 := mjoin (block <$> take 12 ib)). assert (length d0 = (12 * Z.to_nat bs)%nat) as Hd0.
  { unfold d0. rewrite (mjoin_length _ (Z.to_nat bs)), length_fmap, length_take by (apply Forall_fmap, Forall_true, block_length). lia. }
  rewrite (fbind_ok _ _ _ _ _ (Hl 12%nat s ltac:(lia))).
  rewrite (fbind_ok _ _ _ _ _ (if_more_next 1 _ (default 0 (ib !! 12%nat)) d0 s ltac:(lia) read_indirect_level ltac:(intros _; rewrite Hd0; apply H1, Hib; lia))).
  rewrite (fbind_ok _ _ _ _ _ (Hl 13%nat s ltac:(lia))).
  erewrite (fbind_ok _ _ s _ s); [|apply if_more_next; [lia|apply read_doubly_level|]].
  2: { intros _. rewrite length_app, bytes_of_length, Hd0. unfold level_size. rewrite Nat.pow_1_r, <-Nat.mul_add_distr_r. apply H2, Hib. lia. }
  rewrite (fbind_ok _ _ _ _ _ (Hl 14%nat s ltac:(lia))). erewrite (fbind_ok _ _ s _ s); [|apply if_more_next; [lia|apply read_triply_level|]].
  2: { intros _. rewrite !length_app, !bytes_of_length, Hd0. unfold level_size. rewrite Nat.pow_1_r, <-!Nat.mul_add_distr_r. apply H3, Hib. lia. }
  unfold ok, file_bytes, block_numbers. rewrite take_take, Nat.min_id, !fmap_app, !join_app, <-!app_assoc. done.
Qed.
End file.

(** ** The volume *)
Definition sb0 : Ext2Superblock := sb_of_bytes (bytes_at 1024 (Z.of_nat SB_SIZE)).
Definition bs0 : Z := 1024 * 2 ^ s_log_block_size sb0.
Definition groups : Z := (s_blocks_count sb0 + s_blocks_per_group sb0 - 1) / s_blocks_per_group sb0.
Definition bgd_table : list Z := bytes_at (if bs0 =? 1024 then 2048 else bs0) (groups * Z.of_nat BGD_SIZE).
(** The descriptor of a group of blocks. *)
Definition descriptor (g : nat) : Ext2BlockGroupDescriptor := bgd_of_bytes (drop (g * BGD_SIZE) bgd_table).

Record volume_ok : Prop := {
  vo_bytes : bytes disk;
  vo_magic : s_magic sb0 = EXT2_MAGIC;
  vo_log : s_log_block_size sb0 ≤ 6;
  vo_blocks : 0 < s_blocks_count sb0 ∧ 0 < s_blocks_per_group sb0 ∧ 0 < s_inodes_per_group sb0;
  vo_inode : 128 ≤ inode_size sb0;
  vo_disk : on_device 1024 (Z.of_nat SB_SIZE) ∧ on_device (if bs0 =? 1024 then 2048 else bs0) (groups * Z.of_nat BGD_SIZE);
}.

(** Inode [n] of the volume. *)
Inductive inode_at (n : Z) : Ext2Inode → Prop :=
  | InodeAt : 1 ≤ n → (n - 1) / s_inodes_per_group sb0 < groups →
      let off := bg_inode_table (descriptor (Z.to_nat ((n - 1) / s_inodes_per_group sb0))) * bs0 + (n - 1) mod s_inodes_per_group sb0 * inode_size sb0 in
      on_device off (inode_size sb0) → inode_at n (inode_of_bytes (bytes_at off (inode_size sb0))).

(** The data of an inode: it has no holes, and each byte is in its block. *)
Definition stored (i : Ext2Inode) (c : list Z) : Prop :=
  all_present bs0 (i_size i) (i_block i) ∧ Z.of_nat (length c) = i_size i ∧
  ∀ j, (j < length c)%nat → c !! j = disk !! (Z.to_nat (bmap bs0 (i_block i) (j / Z.to_nat bs0) * bs0) + j mod Z.to_nat bs0)%nat.

(** *** Trees *)
Inductive node := NFile (c : list Z) | NDir (cs : list (str * node)).

(** [on_disk d n t]: inode [n] is the root of the tree [t], at most [d] deep. *)
Inductive on_disk : nat → Z → node → Prop :=
  | od_file d n i c : inode_at n i → is_dir i = false → is_regular i = true → stored i c → on_disk d n (NFile c)
  | od_dir d n i recs cs : inode_at n i → is_dir i = true → stored i (mjoin (rec_bytes <$> recs)) → Forall rec_ok recs → NoDup (fst <$> cs) →
      records d recs cs → on_disk (S d) n (NDir cs)
(** The children that the records of a directory name; other types are left out. *)
with records : nat → list DirRec → list (str * node) → Prop :=
  | re_nil d : records d [] []
  | re_skip d r recs cs : is_live r = false ∨ (r_type r ≠ EXT2_FT_DIR ∧ r_type r ≠ EXT2_FT_REG_FILE) → records d recs cs → records d (r :: recs) cs
  | re_dir d r recs cs t : is_live r = true → r_type r = EXT2_FT_DIR → on_disk d (r_ino r) t → records d recs cs → records d (r :: recs) ((r_name r, t) :: cs)
  | re_file d r recs cs i c : is_live r = true → r_type r = EXT2_FT_REG_FILE → inode_at (r_ino r) i → stored i c → records d recs cs →
      records d (r :: recs) ((r_name r, NFile c) :: cs).

(** The nodes of the tree [t] below [h]. *)
Inductive in_store (ns : gmap nat VfsNode) : nat → node → Prop :=
  | st_file h i c : ns !! h = Some (MkNode i (Ext2File c (length c))) → in_store ns h (NFile c)
  | st_dir h i ch cs : ns !! h = Some (MkNode i (Ext2Dir ch)) → children_in ns cs ch → in_store ns h (NDir cs)
with children_in (ns : gmap nat VfsNode) : list (str * node) → gmap str nat → Prop :=
  | ci_nil : children_in ns [] ∅
  | ci_snoc cs ch name t k : ch !! name = None → in_store ns k t → children_in ns cs ch → children_in ns (cs ++ [(name, t)]) (<[name := k]> ch).

Scheme in_store_mut := Induction for in_store Sort Prop with children_in_mut := Induction for children_in Sort Prop.
Scheme on_disk_mut := Induction for on_disk Sort Prop with records_mut := Induction for records Sort Prop.

Lemma children_in_mono ns ns' cs ch : ns ⊆ ns' → children_in ns cs ch → children_in ns' cs ch.
Proof.
  intros Hsub. apply (children_in_mut ns (λ h t _, in_store ns' h t) (λ cs ch _, children_in ns' cs ch)).
  - intros h i c H. eapply st_file. by eapply lookup_weaken.
  - intros h i ch' cs' H _ IH. eapply st_dir; [by eapply lookup_weaken|done].
  - constructor.
  - intros cs' ch' name t k Hn _ IH _ IH'. by constructor.
Qed.

Section volume.
Hypothesis V : volume_ok.

Lemma le_field_range n off l : bytes l → 0 ≤ le_field n off l < 256 ^ Z.of_nat n.
Proof.
  intros Hl. unfold le_field. pose proof (le_combine_range (take n (drop off l)) ltac:(by apply Forall_take, Forall_drop)) as H.
  assert (256 ^ Z.of_nat (length (take n (drop off l))) ≤ 256 ^ Z.of_nat n) by (apply Z.pow_le_mono_r; [lia|rewrite length_take; lia]). lia.
Qed.

Lemma bytes_at_bytes off n : bytes (bytes_at off n).
Proof. apply Forall_take, Forall_drop, (vo_bytes V). Qed.

Lemma log_range : 0 ≤ s_log_block_size sb0 ≤ 6.
Proof. pose proof (le_field_range 4 24 _ (bytes_at_bytes 1024 (Z.of_nat SB_SIZE))). pose proof (vo_log V). unfold sb0, sb_of_bytes in *. simpl in *. lia. Qed.

Lemma bs0_ok : 1024 ≤ bs0 ∧ bs0 mod 4 = 0 ∧ bs0 < 2 ^ 31 ∧ bs0 ≤ 65536.
Proof.
  pose proof log_range. unfold bs0. assert (2 ^ s_log_block_size sb0 ≤ 2 ^ 6) by (apply Z.pow_le_mono_r; lia).
  assert (0 < 2 ^ s_log_block_size sb0) by (apply Z.pow_pos_nonneg; lia). split; [lia|]. split; [|lia].
  replace (1024 * 2 ^ s_log_block_size sb0) with ((256 * 2 ^ s_log_block_size sb0) * 4) by lia. by rewrite Z.mod_mul.
Qed.

Lemma block_size_Ret : ext2_block_size sb0 = Ret bs0.
Proof.
  pose proof log_range. pose proof bs0_ok as (? & _ & ? & _). unfold ext2_block_size. rewrite shl_no_loss by (unfold bs0 in *; lia). by rewrite Z.shiftl_mul_pow2 by lia.
Qed.

Lemma groups_ok : 0 < groups < 2 ^ 32 ∧ num_block_groups sb0 = Ret groups.
Proof.
  destruct (vo_blocks V) as (H1 & H2 & _). pose proof (le_field_range 4 4 _ (bytes_at_bytes 1024 (Z.of_nat SB_SIZE))) as Hc.
  change (le_field 4 4 (bytes_at 1024 (Z.of_nat SB_SIZE))) with (s_blocks_count sb0) in Hc. change (256 ^ Z.of_nat 4) with (2 ^ 32) in Hc.
  unfold groups, num_block_groups, udiv, umod. set (c := s_blocks_count sb0) in *. set (g := s_blocks_per_group sb0) in *.
  rewrite (proj2 (Z.eqb_neq g 0)) by lia. bstep. pose proof (Z.div_mod c g ltac:(lia)) as Hd. pose proof (Z.mod_pos_bound c g ltac:(lia)) as Hm.
  assert (0 ≤ c / g ≤ c) as Hq by (split; [by apply Z.div_pos; lia|apply Z.div_le_upper_bound; nia]).
  assert ((c + g - 1) / g = c / g + (if 0 <? c mod g then 1 else 0)) as Heq.
  { destruct (Z.ltb_spec 0 (c mod g)); symmetry; [apply Z.div_unique with (c mod g - 1)|apply Z.div_unique with (g - 1)]; lia. }
  rewrite Heq. destruct (Z.ltb_spec 0 (c mod g)).
  - assert (c / g < c ∨ c / g = 0) as Hlt by nia. split; [lia|]. apply add_Ret. lia.
  - rewrite Z.add_0_r. split; [|done]. split; [|lia]. assert (c / g ≠ 0) by nia. lia.
Qed.

Lemma read_superblock_Ret s : read_superblock dev s = Ret (Okay sb0, s).
Proof. unfold read_superblock. rewrite (fbind_ok _ _ _ _ _ (dev_read_Ret _ _ s (proj1 (vo_disk V)))). done. Qed.

Definition descriptors : list Ext2BlockGroupDescriptor := descriptor <$> seq 0 (Z.to_nat groups).

Lemma read_descriptors_Ret s : read_block_group_descriptors dev sb0 s = Ret (Okay descriptors, s).
Proof.
  pose proof groups_ok as [Hg Hn]. unfold read_block_group_descriptors. unfold lift, fbind. rewrite block_size_Ret. bstep. rewrite Hn. bstep.
  rewrite (proj2 (mul_Ret 64 groups (Z.of_nat BGD_SIZE) (groups * Z.of_nat BGD_SIZE))) by (unfold BGD_SIZE; lia). bstep.
  rewrite (dev_read_Ret _ _ s (proj2 (vo_disk V))). done.
Qed.

Lemma read_inode_Ret n i s : inode_at n i → read_inode dev sb0 descriptors n s = Ret (Okay i, s).
Proof.
  intros [Hn Hg off Hd]. destruct (vo_blocks V) as (_ & _ & Hipg). pose proof bs0_ok as (? & _ & _ & ?). pose proof (vo_inode V) as His.
  set (ipg := s_inodes_per_group sb0) in *. set (g := (n - 1) / ipg) in *. set (k := (n - 1) mod ipg) in *. assert (0 ≤ g) as Hg0 by (apply Z.div_pos; lia).
  pose proof (Z.mod_pos_bound (n - 1) ipg ltac:(lia)) as Hk. fold k in Hk.
  pose proof (le_field_range 4 40 _ (bytes_at_bytes 1024 (Z.of_nat SB_SIZE))) as Hi1. change (le_field 4 40 (bytes_at 1024 (Z.of_nat SB_SIZE))) with ipg in Hi1.
  pose proof (le_field_range 2 88 _ (bytes_at_bytes 1024 (Z.of_nat SB_SIZE))) as Hi2. change (le_field 2 88 (bytes_at 1024 (Z.of_nat SB_SIZE))) with (s_inode_size sb0) in Hi2.
  assert (inode_size sb0 < 2 ^ 16) as Hi3 by (unfold inode_size; destruct (_ =? _); lia). change (256 ^ Z.of_nat 4) with (2 ^ 32) in Hi1.
  assert (0 ≤ bg_inode_table (descriptor (Z.to_nat g)) < 2 ^ 32) as Ht by (apply (le_field_range 4 8); apply Forall_drop, bytes_at_bytes).
  unfold read_inode, lift, fbind, udiv, umod. rewrite (proj2 (Z.leb_le _ _)) by done. bstep. fold ipg. rewrite (proj2 (Z.eqb_neq ipg 0)) by lia. bstep. fold g k.
  rewrite block_size_Ret. bstep. unfold descriptors. rewrite list_lookup_fmap, lookup_seq_lt by lia. cbn [fmap option_fmap option_map]. bstep.
  rewrite Nat.add_0_l. set (t := bg_inode_table _) in *. rewrite (proj2 (mul_Ret 64 t bs0 (t * bs0))) by nia. bstep.
  rewrite (proj2 (mul_Ret 64 k (inode_size sb0) (k * inode_size sb0))) by nia. bstep.
  rewrite (proj2 (add_Ret 64 (t * bs0) (k * inode_size sb0) off)) by (subst off; nia). bstep. rewrite dev_read_Ret by done. bstep.
  rewrite bool_decide_eq_true_2; [done|]. pose proof (bytes_at_length _ _ Hd). unfold INODE_SIZE. lia.
Qed.

Lemma inode_at_size n i : inode_at n i → 0 ≤ i_size i < 2 ^ 32.
Proof. intros [? ? ? ?]. apply (le_field_range 4 4), bytes_at_bytes. Qed.

Lemma read_stored n i c s : inode_at n i → stored i c → read_inode_data dev sb0 i s = Ret (Okay c, s) ∧ Z.to_nat (i_size i) = length c.
Proof.
  intros Hi (Hp & Hl & Hc). pose proof (inode_at_size n i Hi) as Hsz. pose proof bs0_ok as (? & ? & ? & _). split; [|lia].
  rewrite (read_inode_data_Ret bs0 (i_size i)) by (done || apply block_size_Ret). do 3 f_equal. apply list_eq. intros j.
  pose proof (file_bytes_length bs0 (i_size i) ltac:(done) (i_block i) Hsz) as Hfl. destruct (decide (j < Z.to_nat (i_size i))%nat).
  - rewrite (file_bytes_lookup bs0 (i_size i)) by done. symmetry. apply Hc. lia.
  - rewrite !lookup_ge_None_2 by lia. done.
Qed.

(** *** Building the tree *)
Definition fresh (s : FS D) : Prop := ∀ h, (next_node s ≤ h)%nat → nodes s !! h = None.

(** Nodes were added, and nothing else changed but the counters. *)
Definition grew (s s' : FS D) : Prop :=
  nodes s ⊆ nodes s' ∧ fresh s' ∧ MOUNT_TABLE s' = MOUNT_TABLE s ∧ DEVFS s' = DEVFS s ∧ files s' = files s ∧ next_file s' = next_file s ∧ devices s' = devices s.

Lemma grew_refl s : fresh s → grew s s.
Proof. by split. Qed.
Lemma grew_trans s1 s2 s3 : grew s1 s2 → grew s2 s3 → grew s1 s3.
Proof. intros (? & _ & ? & ? & ? & ? & ?) (? & ? & ? & ? & ? & ? & ?). split; [by etrans|]. split; [done|]. repeat split; congruence. Qed.

Lemma new_node_grew k s : fresh s → ∃ s', new_node k s = Ret (Okay (next_node s), s') ∧ nodes s' !! next_node s = Some (MkNode (next_ino s) k) ∧ grew s s'.
Proof.
  intros Hf. eexists. split; [done|]. cbn [nodes]. rewrite lookup_insert_eq. split; [done|]. split; [by apply insert_subseteq, Hf|].
  split; [|done]. intros h Hh. cbn [nodes next_node] in *. rewrite lookup_insert_ne by lia. apply Hf. lia.
Qed.

Lemma children_in_dom ns cs ch name : children_in ns cs ch → is_Some (ch !! name) → name ∈ cs.*1.
Proof.
  induction 1 as [|cs ch name' t k _ _ _ IH]; [rewrite lookup_empty; by intros [? ?]|]. intros [->|[_ H]]%lookup_insert_is_Some; rewrite fmap_app; set_solver.
Qed.

Definition builds (d : nat) (n : Z) (t : node) : Prop := ∀ fuel s, (d < fuel)%nat → fresh s →
  ∃ s' h, build_tree dev fuel sb0 descriptors n s = Ret (Okay h, s') ∧ in_store (nodes s') h t ∧ grew s s'.
Definition builds_children (d : nat) (recs : list DirRec) (cs : list (str * node)) : Prop := ∀ fuel s done_ ch, (d < fuel)%nat → fresh s →
  children_in (nodes s) done_ ch → NoDup (done_ ++ cs).*1 → ∃ s' ch',
    children_loop dev (build_tree dev fuel sb0 descriptors) sb0 descriptors (mjoin (rec_entry <$> recs)) ch s = Ret (Okay ch', s') ∧
    children_in (nodes s') (done_ ++ cs) ch' ∧ grew s s'.

(** A child that is in the store is entered, and the loop goes on. *)
Lemma child_entered d recs cs fuel s s1 done_ ch name t k : builds_children d recs cs → (d < fuel)%nat → grew s s1 → in_store (nodes s1) k t →
  children_in (nodes s) done_ ch → NoDup (done_ ++ (name, t) :: cs).*1 → ∃ s' ch',
    children_loop dev (build_tree dev fuel sb0 descriptors) sb0 descriptors (mjoin (rec_entry <$> recs)) (<[name := k]> ch) s1 = Ret (Okay ch', s') ∧
    children_in (nodes s') (done_ ++ (name, t) :: cs) ch' ∧ grew s s'.
Proof.
  intros IH Hf Hg Hk Hc Hnd. pose proof Hg as (Hsub & Hfr & _).
  destruct (IH fuel s1 (done_ ++ [(name, t)]) (<[name := k]> ch)) as (s' & ch' & H1 & H2 & H3); [done|done| |by rewrite <-app_assoc|].
  - constructor; [|done|by eapply children_in_mono]. apply eq_None_not_Some. intros H%(children_in_dom _ _ _ _ Hc).
    rewrite fmap_app in Hnd. apply NoDup_app in Hnd as (_ & Hnd & _). apply (Hnd _ H). set_solver.
  - exists s', ch'. rewrite <-app_assoc in H2. split; [done|]. split; [done|]. by eapply grew_trans.
Qed.

Lemma file_added n i c s : inode_at n i → stored i c → fresh s → ∃ s', ext2_file i c s = Ret (Okay (next_node s), s') ∧ in_store (nodes s') (next_node s) (NFile c) ∧ grew s s'.
Proof.
  intros Hi Hs Hf. unfold ext2_file. rewrite (proj2 (read_stored n i c s Hi Hs)). destruct (new_node_grew (Ext2File c (length c)) s Hf) as (s' & H1 & H2 & H3).
  exists s'. split; [done|]. split; [by eapply st_file|done].
Qed.

Lemma on_disk_builds d n t : on_disk d n t → builds d n t.
Proof.
  apply (on_disk_mut (λ d n t _, builds d n t) (λ d recs cs _, builds_children d recs cs)); clear d n t.
  - intros d n i c Hi Hnd Hreg Hs fuel s Hf Hfr. destruct fuel as [|fuel]; [lia|]. cbn [build_tree]. rewrite (fbind_ok _ _ _ _ _ (read_inode_Ret n i s Hi)), Hnd, Hreg.
    rewrite (fbind_ok _ _ _ _ _ (proj1 (read_stored n i c s Hi Hs))). destruct (file_added n i c s Hi Hs Hfr) as (s' & ? & ? & ?). by exists s', (next_node s).
  - intros d n i recs cs Hi Hdir Hs Hr Hnd _ IH fuel s Hf Hfr. destruct fuel as [|fuel]; [lia|]. cbn [build_tree]. rewrite (fbind_ok _ _ _ _ _ (read_inode_Ret n i s Hi)), Hdir.
    rewrite (fbind_ok _ _ _ _ _ (proj1 (read_stored n i _ s Hi Hs))). pose proof (inode_at_size n i Hi). pose proof (proj2 (read_stored n i _ s Hi Hs)).
    unfold lift at 1, fbind at 1. rewrite parse_dir_entries_recs by (done || lia). bstep.
    destruct (IH fuel s [] ∅) as (s1 & ch & H1 & H2 & H3); [lia|done|constructor|done|]. rewrite (fbind_ok _ _ _ _ _ H1).
    destruct (new_node_grew (Ext2Dir ch) s1 ltac:(apply H3)) as (s' & H4 & H5 & H6). exists s', (next_node s1). split; [done|].
    split; [|by eapply grew_trans]. eapply st_dir; [done|]. by eapply children_in_mono; [apply H6|].
  - intros d fuel s done_ ch _ Hfr Hc _. exists s, ch. rewrite app_nil_r. split; [done|]. split; [done|by apply grew_refl].
  - intros d r recs cs Hskip _ IH fuel s done_ ch Hf Hfr Hc Hnd. change (mjoin (rec_entry <$> (r :: recs))) with (rec_entry r ++ mjoin (rec_entry <$> recs)). unfold rec_entry at 1.
    destruct (is_live r); [|by apply IH]. destruct Hskip as [|[H1 H2]]; [done|]. cbn [app children_loop]. rewrite !(proj2 (Z.eqb_neq _ _)) by done. by apply IH.
  - intros d r recs cs t Hl Ht _ IHt _ IH fuel s done_ ch Hf Hfr Hc Hnd. change (mjoin (rec_entry <$> (r :: recs))) with (rec_entry r ++ mjoin (rec_entry <$> recs)). unfold rec_entry at 1.
    rewrite Hl, Ht. cbn [app children_loop]. rewrite Z.eqb_refl. destruct (IHt fuel s Hf Hfr) as (s1 & h & H1 & H2 & H3). rewrite (fbind_ok _ _ _ _ _ H1). by eapply child_entered.
  - intros d r recs cs i c Hl Ht Hi Hs _ IH fuel s done_ ch Hf Hfr Hc Hnd. change (mjoin (rec_entry <$> (r :: recs))) with (rec_entry r ++ mjoin (rec_entry <$> recs)). unfold rec_entry at 1.
    rewrite Hl, Ht. cbn [app children_loop]. rewrite (proj2 (Z.eqb_neq EXT2_FT_REG_FILE EXT2_FT_DIR)), Z.eqb_refl by done.
    rewrite (fbind_ok _ _ _ _ _ (read_inode_Ret _ i s Hi)), (fbind_ok _ _ _ _ _ (proj1 (read_stored _ i c s Hi Hs))).
    destruct (file_added _ i c s Hi Hs Hfr) as (s1 & H1 & H2 & H3). rewrite (fbind_ok _ _ _ _ _ H1). by eapply child_entered.
Qed.

(** C0: Mounting an ext2 file system makes exactly its tree appear at /mnt. For every
    well-formed volume, without holes in its files, whose root directory is the tree
    [t] (directories of records, files whose bytes are found over direct, indirect,
    doubly and triply indirect blocks), reading it ends without a panic; the nodes below
    the mount point are those of [t], a file's contents byte by byte those in its
    blocks, and nothing that was there before is changed. *)
Theorem ext2_mount_correct d t fuel s : on_disk d EXT2_ROOT_INODE t → (d < fuel)%nat → fresh s → ∃ s' root,
  mount_ext2 dev fuel s = Ret (Okay tt, s') ∧ in_store (nodes s') root t ∧ MOUNT_TABLE s' = <[b "/mnt" := root]> (MOUNT_TABLE s) ∧ nodes s ⊆ nodes s' ∧
  files s' = files s ∧ DEVFS s' = DEVFS s.
Proof.
  intros Ht Hf Hfr. unfold mount_ext2. rewrite (fbind_ok _ _ _ _ _ (read_superblock_Ret s)). rewrite (vo_magic V). cbn [negb Z.eqb EXT2_MAGIC Pos.eqb].
  unfold lift at 1, fbind at 1. rewrite block_size_Ret. bstep. rewrite (fbind_ok _ _ _ _ _ (read_descriptors_Ret s)).
  destruct (on_disk_builds d _ t Ht fuel s Hf Hfr) as (s1 & root & H1 & H2 & (H3 & _ & H4 & H5 & H6 & _)). rewrite (fbind_ok _ _ _ _ _ H1).
  eexists _, root. split; [done|]. cbn [set_mounts nodes MOUNT_TABLE files DEVFS]. rewrite H4. by repeat split.
Qed.

(** A file of one block. *)
Lemma stored_one_block i q : length (i_block i) = 15%nat → i_block i !! 0%nat = Some q → 0 < q → on_device (q * bs0) bs0 → q * bs0 + bs0 < 2 ^ 64 → 0 ≤ i_size i ≤ bs0 →
  stored i (bytes_at (q * bs0) (i_size i)).
Proof.
  intros Hlen Hq Hq0 Hd H64 Hsz. pose proof bs0_ok as (Hb & _). assert (on_device (q * bs0) (i_size i)) as Hd' by (unfold on_device in *; lia). pose proof (bytes_at_length _ _ Hd') as Hl.
  set (B := Z.to_nat bs0) in *. assert (∀ k off, (k ≠ 0)%nat → (off = k * B)%nat → ¬ Z.of_nat off < i_size i) as Hno by (intros k off Hk ->; nia). split; [|split; [done|]].
  - split; [done|]. split; [|split; [|split]]; intros.
    + rename select (i_block i !! _ = Some _) into Hj. destruct j; [simplify_eq; split; [intros _; split; [done|split; done]|done]|]. split; [|done]. intros Hlt. exfalso. apply (Hno (S j) (S j * B)%nat); [lia|done|exact Hlt].
    + split; intros Hlt; exfalso; (apply (Hno 12%nat (12 * B)%nat); [lia|done|exact Hlt]).
    + split; intros Hlt; exfalso; (apply (Hno (12 + per_block bs0)%nat ((12 + per_block bs0) * B)%nat); [lia|done|exact Hlt]).
    + split; intros Hlt; exfalso; (apply (Hno (12 + per_block bs0 + per_block bs0 ^ 2)%nat ((12 + per_block bs0 + per_block bs0 ^ 2) * B)%nat); [lia|done|exact Hlt]).
  - intros j Hj. fold B. rewrite Nat.div_small, Nat.mod_small by lia. unfold bmap. cbn [decide]. rewrite decide_True by lia. rewrite Hq. cbn [default id].
    unfold bytes_at. rewrite lookup_take_lt, lookup_drop by lia. done.
Qed.
End volume.
End reading.

(** ** An example: a volume with one file *)
Definition zeros (n : nat) : list Z := replicate n 0.
Definition super0 : list Z :=
  le_bytes 4 16 ++ le_bytes 4 8 ++ zeros 16 ++ le_bytes 4 0 ++ zeros 4 ++ le_bytes 4 8192 ++ zeros 4 ++ le_bytes 4 16 ++ zeros 12 ++ le_bytes 2 0xEF53 ++ zeros 966.
Definition inode0 (mode size block : Z) : list Z := le_bytes 2 mode ++ zeros 2 ++ le_bytes 4 size ++ zeros 32 ++ le_bytes 4 block ++ zeros 84.
Definition records0 : list DirRec :=
  [MkRec 2 2 dot (zeros 3); MkRec 2 2 dotdot (zeros 2); MkRec 11 1 (b "hello") (zeros (1000 - 13))].
Definition disk0 : list Z :=
  zeros 1024 ++ super0 ++ (le_bytes 4 0 ++ le_bytes 4 0 ++ le_bytes 4 3 ++ zeros 1012) ++
  (zeros 128 ++ inode0 0x41ED 1024 5 ++ zeros 1024 ++ inode0 0x81A4 6 6 ++ zeros 640) ++
  mjoin (rec_bytes <$> records0) ++ (b "world!" ++ zeros 1018).

#[local] Instance disk_device : Devices unit := {|
  char_read := λ d _ _, (d, Err EIO); char_write := λ d _ _, (d, Err EIO); is_tty := λ _, false;
  display_read_at := λ d _ _ _, (d, Err EIO); display_write_at := λ d _ _ _, (d, Err EIO);
  poll_event := λ d _, (d, None); rng_fill := λ d _ _, (d, Err EIO); num_blocks := λ _, 14; Vfs.block_size := λ _, 512;
  block_read := λ d _ offset n, (d, Okay (take n (drop (Z.to_nat offset) disk0))); block_write := λ d _ _ _, (d, Err EIO) |}.

Lemma volume0_ok : volume_ok disk0.
Proof.
  split.
  - apply (bool_decide_unpack _). vm_compute. done.
  - vm_compute. done.
  - vm_compute. done.
  - vm_compute. done.
  - vm_compute. done.
  - vm_compute. done.
Qed.

Definition inode_2 : Ext2Inode := MkInode 0x41ED 1024 (5 :: zeros 14).
Definition inode_11 : Ext2Inode := MkInode 0x81A4 6 (6 :: zeros 14).

Lemma inode_at_eq disk n i off size : 1 ≤ n → (n - 1) / s_inodes_per_group (sb0 disk) < groups disk → size = inode_size (sb0 disk) →
  off = bg_inode_table (descriptor disk (Z.to_nat ((n - 1) / s_inodes_per_group (sb0 disk)))) * bs0 disk + (n - 1) mod s_inodes_per_group (sb0 disk) * inode_size (sb0 disk) →
  on_device disk off size → i = inode_of_bytes (bytes_at disk off size) → inode_at disk n i.
Proof. intros H1 H2 -> -> H3 ->. by constructor. Qed.

Lemma inodes0 : inode_at disk0 2 inode_2 ∧ inode_at disk0 11 inode_11.
Proof. split; [apply (inode_at_eq _ _ _ 3200 128)|apply (inode_at_eq _ _ _ 4352 128)]; vm_compute; done. Qed.

Lemma stored0 : stored disk0 inode_2 (mjoin (rec_bytes <$> records0)) ∧ stored disk0 inode_11 (b "world!").
Proof.
  split; [replace (mjoin (rec_bytes <$> records0)) with (bytes_at disk0 (5 * bs0 disk0) (i_size inode_2)) by (vm_compute; reflexivity); apply (stored_one_block disk0 volume0_ok inode_2 5)
        |replace (b "world!") with (bytes_at disk0 (6 * bs0 disk0) (i_size inode_11)) by (vm_compute; reflexivity); apply (stored_one_block disk0 volume0_ok inode_11 6)].
  all: vm_compute; done.
Qed.

Lemma tree0 : on_disk disk0 1 2 (NDir [(b "hello", NFile (b "world!"))]).
Proof.
  eapply (od_dir disk0 0 2 inode_2 records0); [apply inodes0|done|apply stored0| |repeat constructor; set_solver|].
  - repeat constructor; vm_compute; done.
  - apply re_skip; [by left; vm_compute|]. apply re_skip; [by left; vm_compute|].
    apply (re_file disk0 0 (MkRec 11 1 (b "hello") (zeros (1000 - 13))) [] [] inode_11 (b "world!")); [by vm_compute|done|apply inodes0|apply stored0|constructor].
Qed.

Lemma ext2_mount_correct_witness : ∃ s' root, mount_ext2 0 2 (fs_empty tt) = Ret (Okay tt, s') ∧
  in_store (nodes s') root (NDir [(b "hello", NFile (b "world!"))]) ∧ MOUNT_TABLE s' = <[b "/mnt" := root]> (MOUNT_TABLE (fs_empty tt)).
Proof.
  destruct (ext2_mount_correct 0 disk0 ltac:(done) volume0_ok 1 (NDir [(b "hello", NFile (b "world!"))]) 2 (fs_empty tt)) as (s' & root & H1 & H2 & H3 & _).
  - exact tree0.
  - lia.
  - intros h _. apply lookup_empty.
  - exists s', root. split; [exact H1|]. split; [exact H2|exact H3].
Defined.
